(* ===== verification/_CoqProject ===== *)
-Q . S2P
Prelude.v
Sort.v
Table.v
Vector.v
Wire.v
Text.v
Paths.v
Bigint.v
Gfield.v
Tiger.v
Curve.v
Float32.v
Stream.v
Game.v
Random.v
State.v
Ents.v
Engine.v
Intermission.v
Ctf.v
Capture.v
Collect.v
Servmode.v
Roster.v
Items.v
Cheat.v
Combat.v
Events.v
Anticheat.v
Worldstate.v
Welcome.v
Ai.v
Demo.v
Clients.v
Match.v
Api.v
Filter.v
Packet.v
Service.v
Access.v
Prefix.v
Netbans.v
Extinfo.v
Authserver.v
Enet.v
Peer.v
Protocol.v
Reliable.v
Enetbooks.v
Sending.v
Enetlive.v
