(* ===== verification/Prelude.v ===== *)
(** * SuckerServ: a verification library

    SuckerServ is a game server for Sauerbraten (Cube 2): one process that speaks the
    ENet protocol of the game with its players, plays the rules of every game mode on
    behalf of the clients, watches them for cheating, records demos, answers the server
    browser, and is steered by scripts.  A second program, the server of accounts, tests
    the keys of players with challenges on an elliptic curve.  This library models that C++
    code in Rocq and proves what makes it correct.  The sources are named relative to the
    directory src/src of the repository.

    ** How the model is made

    Stateful code is a program of the monad [M S A], a function from a state to a result and
    a state (this file); the state of the game server is the record [server] of State.v,
    with the globals of the source grouped by what they serve.  A pointer to a client is a
    key of the heap [ci_heap]; the vectors [clients], [connects], [bots] and [spies] and the
    slots of the engine hold such keys, so that what the source shares the model shares.
    What leaves the server is the trace [sv_out]: the fields of every packet, to whom it goes
    and on which channel.  Integers are [Z] with the wrap-around of the source written out
    ([to_int], [to_uint], ...); [float] is IEEE binary32, computed (Float32.v).  Text is the
    list of its bytes.  What is not part of the program is an argument: the scripts ([Hooks],
    what a listener does at an event), the files and zlib ([Files]), the resolver ([Host]),
    sockets and clocks.  Where a theorem needs something of the scripts it says so with the
    class [HooksRespect]: at an event they keep a part of the state, or relate it, as the
    theorem demands.

    Loops whose recursion is not structural take fuel, and the fuel is shown to be enough
    where a theorem depends on it: the team loops ([autoteam_balanced]), the event queues
    ([flushevents_drains]), the field inversion ([invert_inverse]), [quicksort]
    ([quicksort_sorts]), the parser of packets ([packet_parsed]: every message consumes
    input, and so does every element of a list inside a message), the table of addresses (a lookup takes at least one of 32 bits per step), the event
    loop ([service_ends]), the rounds in which ENet sends its datagrams ([host_sends]).  A loop
    that redraws a random number until it changes ends for a fair source ([FairSource]); with
    the Mersenne twister it is cut after a hundred draws.  Two fields only record what
    happens: [hs_handled] (Service) the events that were handled, [ps_starved] (Packet)
    whether a loop over a list ran out of fuel; no operation looks at them.

    ** The files

    Foundations: Prelude (record updates [r <| f := v |>], machine integers, the monad, the
    relational logic [respects] with its hint database, random sources), Sort, Table, Vector
    (shared/tools.h: sorting, hash tables, growing arrays), Wire (byte buffers, integers and
    strings on the wire), Text (the character set, filtering, UTF-8, bounded strings), Paths
    (file names), Stream (binary files), Float32, Random (the Mersenne twister).

    Cryptography (shared/crypto.cpp): Bigint, Gfield, Tiger, Curve.

    The game (fpsgame/game.h, server.cpp): Game (constants, modes, messages, health and
    ammunition), State (clients, match, configuration, primitive updates), Engine (the table
    of clients, [sendpacket], [sendf]), Intermission (time and ranks), Ctf, Capture, Collect
    (the base modes of ctf.h, capture.h and collect.h), Servmode (the virtual interface
    [servmode] and its three implementations), Roster (names, teams, saved scores), Items,
    Cheat and Anticheat (anticheat.h), Combat (pushes, damage, death), Events (the timed
    events of clients), Ents (the entities of a map on disk, ents.h), Worldstate (relaying
    positions and messages), Welcome, Ai (bots, aiman.h), Demo, Clients (connecting, leaving,
    kicks, masters), Match (votes, map changes, overtime, the tick), Filter (which messages a
    client may send), Packet (the parser of all messages), Api (what scripts may call,
    hopmod/server_functions.cpp), Service (the event loop of engine/server.cpp, with the
    loop that [update_server] nests in it), Access (who gets a privilege, over any number of
    packets and ticks).

    The network (enet): Enet (clocks, commands and their bytes, packets, checksums), Peer
    (the queues of a peer: peer.c), Protocol (states, sending, receiving, bandwidth: protocol.c
    and host.c), with the theorems of Reliable, Enetbooks, Sending and Enetlive on top.  There the state
    is [enet_host]; what a host sends and the events it reports are parts of that state, the
    datagrams that arrive and the answers of the system its inputs.

    Around the game: Prefix (networks and the table of addresses, hopmod/net), Netbans
    (hopmod/netbans.cpp), Extinfo (the server browser, extinfo.h), Authserver
    (authserver/authserver.cpp).

    A definition has the name it has in the source, with the name of its mode in front where
    several modes have it ([ctf_update]); a handler of a message is [on_] and the message.
    The parts call each other as in the source: Packet hands the messages to Events, Match,
    Clients, Worldstate and the modes; these report through Engine; Match runs the tick, which
    flushes the events, updates the mode, checks the votes and the bots; a mode is reached
    only through the record [servmode], and the clients of that interface are proved against
    the class [ModeRespects], which the three modes discharge.

    ** What the theorems show

    - What is written is read back: integers, strings and packed fields (Wire, Engine), UTF-8
      (Text), the entities of a map, and what a cut file is taken for (Ents), the score of a
      player who returns (Roster), prefixes and the file of bans (Netbans).
    - Buffers: readers never leave their buffer, filtered text has only printable characters
      and fits (Wire, Text); arrays that grow lose nothing, hash tables are finite maps
      (Vector, Table); sorting gives a sorted permutation (Sort).
    - The modes keep their books: invariants of flags, bases and skulls under any sequence of
      events, a refinement of taking flags to an abstract owner, limits on dropped skulls
      (Ctf, Capture, Collect).
    - The rules: who may pick up what, how damage and death are counted, what a shot may hit,
      that queued events are all run, when a match goes into overtime, that a majority decides
      a vote, that teams are filled evenly and bots spread evenly (Items, Combat, Events,
      Match, Roster, Ai).
    - Clients: a client that is entered once is gone from every list when it leaves
      (Clients); each player gets the
      batch of the others' messages and positions without its own, in order (Worldstate).
    - Messages: the filter lets through exactly what a client in its state may send (Filter);
      every packet is parsed to its end or the client is disconnected, whatever lists it
      announces; a change of name keeps
      all names printable and short (Packet).
    - The cheat detector accuses of speeding only on the evidence it demands (Anticheat).
    - The event loop ends whatever the network delivers while it is served again from inside,
      with every event handled once and in its turn, and what that nesting does to a client that leaves at once is shown (Service); by itself
      the server only keeps or takes away the privilege of a client, or makes it a master while
      somebody has a privilege: all else is granted by scripts (Access).
    - ENet: a command written is read back (Enet); a reliable channel hands out the packets of
      its stream in their order, each once and complete, however datagrams are delayed,
      repeated or reordered, and hands out the next one when it arrives (Reliable); the counts
      of connected and limited peers agree with the peers after any calls (Enetbooks); the loop
      that sends ends, and leaves only what may not be sent yet (Sending, Enetlive).
    - Arithmetic: numbers of many digits, the field modulo 2^192 - 2^64 - 1 and its inverse
      (Bigint, Gfield); the hash and the curve are checked on published values and concrete
      keys (Tiger, Curve).
    - Queries do not give spies or addresses away, as long as no spy has the number of
      another client (Extinfo); the table of addresses answers with exactly the networks
      around an address (Prefix); the server of accounts lets in only who names the point of
      a pending challenge, once, gives every challenge that is closed a verdict, and keeps
      its limits whatever the network does (Authserver).

    Examples after the theorems run the definitions on concrete states; several show
    behaviour of the source that is not what it means to do ([lshift_wrong], [spy_dangles],
    [balanceteams_wrong_team], [path_not_idempotent], [erase_forgets], [odd_texts],
    [spy_shows], [late_answer], ...).

    ** Not modelled

    The HTTP library and its resources, zlib, MD5 and the database drivers are code of others
    that the program calls.  Of ENet the sockets (unix.c, win32.c), the hooks for checksums and
    compression (the server installs none), the counting of references to packets, the destruction of a host and waiting for the network (the server
    passes a timeout of zero) are left out; the game's model of its engine (Engine, Service) takes ENet's events as they come and
    is not built on Protocol.  The bindings between C++ and Lua, the timers of the
    scripts, the start and the end of the processes, sockets and the master server connection
    are calls into the interpreter or the system; what they would deliver is an argument of
    the modelled functions.  The client's side of the shared headers (rendering, prediction,
    console) is not compiled into the server.  Memory is modelled where sharing matters (the
    heap of clients, the name buffers of teams); allocation and release are not.  The group
    law of the curve is not proved: that the holder of a key passes is shown on examples. *)

From stdpp Require Export base numbers list option strings gmap fin_maps ssreflect.
From Stdlib Require Export ZArith Lia.

#[global] Set Default Goal Selector "!".
#[global] Open Scope Z_scope.

(** [decide_now] settles a decidable closed statement by evaluation. *)
Ltac decide_now := apply (bool_decide_unpack _); vm_compute; exact I.

(** * Record update

    [r <| f := v |>] is the C++ assignment [r.f = v]; the setter of a field is
    computed from the eta-expansion of the record. *)
Class Eta (R : Type) := eta : R -> R.

Definition pure_of {E A} (a : A) : E -> A := fun _ => a.
Definition ap_of {E A B} (f : E -> A -> B) (x : E -> A) : E -> B :=
  fun e => f e (x e).

Class FieldSetter {R F : Type} (proj : R -> F) := update_field : (F -> F) -> R -> R.
Arguments update_field {R F} proj {FieldSetter} f r /.

Notation "'settable' mk < f ; .. ; g >" :=
  (ap_of .. (ap_of (pure_of mk) f) .. g)
  (at level 0, mk at level 9, f at level 9, g at level 9, only parsing).

Ltac solve_setter :=
  match goal with
  | |- @FieldSetter ?R ?F ?proj =>
    let e := constr:(_ : Eta R) in
    let e := eval hnf in e in
    let t := eval pattern proj in e in
    match t with
    | ?body _ =>
      let t := constr:(fun (upd : F -> F) (r0 : R) => body (fun r => upd (proj r)) r0) in
      let t := eval cbv beta delta [ap_of pure_of] in t in
      exact t
    end
  end.

#[export] Hint Extern 1 (@FieldSetter _ _ _) => solve_setter : typeclass_instances.

Declare Scope update_scope.
Delimit Scope update_scope with upd.
#[warnings="-postfix-notation-not-level-1"]
Notation "r <| f := v |>" := (update_field f (fun _ => v) r)
  (at level 12, left associativity, f at level 99, v at level 200).
#[warnings="-postfix-notation-not-level-1"]
Notation "r <| f ::= u |>" := (update_field f u r)
  (at level 12, left associativity, f at level 99, u at level 200).

(** * Machine integers *)

Definition INT_MAX : Z := 2147483647.
Definition INT_MIN : Z := -2147483648.

Definition is_int (n : Z) : Prop := INT_MIN <= n <= INT_MAX.
Definition is_uchar (n : Z) : Prop := 0 <= n < 256.

#[global] Instance is_int_dec n : Decision (is_int n).
Proof. apply _. Defined.
#[global] Instance is_uchar_dec n : Decision (is_uchar n).
Proof. apply _. Defined.

(** Conversions of the C++ source: [(uchar)n], [(schar)n], [(uint)n] and the
    wrap-around of a 32-bit signed result. *)
Definition to_uchar (n : Z) : Z := n mod 256.
Definition to_schar (n : Z) : Z := (n + 128) mod 256 - 128.
Definition to_uint (n : Z) : Z := n mod 4294967296.
Definition to_int (n : Z) : Z := (n + 2147483648) mod 4294967296 - 2147483648.

(** The templates [min], [max] and [clamp] of tools.h on [int]. *)
Definition tmax (a b : Z) : Z := if a >? b then a else b.
Definition tmin (a b : Z) : Z := if a <? b then a else b.
Definition clamp (a b c : Z) : Z := tmax b (tmin a c).

Lemma tmax_spec a b : tmax a b = Z.max a b.
Proof. unfold tmax. destruct (Z.gtb_spec a b); lia. Qed.
Lemma tmin_spec a b : tmin a b = Z.min a b.
Proof. unfold tmin. destruct (Z.ltb_spec a b); lia. Qed.
Lemma clamp_spec a b c : clamp a b c = Z.max b (Z.min a c).
Proof. unfold clamp. by rw tmax_spec tmin_spec. Qed.
Lemma clamp_bounds a b c : b <= c -> b <= clamp a b c <= c.
Proof. rw clamp_spec. lia. Qed.

Create HintDb ints.
Create Rewrite HintDb ints.
#[export] Hint Rewrite tmax_spec tmin_spec clamp_spec : ints.

Lemma to_uchar_range n : 0 <= to_uchar n < 256.
Proof. unfold to_uchar. apply Z.mod_pos_bound. lia. Qed.
Lemma to_uchar_id n : is_uchar n -> to_uchar n = n.
Proof. unfold is_uchar, to_uchar. intros. by apply Z.mod_small. Qed.
Lemma to_int_id n : is_int n -> to_int n = n.
Proof. unfold is_int, INT_MIN, INT_MAX, to_int. intros. rw Z.mod_small; lia. Qed.
Lemma to_int_range n : is_int (to_int n).
Proof.
  unfold is_int, INT_MIN, INT_MAX, to_int.
  pose proof (Z.mod_pos_bound (n + 2147483648) 4294967296). lia.
Qed.
Lemma to_schar_range n : -128 <= to_schar n <= 127.
Proof. unfold to_schar. pose proof (Z.mod_pos_bound (n + 128) 256). lia. Qed.
#[export] Hint Resolve to_int_range to_uchar_range to_schar_range : ints.

(** Assembling an integer from disjoint bit fields is addition. *)
Lemma land_shiftl_disjoint a b k :
  0 <= k -> 0 <= a < 2 ^ k -> Z.land a (Z.shiftl b k) = 0.
Proof.
  intros Hk Ha. apply Z.bits_inj'. intros i Hi.
  rw Z.land_spec Z.bits_0. rewrite -> (Z.shiftl_spec b k i) by lia.
  destruct (Z.lt_ge_cases i k).
  - rewrite -> (Z.testbit_neg_r b (i - k)) by lia. apply andb_false_r.
  - rewrite <- (Z.mod_small a (2 ^ k)) by lia.
    rewrite -> Z.mod_pow2_bits_high by lia. done.
Qed.
Lemma lor_shiftl_add a b k :
  0 <= k -> 0 <= a < 2 ^ k -> Z.lor a (Z.shiftl b k) = a + b * 2 ^ k.
Proof.
  intros Hk Ha. pose proof (land_shiftl_disjoint a b k Hk Ha) as Hd.
  rw -(Z.lxor_lor _ _ Hd) -(Z.add_nocarry_lxor _ _ Hd).
  by rewrite -> Z.shiftl_mul_pow2 by lia.
Qed.

(** [zdecide] evaluates the integer comparisons of the goal that [lia] settles. *)
Ltac zdecide_step :=
  match goal with
  | |- context [?a <=? ?b] =>
    first [ rewrite -> (proj2 (Z.leb_le a b)) by lia
          | rewrite -> (proj2 (Z.leb_gt a b)) by lia ]
  | |- context [?a <? ?b] =>
    first [ rewrite -> (proj2 (Z.ltb_lt a b)) by lia
          | rewrite -> (proj2 (Z.ltb_ge a b)) by lia ]
  | |- context [?a =? ?b] =>
    first [ rewrite -> (proj2 (Z.eqb_eq a b)) by lia
          | rewrite -> (proj2 (Z.eqb_neq a b)) by lia ]
  | |- context [?a >=? ?b] => rewrite -> (Z.geb_leb a b)
  | |- context [?a >? ?b] => rewrite -> (Z.gtb_ltb a b)
  end.
Ltac zdecide := repeat (zdecide_step; simpl).

(** [zcases] splits on every integer comparison of the goal. *)
Ltac zcases_step :=
  match goal with
  | |- context [?a <=? ?b] => destruct (Z.leb_spec a b)
  | |- context [?a <? ?b] => destruct (Z.ltb_spec a b)
  | |- context [?a =? ?b] => destruct (Z.eqb_spec a b)
  | |- context [?a >=? ?b] => rewrite -> (Z.geb_leb a b)
  | |- context [?a >? ?b] => rewrite -> (Z.gtb_ltb a b)
  end.
Ltac zcases := repeat (zcases_step; simpl; try lia).

(** * Lists indexed by [int]

    [l .! i] is [buf[i]] of a container: [None] stands for an access outside
    the container, which the source leaves undefined. *)
Definition zlookup {A} (l : list A) (i : Z) : option A :=
  if 0 <=? i then l !! Z.to_nat i else None.
Definition zinsert {A} (l : list A) (i : Z) (x : A) : list A :=
  if 0 <=? i then <[Z.to_nat i := x]> l else l.
Definition zlength {A} (l : list A) : Z := Z.of_nat (length l).
Definition zalter {A} (f : A -> A) (i : Z) (l : list A) : list A :=
  if 0 <=? i then alter f (Z.to_nat i) l else l.
Notation "l .! i" := (zlookup l i) (at level 20, i at level 9).

Section zlist.
Context {A : Type}.
Implicit Types (l : list A) (i : Z) (x : A).

Lemma zlength_nonneg l : 0 <= zlength l.
Proof. unfold zlength. lia. Qed.
Lemma zlookup_Some_range l i x : l .! i = Some x -> 0 <= i < zlength l.
Proof.
  unfold zlookup, zlength. destruct (Z.leb_spec 0 i); [|done].
  intros Hl%lookup_lt_Some. lia.
Qed.
Lemma zlookup_is_Some l i : is_Some (l .! i) <-> 0 <= i < zlength l.
Proof.
  split; [intros [x ?]; by eapply zlookup_Some_range|].
  unfold zlookup, zlength. intros [Hi Hl].
  rw (proj2 (Z.leb_le _ _) Hi). apply lookup_lt_is_Some. lia.
Qed.
Lemma zlookup_None l i : l .! i = None <-> i < 0 \/ zlength l <= i.
Proof.
  rw eq_None_not_Some zlookup_is_Some. lia.
Qed.
Lemma zlength_zinsert l i x : zlength (zinsert l i x) = zlength l.
Proof. unfold zlength, zinsert. destruct (0 <=? i); [by rw length_insert|done]. Qed.
Lemma zlookup_zinsert_eq l i x :
  0 <= i < zlength l -> zinsert l i x .! i = Some x.
Proof.
  unfold zlookup, zinsert, zlength. intros [Hi Hl].
  rw (proj2 (Z.leb_le _ _) Hi). apply list_lookup_insert_eq. lia.
Qed.
Lemma zlookup_zinsert_ne l i j x : i <> j -> zinsert l i x .! j = l .! j.
Proof.
  unfold zlookup, zinsert. intros Hne.
  destruct (Z.leb_spec 0 i); [|done]. destruct (Z.leb_spec 0 j); [|done].
  apply list_lookup_insert_ne. lia.
Qed.
Lemma zlookup_elem_of l i x : l .! i = Some x -> x ∈ l.
Proof.
  unfold zlookup. destruct (0 <=? i); [|done]. apply list_elem_of_lookup_2.
Qed.
Lemma elem_of_zinsert l i x y : y ∈ zinsert l i x -> y = x \/ y ∈ l.
Proof.
  unfold zinsert. destruct (0 <=? i); [|by right].
  intros [j Hj]%list_elem_of_lookup.
  apply list_lookup_insert_Some in Hj as [(_ & -> & _)|[_ ?%list_elem_of_lookup_2]]; auto.
Qed.
Lemma zlookup_app_l l l' i : i < zlength l -> (l ++ l') .! i = l .! i.
Proof.
  unfold zlookup, zlength. intros. destruct (Z.leb_spec 0 i); [|done].
  apply lookup_app_l. lia.
Qed.
Lemma zlength_zalter f l i : zlength (zalter f i l) = zlength l.
Proof. unfold zlength, zalter. destruct (0 <=? i); [by rw length_alter|done]. Qed.
Lemma zlookup_zalter_eq f l i : zalter f i l .! i = f <$> l .! i.
Proof. unfold zlookup, zalter. destruct (0 <=? i); [by rw list_lookup_alter_eq|done]. Qed.
Lemma zlookup_zalter_ne f l i j : i <> j -> zalter f i l .! j = l .! j.
Proof.
  unfold zlookup, zalter. intros Hne.
  destruct (Z.leb_spec 0 i); [|done]. destruct (Z.leb_spec 0 j); [|done].
  apply list_lookup_alter_ne. lia.
Qed.
Lemma zlength_snoc l x : zlength (l ++ [x]) = zlength l + 1.
Proof. unfold zlength. rw length_app. simpl. lia. Qed.
Lemma zlength_app l l' : zlength (l ++ l') = zlength l + zlength l'.
Proof. unfold zlength. rw length_app. lia. Qed.
End zlist.
Create Rewrite HintDb zlists.
#[export] Hint Rewrite @zlength_zinsert @zlength_zalter @zlength_snoc @zlength_app : zlists.

(** A filter that drops nothing, and one that drops all. *)
Lemma filter_every {A} (P : A -> Prop) `{!forall x, Decision (P x)} l : Forall P l -> filter P l = l.
Proof. induction 1 as [|x l Hx _ IH]; [done|]. rewrite -> filter_cons_True by done. by rw IH. Qed.
Lemma filter_none {A} (P : A -> Prop) `{!forall x, Decision (P x)} l : Forall (fun x => ~ P x) l -> filter P l = [].
Proof. induction 1; [done|]. by rewrite -> filter_cons_False. Qed.

(** * State-passing programs

    The operations of the server read and write one state.  [M S A] is a
    program that starts in a state and returns a value and the state it leaves
    behind; sequencing is written as the source sequences its statements. *)
Definition M (S A : Type) : Type := S -> A * S.

Section monad.
Context {S : Type}.

Definition ret {A} (a : A) : M S A := fun s => (a, s).
Definition bind {A B} (m : M S A) (k : A -> M S B) : M S B :=
  fun s => let '(a, s') := m s in k a s'.
Definition gets {A} (f : S -> A) : M S A := fun s => (f s, s).
Definition modify (f : S -> S) : M S unit := fun s => (tt, f s).
Definition when (b : bool) (m : M S unit) : M S unit := if b then m else ret tt.
Fixpoint forM {A} (l : list A) (f : A -> M S unit) : M S unit :=
  match l with
  | [] => ret tt
  | x :: l' => bind (f x) (fun _ => forM l' f)
  end.
Fixpoint foldM {A W} (f : A -> W -> M S W) (l : list A) (w : W) : M S W :=
  match l with
  | [] => ret w
  | x :: l' => bind (f x w) (fun w => foldM f l' w)
  end.
Definition exec {A} (m : M S A) (s : S) : S := (m s).2.
Definition eval {A} (m : M S A) (s : S) : A := (m s).1.
End monad.

Lemma exec_bind {S A B} (m : M S A) (k : A -> M S B) s :
  exec (bind m k) s = exec (k (eval m s)) (exec m s).
Proof. unfold exec, eval, bind. by destruct (m s). Qed.
Lemma eval_bind {S A B} (m : M S A) (k : A -> M S B) s :
  eval (bind m k) s = eval (k (eval m s)) (exec m s).
Proof. unfold exec, eval, bind. by destruct (m s). Qed.

(** Two loops over the same list that keep their loop variables related run
    through the same states. *)
Lemma foldM_sim {S A V W} (Rel : list A -> S -> V -> W -> Prop)
    (f : A -> V -> M S V) (g : A -> W -> M S W) :
  (forall x rest s v w, Rel (x :: rest) s v w ->
    exists s' v' w', f x v s = (v', s') /\ g x w s = (w', s') /\ Rel rest s' v' w') ->
  forall l s v w, Rel l s v w ->
    exists s' v' w', foldM f l v s = (v', s') /\ foldM g l w s = (w', s') /\ Rel [] s' v' w'.
Proof.
  intros Hstep. induction l as [|x l IH]; intros s v w HR; cbn [foldM]; [by exists s, v, w|].
  destruct (Hstep x l s v w HR) as (s'&v'&w'&E1&E2&HR'). unfold bind. rw E1 E2. by apply IH.
Qed.

Declare Scope prog_scope.
Delimit Scope prog_scope with prog.
Bind Scope prog_scope with M.
Notation "x <- m ;; k" := (bind m (fun x => k))
  (at level 100, m at next level, right associativity) : prog_scope.
Notation "m ;; k" := (bind m (fun _ => k))
  (at level 100, right associativity) : prog_scope.
#[global] Open Scope prog_scope.

(** ** What a program preserves

    [respects R m]: the states before and after [m] are related by [R].  For a
    preorder [R] the sequencing constructs respect [R] when their parts do, so
    a claim about a handler is reduced to its primitive updates. *)
Definition respects {S A} (R : relation S) (m : M S A) : Prop :=
  forall s, R s (exec m s).

(** Preservation of an invariant is the special case [inv_rel I]. *)
Definition inv_rel {S} (I : S -> Prop) : relation S := fun s s' => I s -> I s'.
#[global] Instance inv_rel_preorder {S} (I : S -> Prop) : PreOrder (inv_rel I).
Proof. split; unfold inv_rel; repeat intro; auto. Qed.

Section respects.
Context {S : Type} (R : relation S) `{!PreOrder R}.

Lemma respects_ret {A} (a : A) : respects R (ret a).
Proof. intros s. reflexivity. Qed.
Lemma respects_gets {A} (f : S -> A) : respects R (gets f).
Proof. intros s. reflexivity. Qed.
Lemma respects_bind {A B} (m : M S A) (k : A -> M S B) :
  respects R m -> (forall a, respects R (k a)) -> respects R (bind m k).
Proof.
  intros Hm Hk s. unfold exec, bind. specialize (Hm s). unfold exec in Hm.
  destruct (m s) as [a s'] eqn:E; simpl in *.
  etransitivity; [exact Hm|apply Hk].
Qed.
Lemma respects_when b (m : M S unit) : respects R m -> respects R (when b m).
Proof. destruct b; simpl; auto using respects_ret. Qed.
Lemma respects_forM {A} (l : list A) (f : A -> M S unit) :
  (forall x, x ∈ l -> respects R (f x)) -> respects R (forM l f).
Proof.
  induction l as [|x l IH]; simpl; intros Hf; [apply respects_ret|].
  apply respects_bind; [apply Hf; set_solver|]. intros _. apply IH. set_solver.
Qed.
Lemma respects_foldM {A W} (f : A -> W -> M S W) (l : list A) w :
  (forall x w, respects R (f x w)) -> respects R (foldM f l w).
Proof.
  intros Hf. revert w. induction l as [|x l IH]; intros w; cbn [foldM]; [apply respects_ret|].
  apply respects_bind; [apply Hf|apply IH].
Qed.
Lemma respects_modify (f : S -> S) : (forall s, R s (f s)) -> respects R (modify f).
Proof. intros Hf s. apply Hf. Qed.
(** Reading the state first: the continuation may use what was read. *)
Lemma respects_read {A B} (f : S -> A) (k : A -> M S B) :
  (forall s, R s (exec (k (f s)) s)) -> respects R (bind (gets f) k).
Proof. intros Hk s. apply Hk. Qed.
(** The first step from a known state. *)
Lemma respects_bind_at {A B} (m : M S A) (k : A -> M S B) s :
  R s (exec m s) -> (forall a, respects R (k a)) -> R s (exec (bind m k) s).
Proof.
  intros Hm Hk. rw exec_bind. etransitivity; [exact Hm|apply Hk].
Qed.
End respects.

Create HintDb respects.
#[export] Hint Resolve respects_ret respects_gets respects_bind respects_when
  respects_forM : respects.

(** [solve_respects] opens a program along its control flow and leaves its
    primitive updates. *)
Ltac respects_step :=
  match goal with
  | |- respects _ (bind _ _) => apply respects_bind; [try apply _| |intros ?]
  | |- respects _ (ret _) => apply respects_ret; apply _
  | |- respects _ (gets _) => apply respects_gets; apply _
  | |- respects _ (when _ _) => apply respects_when; [apply _|]
  | |- respects _ (forM _ _) => apply respects_forM; [apply _|intros ? _]
  | |- respects _ (foldM _ _ _) => apply respects_foldM; [apply _|intros ? ?]
  | |- respects _ (if ?b then _ else _) => destruct b
  | |- respects _ (match ?x with _ => _ end) => destruct x
  end.
Ltac solve_respects := repeat (respects_step || (progress eauto with respects)).
(** [open_respects] opens the calls of a program as well, recursive ones apart. *)
Ltac head_of t := lazymatch t with ?f _ => head_of f | _ => t end.
Ltac open_call m :=
  let h := head_of m in
  let m' := eval cbv beta delta [h] in m in
  let h' := head_of m' in
  tryif is_fix h' then fail else unfold h.
Ltac open_respects :=
  repeat first [ respects_step | progress eauto with respects
               | lazymatch goal with |- respects _ ?m => open_call m; cbv beta zeta end ].

(** * Random numbers

    [randomMT] of tools.cpp is the only source of randomness; [rnd(x)] takes
    its low 31 bits modulo [x].  Components are proved against any source.
    [redraw_bound g] bounds how often a loop that redraws until it sees a new
    value can repeat; [FairSource] is the law that makes the bound enough. *)
Class RandomSource (G : Type) := {
  next_random : G -> Z * G;
  redraw_bound : G -> nat
}.

Section rnd.
Context {G : Type} `{!RandomSource G}.

Definition rnd (x : Z) (g : G) : Z * G :=
  let '(u, g') := next_random g in ((Z.land u 2147483647) `mod` x, g').

(** [do v = rnd(x); while(v == w);] *)
Fixpoint redraw (fuel : nat) (x w : Z) (g : G) : Z * G :=
  let '(v, g') := rnd x g in
  match fuel with
  | O => (v, g')
  | S fuel => if v =? w then redraw fuel x w g' else (v, g')
  end.

Lemma rnd_range x g : 0 < x -> 0 <= (rnd x g).1 < x.
Proof.
  intros. unfold rnd. destruct (next_random g) as [u g']; simpl.
  by apply Z.mod_pos_bound.
Qed.
Lemma redraw_range fuel x w g : 0 < x -> 0 <= (redraw fuel x w g).1 < x.
Proof.
  intros Hx. revert g. induction fuel as [|fuel IH]; intros g; simpl;
    pose proof (rnd_range x g Hx); destruct (rnd x g) as [v g']; simpl in *; [done|].
  destruct (v =? w); [apply IH|done].
Qed.
End rnd.

Class FairSource (G : Type) `{!RandomSource G} :=
  redraw_differs : forall (g : G) x w, 2 <= x -> (redraw (redraw_bound g) x w g).1 <> w.

(** A source that counts: fair, and easy to evaluate. *)
#[global] Instance counter_source : RandomSource Z := {
  next_random z := (z, z + 1);
  redraw_bound _ := 2%nat
}.

Lemma mod_succ_ne u x : 2 <= x -> (u + 1) mod x <> u mod x.
Proof.
  intros Hx E. assert (x <> 0) as H0 by (clear E; lia).
  pose proof (Z.div_mod u x H0) as H1. pose proof (Z.div_mod (u + 1) x H0) as H2.
  rw E in H2. rw {1}H1 in H2.
  generalize dependent (u mod x). generalize dependent (u / x).
  generalize dependent ((u + 1) / x). intros q' q r _ _ H2.
  destruct (Z.le_gt_cases q' q); nia.
Qed.

#[global] Instance counter_fair : FairSource Z.
Proof.
  intros g x w Hx. unfold redraw, redraw_bound, rnd; simpl.
  change 2147483647 with (Z.ones 31). rewrite -> !Z.land_ones by lia.
  change (2 ^ 31) with 2147483648.
  assert (forall u, (u + 1) mod 2147483648 mod x = u mod 2147483648 mod x ->
            u mod 2147483648 = 2147483647) as Hs.
  { intros u E. assert ((u + 1) mod 2147483648 = u mod 2147483648 + 1 \/
      u mod 2147483648 = 2147483647) as [E'|] by (Z.div_mod_to_equations; lia); [|done].
    rw E' in E. by apply mod_succ_ne in E. }
  destruct (Z.eqb_spec (g mod 2147483648 mod x) w) as [<-|]; [|done]. simpl.
  destruct (Z.eqb_spec ((g + 1) mod 2147483648 mod x) (g mod 2147483648 mod x)) as [E|]; [|done].
  simpl. intros E2. rw -E in E2. apply Hs in E. apply Hs in E2.
  Z.div_mod_to_equations. lia.
Qed.
