(* ===== verification/Sort.v ===== *)
(** Sorting (shared/tools.h [insertionsort], [quicksort]).

    Both sort a range of an array in place and look at nothing outside it: the
    range is the list, [start] its index 0 and [end] its length.  The two
    recursive calls of [quicksort] work on disjoint ranges, the one before and
    the one after the pivot. *)
From S2P Require Import Prelude.
From Stdlib Require Import Sorting.Sorted.

Section sort.
Context {T : Type} `{!Inhabited T} (less : T -> T -> bool).
Implicit Types (a : list T) (x pivot : T).

(** ** Insertion sort *)

(** [for(; j > start && fun(tmp, j[-1]); --j) *j = j[-1];] *)
Fixpoint shift_down (tmp : T) (j : nat) a : nat * list T :=
  match j with
  | O => (O, a)
  | S j' =>
    if less tmp (a !!! j') then shift_down tmp j' (<[j := a !!! j']> a) else (j, a)
  end.
Definition insert_at (i : nat) a : list T :=
  if less (a !!! i) (a !!! (i - 1)%nat) then
    let tmp := a !!! i in
    let a := <[i := a !!! (i - 1)%nat]> a in
    let '(j, a) := shift_down tmp (i - 1) a in
    <[j := tmp]> a
  else a.
Definition insertionsort a : list T :=
  fold_left (fun a i => insert_at i a) (seq 1 (length a - 1)) a.

(** ** Quicksort *)

Definition swap (i j : nat) a : list T := <[i := a !!! j]> (<[j := a !!! i]> a).
(** The median of the first, the middle and the last; the array is left with a
    hole at [end[-2]]. *)
Definition choose_pivot a : T * list T :=
  let n := length a in
  let mid := (n / 2)%nat in
  let s := a !!! 0%nat in let m := a !!! mid in let e := a !!! (n - 1)%nat in
  let '(pivot, a) :=
    if less s m then
      if less e s then (s, <[(n - 1)%nat := m]> (<[0%nat := e]> a))
      else if less e m then (e, <[(n - 1)%nat := m]> a)
      else (m, a)
    else if less s e then (s, <[0%nat := m]> a)
    else if less m e then (e, <[0%nat := m]> (<[(n - 1)%nat := s]> a))
    else (m, swap 0 (n - 1) a) in
  (pivot, <[mid := a !!! (n - 2)%nat]> a).

(** [while(fun( *i, pivot)) if(++i >= j) goto partitioned;]: the index, and
    whether the jump was taken. *)
Fixpoint scan_up (fuel : nat) pivot (i j : nat) a : nat * bool :=
  match fuel with
  | O => (i, true)
  | S fuel =>
    if less (a !!! i) pivot
    then if (j <=? S i)%nat then (S i, true) else scan_up fuel pivot (S i) j a
    else (i, false)
  end.
(** [while(fun(pivot, *--j)) if(i >= j) goto partitioned;] *)
Fixpoint scan_down pivot (i j : nat) a : nat * bool :=
  match j with
  | O => (O, true)
  | S j =>
    if less pivot (a !!! j)
    then if (j <=? i)%nat then (j, true) else scan_down pivot i j a
    else (j, false)
  end.
Fixpoint partition_loop (fuel : nat) pivot (i j : nat) a : nat * list T :=
  match fuel with
  | O => (i, a)
  | S fuel =>
    let '(i, out) := scan_up (length a) pivot i j a in
    if (out : bool) then (i, a) else
    let '(j, out) := scan_down pivot i j a in
    if (out : bool) then (i, a) else
    let a := swap i j a in
    if (S i <? j)%nat then partition_loop fuel pivot (S i) j a else (S i, a)
  end.
Definition partition a : nat * list T :=
  let '(pivot, a) := choose_pivot a in
  let n := length a in
  let '(i, a) := partition_loop n pivot 1 (n - 2) a in
  (i, <[i := pivot]> (<[(n - 2)%nat := a !!! i]> a)).
Fixpoint quicksort_loop (fuel : nat) a : list T :=
  match fuel with
  | O => a
  | S fuel =>
    if (10 <? length a)%nat then
      let '(i, a) := partition a in
      quicksort_loop fuel (take i a) ++ (a !!! i) :: quicksort_loop fuel (drop (S i) a)
    else insertionsort a
  end.
Definition quicksort a : list T := quicksort_loop (S (length a)) a.

(** * What sorting means

    [less] is a strict weak order: it is asymmetric and its complement is
    transitive. *)
Definition le x y : Prop := less y x = false.
Class StrictWeakOrder : Prop := {
  less_asym x y : less x y = true -> less y x = false;
  le_trans x y z : le x y -> le y z -> le x z
}.
Context {SWO : StrictWeakOrder}.

Lemma le_total x y : le x y \/ le y x.
Proof. unfold le. destruct (less y x) eqn:E; [right; by apply less_asym|by left]. Qed.

(** ** Insertion sort sorts *)

Lemma lookup_total_app_hd (p : list T) x q : (p ++ x :: q) !!! length p = x.
Proof. apply list_lookup_total_correct. rw lookup_app_r // Nat.sub_diag. done. Qed.
Lemma insert_app_hd (p : list T) x y q : <[length p := y]> (p ++ x :: q) = p ++ y :: q.
Proof. rewrite -> insert_app_r_alt by lia. by rw Nat.sub_diag. Qed.

(** The hole moves down past everything larger than [tmp]. *)
Lemma shift_down_spec tmp (p : list T) hole q :
  exists p1 p2 hole', p = p1 ++ p2 /\ Forall (fun z => less tmp z = true) p2 /\
    (if last p1 is Some z then less tmp z = false else True) /\
    shift_down tmp (length p) (p ++ hole :: q) = (length p1, p1 ++ hole' :: p2 ++ q).
Proof.
  revert hole q. induction p as [|z p IH] using rev_ind; intros hole q.
  { by exists [], [], hole. }
  rw length_app Nat.add_1_r. cbn [shift_down]. rw -app_assoc. cbn [app].
  rw lookup_total_app_hd. destruct (less tmp z) eqn:Hz.
  - replace (S (length p)) with (length (p ++ [z])) by (rw length_app /=; lia).
    rw (app_assoc p [z] (hole :: q)) insert_app_hd -app_assoc. cbn [app].
    destruct (IH z (z :: q)) as (p1&p2&hole'&->&Hp2&Hl&->).
    exists p1, (p2 ++ [z]), hole'. split_and!; [by rw app_assoc|by apply Forall_app_2; [|constructor]|done|].
    by rw -(app_assoc p2).
  - exists (p ++ [z]), [], hole. split_and!; [by rw app_nil_r|done|by rw last_snoc|].
    rw length_app Nat.add_1_r -app_assoc. done.
Qed.

(** Insertion of [x] behind everything that is not larger. *)
Lemma insert_at_spec (p : list T) x q :
  exists p1 p2, p = p1 ++ p2 /\ Forall (fun z => less x z = true) p2 /\
    (if last p1 is Some z then less x z = false else True) /\
    insert_at (length p) (p ++ x :: q) = p1 ++ x :: p2 ++ q.
Proof.
  unfold insert_at. rw lookup_total_app_hd. destruct p as [|z p _] using rev_ind.
  { exists [], []. split_and!; [done..|]. cbn. by destruct (less x x). }
  rw length_app Nat.add_1_r Nat.sub_succ Nat.sub_0_r -app_assoc. cbn [app].
  rw lookup_total_app_hd. destruct (less x z) eqn:Hz.
  - replace (S (length p)) with (length (p ++ [z])) by (rw length_app /=; lia).
    rw (app_assoc p [z] (x :: q)) insert_app_hd -app_assoc. cbn [app].
    destruct (shift_down_spec x p z (z :: q)) as (p1&p2&hole'&->&Hp2&Hl&->).
    exists p1, (p2 ++ [z]). split_and!; [by rw app_assoc|by apply Forall_app_2; [|constructor]|done|].
    rw insert_app_hd. by rw -(app_assoc p2).
  - exists (p ++ [z]), []. split_and!; [by rw app_nil_r|done|by rw last_snoc|]. by rw -app_assoc.
Qed.

Lemma sorted_insert p1 p2 x :
  StronglySorted le (p1 ++ p2) -> Forall (fun z => less x z = true) p2 ->
  (if last p1 is Some z then less x z = false else True) -> StronglySorted le (p1 ++ x :: p2).
Proof using SWO.
  intros Hs Hp2 Hl. induction p1 as [|y p1 IH]; cbn [app] in *.
  - constructor; [done|]. eapply Forall_impl; [exact Hp2|]. intros z Hz. by apply less_asym.
  - apply StronglySorted_inv in Hs as [Hs Hy]. apply Forall_app in Hy as [Hy1 Hy2].
    assert (le y x) as Hyx.
    { destruct p1 as [|z p1 _] using rev_ind; [exact Hl|]. rw last_cons last_snoc in Hl.
      apply Forall_app in Hy1 as [_ Hz]. apply Forall_inv in Hz. by eapply le_trans. }
    constructor.
    + apply IH; [done|]. by destruct p1.
    + apply Forall_app_2; [done|]. constructor; [done|exact Hy2].
Qed.
Lemma insertionsort_loop (q p : list T) :
  StronglySorted le p -> p <> [] ->
  let a := fold_left (fun a i => insert_at i a) (seq (length p) (length q)) (p ++ q) in
  StronglySorted le a /\ a ≡ₚ p ++ q.
Proof using SWO.
  revert p. induction q as [|x q IH]; intros p Hp Hne; cbn [length seq fold_left].
  { by rw app_nil_r. }
  destruct (insert_at_spec p x q) as (p1&p2&->&Hp2&Hl&->).
  destruct (IH (p1 ++ x :: p2)) as [Hs Hperm]; [by apply sorted_insert|by destruct p1|].
  replace (length (p1 ++ x :: p2)) with (S (length (p1 ++ p2))) in * by (rw !length_app /=; lia).
  rw -app_assoc in Hs Hperm. cbn [app] in *. split; [exact Hs|]. rw Hperm. rw -app_assoc.
  by rw (Permutation_middle p2 q x).
Qed.
Lemma insertionsort_spec a : StronglySorted le (insertionsort a) /\ insertionsort a ≡ₚ a.
Proof using SWO.
  unfold insertionsort. destruct a as [|x q]; [by split; [constructor|]|].
  cbn [length]. rw Nat.sub_succ Nat.sub_0_r. apply (insertionsort_loop q [x]); [|done].
  by constructor; [constructor|].
Qed.

(** ** The partition *)

Lemma swap_perm i j a : (i < length a)%nat -> (j < length a)%nat -> swap i j a ≡ₚ a.
Proof.
  assert (forall i j a, (i < j)%nat -> (j < length a)%nat -> swap i j a ≡ₚ a /\ swap j i a = swap i j a) as Hlt.
  { clear. intros i j a Hij Hj. unfold swap.
    split; [|by apply list_insert_insert_ne; lia].
    destruct (lookup_lt_is_Some_2 a i) as [x Hx]; [lia|].
    destruct (list_elem_of_split_length _ _ _ Hx) as (p&r&->&->).
    rw length_app in Hj. cbn [length] in Hj.
    destruct (lookup_lt_is_Some_2 r (j - S (length p))) as [y Hy]; [lia|].
    destruct (list_elem_of_split_length _ _ _ Hy) as (q&r'&->&Hq).
    assert (j = length (p ++ x :: q)) as -> by (rw length_app /=; lia).
    replace (p ++ x :: q ++ y :: r') with ((p ++ x :: q) ++ y :: r') at 1 2 3 by by rw -app_assoc.
    rw !lookup_total_app_hd insert_app_hd -!app_assoc. cbn [app]. rw lookup_total_app_hd insert_app_hd.
    apply Permutation_app_head. rw -!Permutation_middle. apply Permutation_swap. }
  intros Hi Hj. destruct (lt_eq_lt_dec i j) as [[H|<-]|H].
  - by apply Hlt.
  - unfold swap. rewrite -> !list_insert_id; [done|..];
      rw ?list_insert_id; by apply list_lookup_lookup_total_lt.
  - destruct (Hlt j i a) as [Hp E]; [lia..|]. by rw E.
Qed.

Lemma lookup_total_insert_eq a k x : (k < length a)%nat -> <[k := x]> a !!! k = x.
Proof. intros. by apply list_lookup_total_insert_eq. Qed.
Lemma lookup_total_insert_ne a k k' x : k <> k' -> <[k := x]> a !!! k' = a !!! k'.
Proof. intros. by apply list_lookup_total_insert_ne. Qed.
Lemma length_swap i j a : length (swap i j a) = length a.
Proof. unfold swap. by rw !length_insert. Qed.
Lemma lookup_swap i j k a :
  (i < length a)%nat -> (j < length a)%nat ->
  swap i j a !!! k = if decide (k = i) then a !!! j else if decide (k = j) then a !!! i else a !!! k.
Proof.
  intros Hi Hj. unfold swap. case_decide as H1; [subst; apply lookup_total_insert_eq; by rw length_insert|].
  rewrite -> lookup_total_insert_ne by done. case_decide as H2; [by subst; apply lookup_total_insert_eq|].
  by rewrite -> lookup_total_insert_ne by done.
Qed.

(** Two arrays of the same elements: [arrays] decides equality of arrays built
    by assignments. *)
Lemma array_ext a b : length a = length b -> (forall k, (k < length a)%nat -> a !!! k = b !!! k) -> a = b.
Proof.
  intros Hl Hk. apply list_eq. intros k. destruct (decide (k < length a)%nat) as [H|H].
  - rewrite -> !list_lookup_lookup_total_lt by lia. by rewrite -> Hk by done.
  - rewrite -> !lookup_ge_None_2 by lia. done.
Qed.
Ltac arrays :=
  apply array_ext; [unfold swap; by rw ?length_insert|];
  let k := fresh "k" in let Hk := fresh "Hk" in
  intros k Hk; unfold swap in *; rewrite -> ?length_insert in Hk;
  rewrite -> ?list_lookup_total_insert, ?length_insert;
  repeat case_decide; try (exfalso; lia); try done; try (f_equal; lia).

Ltac arr_at :=
  unfold swap; rewrite -> ?list_lookup_total_insert, ?length_insert; repeat case_decide; try (exfalso; lia).

Lemma perm_of_eq a b : a = b -> a ≡ₚ b.
Proof. by intros ->. Qed.

(** The array with the pivot in its hole. *)
Definition filled pivot a : list T := <[(length a - 2)%nat := pivot]> a.

Lemma choose_pivot_spec a :
  (10 < length a)%nat ->
  let '(pivot, b) := choose_pivot a in
  length b = length a /\ filled pivot b ≡ₚ a /\ le (b !!! 0%nat) pivot /\ le pivot (b !!! (length a - 1)%nat).
Proof using SWO.
  intros Hn. unfold choose_pivot. set (n := length a) in *. set (mid := (n / 2)%nat).
  assert (0 < mid /\ mid < n - 2)%nat as Hmid.
  { unfold mid. pose proof (Nat.div_mod_eq n 2). pose proof (Nat.mod_upper_bound n 2). lia. }
  set (s := a !!! 0%nat). set (m := a !!! mid). set (e := a !!! (n - 1)%nat).
  (* the rest of the choice, for an array that is [a] with [pivot] taken out of the middle *)
  assert (forall pivot b, length b = n -> <[mid := pivot]> b ≡ₚ a ->
    le (b !!! 0%nat) pivot -> le pivot (b !!! (n - 1)%nat) ->
    let b' := <[mid := b !!! (n - 2)%nat]> b in
    length b' = n /\ filled pivot b' ≡ₚ a /\ le (b' !!! 0%nat) pivot /\ le pivot (b' !!! (n - 1)%nat)) as Hrest.
  { intros pivot b Hl Hp H0 H1. cbv zeta. split_and!; [by rw length_insert| |..].
    - unfold filled. rw length_insert Hl. fold n.
      replace (<[(n - 2)%nat := pivot]> (<[mid := b !!! (n - 2)%nat]> b))
        with (swap mid (n - 2) (<[mid := pivot]> b)); [|arrays].
      rw swap_perm ?length_insert; [exact Hp|lia..].
    - rewrite -> lookup_total_insert_ne by lia. done.
    - rewrite -> lookup_total_insert_ne by lia. done. }
  (* the six orders *)
  assert (forall i j, (i < n)%nat -> (j < n)%nat -> swap i j a ≡ₚ a) as Hsw by (intros; by apply swap_perm).
  assert (forall i j i' j', (i < n)%nat -> (j < n)%nat -> (i' < n)%nat -> (j' < n)%nat ->
    swap i' j' (swap i j a) ≡ₚ a) as Hsw2 by (intros; rw !swap_perm ?length_swap; done).
  clearbody mid.
  destruct (less s m) eqn:Esm; [destruct (less e s) eqn:Ees; [|destruct (less e m) eqn:Eem]
                               |destruct (less s e) eqn:Ese; [|destruct (less m e) eqn:Eme]].
  - apply Hrest; [by rw !length_insert| |arr_at; by apply less_asym..].
    transitivity (swap 0 (n - 1) (swap 0 mid a)); [apply perm_of_eq; arrays|apply Hsw2; lia].
  - apply Hrest; [by rw !length_insert| |arr_at; exact Ees|arr_at; by apply less_asym].
    transitivity (swap mid (n - 1) a); [apply perm_of_eq; arrays|apply Hsw; lia].
  - apply Hrest; [done| |by apply less_asym|exact Eem]. apply perm_of_eq. arrays.
  - apply Hrest; [by rw !length_insert| |arr_at; exact Esm|arr_at; by apply less_asym].
    transitivity (swap 0 mid a); [apply perm_of_eq; arrays|apply Hsw; lia].
  - apply Hrest; [by rw !length_insert| |arr_at; by apply less_asym|arr_at; exact Ese].
    transitivity (swap mid (n - 1) (swap 0 mid a)); [apply perm_of_eq; arrays|apply Hsw2; lia].
  - apply Hrest; [by rw length_swap| |arr_at; exact Eme|arr_at; exact Esm].
    transitivity (swap 0 (n - 1) a); [apply perm_of_eq; arrays|apply Hsw; lia].
Qed.
Lemma scan_up_spec pivot j a : forall fuel i,
  (i < j)%nat -> (j - i <= fuel)%nat -> (forall k, (k < i)%nat -> le (a !!! k) pivot) ->
  let '(i', out) := scan_up fuel pivot i j a in
  (i <= i' <= j)%nat /\ (forall k, (k < i')%nat -> le (a !!! k) pivot) /\
  if out : bool then i' = j else (i' < j)%nat /\ le pivot (a !!! i').
Proof using SWO.
  induction fuel as [|fuel IH]; intros i Hi Hf Hlo; cbn [scan_up]; [lia|].
  destruct (less (a !!! i) pivot) eqn:E; [|split_and!; [lia..|done|lia|exact E]].
  assert (forall k, (k < S i)%nat -> le (a !!! k) pivot) as Hlo'.
  { intros k Hk. destruct (decide (k = i)) as [->|]; [by apply less_asym|apply Hlo; lia]. }
  destruct (Nat.leb_spec j (S i)); [split_and!; [lia..|done|lia]|].
  specialize (IH (S i) ltac:(lia) ltac:(lia) Hlo').
  destruct (scan_up fuel pivot (S i) j a) as [i' out]. destruct IH as (?&?&?). split_and!; [lia..|done|done].
Qed.
Lemma scan_down_spec pivot i m a : le pivot (a !!! i) -> forall j,
  (i < j)%nat -> (forall k, (j <= k < m)%nat -> le pivot (a !!! k)) ->
  let '(j', out) := scan_down pivot i j a in
  (i <= j' < j)%nat /\ (forall k, (j' < k < m)%nat -> le pivot (a !!! k)) /\
  if out : bool then j' = i else le (a !!! j') pivot.
Proof using SWO.
  intros Hi. induction j as [|j IH]; intros Hij Hhi; [lia|]. cbn [scan_down].
  destruct (less pivot (a !!! j)) eqn:E; [|split_and!; [lia..| |done]; intros k Hk; apply Hhi; lia].
  destruct (Nat.leb_spec j i) as [Hle|Hlt]; [split_and!; [lia..| |lia]; intros k Hk; apply Hhi; lia|].
  assert (forall k, (j <= k < m)%nat -> le pivot (a !!! k)) as Hhi'.
  { intros k Hk. destruct (decide (k = j)) as [->|]; [by apply less_asym|apply Hhi; lia]. }
  specialize (IH Hlt Hhi'). destruct (scan_down pivot i j a) as [j' out]. destruct IH as (?&?&?).
  split_and!; [lia..|done|done].
Qed.

(** What holds of the array between the steps: everything before [i] may stay
    before the pivot, everything from [j] on behind it. *)
Record parted (l : list T) pivot (i j : nat) a : Prop := {
  pt_len : length a = length l;
  pt_perm : filled pivot a ≡ₚ l;
  pt_last : le pivot (a !!! (length l - 1)%nat);
  pt_lo k : (k < i)%nat -> le (a !!! k) pivot;
  pt_hi k : (j <= k < length l - 2)%nat -> le pivot (a !!! k)
}.

Lemma filled_swap pivot i j a :
  (i < length a - 2)%nat -> (j < length a - 2)%nat -> filled pivot (swap i j a) ≡ₚ filled pivot a.
Proof.
  intros Hi Hj. transitivity (swap i j (filled pivot a)).
  - apply perm_of_eq. unfold filled. rw length_swap. arrays.
  - apply swap_perm; unfold filled; rw length_insert; lia.
Qed.

Lemma partition_loop_spec l pivot : (2 < length l)%nat -> forall fuel i j a,
  (i < j <= length l - 2)%nat -> (j - i <= fuel)%nat -> parted l pivot i j a ->
  let '(i', a') := partition_loop fuel pivot i j a in
  (i <= i' <= length l - 2)%nat /\ parted l pivot i' i' a'.
Proof using SWO.
  intros Hn. induction fuel as [|fuel IH]; intros i j a Hij Hf [Hl Hp Hla Hlo Hhi]; [lia|].
  cbn [partition_loop]. pose proof (scan_up_spec pivot j a (length a) i ltac:(lia) ltac:(lia) Hlo) as Hu.
  destruct (scan_up (length a) pivot i j a) as [i1 out]. destruct Hu as (Hi1&Hlo1&Hout).
  destruct out; [subst i1; split; [lia|by split]|]. destruct Hout as [Hlt Hge].
  pose proof (scan_down_spec pivot i1 (length l - 2) a Hge j Hlt Hhi) as Hd.
  destruct (scan_down pivot i1 j a) as [j1 out]. destruct Hd as (Hj1&Hhi1&Hout).
  destruct out.
  { subst j1. split; [lia|]. split; [done..|]. intros k Hk.
    destruct (decide (k = i1)) as [->|]; [done|apply Hhi1; lia]. }
  assert (parted l pivot (S i1) j1 (swap i1 j1 a)) as Hsw.
  { split.
    - by rw length_swap.
    - rewrite -> filled_swap by lia. done.
    - rewrite -> lookup_swap by lia. rewrite -> !decide_False by lia. done.
    - intros k Hk. rewrite -> lookup_swap by lia. case_decide; [done|]. rewrite -> decide_False by lia.
      apply Hlo1. lia.
    - intros k Hk. rewrite -> lookup_swap by lia. case_decide; [subst; by replace j1 with i1 by lia|].
      case_decide; [done|apply Hhi1; lia]. }
  destruct (Nat.ltb_spec (S i1) j1).
  - specialize (IH (S i1) j1 _ ltac:(lia) ltac:(lia) Hsw).
    destruct (partition_loop fuel pivot (S i1) j1 (swap i1 j1 a)) as [i' a']. destruct IH. split; [lia|done].
  - split; [lia|]. destruct Hsw. split; try done. intros k Hk. apply pt_hi0. lia.
Qed.

Lemma partition_spec a :
  (10 < length a)%nat ->
  let '(i, b) := partition a in
  (i < length a)%nat /\ length b = length a /\ b ≡ₚ a /\
  (forall k, (k < i)%nat -> le (b !!! k) (b !!! i)) /\
  (forall k, (i < k < length a)%nat -> le (b !!! i) (b !!! k)).
Proof using SWO.
  intros Hn. unfold partition. pose proof (choose_pivot_spec a Hn) as Hc.
  destruct (choose_pivot a) as [pivot b0]. destruct Hc as (Hl0&Hp0&Hfirst&Hlast).
  pose proof (partition_loop_spec a pivot ltac:(lia) (length b0) 1 (length b0 - 2) b0
    ltac:(lia) ltac:(lia)) as Hloop.
  destruct (partition_loop (length b0) pivot 1 (length b0 - 2) b0) as [i b].
  destruct Hloop as [Hi [Hl Hp Hla Hlo Hhi]].
  { split; [done..| |].
    - intros k Hk. by replace k with 0%nat by lia.
    - intros k Hk. lia. }
  rw Hl0. set (n := length a) in *. split_and!; [lia|by rw !length_insert| |..].
  - transitivity (filled pivot b); [|done]. unfold filled. rw Hl. fold n.
    destruct (decide (i = n - 2)%nat) as [->|Hne].
    + apply perm_of_eq. arrays.
    + transitivity (swap i (n - 2) (<[(n - 2)%nat := pivot]> b)).
      * apply perm_of_eq. arrays.
      * apply swap_perm; rw length_insert; lia.
  - intros k Hk. arr_at. apply Hlo. lia.
  - intros k Hk. arr_at; try done.
    + destruct (decide (i = n - 2)%nat); [lia|]. apply Hhi. lia.
    + destruct (decide (k = n - 1)%nat) as [->|]; [done|]. apply Hhi. lia.
Qed.

Lemma sorted_app_mid l1 x l2 :
  StronglySorted le l1 -> StronglySorted le l2 -> Forall (fun y => le y x) l1 -> Forall (le x) l2 ->
  StronglySorted le (l1 ++ x :: l2).
Proof using SWO.
  intros H1 H2 Hx1 Hx2. induction H1 as [|y l1 H1 IH Hy]; cbn [app]; [by constructor|].
  apply Forall_cons in Hx1 as [Hyx Hx1]. constructor; [by apply IH|].
  apply Forall_app_2; [done|]. constructor; [done|].
  eapply Forall_impl; [exact Hx2|]. intros z Hz. by eapply le_trans.
Qed.

Lemma quicksort_loop_spec : forall fuel a, (length a < fuel)%nat ->
  StronglySorted le (quicksort_loop fuel a) /\ quicksort_loop fuel a ≡ₚ a.
Proof using SWO.
  induction fuel as [|fuel IH]; intros a Hf; [lia|]. cbn [quicksort_loop].
  destruct (Nat.ltb_spec 10 (length a)) as [Hn|_]; [|apply insertionsort_spec].
  pose proof (partition_spec a Hn) as Hp. destruct (partition a) as [i b].
  destruct Hp as (Hi&Hl&Hp&Hlo&Hhi).
  destruct (IH (take i b)) as [S1 P1]; [rw length_take; lia|].
  destruct (IH (drop (S i) b)) as [S2 P2]; [rw length_drop; lia|]. split.
  - apply sorted_app_mid; [done..| |].
    + rw P1. apply Forall_lookup_2. intros k y [Hy Hk]%lookup_take_Some.
      apply list_lookup_total_correct in Hy as <-. by apply Hlo.
    + rw P2. apply Forall_lookup_2. intros k y Hy. rw lookup_drop in Hy.
      pose proof (lookup_lt_Some _ _ _ Hy). apply list_lookup_total_correct in Hy as <-. apply Hhi. lia.
  - rw P1 P2. rewrite -> take_drop_middle; [done|]. apply list_lookup_lookup_total_lt. lia.
Qed.
End sort.
Arguments StrictWeakOrder {T} less.

(** * Properties *)

(** C23: sorting sorts.  For every comparison that is a strict weak order,
    [quicksort] ends with an array in which nothing is larger than what comes
    after it, made of exactly the elements it was given; [insertionsort] is the
    same function of ranges up to ten, and the recursion the function follows is
    never deeper than the array is long. *)
Theorem quicksort_sorts {T} `{!Inhabited T} (less : T -> T -> bool) (a : list T) :
  StrictWeakOrder less ->
  StronglySorted (le less) (quicksort less a) /\ quicksort less a ≡ₚ a.
Proof. intros SWO. apply quicksort_loop_spec; [done|lia]. Qed.

#[export] Instance Zltb_strict : StrictWeakOrder Z.ltb.
Proof. split; unfold le; intros; lia. Qed.

Lemma quicksort_sorts_witness :
  let a := [31; 4; 15; 9; 26; 5; 35; 8; 9; 7; 93; 23; 84] in
  StronglySorted (le Z.ltb) (quicksort Z.ltb a) /\
  quicksort Z.ltb a = [4; 5; 7; 8; 9; 9; 15; 23; 26; 31; 35; 84; 93].
Proof. split; [|by vm_compute]. apply (quicksort_sorts Z.ltb). apply _. Defined.
