(* ===== verification/Table.v ===== *)
(** Hash tables (shared/tools.h [hashbase], [hashset], [hashtable], the hash functions).

    A chain is the list of its elements, newest first.  The chunks the links are taken
    from and the list of unused links are memory the tables manage for themselves and are
    left out; an element is destroyed when it is removed. *)
From stdpp Require Import gmap.
From S2P Require Import Prelude.

#[local] Open Scope list_scope.

(** ** Hash functions *)
Definition hash_step (h k : Z) : Z := Z.lxor (to_uint (Z.shiftl h 5 + h)) (to_uint k).
(** Characters are signed, the bytes of [memhash] are not. *)
Definition hthash_string (key : list Z) : Z := fold_left (fun h c => hash_step h (to_schar c)) key 5381.
Definition memhash (data : list Z) : Z := fold_left hash_step data 5381.
Definition hthash_int (key : Z) : Z := to_uint key.

(** What a table needs of its elements: the key of each, and a hash of keys. *)
Class Hashed (K E : Type) := { hthash : K -> Z; getkey : E -> K }.

Section table.
Context {K E : Type} `{Countable K} `{!Hashed K E}.

Record hashbase := mkhash { size : Z; numelems : Z; chains : list (list E) }.
Definition DEFAULTSIZE : Z := 2 ^ 10.
Definition hash_new (size : Z) : hashbase := mkhash size 0 (replicate (Z.to_nat size) []).

Definition slot_of (key : K) (t : hashbase) : nat := Z.to_nat (Z.land (hthash key) (size t - 1)).
Definition htcmp (key : K) (e : E) : bool := bool_decide (key = getkey e).
(** [HTFIND] *)
Definition chain_at (i : nat) (t : hashbase) : list E := default [] (chains t !! i).
Definition access (key : K) (t : hashbase) : option E := find (htcmp key) (chain_at (slot_of key t) t).
Definition insert (i : nat) (e : E) (t : hashbase) : hashbase :=
  mkhash (size t) (numelems t + 1) (alter (cons e) i (chains t)).
(** [access(key, elem)]: what is there already stays. *)
Definition access_or (key : K) (e : E) (t : hashbase) : E * hashbase :=
  match access key t with
  | Some e => (e, t)
  | None => (e, insert (slot_of key t) e t)
  end.
(** A write through the reference [access] gives. *)
Fixpoint update_first (p : E -> bool) (f : E -> E) (l : list E) : list E :=
  match l with
  | [] => []
  | e :: l => if p e then f e :: l else e :: update_first p f l
  end.
Definition update (key : K) (f : E -> E) (t : hashbase) : hashbase :=
  mkhash (size t) (numelems t) (alter (update_first (htcmp key) f) (slot_of key t) (chains t)).
Fixpoint remove_first (p : E -> bool) (l : list E) : list E :=
  match l with
  | [] => []
  | e :: l => if p e then l else e :: remove_first p l
  end.
Definition remove (key : K) (t : hashbase) : bool * hashbase :=
  match access key t with
  | None => (false, t)
  | Some _ => (true, mkhash (size t) (numelems t - 1) (alter (remove_first (htcmp key)) (slot_of key t) (chains t)))
  end.
Definition clear (t : hashbase) : hashbase :=
  if numelems t =? 0 then t else mkhash (size t) 0 (replicate (Z.to_nat (size t)) []).
(** [enumerate] *)
Definition elements (t : hashbase) : list E := concat (chains t).

(** * A table is a finite map *)

(** Every element is in the chain of its key, no key is twice in a chain. *)
Record table_wf (t : hashbase) : Prop := {
  wf_size : exists n, 0 <= n /\ size t = 2 ^ n;
  wf_chains : length (chains t) = Z.to_nat (size t);
  wf_place : forall i e, e ∈ chain_at i t -> slot_of (getkey e) t = i;
  wf_keys : forall i, NoDup (map getkey (chain_at i t));
  wf_count : numelems t = zlength (elements t)
}.
(** The map [m] holds what the table does. *)
Definition holds (t : hashbase) (m : gmap K E) : Prop :=
  table_wf t /\ forall k, access k t = m !! k.

Lemma slot_lt t k : table_wf t -> (slot_of k t < length (chains t))%nat.
Proof.
  intros Hwf. destruct (wf_size _ Hwf) as (n & Hn & Hs). rewrite -> (wf_chains _ Hwf). unfold slot_of.
  replace (size t - 1) with (Z.ones n) by (rewrite -> Z.ones_equiv; lia). rewrite -> Z.land_ones, Hs by lia.
  pose proof (Z.mod_pos_bound (hthash k) (2 ^ n)). lia.
Qed.
Lemma length_concat_alter (F : list E -> list E) i (l : list (list E)) x : l !! i = Some x ->
  zlength (concat (alter F i l)) = zlength (concat l) + zlength (F x) - zlength x.
Proof.
  unfold zlength. revert i. induction l as [|y l IH]; intros [|i] Hi; cbn in Hi; try done.
  - apply (inj Some) in Hi as ->. cbn. rewrite -> !length_app. lia.
  - cbn. rewrite -> !length_app. specialize (IH i Hi). lia.
Qed.
Lemma chain_alter n F i j t : (i < length (chains t))%nat ->
  chain_at j (mkhash (size t) n (alter F i (chains t))) = if decide (j = i) then F (chain_at j t) else chain_at j t.
Proof.
  intros Hi. unfold chain_at. cbn [chains]. rewrite -> list_lookup_alter. case_decide as Hd.
  - subst j. rewrite -> decide_True by done. by destruct (lookup_lt_is_Some_2 _ _ Hi) as [l ->].
  - by rewrite -> decide_False by done.
Qed.
Lemma alter_holds t m k F r : holds t m ->
  (forall k', k' <> k -> find (htcmp k') (F (chain_at (slot_of k t) t)) = find (htcmp k') (chain_at (slot_of k t) t)) ->
  find (htcmp k) (F (chain_at (slot_of k t) t)) = r ->
  NoDup (map getkey (F (chain_at (slot_of k t) t))) ->
  (forall e, e ∈ F (chain_at (slot_of k t) t) -> e ∈ chain_at (slot_of k t) t \/ getkey e = k) ->
  holds (mkhash (size t) (numelems t + zlength (F (chain_at (slot_of k t) t)) - zlength (chain_at (slot_of k t) t))
           (alter F (slot_of k t) (chains t)))
        (match r with Some e => <[k := e]> m | None => delete k m end).
Proof.
  intros [Hwf Hm] Hk Hr Hnd He. pose proof (slot_lt t k Hwf) as Hlt. set (t' := mkhash _ _ _).
  assert (forall j, chain_at j t' = if decide (j = slot_of k t) then F (chain_at j t) else chain_at j t) as Hc
    by (intros j; by apply chain_alter).
  split.
  - split; [apply Hwf|unfold t'; cbn [chains size]; rewrite -> length_alter; apply Hwf| | |].
    + intros j e. rewrite -> Hc. case_decide as Hd; [subst j; intros [H1|<-]%He; [by apply (wf_place _ Hwf)|done]|].
      by apply (wf_place _ Hwf).
    + intros j. rewrite -> Hc. case_decide as Hd; [by subst j|apply Hwf].
    + unfold t', elements. cbn [numelems chains]. destruct (lookup_lt_is_Some_2 _ _ Hlt) as [x Hx].
      rewrite -> (length_concat_alter F _ _ x Hx), (wf_count _ Hwf). unfold elements, chain_at. rewrite -> Hx. cbn. lia.
  - intros k'. unfold access at 1. rewrite -> Hc. change (slot_of k' t') with (slot_of k' t).
    destruct (decide (k' = k)) as [->|Hne].
    + rewrite -> decide_True, Hr by done. destruct r; [by rewrite -> lookup_insert_eq|by rewrite -> lookup_delete_eq].
    + transitivity (m !! k'); [rewrite <- Hm; unfold access; case_decide as Hd; [rewrite -> Hd; by apply Hk|done]|].
      destruct r; [by rewrite -> lookup_insert_ne|by rewrite -> lookup_delete_ne].
Qed.

Lemma find_key k l e : find (htcmp k) l = Some e -> getkey e = k /\ e ∈ l.
Proof.
  induction l as [|x l IH]; [done|]. cbn [find]. unfold htcmp at 1. case_bool_decide as Hk.
  - intros H'. apply (inj Some) in H' as ->. split; [done|left].
  - intros H'. destruct (IH H') as [??]. split; [done|by right].
Qed.
Lemma find_none_key k l e : find (htcmp k) l = None -> e ∈ l -> getkey e <> k.
Proof.
  intros Hf He. apply list_elem_of_In in He. apply (find_none _ _ Hf) in He. unfold htcmp in He.
  apply bool_decide_eq_false in He. congruence.
Qed.
Lemma keys_of l k : k ∈ map getkey l -> exists e, e ∈ l /\ getkey e = k.
Proof. intros H'. apply list_elem_of_fmap in H' as (e & -> & He). by exists e. Qed.

Lemma new_holds n : 0 <= n -> holds (hash_new (2 ^ n)) ∅.
Proof.
  intros Hn. assert (forall i, chain_at i (hash_new (2 ^ n)) = []) as Hc.
  { intros i. unfold chain_at. cbn. destruct (_ !! i) as [x|] eqn:Hx; [|done]. by apply lookup_replicate in Hx as [-> _]. }
  split; [split|].
  - by exists n.
  - apply length_replicate.
  - intros i e. rewrite -> Hc. by intros ?%not_elem_of_nil.
  - intros i. rewrite -> Hc. constructor.
  - unfold elements. cbn. induction (Z.to_nat (2 ^ n)); done.
  - intros k. unfold access. by rewrite -> Hc, lookup_empty.
Qed.
Lemma clear_holds t m : holds t m -> holds (clear t) ∅.
Proof.
  intros [Hwf Hm]. unfold clear. destruct (wf_size _ Hwf) as (n & Hn & Hs). case_match eqn:Hz; [|rewrite -> Hs; by apply new_holds].
  split; [done|]. intros k. rewrite -> lookup_empty. unfold access.
  assert (elements t = []) as He by (pose proof (wf_count _ Hwf); unfold zlength in *; destruct (elements t); [done|cbn in *; lia]).
  unfold chain_at. destruct (chains t !! slot_of k t) as [l|] eqn:Hl; [|done]. cbn.
  apply list_elem_of_lookup_2 in Hl. destruct l as [|e l]; [done|].
  assert (e ∈ elements t) as Hin by (apply list_elem_of_In, in_concat; exists (e :: l); split; [by apply list_elem_of_In|by left]).
  rewrite -> He in Hin. by apply not_elem_of_nil in Hin.
Qed.
Lemma insert_holds t m k e : holds t m -> m !! k = None -> getkey e = k ->
  holds (insert (slot_of k t) e t) (<[k := e]> m).
Proof.
  intros Ht Hk He. pose proof Ht as [Hwf Hm]. rewrite <- Hm in Hk.
  pose proof (alter_holds t m k (cons e) (Some e) Ht) as Ha.
  replace (insert (slot_of k t) e t) with (mkhash (size t)
    (numelems t + zlength (e :: chain_at (slot_of k t) t) - zlength (chain_at (slot_of k t) t)) (alter (cons e) (slot_of k t) (chains t)))
    by (unfold insert, zlength; cbn [length]; f_equal; lia).
  apply Ha.
  - intros k' Hne. cbn [find]. unfold htcmp at 1. by rewrite -> bool_decide_false by congruence.
  - cbn [find]. unfold htcmp at 1. by rewrite -> bool_decide_true.
  - cbn [map]. constructor; [|apply Hwf]. intros (e' & Hin & Hg)%keys_of. by apply (find_none_key k _ e' Hk Hin); congruence.
  - intros e' [-> |Hin]%elem_of_cons; auto.
Qed.
Lemma access_or_holds t m k e : holds t m -> getkey e = k ->
  (access_or k e t).1 = default e (m !! k) /\
  holds (access_or k e t).2 (match m !! k with Some _ => m | None => <[k := e]> m end).
Proof.
  intros Ht He. pose proof Ht as [Hwf Hm]. unfold access_or. rewrite -> Hm.
  destruct (m !! k) eqn:Hk; cbn; [done|]. split; [done|]. by apply insert_holds.
Qed.
(** The first element a test holds for. *)
Lemma update_first_keys k f l : (forall e, getkey (f e) = getkey e) -> map getkey (update_first (htcmp k) f l) = map getkey l.
Proof. intros Hf. induction l as [|e l IH]; [done|]. cbn. case_match; cbn; congruence. Qed.
Lemma update_first_length p f l : length (update_first p f l) = length l.
Proof. induction l as [|e l IH]; [done|]. cbn. case_match; cbn; congruence. Qed.
Lemma update_find k k' f l : (forall e, getkey (f e) = getkey e) ->
  find (htcmp k') (update_first (htcmp k) f l) =
  if decide (k' = k) then f <$> find (htcmp k) l else find (htcmp k') l.
Proof.
  intros Hf. assert (forall k e, htcmp k (f e) = htcmp k e) as Hh by (intros; unfold htcmp; by rewrite -> Hf).
  induction l as [|e l IH]; [by cbn; case_decide|]. cbn [update_first].
  destruct (htcmp k e) eqn:He; cbn [find].
  - rewrite -> Hh. case_decide as Hd; [subst k'; by rewrite -> He|].
    unfold htcmp in He |- *. apply bool_decide_eq_true in He. by rewrite -> bool_decide_false by congruence.
  - rewrite -> He, IH. case_decide as Hd; [subst k'; by rewrite -> He|done].
Qed.
Lemma update_first_elem k f l e : (forall e, getkey (f e) = getkey e) ->
  e ∈ update_first (htcmp k) f l -> e ∈ l \/ getkey e = k.
Proof.
  intros Hf. induction l as [|x l IH]; [by left|]. cbn [update_first]. destruct (htcmp k x) eqn:Hx.
  - unfold htcmp in Hx. apply bool_decide_eq_true in Hx.
    intros [-> |He]%elem_of_cons; [right; by rewrite -> Hf|left; by right].
  - intros [-> |He]%elem_of_cons; [left; left|]. destruct (IH He); [left; by right|by right].
Qed.
Lemma update_holds t m k f : holds t m -> (forall e, getkey (f e) = getkey e) ->
  holds (update k f t) (alter f k m).
Proof.
  intros Ht Hf. pose proof Ht as [Hwf Hm].
  pose proof (alter_holds t m k (update_first (htcmp k) f) (f <$> m !! k) Ht) as Ha.
  replace (alter f k m) with (match f <$> m !! k with Some e => <[k := e]> m | None => delete k m end).
  2:{ apply map_eq. intros k'. destruct (m !! k) as [e|] eqn:Hk; cbn.
      - destruct (decide (k' = k)) as [->|]; [by rewrite -> lookup_insert_eq, lookup_alter_eq, Hk|].
        by rewrite -> lookup_insert_ne, lookup_alter_ne.
      - destruct (decide (k' = k)) as [->|]; [by rewrite -> lookup_delete_eq, lookup_alter_eq, Hk|].
        by rewrite -> lookup_delete_ne, lookup_alter_ne. }
  replace (update k f t) with (mkhash (size t)
    (numelems t + zlength (update_first (htcmp k) f (chain_at (slot_of k t) t)) - zlength (chain_at (slot_of k t) t))
    (alter (update_first (htcmp k) f) (slot_of k t) (chains t)))
    by (unfold update, zlength; rewrite -> update_first_length; f_equal; lia).
  apply Ha.
  - intros k' Hne. by rewrite -> update_find, decide_False.
  - rewrite -> update_find, decide_True by done. f_equal. apply Hm.
  - rewrite -> update_first_keys by done. apply Hwf.
  - intros e He. by eapply update_first_elem.
Qed.
Lemma remove_first_find k k' l : NoDup (map getkey l) ->
  find (htcmp k') (remove_first (htcmp k) l) = if decide (k' = k) then None else find (htcmp k') l.
Proof.
  induction l as [|e l IH]; intros Hnd; [by case_decide|]. cbn [map] in Hnd. apply NoDup_cons in Hnd as [Hn Hnd].
  cbn [remove_first find]. destruct (htcmp k e) eqn:He.
  - case_decide as Hd; [subst k'|].
    + destruct (find (htcmp k) l) eqn:Hf; [|done]. exfalso. apply find_key in Hf as [Hk Hin].
      unfold htcmp in He. apply bool_decide_eq_true in He. apply Hn. rewrite <- He, <- Hk. by apply list_elem_of_fmap_2.
    + unfold htcmp at 2. rewrite -> bool_decide_false; [done|]. unfold htcmp in He. apply bool_decide_eq_true in He. congruence.
  - cbn [find]. rewrite -> IH by done. case_decide as Hd; [subst k'; by rewrite -> He|done].
Qed.
Lemma remove_first_sublist p l : remove_first p l `sublist_of` l.
Proof. induction l as [|e l IH]; [constructor|]. cbn. case_match; by constructor. Qed.
Lemma remove_first_keys p l : map getkey (remove_first p l) `sublist_of` map getkey l.
Proof. induction l as [|e l IH]; [constructor|]. cbn. case_match; by constructor. Qed.
Lemma remove_first_length k l : NoDup (map getkey l) -> forall e, find (htcmp k) l = Some e ->
  zlength (remove_first (htcmp k) l) = zlength l - 1.
Proof.
  unfold zlength. intros _. induction l as [|x l IH]; intros e; [done|]. cbn [find remove_first].
  destruct (htcmp k x); cbn [length]; [lia|]. intros Hf. specialize (IH e Hf). lia.
Qed.
Lemma remove_holds t m k : holds t m ->
  (remove k t).1 = bool_decide (is_Some (m !! k)) /\ holds (remove k t).2 (delete k m).
Proof.
  intros Ht. pose proof Ht as [Hwf Hm]. unfold remove. rewrite -> Hm. destruct (m !! k) as [e|] eqn:Hk; cbn.
  - split; [done|]. rewrite <- Hm in Hk. unfold access in Hk.
    pose proof (alter_holds t m k (remove_first (htcmp k)) None Ht) as Ha.
    rewrite -> (remove_first_length k _ (wf_keys _ Hwf _) e Hk) in Ha.
    replace (numelems t + (zlength (chain_at (slot_of k t) t) - 1) - zlength (chain_at (slot_of k t) t))
      with (numelems t - 1) in Ha by lia.
    apply Ha.
    + intros k' Hne. by rewrite -> (remove_first_find _ _ _ (wf_keys _ Hwf _)), decide_False.
    + by rewrite -> (remove_first_find _ _ _ (wf_keys _ Hwf _)), decide_True.
    + eapply sublist_NoDup; [apply (wf_keys _ Hwf)|]. apply remove_first_keys.
    + intros e' He'. left. by eapply elem_of_sublist; [|apply remove_first_sublist].
  - split; [done|]. by rewrite -> delete_id.
Qed.

(** ** Any use of a table *)
Inductive op : Type := Access (k : K) | Access_or (k : K) (e : E) | Update (k : K) (f : E -> E) | Remove (k : K) | Clear.
Definition run_table (o : op) (t : hashbase) : option E * hashbase :=
  match o with
  | Access k => (access k t, t)
  | Access_or k e => let '(e, t) := access_or k e t in (Some e, t)
  | Update k f => (access k t, update k f t)
  | Remove k => (access k t, (remove k t).2)
  | Clear => (None, clear t)
  end.
Definition run_map (o : op) (m : gmap K E) : option E * gmap K E :=
  match o with
  | Access k => (m !! k, m)
  | Access_or k e => (Some (default e (m !! k)), match m !! k with Some _ => m | None => <[k := e]> m end)
  | Update k f => (m !! k, alter f k m)
  | Remove k => (m !! k, delete k m)
  | Clear => (None, ∅)
  end.
(** A new element carries the key it is stored for, and a write leaves the key alone. *)
Definition keeps_keys (o : op) : Prop :=
  match o with
  | Access_or k e => getkey e = k
  | Update k f => forall e, getkey (f e) = getkey e
  | _ => True
  end.
Fixpoint run_all {S} (run : op -> S -> option E * S) (l : list op) (s : S) : list (option E) * S :=
  match l with
  | [] => ([], s)
  | o :: l => let '(r, s) := run o s in let '(rs, s) := run_all run l s in (r :: rs, s)
  end.

Lemma run_holds o t m : holds t m -> keeps_keys o ->
  (run_table o t).1 = (run_map o m).1 /\ holds (run_table o t).2 (run_map o m).2.
Proof.
  intros Ht Ho. pose proof Ht as [Hwf Hm]. destruct o as [k|k e|k f|k|]; cbn in *.
  - by rewrite -> Hm.
  - destruct (access_or_holds t m k e Ht Ho) as [H1 H2]. destruct (access_or k e t); cbn in *. by rewrite -> H1.
  - split; [apply Hm|]. by apply update_holds.
  - split; [apply Hm|]. by apply remove_holds.
  - split; [done|]. by eapply clear_holds.
Qed.
(** C36: A hash table, started with any power of two of chains and whatever the hash of its
    keys, answers any sequence of operations as the finite map from keys to elements does,
    and still stands for that map at the end. *)
Theorem table_refines n ops : 0 <= n -> Forall keeps_keys ops ->
  let '(rs, t) := run_all run_table ops (hash_new (2 ^ n)) in
  let '(rs', m) := run_all run_map ops ∅ in rs = rs' /\ holds t m.
Proof.
  intros Hn Hops. pose proof (new_holds n Hn) as Ht. revert Ht.
  generalize (hash_new (2 ^ n)) (∅ : gmap K E). induction Hops as [|o ops Ho Hops IH]; intros t m Ht; [done|].
  cbn [run_all]. destruct (run_holds o t m Ht Ho) as [H1 H2].
  destruct (run_table o t) as [r t1], (run_map o m) as [r' m1]. cbn in H1, H2. subst r'.
  specialize (IH t1 m1 H2). destruct (run_all run_table ops t1) as [rs t2], (run_all run_map ops m1) as [rs' m2].
  by destruct IH as [-> ?].
Qed.
End table.

#[export] Instance string_hashed {T} : Hashed (list Z) (list Z * T) := {| hthash := hthash_string; getkey := fst |}.
(** Eight keys in four chains. *)
Definition sample_ops : list (@op (list Z) (list Z * Z)) :=
  map (fun i => Access_or [97 + i] ([97 + i], i)) [0; 1; 2; 3; 4; 5; 6; 7] ++
  [Access_or [99] ([99], 20); Remove [100]; Access [100]; Update [101] (fun e => (e.1, 9)); Access [101]; Access [105]].
Lemma table_refines_witness :
  Forall keeps_keys sample_ops /\
  let '(rs, t) := run_all run_table sample_ops (hash_new (2 ^ 2)) in
  let '(rs', m) := run_all run_map sample_ops ∅ in rs = rs' /\ holds t m.
Proof.
  assert (Forall keeps_keys sample_ops) as H by (repeat constructor; by intros [? ?]).
  split; [exact H|]. apply (table_refines 2 sample_ops); [lia|exact H].
Defined.
Example sample_table :
  let '(rs, t) := run_all run_table sample_ops (hash_new (2 ^ 2)) in
  drop 8 rs = [Some ([99], 2); Some ([100], 3); None; Some ([101], 4); Some ([101], 9); None] /\ numelems t = 7.
Proof. vm_compute. done. Qed.
