(* ===== verification/Vector.v ===== *)
(** Growing arrays (shared/tools.h [vector]).

    [buf] is the memory, of [alen] cells, of which the first [ulen] are in use; what fresh
    memory holds is arbitrary.  Everywhere else in the development a vector is the list of
    its elements: here the operations are shown to work on that list.  Lengths stay far
    below the range of [int]; constructors and destructors of the elements are left out. *)
From S2P Require Import Prelude.

#[local] Open Scope list_scope.
#[local] Open Scope nat_scope.

Lemma rev_at {T} `{!Inhabited T} (l : list T) k : k < length l -> rev l !!! k = l !!! (length l - 1 - k).
Proof.
  intros Hk. apply list_lookup_total_correct. rewrite -> rev_alt. change (rev_append l []) with (reverse l).
  rewrite -> reverse_lookup by lia. replace (length l - S k) with (length l - 1 - k) by lia.
  apply list_lookup_lookup_total_lt. lia.
Qed.

Section vector.
Context {T : Type} `{!Inhabited T} `{!EqDecision T}.
(** What new memory holds at an index. *)
Variable raw : nat -> T.

Record vector := mkvector { buf : list T; ulen : nat }.
Definition alen (v : vector) : nat := length (buf v).
Definition empty_vector : vector := mkvector [] 0.
Definition contents (v : vector) : list T := take (ulen v) (buf v).

Definition MINSIZE : nat := 8.
(** [while(alen < sz) alen += alen/2;] *)
Fixpoint grow_to (fuel alen sz : nat) : nat :=
  match fuel with
  | O => alen
  | S fuel => if alen <? sz then grow_to fuel (alen + alen / 2) sz else alen
  end.
Definition growbuf (sz : nat) (v : vector) : vector :=
  let n := if alen v =? 0 then Nat.max MINSIZE sz else grow_to sz (alen v) sz in
  if n <=? alen v then v
  else mkvector (take (ulen v) (buf v) ++ map raw (seq (ulen v) (n - ulen v))) (ulen v).
Definition write (i : nat) (x : T) (v : vector) : vector := mkvector (<[i := x]> (buf v)) (ulen v).
Definition at_ (i : nat) (v : vector) : T := buf v !!! i.

Definition add (x : T) (v : vector) : vector :=
  let v := if ulen v =? alen v then growbuf (S (ulen v)) v else v in
  mkvector (<[ulen v := x]> (buf v)) (S (ulen v)).
Definition dup (v : vector) : vector :=
  let v := if ulen v =? alen v then growbuf (S (ulen v)) v else v in
  mkvector (<[ulen v := at_ (ulen v - 1) v]> (buf v)) (S (ulen v)).
Definition pop (v : vector) : T * vector := (at_ (ulen v - 1) v, mkvector (buf v) (ulen v - 1)).
Definition setsize (i : nat) (v : vector) : vector := mkvector (buf v) i.
Definition reserve (sz : nat) (v : vector) : vector :=
  if alen v - ulen v <? sz then growbuf (ulen v + sz) v else v.
Definition advance (sz : nat) (v : vector) : vector := mkvector (buf v) (ulen v + sz).
(** [put(vals, n)] *)
Definition put_vals (l : list T) (v : vector) : vector :=
  let v := reserve (length l) v in
  let k := ulen v in
  advance (length l) (fold_left (fun v '(i, x) => write (k + i) x v) (zip (seq 0 (length l)) l) v).
(** [for(int p = i+n; p < ulen; p++) buf[p-n] = buf[p];] *)
Definition copy_down (i n : nat) (v : vector) : vector :=
  fold_left (fun v p => write (p - n) (at_ p v) v) (seq (i + n) (ulen v - (i + n))) v.
(** [for(int p = ulen-1; p >= i+n; p--) buf[p] = buf[p-n];] *)
Definition copy_up (i n : nat) (v : vector) : vector :=
  fold_left (fun v p => write p (at_ (p - n) v) v) (rev (seq (i + n) (ulen v - (i + n)))) v.
Definition remove_range (i n : nat) (v : vector) : vector :=
  let v := copy_down i n v in mkvector (buf v) (ulen v - n).
Definition remove (i : nat) (v : vector) : T * vector := (at_ i v, remove_range i 1 v).
Definition removeunordered (i : nat) (v : vector) : T * vector :=
  let e := at_ i v in
  let n := ulen v - 1 in
  (e, mkvector (if 0 <? n then <[i := at_ n v]> (buf v) else buf v) n).
(** [find] *)
Definition index_of (x : T) (v : vector) : option nat :=
  List.find (fun i => bool_decide (at_ i v = x)) (seq 0 (ulen v)).
Definition addunique (x : T) (v : vector) : vector :=
  match index_of x v with None => add x v | Some _ => v end.
Definition removeobj (x : T) (v : vector) : vector :=
  match index_of x v with
  | None => v
  | Some i =>
    let '(v, dst) := fold_left (fun '(v, dst) j =>
      if bool_decide (at_ j v = x) then (v, dst) else (write dst (at_ j v) v, S dst))
      (seq (S i) (ulen v - S i)) (v, i) in
    setsize dst v
  end.
Definition replacewithlast (x : T) (v : vector) : vector :=
  if ulen v =? 0 then v else
  let v := match List.find (fun i => bool_decide (at_ i v = x)) (seq 0 (ulen v - 1)) with
           | Some i => write i (at_ (ulen v - 1) v) v
           | None => v
           end in
  mkvector (buf v) (ulen v - 1).
Definition insert (i : nat) (e : T) (v : vector) : vector :=
  write i e (copy_up i 1 (add (raw 0) v)).
(** [insert(i, e, n)] *)
Definition insert_vals (i : nat) (l : list T) (v : vector) : vector :=
  let n := length l in
  let v := if alen v - ulen v <? n then growbuf (ulen v + n) v else v in
  let v := fold_left (fun v j => add (raw j) v) (seq 0 n) v in
  let v := copy_up i n v in
  fold_left (fun v '(j, x) => write (i + j) x v) (zip (seq 0 n) l) v.
Definition swap (i j : nat) (v : vector) : vector :=
  write j (at_ i v) (write i (at_ j v) v).
Definition reverse (v : vector) : vector :=
  fold_left (fun v i => swap i (ulen v - 1 - i) v) (seq 0 (ulen v / 2)) v.
(** [move]: the elements of [w] go behind those of [v]; [w] is left empty. *)
Definition move (w v : vector) : vector * vector :=
  if ulen v =? 0 then (w, v)
  else
    let v := growbuf (ulen v + ulen w) v in
    (mkvector (take (ulen v) (buf v) ++ take (ulen w) (buf w) ++ drop (ulen v + ulen w) (buf v)) (ulen v + ulen w),
     mkvector (buf w) 0).

(** * What the operations do to the list *)

(** The capacity holds what is used and, once there is one, is at least [MINSIZE]. *)
Definition vector_wf (v : vector) : Prop := ulen v <= alen v /\ (alen v = 0 \/ MINSIZE <= alen v).

Lemma grow_to_enough fuel n sz : 2 <= n -> sz <= n + fuel -> sz <= grow_to fuel n sz /\ n <= grow_to fuel n sz.
Proof.
  revert n. induction fuel as [|fuel IH]; intros n Hn Hs; cbn [grow_to]; [lia|].
  destruct (Nat.ltb_spec n sz); [|lia]. assert (1 <= n / 2) by (apply Nat.div_le_lower_bound; lia).
  destruct (IH (n + n / 2)); lia.
Qed.
Lemma growbuf_spec sz v : vector_wf v ->
  vector_wf (growbuf sz v) /\ ulen (growbuf sz v) = ulen v /\ contents (growbuf sz v) = contents v /\ sz <= alen (growbuf sz v).
Proof.
  intros [Hu Ha]. unfold growbuf. set (n := if alen v =? 0 then _ else _).
  assert (sz <= n /\ (alen v = 0 -> MINSIZE <= n)) as [Hn Hm].
  { unfold n, MINSIZE in *. destruct (Nat.eqb_spec (alen v) 0); [lia|].
    destruct (grow_to_enough sz (alen v) sz); lia. }
  clearbody n. destruct (Nat.leb_spec n (alen v)).
  - split_and!; try done; unfold MINSIZE in *; lia.
  - unfold vector_wf, contents, alen in *. cbn [buf ulen]. rewrite -> length_app, length_take, length_map, length_seq.
    split_and!; [lia|right; unfold MINSIZE in *; lia|done| |lia].
    rewrite -> take_app_le by (rewrite -> length_take; lia). rewrite -> take_take. f_equal. lia.
Qed.

Lemma at_write i j x v : j < alen v -> at_ i (write j x v) = if decide (i = j) then x else at_ i v.
Proof.
  intros Hj. unfold at_, write. cbn [buf]. case_decide as H; [subst i; by apply list_lookup_total_insert_eq|].
  by apply list_lookup_total_insert_ne.
Qed.
Lemma alen_write i x v : alen (write i x v) = alen v.
Proof. apply length_insert. Qed.
Lemma contents_at v i : ulen v <= alen v -> i < ulen v -> contents v !! i = Some (at_ i v).
Proof.
  intros Hu Hi. unfold contents, at_. rewrite -> lookup_take_lt by done. apply list_lookup_lookup_total_lt.
  unfold alen in Hu. lia.
Qed.
Lemma length_contents v : ulen v <= alen v -> length (contents v) = ulen v.
Proof. intros Hu. unfold contents. rewrite -> length_take. unfold alen in Hu. lia. Qed.
Lemma contents_is v l : ulen v = length l -> ulen v <= alen v -> (forall i, i < length l -> at_ i v = l !!! i) -> contents v = l.
Proof.
  intros Hl Hu Hi. apply list_eq_same_length with (length l); [done|by rewrite -> length_contents|].
  intros i x y Hlt Hx Hy. rewrite -> contents_at in Hx by lia. rewrite -> Hi in Hx by done.
  apply list_lookup_total_correct in Hy. congruence.
Qed.
Lemma at_contents v i : ulen v <= alen v -> i < ulen v -> at_ i v = contents v !!! i.
Proof. intros Hu Hi. symmetry. apply list_lookup_total_correct. by apply contents_at. Qed.

(** A loop of writes. *)
Lemma down_loop n m : forall s v, n <= s -> s + m <= alen v -> 0 < n ->
  let v' := fold_left (fun v p => write (p - n) (at_ p v) v) (seq s m) v in
  ulen v' = ulen v /\ alen v' = alen v /\
  forall j, at_ j v' = if decide (s - n <= j < s - n + m) then at_ (j + n) v else at_ j v.
Proof.
  induction m as [|m IH]; intros s v Hn Hs Hn0; cbn [seq fold_left].
  - split_and!; try done. intros j. by rewrite -> decide_False by lia.
  - destruct (IH (S s) (write (s - n) (at_ s v) v)) as (Hu & Ha & Hj); [lia|rewrite -> alen_write; lia|done|].
    split_and!; [done|by rewrite -> Ha, alen_write|]. intros j. rewrite -> Hj, !at_write by lia.
    repeat case_decide; try lia; try done. by replace (j + n) with s by lia.
Qed.
Lemma up_loop n m : forall s v, n <= s -> s + m <= alen v -> 0 < n ->
  let v' := fold_left (fun v p => write p (at_ (p - n) v) v) (rev (seq s m)) v in
  ulen v' = ulen v /\ alen v' = alen v /\
  forall j, at_ j v' = if decide (s <= j < s + m) then at_ (j - n) v else at_ j v.
Proof.
  induction m as [|m IH]; intros s v Hn Hs Hn0.
  - cbn. split_and!; try done. intros j. by rewrite -> decide_False by lia.
  - rewrite -> seq_S, rev_unit. cbn [fold_left].
    destruct (IH s (write (s + m) (at_ (s + m - n) v) v)) as (Hu & Ha & Hj); [lia|rewrite -> alen_write; lia|done|].
    split_and!; [done|by rewrite -> Ha, alen_write|]. intros j. rewrite -> Hj, !at_write by lia.
    repeat case_decide; try lia; try done. by subst j.
Qed.
Lemma write_loop l : forall s k v, k + s + length l <= alen v ->
  let v' := fold_left (fun v '(i, x) => write (k + i) x v) (zip (seq s (length l)) l) v in
  ulen v' = ulen v /\ alen v' = alen v /\
  forall j, at_ j v' = if decide (k + s <= j < k + s + length l) then l !!! (j - (k + s)) else at_ j v.
Proof.
  induction l as [|x l IH]; intros s k v Hs; cbn [length seq zip zip_with fold_left] in *.
  - split_and!; try done. intros j. by rewrite -> decide_False by lia.
  - destruct (IH (S s) k (write (k + s) x v)) as (Hu & Ha & Hj); [rewrite -> alen_write; lia|].
    split_and!; [done|by rewrite -> Ha, alen_write|]. intros j. rewrite -> Hj, !at_write by lia.
    repeat case_decide; try lia; try done.
    + by replace (j - (k + s)) with (S (j - (k + S s))) by lia.
    + by replace (j - (k + s)) with 0 by lia.
Qed.

(** [v] is a vector with the elements [l]. *)
Definition holds (v : vector) (l : list T) : Prop := vector_wf v /\ contents v = l.
Lemma holds_len v l : holds v l -> ulen v = length l.
Proof. intros [[Hu Ha] <-]. by rewrite -> length_contents. Qed.
Lemma holds_at v l i : holds v l -> i < length l -> at_ i v = l !!! i.
Proof. intros H Hi. pose proof (holds_len v l H). destruct H as [[Hu Ha] <-]. apply at_contents; lia. Qed.
Lemma holds_is v v' l : vector_wf v -> alen v' = alen v -> ulen v' = length l -> ulen v' <= alen v ->
  (forall i, i < length l -> at_ i v' = l !!! i) -> holds v' l.
Proof. intros [Hu Ha] Hal Hul Hle Hi. split; [split; lia|]. apply contents_is; lia || done. Qed.

Lemma growbuf_holds sz v l : holds v l -> holds (growbuf sz v) l /\ sz <= alen (growbuf sz v).
Proof. intros [Hwf <-]. destruct (growbuf_spec sz v Hwf) as (? & ? & ? & ?). by repeat split; try apply H. Qed.
Lemma room_holds v l : holds v l ->
  let v' := if ulen v =? alen v then growbuf (S (ulen v)) v else v in
  holds v' l /\ S (length l) <= alen v'.
Proof.
  intros H. pose proof (holds_len v l H) as Hl. pose proof (growbuf_holds (S (ulen v)) v l H) as [H1 H2].
  destruct (Nat.eqb_spec (ulen v) (alen v)); [split; [done|lia]|]. split; [done|]. destruct H as [[Hu _] _]. lia.
Qed.
Lemma append_holds x v l : holds v l -> S (length l) <= alen v ->
  holds (mkvector (<[ulen v := x]> (buf v)) (S (ulen v))) (l ++ [x]).
Proof.
  intros H Hr. pose proof (holds_len v l H) as Hl. pose proof H as [Hwf _].
  change (mkvector _ _) with (mkvector (buf (write (ulen v) x v)) (S (ulen v))).
  apply (holds_is v); [done|apply alen_write|rewrite -> length_app; cbn; lia|cbn; lia|].
  intros i Hi. rewrite -> length_app in Hi. cbn in Hi. change (at_ i _) with (at_ i (write (ulen v) x v)).
  rewrite -> at_write by lia. case_decide as Hd.
  - by rewrite -> Hd, Hl, list_lookup_total_middle.
  - rewrite -> lookup_total_app_l by lia. apply holds_at; [done|lia].
Qed.
Lemma add_holds x v l : holds v l -> holds (add x v) (l ++ [x]).
Proof. intros H. destruct (room_holds v l H) as [H1 H2]. by apply append_holds. Qed.
Lemma dup_holds v l : holds v l -> l <> [] -> holds (dup v) (l ++ [l !!! (length l - 1)]).
Proof.
  intros H Hl. destruct (room_holds v l H) as [H1 H2]. unfold dup. cbv zeta in *. set (v' := if _ =? _ then _ else _) in *.
  assert (0 < length l) by (destruct l; cbn; lia || done). pose proof (holds_len v' l H1) as Hu.
  rewrite -> Hu at 2. rewrite -> (holds_at v' l) by (done || lia). by apply append_holds.
Qed.
Lemma cut_holds n v l : holds v l -> n <= length l -> holds (mkvector (buf v) n) (take n l).
Proof.
  intros H Hn. pose proof (holds_len v l H) as Hl. pose proof H as [Hwf _]. pose proof Hwf as [Hu _].
  apply (holds_is v); [done|done|rewrite -> length_take; cbn; lia|cbn; lia|].
  intros i Hi. rewrite -> length_take in Hi. change (at_ i _) with (at_ i v).
  rewrite -> lookup_total_take_lt by lia. apply holds_at; [done|lia].
Qed.
Lemma pop_holds v l : holds v l -> l <> [] -> pop v = (l !!! (length l - 1), (pop v).2) /\ holds (pop v).2 (take (length l - 1) l).
Proof.
  intros H Hl. assert (0 < length l) by (destruct l; cbn; lia || done). pose proof (holds_len v l H) as Hu.
  unfold pop. cbn [snd]. rewrite -> Hu, (holds_at v l) by (done || lia). split; [done|]. apply cut_holds; [done|lia].
Qed.
Lemma reserve_holds sz v l : holds v l -> holds (reserve sz v) l /\ length l + sz <= alen (reserve sz v).
Proof.
  intros H. pose proof (holds_len v l H) as Hl. unfold reserve.
  destruct (Nat.ltb_spec (alen v - ulen v) sz).
  - rewrite -> Hl. destruct (growbuf_holds (length l + sz) v l H). done.
  - split; [done|]. destruct H as [[Hu _] _]. lia.
Qed.
Lemma put_vals_holds x v l : holds v l -> holds (put_vals x v) (l ++ x).
Proof.
  intros H. destruct (reserve_holds (length x) v l H) as [H1 H2]. unfold put_vals. cbv zeta.
  set (v1 := reserve (length x) v) in *. pose proof (holds_len v1 l H1) as Hl.
  destruct (write_loop x 0 (ulen v1) v1) as (Hu & Ha & Hj); [lia|]. set (v2 := fold_left _ _ v1) in *.
  apply (holds_is v1); [apply H1|exact Ha|rewrite -> length_app; cbn; lia|cbn; lia|].
  intros i Hi. rewrite -> length_app in Hi. change (at_ i _) with (at_ i v2). rewrite -> Hj. case_decide as Hd.
  - rewrite -> lookup_total_app_r by lia. f_equal. lia.
  - rewrite -> lookup_total_app_l by lia. apply holds_at; [done|lia].
Qed.
Lemma remove_range_holds i n v l : holds v l -> i + n <= length l -> 0 < n ->
  holds (remove_range i n v) (take i l ++ drop (i + n) l).
Proof.
  intros H Hi Hn. pose proof (holds_len v l H) as Hl. pose proof H as [Hwf _]. pose proof Hwf as [Hw _].
  unfold remove_range, copy_down. destruct (down_loop n (ulen v - (i + n)) (i + n) v) as (Hu & Ha & Hj); [lia|lia|lia|].
  set (v1 := fold_left _ _ v) in *. cbv zeta.
  assert (length (take i l ++ drop (i + n) l) = length l - n) as HL by (rewrite -> length_app, length_take, length_drop; lia).
  apply (holds_is v); [done|done|cbn; lia|cbn; lia|].
  intros j Hlt. change (at_ j _) with (at_ j v1). rewrite -> Hj. case_decide as Hd.
  - rewrite -> lookup_total_app_r, length_take, lookup_total_drop by (rewrite -> length_take; lia).
    rewrite -> (holds_at v l) by (done || lia). f_equal. lia.
  - rewrite -> lookup_total_app_l, lookup_total_take_lt by (rewrite -> ?length_take; lia). apply holds_at; [done|lia].
Qed.
Lemma remove_listed i v l : holds v l -> i < length l ->
  (remove i v).1 = l !!! i /\ holds (remove i v).2 (take i l ++ drop (S i) l).
Proof.
  intros H Hi. unfold remove. cbn [fst snd]. split; [by apply holds_at|].
  replace (S i) with (i + 1) by lia. apply remove_range_holds; [done|lia|lia].
Qed.
Lemma removeunordered_holds i v l : holds v l -> i < length l ->
  (removeunordered i v).1 = l !!! i /\
  holds (removeunordered i v).2 (take (length l - 1) (<[i := l !!! (length l - 1)]> l)).
Proof.
  intros H Hi. pose proof (holds_len v l H) as Hl. pose proof H as [Hwf _]. pose proof Hwf as [Hw _].
  unfold removeunordered. cbn [fst snd]. split; [by apply holds_at|]. rewrite -> Hl.
  destruct (Nat.ltb_spec 0 (length l - 1)) as [Hn|Hn].
  - change (mkvector _ _) with (mkvector (buf (write i (at_ (length l - 1) v) v)) (length l - 1)).
    apply (holds_is v); [done|apply alen_write|rewrite -> length_take, length_insert; cbn; lia|cbn; lia|].
    intros j Hj. rewrite -> length_take, length_insert in Hj. change (at_ j _) with (at_ j (write i (at_ (length l - 1) v) v)).
    rewrite -> at_write, lookup_total_take_lt by lia. case_decide as Hd.
    + subst j. rewrite -> list_lookup_total_insert_eq by lia. apply holds_at; [done|lia].
    + rewrite -> list_lookup_total_insert_ne by done. apply holds_at; [done|lia].
  - replace (length l - 1) with 0 by lia. change (take 0 (<[i := l !!! 0]> l)) with (take 0 l). apply cut_holds; [done|lia].
Qed.

Lemma find_seq f n : forall s,
  match List.find f (seq s n) with
  | Some i => s <= i < s + n /\ f i = true /\ forall j, s <= j < i -> f j = false
  | None => forall j, s <= j < s + n -> f j = false
  end.
Proof.
  induction n as [|n IH]; intros s; cbn [seq List.find]; [lia|]. destruct (f s) eqn:Hs.
  - split_and!; [lia|lia|done|lia].
  - specialize (IH (S s)). destruct (List.find f (seq (S s) n)) as [i|].
    + destruct IH as (H1 & H2 & H3). split_and!; [lia|lia|done|]. intros j Hj. destruct (decide (j = s)) as [->|]; [done|]. apply H3. lia.
    + intros j Hj. destruct (decide (j = s)) as [->|]; [done|]. apply IH. lia.
Qed.
Lemma find_holds n x v l : holds v l -> n <= length l ->
  match List.find (fun i => bool_decide (at_ i v = x)) (seq 0 n) with
  | Some i => i < n /\ l !!! i = x /\ x ∉ take i l
  | None => x ∉ take n l
  end.
Proof.
  intros H Hn. assert (forall k, k <= n -> (forall j, 0 <= j < k -> bool_decide (at_ j v = x) = false) -> x ∉ take k l) as Hk.
  { intros k Hk Hf (j & Hj)%list_elem_of_lookup. apply lookup_take_Some in Hj as [Hj Hlt].
    specialize (Hf j ltac:(lia)). apply bool_decide_eq_false in Hf. apply Hf.
    rewrite -> (holds_at v l j H) by lia. by apply list_lookup_total_correct. }
  pose proof (find_seq (fun i => bool_decide (at_ i v = x)) n 0) as Hf.
  destruct (List.find _ _) as [i|].
  - destruct Hf as (H1 & H2 & H3). apply bool_decide_eq_true in H2. split_and!; [lia| |apply Hk; [lia|done]].
    rewrite <- (holds_at v l i H) by lia. done.
  - apply Hk; [lia|]. intros j Hj. apply Hf. lia.
Qed.
Lemma index_of_holds x v l : holds v l ->
  match index_of x v with Some i => i < length l /\ l !!! i = x /\ x ∉ take i l | None => x ∉ l end.
Proof.
  intros H. unfold index_of. rewrite -> (holds_len v l H). pose proof (find_holds (length l) x v l H (Nat.le_refl _)) as Hf.
  destruct (List.find _ _); [done|]. by rewrite -> firstn_all in Hf.
Qed.
Lemma addunique_holds x v l : holds v l -> holds (addunique x v) (if decide (x ∈ l) then l else l ++ [x]).
Proof.
  intros H. unfold addunique. pose proof (index_of_holds x v l H) as Hx. destruct (index_of x v) as [i|].
  - rewrite -> decide_True; [done|]. destruct Hx as (Hi & <- & _). by apply list_elem_of_lookup_total_2.
  - rewrite -> decide_False by done. by apply add_holds.
Qed.
Lemma remove_loop x m : forall j dst v, dst < j -> j + m <= alen v ->
  let '(v', dst') := fold_left (fun '(v, dst) j =>
      if bool_decide (at_ j v = x) then (v, dst) else (write dst (at_ j v) v, S dst)) (seq j m) (v, dst) in
  let kept := filter (fun y => y <> x) (map (fun p => at_ p v) (seq j m)) in
  ulen v' = ulen v /\ alen v' = alen v /\ dst' = dst + length kept /\
  forall k, k < dst' -> at_ k v' = if decide (dst <= k) then kept !!! (k - dst) else at_ k v.
Proof.
  induction m as [|m IH]; intros j dst v Hd Hm; cbn [seq fold_left map].
  - cbn. split_and!; [done|done|lia|]. intros k Hk. by rewrite -> decide_False by lia.
  - case_bool_decide as Hx.
    + rewrite -> filter_cons_False by (intros Hn; by apply Hn). specialize (IH (S j) dst v ltac:(lia) ltac:(lia)). exact IH.
    + rewrite -> filter_cons_True by done. specialize (IH (S j) (S dst) (write dst (at_ j v) v) ltac:(lia) ltac:(rewrite -> alen_write; lia)).
      assert (map (fun p => at_ p (write dst (at_ j v) v)) (seq (S j) m) = map (fun p => at_ p v) (seq (S j) m)) as Hmap.
      { apply map_ext_in. intros p Hp. apply in_seq in Hp. rewrite -> at_write, decide_False by lia. done. }
      destruct (fold_left _ _ _) as [v' dst']. rewrite -> Hmap in IH. destruct IH as (Hu & Ha & Hl & Hk). cbn [length].
      split_and!; [done|by rewrite -> Ha, alen_write|lia|]. intros k Hlt. rewrite -> Hk by done. rewrite -> at_write by lia.
      repeat case_decide; try lia; try done.
      * by replace (k - dst) with (S (k - S dst)) by lia.
      * by replace (k - dst) with 0 by lia.
Qed.
Lemma seq_contents v l i : holds v l -> i <= length l -> map (fun p => at_ p v) (seq i (length l - i)) = drop i l.
Proof.
  intros H Hi. apply list_eq_same_length with (length l - i); [by rewrite -> length_drop|by rewrite -> length_map, length_seq|].
  intros k x y Hk. rewrite -> list_lookup_fmap, lookup_seq_lt by lia. rewrite -> lookup_drop. cbn. intros Hx Hy.
  apply (inj Some) in Hx as <-. rewrite -> (holds_at v l) by (done || lia). by apply list_lookup_total_correct.
Qed.
Lemma filter_other (x : T) (l : list T) : x ∉ l -> filter (fun y => y <> x) l = l.
Proof.
  induction l as [|y l IH]; intros Hx; [done|]. apply not_elem_of_cons in Hx as [Hy Hx].
  rewrite -> filter_cons_True by congruence. by rewrite -> IH.
Qed.
Lemma removeobj_holds x v l : holds v l -> holds (removeobj x v) (filter (fun y => y <> x) l).
Proof.
  intros H. unfold removeobj. pose proof (index_of_holds x v l H) as Hx. destruct (index_of x v) as [i|].
  2:{ by rewrite -> filter_other by done. }
  destruct Hx as (Hi & Hl & Ht). pose proof (holds_len v l H) as Hu. pose proof H as [Hwf _]. pose proof Hwf as [Hw _].
  rewrite -> Hu. pose proof (remove_loop x (length l - S i) (S i) i v ltac:(lia) ltac:(lia)) as Hr.
  destruct (fold_left _ _ _) as [v' dst]. cbv zeta in Hr. rewrite -> (seq_contents v l (S i) H) in Hr by lia.
  destruct Hr as (Hu' & Ha & Hd & Hk).
  assert (filter (fun y => y <> x) l = take i l ++ filter (fun y => y <> x) (drop (S i) l)) as ->.
  { rewrite <- (take_drop_middle l i x) at 1; [|by rewrite -> list_lookup_lookup_total_lt, Hl by done].
    rewrite -> filter_app, (filter_other x (take i l)) by done. by rewrite -> filter_cons_False by (intros Hn; by apply Hn). }
  assert (length (filter (fun y => y <> x) (drop (S i) l)) <= length l - S i) as Hle
    by (rewrite <- length_drop; apply length_filter).
  apply (holds_is v); [done|done|rewrite -> length_app, length_take; cbn; lia|cbn; lia|].
  intros k Hlt. rewrite -> length_app, length_take in Hlt. change (at_ k _) with (at_ k v'). rewrite -> Hk by lia. case_decide.
  - rewrite -> lookup_total_app_r, length_take by (rewrite -> length_take; lia). f_equal. lia.
  - rewrite -> lookup_total_app_l, lookup_total_take_lt by (rewrite -> ?length_take; lia). apply holds_at; [done|lia].
Qed.

Lemma replacewithlast_holds x v l : holds v l ->
  holds (replacewithlast x v)
    (take (length l - 1) (match List.find (fun i => bool_decide (l !!! i = x)) (seq 0 (length l - 1)) with
                          | Some i => <[i := l !!! (length l - 1)]> l
                          | None => l
                          end)).
Proof.
  intros H. pose proof (holds_len v l H) as Hu. pose proof H as [Hwf _]. pose proof Hwf as [Hw _].
  unfold replacewithlast. rewrite -> Hu. destruct (Nat.eqb_spec (length l) 0) as [Hz|Hz]; [by destruct l|].
  assert (List.find (fun i => bool_decide (at_ i v = x)) (seq 0 (length l - 1)) =
          List.find (fun i => bool_decide (l !!! i = x)) (seq 0 (length l - 1))) as ->.
  { assert (forall n s, s + n <= length l -> List.find (fun i => bool_decide (at_ i v = x)) (seq s n) =
      List.find (fun i => bool_decide (l !!! i = x)) (seq s n)) as Hf; [|apply Hf; lia].
    induction n as [|n IH]; intros s Hs; [done|]. cbn [seq List.find]. rewrite -> (holds_at v l s H), IH by lia. done. }
  pose proof (find_seq (fun i => bool_decide (l !!! i = x)) (length l - 1) 0) as Hf.
  destruct (List.find _ _) as [i|]; [|rewrite -> Hu; apply cut_holds; [done|lia]].
  change (mkvector _ _) with (mkvector (buf (write i (at_ (length l - 1) v) v)) (ulen v - 1)). rewrite -> Hu.
  apply (holds_is v); [done|apply alen_write|rewrite -> length_take, length_insert; cbn; lia|cbn; lia|].
  intros j Hj. rewrite -> length_take, length_insert in Hj. change (at_ j _) with (at_ j (write i (at_ (length l - 1) v) v)).
  rewrite -> at_write, lookup_total_take_lt by lia. destruct (decide (j = i)) as [->|Hd].
  - rewrite -> list_lookup_total_insert_eq by lia. apply holds_at; [done|lia].
  - rewrite -> list_lookup_total_insert_ne by done. apply holds_at; [done|lia].
Qed.
(** [v] has room for the elements behind those of [l], whatever they are. *)
Lemma open_gap k v l extra : holds v (l ++ extra) -> length extra = k -> 0 < k -> forall i, i <= length l ->
  let v' := copy_up i k v in
  ulen v' = ulen v /\ alen v' = alen v /\
  forall j, j < length l + k -> at_ j v' = if decide (i + k <= j) then l !!! (j - k) else (l ++ extra) !!! j.
Proof.
  intros H He Hk i Hi. pose proof (holds_len v _ H) as Hu. rewrite -> length_app in Hu. pose proof H as [[Hw _] _].
  unfold copy_up. destruct (up_loop k (ulen v - (i + k)) (i + k) v) as (Hu' & Ha & Hj); [lia|lia|lia|].
  split_and!; [done|done|]. intros j Hlt. rewrite -> Hj. repeat case_decide; try lia.
  - rewrite -> (holds_at v _ _ H) by (rewrite -> length_app; lia). by apply lookup_total_app_l; lia.
  - apply (holds_at v _ _ H). rewrite -> length_app. lia.
Qed.
Lemma insert_listed i e v l : holds v l -> i <= length l -> holds (insert i e v) (take i l ++ e :: drop i l).
Proof.
  intros H Hi. pose proof (add_holds (raw 0) v l H) as H1. unfold insert. set (v1 := add (raw 0) v) in *.
  pose proof (holds_len v1 _ H1) as Hu. rewrite -> length_app in Hu. cbn [length] in Hu. pose proof H1 as [Hwf _]. pose proof Hwf as [Hw _]. clearbody v1.
  destruct (open_gap 1 v1 l [raw 0] H1 eq_refl ltac:(lia) i Hi) as (Hu' & Ha & Hj). set (v2 := copy_up i 1 v1) in *.
  assert (length (take i l ++ e :: drop i l) = S (length l)) as HL by (rewrite -> length_app, length_take; cbn; rewrite -> length_drop; lia).
  change (ulen v2 = ulen v1) with (ulen (write i e v2) = ulen v1) in Hu'.
  apply (holds_is v1); [done|by rewrite -> alen_write|lia|lia|].
  intros j Hlt. rewrite -> at_write by lia. case_decide as Hd.
  - subst j. rewrite -> lookup_total_app_r, length_take by (rewrite -> length_take; lia). by replace (i - i `min` length l) with 0 by lia.
  - rewrite -> Hj by lia. case_decide as Hd'.
    + rewrite -> lookup_total_app_r, length_take by (rewrite -> length_take; lia).
      replace (j - i `min` length l) with (S (j - 1 - i)) by lia. change ((e :: drop i l) !!! S (j - 1 - i)) with (drop i l !!! (j - 1 - i)). rewrite -> lookup_total_drop. f_equal. lia.
    + rewrite -> lookup_total_app_l by lia. by rewrite -> lookup_total_app_l, lookup_total_take_lt by (rewrite -> ?length_take; lia).
Qed.
Lemma adds_holds n : forall s v l, holds v l ->
  holds (fold_left (fun v j => add (raw j) v) (seq s n) v) (l ++ map raw (seq s n)).
Proof.
  induction n as [|n IH]; intros s v l H; cbn [seq fold_left map]; [by rewrite -> app_nil_r|].
  replace (l ++ raw s :: map raw (seq (S s) n)) with ((l ++ [raw s]) ++ map raw (seq (S s) n)) by (by rewrite <- app_assoc).
  apply IH. by apply add_holds.
Qed.
Lemma insert_vals_holds i x v l : holds v l -> i <= length l -> 0 < length x ->
  holds (insert_vals i x v) (take i l ++ x ++ drop i l).
Proof.
  intros H Hi Hx. unfold insert_vals. cbv zeta. set (v0 := if _ <? _ then _ else v).
  assert (holds v0 l) as H0 by (unfold v0; destruct (_ <? _); [by apply growbuf_holds|done]). clearbody v0.
  pose proof (adds_holds (length x) 0 v0 l H0) as H1. set (v1 := fold_left _ _ v0) in *. clearbody v1.
  pose proof (holds_len v1 _ H1) as Hu. rewrite -> length_app, length_map, length_seq in Hu. pose proof H1 as [Hwf _]. pose proof Hwf as [Hw _].
  destruct (open_gap (length x) v1 l _ H1 ltac:(by rewrite -> length_map, length_seq) Hx i Hi) as (Hu' & Ha & Hj).
  set (v2 := copy_up i (length x) v1) in *. destruct (write_loop x 0 i v2) as (Hu2 & Ha2 & Hj2); [lia|].
  set (v3 := fold_left _ _ v2) in *.
  assert (length (take i l ++ x ++ drop i l) = length l + length x) as HL by (rewrite -> !length_app, length_take, length_drop; lia).
  apply (holds_is v1); [done|congruence|lia|lia|]. intros j Hlt. rewrite -> Hj2, Hj by lia.
  assert (length (take i l) = i) as Hti by (rewrite -> length_take; lia). repeat case_decide; try lia.
  - rewrite -> lookup_total_app_r by lia. rewrite -> lookup_total_app_l by lia. f_equal. lia.
  - rewrite -> !lookup_total_app_r by lia. rewrite -> lookup_total_drop. f_equal. lia.
  - by rewrite -> lookup_total_app_l, lookup_total_app_l, lookup_total_take_lt by lia.
Qed.
Lemma swap_at i j k v : i < alen v -> j < alen v ->
  at_ k (swap i j v) = if decide (k = i) then at_ j v else if decide (k = j) then at_ i v else at_ k v.
Proof.
  intros Hi Hj. unfold swap. rewrite -> !at_write by (rewrite -> ?alen_write; lia). repeat case_decide; congruence || done.
Qed.
Lemma reverse_loop n : forall s v, s + n <= ulen v - (s + n) -> ulen v <= alen v -> 0 < ulen v ->
  let v' := fold_left (fun v i => swap i (ulen v - 1 - i) v) (seq s n) v in
  ulen v' = ulen v /\ alen v' = alen v /\
  forall k, k < ulen v -> at_ k v' = if decide (s <= k < s + n \/ ulen v - (s + n) <= k < ulen v - s) then at_ (ulen v - 1 - k) v else at_ k v.
Proof.
  induction n as [|n IH]; intros s v Hs Hw Hu; cbn [seq fold_left].
  - split_and!; try done. intros k Hk. by rewrite -> decide_False by lia.
  - assert (alen (swap s (ulen v - 1 - s) v) = alen v) as Hsw by (unfold swap; by rewrite -> !alen_write).
    destruct (IH (S s) (swap s (ulen v - 1 - s) v)) as (Hu' & Ha & Hk); [cbn; lia|rewrite -> Hsw; done|done|].
    change (ulen (swap s (ulen v - 1 - s) v)) with (ulen v) in *. split_and!; [done|congruence|].
    intros k Hlt. rewrite -> Hk by done. rewrite -> !swap_at by lia. repeat case_decide; try lia; try done; f_equal; lia.
Qed.
Lemma reverse_holds v l : holds v l -> holds (reverse v) (rev l).
Proof.
  intros H. pose proof (holds_len v l H) as Hu. pose proof H as [Hwf _]. pose proof Hwf as [Hw _]. unfold reverse.
  destruct (Nat.eq_0_gt_0_cases (ulen v)) as [Hz|Hz]; [assert (l = []) as -> by (destruct l; [done|cbn in Hu; lia]); by rewrite -> Hz|].
  pose proof (Nat.div_mod (ulen v) 2 ltac:(lia)) as Hd. pose proof (Nat.mod_upper_bound (ulen v) 2 ltac:(lia)) as Hm.
  destruct (reverse_loop (ulen v / 2) 0 v) as (Hu' & Ha & Hk); [lia|done|done|]. set (v' := fold_left _ _ v) in *.
  apply (holds_is v); [done|done|rewrite -> length_rev; lia|lia|]. intros k Hlt. rewrite -> length_rev in Hlt.
  rewrite -> Hk, rev_at by lia.
  case_decide; rewrite -> (holds_at v l) by (done || lia); f_equal; lia.
Qed.
Lemma move_holds w v l l' : holds v l -> holds w l' ->
  holds (move w v).1 (l ++ l') /\ holds (move w v).2 [].
Proof.
  intros H H'. pose proof (holds_len v l H) as Hl. pose proof (holds_len w l' H') as Hl'. unfold move.
  destruct (Nat.eqb_spec (ulen v) 0) as [Hz|Hz].
  - destruct l; [|cbn in Hl; lia]. by split.
  - destruct (growbuf_holds (ulen v + ulen w) v l H) as [H1 Ha]. set (v1 := growbuf _ v) in *. clearbody v1.
    pose proof (holds_len v1 l H1) as Hl1. cbn [fst snd]. pose proof H1 as [[Hw Hm] Hc]. pose proof H' as [[Hw' Hm'] Hc'].
    unfold contents in Hc, Hc'. rewrite -> Hc, Hc'. split.
    + assert (length (l ++ l' ++ drop (ulen v1 + ulen w) (buf v1)) = alen v1) as Hal
        by (unfold alen in *; rewrite -> !length_app, length_drop; lia).
      split; [split; unfold alen in *; cbn [buf ulen]; rewrite -> Hal; lia|].
      unfold contents. cbn [buf ulen]. rewrite -> app_assoc, take_app_length' by (rewrite -> length_app; lia). done.
    + split; [|done]. split; [cbn; lia|exact Hm'].
Qed.

(** ** Any use of a vector *)
Inductive op : Type :=
| Add (x : T) | Dup | Pop | Drop_to (n : nat) | Put (x : list T) | Remove_range (i n : nat) | Remove (i : nat)
| Removeunordered (i : nat) | Addunique (x : T) | Removeobj (x : T) | Insert (i : nat) (x : T)
| Insert_vals (i : nat) (x : list T) | Reverse | Append (w : vector) (x : list T).
(** What the source takes for granted of the arguments. *)
Definition allowed (o : op) (l : list T) : Prop :=
  match o with
  | Dup | Pop => l <> []
  | Drop_to n => n <= length l
  | Remove_range i n => i + n <= length l /\ 0 < n
  | Remove i | Removeunordered i => i < length l
  | Insert i _ => i <= length l
  | Insert_vals i x => i <= length l /\ 0 < length x
  | Append w x => holds w x
  | _ => True
  end.
Definition run_vector (o : op) (v : vector) : vector :=
  match o with
  | Add x => add x v | Dup => dup v | Pop => (pop v).2 | Drop_to n => setsize n v | Put x => put_vals x v
  | Remove_range i n => remove_range i n v | Remove i => (remove i v).2
  | Removeunordered i => (removeunordered i v).2 | Addunique x => addunique x v | Removeobj x => removeobj x v
  | Insert i x => insert i x v | Insert_vals i x => insert_vals i x v | Reverse => reverse v
  | Append w _ => (move w v).1
  end.
Definition run_list (o : op) (l : list T) : list T :=
  match o with
  | Add x => l ++ [x] | Dup => l ++ [l !!! (length l - 1)] | Pop => take (length l - 1) l | Drop_to n => take n l
  | Put x => l ++ x | Remove_range i n => take i l ++ drop (i + n) l | Remove i => take i l ++ drop (S i) l
  | Removeunordered i => take (length l - 1) (<[i := l !!! (length l - 1)]> l)
  | Addunique x => if decide (x ∈ l) then l else l ++ [x]
  | Removeobj x => filter (fun y => y <> x) l
  | Insert i x => take i l ++ x :: drop i l | Insert_vals i x => take i l ++ x ++ drop i l
  | Reverse => rev l | Append _ x => l ++ x
  end.
Lemma run_listed o v l : holds v l -> allowed o l -> holds (run_vector o v) (run_list o l).
Proof.
  intros H Ho. destruct o; cbn [run_vector run_list allowed] in *.
  - by apply add_holds.
  - by apply dup_holds.
  - by apply pop_holds.
  - by apply cut_holds.
  - by apply put_vals_holds.
  - destruct Ho. by apply remove_range_holds.
  - by apply remove_listed.
  - by apply (removeunordered_holds i v l).
  - by apply addunique_holds.
  - by apply removeobj_holds.
  - by apply insert_listed.
  - destruct Ho. by apply insert_vals_holds.
  - by apply reverse_holds.
  - exact (proj1 (move_holds w v l x H Ho)).
Qed.
Fixpoint all_allowed (ops : list op) (l : list T) : Prop :=
  match ops with
  | [] => True
  | o :: ops => allowed o l /\ all_allowed ops (run_list o l)
  end.
(** C37: Whatever is done to a vector, within the bounds the source asserts, its elements
    are those the same operations give on lists, its capacity holds them and never falls
    under the minimum: growing loses nothing, and the loops that shift elements in place
    overwrite nothing that is still needed. *)
Theorem vector_refines ops : forall v l, holds v l -> all_allowed ops l ->
  holds (fold_left (fun v o => run_vector o v) ops v) (fold_left (fun l o => run_list o l) ops l).
Proof.
  induction ops as [|o ops IH]; intros v l H Ha; [done|]. destruct Ha as [Ho Ha]. cbn [fold_left].
  apply IH; [by apply run_listed|done].
Qed.
End vector.

Definition sample_vector : @vector nat := mkvector [7; 7; 7; 7; 7; 7; 7; 7] 0.
Definition sample_uses : list (@op nat) :=
  map Add (seq 1 12) ++ [Remove_range 2 3; Insert 1 40; Insert_vals 0 [50; 51]; Reverse; Addunique 12; Removeobj 50; Removeunordered 1; Dup; Pop].
Lemma vector_refines_witness :
  holds sample_vector [] /\ all_allowed sample_uses [] /\
  holds (fold_left (fun v o => run_vector (fun _ => 9) o v) sample_uses sample_vector) (fold_left (fun l o => run_list o l) sample_uses []).
Proof.
  assert (holds sample_vector []) as H by (repeat split; cbn; unfold MINSIZE; lia).
  assert (all_allowed sample_uses []) as Ha by (vm_compute; repeat split; try lia; done).
  split_and!; [exact H|exact Ha|]. by apply (vector_refines (fun _ => 9) sample_uses).
Defined.
Example vector_uses :
  contents (fold_left (fun v o => run_vector (fun _ => 9) o v) sample_uses sample_vector) = [12; 51; 10; 9; 8; 7; 6; 2; 40; 1].
Proof. vm_compute. reflexivity. Qed.
