(* ===== verification/Wire.v ===== *)
(** The wire format: byte buffers ([databuf], [packetbuf] of shared/tools.h)
    and the integer and string encodings of shared/tools.cpp.

    A [ucharbuf] is the region [buf] of [maxlen] bytes with the read/write
    index [len] and the two error flags.  Writers are polymorphic in the source
    ([template<class T> putint_]); the class [Sink] is that interface, with one
    instance per buffer type, and readers are [M ucharbuf] programs. *)
From S2P Require Import Prelude.

(** * Byte buffers *)

Definition OVERREAD : Z := 1.
Definition OVERWROTE : Z := 2.

Record databuf := mkdatabuf {
  buf : list Z;
  len : Z;
  maxlen : Z;
  bflags : Z
}.
#[export] Instance eta_databuf : Eta databuf :=
  settable mkdatabuf <buf; len; maxlen; bflags>.
Abbreviation ucharbuf := databuf.

Definition databuf_of (data : list Z) (n : Z) : databuf := mkdatabuf data 0 n 0.

Definition reset (p : databuf) : databuf := p <| len := 0 |> <| bflags := 0 |>.

Definition get : M ucharbuf Z := fun p =>
  if len p <? maxlen p
  then (default 0 (buf p .! (len p)), p <| len := len p + 1 |>)
  else (0, p <| bflags ::= Z.lor OVERREAD |>).

Definition put (v : Z) (p : ucharbuf) : ucharbuf :=
  if len p <? maxlen p
  then p <| buf := zinsert (buf p) (len p) (to_uchar v) |> <| len := len p + 1 |>
  else p <| bflags ::= Z.lor OVERWROTE |>.

(** [memcpy] of a prefix of [vals] at index [i]. *)
Definition blit (dst : list Z) (i : Z) (vals : list Z) : list Z :=
  take (Z.to_nat i) dst ++ vals ++ drop (Z.to_nat i + length vals) dst.

Definition put_all (vals : list Z) (p : ucharbuf) : ucharbuf :=
  let numvals := zlength vals in
  let p1 := if maxlen p - len p <? numvals
            then p <| bflags ::= Z.lor OVERWROTE |> else p in
  let n := tmin (maxlen p - len p) numvals in
  p1 <| buf := blit (buf p) (len p) (take (Z.to_nat n) vals) |>
     <| len := len p + n |>.

Definition get_all (numvals : Z) : M ucharbuf (list Z) := fun p =>
  let n := tmin (maxlen p - len p) numvals in
  let p1 := if n <? numvals then p <| bflags ::= Z.lor OVERREAD |> else p in
  (take (Z.to_nat n) (drop (Z.to_nat (len p)) (buf p)), p1 <| len := len p + n |>).

Definition subbuf (sz : Z) : M ucharbuf ucharbuf := fun p =>
  let sz := clamp sz 0 (maxlen p - len p) in
  (databuf_of (drop (Z.to_nat (len p)) (buf p)) sz, p <| len := len p + sz |>).

Definition pad (numvals : Z) : M ucharbuf (list Z) := fun p =>
  (drop (Z.to_nat (len p)) (buf p),
   p <| len := len p + tmin numvals (maxlen p - len p) |>).

Definition offset (n : Z) (p : ucharbuf) : ucharbuf :=
  let n := tmin n (maxlen p) in
  p <| buf := drop (Z.to_nat n) (buf p) |>
    <| maxlen := maxlen p - n |>
    <| len := tmax (len p - n) 0 |>.

Definition remaining (p : ucharbuf) : Z := maxlen p - len p.
Definition overread (p : ucharbuf) : bool := negb (Z.land (bflags p) OVERREAD =? 0).
Definition overwrote (p : ucharbuf) : bool := negb (Z.land (bflags p) OVERWROTE =? 0).
Definition check (n : Z) (p : ucharbuf) : bool := n <=? remaining p.
Definition forceoverread (p : ucharbuf) : ucharbuf :=
  p <| len := maxlen p |> <| bflags ::= Z.lor OVERREAD |>.

(** Well-formedness: the index stays inside the region. *)
Definition buf_wf (p : ucharbuf) : Prop :=
  0 <= len p <= maxlen p /\ maxlen p <= zlength (buf p) /\
  Forall is_uchar (buf p).

#[export] Instance buf_wf_dec p : Decision (buf_wf p).
Proof. apply _. Defined.

Definition unread (p : ucharbuf) : list Z :=
  drop (Z.to_nat (len p)) (take (Z.to_nat (maxlen p)) (buf p)).
Definition written (p : ucharbuf) : list Z := take (Z.to_nat (len p)) (buf p).

(** ** [packetbuf]: a buffer over a packet that grows on demand

    The bytes a resize adds are whatever the allocator returns: [junk]. *)
Section packetbuf.
Variable junk : Z.

Record packetbuf := mkpacketbuf { ubuf : ucharbuf; growth : Z }.

Definition packetbuf_new (growth : Z) : packetbuf :=
  mkpacketbuf (databuf_of (replicate (Z.to_nat growth) junk) growth) growth.

Definition enet_packet_resize (n : Z) (data : list Z) : list Z :=
  if n <=? zlength data then take (Z.to_nat n) data
  else data ++ replicate (Z.to_nat (n - zlength data)) junk.

Definition resize (n : Z) (p : packetbuf) : packetbuf :=
  mkpacketbuf (ubuf p <| buf ::= enet_packet_resize n |> <| maxlen := n |>) (growth p).

Definition checkspace (n : Z) (p : packetbuf) : packetbuf :=
  let b := ubuf p in
  if (maxlen b <? len b + n) && (0 <? growth p)
  then resize (tmax (len b + n) (maxlen b + growth p)) p
  else p.

Definition packetbuf_put (v : Z) (p : packetbuf) : packetbuf :=
  let p := checkspace 1 p in mkpacketbuf (put v (ubuf p)) (growth p).

Definition packetbuf_put_all (vals : list Z) (p : packetbuf) : packetbuf :=
  let p := checkspace (zlength vals) p in
  mkpacketbuf (put_all vals (ubuf p)) (growth p).

Definition finalize (p : packetbuf) : list Z :=
  buf (ubuf (resize (len (ubuf p)) p)).
End packetbuf.

(** * Sinks: what a writer needs from a buffer *)

Class Sink (B : Type) := {
  sput : Z -> B -> B;
  swritten : B -> list Z;
  sroom : B -> nat -> Prop
}.
Class SinkLaws (B : Type) `{!Sink B} := {
  sput_room : forall (b : B) n v, sroom b (S n) -> sroom (sput v b) n;
  sput_written : forall (b : B) n v,
    sroom b (S n) -> swritten (sput v b) = swritten b ++ [to_uchar v]
}.

(** Buffers that take several bytes at once: [put(vals, n)]. *)
Class BlockSink (B : Type) `{!Sink B} := sputs : list Z -> B -> B.
Class BlockSinkLaws (B : Type) `{!Sink B} `{!BlockSink B} := {
  sputs_room : forall (b : B) n vs, Forall is_uchar vs -> sroom b (length vs + n) -> sroom (sputs vs b) n;
  sputs_written : forall (b : B) n vs,
    Forall is_uchar vs -> sroom b (length vs + n) -> swritten (sputs vs b) = swritten b ++ vs
}.

Section writers.
Context {B : Type} `{!Sink B}.

Definition putint (n : Z) (p : B) : B :=
  if (n <? 128) && (-127 <? n) then sput n p
  else if (n <? 0x8000) && (-0x8000 <=? n)
  then sput (Z.shiftr n 8) (sput n (sput 0x80 p))
  else sput (Z.shiftr n 24) (sput (Z.shiftr n 16)
         (sput (Z.shiftr n 8) (sput n (sput 0x81 p)))).

Definition putuint (n : Z) (p : B) : B :=
  if (n <? 0) || (Z.shiftl 1 21 <=? n)
  then sput (Z.shiftr n 21)
         (sput (Z.lor 0x80 (Z.land (Z.shiftr n 14) 0x7F))
           (sput (Z.lor 0x80 (Z.land (Z.shiftr n 7) 0x7F))
             (sput (Z.lor 0x80 (Z.land n 0x7F)) p)))
  else if n <? Z.shiftl 1 7 then sput n p
  else if n <? Z.shiftl 1 14
  then sput (Z.shiftr n 7) (sput (Z.lor 0x80 (Z.land n 0x7F)) p)
  else sput (Z.shiftr n 14)
         (sput (Z.lor 0x80 (Z.land (Z.shiftr n 7) 0x7F))
           (sput (Z.lor 0x80 (Z.land n 0x7F)) p)).

(** A C string is the list of its (non-zero) characters; [char] is signed. *)
Definition sendstring (t : list Z) (p : B) : B :=
  putint 0 (fold_left (fun p c => putint (to_schar c) p) t p).
End writers.

(** * Readers *)

Definition getint : M ucharbuf Z :=
  c <- get ;;
  let c := to_schar c in
  if c =? -128 then
    n <- get ;; m <- get ;;
    ret (Z.lor n (Z.shiftl (to_schar m) 8))
  else if c =? -127 then
    n0 <- get ;; n1 <- get ;; n2 <- get ;; n3 <- get ;;
    ret (to_int (Z.lor (Z.lor (Z.lor n0 (Z.shiftl n1 8)) (Z.shiftl n2 16))
                       (Z.shiftl n3 24)))
  else ret c.

Definition getuint : M ucharbuf Z :=
  n <- get ;;
  if Z.testbit n 7 then
    b <- get ;;
    let n := n + (Z.shiftl b 7 - 0x80) in
    n <- (if Z.testbit n 14
          then b <- get ;; ret (n + (Z.shiftl b 14 - Z.shiftl 1 14)) else ret n) ;;
    n <- (if Z.testbit n 21
          then b <- get ;; ret (n + (Z.shiftl b 21 - Z.shiftl 1 21)) else ret n) ;;
    ret (if Z.testbit n 28 then to_int (Z.lor n 0xF0000000) else n)
  else ret n.

(** [getstring text p len]: [k] is the room left in [text] and [acc] what has
    been stored; the result is the C string left in [text]. *)
Fixpoint getstring_loop (k : nat) (acc : list Z) : M ucharbuf (list Z) :=
  match k with
  | O => ret (removelast acc)
  | S k => fun p =>
    if remaining p =? 0 then (acc, p)
    else (n <- getint ;;
          let c := to_uchar n in
          if c =? 0 then ret acc else getstring_loop k (acc ++ [c])) p
  end.
Definition getstring (sz : Z) : M ucharbuf (list Z) := getstring_loop (Z.to_nat sz) [].

(** The reading loops of the map parsers: up to [n] items, cut at the first over-read.
    The source counts nothing but [n]; here [fuel] bounds the rounds, and the answer is
    [None] when it runs out (never: Lemma [getitems_ends]). *)
Fixpoint getlist {A} (fuel : nat) (n : Z) (item : M ucharbuf A) : M ucharbuf (option (list A)) :=
  match fuel with
  | O => ret None
  | S fuel =>
    if n <=? 0 then ret (Some []) else
    x <- item ;;
    b <- gets overread ;;
    if (b : bool) then ret (Some []) else l <- getlist fuel (n - 1) item ;; ret (cons x <$> l)
  end.
Definition getitems {A} (item : M ucharbuf A) : M ucharbuf (option (list A)) :=
  n <- getint ;; fun p => getlist (S (length (buf p))) n item p.

(** * Sink instances *)

#[export] Instance ucharbuf_sink : Sink ucharbuf := {
  sput := put;
  swritten := written;
  sroom p n := buf_wf p /\ len p + Z.of_nat n <= maxlen p
}.
#[export] Instance packetbuf_sink (junk : Z) : Sink packetbuf := {
  sput := packetbuf_put junk;
  swritten p := written (ubuf p);
  sroom p _ := is_uchar junk /\ buf_wf (ubuf p) /\ 0 < growth p /\
               zlength (buf (ubuf p)) = maxlen (ubuf p)
}.
#[export] Instance vector_sink : Sink (list Z) := {
  sput v l := l ++ [to_uchar v];
  swritten l := l;
  sroom _ _ := True
}.
#[export] Instance ucharbuf_blocks : BlockSink ucharbuf := put_all.
#[export] Instance packetbuf_blocks (junk : Z) : @BlockSink packetbuf (packetbuf_sink junk) := packetbuf_put_all junk.
#[export] Instance vector_blocks : BlockSink (list Z) := fun vs l => l ++ vs.

Lemma Forall_zinsert {A} (P : A -> Prop) l i x :
  Forall P l -> P x -> Forall P (zinsert l i x).
Proof. intros. unfold zinsert. destruct (0 <=? i); auto using Forall_insert. Qed.

Lemma put_room p v :
  buf_wf p -> len p + 1 <= maxlen p ->
  buf_wf (put v p) /\ len (put v p) = len p + 1 /\ maxlen (put v p) = maxlen p /\
  written (put v p) = written p ++ [to_uchar v].
Proof.
  intros [Hlen [Hmax Hb]] Hr. unfold put.
  destruct (Z.ltb_spec (len p) (maxlen p)); [|lia]. simpl.
  assert (is_uchar (to_uchar v)) by apply to_uchar_range.
  split; [|split; [done|split; [done|]]].
  - unfold buf_wf; simpl. rw zlength_zinsert.
    split; [lia|]. split; [lia|]. by apply Forall_zinsert.
  - unfold written; simpl. unfold zinsert, zlength in *.
    zdecide.
    rewrite -> (Z2Nat.inj_add (len p) 1) by lia. rw Nat.add_1_r.
    rw (take_S_r _ _ (to_uchar v)).
    + by rw take_insert_ge.
    + apply list_lookup_insert_eq. lia.
Qed.

Lemma take_blit dst i vals :
  0 <= i -> i + zlength vals <= zlength dst ->
  take (Z.to_nat (i + zlength vals)) (blit dst i vals) = take (Z.to_nat i) dst ++ vals /\
  zlength (blit dst i vals) = zlength dst.
Proof.
  unfold blit, zlength. intros Hi Hl. split.
  - rw app_assoc. rewrite -> take_app_le by (rw length_app length_take; lia).
    apply firstn_all2. rw length_app length_take. lia.
  - rw !length_app length_take length_drop. lia.
Qed.
Lemma Forall_blit P dst i vals : Forall P dst -> Forall P vals -> Forall P (blit dst i vals).
Proof. intros. unfold blit. rw !Forall_app. auto using Forall_take, Forall_drop. Qed.

Lemma put_all_fits bs p :
  buf_wf p -> Forall is_uchar bs -> len p + zlength bs <= maxlen p ->
  put_all bs p = p <| buf := blit (buf p) (len p) bs |> <| len := len p + zlength bs |>.
Proof.
  intros Hp Hb Hr. unfold put_all. pose proof (zlength_nonneg bs).
  rewrite -> (proj2 (Z.ltb_ge (maxlen p - len p) (zlength bs))) by lia. cbv zeta.
  rw tmin_spec. rewrite -> Z.min_r by lia.
  rewrite -> (firstn_all2 (n := Z.to_nat (zlength bs)) bs) by (unfold zlength; lia). done.
Qed.

Lemma put_all_room p vs :
  buf_wf p -> Forall is_uchar vs -> len p + zlength vs <= maxlen p ->
  buf_wf (put_all vs p) /\ len (put_all vs p) = len p + zlength vs /\ maxlen (put_all vs p) = maxlen p /\
  zlength (buf (put_all vs p)) = zlength (buf p) /\ written (put_all vs p) = written p ++ vs.
Proof.
  intros Hp Hb Hr. rewrite -> put_all_fits by done. destruct Hp as (Hl&Hm&Hu).
  pose proof (zlength_nonneg vs). destruct (take_blit (buf p) (len p) vs) as [Ht Hz]; [lia..|].
  split_and!; [|done|done|exact Hz|exact Ht].
  split_and!; cbn; [lia..|by apply Forall_blit].
Qed.

#[export] Instance ucharbuf_sink_laws : SinkLaws ucharbuf.
Proof.
  split; simpl; intros b n v [Hwf Hr];
    destruct (put_room b v Hwf) as (?&?&?&?); try lia; [split; [done|lia]|done].
Qed.
#[export] Instance vector_sink_laws : SinkLaws (list Z).
Proof. split; simpl; done. Qed.

Lemma Forall_resize junk n l :
  is_uchar junk -> Forall is_uchar l -> Forall is_uchar (enet_packet_resize junk n l).
Proof.
  intros. unfold enet_packet_resize. case_match; [by apply Forall_take|].
  apply Forall_app. split; [done|]. by apply Forall_replicate.
Qed.
Lemma zlength_resize junk n l :
  0 <= n -> zlength (enet_packet_resize junk n l) = n.
Proof.
  intros. unfold enet_packet_resize, zlength. case_match eqn:E.
  - apply Z.leb_le in E. rw length_take. lia.
  - apply Z.leb_gt in E. rw length_app length_replicate. lia.
Qed.

Lemma checkspace_ok junk k p :
  0 <= k -> is_uchar junk -> buf_wf (ubuf p) -> 0 < growth p ->
  zlength (buf (ubuf p)) = maxlen (ubuf p) ->
  let p' := checkspace junk k p in
  buf_wf (ubuf p') /\ growth p' = growth p /\ len (ubuf p') = len (ubuf p) /\
  zlength (buf (ubuf p')) = maxlen (ubuf p') /\
  len (ubuf p') + k <= maxlen (ubuf p') /\ written (ubuf p') = written (ubuf p).
Proof.
  intros Hk Hj [Hl [Hm Hb]] Hg Hz p'. subst p'. unfold checkspace.
  destruct (Z.ltb_spec (maxlen (ubuf p)) (len (ubuf p) + k)); simpl; last first.
  { repeat split; try done; lia. }
  zdecide. rw tmax_spec.
  set (n := Z.max _ _). assert (maxlen (ubuf p) < n) by lia.
  unfold buf_wf; simpl. rewrite -> zlength_resize by lia.
  repeat split; try lia; [by apply Forall_resize|].
  unfold written; simpl. unfold enet_packet_resize.
  destruct (Z.leb_spec n (zlength (buf (ubuf p)))); [lia|].
  apply take_app_le. unfold zlength in Hz. lia.
Qed.

#[export] Instance packetbuf_sink_laws junk : @SinkLaws packetbuf (packetbuf_sink junk).
Proof.
  split; simpl; intros p n v (Hj&Hwf&Hg&Hz); unfold packetbuf_put;
    destruct (checkspace_ok junk 1 p) as (Hwf'&Hg'&Hl'&Hz'&Hr'&Hw'); try done;
    destruct (put_room (ubuf (checkspace junk 1 p)) v Hwf' Hr') as (?&?&Hm&Hw).
  - simpl. split_and!; try done; try (by rw Hg').
    rw Hm. rw -Hz'. unfold put. case_match; simpl; [apply zlength_zinsert|done].
  - simpl. by rw Hw Hw'.
Qed.
#[export] Instance ucharbuf_block_laws : BlockSinkLaws ucharbuf.
Proof.
  split; intros b n vs Hvs [Hwf Hr]; unfold zlength in *;
    destruct (put_all_room b vs Hwf Hvs) as (Hwf'&Hl&Hm&_&Hw); unfold zlength in *; try lia; [|exact Hw].
  split; [exact Hwf'|]. change (sputs vs b) with (put_all vs b). rewrite -> Hl, Hm. lia.
Qed.
#[export] Instance vector_block_laws : BlockSinkLaws (list Z).
Proof. by split. Qed.
#[export] Instance packetbuf_block_laws junk : @BlockSinkLaws packetbuf (packetbuf_sink junk) (packetbuf_blocks junk).
Proof.
  split; cbn; intros p n vs Hvs (Hj&Hwf&Hg&Hz); unfold sputs, packetbuf_blocks, packetbuf_put_all;
    destruct (checkspace_ok junk (zlength vs) p (zlength_nonneg vs)) as (Hwf'&Hg'&Hl'&Hz'&Hr'&Hw'); try done;
    destruct (put_all_room (ubuf (checkspace junk (zlength vs) p)) vs Hwf' Hvs Hr') as (?&?&Hm&Hb&Hw).
  - cbn. split_and!; try done; [by rw Hg'|]. by rw Hb Hm.
  - cbn. by rw Hw Hw'.
Qed.

(** * What a writer emits, what a reader consumes *)

Definition emits {B} `{!Sink B} (f : B -> B) (bs : list Z) : Prop :=
  forall (b : B) n, sroom b (length bs + n) ->
    sroom (f b) n /\ swritten (f b) = swritten b ++ bs.

Definition consumes {A} (m : M ucharbuf A) (bs : list Z) (a : A) : Prop :=
  forall p r, buf_wf p -> unread p = bs ++ r ->
    exists p', m p = (a, p') /\ buf_wf p' /\ unread p' = r /\
      bflags p' = bflags p /\ maxlen p' = maxlen p /\ buf p' = buf p.

Section emits.
Context {B : Type} `{!Sink B} `{!SinkLaws B}.

Lemma emits_put v : emits (sput (B:=B) v) [to_uchar v].
Proof. intros b n Hr. simpl in Hr. eauto using sput_room, sput_written. Qed.
Lemma emits_compose (f g : B -> B) bs cs :
  emits f bs -> emits g cs -> emits (fun b => g (f b)) (bs ++ cs).
Proof.
  intros Hf Hg b n Hr. rw length_app -Nat.add_assoc in Hr.
  destruct (Hf _ _ Hr) as [Hr1 Hw1]. destruct (Hg _ _ Hr1) as [Hr2 Hw2].
  split; [done|]. by rw Hw2 Hw1 app_assoc.
Qed.
Lemma emits_block `{!BlockSink B} `{!BlockSinkLaws B} vs : Forall is_uchar vs -> emits (sputs (B:=B) vs) vs.
Proof. intros Hv b n Hr. eauto using sputs_room, sputs_written. Qed.
Lemma emits_id : emits (fun b : B => b) [].
Proof. intros b n Hr. by rw app_nil_r. Qed.
End emits.

Lemma consumes_ret {A} (a : A) : consumes (ret a) [] a.
Proof. intros p r Hwf Hu. exists p. by repeat split; try apply Hwf. Qed.
Lemma consumes_bind {A C} (m : M ucharbuf A) (k : A -> M ucharbuf C) bs cs a c :
  consumes m bs a -> consumes (k a) cs c -> consumes (bind m k) (bs ++ cs) c.
Proof.
  intros Hm Hk p r Hwf Hu. rw -app_assoc in Hu.
  destruct (Hm _ _ Hwf Hu) as (p1&E1&Hwf1&Hu1&?&?&?).
  destruct (Hk _ _ Hwf1 Hu1) as (p2&E2&Hwf2&Hu2&?&?&?).
  exists p2. unfold bind. rw E1 E2. repeat split; try apply Hwf2; congruence.
Qed.

Lemma unread_length p : buf_wf p -> zlength (unread p) = remaining p.
Proof.
  intros [? [? _]]. unfold unread, remaining, zlength in *.
  rw length_drop length_take. lia.
Qed.

Lemma consumes_get v : consumes get [v] v.
Proof.
  intros p r Hwf Hu. pose proof (unread_length p Hwf) as Hlen.
  destruct Hwf as [Hl [Hm Hb]]. rw Hu in Hlen. unfold zlength, remaining in *.
  simpl in Hlen. unfold get. zdecide.
  assert (buf p .! (len p) = Some v) as Hv.
  { unfold zlookup. zdecide.
    assert (unread p !! 0%nat = Some v) as Hv by by rw Hu.
    unfold unread in Hv. rw lookup_drop lookup_take in Hv.
    case_decide; [|done]. by rw Nat.add_0_r in Hv. }
  rw Hv. simpl. eexists. split; [done|]. simpl.
  assert (unread (p <| len := len p + 1 |>) = r) as Hr.
  { unfold unread in *; simpl. rewrite -> (Z2Nat.inj_add (len p) 1) by lia.
    by rw -drop_drop Hu. }
  repeat split; simpl; try done; try lia.
Qed.

(** ** Integers *)

Definition int_bytes (n : Z) : list Z :=
  if (n <? 128) && (-127 <? n) then [to_uchar n]
  else if (n <? 0x8000) && (-0x8000 <=? n)
  then [0x80; to_uchar n; to_uchar (Z.shiftr n 8)]
  else [0x81; to_uchar n; to_uchar (Z.shiftr n 8); to_uchar (Z.shiftr n 16);
        to_uchar (Z.shiftr n 24)].

Definition uint_bytes (n : Z) : list Z :=
  if (n <? 0) || (Z.shiftl 1 21 <=? n)
  then [to_uchar (Z.lor 0x80 (Z.land n 0x7F));
        to_uchar (Z.lor 0x80 (Z.land (Z.shiftr n 7) 0x7F));
        to_uchar (Z.lor 0x80 (Z.land (Z.shiftr n 14) 0x7F));
        to_uchar (Z.shiftr n 21)]
  else if n <? Z.shiftl 1 7 then [to_uchar n]
  else if n <? Z.shiftl 1 14
  then [to_uchar (Z.lor 0x80 (Z.land n 0x7F)); to_uchar (Z.shiftr n 7)]
  else [to_uchar (Z.lor 0x80 (Z.land n 0x7F));
        to_uchar (Z.lor 0x80 (Z.land (Z.shiftr n 7) 0x7F));
        to_uchar (Z.shiftr n 14)].

Lemma to_uchar_mod n : to_uchar n = n mod 256.
Proof. done. Qed.
Lemma shiftr_div n k : 0 <= k -> Z.shiftr n k = n / 2 ^ k.
Proof. apply Z.shiftr_div_pow2. Qed.
Lemma lor_0x80 a : 0 <= a < 128 -> Z.lor 0x80 a = 128 + a.
Proof.
  intros. rw Z.lor_comm. change 0x80 with (Z.shiftl 1 7).
  rewrite -> lor_shiftl_add by (change (2 ^ 7) with 128; lia).
  change (Z.shiftl 1 7) with 128. lia.
Qed.
Lemma land_0x7F n : Z.land n 0x7F = n mod 128.
Proof. change 0x7F with (Z.ones 7). by rewrite -> Z.land_ones by lia. Qed.
Lemma uint_byte n : to_uchar (Z.lor 0x80 (Z.land n 0x7F)) = 128 + n mod 128.
Proof.
  rw land_0x7F. pose proof (Z.mod_pos_bound n 128).
  rewrite -> lor_0x80 by lia. apply to_uchar_id. unfold is_uchar. lia.
Qed.

Section emit_ints.
Context {B : Type} `{!Sink B} `{!SinkLaws B}.

Lemma emits_puts vs :
  emits (fun b : B => fold_left (fun b v => sput v b) vs b) (map to_uchar vs).
Proof.
  induction vs as [|v vs IH]; simpl; [apply emits_id|].
  apply (emits_compose (sput v) _ [_]); [apply emits_put|apply IH].
Qed.

Lemma emits_putint n : emits (putint (B:=B) n) (int_bytes n).
Proof.
  unfold putint, int_bytes. repeat case_match; [apply (emits_puts [n])|..].
  - apply (emits_puts [0x80; n; Z.shiftr n 8]).
  - apply (emits_puts [0x81; n; Z.shiftr n 8; Z.shiftr n 16; Z.shiftr n 24]).
Qed.

Lemma emits_putuint n : emits (putuint (B:=B) n) (uint_bytes n).
Proof.
  unfold putuint, uint_bytes. set (lo := Z.lor 0x80 (Z.land n 0x7F)).
  set (mi := Z.lor 0x80 (Z.land (Z.shiftr n 7) 0x7F)).
  set (hi := Z.lor 0x80 (Z.land (Z.shiftr n 14) 0x7F)).
  repeat case_match.
  - apply (emits_puts [lo; mi; hi; Z.shiftr n 21]).
  - apply (emits_puts [n]).
  - apply (emits_puts [lo; Z.shiftr n 7]).
  - apply (emits_puts [lo; mi; Z.shiftr n 14]).
Qed.
End emit_ints.

(** [byte_arith] turns shifts and byte truncations into division and modulo. *)
Ltac byte_arith :=
  unfold is_int, is_uchar, INT_MIN, INT_MAX, to_uchar, to_schar, to_int in *;
  repeat rewrite -> shiftr_div by lia;
  repeat match goal with
  | |- context [2 ^ ?k] => let v := eval vm_compute in (2 ^ k) in change (2 ^ k) with v
  end;
  Z.div_mod_to_equations; lia.

Lemma consumes_then {A C} (m : M ucharbuf A) (k : A -> M ucharbuf C) b bs a c :
  consumes m [b] a -> consumes (k a) bs c -> consumes (bind m k) (b :: bs) c.
Proof. intros. by apply (consumes_bind m k [b] bs a c). Qed.

Lemma consumes_eq {A} (m : M ucharbuf A) bs a a' :
  consumes m bs a -> a = a' -> consumes m bs a'.
Proof. by intros ? ->. Qed.

Ltac consume_byte := eapply consumes_then; [apply consumes_get|cbv beta zeta].

Lemma schar_small n : -127 < n < 128 -> to_schar (to_uchar n) = n.
Proof. intros. byte_arith. Qed.

Lemma int_bytes_short n :
  -0x8000 <= n < 0x8000 ->
  Z.lor (to_uchar n) (Z.shiftl (to_schar (to_uchar (Z.shiftr n 8))) 8) = n.
Proof.
  intros. pose proof (to_uchar_range n).
  rewrite -> lor_shiftl_add by (change (2 ^ 8) with 256; lia). byte_arith.
Qed.

Lemma int_bytes_long n :
  is_int n ->
  to_int (Z.lor (Z.lor (Z.lor (to_uchar n) (Z.shiftl (to_uchar (Z.shiftr n 8)) 8))
            (Z.shiftl (to_uchar (Z.shiftr n 16)) 16))
         (Z.shiftl (to_uchar (Z.shiftr n 24)) 24)) = n.
Proof.
  intros. pose proof (to_uchar_range n). pose proof (to_uchar_range (Z.shiftr n 8)).
  pose proof (to_uchar_range (Z.shiftr n 16)).
  rewrite -> (lor_shiftl_add (to_uchar n)) by (change (2 ^ 8) with 256; lia).
  change (2 ^ 8) with 256.
  rewrite -> (lor_shiftl_add _ _ 16) by (change (2 ^ 16) with 65536; lia).
  change (2 ^ 16) with 65536.
  rewrite -> (lor_shiftl_add _ _ 24) by (change (2 ^ 24) with 16777216; lia).
  byte_arith.
Qed.

Lemma consumes_getint n : is_int n -> consumes getint (int_bytes n) n.
Proof.
  intros Hn. unfold getint, int_bytes.
  destruct (decide (-127 < n < 128)) as [Hs|Hs]; [zdecide|].
  { consume_byte. rewrite -> schar_small by lia. zdecide. apply consumes_ret. }
  assert ((n <? 128) && (-127 <? n) = false) as -> by (zcases; done).
  destruct (decide (-0x8000 <= n < 0x8000)) as [Hm|Hm]; [zdecide|].
  { consume_byte. change (to_schar 0x80 =? -128) with true. cbv iota.
    do 2 consume_byte. eapply consumes_eq; [apply consumes_ret|by apply int_bytes_short]. }
  assert ((n <? 0x8000) && (-0x8000 <=? n) = false) as -> by (zcases; done).
  consume_byte. change (to_schar 0x81 =? -128) with false.
  change (to_schar 0x81 =? -127) with true. cbv iota.
  do 4 consume_byte. eapply consumes_eq; [apply consumes_ret|by apply int_bytes_long].
Qed.

(** [getuint] is exact on the 29-bit signed range. *)
Definition is_int29 (n : Z) : Prop := -268435456 <= n < 268435456.

Lemma bit_clear n k : 0 <= n < 2 ^ k -> Z.testbit n k = false.
Proof.
  intros. destruct (Z.lt_ge_cases k 0); [by apply Z.testbit_neg_r|].
  apply Z.testbit_false; [done|]. by rewrite -> Z.div_small by lia.
Qed.
Lemma bit_set n k : 0 <= k -> 2 ^ k <= n < 2 * 2 ^ k -> Z.testbit n k = true.
Proof.
  intros Hk Hn. apply Z.testbit_true; [done|].
  replace (n / 2 ^ k) with 1; [done|]. apply Z.div_unique with (n - 2 ^ k); lia.
Qed.

Lemma uint_sign n :
  268435456 <= n < 536870912 -> to_int (Z.lor n 0xF0000000) = n - 536870912.
Proof.
  intros. assert (Z.lor n 0xF0000000 = n - 268435456 + 0xF0000000) as ->.
  { change 0xF0000000 with (Z.shiftl 15 28).
    replace n with (Z.lor (n - 268435456) (Z.shiftl 1 28)) at 1.
    - rw -Z.lor_assoc -Z.shiftl_lor. change (Z.lor 1 15) with 15.
      rewrite -> lor_shiftl_add by (change (2 ^ 28) with 268435456; lia).
      change (Z.shiftl 15 28) with (15 * 2 ^ 28). lia.
    - rewrite -> lor_shiftl_add by (change (2 ^ 28) with 268435456; lia).
      change (2 ^ 28) with 268435456. lia. }
  byte_arith.
Qed.

Definition sext29 (n : Z) : Z := (n + 268435456) mod 536870912 - 268435456.

Lemma sext29_id n : sext29 n = n <-> is_int29 n.
Proof. unfold sext29, is_int29. Z.div_mod_to_equations. lia. Qed.

(** The four lengths of the encoding, as the bytes they hold. *)
Lemma uint_bytes_cases n :
  is_int n ->
  (0 <= n < 128 /\ uint_bytes n = [n]) \/
  (128 <= n < 16384 /\ uint_bytes n = [128 + n mod 128; n / 128]) \/
  (16384 <= n < 2097152 /\
    uint_bytes n = [128 + n mod 128; 128 + (n / 128) mod 128; n / 16384]) \/
  ((n < 0 \/ 2097152 <= n) /\
    uint_bytes n = [128 + n mod 128; 128 + (n / 128) mod 128;
                    128 + (n / 16384) mod 128; (n / 2097152) mod 256]).
Proof.
  intros Hn. unfold uint_bytes. rw !uint_byte.
  rewrite -> !shiftr_div by lia.
  change (Z.shiftl 1 21) with 2097152. change (Z.shiftl 1 14) with 16384.
  change (Z.shiftl 1 7) with 128. change (2 ^ 7) with 128. change (2 ^ 14) with 16384.
  change (2 ^ 21) with 2097152.
  destruct (Z.ltb_spec n 0); [by right; right; right; auto|].
  destruct (Z.leb_spec 2097152 n); [by right; right; right; auto|]. simpl.
  destruct (Z.ltb_spec n 128); [left|right; destruct (Z.ltb_spec n 16384); [left|right; left]].
  all: split; [lia|].
  all: repeat (f_equal; []); rewrite -> to_uchar_id; [done|]; byte_arith.
Qed.

(** One more group of seven bits is read when the continuation bit is set. *)
Lemma consumes_group n k b m :
  0 <= k -> 2 ^ k <= n < 2 * 2 ^ k -> n + (b * 2 ^ k - 2 ^ k) = m ->
  consumes (if Z.testbit n k
            then (b <- get;; ret (n + (Z.shiftl b k - Z.shiftl 1 k))) else ret n) [b] m.
Proof.
  intros Hk Hn <-. rewrite -> bit_set by lia. consume_byte.
  rewrite -> !Z.shiftl_mul_pow2 by lia. rw Z.mul_1_l. apply consumes_ret.
Qed.
Lemma consumes_no_group n k (m : M ucharbuf Z) :
  0 <= n < 2 ^ k -> consumes (if Z.testbit n k then m else ret n) [] n.
Proof. intros. rewrite -> bit_clear by lia. apply consumes_ret. Qed.

Lemma getuint_sign n :
  to_int n = n ->
  (if Z.testbit (n mod 536870912) 28
   then to_int (Z.lor (n mod 536870912) 0xF0000000) else n mod 536870912) = sext29 n.
Proof.
  intros _. pose proof (Z.mod_pos_bound n 536870912).
  destruct (Z.lt_ge_cases (n mod 536870912) 268435456).
  - rewrite -> bit_clear by (change (2 ^ 28) with 268435456; lia).
    unfold sext29. Z.div_mod_to_equations. lia.
  - rewrite -> bit_set by (change (2 ^ 28) with 268435456; lia).
    rewrite -> uint_sign by lia. unfold sext29. Z.div_mod_to_equations. lia.
Qed.

Lemma consumes_getuint n : is_int n -> consumes getuint (uint_bytes n) (sext29 n).
Proof.
  intros Hn. unfold getuint.
  destruct (uint_bytes_cases n Hn) as [[Hr ->]|[[Hr ->]|[[Hr ->]|[Hr ->]]]]; consume_byte.
  { rewrite -> bit_clear by (change (2 ^ 7) with 128; lia).
    rewrite -> (proj2 (sext29_id n)) by (unfold is_int29; lia). apply consumes_ret. }
  all: pose proof (Z.mod_pos_bound n 128); pose proof (Z.mod_pos_bound n 16384);
    pose proof (Z.mod_pos_bound n 2097152);
    rewrite -> bit_set by (change (2 ^ 7) with 128; lia); consume_byte;
    rewrite -> Z.shiftl_mul_pow2 by lia; change (2 ^ 7) with 128.
  - assert (128 + n mod 128 + (n / 128 * 128 - 128) = n) as -> by byte_arith.
    apply (consumes_bind _ _ [] [] n);
      [apply consumes_no_group; change (2 ^ 14) with 16384; lia|].
    apply (consumes_bind _ _ [] [] n);
      [apply consumes_no_group; change (2 ^ 21) with 2097152; lia|].
    rewrite -> bit_clear by (change (2 ^ 28) with 268435456; lia).
    rewrite -> (proj2 (sext29_id n)) by (unfold is_int29; lia). apply consumes_ret.
  - apply (consumes_bind _ _ [_] [] n);
      [apply consumes_group; change (2 ^ 14) with 16384; try lia; byte_arith|].
    apply (consumes_bind _ _ [] [] n);
      [apply consumes_no_group; change (2 ^ 21) with 2097152; lia|].
    rewrite -> bit_clear by (change (2 ^ 28) with 268435456; lia).
    rewrite -> (proj2 (sext29_id n)) by (unfold is_int29; lia). apply consumes_ret.
  - apply (consumes_bind _ _ [_] [_] (2097152 + n mod 2097152));
      [apply consumes_group; change (2 ^ 14) with 16384; try lia; byte_arith|].
    apply (consumes_bind _ _ [_] [] (n mod 536870912));
      [apply consumes_group; change (2 ^ 21) with 2097152; try lia; byte_arith|].
    eapply consumes_eq; [apply consumes_ret|by apply getuint_sign, to_int_id].
Qed.

(** ** Strings *)

Definition string_bytes (t : list Z) : list Z :=
  concat (map (fun c => int_bytes (to_schar c)) t) ++ int_bytes 0.

Lemma emits_sendstring {B} `{!Sink B} `{!SinkLaws B} t :
  emits (sendstring (B:=B) t) (string_bytes t).
Proof.
  unfold sendstring, string_bytes.
  apply (emits_compose (fold_left (fun p c => putint (to_schar c) p) t) (putint 0));
    [|apply emits_putint].
  induction t as [|c t IH]; simpl; [apply emits_id|].
  apply (emits_compose (putint (to_schar c)) _ _ _ (emits_putint _) IH).
Qed.

(** The characters of a C string. *)
Definition is_cchar (c : Z) : Prop := 0 < c < 256.

Lemma schar_is_int c : is_int (to_schar c).
Proof. pose proof (to_schar_range c). unfold is_int, INT_MIN, INT_MAX. lia. Qed.
Lemma to_uchar_schar c : is_cchar c -> to_uchar (to_schar c) = c.
Proof. unfold is_cchar. intros. byte_arith. Qed.
Lemma int_bytes_nonempty n : exists b bs, int_bytes n = b :: bs.
Proof. unfold int_bytes. repeat case_match; eauto. Qed.

Lemma string_bytes_nonempty t : string_bytes t <> [].
Proof.
  unfold string_bytes. destruct (int_bytes_nonempty 0) as (b & bs & ->).
  by destruct (concat _).
Qed.
Lemma app_not_nil_l {A} (l k : list A) : l <> [] -> l ++ k <> [].
Proof. by destruct l. Qed.

Lemma remaining_nonzero p bs :
  buf_wf p -> unread p = bs -> bs <> [] -> remaining p <> 0.
Proof.
  intros Hwf Hu Hne. rw -(unread_length p Hwf) Hu. unfold zlength.
  by destruct bs.
Qed.

Lemma consumes_getstring_step k acc bs a :
  bs <> [] ->
  consumes (n <- getint;; let c := to_uchar n in
            if c =? 0 then ret acc else getstring_loop k (acc ++ [c])) bs a ->
  consumes (getstring_loop (S k) acc) bs a.
Proof.
  intros Hne Hc p r Hwf Hu. simpl.
  rewrite -> (proj2 (Z.eqb_neq (remaining p) 0)); [by apply Hc|].
  by apply (remaining_nonzero p _ Hwf Hu), app_not_nil_l.
Qed.

Lemma consumes_getstring t : forall k acc,
  Forall is_cchar t -> (length t < k)%nat ->
  consumes (getstring_loop k acc) (string_bytes t) (acc ++ t).
Proof.
  induction t as [|c t IH]; intros [|k] acc Ht Hk; simpl in Hk; try lia;
    apply consumes_getstring_step; try apply string_bytes_nonempty.
  - rw app_nil_r. apply (consumes_bind _ _ (int_bytes 0) [] 0);
      [by apply consumes_getint|apply consumes_ret].
  - apply Forall_cons in Ht as [Hc Ht]. unfold string_bytes. simpl. rw -app_assoc.
    apply consumes_bind with (a := to_schar c); [apply consumes_getint, schar_is_int|].
    rewrite -> to_uchar_schar by done. unfold is_cchar in Hc. zdecide.
    replace (acc ++ c :: t) with ((acc ++ [c]) ++ t) by by rw -app_assoc.
    apply IH; [done|lia].
Qed.

(** ** Reading arbitrary input *)

(** A read moves the index forward inside the same region. *)
Definition read_step (p p' : ucharbuf) : Prop :=
  buf p' = buf p /\ maxlen p' = maxlen p /\ (buf_wf p -> buf_wf p' /\ len p <= len p').
#[export] Instance read_step_preorder : PreOrder read_step.
Proof.
  split; [intros p; unfold read_step; split_and!; auto with lia|].
  intros p q r (Hb1&Hm1&Hw1) (Hb2&Hm2&Hw2). unfold read_step.
  split_and!; [congruence|congruence|]. intros Hwf.
  destruct (Hw1 Hwf) as [Hq ?]. destruct (Hw2 Hq). split; [done|lia].
Qed.

Lemma respects_get : respects read_step get.
Proof.
  intros p. unfold exec, get, read_step. destruct (Z.ltb_spec (len p) (maxlen p)); simpl;
    (split; [done|split; [done|]]); unfold buf_wf; simpl; intros ([? ?]&?&?);
    split_and!; try done; lia.
Qed.
#[export] Hint Resolve respects_get : respects.

Lemma respects_getint : respects read_step getint.
Proof. unfold getint. solve_respects. Qed.
#[export] Hint Resolve respects_getint : respects.

Lemma respects_getstring k acc : respects read_step (getstring_loop k acc).
Proof.
  revert acc. induction k as [|k IH]; intros acc; simpl; [solve_respects|].
  assert (respects read_step (n <- getint;; let c := to_uchar n in
    if c =? 0 then ret acc else getstring_loop k (acc ++ [c]))) as Hb
    by (cbv zeta; solve_respects).
  intros p. unfold exec. destruct (remaining p =? 0); [reflexivity|apply Hb].
Qed.

Lemma get_range p : buf_wf p -> is_uchar (eval get p).
Proof.
  intros (?&?&Hb). unfold eval, get. case_match; [|simpl; unfold is_uchar; lia].
  simpl. destruct (buf p .! (len p)) as [v|] eqn:E; simpl; [|unfold is_uchar; lia].
  apply zlookup_elem_of in E. rw Forall_forall in Hb. by apply Hb.
Qed.

Lemma getint_is_int p : buf_wf p -> is_int (eval getint p).
Proof.
  intros Hwf. unfold eval, getint.
  assert (forall q A (k : Z -> M ucharbuf A) (P : A -> Prop), buf_wf q ->
    (forall v q', is_uchar v -> buf_wf q' -> P (k v q').1) -> P (bind get k q).1) as Hget.
  { intros q A k P Hq Hk. pose proof (get_range q Hq) as Hr.
    destruct (respects_get q) as (_&_&Hs). destruct (Hs Hq) as [Hq' _].
    unfold bind, eval, exec in *. destruct (get q) as [v q']. by apply Hk. }
  apply Hget; [done|]. intros c q Hc Hq. cbv zeta.
  destruct (to_schar c =? -128); [|destruct (to_schar c =? -127)].
  - apply Hget; [done|]. intros n q1 Hn Hq1. apply Hget; [done|]. intros m q2 Hm _.
    simpl. unfold is_uchar in Hn. pose proof (to_schar_range m).
    rewrite -> lor_shiftl_add by (change (2 ^ 8) with 256; lia).
    change (2 ^ 8) with 256. unfold is_int, INT_MIN, INT_MAX. lia.
  - do 4 (apply Hget; [done|]; intros ? ? _ ?). apply to_int_range.
  - apply schar_is_int.
Qed.

(** Every read of a non-empty buffer advances it: the loop over the messages of
    a packet ends. *)
Lemma getint_advances p :
  buf_wf p -> 0 < remaining p -> len p < len (exec getint p).
Proof.
  unfold remaining. intros Hwf Hr. unfold getint. rw exec_bind.
  assert (exists v, get p = (v, p <| len := len p + 1 |>)) as [v Eg].
  { unfold get. zdecide. eauto. }
  unfold exec at 2. unfold eval. rw Eg. simpl.
  set (q := p <| len := len p + 1 |>). assert (buf_wf q) as Hq.
  { destruct Hwf as ([? ?]&?&?). unfold buf_wf. simpl. split_and!; try done; lia. }
  assert (len p < len q) by (simpl; lia).
  enough (forall A (m : M ucharbuf A), respects read_step m -> len p < len (exec m q)) as Hm.
  { destruct (to_schar v =? -128); [|destruct (to_schar v =? -127)];
      apply (Hm Z); solve_respects. }
  intros A m Hm. destruct (Hm q) as (_&_&Hs). destruct (Hs Hq). lia.
Qed.

(** ** Loops that read until the buffer is over-read *)

Lemma overread_bit p : overread p = Z.testbit (bflags p) 0.
Proof.
  unfold overread, OVERREAD. change 1 with (Z.ones 1). rewrite -> Z.land_ones by lia. change (2 ^ 1) with 2.
  rw Z.bit0_odd Zodd_mod. pose proof (Z.mod_pos_bound (bflags p) 2 ltac:(lia)).
  by assert (bflags p mod 2 = 0 \/ bflags p mod 2 = 1) as [->| ->] by lia.
Qed.
Lemma mark_overread p : overread (p <| bflags ::= Z.lor OVERREAD |>) = true.
Proof. rw overread_bit. change (Z.testbit (Z.lor OVERREAD (bflags p)) 0 = true). by rw Z.lor_spec. Qed.
(** Reading keeps the mark of an over-read. *)
Definition marked (p p' : ucharbuf) : Prop := overread p = true -> overread p' = true.
#[export] Instance marked_preorder : PreOrder marked.
Proof. split; unfold marked; repeat intro; auto. Qed.
Lemma marked_get : respects marked get.
Proof.
  intros p. unfold exec, get, marked. destruct (len p <? maxlen p); [done|]. intros _. apply mark_overread.
Qed.
#[export] Hint Resolve marked_get : respects.
Lemma marked_getint : respects marked getint.
Proof. unfold getint. solve_respects. Qed.
#[export] Hint Resolve marked_getint : respects.
Lemma get_at_end p : remaining p <= 0 -> overread (exec get p) = true.
Proof.
  unfold remaining. intros Hr. unfold exec, get. rewrite -> (proj2 (Z.ltb_ge _ _)) by lia.
  apply mark_overread.
Qed.

(** A reader that takes at least a byte, or finds that there is none. *)
Definition progress {A} (m : M ucharbuf A) : Prop := forall p, buf_wf p ->
  read_step p (exec m p) /\ marked p (exec m p) /\ (overread (exec m p) = true \/ remaining (exec m p) < remaining p).
Lemma progress_then {A B} (m : M ucharbuf A) (k : A -> M ucharbuf B) :
  progress m -> (forall a, respects read_step (k a)) -> (forall a, respects marked (k a)) -> progress (bind m k).
Proof.
  intros Hm Hk Hk' p Hwf. destruct (Hm p Hwf) as ((Hb&Hx&Hs)&H2&H3). rw exec_bind. set (p1 := exec m p) in *.
  specialize (Hk (eval m p) p1). specialize (Hk' (eval m p) p1). set (p2 := exec _ p1) in *.
  split_and!; [by transitivity p1|by transitivity p1|]. destruct H3 as [H3|H3]; [left; by apply Hk'|right].
  destruct Hk as (_&Hx2&Hs2). destruct (Hs Hwf) as [Hwf1 _]. destruct (Hs2 Hwf1). unfold remaining in *. lia.
Qed.
Lemma progress_getint : progress getint.
Proof.
  intros p Hwf. split_and!; [apply respects_getint|apply marked_getint|].
  destruct (Z.lt_ge_cases 0 (remaining p)) as [Hr|Hr].
  - right. pose proof (getint_advances p Hwf Hr). destruct (respects_getint p) as (_&Hm&_). unfold remaining. lia.
  - left. unfold getint. rw exec_bind. pose proof (get_at_end p ltac:(lia)) as Ho.
    set (p1 := exec get p) in *. clearbody p1.
    match goal with |- overread (exec ?m p1) = true => assert (respects marked m) as Hm by solve_respects end.
    by apply Hm.
Qed.
Lemma remaining_fuel p : buf_wf p -> (Z.to_nat (remaining p) < S (length (buf p)))%nat.
Proof. intros ([? ?]&?&?). unfold remaining, zlength in *. lia. Qed.
Lemma getlist_ends {A} (item : M ucharbuf A) : progress item -> forall fuel n p,
  buf_wf p -> (Z.to_nat (remaining p) < fuel)%nat -> eval (getlist fuel n item) p <> None.
Proof.
  intros Hi. induction fuel as [|fuel IH]; intros n p Hwf Hf; [lia|]. cbn [getlist].
  destruct (n <=? 0); [done|]. destruct (Hi p Hwf) as ((_&_&Hs)&_&Hp). destruct (Hs Hwf) as [Hwf1 _].
  rw eval_bind. set (p1 := exec item p) in *. rw eval_bind. cbn [eval exec gets fst snd].
  destruct (overread p1) eqn:Ho; [done|]. destruct Hp as [|Hp]; [done|].
  rw eval_bind. assert (0 <= remaining p1) by (destruct Hwf1 as ([? ?]&_); unfold remaining; lia).
  specialize (IH (n - 1) p1 Hwf1 ltac:(lia)). by destruct (eval (getlist fuel (n - 1) item) p1).
Qed.
Lemma getitems_ends {A} (item : M ucharbuf A) p : progress item -> buf_wf p -> eval (getitems item) p <> None.
Proof.
  intros Hi Hwf. unfold getitems. rw eval_bind. destruct (respects_getint p) as (_&_&Hs). destruct (Hs Hwf) as [Hwf1 _].
  apply (getlist_ends item Hi); [done|]. by apply remaining_fuel.
Qed.

(** [getstring] leaves a terminated C string inside its buffer whatever the
    packet holds. *)
Lemma getstring_loop_ok k : forall acc p,
  Forall is_cchar acc -> buf_wf p ->
  let t := eval (getstring_loop (S k) acc) p in
  Forall is_cchar t /\ (length t <= length acc + k)%nat.
Proof.
  induction k as [|k IH]; intros acc p Hacc Hwf; cbv zeta; unfold eval;
    cbn [getstring_loop]; (destruct (remaining p =? 0); [split; simpl; [done|lia]|]);
    unfold bind; destruct (getint p) as [n q] eqn:En; cbv zeta;
    (destruct (Z.eqb_spec (to_uchar n) 0); [split; simpl; [done|lia]|]).
  - simpl. rw removelast_last. split; [done|lia].
  - assert (buf_wf q) as Hq.
    { destruct (respects_getint p) as (_&_&Hs). unfold exec in Hs. rw En in Hs. by apply Hs. }
    assert (Forall is_cchar (acc ++ [to_uchar n])) as Hacc'.
    { apply Forall_app. split; [done|]. constructor; [|done].
      pose proof (to_uchar_range n). unfold is_cchar. lia. }
    destruct (IH _ q Hacc' Hq) as [Ht Hlen]. split; [exact Ht|].
    etransitivity; [exact Hlen|]. rw length_app. simpl. lia.
Qed.

(** * Properties *)

(** A buffer read after a write: [reads_back m bs a] says that [m], run on any
    well-formed buffer whose unread bytes start with [bs], returns [a], stops
    right after [bs] and raises no error flag. *)
Definition reads_back {A} (m : M ucharbuf A) (bs : list Z) (a : A) : Prop :=
  forall p r, buf_wf p -> unread p = bs ++ r ->
    eval m p = a /\ buf_wf (exec m p) /\ unread (exec m p) = r /\
    bflags (exec m p) = bflags p.

Lemma consumes_reads_back {A} (m : M ucharbuf A) bs a : consumes m bs a -> reads_back m bs a.
Proof.
  intros Hc p r Hwf Hu. destruct (Hc p r Hwf Hu) as (p'&E&?&?&?&_).
  unfold eval, exec. by rw E.
Qed.

Lemma sroom_le {B} `{!Sink B} (b : B) k n : (k <= n)%nat -> sroom b n -> sroom b (k + (n - k)).
Proof. intros. by replace (k + (n - k))%nat with n by lia. Qed.

(** C7: what [putint] appends to any buffer with room for five bytes,
    [getint] reads back: every 32-bit integer survives the wire, the reader
    stops exactly at the end of the encoding and reports no over-read. *)
Theorem putint_getint_roundtrip {B} `{!Sink B} `{!SinkLaws B} (b : B) (n : Z) :
  is_int n -> sroom b 5 ->
  exists bs, swritten (putint n b) = swritten b ++ bs /\ reads_back getint bs n.
Proof.
  intros Hn Hr. exists (int_bytes n). split; [|by apply consumes_reads_back, consumes_getint].
  eapply (emits_putint n b), sroom_le; [|exact Hr].
  unfold int_bytes. repeat case_match; simpl; lia.
Qed.

Definition sample_packet : packetbuf := packetbuf_new 0 2.

Lemma putint_getint_roundtrip_witness :
  is_int (-70000) /\
  let S := packetbuf_sink 0 in
  exists bs, swritten (putint (-70000) sample_packet) = swritten sample_packet ++ bs /\
             reads_back getint bs (-70000).
Proof.
  split; [decide_now|].
  apply (putint_getint_roundtrip (Sink0 := packetbuf_sink 0) sample_packet); [decide_now|].
  simpl. split_and!; decide_now.
Defined.

(** [putuint]/[getuint] transport the low 29 bits of an [int],
    sign-extended; the value read is the value written exactly on
    [-2^28, 2^28), which is more than the 28 unsigned bits the source promises. *)
Theorem putuint_getuint_roundtrip {B} `{!Sink B} `{!SinkLaws B} (b : B) (n : Z) :
  is_int n -> sroom b 4 ->
  (exists bs, swritten (putuint n b) = swritten b ++ bs /\ reads_back getuint bs (sext29 n)) /\
  (sext29 n = n <-> is_int29 n).
Proof.
  intros Hn Hr. split; [|apply sext29_id].
  exists (uint_bytes n). split; [|by apply consumes_reads_back, consumes_getuint].
  eapply (emits_putuint n b), sroom_le; [|exact Hr].
  unfold uint_bytes. repeat case_match; simpl; lia.
Qed.

Lemma putuint_getuint_roundtrip_witness :
  (exists bs, swritten (putuint 3000000 ([] : list Z)) = swritten ([] : list Z) ++ bs /\
              reads_back getuint bs (sext29 3000000)) /\
  (sext29 3000000 = 3000000 <-> is_int29 3000000).
Proof.
  apply (putuint_getuint_roundtrip (B := list Z) [] 3000000); [decide_now|done].
Defined.

(** C8: a C string written by [sendstring] is the string [getstring] leaves in
    a destination of [sz] bytes, for every string that fits; [char]s above 127
    travel as negative integers and come back unchanged. *)
Theorem sendstring_getstring_roundtrip {B} `{!Sink B} `{!SinkLaws B}
    (b : B) (t : list Z) (sz : Z) :
  Forall is_cchar t -> zlength t < sz -> sroom b (3 * length t + 1) ->
  exists bs, swritten (sendstring t b) = swritten b ++ bs /\
             reads_back (getstring sz) bs t.
Proof.
  intros Ht Hsz Hr. exists (string_bytes t). split.
  - eapply (emits_sendstring t b), sroom_le; [|exact Hr]. clear.
    unfold string_bytes. rw length_app. apply Nat.add_le_mono; [|done].
    induction t as [|c t IH]; simpl; [lia|]. rw length_app.
    assert (length (int_bytes (to_schar c)) <= 3)%nat; [|lia].
    unfold int_bytes. pose proof (to_schar_range c). zcases; lia.
  - apply consumes_reads_back. apply (consumes_getstring t _ []); [done|].
    unfold zlength in Hsz. lia.
Qed.

Lemma sendstring_getstring_roundtrip_witness :
  exists bs, swritten (sendstring [104; 200; 128; 33] ([] : list Z)) = swritten ([] : list Z) ++ bs /\
             reads_back (getstring 16) bs [104; 200; 128; 33].
Proof.
  apply (sendstring_getstring_roundtrip (B := list Z) [] [104; 200; 128; 33] 16); [decide_now|done|done].
Defined.

(** C9: reading is memory-safe and makes progress on every input.  Whatever
    bytes a packet holds, [getint] returns a 32-bit integer, keeps the index
    inside the buffer and moves it forward when a byte is left (so the message
    loop of [parsepacket] ends); [getstring] leaves a string of C characters
    that fits its destination together with its terminator. *)
Theorem reads_are_safe (p : ucharbuf) (sz : Z) :
  buf_wf p -> 0 < sz ->
  (is_int (eval getint p) /\ buf_wf (exec getint p) /\
   (0 < remaining p -> len p < len (exec getint p))) /\
  (Forall is_cchar (eval (getstring sz) p) /\ zlength (eval (getstring sz) p) < sz /\
   buf_wf (exec (getstring sz) p) /\ len p <= len (exec (getstring sz) p)).
Proof.
  intros Hwf Hsz. split.
  - split; [by apply getint_is_int|]. destruct (respects_getint p) as (_&_&Hs).
    split; [by apply Hs|by apply getint_advances].
  - destruct (respects_getstring (Z.to_nat sz) [] p) as (_&_&Hs). destruct (Hs Hwf).
    unfold getstring in *. destruct (Z.to_nat sz) as [|k] eqn:Ek; [lia|].
    destruct (getstring_loop_ok k [] p) as [Ht Hlen]; [done|done|].
    split_and!; try done. unfold zlength. change (length []) with 0%nat in Hlen. lia.
Qed.

Lemma reads_are_safe_witness :
  let p := databuf_of [0x81; 1; 2] 3 in
  (is_int (eval getint p) /\ buf_wf (exec getint p) /\
   (0 < remaining p -> len p < len (exec getint p))) /\
  (Forall is_cchar (eval (getstring 2) p) /\ zlength (eval (getstring 2) p) < 2 /\
   buf_wf (exec (getstring 2) p) /\ len p <= len (exec (getstring 2) p)).
Proof.
  apply (reads_are_safe (databuf_of [0x81; 1; 2] 3) 2); [decide_now|lia].
Defined.
