(* ===== verification/Text.v ===== *)
(** Text: the string helpers of shared/tools.h, [filtertext] and the cube
    character set of shared/stream.cpp with its UTF-8 conversions, and
    [fixmapname] of engine/worldio.cpp.

    A C string is the list of its characters as unsigned bytes, without the
    terminator; [cstr] turns a literal of the source into one. *)
From S2P Require Import Prelude Wire.
From Stdlib Require Ascii.


Definition cstring : Set := list Z.
#[global] Instance cstring_eq_dec : EqDecision cstring.
Proof. unfold cstring. apply _. Defined.
#[global] Instance cstring_countable : Countable cstring.
Proof. unfold cstring. apply _. Defined.

(** Literals. *)
Definition cstr (s : string) : cstring :=
  map (fun a => Z.of_N (Ascii.N_of_ascii a)) (String.list_ascii_of_string s).

Definition MAXSTRLEN : Z := 260.

(** [copystring(d, s, len)]: what [d] holds afterwards. *)
Definition copystring (s : cstring) (len : Z) : cstring :=
  take (Z.to_nat (tmin (zlength s) (len - 1))) s.
Definition concatstring (d s : cstring) (len : Z) : cstring :=
  let used := zlength d in
  if used <? len then d ++ copystring s (len - used) else d.
Definition prependstring (d s : cstring) (len : Z) : cstring :=
  let slen := tmin (zlength s) len in
  take (Z.to_nat (len - 1))
    (take (Z.to_nat slen) s ++ take (Z.to_nat (tmin (len - slen) (zlength d + 1))) d).

(** * Character classes *)

Definition CT_PRINT : Z := Z.shiftl 1 0.
Definition CT_SPACE : Z := Z.shiftl 1 1.
Definition CT_DIGIT : Z := Z.shiftl 1 2.
Definition CT_ALPHA : Z := Z.shiftl 1 3.
Definition CT_LOWER : Z := Z.shiftl 1 4.
Definition CT_UPPER : Z := Z.shiftl 1 5.
Definition CT_UNICODE : Z := Z.shiftl 1 6.

Definition cubectype : list Z :=
  let s := CT_SPACE in
  let p := CT_PRINT in
  let d := Z.lor CT_PRINT CT_DIGIT in
  let la := Z.lor (Z.lor CT_PRINT CT_ALPHA) CT_LOWER in
  let ua := Z.lor (Z.lor CT_PRINT CT_ALPHA) CT_UPPER in
  let lu := Z.lor (Z.lor (Z.lor CT_PRINT CT_UNICODE) CT_ALPHA) CT_LOWER in
  let uu := Z.lor (Z.lor (Z.lor CT_PRINT CT_UNICODE) CT_ALPHA) CT_UPPER in [
  0; uu; uu; uu; uu; uu; uu; uu; uu; s; s; s; s; s; uu; uu;
  uu; uu; uu; uu; uu; uu; uu; uu; uu; uu; uu; uu; uu; uu; uu; uu;
  s; p; p; p; p; p; p; p; p; p; p; p; p; p; p; p;
  d; d; d; d; d; d; d; d; d; d; p; p; p; p; p; p;
  p; ua; ua; ua; ua; ua; ua; ua; ua; ua; ua; ua; ua; ua; ua; ua;
  ua; ua; ua; ua; ua; ua; ua; ua; ua; ua; ua; p; p; p; p; p;
  p; la; la; la; la; la; la; la; la; la; la; la; la; la; la; la;
  la; la; la; la; la; la; la; la; la; la; la; p; p; p; p; uu;
  uu; lu; lu; lu; lu; lu; lu; lu; lu; lu; lu; lu; lu; lu; lu; lu;
  lu; lu; lu; lu; lu; lu; lu; lu; lu; lu; lu; lu; lu; lu; lu; uu;
  lu; uu; lu; uu; lu; uu; lu; uu; lu; uu; lu; uu; lu; uu; lu; uu;
  lu; uu; lu; uu; lu; uu; lu; uu; lu; uu; lu; uu; lu; uu; lu; uu;
  lu; uu; lu; uu; lu; uu; lu; uu; uu; lu; uu; lu; uu; lu; uu; uu;
  uu; uu; uu; uu; uu; uu; uu; uu; uu; uu; uu; uu; uu; uu; uu; uu;
  uu; uu; uu; uu; lu; lu; lu; lu; lu; lu; lu; lu; lu; lu; lu; lu;
  lu; lu; lu; lu; lu; lu; lu; lu; lu; lu; lu; lu; lu; lu; uu; lu].

Definition cube2unichars : list Z := [
  0; 192; 193; 194; 195; 196; 197; 198; 199; 9; 10; 11; 12; 13; 200; 201; 202; 203; 204; 205; 206; 207; 209; 210;
  211; 212; 213; 214; 216; 217; 218; 219; 32; 33; 34; 35; 36; 37; 38; 39; 40; 41; 42; 43; 44; 45; 46; 47;
  48; 49; 50; 51; 52; 53; 54; 55; 56; 57; 58; 59; 60; 61; 62; 63; 64; 65; 66; 67; 68; 69; 70; 71;
  72; 73; 74; 75; 76; 77; 78; 79; 80; 81; 82; 83; 84; 85; 86; 87; 88; 89; 90; 91; 92; 93; 94; 95;
  96; 97; 98; 99; 100; 101; 102; 103; 104; 105; 106; 107; 108; 109; 110; 111; 112; 113; 114; 115; 116; 117; 118; 119;
  120; 121; 122; 123; 124; 125; 126; 220; 221; 223; 224; 225; 226; 227; 228; 229; 230; 231; 232; 233; 234; 235; 236; 237;
  238; 239; 241; 242; 243; 244; 245; 246; 248; 249; 250; 251; 252; 253; 255; 260; 261; 262; 263; 268; 269; 270; 271; 280;
  281; 282; 283; 286; 287; 304; 305; 321; 322; 323; 324; 327; 328; 336; 337; 338; 339; 344; 345; 346; 347; 350; 351; 352;
  353; 356; 357; 366; 367; 368; 369; 376; 377; 378; 379; 380; 381; 382; 1028; 1041; 1043; 1044; 1046; 1047; 1048; 1049; 1051; 1055;
  1059; 1060; 1062; 1063; 1064; 1065; 1066; 1067; 1068; 1069; 1070; 1071; 1073; 1074; 1075; 1076; 1078; 1079; 1080; 1081; 1082; 1083; 1084; 1085;
  1087; 1090; 1092; 1094; 1095; 1096; 1097; 1098; 1099; 1100; 1101; 1102; 1103; 1108; 1168; 1169].

Definition uni2cubeoffsets : list Z := [
  0; 256; 658; 658; 512; 658; 658; 658].

Definition uni2cubechars : list Z := [
  0; 0; 0; 0; 0; 0; 0; 0; 0; 9; 10; 11; 12; 13; 0; 0; 0; 0; 0; 0; 0; 0; 0; 0; 0; 0; 0; 0; 0; 0; 0; 0;
  32; 33; 34; 35; 36; 37; 38; 39; 40; 41; 42; 43; 44; 45; 46; 47; 48; 49; 50; 51; 52; 53; 54; 55; 56; 57; 58; 59; 60; 61; 62; 63;
  64; 65; 66; 67; 68; 69; 70; 71; 72; 73; 74; 75; 76; 77; 78; 79; 80; 81; 82; 83; 84; 85; 86; 87; 88; 89; 90; 91; 92; 93; 94; 95;
  96; 97; 98; 99; 100; 101; 102; 103; 104; 105; 106; 107; 108; 109; 110; 111; 112; 113; 114; 115; 116; 117; 118; 119; 120; 121; 122; 123; 124; 125; 126; 0;
  0; 0; 0; 0; 0; 0; 0; 0; 0; 0; 0; 0; 0; 0; 0; 0; 0; 0; 0; 0; 0; 0; 0; 0; 0; 0; 0; 0; 0; 0; 0; 0;
  0; 0; 0; 0; 0; 0; 0; 0; 0; 0; 0; 0; 0; 0; 0; 0; 0; 0; 0; 0; 0; 0; 0; 0; 0; 0; 0; 0; 0; 0; 0; 0;
  1; 2; 3; 4; 5; 6; 7; 8; 14; 15; 16; 17; 18; 19; 20; 21; 0; 22; 23; 24; 25; 26; 27; 0; 28; 29; 30; 31; 127; 128; 0; 129;
  130; 131; 132; 133; 134; 135; 136; 137; 138; 139; 140; 141; 142; 143; 144; 145; 0; 146; 147; 148; 149; 150; 151; 0; 152; 153; 154; 155; 156; 157; 0; 158;
  0; 0; 0; 0; 159; 160; 161; 162; 0; 0; 0; 0; 163; 164; 165; 166; 0; 0; 0; 0; 0; 0; 0; 0; 167; 168; 169; 170; 0; 0; 171; 172;
  0; 0; 0; 0; 0; 0; 0; 0; 0; 0; 0; 0; 0; 0; 0; 0; 173; 174; 0; 0; 0; 0; 0; 0; 0; 0; 0; 0; 0; 0; 0; 0;
  0; 175; 176; 177; 178; 0; 0; 179; 180; 0; 0; 0; 0; 0; 0; 0; 181; 182; 183; 184; 0; 0; 0; 0; 185; 186; 187; 188; 0; 0; 189; 190;
  191; 192; 0; 0; 193; 194; 0; 0; 0; 0; 0; 0; 0; 0; 195; 196; 197; 198; 0; 0; 0; 0; 0; 0; 199; 200; 201; 202; 203; 204; 205; 0;
  0; 0; 0; 0; 0; 0; 0; 0; 0; 0; 0; 0; 0; 0; 0; 0; 0; 0; 0; 0; 0; 0; 0; 0; 0; 0; 0; 0; 0; 0; 0; 0;
  0; 0; 0; 0; 0; 0; 0; 0; 0; 0; 0; 0; 0; 0; 0; 0; 0; 0; 0; 0; 0; 0; 0; 0; 0; 0; 0; 0; 0; 0; 0; 0;
  0; 0; 0; 0; 0; 0; 0; 0; 0; 0; 0; 0; 0; 0; 0; 0; 0; 0; 0; 0; 0; 0; 0; 0; 0; 0; 0; 0; 0; 0; 0; 0;
  0; 0; 0; 0; 0; 0; 0; 0; 0; 0; 0; 0; 0; 0; 0; 0; 0; 0; 0; 0; 0; 0; 0; 0; 0; 0; 0; 0; 0; 0; 0; 0;
  0; 17; 0; 0; 206; 83; 73; 21; 74; 0; 0; 0; 0; 0; 0; 0; 65; 207; 66; 208; 209; 69; 210; 211; 212; 213; 75; 214; 77; 72; 79; 215;
  80; 67; 84; 216; 217; 88; 218; 219; 220; 221; 222; 223; 224; 225; 226; 227; 97; 228; 229; 230; 231; 101; 232; 233; 234; 235; 236; 237; 238; 239; 111; 240;
  112; 99; 241; 121; 242; 120; 243; 244; 245; 246; 247; 248; 249; 250; 251; 252; 0; 141; 0; 0; 253; 115; 105; 145; 106; 0; 0; 0; 0; 0; 0; 0;
  0; 0; 0; 0; 0; 0; 0; 0; 0; 0; 0; 0; 0; 0; 0; 0; 0; 0; 0; 0; 0; 0; 0; 0; 0; 0; 0; 0; 0; 0; 0; 0;
  0; 0; 0; 0; 0; 0; 0; 0; 0; 0; 0; 0; 0; 0; 0; 0; 254; 255; 0; 0; 0; 0; 0; 0; 0; 0; 0; 0; 0; 0; 0; 0;
  0; 0; 0; 0; 0; 0; 0; 0; 0; 0; 0; 0; 0; 0; 0; 0; 0; 0; 0; 0; 0; 0; 0; 0; 0; 0; 0; 0; 0; 0; 0; 0;
  0; 0; 0; 0; 0; 0; 0; 0; 0; 0; 0; 0; 0; 0; 0; 0; 0; 0; 0; 0; 0; 0; 0; 0; 0; 0; 0; 0; 0; 0; 0; 0;
  0; 0; 0; 0; 0; 0; 0; 0; 0; 0; 0; 0; 0; 0; 0; 0; 0; 0; 0; 0; 0; 0; 0; 0; 0; 0; 0; 0; 0; 0; 0; 0;
  0; 0; 0; 0; 0; 0; 0; 0; 0; 0; 0; 0; 0; 0; 0; 0; 0; 0; 0; 0; 0; 0; 0; 0; 0; 0; 0; 0; 0; 0; 0; 0;
  0; 0; 0; 0; 0; 0; 0; 0; 0; 0; 0; 0; 0; 0; 0; 0; 0; 0; 0; 0; 0; 0; 0; 0; 0; 0; 0; 0; 0; 0; 0; 0;
  0; 0; 0; 0; 0; 0; 0; 0; 0; 0; 0; 0; 0; 0; 0; 0; 0; 0; 0; 0; 0; 0; 0; 0; 0; 0; 0; 0; 0; 0; 0; 0;
  0; 0; 0; 0; 0; 0; 0; 0; 0; 0; 0; 0; 0; 0].

Definition cubelowerchars : list Z := [
  0; 130; 131; 132; 133; 134; 135; 136; 137; 9; 10; 11; 12; 13; 138; 139; 140; 141; 142; 143; 144; 145; 146; 147;
  148; 149; 150; 151; 152; 153; 154; 155; 32; 33; 34; 35; 36; 37; 38; 39; 40; 41; 42; 43; 44; 45; 46; 47;
  48; 49; 50; 51; 52; 53; 54; 55; 56; 57; 58; 59; 60; 61; 62; 63; 64; 97; 98; 99; 100; 101; 102; 103;
  104; 105; 106; 107; 108; 109; 110; 111; 112; 113; 114; 115; 116; 117; 118; 119; 120; 121; 122; 91; 92; 93; 94; 95;
  96; 97; 98; 99; 100; 101; 102; 103; 104; 105; 106; 107; 108; 109; 110; 111; 112; 113; 114; 115; 116; 117; 118; 119;
  120; 121; 122; 123; 124; 125; 126; 156; 157; 129; 130; 131; 132; 133; 134; 135; 136; 137; 138; 139; 140; 141; 142; 143;
  144; 145; 146; 147; 148; 149; 150; 151; 152; 153; 154; 155; 156; 157; 158; 160; 160; 162; 162; 164; 164; 166; 166; 168;
  168; 170; 170; 172; 172; 105; 174; 176; 176; 178; 178; 180; 180; 182; 182; 184; 184; 186; 186; 188; 188; 190; 190; 192;
  192; 194; 194; 196; 196; 198; 198; 158; 201; 201; 203; 203; 205; 205; 206; 207; 208; 209; 210; 211; 212; 213; 214; 215;
  216; 217; 218; 219; 220; 221; 222; 223; 224; 225; 226; 227; 228; 229; 230; 231; 232; 233; 234; 235; 236; 237; 238; 239;
  240; 241; 242; 243; 244; 245; 246; 247; 248; 249; 250; 251; 252; 253; 254; 255].

Definition cubeupperchars : list Z := [
  0; 1; 2; 3; 4; 5; 6; 7; 8; 9; 10; 11; 12; 13; 14; 15; 16; 17; 18; 19; 20; 21; 22; 23;
  24; 25; 26; 27; 28; 29; 30; 31; 32; 33; 34; 35; 36; 37; 38; 39; 40; 41; 42; 43; 44; 45; 46; 47;
  48; 49; 50; 51; 52; 53; 54; 55; 56; 57; 58; 59; 60; 61; 62; 63; 64; 65; 66; 67; 68; 69; 70; 71;
  72; 73; 74; 75; 76; 77; 78; 79; 80; 81; 82; 83; 84; 85; 86; 87; 88; 89; 90; 91; 92; 93; 94; 95;
  96; 65; 66; 67; 68; 69; 70; 71; 72; 73; 74; 75; 76; 77; 78; 79; 80; 81; 82; 83; 84; 85; 86; 87;
  88; 89; 90; 123; 124; 125; 126; 127; 128; 129; 1; 2; 3; 4; 5; 6; 7; 8; 14; 15; 16; 17; 18; 19;
  20; 21; 22; 23; 24; 25; 26; 27; 28; 29; 30; 31; 127; 128; 199; 159; 159; 161; 161; 163; 163; 165; 165; 167;
  167; 169; 169; 171; 171; 173; 73; 175; 175; 177; 177; 179; 179; 181; 181; 183; 183; 185; 185; 187; 187; 189; 189; 191;
  191; 193; 193; 195; 195; 197; 197; 199; 200; 200; 202; 202; 204; 204; 206; 207; 208; 209; 210; 211; 212; 213; 214; 215;
  216; 217; 218; 219; 220; 221; 222; 223; 224; 225; 226; 227; 228; 229; 230; 231; 232; 233; 234; 235; 236; 237; 238; 239;
  240; 241; 242; 243; 244; 245; 246; 247; 248; 249; 250; 251; 252; 253; 254; 255].

Definition ctype (c : Z) : Z := default 0 (cubectype .! c).
Definition has_class (m c : Z) : bool := negb (Z.land (ctype c) m =? 0).
Definition iscubeprint : Z -> bool := has_class CT_PRINT.
Definition iscubespace : Z -> bool := has_class CT_SPACE.
Definition iscubealpha : Z -> bool := has_class CT_ALPHA.
Definition iscubealnum : Z -> bool := has_class (Z.lor CT_ALPHA CT_DIGIT).
Definition iscubelower : Z -> bool := has_class CT_LOWER.
Definition iscubeupper : Z -> bool := has_class CT_UPPER.
Definition iscubepunct (c : Z) : bool := ctype c =? CT_PRINT.
Definition cubelower (c : Z) : Z := default 0 (cubelowerchars .! c).
Definition cubeupper (c : Z) : Z := default 0 (cubeupperchars .! c).

Definition cube2uni (c : Z) : Z := default 0 (cube2unichars .! c).
Definition uni2cube (c : Z) : Z :=
  if to_uint c <=? 0x7FF
  then default 0 (uni2cubechars .!
         (default 0 (uni2cubeoffsets .! (Z.shiftr c 8)) + Z.land c 0xFF))
  else 0.

(** * [filtertext]

    [len] counts down once per stored character.  A form feed starts a two
    character colour code: both are dropped.  The source also filters in place:
    the write index never passes the read index. *)
Fixpoint filtertext (whitespace forcespace : bool) (len : Z) (src : cstring) : cstring :=
  let emit c rest := if len - 1 =? 0 then [c] else c :: filtertext whitespace forcespace (len - 1) rest in
  match src with
  | [] => []
  | c :: rest =>
    if c =? 12 then
      match rest with [] => [] | _ :: rest => filtertext whitespace forcespace len rest end
    else if iscubeprint c then emit c rest
    else if negb (iscubespace c) || negb whitespace
    then filtertext whitespace forcespace len rest
    else emit (if forcespace then 32 else c) rest
  end.

(** * Map names *)
Definition mapname_char (c : Z) : bool :=
  iscubealnum c || (c =? 95) || (c =? 45) || (c =? 47) || (c =? 92).
Fixpoint validmapname (maxlen : nat) (src : cstring) : cstring :=
  match maxlen, src with
  | S n, c :: rest => if mapname_char c then c :: validmapname n rest else []
  | _, _ => []
  end.
Definition fixmapname (name : cstring) : cstring := validmapname 100 name.

(** * UTF-8 *)
Definition is_continuation (c : Z) : bool := Z.land c 0xC0 =? 0x80.

(** A malformed sequence resumes at the byte that broke it; a character outside
    the cube set is dropped. *)
Fixpoint decodeutf8 (src : list Z) : cstring :=
  match src with
  | [] => []
  | c :: r1 =>
    let push uni here rest :=
      let d := uni2cube uni in if d =? 0 then decodeutf8 here else d :: decodeutf8 rest in
    let next uni c := Z.lor (Z.shiftl uni 6) (Z.land c 0x3F) in
    if c <? 0x80 then c :: decodeutf8 r1
    else if c <? 0xC0 then decodeutf8 r1
    else if c <? 0xE0 then
      match r1 with
      | [] => []
      | c1 :: r2 => if is_continuation c1 then push (next (Z.land c 0x1F) c1) r1 r2
                    else decodeutf8 r1
      end
    else if c <? 0xF0 then
      match r1 with
      | [] => []
      | c1 :: r2 =>
        if negb (is_continuation c1) then decodeutf8 r1 else
        let uni := next (Z.land c 0xF) c1 in
        match r2 with
        | [] => []
        | c2 :: r3 => if is_continuation c2 then push (next uni c2) r2 r3 else decodeutf8 r2
        end
      end
    else
      match r1 with
      | [] => []
      | c1 :: r2 =>
        if negb (is_continuation c1) then decodeutf8 r1 else
        let uni := next (Z.land c 0x7) c1 in
        match r2 with
        | [] => []
        | c2 :: r3 =>
          if negb (is_continuation c2) then decodeutf8 r2 else
          let uni := next uni c2 in
          match r3 with
          | [] => []
          | c3 :: r4 => if is_continuation c3 then push (next uni c3) r3 r4 else decodeutf8 r3
          end
        end
      end
  end.

Definition encode_uni (uni : Z) : list Z :=
  let tail k := Z.lor 0x80 (Z.land (Z.shiftr uni k) 0x3F) in
  if uni <? 0x80 then [uni]
  else if uni <? 0x800 then [Z.lor 0xC0 (Z.shiftr uni 6); tail 0]
  else if uni <? 0x10000 then [Z.lor 0xE0 (Z.shiftr uni 12); tail 6; tail 0]
  else if uni <? 0x110000
  then [Z.lor 0xF0 (Z.shiftr uni 18); tail 12; tail 6; tail 0]
  else [].
Definition encodeutf8 (src : cstring) : list Z := concat (map (fun c => encode_uni (cube2uni c)) src).

#[global] Instance is_cchar_dec c : Decision (is_cchar c).
Proof. unfold is_cchar. apply _. Defined.

(** * Lemmas *)

(** The characters [filtertext] lets through. *)
Definition passes (whitespace forcespace : bool) (c : Z) : Prop :=
  is_cchar c /\ c <> 12 /\
  (iscubeprint c = true \/
   whitespace = true /\ iscubespace c = true /\ (forcespace = true -> c = 32)).

Lemma passes_out ws fs c :
  is_cchar c -> c <> 12 ->
  (iscubeprint c = true -> passes ws fs c) /\
  (iscubespace c = true -> ws = true -> passes ws fs (if fs then 32 else c)).
Proof.
  intros Hc Hn. split; [unfold passes; auto|].
  intros Hs ->. destruct fs; unfold passes.
  - split_and!; [decide_now|done|]. right. split_and!; [done|decide_now|done].
  - split_and!; [done|done|]. right. by split_and!.
Qed.

Lemma filtertext_ok ws fs src : forall len,
  0 < len -> Forall is_cchar src ->
  Forall (passes ws fs) (filtertext ws fs len src) /\
  zlength (filtertext ws fs len src) <= len.
Proof.
  enough (forall n len, (length src <= n)%nat -> 0 < len -> Forall is_cchar src ->
    Forall (passes ws fs) (filtertext ws fs len src) /\
    zlength (filtertext ws fs len src) <= len) as H by (intros; by eapply H).
  intros n. revert src. induction n as [|n IH]; intros [|c rest] len Hn Hlen Hsrc;
    simpl in Hn; try lia; try (split; [constructor|unfold zlength; simpl; lia]).
  apply Forall_cons in Hsrc as [Hc Hrest].
  assert (forall d, passes ws fs d ->
    let out := if len - 1 =? 0 then [d] else d :: filtertext ws fs (len - 1) rest in
    Forall (passes ws fs) out /\ zlength out <= len) as Hemit.
  { intros d Hd out. subst out. destruct (Z.eqb_spec (len - 1) 0).
    - split; [by constructor|unfold zlength; simpl; lia].
    - destruct (IH rest (len - 1)) as [Hp Hl]; [lia|lia|done|].
      split; [by constructor|unfold zlength in *; simpl; lia]. }
  simpl. destruct (Z.eqb_spec c 12) as [->|Hne].
  { destruct rest as [|c2 rest]; [split; [constructor|unfold zlength; simpl; lia]|].
    apply Forall_cons in Hrest as [_ ?]. apply IH; [simpl in Hn; lia|done|done]. }
  destruct (passes_out ws fs c Hc Hne) as [Hp Hs].
  destruct (iscubeprint c) eqn:Ep; [apply Hemit; auto|].
  destruct (iscubespace c) eqn:Es, ws eqn:Ew; simpl; try (apply IH; [lia|done|done]).
  apply Hemit. auto.
Qed.

(** Text that passes is left alone. *)
Lemma filtertext_fixed ws fs src : forall len,
  zlength src <= len -> Forall (passes ws fs) src -> filtertext ws fs len src = src.
Proof.
  induction src as [|c rest IH]; intros len Hlen Hsrc; [done|].
  apply Forall_cons in Hsrc as [(Hc&Hne&Hp) Hrest].
  assert (zlength rest <= len - 1) by (unfold zlength in *; simpl in Hlen; lia).
  assert ((if len - 1 =? 0 then [c] else c :: filtertext ws fs (len - 1) rest) = c :: rest)
    as Hemit.
  { destruct (Z.eqb_spec (len - 1) 0); [|by rw IH].
    destruct rest; [done|unfold zlength in *; simpl in *; lia]. }
  simpl. rw (proj2 (Z.eqb_neq c 12) Hne).
  destruct (iscubeprint c) eqn:Ep; [done|].
  destruct Hp as [?|(->&->&Hf)]; [done|]. simpl.
  destruct fs; [rw -(Hf eq_refl)|]; done.
Qed.

Lemma zlength_copystring s len : 0 < len -> zlength (copystring s len) < len.
Proof.
  intros. unfold copystring. rw tmin_spec. unfold zlength. rw length_take. lia.
Qed.
Lemma copystring_id s len : zlength s < len -> copystring s len = s.
Proof.
  intros. unfold copystring. rw tmin_spec. unfold zlength in *. apply take_ge. lia.
Qed.

(** Each cube character survives UTF-8, whatever follows it. *)
Lemma char_utf8_roundtrip c r :
  is_cchar c -> decodeutf8 (encode_uni (cube2uni c) ++ r) = c :: decodeutf8 r.
Proof.
  intros Hc. assert (c ∈ seqZ 1 255) as Hin by (apply elem_of_seqZ; unfold is_cchar in Hc; lia).
  clear Hc. revert Hin. vm_compute seqZ. intros Hin.
  repeat (apply elem_of_cons in Hin as [->|Hin]; [reflexivity|]).
  by apply not_elem_of_nil in Hin.
Qed.

(** What UTF-8 decodes to is a C string again. *)
Lemma uni2cube_range c : 0 <= uni2cube c < 256.
Proof.
  unfold uni2cube. case_match; [|lia]. destruct (uni2cubechars .! _) as [d|] eqn:E; simpl; [|lia].
  apply zlookup_elem_of in E.
  assert (Forall (fun d => 0 <= d < 256) uni2cubechars) as Hall by decide_now.
  rewrite -> list.Forall_forall in Hall. by apply Hall.
Qed.
Lemma decodeutf8_cchar src : Forall is_cchar src -> Forall is_cchar (decodeutf8 src).
Proof.
  enough (forall n src, (length src <= n)%nat -> Forall is_cchar src -> Forall is_cchar (decodeutf8 src)) as H
    by (intros; by eapply H).
  clear src. induction n as [|n IH]; intros [|c r1] Hn Hs; simpl in Hn; try lia; try by constructor.
  assert (forall uni here rest, (length here <= n)%nat -> (length rest <= n)%nat ->
    Forall is_cchar here -> Forall is_cchar rest ->
    Forall is_cchar (let d := uni2cube uni in if d =? 0 then decodeutf8 here else d :: decodeutf8 rest)) as Hpush.
  { intros uni here rest ? ? ? ?. pose proof (uni2cube_range uni). cbn zeta.
    destruct (Z.eqb_spec (uni2cube uni) 0); [by apply IH|]. constructor; [unfold is_cchar; lia|by apply IH]. }
  apply Forall_cons in Hs as [Hc Hr1].
  assert (forall r, (length r <= n)%nat -> Forall is_cchar r -> Forall is_cchar (decodeutf8 r)) as IH' by auto.
  cbn [decodeutf8]. destruct (c <? 0x80); [constructor; auto with lia|]. destruct (c <? 0xC0); [auto with lia|].
  destruct r1 as [|c1 r2]; [by repeat case_match|]. pose proof (Forall_inv_tail Hr1) as Hr2. simpl in Hn.
  destruct (c <? 0xE0); [destruct (is_continuation c1); [apply Hpush|apply IH']; done || (simpl; lia)|].
  destruct (c <? 0xF0); (destruct (is_continuation c1); cbn [negb]; [|apply IH'; done || (simpl; lia)]);
    (destruct r2 as [|c2 r3]; [done|]); pose proof (Forall_inv_tail Hr2) as Hr3; simpl in Hn;
    (destruct (is_continuation c2); cbn [negb]; [|apply IH'; done || (simpl; lia)]);
    [apply Hpush; done || (simpl; lia)|].
  destruct r3 as [|c3 r4]; [done|]. pose proof (Forall_inv_tail Hr3) as Hr4. simpl in Hn.
  destruct (is_continuation c3); [apply Hpush|apply IH']; done || (simpl; lia).
Qed.

(** * Properties *)

(** C10: [filtertext] makes client text safe to store and broadcast: on any C
    string, with any destination of [len] characters, the result contains only
    printable characters (and blanks when [whitespace] asks for them, all of
    them spaces under [forcespace]), never a form-feed colour code, never more
    than [len] characters; filtering it again changes nothing. *)
Theorem filtertext_safe (whitespace forcespace : bool) (len : Z) (src : cstring) :
  0 < len -> Forall is_cchar src ->
  let out := filtertext whitespace forcespace len src in
  Forall (passes whitespace forcespace) out /\ zlength out <= len /\
  filtertext whitespace forcespace len out = out.
Proof.
  intros Hlen Hsrc out. destruct (filtertext_ok whitespace forcespace src len Hlen Hsrc).
  split_and!; [done|done|by apply filtertext_fixed].
Qed.

Lemma filtertext_safe_witness :
  let out := filtertext false false 4 [12; 51; 72; 32; 105; 9; 33; 33; 33] in
  Forall (passes false false) out /\ zlength out <= 4 /\ filtertext false false 4 out = out.
Proof. apply (filtertext_safe false false 4 [12; 51; 72; 32; 105; 9; 33; 33; 33]); decide_now. Defined.

(** C11: every string of the cube character set survives the conversion to
    UTF-8 (Lua events, map files) and back unchanged. *)
Theorem utf8_roundtrip (t : cstring) :
  Forall is_cchar t -> decodeutf8 (encodeutf8 t) = t.
Proof.
  induction t as [|c t IH]; intros Ht; [done|]. apply Forall_cons in Ht as [Hc Ht].
  unfold encodeutf8 in *. simpl. rw (char_utf8_roundtrip c _ Hc). by rw (IH Ht).
Qed.

Lemma utf8_roundtrip_witness : decodeutf8 (encodeutf8 [1; 65; 200; 255; 127]) = [1; 65; 200; 255; 127].
Proof. apply (utf8_roundtrip [1; 65; 200; 255; 127]). decide_now. Defined.
