(* ===== verification/Paths.v ===== *)
(** File names (shared/stream.cpp [path], [makerelpath], [parentdir],
    [fixpackagedir]; PATHDIV is the slash).

    The buffer is the list of its characters up to the terminator; the pointers
    [curpart], [prevdir] and [curdir] of the loops are positions in it. *)
From S2P Require Import Prelude Text.

#[local] Open Scope list_scope.

Definition PATHDIV : Z := 47.
(** [strchr(p, c) - s] for [p = s + from]. *)
Definition strchr (t : cstring) (from : nat) (c : Z) : option nat :=
  (fun r => from + r.1)%nat <$> list_find (eq c) (drop from t).
Definition strrchr (t : cstring) (c : Z) : option nat :=
  (fun r => length t - 1 - r.1)%nat <$> list_find (eq c) (rev t).
Definition at_ (t : cstring) (i : nat) : Z := nth i t 0.
(** [memmove(prevdir, q, strlen(q)+1)]. *)
Definition cut (t : cstring) (i j : nat) : cstring := take i t ++ drop j t.
(** Back to the beginning of the part that ends before position [p]. *)
Fixpoint part_start (t : cstring) (p : nat) : nat :=
  match p with
  | O => O
  | S q => if at_ t q =? PATHDIV then p else part_start t q
  end.
Definition back_up (t : cstring) (prevdir : nat) : nat :=
  if (2 <=? prevdir)%nat && (at_ t (prevdir - 1) =? PATHDIV) then part_start t (prevdir - 2) else prevdir.
(** One turn of the loop over the directories: the buffer and [curdir]; nothing when it ends. *)
Definition norm_step (t : cstring) (cur : nat) : option (cstring * nat) :=
  let prevdir := if at_ t cur =? PATHDIV then S cur else cur in
  curdir ← strchr t prevdir PATHDIV;
  Some (
    if (S prevdir =? curdir)%nat && (at_ t prevdir =? 46) then (cut t prevdir (S curdir), prevdir)
    else if (at_ t (curdir + 1) =? 46) && (at_ t (curdir + 2) =? 46) && (at_ t (curdir + 3) =? PATHDIV) then
      if (prevdir + 2 =? curdir)%nat && (at_ t prevdir =? 46) && (at_ t (prevdir + 1) =? 46) then (t, curdir)
      else let t := cut t prevdir (curdir + 4) in (t, back_up t prevdir)
    else (t, curdir)).
Fixpoint norm (fuel : nat) (t : cstring) (cur : nat) : option cstring :=
  match fuel with
  | O => None
  | S fuel =>
    match norm_step t cur with
    | None => Some t
    | Some (t, cur) => norm fuel t cur
    end
  end.
Definition norm_fuel (t : cstring) : nat := S (S (length t) * S (length t)).
Definition slashes (t : cstring) : cstring := map (fun c => if c =? 92 then PATHDIV else c) t.
(** A part of the name up to the next ampersand, behind its [<...>]. *)
Definition path_part (part : cstring) : option cstring :=
  if at_ part 0 =? 60 then
    match strrchr part 62 with
    | None => None
    | Some e => t ← norm (norm_fuel (drop (S e) part)) (slashes (drop (S e) part)) 0; Some (take (S e) part ++ t)
    end
  else norm (norm_fuel part) (slashes part) 0.
(** The ampersand is put back where it was; when the part before it has become
    shorter, its terminator ends the name.  A [<] without its [>] leaves the
    terminator in the place of the ampersand. *)
Fixpoint path_loop (fuel : nat) (t : cstring) : cstring :=
  match fuel with
  | O => t
  | S fuel =>
    match strchr t 0 38 with
    | None => default t (path_part t)
    | Some e =>
      let part := take e t in
      match path_part part with
      | None => part
      | Some part' =>
        if (length part' <? length part)%nat then part'
        else part' ++ 38 :: path_loop fuel (drop (S e) t)
      end
    end
  end.
Definition path (t : cstring) : cstring := path_loop (S (length t)) t.
Definition copypath (t : cstring) : cstring := path (copystring t MAXSTRLEN).

(** [makerelpath(dir, file, prefix, cmd)]; the absent arguments are NULL. *)
Definition makerelpath (dir : option cstring) (file : cstring) (prefix cmd : option cstring) : cstring :=
  let tmp := copystring (default [] prefix) MAXSTRLEN in
  let '(tmp, file) :=
    if at_ file 0 =? 60 then
      match strrchr file 62 with
      | Some e => (tmp ++ copystring file (tmin (MAXSTRLEN - zlength tmp) (Z.of_nat e + 2)), drop (S e) file)
      | None => (tmp, file)
      end
    else (tmp, file) in
  let tmp := concatstring tmp (default [] cmd) MAXSTRLEN in
  match dir with
  | Some dir => concatstring tmp (copystring (dir ++ PATHDIV :: file) MAXSTRLEN) MAXSTRLEN
  | None => concatstring tmp file MAXSTRLEN
  end.
(** Everything before the last slash or backslash; the first character is
    never looked at as the end. *)
Fixpoint parent_end (t : cstring) (p : nat) : nat :=
  match p with
  | O => O
  | S q => if (at_ t p =? PATHDIV) || (at_ t p =? 92) then p else parent_end t q
  end.
Definition parentdir (t : cstring) : cstring :=
  copystring t (Z.of_nat (parent_end t (length t)) + 1).
(** The buffer with the slash it must end with, and the length before that. *)
Definition fixpackagedir (dir : cstring) : cstring * Z :=
  let dir := path dir in
  let len := length dir in
  (if (0 <? len)%nat && negb (at_ dir (len - 1) =? PATHDIV) then dir ++ [PATHDIV] else dir, Z.of_nat len).

(** * The loop ends *)

Lemma strchr_spec t from c i : strchr t from c = Some i -> (from <= i < length t)%nat /\ t !! i = Some c.
Proof.
  unfold strchr. intros Hi. apply fmap_Some in Hi as ([j x]&Hf&->). apply list_find_Some in Hf as (Hj&->&_).
  rw lookup_drop in Hj. split; [|done]. apply lookup_lt_Some in Hj. cbn. lia.
Qed.
Lemma length_cut t i j : (i <= j <= length t)%nat -> length (cut t i j) = (length t - (j - i))%nat.
Proof. intros. unfold cut. rw length_app length_take length_drop. lia. Qed.
Lemma part_start_le t p : (part_start t p <= p)%nat.
Proof. induction p as [|p IH]; cbn [part_start]; [done|]. destruct (_ =? _); lia. Qed.
Lemma back_up_le t p : (back_up t p <= p)%nat.
Proof. unfold back_up. destruct (_ && _); [|done]. pose proof (part_start_le t (p - 2)). lia. Qed.
(** Each turn shortens the buffer or goes on in it. *)
Lemma norm_step_progress t cur t' cur' :
  (cur <= length t)%nat -> norm_step t cur = Some (t', cur') ->
  (cur' <= length t')%nat /\
  ((length t' < length t)%nat \/ length t' = length t /\ (cur < cur')%nat).
Proof.
  intros Hcur. unfold norm_step. set (prev := if at_ t cur =? PATHDIV then S cur else cur).
  destruct (strchr t prev PATHDIV) as [i|] eqn:Hi; [|done]. apply strchr_spec in Hi as [Hi Hti].
  assert (cur < i)%nat as Hlt.
  { unfold prev in Hi. destruct (Z.eqb_spec (at_ t cur) PATHDIV) as [|Hne]; [lia|].
    destruct (decide (i = cur)) as [->|]; [|lia]. destruct Hne. unfold at_. by apply nth_lookup_Some. }
  assert (forall j, at_ t j = PATHDIV -> (j < length t)%nat) as Hat.
  { intros j. destruct (decide (j < length t)%nat) as [|Hge]; [done|]. unfold at_.
    rewrite -> nth_overflow by lia. by intros E. }
  cbn [mbind option_bind]. destruct (_ && (at_ t prev =? 46)) eqn:H1; [|destruct (_ && (at_ t (i + 3) =? PATHDIV)) eqn:H2;
    [destruct (_ && (at_ t (prev + 1) =? 46))|]]; intros E; injection E as <- <-; try (split; [lia|right; lia]).
  - apply andb_true_iff in H1 as [?%Nat.eqb_eq _]. rewrite -> length_cut by lia. lia.
  - apply andb_true_iff in H2 as [_ Hd%Z.eqb_eq%Hat]. pose proof (back_up_le (cut t prev (i + 4)) prev).
    rewrite -> length_cut in * by lia. lia.
Qed.
Lemma norm_ends fuel t cur :
  (cur <= length t)%nat -> (S (length t) * S (length t) - cur < fuel)%nat ->
  exists t', norm fuel t cur = Some t' /\ (length t' <= length t)%nat.
Proof.
  revert t cur. induction fuel as [|fuel IH]; intros t cur Hcur Hf; [lia|]. cbn [norm].
  destruct (norm_step t cur) as [[t1 cur1]|] eqn:E; [|by exists t].
  destruct (norm_step_progress _ _ _ _ Hcur E) as [H1 Hp]. destruct (IH t1 cur1) as (t'&Ht&Hl); [done|nia|].
  exists t'. split; [done|lia].
Qed.
Lemma norm_total t : exists t', norm (norm_fuel t) (slashes t) 0 = Some t' /\ (length t' <= length t)%nat.
Proof.
  assert (length (slashes t) = length t) as E by apply length_fmap.
  rw -E. unfold norm_fuel. rw -E. apply norm_ends; lia.
Qed.

Example path_plain : path (cstr "packages\base/./x/../y/../../z.ents") = cstr "packages/z.ents".
Proof. by vm_compute. Qed.
Example path_up : path (cstr "mapinfo/../../up.ents") = cstr "../up.ents".
Proof. by vm_compute. Qed.
(** A dot before the two dots: the part before is not taken away, so the name is not
    in its normal form; a second pass would take it away. *)
Example path_not_idempotent :
  path (cstr "a/./../b") = cstr "a/../b" /\ path (path (cstr "a/./../b")) = cstr "b".
Proof. by vm_compute. Qed.
Example parent_of : parentdir (cstr "mapinfo/x.ents") = cstr "mapinfo".
Proof. by vm_compute. Qed.
