(* ===== verification/Bigint.v ===== *)
(** Numbers of many digits (shared/crypto.cpp [bigint]).

    A [bigint<N>] has room for [N] digits of 16 bits, the low one first, and the
    number [len] of those in use; digits past [len] are never read.  The model is
    the list of the digits in use, and the room a result takes is its length.
    Loops over the digits are recursions over the lists, the carry their
    accumulator; a [dbldigit] is 32 bits wide, and its wrap-around is written
    where the source could wrap. *)
From S2P Require Import Prelude Text.

#[local] Open Scope list_scope.

Definition BI_DIGIT_BITS : Z := 16.
Definition to_digit (n : Z) : Z := Z.land n 0xFFFF.
Definition to_dbldigit (n : Z) : Z := Z.land n 0xFFFFFFFF.
Definition bigint : Set := list Z.

(** ** Shape *)

(** [while(len > 0 && !digits[len-1]) len--;] *)
Definition shrink (x : bigint) : bigint :=
  foldr (fun d l => match l with [] => if d =? 0 then [] else [d] | _ => d :: l end) [] x.
Definition bi_of_digit (n : Z) : bigint := if n =? 0 then [] else [n].
Definition iszero (x : bigint) : bool := bool_decide (x = []).
Definition isone (x : bigint) : bool := bool_decide (x = [1]).
Definition copyshrinkdigits (y : bigint) (n : Z) : bigint :=
  shrink (take (Z.to_nat (clamp (zlength y) 0 n)) y).

(** [while(mask) { if(last&mask) return bits; bits--; mask >>= 1; }] *)
Fixpoint numbits_loop (fuel : nat) (last_ mask bits : Z) : Z :=
  match fuel with
  | O => 0
  | S fuel => if negb (Z.land last_ mask =? 0) then bits
              else numbits_loop fuel last_ (Z.shiftr mask 1) (bits - 1)
  end.
Definition numbits (x : bigint) : Z :=
  match last x with
  | Some d => numbits_loop 16 d 0x8000 (zlength x * BI_DIGIT_BITS)
  | None => 0
  end.
Definition hasbit (x : bigint) (n : Z) : bool :=
  (n ÷ BI_DIGIT_BITS <? zlength x) &&
  Z.testbit (default 0 (x .! (n ÷ BI_DIGIT_BITS))) (Z.rem n BI_DIGIT_BITS).
Definition morebits (x : bigint) (n : Z) : bool := n ÷ BI_DIGIT_BITS <? zlength x.

(** ** Parts of the array, by bits; [digits] is the whole room here *)

Definition splice (to : Z) (l digits : list Z) : list Z :=
  take (Z.to_nat to) digits ++ l ++ drop (Z.to_nat to + length l) digits.
Definition zerobits (i n : Z) (digits : list Z) : list Z :=
  splice (i ÷ BI_DIGIT_BITS) (replicate (Z.to_nat (n ÷ BI_DIGIT_BITS)) 0) digits.
(** The digits [y] does not use count as zeros. *)
Definition copydigits (to : Z) (y : bigint) (from n : Z) (digits : list Z) : list Z :=
  let avail := clamp (zlength y - from) 0 n in
  splice to (take (Z.to_nat avail) (drop (Z.to_nat from) y) ++ replicate (Z.to_nat (n - avail)) 0) digits.
Definition copybits (to : Z) (y : bigint) (from n : Z) : list Z -> list Z :=
  copydigits (to ÷ BI_DIGIT_BITS) y (from ÷ BI_DIGIT_BITS) (n ÷ BI_DIGIT_BITS).
Definition dupbits (to from n : Z) (digits : list Z) : list Z :=
  splice (to ÷ BI_DIGIT_BITS)
    (take (Z.to_nat (n ÷ BI_DIGIT_BITS)) (drop (Z.to_nat (from ÷ BI_DIGIT_BITS)) digits)) digits.
Definition shrinkdigits (n : Z) (digits : list Z) : bigint := shrink (take (Z.to_nat n) digits).
Definition shrinkbits (n : Z) : list Z -> bigint := shrinkdigits (n ÷ BI_DIGIT_BITS).

(** ** Text *)

Definition hexval (c : Z) : option Z :=
  if (48 <=? c) && (c <=? 57) then Some (c - 48)
  else if (97 <=? c) && (c <=? 102) then Some (c - 97 + 10)
  else if (65 <=? c) && (c <=? 70) then Some (c - 65 + 10) else None.
(** The longest prefix of hexadecimal digits. *)
Fixpoint hexprefix (s : cstring) : list Z :=
  match s with
  | c :: s => match hexval c with Some v => v :: hexprefix s | None => [] end
  | [] => []
  end.
(** [digits[i/4] |= c<<(4*(i%4))], from the last character on. *)
Fixpoint pack (l : list Z) : bigint :=
  match l with
  | a :: b :: c :: d :: l =>
    Z.lor a (Z.lor (Z.shiftl b 4) (Z.lor (Z.shiftl c 8) (Z.shiftl d 12))) :: pack l
  | [a; b; c] => [Z.lor a (Z.lor (Z.shiftl b 4) (Z.shiftl c 8))]
  | [a; b] => [Z.lor a (Z.shiftl b 4)]
  | [a] => [a]
  | [] => []
  end.
(** Too many digits are no digits. *)
Definition parse (room : nat) (s : cstring) : bigint :=
  let digits := pack (rev (hexprefix s)) in
  if (room <? length digits)%nat then [] else shrink digits.

Definition hexchar (v : Z) : Z := if v <? 10 then 48 + v else 97 + v - 10.
Definition nibbles (d : Z) : list Z := [Z.land d 15; Z.land (Z.shiftr d 4) 15; Z.land (Z.shiftr d 8) 15;
                                        Z.land (Z.shiftr d 12) 15].
Definition printdigits (x : bigint) : cstring :=
  concat (map (fun d => map hexchar (rev (nibbles d))) (rev x)).

(** ** Arithmetic *)

(** [y] is used up: the loop goes on while there is a carry. *)
Fixpoint carry_loop (x : bigint) (carry : Z) : bigint :=
  match x with
  | [] => if carry =? 0 then [] else [to_digit carry]
  | a :: x' =>
    if carry =? 0 then x else
    let c := to_dbldigit (carry + a) in to_digit c :: carry_loop x' (Z.shiftr c BI_DIGIT_BITS)
  end.
(** [x] is used up. *)
Fixpoint tail_loop (y : bigint) (carry : Z) : bigint :=
  match y with
  | [] => if carry =? 0 then [] else [to_digit carry]
  | b :: y => let c := to_dbldigit (carry + b) in to_digit c :: tail_loop y (Z.shiftr c BI_DIGIT_BITS)
  end.
Fixpoint add_loop (x y : bigint) (carry : Z) : bigint :=
  match x, y with
  | a :: x', b :: y' =>
    let c := to_dbldigit (carry + (a + b)) in to_digit c :: add_loop x' y' (Z.shiftr c BI_DIGIT_BITS)
  | [], _ => tail_loop y carry
  | _, [] => carry_loop x carry
  end.
Definition add (x y : bigint) : bigint := add_loop x y 0.

(** For [x >= y]: the loop then ends before the digits of [x] do. *)
Fixpoint sub_loop (x y : bigint) (borrow : Z) : bigint :=
  match x with
  | [] => []
  | a :: x' =>
    match y with
    | b :: y' =>
      let c := to_dbldigit (65536 + a - b - borrow) in
      to_digit c :: sub_loop x' y' (Z.lxor (Z.shiftr c BI_DIGIT_BITS) 1)
    | [] =>
      if borrow =? 0 then x else
      let c := to_dbldigit (65536 + a - borrow) in
      to_digit c :: sub_loop x' [] (Z.lxor (Z.shiftr c BI_DIGIT_BITS) 1)
    end
  end.
Definition sub (x y : bigint) : bigint := shrink (sub_loop x y 0).

(** One digit of [x] times [y], added to the digits [acc] at its place. *)
Fixpoint mul_row (a : Z) (y acc : bigint) (carry : Z) : bigint :=
  match y, acc with
  | b :: y, d :: acc =>
    let c := to_dbldigit (carry + (a * b + d)) in to_digit c :: mul_row a y acc (Z.shiftr c BI_DIGIT_BITS)
  | _, _ => [to_digit carry]
  end.
Fixpoint mul_loop (x y acc : bigint) : bigint :=
  match x with
  | [] => acc
  | a :: x =>
    match mul_row a y acc 0 with
    | d :: acc => d :: mul_loop x y acc
    | [] => []
    end
  end.
Definition mul (x y : bigint) : bigint :=
  if bool_decide (x = []) || bool_decide (y = []) then []
  else shrink (mul_loop x y (replicate (length y) 0)).

(** The digits above the first, shifted down by [n] bits, 1 to 16. *)
Fixpoint rshift_loop (n carry : Z) (x : bigint) : bigint :=
  match x with
  | [] => [carry]
  | d :: x => to_digit (Z.lor (Z.shiftl d (BI_DIGIT_BITS - n)) carry) :: rshift_loop n (to_digit (Z.shiftr d n)) x
  end.
Definition rshift (x : bigint) (n : Z) : bigint :=
  if bool_decide (x = []) || (n <=? 0) then x
  else if zlength x * BI_DIGIT_BITS <=? n then []
  else
    let dig := (n - 1) ÷ BI_DIGIT_BITS in
    let n := Z.rem (n - 1) BI_DIGIT_BITS + 1 in
    match drop (Z.to_nat dig) x with
    | [] => []
    | d :: rest =>
      let len_ := zlength x - (dig + n ÷ BI_DIGIT_BITS) in
      shrink (take (Z.to_nat len_) (rshift_loop n (to_digit (Z.shiftr d n)) rest))
    end.

(** From the high digit down, as the source goes. *)
Fixpoint lshift_loop (n : Z) (x : bigint) : bigint * Z :=
  match x with
  | [] => ([], 0)
  | d :: x =>
    let '(l, carry) := lshift_loop n x in
    (to_digit (Z.lor (Z.shiftl d n) carry) :: l, to_digit (Z.shiftr d (BI_DIGIT_BITS - n)))
  end.
Definition lshift (x : bigint) (n : Z) : bigint :=
  if bool_decide (x = []) || (n <=? 0) then x else
  let '(l, carry) := lshift_loop (Z.rem n BI_DIGIT_BITS) x in
  replicate (Z.to_nat (n ÷ BI_DIGIT_BITS)) 0 ++ l ++ (if carry =? 0 then [] else [carry]).

(** ** Comparison *)
(** [loopirev(len)]: the first difference from the top. *)
Fixpoint less_loop (x y : bigint) : option bool :=
  match x, y with
  | a :: x, b :: y =>
    match less_loop x y with
    | Some r => Some r
    | None => if a <? b then Some true else if b <? a then Some false else None
    end
  | _, _ => None
  end.
Definition less (x y : bigint) : bool :=
  if (length x <? length y)%nat then true
  else if (length y <? length x)%nat then false
  else default false (less_loop x y).
Definition geq (x y : bigint) : bool := negb (less x y).
Definition equal (x y : bigint) : bool := bool_decide (x = y).

(** * Values *)

Fixpoint val (x : bigint) : Z := match x with [] => 0 | d :: x => d + 65536 * val x end.
Definition is_digit (d : Z) : Prop := 0 <= d < 65536.
(** In range, and no zero at the top. *)
Record bi_wf (x : bigint) : Prop := {
  bw_digits : Forall is_digit x;
  bw_top : last x <> Some 0
}.
#[global] Instance is_digit_dec d : Decision (is_digit d).
Proof. unfold is_digit. apply _. Defined.

#[global] Instance bi_wf_dec x : Decision (bi_wf x).
Proof.
  refine (cast_if (decide (Forall is_digit x /\ last x <> Some 0))).
  - by destruct_and!.
  - intros [? ?]; naive_solver.
Defined.
(** A concrete number is well formed. *)
Ltac wf_number := apply (bool_decide_unpack _); vm_compute; exact I.

Lemma digits0 : Forall is_digit [].
Proof. by apply Forall_nil. Qed.
Lemma digits_cons d x : is_digit d -> Forall is_digit x -> Forall is_digit (d :: x).
Proof. intros. by apply Forall_cons. Qed.
Lemma digits1 d : is_digit d -> Forall is_digit [d].
Proof. intros. by apply digits_cons, Forall_nil. Qed.
Lemma to_digit_mod n : to_digit n = n mod 65536.
Proof. exact (Z.land_ones n 16 ltac:(done)). Qed.
Lemma to_digit_range n : is_digit (to_digit n).
Proof. rw to_digit_mod. by apply Z.mod_pos_bound. Qed.
Lemma to_digit_id n : is_digit n -> to_digit n = n.
Proof. intros. rw to_digit_mod. by apply Z.mod_small. Qed.
Lemma to_dbldigit_id n : 0 <= n < 4294967296 -> to_dbldigit n = n.
Proof. intros. rw -[RHS](Z.mod_small n 4294967296) //. exact (Z.land_ones n 32 ltac:(done)). Qed.
Lemma shiftr16 n : Z.shiftr n BI_DIGIT_BITS = n / 65536.
Proof. by rw Z.shiftr_div_pow2. Qed.
#[local] Hint Resolve to_digit_range digits0 digits_cons digits1 : core.
#[local] Hint Extern 5 (is_digit _) => (split; lia) : core.

Lemma val_app x y : val (x ++ y) = val x + 65536 ^ Z.of_nat (length x) * val y.
Proof.
  induction x as [|d x IH]; cbn [app val length]; [lia|]. rw IH Nat2Z.inj_succ.
  rewrite -> Z.pow_succ_r by lia. lia.
Qed.
Lemma val_bounds x : Forall is_digit x -> 0 <= val x < 65536 ^ Z.of_nat (length x).
Proof.
  induction 1 as [|d x [H0 H1] _ IH]; cbn [val length]; [done|].
  rw Nat2Z.inj_succ. rewrite -> Z.pow_succ_r by lia. lia.
Qed.
Lemma val_zeros n : val (replicate n 0) = 0.
Proof. induction n as [|n IH]; cbn [replicate val]; [done|]. by rw IH. Qed.

Lemma shrink_val x : val (shrink x) = val x.
Proof.
  induction x as [|d x IH]; [done|]. cbn [val]. rw -IH. unfold shrink. cbn [foldr]. fold (shrink x).
  destruct (shrink x); [|done]. destruct (Z.eqb_spec d 0); by subst.
Qed.
Lemma bi_wf_nil : bi_wf [].
Proof. by split; [apply digits0|]. Qed.
Lemma shrink_wf x : Forall is_digit x -> bi_wf (shrink x).
Proof.
  induction 1 as [|d x Hd _ [IH1 IH2]]; [by split|].
  unfold shrink. cbn [foldr]. fold (shrink x). destruct (shrink x) as [|e l] eqn:E.
  - destruct (Z.eqb_spec d 0); [by split|]. split; [by apply digits1|]. by intros [= ->].
  - split; [by apply digits_cons|done].
Qed.
Lemma shrink_length x : (length (shrink x) <= length x)%nat.
Proof.
  induction x as [|d x IH]; [done|]. unfold shrink. cbn [foldr]. fold (shrink x).
  destruct (shrink x); [destruct (d =? 0)|]; cbn [length] in *; lia.
Qed.
(** The length of a number without zeros at the top is the size of its value. *)
Lemma bi_wf_cons d x : bi_wf (d :: x) -> bi_wf x.
Proof. intros [[? ?]%Forall_cons Ht]. split; [done|]. by destruct x. Qed.
Lemma val_top x : bi_wf x -> x <> [] -> 65536 ^ Z.of_nat (length x - 1) <= val x.
Proof.
  induction x as [|d x IH]; [done|]. intros Hwf _. pose proof (bi_wf_cons d x Hwf) as Hx.
  destruct Hwf as [[[H0 H1] _]%Forall_cons Ht]. destruct x as [|e x].
  - cbn in *. destruct (decide (d = 0)) as [->|]; [done|]. lia.
  - specialize (IH Hx ltac:(done)). cbn [length val] in *.
    replace (Z.of_nat (S (S (length x)) - 1)) with (Z.succ (Z.of_nat (S (length x) - 1))) by lia.
    rewrite -> Z.pow_succ_r by lia. lia.
Qed.
Lemma val_inj x y : bi_wf x -> bi_wf y -> val x = val y -> x = y.
Proof.
  revert y. induction x as [|d x IH]; intros [|e y] Hx Hy E.
  - done.
  - pose proof (val_top _ Hy ltac:(done)) as H. cbn [val] in E, H. rw -E in H.
    assert (0 < 65536 ^ Z.of_nat (length (e :: y) - 1)) by (apply Z.pow_pos_nonneg; lia). lia.
  - pose proof (val_top _ Hx ltac:(done)) as H. cbn [val] in E, H. rw E in H.
    assert (0 < 65536 ^ Z.of_nat (length (d :: x) - 1)) by (apply Z.pow_pos_nonneg; lia). lia.
  - cbn [val] in E. pose proof (bw_digits _ Hx) as [[? ?] _]%Forall_cons.
    pose proof (bw_digits _ Hy) as [[? ?] _]%Forall_cons.
    assert (d = e /\ val x = val y) as [-> Ev] by lia. f_equal.
    apply IH; [by eapply bi_wf_cons..|done].
Qed.

(** ** Sums and differences *)

Lemma carry_of c : 0 <= c -> c = to_digit c + 65536 * Z.shiftr c BI_DIGIT_BITS.
Proof. intros. rw shiftr16 to_digit_mod. pose proof (Z.div_mod c 65536). lia. Qed.
Lemma carry_range c k : 0 <= c < 65536 * k -> 0 <= Z.shiftr c BI_DIGIT_BITS < k.
Proof. intros. rw shiftr16. split; [apply Z.div_pos; lia|apply Z.div_lt_upper_bound; lia]. Qed.

Ltac digit_step c :=
  let Hc := fresh "Hc" in
  pose proof (carry_of c ltac:(lia)) as Hc; pose proof (to_digit_range c).

Lemma carry_loop_spec x carry :
  Forall is_digit x -> 0 <= carry <= 1 ->
  val (carry_loop x carry) = val x + carry /\ Forall is_digit (carry_loop x carry) /\
  (length x <= length (carry_loop x carry) <= S (length x))%nat /\
  (last x <> Some 0 -> last (carry_loop x carry) <> Some 0).
Proof.
  intros Hx. revert carry. induction Hx as [|a x [Ha0 Ha1] Hx IH]; intros carry Hc; cbn [carry_loop].
  { destruct (Z.eqb_spec carry 0) as [->|]; cbn; [by split_and!; auto|].
    assert (carry = 1) as -> by lia. split_and!; try done; [apply digits1, to_digit_range|lia]. }
  destruct (Z.eqb_spec carry 0) as [->|Hne].
  { split_and!; [lia|by auto|cbn; lia..|done]. }
  rewrite -> to_dbldigit_id by lia. digit_step (carry + a).
  pose proof (carry_range (carry + a) 2 ltac:(lia)) as Hr.
  destruct (IH (Z.shiftr (carry + a) BI_DIGIT_BITS) ltac:(lia)) as (Hv&Hd&Hl&Ht).
  cbn [val length]. split_and!; [lia|by auto|lia..|].
  intros Htop. destruct x as [|a' x].
  - cbn in *. destruct (Z.eqb_spec (Z.shiftr (carry + a) BI_DIGIT_BITS) 0) as [E|]; cbn.
    + rw E in Hc0. intros [= Ez]. lia.
    + intros [= Ez]. assert (Z.shiftr (carry + a) BI_DIGIT_BITS = 1) as E1 by lia. by rw E1 in Ez.
  - destruct (carry_loop (a' :: x) _) as [|e l] eqn:E; [cbn in Hl; lia|]. by apply Ht.
Qed.
Lemma tail_loop_spec y carry :
  Forall is_digit y -> 0 <= carry <= 1 ->
  val (tail_loop y carry) = val y + carry /\ Forall is_digit (tail_loop y carry) /\
  (length y <= length (tail_loop y carry) <= S (length y))%nat /\
  (last y <> Some 0 -> last (tail_loop y carry) <> Some 0).
Proof.
  intros Hy. revert carry. induction Hy as [|b y [Hb0 Hb1] Hy IH]; intros carry Hc; cbn [tail_loop].
  { destruct (Z.eqb_spec carry 0) as [->|]; cbn; [by split_and!; auto|].
    assert (carry = 1) as -> by lia. split_and!; try done; [apply digits1, to_digit_range|lia]. }
  rewrite -> to_dbldigit_id by lia. digit_step (carry + b).
  pose proof (carry_range (carry + b) 2 ltac:(lia)) as Hr.
  destruct (IH (Z.shiftr (carry + b) BI_DIGIT_BITS) ltac:(lia)) as (Hv&Hd&Hl&Ht).
  cbn [val length]. split_and!; [lia|by auto|lia..|].
  intros Htop. destruct (tail_loop y _) as [|e l] eqn:E; [|destruct y; [|by apply Ht]].
  - destruct y; [|cbn in Hl; lia]. cbn in *. destruct (Z.eqb_spec (Z.shiftr (carry + b) BI_DIGIT_BITS) 0) as [Ez|]; [|done].
    rw Ez in Hc0. intros [= E0]. apply Htop. f_equal. lia.
  - by apply Ht.
Qed.
Lemma add_loop_spec x y carry :
  Forall is_digit x -> Forall is_digit y -> 0 <= carry <= 1 ->
  val (add_loop x y carry) = val x + val y + carry /\ Forall is_digit (add_loop x y carry) /\
  (Nat.max (length x) (length y) <= length (add_loop x y carry) <= S (Nat.max (length x) (length y)))%nat /\
  (last x <> Some 0 -> last y <> Some 0 -> last (add_loop x y carry) <> Some 0).
Proof.
  intros Hx. revert y carry. induction Hx as [|a x [Ha0 Ha1] Hx IH]; intros y carry Hy Hc; cbn [add_loop].
  { destruct (tail_loop_spec y carry Hy Hc) as (?&?&?&?). cbn. split_and!; [lia|done|lia|lia|auto]. }
  destruct Hy as [|b y [Hb0 Hb1] Hy].
  { destruct (carry_loop_spec (a :: x) carry) as (?&?&?&?); [by auto|done|].
    cbn [val length] in *. split_and!; [lia|done|lia..|auto]. }
  rewrite -> to_dbldigit_id by lia. digit_step (carry + (a + b)).
  pose proof (carry_range (carry + (a + b)) 2 ltac:(lia)) as Hr.
  destruct (IH y (Z.shiftr (carry + (a + b)) BI_DIGIT_BITS) Hy ltac:(lia)) as (Hv&Hd&Hl&Ht).
  cbn [val length]. split_and!; [lia|by auto|lia..|].
  intros Hx1 Hy1. destruct (add_loop x y _) as [|e l] eqn:E.
  - pose proof (val_bounds _ Hx). pose proof (val_bounds _ Hy). cbn [val] in Hv.
    assert (val x = 0 /\ val y = 0 /\ Z.shiftr (carry + (a + b)) BI_DIGIT_BITS = 0) as (Ex&Ey&Ec) by lia.
    destruct x, y; cbn [length] in Hl; try lia.
    cbn in *. rw Ec in Hc0. intros [= E0]. apply Hx1. f_equal. lia.
  - destruct x as [|a' x], y as [|b' y]; cbn [last] in *; try (apply Ht; done).
Qed.
Lemma add_wf x y : bi_wf x -> bi_wf y ->
  bi_wf (add x y) /\ val (add x y) = val x + val y /\ (length (add x y) <= S (Nat.max (length x) (length y)))%nat.
Proof.
  intros [Hx Tx] [Hy Ty]. destruct (add_loop_spec x y 0 Hx Hy) as (?&?&?&?); [lia|].
  unfold add. split_and!; [split; auto|lia|lia].
Qed.

Lemma sub_loop_spec x y borrow :
  Forall is_digit x -> Forall is_digit y -> 0 <= borrow <= 1 -> 0 <= val x - val y - borrow ->
  val (sub_loop x y borrow) = val x - val y - borrow /\ Forall is_digit (sub_loop x y borrow) /\
  length (sub_loop x y borrow) = length x.
Proof.
  intros Hx. revert y borrow. induction Hx as [|a x [Ha0 Ha1] Hx IH]; intros y borrow Hy Hb Hge; cbn [sub_loop].
  { pose proof (val_bounds _ Hy). cbn in *. split_and!; [lia|by auto|done]. }
  assert (forall c, 0 <= c < 131072 -> Z.lxor (Z.shiftr c BI_DIGIT_BITS) 1 = 1 - Z.shiftr c BI_DIGIT_BITS) as Hxor.
  { intros c Hc. pose proof (carry_range c 2 ltac:(lia)).
    assert (Z.shiftr c BI_DIGIT_BITS = 0 \/ Z.shiftr c BI_DIGIT_BITS = 1) as [->| ->] by lia; done. }
  destruct Hy as [|b y [Hb0 Hb1] Hy].
  - destruct (Z.eqb_spec borrow 0) as [->|Hne]; [split_and!; [cbn; lia|by auto|done]|].
    rewrite -> to_dbldigit_id by lia. digit_step (65536 + a - borrow).
    rewrite -> Hxor by lia. pose proof (carry_range (65536 + a - borrow) 2 ltac:(lia)). cbn [val] in Hge.
    unfold is_digit in *. destruct (IH [] (1 - Z.shiftr (65536 + a - borrow) BI_DIGIT_BITS)) as (?&?&?);
      [done|lia|cbn; lia|]. cbn [val length] in *. split_and!; [lia|by auto|lia].
  - rewrite -> to_dbldigit_id by lia. digit_step (65536 + a - b - borrow).
    rewrite -> Hxor by lia. pose proof (carry_range (65536 + a - b - borrow) 2 ltac:(lia)). cbn [val] in Hge.
    unfold is_digit in *. destruct (IH y (1 - Z.shiftr (65536 + a - b - borrow) BI_DIGIT_BITS)) as (?&?&?);
      [done|lia|lia|]. cbn [val length] in *. split_and!; [lia|by auto|lia].
Qed.
Lemma sub_wf x y : bi_wf x -> bi_wf y -> val y <= val x ->
  bi_wf (sub x y) /\ val (sub x y) = val x - val y /\ (length (sub x y) <= length x)%nat.
Proof.
  intros [Hx _] [Hy _] Hge. destruct (sub_loop_spec x y 0 Hx Hy) as (Hv&Hd&Hl); [lia..|].
  unfold sub. split_and!; [by apply shrink_wf|rw shrink_val; lia|]. rw -Hl. apply shrink_length.
Qed.

(** ** Products *)

Lemma mul_row_spec a y acc carry :
  is_digit a -> Forall is_digit y -> Forall is_digit acc -> length acc = length y -> is_digit carry ->
  val (mul_row a y acc carry) = a * val y + val acc + carry /\ Forall is_digit (mul_row a y acc carry) /\
  length (mul_row a y acc carry) = S (length y).
Proof.
  intros [Ha0 Ha1] Hy. revert acc carry. induction Hy as [|b y [Hb0 Hb1] Hy IH]; intros acc carry Hacc Hl [Hc0 Hc1].
  { destruct acc; [|done]. cbn. rewrite -> to_digit_id by done. split_and!; [lia|by apply digits1|done]. }
  destruct Hacc as [|d acc [Hd0 Hd1] Hacc]; [done|]. cbn [mul_row]. injection Hl as Hl.
  assert (a * b <= 65535 * 65535) by nia. assert (0 <= a * b) by nia.
  rewrite -> to_dbldigit_id by lia. digit_step (carry + (a * b + d)).
  destruct (IH acc (Z.shiftr (carry + (a * b + d)) BI_DIGIT_BITS) Hacc Hl) as (Hv&Hd&Hn).
  { apply carry_range. lia. }
  cbn [val length]. split_and!; [lia|by auto|lia].
Qed.
Lemma mul_loop_spec x y acc :
  Forall is_digit x -> Forall is_digit y -> Forall is_digit acc -> length acc = length y ->
  val (mul_loop x y acc) = val x * val y + val acc /\ Forall is_digit (mul_loop x y acc) /\
  length (mul_loop x y acc) = (length x + length y)%nat.
Proof.
  intros Hx Hy. revert acc. induction Hx as [|a x Ha Hx IH]; intros acc Hacc Hl; cbn [mul_loop].
  { split_and!; [cbn; lia|done|done]. }
  destruct (mul_row_spec a y acc 0 Ha Hy Hacc Hl ltac:(done)) as (Hv&Hd&Hn).
  destruct (mul_row a y acc 0) as [|d l]; [done|]. cbn [val length] in *.
  apply Forall_cons in Hd as [Hd Hds]. destruct (IH l Hds ltac:(lia)) as (Hv'&Hd'&Hn').
  split_and!; [lia|by auto|lia].
Qed.
Lemma mul_wf x y : bi_wf x -> bi_wf y ->
  bi_wf (mul x y) /\ val (mul x y) = val x * val y /\ (length (mul x y) <= length x + length y)%nat.
Proof.
  intros [Hx _] [Hy _]. unfold mul.
  case_bool_decide as Ex; [subst; by split_and!; [split| |cbn; lia]|].
  case_bool_decide as Ey; [subst; cbn; split_and!; [by split|lia..]|]. cbn [orb].
  destruct (mul_loop_spec x y (replicate (length y) 0)) as (Hv&Hd&Hn);
    [done|done|by apply Forall_replicate|by rw length_replicate|].
  split_and!; [by apply shrink_wf|rw shrink_val Hv val_zeros; lia|]. rw -Hn. apply shrink_length.
Qed.

(** ** Comparison *)

Lemma less_loop_spec x y :
  Forall is_digit x -> Forall is_digit y -> length x = length y ->
  match less_loop x y with Some b => b = (val x <? val y) /\ val x <> val y | None => x = y end.
Proof.
  intros Hx. revert y. induction Hx as [|a x [Ha0 Ha1] Hx IH]; intros [|b y] Hy Hl; try done.
  apply Forall_cons in Hy as [[Hb0 Hb1] Hy]. injection Hl as Hl. specialize (IH y Hy Hl).
  cbn [less_loop val]. destruct (less_loop x y) as [r|].
  - destruct IH as [-> Hne]. split; [|lia]. apply eq_bool_prop_intro. rw !Is_true_true !Z.ltb_lt. lia.
  - subst. destruct (Z.ltb_spec a b); [split; [symmetry; apply Z.ltb_lt|]; lia|].
    destruct (Z.ltb_spec b a); [split; [symmetry; apply Z.ltb_ge|]; lia|]. f_equal. lia.
Qed.
(** More digits in use make a larger number. *)
Lemma val_shorter x y : bi_wf x -> bi_wf y -> (length x < length y)%nat -> val x < val y.
Proof.
  intros Hx Hy Hl. pose proof (val_bounds x (bw_digits _ Hx)).
  pose proof (val_top y Hy ltac:(by destruct y; [cbn in Hl; lia|])).
  assert (65536 ^ Z.of_nat (length x) <= 65536 ^ Z.of_nat (length y - 1)); [|lia].
  apply Z.pow_le_mono_r; lia.
Qed.
Lemma less_spec x y : bi_wf x -> bi_wf y -> less x y = (val x <? val y).
Proof.
  intros Hx Hy. unfold less. destruct (Nat.ltb_spec (length x) (length y)) as [Hl|Hl].
  { symmetry. by apply Z.ltb_lt, val_shorter. }
  destruct (Nat.ltb_spec (length y) (length x)) as [Hl'|Hl'].
  { symmetry. apply Z.ltb_ge. pose proof (val_shorter y x Hy Hx Hl'). lia. }
  pose proof (less_loop_spec x y (bw_digits _ Hx) (bw_digits _ Hy) ltac:(lia)) as H.
  destruct (less_loop x y) as [b|]; cbn; [by destruct H|]. subst. symmetry. apply Z.ltb_ge. lia.
Qed.

(** ** Shifts and bits *)

Lemma val_drop k x : Forall is_digit x -> val (drop k x) = val x / 65536 ^ Z.of_nat k.
Proof.
  intros Hx. revert k. induction Hx as [|d x [Hd0 Hd1] Hx IH]; intros [|k].
  1, 3: by rw Z.div_1_r.
  { cbn [drop val]. rw Z.div_0_l; [done|]. apply Z.pow_nonzero; lia. }
  cbn [drop val]. rw IH Nat2Z.inj_succ. rewrite -> Z.pow_succ_r by lia.
  rewrite <- Z.div_div by lia. f_equal. rw (Z.mul_comm 65536) Z.div_add; [|lia].
  rewrite -> (Z.div_small d) by lia. lia.
Qed.
Lemma val_take k x : Forall is_digit x -> val x < 65536 ^ Z.of_nat k -> val (take k x) = val x.
Proof.
  intros Hx Hlt. pose proof (val_drop k x Hx) as Hd. pose proof (val_bounds x Hx).
  rewrite -> Z.div_small in Hd by lia. rewrite <- (take_drop k x) at 2. rw val_app Hd. lia.
Qed.

(** The digits of a sum of bit fields that do not meet. *)
Lemma lor_fields a b k : 0 <= k -> 0 <= b < 2 ^ k -> Z.lor (Z.shiftl a k) b = a * 2 ^ k + b.
Proof.
  intros Hk Hb. assert (Z.land (Z.shiftl a k) b = 0) as Hland.
  { apply Z.bits_inj'. intros i Hi. rewrite -> Z.land_spec, Z.shiftl_spec, Z.bits_0 by done.
    destruct (Z.ltb_spec i k) as [Hik|Hik]; [by rewrite -> (Z.testbit_neg_r a) by lia|].
    apply andb_false_iff. right. rewrite <- (Z.mod_small b (2 ^ k)) by done. by apply Z.mod_pow2_bits_high. }
  rewrite <- Z.lxor_lor, <- Z.add_nocarry_lxor by done. rewrite -> Z.shiftl_mul_pow2 by done. done.
Qed.

(** [d] shifted left by the bits of [P], of a digit of the bits of [P] and [Q]. *)
Lemma carry_out P Q d k r c :
  P * Q = 65536 -> d = Q * k + r -> 0 <= r < Q -> 0 <= c < P -> (d * P + c) mod 65536 = r * P + c.
Proof.
  intros HPQ -> Hr Hc. symmetry. apply Z.mod_unique with k; [left; split; nia|]. rw -HPQ. ring.
Qed.
Lemma rshift_loop_spec n carry x :
  1 <= n <= 16 -> 0 <= carry < 2 ^ (16 - n) -> Forall is_digit x ->
  val (rshift_loop n carry x) = carry + 2 ^ (16 - n) * val x /\
  Forall is_digit (rshift_loop n carry x) /\ length (rshift_loop n carry x) = S (length x).
Proof.
  intros Hn Hc Hx. revert carry Hc.
  assert (2 ^ (16 - n) * 2 ^ n = 65536) as Hpow.
  { rewrite <- Z.pow_add_r by lia. by replace (16 - n + n) with 16 by lia. }
  assert (2 ^ (16 - n) <= 65536) by (apply (Z.pow_le_mono_r 2 _ 16); lia).
  assert (0 < 2 ^ n) by (apply Z.pow_pos_nonneg; lia).
  induction Hx as [|d x [Hd0 Hd1] Hx IH]; intros carry Hc; cbn [rshift_loop].
  { split_and!; [cbn; lia|auto|done]. }
  unfold BI_DIGIT_BITS. rewrite -> lor_fields by lia.
  assert (0 <= Z.shiftr d n < 2 ^ (16 - n)) as Hs.
  { rewrite -> Z.shiftr_div_pow2 by lia. split; [apply Z.div_pos; lia|apply Z.div_lt_upper_bound; lia]. }
  rewrite -> (to_digit_id (Z.shiftr d n)) by (split; lia).
  destruct (IH _ Hs) as (Hv&Hd&Hl). cbn [val length]. split_and!; [|auto|lia]. rw Hv.
  rewrite -> Z.shiftr_div_pow2 by lia. rw to_digit_mod.
  assert ((d * 2 ^ (16 - n) + carry) mod 65536 = (d mod 2 ^ n) * 2 ^ (16 - n) + carry) as ->.
  { apply (carry_out _ (2 ^ n) d (d / 2 ^ n)); try done; [apply Z.div_mod; lia|apply Z.mod_pos_bound; lia]. }
  pose proof (Z.div_mod d (2 ^ n) ltac:(lia)) as Hdm. rewrite -> Hdm at 3. rw -Hpow. ring.
Qed.
Lemma pow_digits k : 0 <= k -> 65536 ^ k = 2 ^ (16 * k).
Proof. intros. by rewrite -> Z.pow_mul_r by lia. Qed.
Lemma shiftr_small d n : is_digit d -> 1 <= n <= 16 -> 0 <= Z.shiftr d n < 2 ^ (16 - n).
Proof.
  intros [Hd0 Hd1] Hn. assert (0 < 2 ^ n) by (apply Z.pow_pos_nonneg; lia).
  rewrite -> Z.shiftr_div_pow2 by lia. split; [apply Z.div_pos; lia|apply Z.div_lt_upper_bound; [lia|]].
  rewrite <- Z.pow_add_r by lia. by replace (n + (16 - n)) with 16 by lia.
Qed.
(** The digits from [q] on, shifted by [n] more bits. *)
Lemma rshift_digits x q n d rest :
  Forall is_digit x -> 1 <= n <= 16 -> drop q x = d :: rest ->
  let r := rshift_loop n (to_digit (Z.shiftr d n)) rest in
  val r = val x / 2 ^ (16 * Z.of_nat q + n) /\ Forall is_digit r /\ length r = S (length rest) /\
  val r < 65536 ^ (Z.of_nat (S (length rest)) - n / 16).
Proof.
  intros Hx Hn Hq r. pose proof (Forall_drop _ q _ Hx) as Hdd. rw Hq in Hdd.
  apply Forall_cons in Hdd as [Hd Hrest]. pose proof (shiftr_small d n Hd Hn) as Hs.
  assert (2 ^ (16 - n) <= 65536) by (apply (Z.pow_le_mono_r 2 _ 16); lia).
  assert (2 ^ n * 2 ^ (16 - n) = 65536) as Hpow.
  { rewrite <- Z.pow_add_r by lia. by replace (n + (16 - n)) with 16 by lia. }
  assert (0 < 2 ^ n) by (apply Z.pow_pos_nonneg; lia).
  destruct (rshift_loop_spec n (to_digit (Z.shiftr d n)) rest Hn) as (Hrv&Hrd&Hrl); [|done|].
  { rewrite -> to_digit_id by (split; lia). done. }
  fold r in Hrv, Hrd, Hrl. rewrite -> (to_digit_id (Z.shiftr d n)) in Hrv by (split; lia).
  split_and!; [|done..|].
  - rewrite -> Z.pow_add_r, <- pow_digits, <- Z.div_div, <- (val_drop q x Hx), Hq by lia.
    cbn [val]. rw Hrv -Hpow -Z.mul_assoc (Z.mul_comm (2 ^ n)) Z.div_add; [|lia].
    by rewrite -> Z.shiftr_div_pow2 by lia.
  - destruct (decide (n = 16)) as [->|].
    + rw Hrv. rewrite -> Z.shiftr_div_pow2, (Z.div_small d) by (unfold is_digit in Hd; lia).
      change (2 ^ (16 - 16)) with 1. change (16 / 16) with 1. pose proof (val_bounds _ Hrest).
      replace (Z.of_nat (S (length rest)) - 1) with (Z.of_nat (length rest)) by lia. lia.
    + rewrite -> (Z.div_small n) by lia. pose proof (val_bounds r Hrd) as Hb. rw Hrl in Hb.
      rw Z.sub_0_r. lia.
Qed.
Lemma rshift_spec x n : bi_wf x -> 0 <= n ->
  bi_wf (rshift x n) /\ val (rshift x n) = val x / 2 ^ n /\ (length (rshift x n) <= length x)%nat.
Proof.
  intros Hx Hn. pose proof (bw_digits _ Hx) as Hd. unfold rshift, BI_DIGIT_BITS, zlength.
  case_bool_decide as E; cbn [orb].
  { subst. split_and!; [done| |lia]. cbn. rw Z.div_0_l; [done|]. apply Z.pow_nonzero; lia. }
  destruct (Z.leb_spec n 0); [assert (n = 0) as -> by lia; split_and!; [done|by rw Z.div_1_r|done]|].
  destruct (Z.leb_spec (Z.of_nat (length x) * 16) n).
  { split_and!; [apply bi_wf_nil| |cbn; lia]. cbn [val]. symmetry. apply Z.div_small.
    pose proof (val_bounds x Hd) as Hb. split; [lia|]. eapply Z.lt_le_trans; [apply Hb|].
    rewrite -> pow_digits by lia. apply Z.pow_le_mono_r; lia. }
  rewrite -> Z.quot_div_nonneg, Z.rem_mod_nonneg by lia.
  pose proof (Z.div_mod (n - 1) 16 ltac:(lia)) as Hdm. pose proof (Z.mod_pos_bound (n - 1) 16 ltac:(lia)) as Hm.
  assert (0 <= (n - 1) / 16) by (apply Z.div_pos; lia).
  set (q := (n - 1) / 16) in *. set (m := (n - 1) mod 16) in *. rewrite -> Z.quot_div_nonneg by lia.
  pose proof (length_drop x (Z.to_nat q)) as Hl.
  destruct (drop (Z.to_nat q) x) as [|d rest] eqn:Hq; [cbn [length] in Hl; lia|]. cbn [length] in Hl.
  destruct (rshift_digits x _ (m + 1) d rest Hd ltac:(lia) Hq) as (Hrv&Hrd&Hrl&Hrb).
  assert (0 <= (m + 1) / 16 <= 1).
  { split; [apply Z.div_pos; lia|]. apply Z.lt_succ_r, Z.div_lt_upper_bound; lia. }
  split_and!; [by apply shrink_wf, Forall_take| |].
  - rw shrink_val val_take; [|done|]; [rw Hrv; f_equal; f_equal; lia|].
    eapply Z.lt_le_trans; [apply Hrb|]. apply Z.pow_le_mono_r; lia.
  - etrans; [apply shrink_length|]. rw length_take Hrl. lia.
Qed.

Lemma zlookup_cons_S (d q : Z) x : 0 < q -> (d :: x) .! q = x .! (q - 1).
Proof.
  intros. unfold zlookup. rewrite -> !(proj2 (Z.leb_le 0 _)) by lia.
  by replace (Z.to_nat q) with (S (Z.to_nat (q - 1))) by lia.
Qed.
Lemma hasbit_spec x n : Forall is_digit x -> 0 <= n -> hasbit x n = Z.testbit (val x) n.
Proof.
  intros Hx Hn. unfold hasbit, BI_DIGIT_BITS. rewrite -> Z.quot_div_nonneg, Z.rem_mod_nonneg by lia.
  pose proof (Z.div_mod n 16 ltac:(lia)) as Hdm. pose proof (Z.mod_pos_bound n 16 ltac:(lia)) as Hm.
  assert (0 <= n / 16) as Hq by (apply Z.div_pos; lia). rewrite -> Hdm at 4.
  generalize dependent (n mod 16). generalize dependent (n / 16). intros q Hq m Hdm Hm. clear Hdm n Hn.
  revert q Hq. induction Hx as [|d x [Hd0 Hd1] Hx IH]; intros q Hq.
  { rw Z.bits_0. by rewrite -> (proj2 (Z.ltb_ge _ _)) by (unfold zlength; cbn; lia). }
  destruct (decide (q = 0)) as [->|].
  - cbn [val]. rw Z.mul_0_r Z.add_0_l. rewrite <- (Z.mod_pow2_bits_low (d + _) 16) by lia.
    change (2 ^ 16) with 65536. rw (Z.mul_comm 65536) Z.mod_add; [|done]. rewrite -> Z.mod_small by lia.
    done.
  - cbn [val]. replace (16 * q + m) with ((16 * (q - 1) + m) + 16) by lia.
    rewrite <- Z.shiftr_spec, Z.shiftr_div_pow2 by lia. change (2 ^ 16) with 65536.
    rw (Z.mul_comm 65536) Z.div_add; [|done]. rewrite -> (Z.div_small d), Z.add_0_l by lia.
    rw -IH; [|lia]. unfold zlength. cbn [length]. rw zlookup_cons_S; [|lia]. f_equal.
    destruct (Z.ltb_spec q (Z.of_nat (S (length x)))), (Z.ltb_spec (q - 1) (Z.of_nat (length x))); lia || done.
Qed.

Lemma land_bit d k : 0 <= k -> (Z.land d (2 ^ k) =? 0) = negb (Z.testbit d k).
Proof.
  intros Hk. destruct (Z.testbit d k) eqn:E; cbn.
  - apply Z.eqb_neq. intros H. apply (f_equal (fun z => Z.testbit z k)) in H.
    rewrite -> Z.land_spec, E, Z.pow2_bits_true, Z.bits_0 in H by done. done.
  - apply Z.eqb_eq, Z.bits_inj'. intros i Hi. rw Z.land_spec Z.bits_0.
    destruct (decide (k = i)) as [->|]; [by rw E|]. rewrite -> Z.pow2_bits_false by done. apply andb_false_r.
Qed.
Lemma top_bit d k : 0 <= k -> 0 <= d < 2 ^ (k + 1) -> Z.testbit d k = (2 ^ k <=? d).
Proof.
  intros Hk Hd. rewrite -> Z.pow_add_r in Hd by lia. change (2 ^ 1) with 2 in Hd.
  rewrite -> Z.testbit_eqb by done. destruct (Z.leb_spec (2 ^ k) d).
  - rewrite <- (Z.div_unique d (2 ^ k) 1 (d - 2 ^ k)) by lia. done.
  - by rewrite -> Z.div_small by lia.
Qed.
Lemma numbits_loop_spec k d bits :
  0 < d < 2 ^ Z.of_nat k ->
  numbits_loop k d (2 ^ (Z.of_nat k - 1)) bits = bits - (Z.of_nat k - 1) + Z.log2 d.
Proof.
  revert bits. induction k as [|k IH]; intros bits Hd; [cbn in Hd; lia|].
  rw Nat2Z.inj_succ in Hd. rw Nat2Z.inj_succ. cbn [numbits_loop].
  replace (Z.succ (Z.of_nat k) - 1) with (Z.of_nat k) by lia. rewrite -> land_bit, top_bit by lia.
  destruct (Z.leb_spec (2 ^ Z.of_nat k) d); cbn [negb].
  - assert (Z.log2 d = Z.of_nat k) as -> by (apply Z.log2_unique; lia). lia.
  - assert (k <> O) by (intros ->; cbn in *; lia).
    assert (Z.shiftr (2 ^ Z.of_nat k) 1 = 2 ^ (Z.of_nat k - 1)) as ->.
    { rewrite -> Z.shiftr_div_pow2, Z.pow_sub_r by lia. done. }
    rw IH; lia.
Qed.
Lemma numbits_spec x : bi_wf x -> numbits x = if val x =? 0 then 0 else Z.log2 (val x) + 1.
Proof.
  intros [Hd Ht]. unfold numbits. destruct x as [|d x _] using rev_ind; [done|].
  rw last_snoc in Ht. rw last_snoc. apply Forall_app in Hd as [Hx [[Hd0 Hd1] _]%Forall_cons].
  assert (d <> 0) by congruence. rewrite -> (numbits_loop_spec 16) by lia.
  pose proof (val_bounds x Hx). rw val_app zlength_snoc. cbn [val]. unfold zlength, BI_DIGIT_BITS.
  set (P := 65536 ^ Z.of_nat (length x)) in *.
  assert (1 <= P) by (apply (Z.pow_le_mono_r 65536 0); lia).
  destruct (Z.eqb_spec (val x + P * (d + 65536 * 0)) 0); [nia|].
  assert (Z.log2 (val x + P * (d + 65536 * 0)) = 16 * Z.of_nat (length x) + Z.log2 d) as ->; [|lia].
  pose proof (Z.log2_spec d ltac:(lia)) as Hl. pose proof (Z.log2_nonneg d).
  apply Z.log2_unique; [lia|]. rw -Z.add_succ_r. rewrite -> !Z.pow_add_r, <- pow_digits by lia.
  fold P. nia.
Qed.

Lemma equal_spec x y : bi_wf x -> bi_wf y -> equal x y = (val x =? val y).
Proof.
  intros Hx Hy. unfold equal. destruct (Z.eqb_spec (val x) (val y)) as [E|E].
  - by apply bool_decide_eq_true, val_inj.
  - apply bool_decide_eq_false. congruence.
Qed.

Lemma iszero_spec x : bi_wf x -> iszero x = (val x =? 0).
Proof. intros Hx. rw -(equal_spec x [] Hx bi_wf_nil). apply bool_decide_ext. done. Qed.

(** ** Text *)

Lemma lor_low a b k : 0 <= k -> 0 <= b < 2 ^ k -> Z.lor b (a * 2 ^ k) = b + a * 2 ^ k.
Proof. intros. rw -Z.shiftl_mul_pow2; [|done]. rw Z.lor_comm lor_fields ?Z.shiftl_mul_pow2; lia. Qed.
Lemma pack_nibbles d x : is_digit d -> pack (nibbles d ++ x) = d :: pack x.
Proof.
  intros [Hd0 Hd1]. cbn [nibbles app pack]. f_equal.
  rewrite -> !(Z.land_ones _ 4), !Z.shiftr_div_pow2, !Z.shiftl_mul_pow2 by lia.
  change (2 ^ 4) with 16. change (2 ^ 8) with 256. change (2 ^ 12) with 4096.
  rewrite -> (Z.mod_small (d / 4096)) by (split; [apply Z.div_pos; lia|apply Z.div_lt_upper_bound; lia]).
  pose proof (Z.div_mod d 16 ltac:(lia)) as E1. pose proof (Z.mod_pos_bound d 16 ltac:(lia)) as B1.
  pose proof (Z.div_mod (d / 16) 16 ltac:(lia)) as E2. pose proof (Z.mod_pos_bound (d / 16) 16 ltac:(lia)) as B2.
  pose proof (Z.div_mod (d / 256) 16 ltac:(lia)) as E3. pose proof (Z.mod_pos_bound (d / 256) 16 ltac:(lia)) as B3.
  rewrite -> Z.div_div in E2, E3 by lia. change (16 * 16) with 256 in E2. change (256 * 16) with 4096 in E3.
  set (a := d mod 16) in *. set (b := d / 16 mod 16) in *. set (c := d / 256 mod 16) in *. set (e := d / 4096) in *.
  pose proof (lor_low e (c * 256) 12 ltac:(lia) ltac:(lia)) as L1.
  pose proof (lor_low (c + e * 16) (b * 16) 8 ltac:(lia) ltac:(lia)) as L2.
  pose proof (lor_low (b + c * 16 + e * 256) a 4 ltac:(lia) ltac:(lia)) as L3.
  change (2 ^ 12) with 4096 in L1. change (2 ^ 8) with 256 in L2. change (2 ^ 4) with 16 in L3.
  rw L1. replace (c * 256 + e * 4096) with ((c + e * 16) * 256) by lia. rw L2.
  replace (b * 16 + (c + e * 16) * 256) with ((b + c * 16 + e * 256) * 16) by lia. rw L3. lia.
Qed.
Lemma pack_concat x : Forall is_digit x -> pack (concat (map nibbles x)) = x.
Proof. induction 1 as [|d x Hd _ IH]; [done|]. cbn [map concat]. by rw pack_nibbles ?IH. Qed.
Lemma hexval_hexchar v : 0 <= v < 16 -> hexval (hexchar v) = Some v.
Proof.
  intros Hv. assert (In v (seqZ 0 16)) as Hin by (apply list_elem_of_In, elem_of_seqZ; lia).
  cbn in Hin. repeat (destruct Hin as [<-|Hin]; [done|]). done.
Qed.
Lemma hexprefix_hexchar l : Forall (fun v => 0 <= v < 16) l -> hexprefix (map hexchar l) = l.
Proof. induction 1 as [|v l Hv _ IH]; [done|]. cbn [map hexprefix]. by rw hexval_hexchar ?IH. Qed.
Lemma nibbles_range d : Forall (fun v => 0 <= v < 16) (nibbles d).
Proof.
  unfold nibbles. repeat (apply Forall_cons; split); [..|by apply Forall_nil];
    rewrite -> (Z.land_ones _ 4) by lia; apply Z.mod_pos_bound; lia.
Qed.
Lemma shrink_id x : bi_wf x -> shrink x = x.
Proof.
  intros Hx. apply val_inj; [by apply shrink_wf, bw_digits|done|apply shrink_val].
Qed.
Lemma printdigits_nibbles x : printdigits x = map hexchar (rev (concat (map nibbles x))).
Proof.
  unfold printdigits. induction x as [|d x IH]; [done|].
  cbn [rev map concat]. rw map_app concat_app IH rev_app_distr map_app. cbn [map concat].
  by rw app_nil_r.
Qed.

(** * Properties *)

(** C26: the operations on numbers of many digits compute those of the integers:
    each gives a number with no zero digit at the top, of the room the source
    gives it, whose value is the sum, the difference (of a number no larger), the
    product, the quotient by a power of two; comparison, bit test and size are
    those of the values. *)
Theorem bigint_arith x y n :
  bi_wf x -> bi_wf y -> 0 <= n ->
  (bi_wf (add x y) /\ val (add x y) = val x + val y /\ (length (add x y) <= S (Nat.max (length x) (length y)))%nat) /\
  (val y <= val x -> bi_wf (sub x y) /\ val (sub x y) = val x - val y /\ (length (sub x y) <= length x)%nat) /\
  (bi_wf (mul x y) /\ val (mul x y) = val x * val y /\ (length (mul x y) <= length x + length y)%nat) /\
  (bi_wf (rshift x n) /\ val (rshift x n) = val x / 2 ^ n /\ (length (rshift x n) <= length x)%nat) /\
  less x y = (val x <? val y) /\ equal x y = (val x =? val y) /\ iszero x = (val x =? 0) /\
  hasbit x n = Z.testbit (val x) n /\ numbits x = (if val x =? 0 then 0 else Z.log2 (val x) + 1).
Proof.
  intros Hx Hy Hn. pose proof (bw_digits _ Hx) as Hd.
  pose proof (add_wf x y Hx Hy). pose proof (sub_wf x y Hx Hy). pose proof (mul_wf x y Hx Hy).
  pose proof (rshift_spec x n Hx Hn). pose proof (less_spec x y Hx Hy). pose proof (hasbit_spec x n Hd Hn).
  pose proof (numbits_spec x Hx). pose proof (equal_spec x y Hx Hy). pose proof (iszero_spec x Hx).
  split; [done|]. split; [auto|]. repeat (split; [done|]). done.
Qed.
Lemma bigint_arith_witness :
  val (mul [0xFFFF; 2] [0xFFFF; 0xFFFF]) = 196607 * 4294967295 /\ mul [0xFFFF; 2] [0xFFFF; 0xFFFF] = [1; 65533; 65534; 2].
Proof.
  split; [|by vm_compute].
  assert (bi_wf [0xFFFF; 2]) as Hx by wf_number.
  assert (bi_wf [0xFFFF; 0xFFFF]) as Hy by wf_number.
  destruct (bigint_arith [0xFFFF; 2] [0xFFFF; 0xFFFF] 3 Hx Hy ltac:(done)) as (_&_&(_&H&_)&_).
  rw H. vm_compute. reflexivity.
Defined.

(** A number written in hexadecimal reads back the same where it has room. *)
Theorem parse_printdigits x room :
  bi_wf x -> (length x <= room)%nat -> parse room (printdigits x) = x.
Proof.
  intros Hx Hl. unfold parse. rw printdigits_nibbles hexprefix_hexchar.
  - rw rev_involutive pack_concat; [|by apply bw_digits].
    destruct (Nat.ltb_spec room (length x)); [lia|]. by apply shrink_id.
  - apply Forall_rev, Forall_concat, Forall_map, list.Forall_forall. intros d _. apply nibbles_range.
Qed.
(** [lshift] goes from the high digit down and hands the bits a digit loses to
    the digit below it, so twice [0x18000] loses a bit and gains another. *)
Example lshift_wrong : bi_wf [0x8000; 1] /\ lshift [0x8000; 1] 1 = [0; 2; 1] /\ val [0x8000; 1] * 2 = val [0; 3].
Proof. split_and!; [wf_number|by vm_compute..]. Qed.
