(* ===== verification/Gfield.v ===== *)
(** The field of the curve (shared/crypto.cpp [gfield]): numbers modulo the NIST
    prime [2^192 - 2^64 - 1].

    The operations are those of the source on [bigint]s with room for 13 digits.
    They do not always reduce their result fully ([mul_not_canonical]), so the
    theorems speak of residues, and of the range a result can have. *)
From Stdlib Require Import Znumtheory.
From S2P Require Import Prelude Text Bigint.

#[local] Open Scope list_scope.

Definition GF_BITS : Z := 192.
Definition GF_DIGITS : Z := (GF_BITS + BI_DIGIT_BITS - 1) ÷ BI_DIGIT_BITS.
(** The room of a [gfint]. *)
Definition gf_room : nat := 13.
Abbreviation gfield := bigint (only parsing).
Definition P : gfield := parse gf_room (cstr "fffffffffffffffffffffffffffffffeffffffffffffffff").

Definition gf_add (x y : bigint) : gfield := let r := add x y in if geq r P then sub r P else r.
Definition gf_mul2 (x : bigint) : gfield := gf_add x x.
Definition gf_div2 (x : gfield) : gfield := rshift (if hasbit x 0 then add x P else x) 1.
Definition gf_sub (x y : bigint) : gfield := if less x y then sub (add x P) y else sub x y.
Definition gf_neg (x : bigint) : gfield := sub P x.

(** [s] is a local that is not initialised: [junk] is what it holds. *)
Definition reduce_ (junk : list Z) (result : bigint) : gfield :=
  let T := copyshrinkdigits result GF_DIGITS in
  if morebits result 192 then
    let s := dupbits 64 0 64 (copybits 0 result 192 64 junk) in
    let r := gf_add T (shrinkbits 128 s) in
    if morebits result 256 then
      let s := dupbits 128 64 64 (copybits 64 result 256 64 (zerobits 0 64 s)) in
      let r := gf_add r (shrinkdigits GF_DIGITS s) in
      if morebits result 320 then
        let s := dupbits 128 0 64 (dupbits 64 0 64 (copybits 0 result 320 64 s)) in
        gf_add r (shrinkdigits GF_DIGITS s)
      else r
    else r
  else if geq T P then sub T P else T.
Definition junk : list Z := replicate gf_room 0.
Definition reduce : bigint -> gfield := reduce_ junk.
Definition gf_mul (x y : bigint) : gfield := reduce (mul x y).
Definition gf_square (x : bigint) : gfield := gf_mul x x.

(** [for(int i = 1, j = y.numbits(); i < j; i++)] *)
Fixpoint pow_loop (n : nat) (i : Z) (y : bigint) (a r : gfield) : gfield :=
  match n with
  | O => r
  | S n => let a := gf_square a in pow_loop n (i + 1) y a (if hasbit y i then gf_mul r a else r)
  end.
Definition gf_pow (x y : bigint) : gfield :=
  if hasbit y 0 then pow_loop (Z.to_nat (numbits y - 1)) 1 y x x
  else if iszero y then [1] else pow_loop (Z.to_nat (numbits y - 1)) 1 y x [1].

(** [while(!u.hasbit(ushift)) { ... }]: the shift of [u], and [A] with the shift
    it is still owed. *)
Fixpoint halve_loop (fuel : nat) (u : bigint) (ushift : Z) (A : bigint) (ashift : Z) : option (Z * bigint * Z) :=
  match fuel with
  | O => None
  | S fuel =>
    if hasbit u ushift then Some (ushift, A, ashift) else
    let '(A, ashift) :=
      if hasbit A ashift then (add (if ashift =? 0 then A else rshift A ashift) P, 0) else (A, ashift) in
    halve_loop fuel u (ushift + 1) A (ashift + 1)
  end.
(** [if(ushift) u.rshift(ushift); if(ashift) A.rshift(ashift);] *)
Definition halve (fuel : nat) (u A : bigint) : option (bigint * bigint) :=
  '(ushift, A, ashift) ← halve_loop fuel u 0 A 0;
  Some (if ushift =? 0 then u else rshift u ushift, if ashift =? 0 then A else rshift A ashift).
Fixpoint invert_loop (fuel : nat) (u v A C : bigint) : option bigint :=
  match fuel with
  | O => None
  | S fuel =>
    if iszero u then Some C else
    '(u, A) ← halve 400 u A;
    '(v, C) ← halve 400 v C;
    if geq u v then invert_loop fuel (sub u v) v (sub (if less A C then add A P else A) C) C
    else invert_loop fuel u (sub v u) A (sub (if less C A then add C P else C) A)
  end.
(** [None]: [x] is zero, and the source leaves the result as it was. *)
Definition invert (x : gfield) : option gfield :=
  if iszero x then None else
  C ← invert_loop 500 x P [1] [];
  Some (if geq C P then sub C P else C).

Definition Psub1div2 : bigint := rshift (sub P [1]) 1.
Definition legendre (x : bigint) : Z :=
  let L := gf_pow x Psub1div2 in
  if iszero L then 0 else if zlength L =? 1 then 1 else -1.
Definition Padd1div4 : bigint := rshift (add P [1]) 2.
(** [None]: [sqrt] returns false. *)
Definition gf_sqrt (x : gfield) : option gfield :=
  if iszero x then Some [] else
  let l := legendre x in
  if l =? 0 then Some [] else if l =? -1 then None else Some (gf_pow x Padd1div4).

Definition Pz : Z := 2 ^ 192 - 2 ^ 64 - 1.

(** * Residues *)

Definition cong (a b : Z) : Prop := exists k, a = b + k * Pz.
Notation "a ≅ b" := (cong a b) (at level 70).

#[global] Instance cong_equiv : Equivalence cong.
Proof.
  split.
  - intros a. exists 0. lia.
  - intros a b [k ->]. exists (- k). lia.
  - intros a b c [k ->] [l ->]. exists (k + l). lia.
Qed.
#[global] Instance add_cong : Proper (cong ==> cong ==> cong) Z.add.
Proof. intros a b [k ->] c d [l ->]. exists (k + l). lia. Qed.
#[global] Instance sub_cong : Proper (cong ==> cong ==> cong) Z.sub.
Proof. intros a b [k ->] c d [l ->]. exists (k - l). lia. Qed.
#[global] Instance mul_cong : Proper (cong ==> cong ==> cong) Z.mul.
Proof. intros a b [k ->] c d [l ->]. exists (b * l + k * d + k * l * Pz). ring. Qed.
Lemma cong_add_P a k : a + k * Pz ≅ a.
Proof. by exists k. Qed.
Lemma cong_mod a b : a ≅ b <-> a mod Pz = b mod Pz.
Proof.
  split; [intros [k ->]; by apply Z.mod_add|]. intros H. exists (a / Pz - b / Pz).
  pose proof (Z.div_mod a Pz ltac:(done)). pose proof (Z.div_mod b Pz ltac:(done)). lia.
Qed.

Lemma P_wf : bi_wf P.
Proof. wf_number. Qed.
Lemma P_val : val P = Pz.
Proof. by vm_compute. Qed.
Lemma one_wf : bi_wf [1].
Proof. wf_number. Qed.
#[global] Opaque P.
Lemma Pz_value : Pz = 2 ^ 192 - 2 ^ 64 - 1.
Proof. done. Qed.
Lemma two64 : 2 ^ 64 = 18446744073709551616.
Proof. done. Qed.

Lemma geq_spec x y : bi_wf x -> bi_wf y -> geq x y = (val y <=? val x).
Proof. intros. unfold geq. rw less_spec //. rw Z.leb_antisym. done. Qed.

(** ** Sums and differences *)

Lemma gf_add_spec x y : bi_wf x -> bi_wf y ->
  bi_wf (gf_add x y) /\
  val (gf_add x y) = if Pz <=? val x + val y then val x + val y - Pz else val x + val y.
Proof.
  intros Hx Hy. destruct (add_wf x y Hx Hy) as (Hw&Hv&_). unfold gf_add. rw geq_spec // ?P_val; [|apply P_wf].
  rw Hv. destruct (Z.leb_spec Pz (val x + val y)); [|by rw Hv].
  destruct (sub_wf (add x y) P Hw P_wf) as (?&Hs&_); [rw P_val Hv; done|]. split; [done|]. rw Hs P_val Hv. done.
Qed.
Lemma gf_sub_spec x y : bi_wf x -> bi_wf y -> val y <= val x + Pz ->
  bi_wf (gf_sub x y) /\
  val (gf_sub x y) = if val x <? val y then val x + Pz - val y else val x - val y.
Proof.
  intros Hx Hy Hle. unfold gf_sub. rw less_spec //. destruct (Z.ltb_spec (val x) (val y)).
  - destruct (add_wf x P Hx P_wf) as (Ha&Hva&_). rw P_val in Hva.
    destruct (sub_wf (add x P) y Ha Hy) as (?&Hs&_); [lia|]. split; [done|]. lia.
  - destruct (sub_wf x y Hx Hy) as (?&Hs&_); [lia|]. by split.
Qed.
Lemma gf_add_cong x y : bi_wf x -> bi_wf y -> val (gf_add x y) ≅ val x + val y.
Proof.
  intros Hx Hy. destruct (gf_add_spec x y Hx Hy) as [_ ->]. destruct (_ <=? _); [|done].
  exists (-1). lia.
Qed.
Lemma gf_sub_cong x y : bi_wf x -> bi_wf y -> val y <= val x + Pz -> val (gf_sub x y) ≅ val x - val y.
Proof.
  intros Hx Hy Hle. destruct (gf_sub_spec x y Hx Hy Hle) as [_ ->]. destruct (_ <? _); [|done].
  exists 1. lia.
Qed.
Lemma gf_div2_spec x : bi_wf x ->
  bi_wf (gf_div2 x) /\ 2 * val (gf_div2 x) = if Z.odd (val x) then val x + Pz else val x.
Proof.
  intros Hx. unfold gf_div2. rw hasbit_spec; [|by apply bw_digits|done]. rw Z.bit0_odd.
  destruct (Z.odd (val x)) eqn:Ho.
  - destruct (add_wf x P Hx P_wf) as (Ha&Hv&_). destruct (rshift_spec (add x P) 1 Ha ltac:(done)) as (?&Hs&_).
    split; [done|]. rw Hs Hv P_val. change (2 ^ 1) with 2. symmetry. apply Z.div_exact; [done|].
    rewrite -> Zmod_odd, Z.odd_add, Ho. done.
  - destruct (rshift_spec x 1 Hx ltac:(done)) as (?&Hs&_).
    split; [done|]. rw Hs. change (2 ^ 1) with 2. symmetry. apply Z.div_exact; [done|]. by rewrite -> Zmod_odd, Ho.
Qed.

(** ** Reduction *)

(** The four digits of [y] from [from] on, zeros where it has none. *)
Definition cells (y : bigint) (from : Z) : list Z :=
  let avail := clamp (zlength y - from) 0 4 in
  take (Z.to_nat avail) (drop (Z.to_nat from) y) ++ replicate (Z.to_nat (4 - avail)) 0.
Lemma Forall_digits_app x y : Forall is_digit x -> Forall is_digit y -> Forall is_digit (x ++ y).
Proof. intros. by apply Forall_app. Qed.
Lemma take_val k x : Forall is_digit x -> val (take k x) = val x mod 65536 ^ Z.of_nat k.
Proof.
  intros Hx. assert (0 < 65536 ^ Z.of_nat k) as HB by (apply Z.pow_pos_nonneg; lia).
  pose proof (Z.div_mod (val x) (65536 ^ Z.of_nat k) ltac:(lia)) as Hm.
  destruct (decide (k <= length x)%nat).
  - pose proof (val_app (take k x) (drop k x)) as Ha. rw take_drop length_take val_drop // in Ha.
    rewrite -> Nat.min_l in Ha by done. lia.
  - rewrite -> take_ge by lia. rw Z.mod_small; [done|].
    pose proof (val_bounds x Hx). assert (65536 ^ Z.of_nat (length x) <= 65536 ^ Z.of_nat k); [|lia].
    apply Z.pow_le_mono_r; lia.
Qed.
Lemma cells_spec y from : Forall is_digit y -> 0 <= from ->
  exists a b c d, cells y from = [a; b; c; d] /\ Forall is_digit [a; b; c; d] /\
                  val [a; b; c; d] = (val y / 65536 ^ from) mod 2 ^ 64.
Proof.
  intros Hy Hf. assert (length (cells y from) = 4%nat) as Hl.
  { unfold cells, zlength, clamp. rw !tmax_spec !tmin_spec length_app length_take length_drop length_replicate. lia. }
  assert (Forall is_digit (cells y from)) as Hd.
  { apply Forall_digits_app; [by apply Forall_take, Forall_drop|apply Forall_replicate; done]. }
  assert (val (cells y from) = (val y / 65536 ^ from) mod 2 ^ 64) as Hv.
  { unfold cells. rw val_app val_zeros Z.mul_0_r Z.add_0_r.
    assert (take (Z.to_nat (clamp (zlength y - from) 0 4)) (drop (Z.to_nat from) y) =
            take 4 (drop (Z.to_nat from) y)) as ->.
    { destruct (decide (4 <= length (drop (Z.to_nat from) y))%nat) as [H|H]; rw length_drop in H.
      - f_equal. unfold clamp, zlength. rw tmax_spec tmin_spec. lia.
      - rewrite -> !take_ge; [done|..]; rw length_drop ?/clamp ?tmax_spec ?tmin_spec; unfold zlength; lia. }
    rw take_val; [|by apply Forall_drop]. rw val_drop // Z2Nat.id //. }
  destruct (cells y from) as [|a [|b [|c [|d [|]]]]]; try done. by exists a, b, c, d.
Qed.

Lemma digits4 a b c d : Forall is_digit [a; b; c; d] -> is_digit a /\ is_digit b /\ is_digit c /\ is_digit d.
Proof. intros [? [? [? [? _]%Forall_cons]%Forall_cons]%Forall_cons]%Forall_cons. done. Qed.
Lemma cell_range y from c : c = (val y / 65536 ^ from) mod 2 ^ 64 -> 0 <= c < 2 ^ 64.
Proof. intros ->. by apply Z.mod_pos_bound. Qed.
(** The three correction terms, whatever the array held before. *)
Lemma correction1 y jk : Forall is_digit y -> length jk = gf_room ->
  exists c, let jk' := dupbits 64 0 64 (copybits 0 y 192 64 jk) in length jk' = gf_room /\
    c = (val y / 2 ^ 192) mod 2 ^ 64 /\ bi_wf (shrinkbits 128 jk') /\ val (shrinkbits 128 jk') = c + c * 2 ^ 64.
Proof.
  intros Hy Hl. destruct (cells_spec y 12 Hy ltac:(done)) as (a&b&c&d&Hc&Hd&Hv).
  do 13 (destruct jk as [|? jk]; [done|]). destruct jk; [|done].
  exists (val [a; b; c; d]). change (copybits 0 y 192 64) with (splice 0 (cells y 12)). rw Hc.
  split; [done|]. split; [done|]. unfold shrinkbits, shrinkdigits. rw shrink_val.
  change (take _ _) with ([a; b; c; d] ++ [a; b; c; d]). split.
  - by apply shrink_wf, Forall_digits_app.
  - rw val_app. cbn [length]. change (65536 ^ Z.of_nat 4) with (2 ^ 64). lia.
Qed.
Lemma correction2 y jk : Forall is_digit y -> length jk = gf_room ->
  exists c, let jk' := dupbits 128 64 64 (copybits 64 y 256 64 (zerobits 0 64 jk)) in length jk' = gf_room /\
    c = (val y / 2 ^ 256) mod 2 ^ 64 /\ bi_wf (shrinkdigits GF_DIGITS jk') /\
    val (shrinkdigits GF_DIGITS jk') = c * 2 ^ 64 + c * 2 ^ 128.
Proof.
  intros Hy Hl. destruct (cells_spec y 16 Hy ltac:(done)) as (a&b&c&d&Hc&Hd&Hv).
  do 13 (destruct jk as [|? jk]; [done|]). destruct jk; [|done].
  exists (val [a; b; c; d]). change (copybits 64 y 256 64) with (splice 4 (cells y 16)). rw Hc.
  split; [done|]. split; [done|]. unfold shrinkdigits. rw shrink_val.
  change (take _ _) with (replicate 4 0 ++ [a; b; c; d] ++ [a; b; c; d]). split.
  - apply shrink_wf. repeat apply Forall_digits_app; [by apply Forall_replicate|done..].
  - rw !val_app val_zeros length_replicate. cbn [length]. change (65536 ^ Z.of_nat 4) with (2 ^ 64).
    change (2 ^ 128) with (2 ^ 64 * 2 ^ 64). lia.
Qed.
Lemma correction3 y jk : Forall is_digit y -> length jk = gf_room ->
  exists c, let jk' := dupbits 128 0 64 (dupbits 64 0 64 (copybits 0 y 320 64 jk)) in
    c = (val y / 2 ^ 320) mod 2 ^ 64 /\ bi_wf (shrinkdigits GF_DIGITS jk') /\
    val (shrinkdigits GF_DIGITS jk') = c + c * 2 ^ 64 + c * 2 ^ 128.
Proof.
  intros Hy Hl. destruct (cells_spec y 20 Hy ltac:(done)) as (a&b&c&d&Hc&Hd&Hv).
  do 13 (destruct jk as [|? jk]; [done|]). destruct jk; [|done].
  exists (val [a; b; c; d]). change (copybits 0 y 320 64) with (splice 0 (cells y 20)). rw Hc.
  split; [done|]. unfold shrinkdigits. rw shrink_val.
  change (take _ _) with ([a; b; c; d] ++ [a; b; c; d] ++ [a; b; c; d]). split.
  - apply shrink_wf. by repeat apply Forall_digits_app.
  - rw !val_app. cbn [length]. change (65536 ^ Z.of_nat 4) with (2 ^ 64).
    change (2 ^ 128) with (2 ^ 64 * 2 ^ 64). lia.
Qed.

(** The value by its parts: [t] below bit 192, [c3], [c4], [c5] of 64 bits each. *)
Lemma parts V : 0 <= V < 2 ^ 384 ->
  let t := V mod 2 ^ 192 in let c3 := (V / 2 ^ 192) mod 2 ^ 64 in
  let c4 := (V / 2 ^ 256) mod 2 ^ 64 in let c5 := (V / 2 ^ 320) mod 2 ^ 64 in
  V = t + 2 ^ 192 * (c3 + 2 ^ 64 * (c4 + 2 ^ 64 * c5)) /\
  (V < 2 ^ 192 -> c3 = 0) /\ (V < 2 ^ 256 -> c4 = 0) /\ (V < 2 ^ 320 -> c5 = 0).
Proof.
  intros HV t c3 c4 c5. assert (V / 2 ^ 320 < 2 ^ 64) by (apply Z.div_lt_upper_bound; lia).
  assert (0 <= V / 2 ^ 320) by (apply Z.div_pos; lia).
  assert (c5 = V / 2 ^ 320) as E5 by (apply Z.mod_small; lia).
  pose proof (Z.div_mod V (2 ^ 192) ltac:(done)) as H1.
  pose proof (Z.div_mod (V / 2 ^ 192) (2 ^ 64) ltac:(done)) as H2.
  pose proof (Z.div_mod (V / 2 ^ 256) (2 ^ 64) ltac:(done)) as H3.
  rewrite -> Z.div_div in H2, H3 by done. change (2 ^ 192 * 2 ^ 64) with (2 ^ 256) in H2.
  change (2 ^ 256 * 2 ^ 64) with (2 ^ 320) in H3. fold t in H1. fold c3 in H2. fold c4 in H3.
  split; [lia|]. unfold c3, c4. rw E5.
  split_and!; intros Hs; rewrite -> Z.div_small by lia; done.
Qed.
Lemma low_digits y : Forall is_digit y ->
  bi_wf (copyshrinkdigits y GF_DIGITS) /\ val (copyshrinkdigits y GF_DIGITS) = val y mod 2 ^ 192.
Proof.
  intros Hy. unfold copyshrinkdigits. split; [by apply shrink_wf, Forall_take|]. rw shrink_val clamp_spec.
  change GF_DIGITS with 12. unfold zlength. destruct (decide (length y <= 12)%nat).
  - rewrite -> take_ge by lia. pose proof (val_bounds y Hy).
    assert (65536 ^ Z.of_nat (length y) <= 65536 ^ 12) by (apply Z.pow_le_mono_r; lia).
    change (65536 ^ 12) with (2 ^ 192) in *. rw Z.mod_small; [done|lia].
  - replace (Z.to_nat _) with 12%nat by lia. rw take_val //.
Qed.
Lemma morebits_false y k : Forall is_digit y -> 0 <= k -> morebits y (16 * k) = false -> val y < 65536 ^ k.
Proof.
  unfold morebits, BI_DIGIT_BITS, zlength. intros Hy Hk Hm%Z.ltb_ge. rw Z.mul_comm Z.quot_mul // in Hm.
  pose proof (val_bounds y Hy). assert (65536 ^ Z.of_nat (length y) <= 65536 ^ k); [|lia].
  apply Z.pow_le_mono_r; lia.
Qed.
Lemma gf_add_step x y bx b : bi_wf x -> bi_wf y -> val x <= bx -> val y <= b ->
  bi_wf (gf_add x y) /\ val (gf_add x y) ≅ val x + val y /\ val (gf_add x y) <= Z.max (Pz - 1) (bx + b - Pz).
Proof.
  intros Hx Hy Hbx Hb. split; [by apply gf_add_spec|]. split; [by apply gf_add_cong|].
  destruct (gf_add_spec x y Hx Hy) as [_ ->]. destruct (Z.leb_spec Pz (val x + val y)); lia.
Qed.
(** What the corrections amount to. *)
Lemma fold3 t c3 : t + (c3 + c3 * 2 ^ 64) ≅ t + 2 ^ 192 * c3.
Proof. exists (- c3). unfold Pz. ring. Qed.
Lemma fold4 v c4 : v + (c4 * 2 ^ 64 + c4 * 2 ^ 128) ≅ v + 2 ^ 256 * c4.
Proof. exists (- c4 * 2 ^ 64). unfold Pz. ring. Qed.
Lemma fold5 v c5 : v + (c5 + c5 * 2 ^ 64 + c5 * 2 ^ 128) ≅ v + 2 ^ 320 * c5.
Proof. exists (- c5 * (2 ^ 128 + 1)). unfold Pz. ring. Qed.
Definition reduced (V : Z) (r : gfield) : Prop := bi_wf r /\ val r ≅ V /\ val r <= Pz + 2 ^ 64.
Lemma reduce_spec jk y : Forall is_digit y -> (length y <= 24)%nat -> length jk = gf_room ->
  reduced (val y) (reduce_ jk y).
Proof.
  intros Hy Hl Hj. pose proof (val_bounds y Hy) as Hb.
  assert (65536 ^ Z.of_nat (length y) <= 65536 ^ 24) as Hb24 by (apply Z.pow_le_mono_r; lia).
  change (65536 ^ 24) with (2 ^ 384) in Hb24.
  destruct (parts (val y)) as (Hparts&_&Hz4&Hz5); [lia|].
  destruct (low_digits y Hy) as [HT HvT]. pose proof (Z.mod_pos_bound (val y) (2 ^ 192) ltac:(done)) as HbT.
  destruct (correction1 y jk Hy Hj) as (c3&Hj1&Ec3&Hs1&Hv1).
  destruct (correction2 y _ Hy Hj1) as (c4&Hj2&Ec4&Hs2&Hv2).
  destruct (correction3 y _ Hy Hj2) as (c5&Ec5&Hs3&Hv3).
  rw -Ec3 -Ec4 -Ec5 in Hparts Hz4 Hz5.
  pose proof (cell_range y 12 c3 Ec3) as B3. pose proof (cell_range y 16 c4 Ec4) as B4. pose proof (cell_range y 20 c5 Ec5) as B5.
  unfold reduce_, reduced. set (T := copyshrinkdigits y GF_DIGITS) in *. rw -HvT in Hparts HbT.
  destruct (gf_add_step T _ (2 ^ 192 - 1) (2 ^ 128 - 1) HT Hs1) as (Hr1&Hc1&Hu1); [lia|rw Hv1; lia|].
  destruct (gf_add_step _ _ (Pz - 1) (2 ^ 192 - 2 ^ 64) Hr1 Hs2) as (Hr2&Hc2&Hu2); [exact Hu1|rw Hv2; lia|].
  destruct (gf_add_step _ _ Pz (2 ^ 192 - 1) Hr2 Hs3) as (Hr3&Hc3&Hu3); [exact Hu2|rw Hv3; lia|].
  rw Hv1 fold3 in Hc1. rw Hv2 Hc1 fold4 in Hc2. rw Hv3 Hc2 fold5 in Hc3.
  assert (2 ^ 64 = 18446744073709551616) as Hpow64 by done.
  destruct (morebits y 192) eqn:M1; [|apply (morebits_false y 12) in M1; [|done..]].
  - destruct (morebits y 256) eqn:M2; [|apply (morebits_false y 16) in M2; [|done..]].
    + destruct (morebits y 320) eqn:M3; [|apply (morebits_false y 20) in M3; [|done..]].
      * split; [done|]. split; [|unfold Pz in *; lia]. rw Hc3. apply eq_subrelation; [apply _|]. lia.
      * split; [done|]. split; [|unfold Pz in *; lia]. rw Hc2. apply eq_subrelation; [apply _|].
        rewrite -> Hz5 in Hparts by (change (2 ^ 320) with (65536 ^ 20); lia). lia.
    + split; [done|]. split; [|unfold Pz in *; lia]. rw Hc1. apply eq_subrelation; [apply _|].
      rewrite -> Hz4, Hz5 in Hparts by (change (2 ^ 320) with (65536 ^ 20); change (2 ^ 256) with (65536 ^ 16); lia). lia.
  - rw geq_spec // ?P_val; [|apply P_wf]. change (65536 ^ 12) with (2 ^ 192) in M1.
    rewrite -> Z.mod_small in HvT by lia. destruct (Z.leb_spec Pz (val T)).
    + destruct (sub_wf T P HT P_wf) as (?&Hs&_); [by rw P_val|]. rw P_val in Hs.
      split; [done|]. rw Hs. split; [exists (-1); lia|unfold Pz in *; lia].
    + split; [done|]. split; [exists 0; lia|unfold Pz in *; lia].
Qed.

(** ** Products and powers *)

Lemma short_by_value x n : bi_wf x -> val x < 65536 ^ Z.of_nat n -> (length x <= n)%nat.
Proof.
  intros Hx Hv. destruct (decide (length x <= n)%nat) as [|Hl]; [done|].
  pose proof (val_top x Hx ltac:(by destruct x; [cbn in Hl; lia|])).
  assert (65536 ^ Z.of_nat n <= 65536 ^ Z.of_nat (length x - 1)); [|lia]. apply Z.pow_le_mono_r; lia.
Qed.
Lemma gf_mul_spec x y : bi_wf x -> bi_wf y -> val x * val y < 2 ^ 384 ->
  reduced (val x * val y) (gf_mul x y).
Proof.
  intros Hx Hy Hlt. destruct (mul_wf x y Hx Hy) as (Hw&Hv&_). unfold gf_mul, reduce. rw -Hv.
  apply reduce_spec; [by apply bw_digits| |done]. apply short_by_value; [done|].
  rw Hv. by change (65536 ^ Z.of_nat 24) with (2 ^ 384).
Qed.
(** What [reduce] can leave. *)
Definition fits (x : gfield) : Prop := bi_wf x /\ val x <= Pz + 2 ^ 64.
Lemma reduced_fits V r : reduced V r -> fits r.
Proof. by intros (?&_&?). Qed.
Lemma val_nonneg x : bi_wf x -> 0 <= val x.
Proof. intros Hx. by apply val_bounds, bw_digits. Qed.
Lemma gf_mul_fits x y : fits x -> fits y -> reduced (val x * val y) (gf_mul x y).
Proof.
  intros [Hx Hbx] [Hy Hby]. apply gf_mul_spec; [done|done|].
  pose proof (val_nonneg x Hx). pose proof (val_nonneg y Hy).
  assert (Pz + 2 ^ 64 = 2 ^ 192 - 1) as Hb by done. rw Hb in Hbx Hby.
  change (2 ^ 384) with (2 ^ 192 * 2 ^ 192). nia.
Qed.

Lemma mod_pow2_succ y i : 0 <= y -> 0 <= i -> y mod 2 ^ (i + 1) = y mod 2 ^ i + (if Z.testbit y i then 2 ^ i else 0).
Proof.
  intros Hy Hi. assert (0 < 2 ^ i) by (apply Z.pow_pos_nonneg; lia). rewrite -> Z.pow_add_r by lia.
  rewrite -> Z.rem_mul_r by lia. change (2 ^ 1) with 2. rewrite <- Z.testbit_spec' by done.
  destruct (Z.testbit y i); cbn [Z.b2z]; lia.
Qed.
Lemma pow_loop_spec X y n i a r :
  bi_wf y -> 1 <= i -> fits a -> fits r -> val a ≅ X ^ (2 ^ (i - 1)) -> val r ≅ X ^ (val y mod 2 ^ i) ->
  reduced (X ^ (val y mod 2 ^ (i + Z.of_nat n))) (pow_loop n i y a r).
Proof.
  intros Hy. revert i a r. induction n as [|n IH]; intros i a r Hi Ha Hr Hca Hcr; cbn [pow_loop].
  { rw Z.add_0_r. by destruct Hr. }
  destruct (gf_mul_fits a a Ha Ha) as (Ha1&Ha2&Ha3). rw Hca in Ha2.
  assert (X ^ 2 ^ (i - 1) * X ^ 2 ^ (i - 1) = X ^ (2 ^ i)) as Hsq.
  { assert (0 < 2 ^ (i - 1)) by (apply Z.pow_pos_nonneg; lia).
    rewrite <- Z.pow_add_r by lia. f_equal. replace i with (Z.succ (i - 1)) at 3 by lia.
    rewrite -> Z.pow_succ_r by lia. lia. }
  rw Hsq in Ha2. fold (gf_square a) in Ha1, Ha2, Ha3.
  replace (i + Z.of_nat (S n)) with ((i + 1) + Z.of_nat n) by lia. pose proof (val_nonneg y Hy) as Hny.
  assert (0 <= val y mod 2 ^ i) by (apply Z.mod_pos_bound, Z.pow_pos_nonneg; lia).
  assert (0 < 2 ^ i) by (apply Z.pow_pos_nonneg; lia).
  apply IH; [lia|by split| |by rw Z.add_simpl_r|].
  - destruct (hasbit y i); [|done]. eapply reduced_fits, gf_mul_fits; [done|by split].
  - rewrite -> mod_pow2_succ, hasbit_spec by (try apply bw_digits; done || lia).
    destruct (Z.testbit (val y) i); [|by rw Z.add_0_r].
    destruct (gf_mul_fits r (gf_square a) Hr ltac:(by split)) as (_&Hm&_).
    rewrite -> Z.pow_add_r by lia. by rw Hm Hcr Ha2.
Qed.
Lemma gf_pow_spec x y : fits x -> bi_wf y -> reduced (val x ^ val y) (gf_pow x y).
Proof.
  intros Hx Hy. pose proof (val_nonneg y Hy) as Hny. unfold gf_pow.
  rewrite -> hasbit_spec, Z.bit0_odd by (try apply bw_digits; done).
  assert (fits [1]) as H1 by (split; [apply one_wf|cbn; unfold Pz; lia]).
  assert (val y mod 2 ^ (1 + Z.of_nat (Z.to_nat (numbits y - 1))) = val y) as Hmod.
  { apply Z.mod_small. split; [done|]. rw numbits_spec //. destruct (Z.eqb_spec (val y) 0) as [->|]; [done|].
    pose proof (Z.log2_nonneg (val y)). apply Z.log2_lt_pow2; lia. }
  rewrite <- Hmod at 1.
  destruct (Z.odd (val y)) eqn:Ho; [|rw iszero_spec //; destruct (Z.eqb_spec (val y) 0) as [E|]].
  - apply pow_loop_spec; try done; [by rw Z.pow_1_r|].
    change (2 ^ 1) with 2. rewrite -> Zmod_odd, Ho. by rw Z.pow_1_r.
  - rw Hmod E. change (val x ^ 0) with (val [1]). split; [apply one_wf|by destruct H1].
  - apply pow_loop_spec; try done; [by rw Z.pow_1_r|].
    change (2 ^ 1) with 2. rewrite -> Zmod_odd, Ho. done.
Qed.

(** ** Inverses *)

Lemma cong_cancel2 a b : 2 * a ≅ 2 * b -> a ≅ b.
Proof.
  intros [k Hk]. assert (exists l, k = 2 * l) as [l ->].
  { exists (a - b - k * (2 ^ 191 - 2 ^ 63 - 1)). unfold Pz in Hk. lia. }
  exists l. lia.
Qed.
Lemma cong_cancel_pow2 k a b : 0 <= k -> a * 2 ^ k ≅ b * 2 ^ k -> a ≅ b.
Proof.
  intros Hk. revert a b. pattern k. apply natlike_ind; [|clear k Hk; intros k Hk IH|done].
  - intros a b. by rw !Z.mul_1_r.
  - intros a b Hab. apply IH, cong_cancel2. rewrite -> Z.pow_succ_r in Hab by done.
    by replace (2 * (a * 2 ^ k)) with (a * (2 * 2 ^ k)) by ring; replace (2 * (b * 2 ^ k)) with (b * (2 * 2 ^ k)) by ring.
Qed.
Lemma testbit_shifted a k : 0 <= k -> Z.testbit (2 ^ k * a) k = Z.odd a.
Proof.
  intros Hk. rw Z.mul_comm. rewrite -> Z.mul_pow2_bits, Z.sub_diag by done. apply Z.bit0_odd.
Qed.
Lemma rshift_exact x k a : bi_wf x -> 0 <= k -> val x = 2 ^ k * a ->
  bi_wf (if k =? 0 then x else rshift x k) /\ val (if k =? 0 then x else rshift x k) = a.
Proof.
  intros Hx Hk Hv. destruct (Z.eqb_spec k 0) as [->|].
  - split; [done|]. change (2 ^ 0) with 1 in Hv. lia.
  - destruct (rshift_spec x k Hx Hk) as (?&Hs&_). split; [done|].
    rw Hs Hv Z.mul_comm Z.div_mul; [done|]. apply Z.pow_nonzero; lia.
Qed.

(** Halving [u] until it is odd, [A] along with it modulo the prime. *)
Lemma halve_loop_spec fuel u us A as_ u1 A1 :
  bi_wf u -> bi_wf A -> 0 <= us -> 0 <= as_ ->
  val u = 2 ^ us * u1 -> 0 < u1 -> u1 < 2 ^ Z.of_nat fuel -> val A = 2 ^ as_ * A1 -> 0 <= A1 < Pz ->
  exists us' A' as' u2 A2, halve_loop fuel u us A as_ = Some (us', A', as') /\ bi_wf A' /\ us <= us' /\ 0 <= as' /\
    val u = 2 ^ us' * u2 /\ Z.odd u2 = true /\ val A' = 2 ^ as' * A2 /\ 0 <= A2 < Pz /\
    A2 * 2 ^ (us' - us) ≅ A1.
Proof.
  intros Hu. revert us A as_ u1 A1.
  induction fuel as [|fuel IH]; intros us A as_ u1 A1 HA Hus Has Hvu Hp Hf HvA HA1.
  { cbn in Hf. lia. }
  cbn [halve_loop]. rewrite -> hasbit_spec by (try apply bw_digits; done). rw Hvu testbit_shifted //.
  destruct (Z.odd u1) eqn:Ho.
  { exists us, A, as_, u1, A1. rw Z.sub_diag Z.mul_1_r. split_and!; done || lia. }
  assert (u1 = 2 * (u1 / 2)) as Hhalf by (apply Z.div_exact; [done|]; by rw Zmod_odd Ho).
  rewrite -> hasbit_spec by (try apply bw_digits; done). rw HvA testbit_shifted //.
  set (next := if Z.odd A1 then _ else _).
  assert (exists A'' s A2, next = (A'', s) /\ bi_wf A'' /\ 0 <= s /\ val A'' = 2 ^ (s + 1) * A2 /\
            0 <= A2 < Pz /\ A2 * 2 ≅ A1) as (A''&s&A2&Hn&HwA&Hs&Hv2&Hb2&Hc2).
  { unfold next. destruct (Z.odd A1) eqn:HoA.
    - destruct (rshift_exact A as_ A1 HA Has HvA) as [Hw Hv].
      destruct (add_wf _ P Hw P_wf) as (Hwa&Hva&_). rw Hv P_val in Hva.
      assert (A1 + Pz = 2 * ((A1 + Pz) / 2)) as Heven.
      { apply Z.div_exact; [done|]. rewrite -> Zmod_odd, Z.odd_add, HoA. done. }
      do 2 eexists. exists ((A1 + Pz) / 2). split; [done|]. split; [done|]. split; [done|].
      change (2 ^ (0 + 1)) with 2. split; [lia|]. split; [lia|]. exists 1. lia.
    - assert (A1 = 2 * (A1 / 2)) as Heven by (apply Z.div_exact; [done|]; by rw Zmod_odd HoA).
      do 2 eexists. exists (A1 / 2). split; [done|]. split; [done|]. split; [done|].
      rewrite -> Z.pow_add_r by lia. change (2 ^ 1) with 2. split; [lia|]. split; [lia|]. exists 0. lia. }
  rw Hn. rewrite -> Z.pow_add_r in Hv2 by lia.
  destruct (IH (us + 1) A'' (s + 1) (u1 / 2) A2) as (us'&A'&as'&u2&A3&Hr&HwA'&Hle&Has'&Hu2&Hodd&HvA'&HbA'&Hc);
    [done|lia|lia|rewrite -> Z.pow_add_r by lia; lia|lia| |by rewrite -> Z.pow_add_r by lia|done|].
  { rw Nat2Z.inj_succ in Hf. rewrite -> Z.pow_succ_r in Hf by lia. lia. }
  exists us', A', as', u2, A3. split_and!; try (done || lia).
  rw -Hc2 -Hc. exists 0. replace (us' - us) with ((us' - (us + 1)) + 1) by lia.
  rewrite -> Z.pow_add_r by lia. lia.
Qed.
Lemma halve_spec u A :
  bi_wf u -> bi_wf A -> 0 < val u < 2 ^ 400 -> val A < Pz ->
  exists u' A' k, halve 400 u A = Some (u', A') /\ bi_wf u' /\ bi_wf A' /\ 0 <= k /\ val u = 2 ^ k * val u' /\
    Z.odd (val u') = true /\ val A' < Pz /\ val A' * 2 ^ k ≅ val A.
Proof.
  intros Hu HA Hb HbA. pose proof (val_nonneg A HA).
  destruct (halve_loop_spec 400 u 0 A 0 (val u) (val A)) as (us&A'&s&u2&A2&Hr&Hw&Hus&Hs&Hvu&Ho&HvA&Hb2&Hc);
    try done; [change (2 ^ 0) with 1; lia|lia|lia|change (2 ^ 0) with 1; lia|].
  unfold halve. rw Hr. cbn [mbind option_bind].
  destruct (rshift_exact u us u2 Hu Hus Hvu) as [Hwu Hv1]. destruct (rshift_exact A' s A2 Hw Hs HvA) as [HwA Hv2].
  do 2 eexists. exists us. split; [done|]. rw Hv1 Hv2. rw Z.sub_0_r in Hc. split_and!; try done. lia.
Qed.

Lemma gcd_divisor a b c k : a = k * b -> Z.gcd a c = 1 -> Z.gcd b c = 1.
Proof.
  intros -> Hg. pose proof (Z.gcd_nonneg b c).
  assert ((Z.gcd b c | 1)) as Hd; [|by apply Z.divide_1_r_nonneg].
  rw -Hg. apply Z.gcd_greatest; [apply Z.divide_mul_r|]; [apply Z.gcd_divide_l|apply Z.gcd_divide_r].
Qed.
(** [A x = u] before halving, and after. *)
Lemma halved_tracks A A' u u' k x : 0 <= k -> A * x ≅ u -> u = 2 ^ k * u' -> A' * 2 ^ k ≅ A -> A' * x ≅ u'.
Proof.
  intros Hk Ht -> Hc. apply (cong_cancel_pow2 k); [done|].
  replace (A' * x * 2 ^ k) with (A' * 2 ^ k * x) by ring. rw Hc Ht. by rw Z.mul_comm.
Qed.
(** What the loop keeps of one of its two numbers [u] and its factor [A]. *)
Record tracks (X : Z) (u A : bigint) : Prop := {
  tr_u : bi_wf u; tr_A : bi_wf A; tr_range : 0 <= val u < 2 ^ 400; tr_A_range : val A < Pz;
  tr_eq : val A * X ≅ val u
}.
Lemma tracks_halve X u A : tracks X u A -> val u <> 0 ->
  exists u' A' k, halve 400 u A = Some (u', A') /\ tracks X u' A' /\ 0 <= k /\ val u = 2 ^ k * val u' /\
    Z.odd (val u') = true /\ val u' <= val u.
Proof.
  intros [Hu HA Hr HrA He] Hnz.
  destruct (halve_spec u A Hu HA ltac:(lia) HrA) as (u'&A'&k&Hh&Hu'&HA'&Hk&Hv&Ho&HrA'&Hc).
  pose proof (val_nonneg u' Hu'). assert (1 <= 2 ^ k) by (apply (Z.pow_le_mono_r 2 0); lia).
  assert (val u' <= val u) by nia.
  exists u', A', k. split_and!; try done. split; try done; [lia|]. exact (halved_tracks _ _ _ _ _ _ Hk He Hv Hc).
Qed.
Lemma tracks_sub X u v A C : tracks X u A -> tracks X v C -> val v <= val u ->
  tracks X (sub u v) (sub (if less A C then add A P else A) C).
Proof.
  intros [Hu HA Hr HrA He] [Hv HC Hr' HrC He'] Hle. destruct (sub_wf u v Hu Hv Hle) as (Hw&Hs&_).
  pose proof (val_nonneg A HA). pose proof (val_nonneg C HC).
  destruct (gf_sub_spec A C HA HC) as [HwA HvA]; [lia|].
  pose proof (gf_sub_cong A C HA HC ltac:(lia)) as Hc.
  assert (sub (if less A C then add A P else A) C = gf_sub A C) as ->.
  { unfold gf_sub. by destruct (less A C). }
  split; try done; [lia| |].
  - rw HvA. destruct (Z.ltb_spec (val A) (val C)); lia.
  - rw Hc Hs Z.mul_sub_distr_r He He'. done.
Qed.
(** Halves with every round after the first. *)
Definition potential (u v : Z) : Z := if Z.even u || Z.even v then u * v else 2 * (u * v).
Lemma even_shift k a : 0 <= k -> 0 < a -> Z.odd a = true ->
  a <= 2 ^ k * a /\ (Z.even (2 ^ k * a) = true -> 2 * a <= 2 ^ k * a).
Proof.
  intros Hk Ha Ho. assert (1 <= 2 ^ k) by (apply (Z.pow_le_mono_r 2 0); lia). split; [nia|]. intros He.
  destruct (decide (k = 0)) as [->|].
  - rewrite -> Z.mul_1_l, <- Z.negb_odd, Ho in He. done.
  - assert (2 ^ 1 <= 2 ^ k) by (apply Z.pow_le_mono_r; lia). nia.
Qed.
Lemma potential_step u v u1 v1 k l :
  0 <= k -> 0 <= l -> 0 < u1 -> 0 < v1 -> Z.odd u1 = true -> Z.odd v1 = true ->
  u = 2 ^ k * u1 -> v = 2 ^ l * v1 -> 2 * (u1 * v1) <= potential u v.
Proof.
  intros Hk Hl Hu Hv Hou Hov -> ->. destruct (even_shift k u1 Hk Hu Hou) as [Hu1 Hu2].
  destruct (even_shift l v1 Hl Hv Hov) as [Hv1 Hv2]. unfold potential.
  destruct (Z.even (2 ^ k * u1)); cbn [orb]; [specialize (Hu2 eq_refl); nia|].
  destruct (Z.even (2 ^ l * v1)); [specialize (Hv2 eq_refl); nia|nia].
Qed.
Lemma potential_odds u v : 0 < v -> v <= u -> Z.odd u = true -> Z.odd v = true ->
  potential (u - v) v <= u * v - 1 /\ potential v (u - v) <= u * v - 1.
Proof.
  intros Hv Hle Hu Ho. unfold potential.
  assert (Z.even (u - v) = true) as -> by (rewrite -> Z.even_sub, <- !Z.negb_odd, Hu, Ho; done).
  rw orb_true_r. cbn [orb]. nia.
Qed.
Lemma invert_loop_spec X n : forall fuel u v A C,
  (n < fuel)%nat -> tracks X u A -> tracks X v C -> 0 < val v -> Z.gcd (val u) (val v) = 1 ->
  potential (val u) (val v) < 2 ^ Z.of_nat n ->
  exists C', invert_loop fuel u v A C = Some C' /\ bi_wf C' /\ val C' < Pz /\ val C' * X ≅ 1.
Proof.
  induction n as [|n IH]; intros [|fuel] u v A C Hf Tu Tv Hv Hg Hp; try lia; cbn [invert_loop];
    rw (iszero_spec _ (tr_u _ _ _ Tu)); destruct (Z.eqb_spec (val u) 0) as [E|Hnz].
  1, 3: exists C; rw E Z.gcd_0_l Z.abs_eq in Hg; [|lia]; pose proof (tr_eq _ _ _ Tv) as He; rw Hg in He;
    split; [done|]; split; [by eapply tr_A|]; split; [by eapply tr_A_range|done].
  { pose proof (tr_range _ _ _ Tu). unfold potential in Hp. cbn in Hp. destruct (_ || _) in Hp; nia. }
  pose proof (tr_range _ _ _ Tu) as Hru. pose proof (tr_range _ _ _ Tv) as Hrv.
  destruct (tracks_halve X u A Tu Hnz) as (u1&A1&k&->&Tu1&Hk&Eu&Hou&_). cbn [mbind option_bind].
  destruct (tracks_halve X v C Tv ltac:(lia)) as (v1&C1&l&->&Tv1&Hl&Ev&Hov&_). cbn [mbind option_bind].
  assert (0 < val u1) as Hu1 by (pose proof (tr_range _ _ _ Tu1); destruct (decide (val u1 = 0)); [lia|lia]).
  assert (0 < val v1) as Hv1 by (pose proof (tr_range _ _ _ Tv1); destruct (decide (val v1 = 0)); [lia|lia]).
  pose proof (potential_step _ _ _ _ _ _ Hk Hl Hu1 Hv1 Hou Hov Eu Ev) as Hstep.
  assert (Z.gcd (val u1) (val v1) = 1) as Hg1.
  { apply (gcd_divisor _ _ _ _ Eu) in Hg. rw Z.gcd_comm in Hg. apply (gcd_divisor _ _ _ _ Ev) in Hg.
    by rw Z.gcd_comm. }
  rw Nat2Z.inj_succ in Hp. rewrite -> Z.pow_succ_r in Hp by lia.
  rw geq_spec; [|by eapply tr_u..]. destruct (Z.leb_spec (val v1) (val u1)) as [Hle|Hlt].
  - pose proof (tracks_sub X _ _ _ _ Tu1 Tv1 Hle) as Ts. destruct (potential_odds _ _ Hv1 Hle Hou Hov) as [Hpo _].
    destruct (sub_wf u1 v1 (tr_u _ _ _ Tu1) (tr_u _ _ _ Tv1) Hle) as (_&Es&_).
    apply IH; try done; [lia|rw Es Z.gcd_comm Z.gcd_sub_diag_r Z.gcd_comm; done|rw Es; lia].
  - pose proof (tracks_sub X _ _ _ _ Tv1 Tu1 ltac:(lia)) as Ts.
    destruct (potential_odds (val v1) (val u1)) as [_ Hpo]; [done|lia|done|done|].
    destruct (sub_wf v1 u1 (tr_u _ _ _ Tv1) (tr_u _ _ _ Tu1)) as (_&Es&_); [lia|].
    apply IH; try done; [lia|rw Es; lia|rw Es Z.gcd_sub_diag_r; done|rw Es; lia].
Qed.

(** ** Square roots *)

#[local] Opaque gf_pow gf_mul Psub1div2 Padd1div4.
Lemma gf_sqrt_spec x y :
  fits x -> gf_sqrt x = Some y -> val (gf_pow x Psub1div2) = 1 \/ val x = 0 -> val y * val y ≅ val x.
Proof.
  intros Hx Hs HL. unfold gf_sqrt, legendre in Hs. rw (iszero_spec x (proj1 Hx)) in Hs.
  destruct (Z.eqb_spec (val x) 0) as [E|Hnz]; [injection Hs as <-; by rw E|].
  destruct HL as [HL|HL]; [|destruct (Hnz HL)].
  assert (bi_wf Psub1div2 /\ val Psub1div2 = (Pz - 1) / 2) as [Hw Hv] by (split; [wf_number|by vm_compute]).
  assert (bi_wf Padd1div4 /\ val Padd1div4 = (Pz + 1) / 4) as [Hw4 Hv4] by (split; [wf_number|by vm_compute]).
  destruct (gf_pow_spec x Psub1div2 Hx Hw) as (HwL&HcL&_). rw HL Hv in HcL.
  assert (gf_pow x Psub1div2 = [1]) as E1 by (apply val_inj; [done|apply one_wf|done]).
  rw E1 in Hs. change (iszero [1]) with false in Hs. change (zlength [1] =? 1) with true in Hs.
  change (1 =? 0) with false in Hs. change (1 =? -1) with false in Hs. apply (inj Some) in Hs. subst y. destruct (gf_pow_spec x Padd1div4 Hx Hw4) as (_&Hc4&_).
  rw Hc4 Hv4. rewrite <- Z.pow_add_r by done.
  change ((Pz + 1) / 4 + (Pz + 1) / 4) with ((Pz - 1) / 2 + 1). rewrite -> Z.pow_add_r by done.
  rw -HcL. by rw Z.mul_1_l Z.pow_1_r.
Qed.

(** * Properties *)

(** The field operations compute modulo the prime: of numbers below it, sums,
    differences and halves are the ones below it; products and powers are
    congruent to those of the integers, and below [2^192]; so are the square
    roots found. *)
Theorem gfield_arith x y e :
  bi_wf x -> bi_wf y -> bi_wf e -> val x < Pz -> val y < Pz ->
  val (gf_add x y) = (val x + val y) mod Pz /\ val (gf_sub x y) = (val x - val y) mod Pz /\
  (2 * val (gf_div2 x)) mod Pz = val x /\ val (gf_div2 x) < Pz /\
  val (gf_mul x y) mod Pz = (val x * val y) mod Pz /\ val (gf_mul x y) < 2 ^ 192 /\
  val (gf_pow x e) mod Pz = (val x ^ val e) mod Pz /\ val (gf_pow x e) < 2 ^ 192 /\
  (forall r, gf_sqrt x = Some r -> val (gf_pow x Psub1div2) = 1 \/ val x = 0 -> (val r * val r) mod Pz = val x).
Proof.
  intros Hx Hy He Hbx Hby. pose proof (val_nonneg x Hx). pose proof (val_nonneg y Hy).
  assert (Pz + 2 ^ 64 < 2 ^ 192) as Hlim by done. assert (forall z, bi_wf z -> val z < Pz -> fits z) as Hfit.
  { intros z Hz Hb. split; [done|]. lia. }
  destruct (gf_add_spec x y Hx Hy) as [_ Ea]. destruct (gf_sub_spec x y Hx Hy) as [_ Es]; [lia|].
  destruct (gf_div2_spec x Hx) as [_ Ed]. destruct (gf_mul_fits x y (Hfit x Hx Hbx) (Hfit y Hy Hby)) as (_&Em&Hm).
  destruct (gf_pow_spec x e (Hfit x Hx Hbx) He) as (_&Ep&Hp).
  split_and!.
  - rw Ea. destruct (Z.leb_spec Pz (val x + val y)); [|by rewrite -> Z.mod_small by lia].
    apply Z.mod_unique with 1; [left; lia|lia].
  - rw Es. destruct (Z.ltb_spec (val x) (val y)); [|rw Z.mod_small; lia].
    apply Z.mod_unique with (-1); [left; lia|lia].
  - rw Ed. destruct (Z.odd (val x)); [|by apply Z.mod_small].
    replace (val x + Pz) with (val x + 1 * Pz) by lia. rw Z.mod_add; [|done]. by apply Z.mod_small.
  - destruct (Z.odd (val x)); lia.
  - by apply cong_mod.
  - lia.
  - by apply cong_mod.
  - lia.
  - intros r Hr HL. transitivity (val x mod Pz); [|apply Z.mod_small; lia]. apply cong_mod. by eapply gf_sqrt_spec; [apply Hfit|..].
Qed.
Lemma gfield_arith_witness :
  val (gf_mul [5; 0; 7] [9; 3]) mod Pz = (val [5; 0; 7] * val [9; 3]) mod Pz /\
  gf_sqrt [4] = Some (gf_pow [4] Padd1div4) /\
  (val (gf_pow [4] Padd1div4) * val (gf_pow [4] Padd1div4)) mod Pz = 4.
Proof.
  assert (bi_wf [5; 0; 7]) as Hx by wf_number. assert (bi_wf [9; 3]) as Hy by wf_number.
  assert (bi_wf [4]) as H4 by wf_number. assert (gf_sqrt [4] = Some (gf_pow [4] Padd1div4)) as Hs by (by vm_compute).
  split_and!; [|exact Hs|].
  - destruct (gfield_arith [5; 0; 7] [9; 3] [9; 3] Hx Hy Hy ltac:(by vm_compute) ltac:(by vm_compute)) as (_&_&_&_&H&_).
    exact H.
  - destruct (gfield_arith [4] [9; 3] [9; 3] H4 Hy Hy ltac:(by vm_compute) ltac:(by vm_compute)) as (_&_&_&_&_&_&_&_&H).
    apply (H _ Hs). left. by vm_compute.
Defined.

(** C27: the inverse is found, by loops that end: of every number prime to the
    modulus the result is below it, and the product of the two is 1. *)
Theorem invert_inverse x :
  bi_wf x -> val x < 2 ^ 192 -> Z.gcd (val x) Pz = 1 ->
  exists y, invert x = Some y /\ bi_wf y /\ val y < Pz /\ (val y * val x) mod Pz = 1.
Proof.
  intros Hx Hb Hg. pose proof (val_nonneg x Hx). assert (2 ^ 192 < 2 ^ 400) as Hlim by done.
  assert (0 < Pz < 2 ^ 192) as HP by done.
  destruct (decide (val x = 0)) as [E|Hnz]; [rw E in Hg; done|].
  destruct (invert_loop_spec (val x) 385 500 x P [1] []) as (C&Hi&HC&HbC&Hc).
  - lia.
  - split; [done|apply one_wf|lia|done|]. change (val [1]) with 1. by rw Z.mul_1_l.
  - split; [apply P_wf|apply bi_wf_nil|rw P_val; lia|done|]. rw P_val. exists (-1). cbn [val]. lia.
  - rw P_val. lia.
  - by rw P_val.
  - rw P_val. change (2 ^ Z.of_nat 385) with (2 * (2 ^ 192 * 2 ^ 192)). unfold potential. destruct (_ || _); nia.
  - exists C. unfold invert. rw iszero_spec //. destruct (Z.eqb_spec (val x) 0); [done|]. rw Hi.
    cbn [mbind option_bind]. rw geq_spec // ?P_val; [|apply P_wf]. destruct (Z.leb_spec Pz (val C)); [lia|].
    split_and!; try done. by apply cong_mod in Hc.
Qed.
Lemma invert_inverse_witness :
  exists y, invert [5; 0; 7] = Some y /\ (val y * val [5; 0; 7]) mod Pz = 1.
Proof.
  destruct (invert_inverse [5; 0; 7]) as (y&Hi&_&_&He);
    [wf_number|by vm_compute|by vm_compute|]. exists y. split; [exact Hi|exact He].
Defined.

(** One conditional subtraction after each sum is not always enough: the square of
    [P - 1] is left as [P + 1]. *)
Example mul_not_canonical :
  let x := sub P [1] in val x = Pz - 1 /\ val (gf_mul x x) = Pz + 1.
Proof. by split; vm_compute. Qed.
