(* ===== verification/Tiger.v ===== *)
(** The Tiger hash (shared/crypto.cpp [tiger], [hashstring]).

    A [chunk] is 64 bits wide, with its wrap-around written out.  The table of
    [sboxes], 1024 chunks, is a finite map from its indices, so that the hash
    evaluates; it is generated by the hash's own compression, as in the source.
    The machine is little-endian, as everywhere in this development. *)
From stdpp Require Import gmap.
From S2P Require Import Prelude Text.

#[local] Open Scope list_scope.

Definition TIGER_PASSES : Z := 3.
Definition chunk_mask : Z := 0xFFFFFFFFFFFFFFFF.
Definition to_chunk (n : Z) : Z := Z.land n chunk_mask.
Definition chunk_not (n : Z) : Z := Z.lxor n chunk_mask.
Definition chunk_add (a b : Z) : Z := to_chunk (a + b).
Definition chunk_sub (a b : Z) : Z := to_chunk (a - b).
Definition chunk_shl (a n : Z) : Z := to_chunk (Z.shiftl a n).

Definition boxes : Type := gmap Z Z.
(** [sb1], [sb2], [sb3], [sb4] are [box 0] to [box 3]. *)
Definition box (sboxes : boxes) (k i : Z) : Z := default 0 (sboxes !! (256 * k + i)).
(** [((c)>>(n*8))&0xFF] *)
Definition byte_of (c n : Z) : Z := Z.land (Z.shiftr c (n * 8)) 0xFF.

Record abc : Set := Abc { st_a : Z; st_b : Z; st_c : Z }.

Section compress.
Context (sboxes : boxes).

(** [round(a, b, c, x)] *)
Definition round (mul : Z) (s : abc) (x : Z) : abc :=
  let c := Z.lxor (st_c s) x in
  let a := chunk_sub (st_a s)
    (Z.lxor (Z.lxor (Z.lxor (box sboxes 0 (byte_of c 0)) (box sboxes 1 (byte_of c 2)))
                    (box sboxes 2 (byte_of c 4))) (box sboxes 3 (byte_of c 6))) in
  let b := chunk_add (st_b s)
    (Z.lxor (Z.lxor (Z.lxor (box sboxes 3 (byte_of c 1)) (box sboxes 2 (byte_of c 3)))
                    (box sboxes 1 (byte_of c 5))) (box sboxes 0 (byte_of c 7))) in
  Abc a (to_chunk (b * mul)) c.
(** The next round has the three in turn. *)
Definition turn (s : abc) : abc := Abc (st_b s) (st_c s) (st_a s).
Definition turn_back (s : abc) : abc := Abc (st_c s) (st_a s) (st_b s).
Fixpoint rounds (mul : Z) (s : abc) (xs : list Z) : abc :=
  match xs with
  | [] => s
  | x :: xs => turn_back (rounds mul (turn (round mul s x)) xs)
  end.

(** The eight words, mixed before the second and the third pass. *)
Definition key_schedule (x : list Z) : list Z :=
  match x with
  | [x0; x1; x2; x3; x4; x5; x6; x7] =>
    let x0 := chunk_sub x0 (Z.lxor x7 0xA5A5A5A5A5A5A5A5) in
    let x1 := Z.lxor x1 x0 in
    let x2 := chunk_add x2 x1 in
    let x3 := chunk_sub x3 (Z.lxor x2 (chunk_shl (chunk_not x1) 19)) in
    let x4 := Z.lxor x4 x3 in
    let x5 := chunk_add x5 x4 in
    let x6 := chunk_sub x6 (Z.lxor x5 (Z.shiftr (chunk_not x4) 23)) in
    let x7 := Z.lxor x7 x6 in
    let x0 := chunk_add x0 x7 in
    let x1 := chunk_sub x1 (Z.lxor x0 (chunk_shl (chunk_not x7) 19)) in
    let x2 := Z.lxor x2 x1 in
    let x3 := chunk_add x3 x2 in
    let x4 := chunk_sub x4 (Z.lxor x3 (Z.shiftr (chunk_not x2) 23)) in
    let x5 := Z.lxor x5 x4 in
    let x6 := chunk_add x6 x5 in
    let x7 := chunk_sub x7 (Z.lxor x6 0x0123456789ABCDEF) in
    [x0; x1; x2; x3; x4; x5; x6; x7]
  | _ => x
  end.
(** [loop(pass_no, TIGER_PASSES)], of [n] more passes *)
Fixpoint tiger_passes (n : nat) (pass_no : Z) (s : abc) (x : list Z) : abc :=
  match n with
  | O => s
  | S n =>
    let x := if pass_no =? 0 then x else key_schedule x in
    let mul := if pass_no =? 0 then 5 else if pass_no =? 1 then 7 else 9 in
    let s := rounds mul s x in
    tiger_passes n (pass_no + 1) (Abc (st_c s) (st_a s) (st_b s)) x
  end.
Definition compress (str : list Z) (state : abc) : abc :=
  let s := tiger_passes (Z.to_nat TIGER_PASSES) 0 state str in
  Abc (Z.lxor (st_a s) (st_a state)) (chunk_sub (st_b s) (st_b state)) (chunk_add (st_c s) (st_c state)).
End compress.

(** ** Bytes *)

(** A buffer of bytes read as chunks: eight bytes make a chunk, the low one first. *)
Fixpoint bytes_chunk (l : list Z) : Z := match l with [] => 0 | b :: l => b + 256 * bytes_chunk l end.
Fixpoint chunks_of (n : nat) (l : list Z) : list Z :=
  match n with O => [] | S n => bytes_chunk (take 8 l) :: chunks_of n (drop 8 l) end.
Definition chunk_bytes (c : Z) : list Z := map (byte_of c) (seqZ 0 8).
Definition hash_start : abc := Abc 0x0123456789ABCDEF 0xFEDCBA9876543210 0xF096A5B4C3B2E187.

(** ** The table *)

(** Byte [col] of a chunk set to [v]. *)
Definition set_byte (col v c : Z) : Z :=
  Z.lor (Z.land c (Z.lxor chunk_mask (Z.shiftl 0xFF (8 * col)))) (Z.shiftl v (8 * col)).
Definition get_col (sboxes : boxes) (i col : Z) : Z := byte_of (default 0 (sboxes !! i)) col.
Definition set_col (i col v : Z) (sboxes : boxes) : boxes :=
  <[i := set_byte col v (default 0 (sboxes !! i))]> sboxes.
Definition sbox_name : list Z := cstr "Tiger - A Fast New Hash Function, by Ross Anderson and Eli Biham".
Definition sboxes_start : boxes :=
  foldl (fun t i => <[i := foldl (fun c col => set_byte col (Z.land i 0xFF) c) 0 (seqZ 0 8)]> t) ∅ (seqZ 0 1024).
Definition state_at (s : abc) (k : Z) : Z := if k =? 0 then st_a s else if k =? 1 then st_b s else st_c s.
Definition swap_col (sb i chosen : Z) (sboxes : boxes) (col : Z) : boxes :=
  let other := sb + byte_of chosen col in
  let val := get_col sboxes (sb + i) col in
  let sboxes := set_col (sb + i) col (get_col sboxes other col) sboxes in
  set_col other col val sboxes.
Record gen : Type := Gen { g_boxes : boxes; g_state : abc; g_abc : Z }.
Definition gen_step (g : gen) (isb : Z * Z) : gen :=
  let '(i, sb) := isb in
  let '(state, abc) :=
    if g_abc g + 1 >=? 3 then (compress (g_boxes g) (chunks_of 8 sbox_name) (g_state g), 0)
    else (g_state g, g_abc g + 1) in
  Gen (foldl (swap_col sb i (state_at state abc)) (g_boxes g) (seqZ 0 8)) state abc.
(** [loopi(256) for(int sb = 0; sb < 1024; sb += 256)] *)
Definition gen_order : list (Z * Z) := flat_map (fun i => map (pair i) [0; 256; 512; 768]) (seqZ 0 256).
Definition gensboxes : boxes :=
  g_boxes (Nat.iter 5 (fun g => foldl gen_step g gen_order) (Gen sboxes_start hash_start 2)).

(** ** Hashing *)

(** [for(; i >= 64; i -= 64, str += 64) compress(str, val.chunks);] *)
Fixpoint hash_blocks (sboxes : boxes) (n : nat) (str : list Z) (v : abc) : abc * list Z :=
  match n with
  | O => (v, str)
  | S n => hash_blocks sboxes n (drop 64 str) (compress sboxes (chunks_of 8 str) v)
  end.
Definition pad_to (l : list Z) (len : nat) : list Z := l ++ replicate (len - length l) 0.
(** [temp[j] = 0x01; while(++j&7) temp[j] = 0;] *)
Definition tail_bytes (str : list Z) : list Z :=
  let l := str ++ [1] in pad_to l (8 * Nat.div (length l + 7) 8).
Definition hash_with (sboxes : boxes) (str : list Z) : abc :=
  let length_ := zlength str in
  let '(v, rest) := hash_blocks sboxes (Z.to_nat (length_ / 64)) str hash_start in
  let temp := tail_bytes rest in
  let '(v, temp) :=
    if (56 <? length temp)%nat then (compress sboxes (chunks_of 8 (pad_to temp 64)) v, []) else (v, temp) in
  compress sboxes (chunks_of 7 (pad_to temp 56) ++ [chunk_shl length_ 3]) v.
Definition tiger_hash (str : list Z) : abc := hash_with gensboxes str.
Definition hash_bytes (h : abc) : list Z := chunk_bytes (st_a h) ++ chunk_bytes (st_b h) ++ chunk_bytes (st_c h).

(** [hashstring]: [None] when [maxlen] leaves no room.  The low half of each byte
    is written first. *)
Definition hexdigit (v : Z) : Z := if v <? 10 then 48 + v else 97 + v - 10.
Definition hashstring (str : cstring) (maxlen : Z) : option cstring :=
  if maxlen <? 2 * 24 + 1 then None else
  Some (flat_map (fun c => [hexdigit (Z.land c 0xF); hexdigit (Z.shiftr c 4)]) (hash_bytes (tiger_hash str))).

Example hash_abc :
  tiger_hash (cstr "abc") = Abc 0xF258C1E88414AB2A 0x527AB541FFC5B8BF 0x935F7B951C132951.
Proof. by vm_compute. Qed.

(** ** The buffer of 64 bytes is never overrun *)

Lemma length_pad_to l n : length (pad_to l n) = Nat.max (length l) n.
Proof. unfold pad_to. rw length_app length_replicate. lia. Qed.
Lemma length_tail_bytes str : length (tail_bytes str) = (8 * Nat.div (length str + 8) 8)%nat.
Proof.
  unfold tail_bytes. rw length_pad_to length_app. cbn [length].
  replace (length str + 1 + 7)%nat with (length str + 8)%nat by lia.
  pose proof (Nat.div_mod (length str + 8) 8 ltac:(done)). pose proof (Nat.mod_upper_bound (length str + 8) 8 ltac:(done)).
  lia.
Qed.
Lemma hash_blocks_rest sboxes n str v :
  (64 * n <= length str)%nat -> length (snd (hash_blocks sboxes n str v)) = (length str - 64 * n)%nat.
Proof.
  revert str v. induction n as [|n IH]; intros str v Hn; cbn [hash_blocks]; [cbn; lia|].
  rw IH length_drop; lia.
Qed.
(** What is left after the whole blocks, with its end mark, fits the buffer. *)
Lemma tail_fits sboxes str :
  let rest := snd (hash_blocks sboxes (Z.to_nat (zlength str / 64)) str hash_start) in
  (length rest < 64)%nat /\ (length (tail_bytes rest) <= 64)%nat.
Proof.
  intros rest. assert (length rest = Nat.modulo (length str) 64) as Hr.
  { unfold rest, zlength. pose proof (Nat.div_mod (length str) 64 ltac:(done)).
    replace (Z.to_nat (Z.of_nat (length str) / 64)) with (length str / 64)%nat.
    - rw hash_blocks_rest; lia.
    - change 64 with (Z.of_nat 64). by rw -Nat2Z.inj_div Nat2Z.id. }
  pose proof (Nat.mod_upper_bound (length str) 64 ltac:(done)). split; [lia|].
  rw length_tail_bytes. assert ((length rest + 8) / 8 < 9)%nat by (apply Nat.Div0.div_lt_upper_bound; lia). lia.
Qed.
