(* ===== verification/Curve.v ===== *)
(** The elliptic curve and the challenges made with it (shared/crypto.cpp
    [ecjacobian], [calcpubkey], [genprivkey], [genchallenge], [answerchallenge],
    [checkchallenge]).

    Points are kept in Jacobian coordinates; the formulas are those of the source,
    step by step, in its order.  [parse] ends with a point whose [y] is zero where
    the text names no point of the curve. *)
From S2P Require Import Prelude Text Bigint Gfield Tiger.

#[local] Open Scope list_scope.

Record ecjacobian : Set := Ec { ec_x : gfield; ec_y : gfield; ec_z : gfield }.
Definition curve_B : gfield := parse gf_room (cstr "64210519e59c80e70fa7e9ab72243049feb8deecc146b9b1").
Definition base : ecjacobian :=
  Ec (parse gf_room (cstr "188da80eb03090f67cbf20eb43a18800f4ff0afd82ff1012"))
     (parse gf_room (cstr "07192b95ffc8da78631011ed6b24cdd573f977a11e794811")) [1].
Definition origin : ecjacobian := Ec [1] [1] [].

Definition ec_mul2 (p : ecjacobian) : ecjacobian :=
  if iszero (ec_z p) then p
  else if iszero (ec_y p) then origin
  else
    let c := gf_square (ec_z p) in
    let d := gf_sub (ec_x p) c in
    let c := gf_add c (ec_x p) in
    let d := gf_mul d c in
    let c := gf_add (gf_mul2 d) d in
    let z := gf_mul (ec_z p) (ec_y p) in
    let z := gf_add z z in
    let a := gf_square (ec_y p) in
    let b := gf_mul2 a in
    let d := gf_mul (gf_mul2 (ec_x p)) b in
    let x := gf_sub (gf_sub (gf_square c) d) d in
    let a := gf_square b in
    let a := gf_add a a in
    let y := gf_sub (gf_mul (gf_sub d x) c) a in
    Ec x y z.

Definition ec_add (p q : ecjacobian) : ecjacobian :=
  if iszero (ec_z q) then p
  else if iszero (ec_z p) then q
  else
    let a := gf_square (ec_z p) in
    let b := gf_mul (gf_mul (ec_y q) a) (ec_z p) in
    let a := gf_mul a (ec_x q) in
    let '(a, b, c, d) :=
      if isone (ec_z q) then
        let c := gf_add (ec_x p) a in
        let d := gf_add (ec_y p) b in
        (gf_sub (ec_x p) a, gf_sub (ec_y p) b, c, d)
      else
        let e := gf_square (ec_z q) in
        let f := gf_mul (gf_mul (ec_y p) e) (ec_z q) in
        let e := gf_mul e (ec_x p) in
        let c := gf_add e a in
        let d := gf_add f b in
        (gf_sub e a, gf_sub f b, c, d) in
    if iszero a then (if iszero b then ec_mul2 p else origin)
    else
      let z := if isone (ec_z q) then ec_z p else gf_mul (ec_z p) (ec_z q) in
      let z := gf_mul z a in
      let e := gf_square a in
      let f := gf_mul c e in
      let x := gf_sub (gf_square b) f in
      let e := gf_mul (gf_mul e a) d in
      let y := gf_div2 (gf_sub (gf_mul (gf_sub (gf_sub f x) x) b) e) in
      Ec x y z.

(** [loopirev(q.numbits())] *)
Fixpoint ec_mul_loop (n : nat) (p r : ecjacobian) (q : bigint) : ecjacobian :=
  match n with
  | O => r
  | S n => let r := ec_mul2 r in ec_mul_loop n p (if hasbit q (Z.of_nat n) then ec_add r p else r) q
  end.
Definition ec_mul (p : ecjacobian) (q : bigint) : ecjacobian := ec_mul_loop (Z.to_nat (numbits q)) p origin q.

Definition normalize (p : ecjacobian) : ecjacobian :=
  if iszero (ec_z p) || isone (ec_z p) then p else
  let z := default (ec_z p) (invert (ec_z p)) in
  let tmp := gf_square z in
  Ec (gf_mul (ec_x p) tmp) (gf_mul (gf_mul (ec_y p) tmp) z) [1].

(** The [y] of the point of the given [x], and whether there is one.  The term
    [3x] is [tmp.add(x, x).add(x)]. *)
Definition calcy (x : gfield) (ybit : bool) : gfield * bool :=
  let y2 := gf_mul (gf_square x) x in
  let tmp := gf_add (gf_add x x) x in
  let y2 := gf_add (gf_sub y2 tmp) curve_B in
  match gf_sqrt y2 with
  | None => ([], false)
  | Some y => (if eqb (hasbit y 0) ybit then y else gf_neg y, true)
  end.

Definition ec_print (p : ecjacobian) : cstring :=
  let p := normalize p in (if hasbit (ec_y p) 0 then 45 else 43) :: printdigits (ec_x p).
(** [bool ybit = *s++ == '-';] An empty text is read past its end: [rest] is what
    follows it. *)
Definition ec_parse (rest s : cstring) : ecjacobian :=
  let x := parse gf_room (match s with _ :: s => s | [] => rest end) in
  let ybit := match s with c :: _ => c =? 45 | [] => false end in
  Ec x (fst (calcy x ybit)) [1].

Definition calcpubkey (privkey : bigint) : cstring := ec_print (normalize (ec_mul base privkey)).
Definition calcpubkey_of (privstr : cstring) : option cstring :=
  if bool_decide (privstr = []) then None else Some (calcpubkey (parse gf_room privstr)).

(** The 24 bytes of a hash as 12 digits. *)
Fixpoint digits_of_bytes (l : list Z) : list Z :=
  match l with a :: b :: l => (a + 256 * b) :: digits_of_bytes l | _ => [] end.
Definition hash_number (seed : list Z) : bigint := shrink (digits_of_bytes (hash_bytes (tiger_hash seed))).
(** [seedlength] of zero stands for the length of the text. *)
Definition genprivkey (seed : cstring) (seedlength : Z) : cstring * cstring :=
  let privkey := hash_number (if seedlength =? 0 then seed else take (Z.to_nat seedlength) seed) in
  (printdigits privkey, calcpubkey privkey).

Definition answerchallenge (privstr challenge : cstring) : cstring :=
  let privkey := parse gf_room privstr in
  printdigits (ec_x (normalize (ec_mul (ec_parse [] challenge) privkey))).
(** The answer expected, and the challenge to send. *)
Definition genchallenge (pubkey : ecjacobian) (seed : list Z) : gfield * cstring :=
  let challenge := hash_number seed in
  let answer := normalize (ec_mul pubkey challenge) in
  let secret := normalize (ec_mul base challenge) in
  (ec_x answer, ec_print secret).
Definition checkchallenge (answerstr : cstring) (correct : gfield) : bool :=
  equal (parse gf_room answerstr) correct.

(** ** Checks on concrete keys *)

(** [y^2 = x^3 - 3 x z^4 + B z^6], modulo the prime. *)
Definition on_curve (p : ecjacobian) : bool :=
  let x := val (ec_x p) in let y := val (ec_y p) in let z := val (ec_z p) in
  (y ^ 2) mod Pz =? (x ^ 3 - 3 * x * z ^ 4 + val curve_B * z ^ 6) mod Pz.
Example base_on_curve : on_curve base = true /\ calcy (ec_x base) (hasbit (ec_y base) 0) = (ec_y base, true).
Proof. by split; vm_compute. Qed.
(** A point is printed with the sign of its [y], and read back. *)
Example point_reads_back : ec_parse [] (ec_print base) = base.
Proof. by vm_compute. Qed.
Example multiples : normalize (ec_mul (ec_mul base [3]) [5]) = normalize (ec_mul base [15]) /\
  on_curve (ec_mul base [15]) = true.
Proof. by split; vm_compute. Qed.
(** The holder of the key [b] answers a challenge made with its public key and the
    secret 7; another key does not. *)
Example challenge_answered :
  let correct := ec_x (normalize (ec_mul (ec_parse [] (calcpubkey [11])) [7])) in
  let challenge := ec_print (normalize (ec_mul base [7])) in
  checkchallenge (answerchallenge (cstr "b") challenge) correct = true /\
  checkchallenge (answerchallenge (cstr "c") challenge) correct = false.
Proof. by split; vm_compute. Qed.
