(* ===== verification/Float32.v ===== *)
(** Single-precision arithmetic: the [float] of the source as IEEE binary32.

    [f32] values are computed by the Standard Library's executable
    specification of IEEE arithmetic at precision 24 and maximal exponent 128,
    with rounding to nearest even, so positions, ranges and ranks evaluate bit
    for bit as the server computes them. *)
From S2P Require Import Prelude.
From Stdlib Require Import Floats.

Definition f32 : Set := spec_float.

Definition fadd : f32 -> f32 -> f32 := SFadd 24 128.
Definition fsub : f32 -> f32 -> f32 := SFsub 24 128.
Definition fmul : f32 -> f32 -> f32 := SFmul 24 128.
Definition fdiv : f32 -> f32 -> f32 := SFdiv 24 128.
Definition fabs : f32 -> f32 := SFabs.
Definition flt : f32 -> f32 -> bool := SFltb.
Definition fle : f32 -> f32 -> bool := SFleb.
Definition fgt (a b : f32) : bool := SFltb b a.
Definition fge (a b : f32) : bool := SFleb b a.
Definition feq : f32 -> f32 -> bool := SFeqb.
(** [sqrtf]. *)
Definition fsqrt : f32 -> f32 := SFsqrt 24 128.

(** The conversion [float(n)] of an [int], and [m * 2^e] for literals. *)
Definition f32_of_int (n : Z) : f32 := binary_normalize 24 128 n 0 false.
Definition f32_lit (m e : Z) : f32 := binary_normalize 24 128 m e false.
Definition f32_zero : f32 := S754_zero false.

(** [int(x)] truncates; outside the range of [int] the conversion has no
    defined result and x86 yields [INT_MIN]. *)
Definition ftrunc (x : f32) : option Z :=
  match x with
  | S754_zero _ => Some 0
  | S754_finite s m e =>
    let v := if 0 <=? e then Zpos m * 2 ^ e else Zpos m / 2 ^ (- e) in
    Some (if s then - v else v)
  | _ => None
  end.
Definition f32_to_int (x : f32) : Z :=
  match ftrunc x with
  | Some v => if bool_decide (is_int v) then v else INT_MIN
  | None => INT_MIN
  end.

Lemma f32_to_int_range x : is_int (f32_to_int x).
Proof.
  unfold f32_to_int. destruct (ftrunc x) as [v|]; [|unfold is_int, INT_MIN, INT_MAX; lia].
  case_bool_decide; [done|unfold is_int, INT_MIN, INT_MAX; lia].
Qed.

#[global] Instance f32_eq_dec : EqDecision f32.
Proof. intros x y. unfold Decision. repeat decide equality. Defined.

(** ** Vectors (geom.h [vec]) *)
Record vec := mkvec { vx : f32; vy : f32; vz : f32 }.
#[global] Instance vec_eq_dec : EqDecision vec.
Proof. solve_decision. Defined.

Definition vec0 : vec := mkvec f32_zero f32_zero f32_zero.
Definition vec_map (f : f32 -> f32) (v : vec) : vec := mkvec (f (vx v)) (f (vy v)) (f (vz v)).
Definition vec_mul (v : vec) (k : f32) : vec := vec_map (fun c => fmul c k) v.
Definition vec_div (v : vec) (k : f32) : vec := vec_map (fun c => fdiv c k) v.
Definition vec_sub (a b : vec) : vec :=
  mkvec (fsub (vx a) (vx b)) (fsub (vy a) (vy b)) (fsub (vz a) (vz b)).
Definition vec_iszero (v : vec) : bool :=
  feq (vx v) f32_zero && feq (vy v) f32_zero && feq (vz v) f32_zero.
Definition vec_squaredlen (v : vec) : f32 :=
  fadd (fadd (fmul (vx v) (vx v)) (fmul (vy v) (vy v))) (fmul (vz v) (vz v)).
Definition vec_magnitude (v : vec) : f32 := fsqrt (vec_squaredlen v).
Definition vec_dist (a b : vec) : f32 := vec_magnitude (vec_sub a b).
(** The position outside every map: [vec(-1e10f, -1e10f, -1e10f)]. *)
Definition nowhere : vec :=
  let c := f32_of_int (-10000000000) in mkvec c c c.

(** The scales of the wire: [DMF], [DNF]. *)
Definition DMF : f32 := f32_of_int 16.
Definition DNF : f32 := f32_of_int 100.

(** A point within [radius] horizontally and [height] vertically of [c]: the
    test [insidebase] of the three base modes. *)
Definition in_cylinder (radius height : Z) (c o : vec) : bool :=
  let dx := fsub (vx c) (vx o) in
  let dy := fsub (vy c) (vy o) in
  let dz := fsub (vz c) (vz o) in
  fle (fadd (fmul dx dx) (fmul dy dy)) (f32_of_int (radius * radius)) &&
  fle (fabs dz) (f32_of_int height).
