(* ===== verification/Stream.v ===== *)
(** Binary files (shared/tools.h [stream]): what [get] and [put] read and write,
    on a machine that stores the low byte first.

    A stream open for reading is the list of the bytes that are left; what a
    sequence of writes produces is the list of the bytes written. *)
From S2P Require Import Prelude Text Float32.
From Stdlib Require Import Floats.

#[local] Open Scope list_scope.

Abbreviation bytes := (list Z).
Definition byte (b : Z) : Prop := 0 <= b < 256.

(** [read(buf, n)]: what was read; near the end it is less than [n] bytes. *)
Definition read (n : nat) : M bytes bytes := fun l => (take n l, drop n l).
(** The value of bytes, the low one first. *)
Definition le_value (l : bytes) : Z := foldr (fun b v => b + 256 * v) 0 l.
(** [get<T>()] for an unsigned [T] of [n] bytes: 0 when they are not all there. *)
Definition get_n (n : nat) : M bytes Z :=
  l <- read n ;; ret (if (length l =? n)%nat then le_value l else 0).
Definition get_uchar : M bytes Z := get_n 1.
Definition get_short : M bytes Z := v <- get_n 2 ;; ret (if v <? 0x8000 then v else v - 0x10000).
Definition get_uint : M bytes Z := get_n 4.
Definition get_int : M bytes Z := v <- get_n 4 ;; ret (to_int v).
Definition stream_getchar : M bytes Z := l <- read 1 ;; ret (match l with [c] => c | _ => -1 end).

(** [put(v)] for a [T] of [n] bytes, signed or not. *)
Fixpoint put_n (n : nat) (v : Z) : bytes :=
  match n with
  | O => []
  | S n => v mod 256 :: put_n n (v / 256)
  end.
Definition putstring (s : cstring) : bytes := s.

(** ** The four bytes of a [float] *)
Definition f32_of_bits (b : Z) : f32 :=
  let s := Z.testbit b 31 in
  let e := Z.land (Z.shiftr b 23) 255 in
  let m := Z.land b 0x7FFFFF in
  if e =? 255 then (if m =? 0 then S754_infinity s else S754_nan)
  else if e =? 0 then match m with Zpos p => S754_finite s p (-149) | _ => S754_zero s end
  else match m + 0x800000 with Zpos p => S754_finite s p (e - 150) | _ => S754_nan end.
(** A NaN has lost its payload. *)
Definition bits_of_f32 (x : f32) : Z :=
  match x with
  | S754_zero s => Z.b2z s * 0x80000000
  | S754_infinity s => Z.b2z s * 0x80000000 + 0x7F800000
  | S754_nan => 0x7FC00000
  | S754_finite s m e =>
    Z.b2z s * 0x80000000 +
    (if Zpos m <? 0x800000 then Zpos m else (e + 150) * 0x800000 + (Zpos m - 0x800000))
  end.
(** The numbers a [float] can hold, and no NaN. *)
Definition is_f32 (x : f32) : Prop :=
  match x with
  | S754_nan => False
  | S754_finite _ m e =>
    Zpos m < 0x800000 /\ e = -149 \/ 0x800000 <= Zpos m < 0x1000000 /\ -149 <= e <= 104
  | _ => True
  end.
Lemma bits_of_f32_range x : is_f32 x -> 0 <= bits_of_f32 x < 2 ^ 32.
Proof.
  destruct x as [s|s| |s m e]; [by destruct s|by destruct s|done|]. cbn [is_f32 bits_of_f32].
  intros [[H ->]|[H He]]; destruct (Z.ltb_spec (Zpos m) 0x800000); destruct s; cbn [Z.b2z]; lia.
Qed.
Lemma f32_bits_split (s : bool) e m :
  0 <= e < 256 -> 0 <= m < 0x800000 ->
  let b := Z.b2z s * 0x80000000 + e * 0x800000 + m in
  Z.testbit b 31 = s /\ Z.land (Z.shiftr b 23) 255 = e /\ Z.land b 0x7FFFFF = m.
Proof.
  intros He Hm b. split_and!.
  - rewrite -> Z.testbit_eqb by lia. change (2 ^ 31) with 0x80000000.
    assert (b / 0x80000000 = Z.b2z s) as -> by (symmetry; apply Z.div_unique with (e * 0x800000 + m); unfold b; lia).
    by destruct s.
  - change 255 with (Z.ones 8). rewrite -> Z.land_ones by lia. rewrite -> Z.shiftr_div_pow2 by lia.
    assert (b / 2 ^ 23 = Z.b2z s * 256 + e) as -> by (symmetry; apply Z.div_unique with m; unfold b; lia).
    symmetry. apply Z.mod_unique with (Z.b2z s); lia.
  - change 0x7FFFFF with (Z.ones 23). rewrite -> Z.land_ones by lia. symmetry.
    apply Z.mod_unique with (Z.b2z s * 256 + e); unfold b; lia.
Qed.
Lemma f32_of_bits_of x : is_f32 x -> f32_of_bits (bits_of_f32 x) = x.
Proof.
  destruct x as [s|s| |s m e]; [by destruct s|by destruct s|done|]. cbn [is_f32 bits_of_f32]. intros Hx.
  assert (exists e' m', 0 <= e' < 256 /\ 0 <= m' < 0x800000 /\
    (if Zpos m <? 0x800000 then Zpos m else (e + 150) * 0x800000 + (Zpos m - 0x800000)) = e' * 0x800000 + m' /\
    (e' = 0 /\ m' = Zpos m /\ e = -149 \/ 0 < e' < 255 /\ m' + 0x800000 = Zpos m /\ e' - 150 = e))
    as (e'&m'&He&Hm&->&Hc).
  { destruct Hx as [[H ->]|[H He]]; destruct (Z.ltb_spec (Zpos m) 0x800000); try lia.
    - exists 0, (Zpos m). lia.
    - exists (e + 150), (Zpos m - 0x800000). lia. }
  rw Z.add_assoc. destruct (f32_bits_split s e' m' He Hm) as (H1&H2&H3). unfold f32_of_bits. rw H1 H2 H3.
  destruct Hc as [(->&->&->)|(Hr&Em&Ee)]; [done|].
  destruct (Z.eqb_spec e' 255); [lia|]. destruct (Z.eqb_spec e' 0); [lia|]. by rw Em Ee.
Qed.
Definition get_float : M bytes f32 := v <- get_n 4 ;; ret (f32_of_bits v).
Definition put_float (x : f32) : bytes := put_n 4 (bits_of_f32 x).

(** * Reading what was written *)

Lemma length_put n v : length (put_n n v) = n.
Proof. revert v. induction n as [|n IH]; intros v; cbn [put_n length]; [done|by rw IH]. Qed.
Lemma le_put n v : le_value (put_n n v) = v mod 256 ^ Z.of_nat n.
Proof.
  revert v. induction n as [|n IH]; intros v; [by rw Z.mod_1_r|]. cbn [put_n le_value foldr]. fold (le_value (put_n n (v / 256))).
  rw IH Nat2Z.inj_succ. rewrite -> Z.pow_succ_r by lia. symmetry. rewrite -> Z.rem_mul_r; lia.
Qed.
Lemma put_bytes n v : Forall byte (put_n n v).
Proof.
  revert v. induction n as [|n IH]; intros v; constructor; [apply Z.mod_pos_bound; lia|apply IH].
Qed.
Lemma get_end n : (0 < n)%nat -> get_n n [] = (0, []).
Proof. by destruct n; [lia|]. Qed.

(** Reading a number from a file that has been cut after [k] bytes. *)
Lemma get_take n k v l :
  get_n n (take k (put_n n v ++ l)) =
  if (n <=? k)%nat then (v mod 256 ^ Z.of_nat n, take (k - n) l) else (0, []).
Proof.
  unfold get_n, read, bind, ret. rw take_take take_app length_put. destruct (Nat.leb_spec n k).
  - rewrite -> Nat.min_l by lia. rewrite -> Nat.sub_diag, take_0, app_nil_r.
    rewrite -> take_ge by (rw length_put; lia). rw length_put Nat.eqb_refl le_put. f_equal.
    rw skipn_firstn_comm. by rewrite -> drop_app_length' by (by rw length_put).
  - rewrite -> Nat.min_r by lia. replace (k - n)%nat with 0%nat by lia. rw take_0 app_nil_r.
    rw length_take length_put. destruct (Nat.eqb_spec (k `min` n)%nat n); [lia|].
    rewrite -> drop_ge; [done|]. rw length_take. lia.
Qed.
Lemma get_put n v l : get_n n (put_n n v ++ l) = (v mod 256 ^ Z.of_nat n, l).
Proof.
  pose proof (get_take n (n + length l) v l) as H.
  rewrite -> take_ge in H by (rw length_app length_put; lia). rw H. clear H.
  destruct (Nat.leb_spec n (n + length l)); [|lia]. f_equal. apply take_ge. lia.
Qed.
