(* ===== verification/Game.v ===== *)
(** Game rules shared by the client and the server (fpsgame/game.h): entity and
    weapon numbers, game modes, message numbers and sizes, item and weapon
    statistics, and the health/armour/ammo state [fpsstate] with its
    operations. *)
From S2P Require Import Prelude.

#[local] Open Scope string_scope.
#[local] Open Scope list_scope.
#[local] Open Scope Z_scope.

(** * Entity types, weapons, armour *)

Definition NOTUSED : Z := 0.
Definition LIGHT : Z := 1.
Definition MAPMODEL : Z := 2.
Definition PLAYERSTART : Z := 3.
Definition ENVMAP : Z := 4.
Definition PARTICLES : Z := 5.
Definition MAPSOUND : Z := 6.
Definition SPOTLIGHT : Z := 7.
Definition I_SHELLS : Z := 8.
Definition I_BULLETS : Z := 9.
Definition I_ROCKETS : Z := 10.
Definition I_ROUNDS : Z := 11.
Definition I_GRENADES : Z := 12.
Definition I_CARTRIDGES : Z := 13.
Definition I_HEALTH : Z := 14.
Definition I_BOOST : Z := 15.
Definition I_GREENARMOUR : Z := 16.
Definition I_YELLOWARMOUR : Z := 17.
Definition I_QUAD : Z := 18.
Definition TELEPORT : Z := 19.
Definition TELEDEST : Z := 20.
Definition MONSTER : Z := 21.
Definition CARROT : Z := 22.
Definition JUMPPAD : Z := 23.
Definition BASE : Z := 24.
Definition RESPAWNPOINT : Z := 25.
Definition BOX : Z := 26.
Definition BARREL : Z := 27.
Definition PLATFORM : Z := 28.
Definition ELEVATOR : Z := 29.
Definition FLAG : Z := 30.
Definition MAXENTTYPES : Z := 31.
Definition MAXENTS : Z := 10000.

Definition GUN_FIST : Z := 0.
Definition GUN_SG : Z := 1.
Definition GUN_CG : Z := 2.
Definition GUN_RL : Z := 3.
Definition GUN_RIFLE : Z := 4.
Definition GUN_GL : Z := 5.
Definition GUN_PISTOL : Z := 6.
Definition GUN_FIREBALL : Z := 7.
Definition GUN_ICEBALL : Z := 8.
Definition GUN_SLIMEBALL : Z := 9.
Definition GUN_BITE : Z := 10.
Definition GUN_BARREL : Z := 11.
Definition NUMGUNS : Z := 12.

Definition A_BLUE : Z := 0.
Definition A_GREEN : Z := 1.
Definition A_YELLOW : Z := 2.

(** * Game modes *)

Definition M_TEAM : Z := Z.shiftl 1 0.
Definition M_NOITEMS : Z := Z.shiftl 1 1.
Definition M_NOAMMO : Z := Z.shiftl 1 2.
Definition M_INSTA : Z := Z.shiftl 1 3.
Definition M_EFFICIENCY : Z := Z.shiftl 1 4.
Definition M_TACTICS : Z := Z.shiftl 1 5.
Definition M_CAPTURE : Z := Z.shiftl 1 6.
Definition M_REGEN : Z := Z.shiftl 1 7.
Definition M_CTF : Z := Z.shiftl 1 8.
Definition M_PROTECT : Z := Z.shiftl 1 9.
Definition M_HOLD : Z := Z.shiftl 1 10.
Definition M_EDIT : Z := Z.shiftl 1 12.
Definition M_DEMO : Z := Z.shiftl 1 13.
Definition M_LOCAL : Z := Z.shiftl 1 14.
Definition M_LOBBY : Z := Z.shiftl 1 15.
Definition M_DMSP : Z := Z.shiftl 1 16.
Definition M_CLASSICSP : Z := Z.shiftl 1 17.
Definition M_SLOWMO : Z := Z.shiftl 1 18.
Definition M_COLLECT : Z := Z.shiftl 1 19.

Fixpoint lor_all (l : list Z) : Z :=
  match l with [] => 0 | x :: l => Z.lor x (lor_all l) end.

Record gamemodeinfo := mkgamemodeinfo { gm_name : string; gm_flags : Z }.

Definition gamemodes : list gamemodeinfo := [
  mkgamemodeinfo "SP" (lor_all [M_LOCAL; M_CLASSICSP]);
  mkgamemodeinfo "DMSP" (lor_all [M_LOCAL; M_DMSP]);
  mkgamemodeinfo "demo" (lor_all [M_DEMO; M_LOCAL]);
  mkgamemodeinfo "ffa" (lor_all [M_LOBBY]);
  mkgamemodeinfo "coop edit" (lor_all [M_EDIT]);
  mkgamemodeinfo "teamplay" (lor_all [M_TEAM]);
  mkgamemodeinfo "instagib" (lor_all [M_NOITEMS; M_INSTA]);
  mkgamemodeinfo "insta team" (lor_all [M_NOITEMS; M_INSTA; M_TEAM]);
  mkgamemodeinfo "efficiency" (lor_all [M_NOITEMS; M_EFFICIENCY]);
  mkgamemodeinfo "effic team" (lor_all [M_NOITEMS; M_EFFICIENCY; M_TEAM]);
  mkgamemodeinfo "tactics" (lor_all [M_NOITEMS; M_TACTICS]);
  mkgamemodeinfo "tac team" (lor_all [M_NOITEMS; M_TACTICS; M_TEAM]);
  mkgamemodeinfo "capture" (lor_all [M_NOAMMO; M_TACTICS; M_CAPTURE; M_TEAM]);
  mkgamemodeinfo "regen capture" (lor_all [M_NOITEMS; M_CAPTURE; M_REGEN; M_TEAM]);
  mkgamemodeinfo "ctf" (lor_all [M_CTF; M_TEAM]);
  mkgamemodeinfo "insta ctf" (lor_all [M_NOITEMS; M_INSTA; M_CTF; M_TEAM]);
  mkgamemodeinfo "protect" (lor_all [M_CTF; M_PROTECT; M_TEAM]);
  mkgamemodeinfo "insta protect" (lor_all [M_NOITEMS; M_INSTA; M_CTF; M_PROTECT; M_TEAM]);
  mkgamemodeinfo "hold" (lor_all [M_CTF; M_HOLD; M_TEAM]);
  mkgamemodeinfo "insta hold" (lor_all [M_NOITEMS; M_INSTA; M_CTF; M_HOLD; M_TEAM]);
  mkgamemodeinfo "effic ctf" (lor_all [M_NOITEMS; M_EFFICIENCY; M_CTF; M_TEAM]);
  mkgamemodeinfo "effic protect" (lor_all [M_NOITEMS; M_EFFICIENCY; M_CTF; M_PROTECT; M_TEAM]);
  mkgamemodeinfo "effic hold" (lor_all [M_NOITEMS; M_EFFICIENCY; M_CTF; M_HOLD; M_TEAM]);
  mkgamemodeinfo "collect" (lor_all [M_COLLECT; M_TEAM]);
  mkgamemodeinfo "insta collect" (lor_all [M_NOITEMS; M_INSTA; M_COLLECT; M_TEAM]);
  mkgamemodeinfo "effic collect" (lor_all [M_NOITEMS; M_EFFICIENCY; M_COLLECT; M_TEAM])
].

Definition STARTGAMEMODE : Z := -3.
Definition NUMGAMEMODES : Z := zlength gamemodes.

Definition mode_flags (mode : Z) : Z :=
  from_option gm_flags 0 (gamemodes .! (mode - STARTGAMEMODE)).
Definition m_valid (mode : Z) : bool :=
  (STARTGAMEMODE <=? mode) && (mode <? STARTGAMEMODE + NUMGAMEMODES).
Definition m_check (mode flag : Z) : bool :=
  m_valid mode && negb (Z.land (mode_flags mode) flag =? 0).
Definition m_checknot (mode flag : Z) : bool :=
  m_valid mode && (Z.land (mode_flags mode) flag =? 0).
Definition m_checkall (mode flag : Z) : bool :=
  m_valid mode && (Z.land (mode_flags mode) flag =? flag).
Definition m_checkonly (mode flag exclude : Z) : bool :=
  m_valid mode && (Z.land (mode_flags mode) (Z.lor flag exclude) =? flag).

(** The mode predicates, as functions of the global [gamemode]. *)
Section modes.
Variable gamemode : Z.
Definition m_noitems : bool := m_check gamemode M_NOITEMS.
Definition m_noammo : bool := m_check gamemode (Z.lor M_NOAMMO M_NOITEMS).
Definition m_insta : bool := m_check gamemode M_INSTA.
Definition m_tactics : bool := m_check gamemode M_TACTICS.
Definition m_efficiency : bool := m_check gamemode M_EFFICIENCY.
Definition m_capture : bool := m_check gamemode M_CAPTURE.
Definition m_capture_only : bool := m_checkonly gamemode M_CAPTURE M_REGEN.
Definition m_regencapture : bool := m_checkall gamemode (Z.lor M_CAPTURE M_REGEN).
Definition m_ctf : bool := m_check gamemode M_CTF.
Definition m_ctf_only : bool := m_checkonly gamemode M_CTF (Z.lor M_PROTECT M_HOLD).
Definition m_protect : bool := m_checkall gamemode (Z.lor M_CTF M_PROTECT).
Definition m_hold : bool := m_checkall gamemode (Z.lor M_CTF M_HOLD).
Definition m_collect : bool := m_check gamemode M_COLLECT.
Definition m_teammode : bool := m_check gamemode M_TEAM.
Definition m_demo : bool := m_check gamemode M_DEMO.
Definition m_edit : bool := m_check gamemode M_EDIT.
Definition m_lobby : bool := m_check gamemode M_LOBBY.
Definition m_timed : bool := m_checknot gamemode (lor_all [M_DEMO; M_EDIT; M_LOCAL]).
Definition m_botmode : bool := m_checknot gamemode (Z.lor M_DEMO M_LOCAL).
Definition m_sp : bool := m_check gamemode (Z.lor M_DMSP M_CLASSICSP).
Definition m_dmsp : bool := m_check gamemode M_DMSP.
Definition m_classicsp : bool := m_check gamemode M_CLASSICSP.
End modes.
Definition m_mp (mode : Z) : bool := m_checknot mode M_LOCAL.

(** Master modes and privileges. *)
Definition MM_AUTH : Z := -1.
Definition MM_OPEN : Z := 0.
Definition MM_VETO : Z := 1.
Definition MM_LOCKED : Z := 2.
Definition MM_PRIVATE : Z := 3.
Definition MM_PASSWORD : Z := 4.
Definition MM_START : Z := -1.
Definition mastermodenames : list string :=
  ["auth"; "open"; "veto"; "locked"; "private"; "password"].
Definition PRIV_NONE : Z := 0.
Definition PRIV_MASTER : Z := 1.
Definition PRIV_AUTH : Z := 2.
Definition PRIV_ADMIN : Z := 3.

(** * Network messages *)

Inductive msg : Set :=
  | N_CONNECT | N_SERVINFO | N_WELCOME | N_INITCLIENT | N_POS | N_TEXT
  | N_SOUND | N_CDIS | N_SHOOT | N_EXPLODE | N_SUICIDE | N_DIED
  | N_DAMAGE | N_HITPUSH | N_SHOTFX | N_EXPLODEFX | N_TRYSPAWN | N_SPAWNSTATE
  | N_SPAWN | N_FORCEDEATH | N_GUNSELECT | N_TAUNT | N_MAPCHANGE | N_MAPVOTE
  | N_TEAMINFO | N_ITEMSPAWN | N_ITEMPICKUP | N_ITEMACC | N_TELEPORT | N_JUMPPAD
  | N_PING | N_PONG | N_CLIENTPING | N_TIMEUP | N_FORCEINTERMISSION | N_SERVMSG
  | N_ITEMLIST | N_RESUME | N_EDITMODE | N_EDITENT | N_EDITF | N_EDITT
  | N_EDITM | N_FLIP | N_COPY | N_PASTE | N_ROTATE | N_REPLACE
  | N_DELCUBE | N_REMIP | N_EDITVSLOT | N_UNDO | N_REDO | N_NEWMAP
  | N_GETMAP | N_SENDMAP | N_CLIPBOARD | N_EDITVAR | N_MASTERMODE | N_KICK
  | N_CLEARBANS | N_CURRENTMASTER | N_SPECTATOR | N_SETMASTER | N_SETTEAM | N_BASES
  | N_BASEINFO | N_BASESCORE | N_REPAMMO | N_BASEREGEN | N_ANNOUNCE | N_LISTDEMOS
  | N_SENDDEMOLIST | N_GETDEMO | N_SENDDEMO | N_DEMOPLAYBACK | N_RECORDDEMO | N_STOPDEMO
  | N_CLEARDEMOS | N_TAKEFLAG | N_RETURNFLAG | N_RESETFLAG | N_INVISFLAG | N_TRYDROPFLAG
  | N_DROPFLAG | N_SCOREFLAG | N_INITFLAGS | N_SAYTEAM | N_CLIENT | N_AUTHTRY
  | N_AUTHKICK | N_AUTHCHAL | N_AUTHANS | N_REQAUTH | N_PAUSEGAME | N_GAMESPEED
  | N_ADDBOT | N_DELBOT | N_INITAI | N_FROMAI | N_BOTLIMIT | N_BOTBALANCE
  | N_MAPCRC | N_CHECKMAPS | N_SWITCHNAME | N_SWITCHMODEL | N_SWITCHTEAM | N_INITTOKENS
  | N_TAKETOKEN | N_EXPIRETOKENS | N_DROPTOKENS | N_DEPOSITTOKENS | N_STEALTOKENS | N_SERVCMD
  | N_DEMOPACKET
.
Definition msg_code (m : msg) : Z :=
  match m with
  | N_CONNECT => 0 | N_SERVINFO => 1 | N_WELCOME => 2 | N_INITCLIENT => 3
  | N_POS => 4 | N_TEXT => 5 | N_SOUND => 6 | N_CDIS => 7
  | N_SHOOT => 8 | N_EXPLODE => 9 | N_SUICIDE => 10 | N_DIED => 11
  | N_DAMAGE => 12 | N_HITPUSH => 13 | N_SHOTFX => 14 | N_EXPLODEFX => 15
  | N_TRYSPAWN => 16 | N_SPAWNSTATE => 17 | N_SPAWN => 18 | N_FORCEDEATH => 19
  | N_GUNSELECT => 20 | N_TAUNT => 21 | N_MAPCHANGE => 22 | N_MAPVOTE => 23
  | N_TEAMINFO => 24 | N_ITEMSPAWN => 25 | N_ITEMPICKUP => 26 | N_ITEMACC => 27
  | N_TELEPORT => 28 | N_JUMPPAD => 29 | N_PING => 30 | N_PONG => 31
  | N_CLIENTPING => 32 | N_TIMEUP => 33 | N_FORCEINTERMISSION => 34 | N_SERVMSG => 35
  | N_ITEMLIST => 36 | N_RESUME => 37 | N_EDITMODE => 38 | N_EDITENT => 39
  | N_EDITF => 40 | N_EDITT => 41 | N_EDITM => 42 | N_FLIP => 43
  | N_COPY => 44 | N_PASTE => 45 | N_ROTATE => 46 | N_REPLACE => 47
  | N_DELCUBE => 48 | N_REMIP => 49 | N_EDITVSLOT => 50 | N_UNDO => 51
  | N_REDO => 52 | N_NEWMAP => 53 | N_GETMAP => 54 | N_SENDMAP => 55
  | N_CLIPBOARD => 56 | N_EDITVAR => 57 | N_MASTERMODE => 58 | N_KICK => 59
  | N_CLEARBANS => 60 | N_CURRENTMASTER => 61 | N_SPECTATOR => 62 | N_SETMASTER => 63
  | N_SETTEAM => 64 | N_BASES => 65 | N_BASEINFO => 66 | N_BASESCORE => 67
  | N_REPAMMO => 68 | N_BASEREGEN => 69 | N_ANNOUNCE => 70 | N_LISTDEMOS => 71
  | N_SENDDEMOLIST => 72 | N_GETDEMO => 73 | N_SENDDEMO => 74 | N_DEMOPLAYBACK => 75
  | N_RECORDDEMO => 76 | N_STOPDEMO => 77 | N_CLEARDEMOS => 78 | N_TAKEFLAG => 79
  | N_RETURNFLAG => 80 | N_RESETFLAG => 81 | N_INVISFLAG => 82 | N_TRYDROPFLAG => 83
  | N_DROPFLAG => 84 | N_SCOREFLAG => 85 | N_INITFLAGS => 86 | N_SAYTEAM => 87
  | N_CLIENT => 88 | N_AUTHTRY => 89 | N_AUTHKICK => 90 | N_AUTHCHAL => 91
  | N_AUTHANS => 92 | N_REQAUTH => 93 | N_PAUSEGAME => 94 | N_GAMESPEED => 95
  | N_ADDBOT => 96 | N_DELBOT => 97 | N_INITAI => 98 | N_FROMAI => 99
  | N_BOTLIMIT => 100 | N_BOTBALANCE => 101 | N_MAPCRC => 102 | N_CHECKMAPS => 103
  | N_SWITCHNAME => 104 | N_SWITCHMODEL => 105 | N_SWITCHTEAM => 106 | N_INITTOKENS => 107
  | N_TAKETOKEN => 108 | N_EXPIRETOKENS => 109 | N_DROPTOKENS => 110 | N_DEPOSITTOKENS => 111
  | N_STEALTOKENS => 112 | N_SERVCMD => 113 | N_DEMOPACKET => 114
  end.

(** The messages in the order of their numbers. *)
Definition all_msgs : list msg := [
  N_CONNECT; N_SERVINFO; N_WELCOME; N_INITCLIENT; N_POS; N_TEXT;
  N_SOUND; N_CDIS; N_SHOOT; N_EXPLODE; N_SUICIDE; N_DIED;
  N_DAMAGE; N_HITPUSH; N_SHOTFX; N_EXPLODEFX; N_TRYSPAWN; N_SPAWNSTATE;
  N_SPAWN; N_FORCEDEATH; N_GUNSELECT; N_TAUNT; N_MAPCHANGE; N_MAPVOTE;
  N_TEAMINFO; N_ITEMSPAWN; N_ITEMPICKUP; N_ITEMACC; N_TELEPORT; N_JUMPPAD;
  N_PING; N_PONG; N_CLIENTPING; N_TIMEUP; N_FORCEINTERMISSION; N_SERVMSG;
  N_ITEMLIST; N_RESUME; N_EDITMODE; N_EDITENT; N_EDITF; N_EDITT;
  N_EDITM; N_FLIP; N_COPY; N_PASTE; N_ROTATE; N_REPLACE;
  N_DELCUBE; N_REMIP; N_EDITVSLOT; N_UNDO; N_REDO; N_NEWMAP;
  N_GETMAP; N_SENDMAP; N_CLIPBOARD; N_EDITVAR; N_MASTERMODE; N_KICK;
  N_CLEARBANS; N_CURRENTMASTER; N_SPECTATOR; N_SETMASTER; N_SETTEAM; N_BASES;
  N_BASEINFO; N_BASESCORE; N_REPAMMO; N_BASEREGEN; N_ANNOUNCE; N_LISTDEMOS;
  N_SENDDEMOLIST; N_GETDEMO; N_SENDDEMO; N_DEMOPLAYBACK; N_RECORDDEMO; N_STOPDEMO;
  N_CLEARDEMOS; N_TAKEFLAG; N_RETURNFLAG; N_RESETFLAG; N_INVISFLAG; N_TRYDROPFLAG;
  N_DROPFLAG; N_SCOREFLAG; N_INITFLAGS; N_SAYTEAM; N_CLIENT; N_AUTHTRY;
  N_AUTHKICK; N_AUTHCHAL; N_AUTHANS; N_REQAUTH; N_PAUSEGAME; N_GAMESPEED;
  N_ADDBOT; N_DELBOT; N_INITAI; N_FROMAI; N_BOTLIMIT; N_BOTBALANCE;
  N_MAPCRC; N_CHECKMAPS; N_SWITCHNAME; N_SWITCHMODEL; N_SWITCHTEAM; N_INITTOKENS;
  N_TAKETOKEN; N_EXPIRETOKENS; N_DROPTOKENS; N_DEPOSITTOKENS; N_STEALTOKENS; N_SERVCMD;
  N_DEMOPACKET].
Definition NUMMSG : Z := zlength all_msgs.
Definition msg_of_code (n : Z) : option msg := all_msgs .! n.

Lemma msg_of_code_code m : msg_of_code (msg_code m) = Some m.
Proof. by destruct m. Qed.
#[global] Instance msg_code_inj : Inj (=) (=) msg_code.
Proof.
  intros a b E. assert (Some a = Some b) as [= ->]; [|done].
  by rw -!msg_of_code_code E.
Qed.
#[global] Instance msg_eq_dec : EqDecision msg.
Proof.
  intros a b. destruct (decide (msg_code a = msg_code b)) as [E|E].
  - left. by apply (inj msg_code).
  - right. by intros ->.
Defined.
Lemma msg_code_range m : 0 <= msg_code m < NUMMSG.
Proof. eapply zlookup_Some_range, msg_of_code_code. Qed.

(** Sizes inclusive of the message token; 0 for variable or unchecked sizes. *)
Definition msgsizes : list (msg * Z) := [
  (N_CONNECT, 0); (N_SERVINFO, 0); (N_WELCOME, 1); (N_INITCLIENT, 0);
  (N_POS, 0); (N_TEXT, 0); (N_SOUND, 2); (N_CDIS, 2);
  (N_SHOOT, 0); (N_EXPLODE, 0); (N_SUICIDE, 1); (N_DIED, 5);
  (N_DAMAGE, 6); (N_HITPUSH, 7); (N_SHOTFX, 10); (N_EXPLODEFX, 4);
  (N_TRYSPAWN, 1); (N_SPAWNSTATE, 14); (N_SPAWN, 3); (N_FORCEDEATH, 2);
  (N_GUNSELECT, 2); (N_TAUNT, 1); (N_MAPCHANGE, 0); (N_MAPVOTE, 0);
  (N_TEAMINFO, 0); (N_ITEMSPAWN, 2); (N_ITEMPICKUP, 2); (N_ITEMACC, 3);
  (N_PING, 2); (N_PONG, 2); (N_CLIENTPING, 2); (N_TIMEUP, 2);
  (N_FORCEINTERMISSION, 1); (N_SERVMSG, 0); (N_ITEMLIST, 0); (N_RESUME, 0);
  (N_EDITMODE, 2); (N_EDITENT, 11); (N_EDITF, 16); (N_EDITT, 16);
  (N_EDITM, 16); (N_FLIP, 14); (N_COPY, 14); (N_PASTE, 14);
  (N_ROTATE, 15); (N_REPLACE, 17); (N_DELCUBE, 14); (N_REMIP, 1);
  (N_EDITVSLOT, 16); (N_UNDO, 0); (N_REDO, 0); (N_NEWMAP, 2);
  (N_GETMAP, 1); (N_SENDMAP, 0); (N_EDITVAR, 0); (N_MASTERMODE, 2);
  (N_KICK, 0); (N_CLEARBANS, 1); (N_CURRENTMASTER, 0); (N_SPECTATOR, 3);
  (N_SETMASTER, 0); (N_SETTEAM, 0); (N_BASES, 0); (N_BASEINFO, 0);
  (N_BASESCORE, 0); (N_REPAMMO, 1); (N_BASEREGEN, 6); (N_ANNOUNCE, 2);
  (N_LISTDEMOS, 1); (N_SENDDEMOLIST, 0); (N_GETDEMO, 3); (N_SENDDEMO, 0);
  (N_DEMOPLAYBACK, 3); (N_RECORDDEMO, 2); (N_STOPDEMO, 1); (N_CLEARDEMOS, 2);
  (N_TAKEFLAG, 3); (N_RETURNFLAG, 4); (N_RESETFLAG, 6); (N_INVISFLAG, 3);
  (N_TRYDROPFLAG, 1); (N_DROPFLAG, 7); (N_SCOREFLAG, 10); (N_INITFLAGS, 0);
  (N_SAYTEAM, 0); (N_CLIENT, 0); (N_AUTHTRY, 0); (N_AUTHKICK, 0);
  (N_AUTHCHAL, 0); (N_AUTHANS, 0); (N_REQAUTH, 0); (N_PAUSEGAME, 0);
  (N_GAMESPEED, 0); (N_ADDBOT, 2); (N_DELBOT, 1); (N_INITAI, 0);
  (N_FROMAI, 2); (N_BOTLIMIT, 2); (N_BOTBALANCE, 2); (N_MAPCRC, 0);
  (N_CHECKMAPS, 1); (N_SWITCHNAME, 0); (N_SWITCHMODEL, 2); (N_SWITCHTEAM, 0);
  (N_INITTOKENS, 0); (N_TAKETOKEN, 2); (N_EXPIRETOKENS, 0); (N_DROPTOKENS, 0);
  (N_DEPOSITTOKENS, 2); (N_STEALTOKENS, 0); (N_SERVCMD, 0); (N_DEMOPACKET, 0)].

(** server.cpp [msgsizelookup]: the table holds -1 where [msgsizes] is silent. *)
Definition sizetable : list Z :=
  fold_left (fun t p => zinsert t (msg_code p.1) p.2) msgsizes
    (replicate (Z.to_nat NUMMSG) (-1)).
Definition msgsizelookup (m : Z) : Z :=
  if (0 <=? m) && (m <? NUMMSG) then default (-1) (sizetable .! m) else -1.

Definition PROTOCOL_VERSION : Z := 260.
Definition MAXNAMELEN : Z := 15.
Definition MAXTEAMLEN : Z := 4.
Definition MAXTEAMS : Z := 128.
Definition MAXTRANS : Z := 5000.
Definition MAXCLIENTS : Z := 128.

(** * Items and weapons *)

Record itemstat := mkitemstat { is_add : Z; is_max : Z; is_name : string; is_info : Z }.

Definition itemstats : list itemstat := [
  mkitemstat 10 30 "SG" GUN_SG;
  mkitemstat 20 60 "CG" GUN_CG;
  mkitemstat 5 15 "RL" GUN_RL;
  mkitemstat 5 15 "RI" GUN_RIFLE;
  mkitemstat 10 30 "GL" GUN_GL;
  mkitemstat 30 120 "PI" GUN_PISTOL;
  mkitemstat 25 100 "H" (-1);
  mkitemstat 100 200 "MH" 50;
  mkitemstat 100 100 "GA" A_GREEN;
  mkitemstat 200 200 "YA" A_YELLOW;
  mkitemstat 20000 30000 "Q" (-1)].

Record guninfo := mkguninfo {
  gi_attackdelay : Z; gi_damage : Z; gi_spread : Z; gi_projspeed : Z;
  gi_kickamount : Z; gi_range : Z; gi_rays : Z; gi_hitpush : Z;
  gi_exprad : Z; gi_ttl : Z; gi_name : string
}.

Definition EXP_SELFDAMDIV : Z := 2.

Definition guns : list guninfo := [
  mkguninfo 250 50 0 0 0 14 1 80 0 0 "fist";
  mkguninfo 1400 10 400 0 20 1024 20 80 0 0 "shotgun";
  mkguninfo 100 30 100 0 7 1024 1 80 0 0 "chaingun";
  mkguninfo 800 120 0 320 10 1024 1 160 40 0 "rocketlauncher";
  mkguninfo 1500 100 0 0 30 2048 1 80 0 0 "rifle";
  mkguninfo 600 90 0 200 10 1024 1 250 45 1500 "grenadelauncher";
  mkguninfo 500 35 50 0 7 1024 1 80 0 0 "pistol";
  mkguninfo 200 20 0 200 1 1024 1 80 40 0 "fireball";
  mkguninfo 200 40 0 120 1 1024 1 80 40 0 "iceball";
  mkguninfo 200 30 0 640 1 1024 1 80 40 0 "slimeball";
  mkguninfo 250 50 0 0 1 12 1 80 0 0 "bite";
  mkguninfo 0 120 0 0 0 0 1 80 40 0 "barrel"].

(** * [fpsstate]: health, armour and ammunition *)

Record fpsstate := mkfpsstate {
  health : Z; maxhealth : Z;
  armour : Z; armourtype : Z;
  quadmillis : Z;
  gunselect : Z; gunwait : Z;
  ammo : list Z;
  aitype : Z; skill : Z
}.
#[export] Instance eta_fpsstate : Eta fpsstate :=
  settable mkfpsstate <health; maxhealth; armour; armourtype; quadmillis; gunselect;
                       gunwait; ammo; aitype; skill>.

Definition AI_NONE : Z := 0.
Definition AI_BOT : Z := 1.

Definition itemstat_of (i : Z) : itemstat := default (mkitemstat 0 0 "" 0) (itemstats .! i).
Definition guninfo_of (gun : Z) : guninfo :=
  default (mkguninfo 0 0 0 0 0 0 0 0 0 0 "") (guns .! gun).
(** [ammo[gun]]; the index is inside the array wherever the server reads it. *)
Definition get_ammo (st : fpsstate) (gun : Z) : Z := default 0 (ammo st .! gun).
Definition set_ammo (gun n : Z) (st : fpsstate) : fpsstate :=
  st <| ammo ::= fun l => zinsert l gun n |>.

Definition baseammo (gun k scale : Z) (st : fpsstate) : fpsstate :=
  set_ammo gun (is_add (itemstat_of (gun - GUN_SG)) * k ÷ scale) st.

Definition addammo (gun k scale : Z) (st : fpsstate) : fpsstate :=
  let it := itemstat_of (gun - GUN_SG) in
  set_ammo gun (tmin (get_ammo st gun + is_add it * k ÷ scale) (is_max it)) st.

Definition hasmaxammo (type : Z) (st : fpsstate) : bool :=
  is_max (itemstat_of (type - I_SHELLS)) <=? get_ammo st (type - I_SHELLS + GUN_SG).

Definition canpickup (type : Z) (st : fpsstate) : bool :=
  if (type <? I_SHELLS) || (I_QUAD <? type) then false else
  let it := itemstat_of (type - I_SHELLS) in
  let yellow := (armourtype st =? 0) || (armour st <? is_max it) in
  if type =? I_BOOST then (maxhealth st <? is_max it) || (health st <? maxhealth st)
  else if type =? I_HEALTH then health st <? maxhealth st
  else if type =? I_GREENARMOUR then
    if (armourtype st =? A_YELLOW) && (100 <=? armour st) then false else yellow
  else if type =? I_YELLOWARMOUR then yellow
  else if type =? I_QUAD then quadmillis st <? is_max it
  else get_ammo st (is_info it) <? is_max it.

Definition pickup_item (type : Z) (st : fpsstate) : fpsstate :=
  if (type <? I_SHELLS) || (I_QUAD <? type) then st else
  let it := itemstat_of (type - I_SHELLS) in
  let add_health st := st <| health := tmin (health st + is_add it) (maxhealth st) |> in
  if type =? I_BOOST then
    add_health (st <| maxhealth := tmin (maxhealth st + is_info it) (is_max it) |>)
  else if type =? I_HEALTH then add_health st
  else if (type =? I_GREENARMOUR) || (type =? I_YELLOWARMOUR) then
    st <| armour := tmin (armour st + is_add it) (is_max it) |>
       <| armourtype := is_info it |>
  else if type =? I_QUAD then
    st <| quadmillis := tmin (quadmillis st + is_add it) (is_max it) |>
  else set_ammo (is_info it)
         (tmin (get_ammo st (is_info it) + is_add it) (is_max it)) st.

Definition fps_respawn (st : fpsstate) : fpsstate :=
  set_ammo GUN_FIST 1
    (st <| maxhealth := 100 |> <| health := 100 |> <| armour := 0 |>
        <| armourtype := A_BLUE |> <| quadmillis := 0 |> <| gunselect := GUN_PISTOL |>
        <| gunwait := 0 |> <| ammo := replicate (Z.to_nat NUMGUNS) 0 |>).

(** The two configuration globals [spawnstate] reads. *)
Record spawnconf := mkspawnconf { hide_and_seek : bool; regenbluearmour : bool }.

Section spawn.
Context {G : Type} `{!RandomSource G}.
Variables (conf : spawnconf) (gamemode : Z).

Definition armoured (type n : Z) (st : fpsstate) : fpsstate :=
  st <| armourtype := type |> <| armour := n |>.

Definition spawn_tactics (st : fpsstate) (g : G) : fpsstate * G :=
  let st := set_ammo GUN_PISTOL 40 (armoured A_GREEN 100 st) in
  let '(r1, g) := rnd 5 g in
  let spawngun1 := r1 + 1 in
  let st := st <| gunselect := spawngun1 |> in
  let k := if m_noitems gamemode then 2 else 1 in
  let st := baseammo spawngun1 k 1 st in
  let '(r2, g) := redraw (redraw_bound g) 5 r1 g in
  let spawngun2 := r2 + 1 in
  let st := baseammo spawngun2 k 1 st in
  (if m_noitems gamemode then set_ammo GUN_GL (get_ammo st GUN_GL + 1) st else st, g).

Definition spawn_efficiency (st : fpsstate) : fpsstate :=
  let st := armoured A_GREEN 100 st in
  let guns5 := [1; 2; 3; 4; 5] in
  if hide_and_seek conf then
    fold_left (fun st i => baseammo i 10 1 st) guns5 st <| gunselect := GUN_GL |>
  else
    let st := fold_left (fun st i => baseammo i 2 1 st) guns5 st <| gunselect := GUN_CG |> in
    set_ammo GUN_CG (get_ammo st GUN_CG ÷ 2) st.

Definition fps_spawnstate (st : fpsstate) (g : G) : fpsstate * G :=
  if m_demo gamemode then (st <| gunselect := GUN_FIST |>, g)
  else if m_insta gamemode then
    (set_ammo GUN_RIFLE 100
       (st <| armour := 0 |> <| health := 1 |> <| gunselect := GUN_RIFLE |>), g)
  else if m_regencapture gamemode then
    let st := if regenbluearmour conf then armoured A_BLUE 25 st else st in
    (set_ammo GUN_GL 1 (set_ammo GUN_PISTOL 40 (st <| gunselect := GUN_PISTOL |>)), g)
  else if m_tactics gamemode then spawn_tactics st g
  else if m_efficiency gamemode then (spawn_efficiency st, g)
  else if m_ctf gamemode || m_collect gamemode then
    (set_ammo GUN_GL 1 (set_ammo GUN_PISTOL 40 (armoured A_BLUE 50 st)), g)
  else if m_sp gamemode then
    let st := if m_dmsp gamemode then armoured A_BLUE 25 st else st in
    (set_ammo GUN_GL 1 (set_ammo GUN_PISTOL 80 st), g)
  else (set_ammo GUN_GL 1 (set_ammo GUN_PISTOL 40 (armoured A_BLUE 25 st)), g).
End spawn.

(** Damage is absorbed by the armour first; the result is what reached the
    health. *)
Definition fps_dodamage (damage : Z) (st : fpsstate) : Z * fpsstate :=
  let ad := to_int (to_int (damage * (armourtype st + 1)) * 25) ÷ 100 in
  let ad := if armour st <? ad then armour st else ad in
  let damage := to_int (damage - ad) in
  (damage, st <| armour := to_int (armour st - ad) |> <| health := to_int (health st - damage) |>).

(** [hasammo] guards with [gun <= NUMGUNS]: [None] is the read past the end of
    [ammo] that [gun = NUMGUNS] makes. *)
Definition hasammo (gun exclude : Z) (st : fpsstate) : option bool :=
  if (0 <=? gun) && (gun <=? NUMGUNS) && negb (gun =? exclude)
  then n ← ammo st .! gun; Some (0 <? n)
  else Some false.
