(* ===== verification/Random.v ===== *)
(** The random numbers of shared/tools.cpp: the Mersenne twister that
    [randomMT] advances one word at a time.  The state is the array [state], the
    index [next] and the clock a generator that was never seeded reads. *)
From S2P Require Import Prelude.

Definition MT_N : Z := 624.
Definition MT_M : Z := 397.
Definition MT_K : Z := 0x9908B0DF.

Record mtstate := mkmt { mt_state : list Z; mt_next : Z; mt_clock : Z }.
#[export] Instance eta_mtstate : Eta mtstate := settable mkmt <mt_state; mt_next; mt_clock>.

Definition mt_initial (clock : Z) : mtstate := mkmt (replicate 624 0) MT_N clock.

(** [state[i] = seed = 1812433253U * (seed ^ (seed >> 30)) + i]. *)
Fixpoint seed_words (n : nat) (i seed : Z) : list Z :=
  match n with
  | O => []
  | S n =>
    let seed := to_uint (1812433253 * Z.lxor seed (Z.shiftr seed 30) + i) in
    seed :: seed_words n (i + 1) seed
  end.
Definition seedMT (seed : Z) (g : mtstate) : mtstate :=
  let seed := to_uint seed in
  g <| mt_state := seed :: seed_words 623 1 seed |> <| mt_next := 0 |>.

Definition mt_word (g : mtstate) (i : Z) : Z := default 0 (mt_state g .! i).

Definition temper (y : Z) : Z :=
  let y := Z.lxor y (Z.shiftr y 11) in
  let y := Z.lxor y (Z.land (to_uint (Z.shiftl y 7)) 0x9D2C5680) in
  let y := Z.lxor y (Z.land (to_uint (Z.shiftl y 15)) 0xEFC60000) in
  Z.lxor y (Z.shiftr y 18).

Definition randomMT (g : mtstate) : Z * mtstate :=
  let cur := mt_next g in
  let g := g <| mt_next := cur + 1 |> in
  let '(cur, g) :=
    if MT_N <=? cur + 1 then
      if MT_N <? cur + 1
      then let g := seedMT (5489 + mt_clock g) g in (mt_next g, g <| mt_next ::= Z.succ |>)
      else (cur, g <| mt_next := 0 |>)
    else (cur, g) in
  let y := Z.lor (Z.land (mt_word g cur) 0x80000000) (Z.land (mt_word g (mt_next g)) 0x7FFFFFFF) in
  let y := Z.lxor (Z.lxor (mt_word g (if cur <? MT_N - MT_M then cur + MT_M else cur + MT_M - MT_N))
                          (Z.shiftr y 1))
                  (if Z.land y 1 =? 0 then 0 else MT_K) in
  (temper y, g <| mt_state ::= fun st => zinsert st cur y |>).

(** The loops that redraw until a value changes are cut after this many draws. *)
#[global] Instance mt_source : RandomSource mtstate := {
  next_random := randomMT;
  redraw_bound _ := 100%nat
}.

(** The generator's own test vector: the first words of seed 5489. *)
Example mt_reference :
  let g := seedMT 5489 (mt_initial 0) in
  let '(a, g) := randomMT g in let '(b, g) := randomMT g in (a, b) = (3499211612, 581869302).
Proof. vm_compute. reflexivity. Qed.

(** * Well-formedness *)

Definition is_uint (n : Z) : Prop := 0 <= n < 4294967296.
#[global] Instance is_uint_dec n : Decision (is_uint n).
Proof. unfold is_uint. apply _. Defined.

Definition mt_wf (g : mtstate) : Prop :=
  zlength (mt_state g) = MT_N /\ Forall is_uint (mt_state g) /\ 0 <= mt_next g <= MT_N.
#[global] Instance mt_wf_dec g : Decision (mt_wf g).
Proof. unfold mt_wf. apply _. Defined.

Lemma to_uint_range n : is_uint (to_uint n).
Proof. unfold to_uint, is_uint. apply Z.mod_pos_bound. lia. Qed.

(** A non-negative number is below [2^32] when it has no bit from 32 on. *)
Lemma is_uint_bits n : is_uint n <-> 0 <= n /\ forall i, 32 <= i -> Z.testbit n i = false.
Proof.
  unfold is_uint. change 4294967296 with (2 ^ 32). split.
  - intros [H0 H]. split; [done|]. intros i Hi.
    rewrite <- (Z.mod_small n (2 ^ 32)) by done. by apply Z.mod_pow2_bits_high.
  - intros [H0 H]. split; [done|]. destruct (Z.eq_dec n 0) as [->|Hn]; [done|].
    apply Z.log2_lt_pow2; [lia|]. destruct (Z.lt_ge_cases (Z.log2 n) 32) as [|Hl]; [done|].
    pose proof (H _ Hl) as Hb. rewrite -> Z.bit_log2 in Hb by lia. done.
Qed.
Lemma uint_lxor a b : is_uint a -> is_uint b -> is_uint (Z.lxor a b).
Proof.
  rw !is_uint_bits. intros [? Ha] [? Hb]. split; [by apply Z.lxor_nonneg|].
  intros i Hi. by rw Z.lxor_spec Ha // Hb.
Qed.
Lemma uint_lor a b : is_uint a -> is_uint b -> is_uint (Z.lor a b).
Proof.
  rw !is_uint_bits. intros [? Ha] [? Hb]. split; [by apply Z.lor_nonneg|].
  intros i Hi. by rw Z.lor_spec Ha // Hb.
Qed.
Lemma uint_land a b : is_uint a -> is_uint (Z.land a b).
Proof.
  rw !is_uint_bits. intros [? Ha]. split; [apply Z.land_nonneg; by left|].
  intros i Hi. by rw Z.land_spec Ha.
Qed.
Lemma uint_shiftr a k : 0 <= k -> is_uint a -> is_uint (Z.shiftr a k).
Proof.
  rw !is_uint_bits. intros Hk [? Ha]. split; [by apply Z.shiftr_nonneg|].
  intros i Hi. rewrite -> Z.shiftr_spec by lia. apply Ha. lia.
Qed.
Create HintDb uint.
#[export] Hint Resolve to_uint_range uint_lxor uint_lor uint_land uint_shiftr : uint.

Lemma temper_range y : is_uint y -> is_uint (temper y).
Proof. intros. unfold temper. eauto 20 with uint lia. Qed.

Lemma mt_word_range g i : mt_wf g -> is_uint (mt_word g i).
Proof.
  intros (_&Hs&_). unfold mt_word. destruct (mt_state g .! i) as [v|] eqn:E; [|done].
  simpl. apply zlookup_elem_of in E. rw Forall_forall in Hs. by apply Hs.
Qed.

Lemma seed_words_ok n : forall i seed,
  length (seed_words n i seed) = n /\ Forall is_uint (seed_words n i seed).
Proof.
  induction n as [|n IH]; intros i seed; [by split|]. cbn [seed_words]. cbv zeta.
  edestruct IH as [Hl Hf]. split; [simpl; f_equal; apply Hl|].
  constructor; [apply to_uint_range|apply Hf].
Qed.
Lemma seedMT_wf seed g : mt_wf (seedMT seed g) /\ mt_next (seedMT seed g) = 0.
Proof.
  unfold mt_wf, seedMT. cbn -[seed_words to_uint zlength].
  edestruct (seed_words_ok 623) as [Hl Hf]. split; [|done]. split_and!.
  - unfold zlength. cbn [length]. rw Hl. done.
  - constructor; [apply to_uint_range|exact Hf].
  - done.
  - done.
Qed.

(** The step after the index has been settled. *)
Lemma mt_step_wf cur g y :
  mt_wf g -> is_uint y -> mt_wf (g <| mt_state ::= fun st => zinsert st cur y |>).
Proof.
  intros (Hl&Hf&Hn) Hy. unfold mt_wf. simpl. rw zlength_zinsert.
  split_and!; try done; try lia. unfold zinsert. case_match; [by apply Forall_insert|done].
Qed.

(** Where a draw reads and writes: a settled state [h] and a word [y] of it. *)
Definition mt_settle (g : mtstate) : Z * mtstate :=
  let cur := mt_next g in
  let g := g <| mt_next := cur + 1 |> in
  if MT_N <=? cur + 1 then
    if MT_N <? cur + 1
    then let g := seedMT (5489 + mt_clock g) g in (mt_next g, g <| mt_next ::= Z.succ |>)
    else (cur, g <| mt_next := 0 |>)
  else (cur, g).

Lemma mt_settle_ok g :
  mt_wf g -> mt_wf (mt_settle g).2 /\ mt_next (mt_settle g).2 < MT_N.
Proof.
  intros (Hl&Hf&Hn). unfold mt_settle. cbv zeta.
  destruct (Z.leb_spec MT_N (mt_next g + 1)); [destruct (Z.ltb_spec MT_N (mt_next g + 1))|].
  - set (g0 := g <| mt_next := mt_next g + 1 |>).
    destruct (seedMT_wf (5489 + mt_clock g0) g0) as [(Hl1&Hf1&Hn1) Hz].
    set (g1 := seedMT _ _) in *. clearbody g1.
    unfold mt_wf. simpl. rw Hz. by split_and!.
  - by split_and!.
  - unfold mt_wf. simpl. split_and!; try done; lia.
Qed.

Lemma randomMT_shape g :
  mt_wf g -> exists cur y, is_uint y /\
    randomMT g = (temper y, (mt_settle g).2 <| mt_state ::= fun st => zinsert st cur y |>).
Proof.
  intros Hwf. destruct (mt_settle_ok g Hwf) as [Hh _].
  unfold randomMT. cbv zeta. fold (mt_settle g).
  destruct (mt_settle g) as [cur h]. simpl in Hh.
  eexists cur, _. split; [|reflexivity].
  repeat first [apply uint_lxor|apply uint_lor|apply uint_land|apply uint_shiftr; [done|]];
    try (by apply mt_word_range); by case_match.
Qed.

(** * Properties *)

(** The generator never leaves its array: from any state of the
    program, seeded or not, [randomMT] returns a 32-bit number and leaves an
    array of the same 624 words with its index inside it, so every later draw is
    safe as well; [rnd(x)] is in [0, x). *)
Theorem randomMT_safe (g : mtstate) (x : Z) :
  mt_wf g -> 0 < x ->
  is_uint (randomMT g).1 /\ mt_wf (randomMT g).2 /\ mt_next (randomMT g).2 < MT_N /\
  0 <= (rnd x g).1 < x.
Proof.
  intros Hwf Hx. destruct (mt_settle_ok g Hwf).
  destruct (randomMT_shape g Hwf) as (cur&y&Hy&E). rw E. simpl.
  split_and!; [by apply temper_range|by apply mt_step_wf|done|by apply rnd_range|by apply rnd_range].
Qed.

Lemma randomMT_safe_witness :
  is_uint (randomMT (mt_initial 7)).1 /\ mt_wf (randomMT (mt_initial 7)).2 /\
  mt_next (randomMT (mt_initial 7)).2 < MT_N /\ 0 <= (rnd 6 (mt_initial 7)).1 < 6.
Proof. apply (randomMT_safe (mt_initial 7) 6); decide_now. Defined.
