(* ===== verification/State.v ===== *)
(** The state of the game server: clients, the match, the items and the three
    base modes, with the primitive reads and updates every handler is made of.

    A [clientinfo *] of the source is the key of a client in the heap [ci_heap];
    the vectors [clients], [connects], [spies] and the slot table of the engine
    hold such keys, so two lists share the client they both point to.  The
    effects that leave the process are appended to [sv_out]; the Lua listeners
    are the programs of the class [Hooks]. *)
From S2P Require Import Prelude Wire Text Float32 Game Random.

(** * Messages *)

(** The arguments of a [sendf] format: integers, strings, raw bytes, floats. *)
Inductive field : Set := FInt (n : Z) | FStr (s : cstring) | FRaw (bs : list Z) | FFloat (x : f32).
Coercion FInt : Z >-> field.
Coercion FStr : cstring >-> field.
#[global] Instance field_eq_dec : EqDecision field.
Proof. unfold EqDecision, Decision. decide equality; apply (decide _). Defined.

Definition message (m : msg) (args : list field) : list field := FInt (msg_code m) :: args.

(** * Events for the Lua side *)
Inductive arg : Set := AInt (n : Z) | AStr (s : list Z) | ABool (b : bool) | AFloat (x : f32) | ANull.
Coercion AInt : Z >-> arg.
Coercion ABool : bool >-> arg.
Record event := mkevent { ev_name : string; ev_args : list arg }.

(** What the server does to the world outside. *)
Inductive output : Set :=
| Deliver (to chan : Z) (fs : list field)
| Record_ (chan : Z) (fs : list field)
| PeerDisconnect (n reason : Z).

(** * Clients *)

Inductive clientstate : Set :=
  CS_ALIVE | CS_DEAD | CS_SPAWNING | CS_LAGGED | CS_EDITING | CS_SPECTATOR.
#[global] Instance clientstate_eq_dec : EqDecision clientstate.
Proof. solve_decision. Defined.
Definition cs_code (c : clientstate) : Z :=
  match c with
  | CS_ALIVE => 0 | CS_DEAD => 1 | CS_SPAWNING => 2
  | CS_LAGGED => 3 | CS_EDITING => 4 | CS_SPECTATOR => 5
  end.
Definition cs_eqb (a b : clientstate) : bool := bool_decide (a = b).

(** [projectilestate<N>]: the used prefix of [projs]; the entries past
    [numprojs] are never read. *)
Definition projectilestate : Set := list Z.
Definition proj_add (N : nat) (val : Z) (p : projectilestate) : projectilestate :=
  (if (N <=? length p)%nat then [] else p) ++ [val].
(** [projs[i] = projs[--numprojs]] at the first [i] that holds [val]. *)
Fixpoint proj_find (val : Z) (p : projectilestate) : option nat :=
  match p with
  | [] => None
  | x :: p => if x =? val then Some O else S <$> proj_find val p
  end.
Definition removeunordered {A} (i : nat) (l : list A) : list A :=
  match last l with
  | Some x => removelast (<[i := x]> l)
  | None => l
  end.
Lemma removeunordered_spec {A} (n : nat) (l : list A) x :
  l !! n = Some x ->
  exists k1 k2 k3, l = k1 ++ x :: k2 /\ length k1 = n /\ removeunordered n l = k1 ++ k3 /\ k3 ≡ₚ k2.
Proof.
  intros (k1&k2&->&->)%list_elem_of_split_length. exists k1, k2. unfold removeunordered.
  destruct k2 as [|y k _] using rev_ind.
  - exists []. rw last_snoc. rewrite -> insert_app_r_alt by lia.
    rw Nat.sub_diag. simpl. rw removelast_last app_nil_r. by split_and!.
  - exists (y :: k). rw app_comm_cons app_assoc last_snoc.
    rw -app_assoc. rewrite -> insert_app_r_alt by lia. rw Nat.sub_diag. simpl.
    split_and!; [done|done| |by rw (Permutation_app_comm k)].
    by rw (app_assoc k1 (y :: k)) removelast_last.
Qed.
Definition proj_remove (val : Z) (p : projectilestate) : bool * projectilestate :=
  match proj_find val p with
  | Some i => (true, removeunordered i p)
  | None => (false, p)
  end.

Record gamestate := mkgamestate {
  fps : fpsstate;
  pos : vec; cam : vec;
  state : clientstate; editstate : clientstate;
  lastdeath : Z; deadflush : Z; lastspawn : Z; lifesequence : Z;
  lastshot : Z;
  rockets : projectilestate; grenades : projectilestate;
  frags : Z; flagscore : Z; deaths : Z; suicides : Z; teamkills : Z;
  shotdamage : Z; damage : Z; explosivedamage : Z; tokens : Z;
  hits : Z; misses : Z; shots : Z;
  lasttimeplayed : Z; timeplayed : Z;
  effectiveness : f32;
  disconnecttime : Z
}.
#[export] Instance eta_gamestate : Eta gamestate := settable mkgamestate
  <fps; pos; cam; state; editstate; lastdeath; deadflush; lastspawn; lifesequence;
   lastshot; rockets; grenades; frags; flagscore; deaths; suicides; teamkills;
   shotdamage; damage; explosivedamage; tokens; hits; misses; shots;
   lasttimeplayed; timeplayed; effectiveness; disconnecttime>.
Coercion fps : gamestate >-> fpsstate.

Definition DEATHMILLIS : Z := 300.

Definition isalive (gamemillis : Z) (gs : gamestate) : bool :=
  cs_eqb (state gs) CS_ALIVE ||
  cs_eqb (state gs) CS_DEAD && (gamemillis - lastdeath gs <=? DEATHMILLIS).
Definition waitexpired (gamemillis : Z) (gs : gamestate) : bool :=
  gunwait gs <=? gamemillis - lastshot gs.

Definition respawn (gs : gamestate) : gamestate :=
  gs <| fps ::= fps_respawn |> <| pos := nowhere |> <| deadflush := 0 |>
     <| lastspawn := -1 |> <| lastshot := 0 |> <| tokens := 0 |>.
Definition gs_reset (gs : gamestate) : gamestate :=
  let gs := if cs_eqb (state gs) CS_SPECTATOR then gs
            else gs <| state := CS_DEAD |> <| editstate := CS_DEAD |> in
  respawn (gs
    <| fps ::= fun st => st <| maxhealth := 100 |> |> <| rockets := [] |> <| grenades := [] |>
    <| timeplayed := 0 |> <| effectiveness := f32_zero |>
    <| frags := 0 |> <| flagscore := 0 |> <| deaths := 0 |> <| suicides := 0 |>
    <| teamkills := 0 |> <| shotdamage := 0 |> <| explosivedamage := 0 |> <| damage := 0 |>
    <| hits := 0 |> <| misses := 0 |> <| shots := 0 |> <| tokens := 0 |>
    <| lastdeath := 0 |>).
Definition gs_reassign (gs : gamestate) : gamestate :=
  respawn gs <| rockets := [] |> <| grenades := [] |>.

(** A fresh [gamestate]: the members the constructors leave unset are zero. *)
Definition fpsstate0 : fpsstate := mkfpsstate 0 100 0 0 0 0 0 (replicate 12%nat 0) AI_NONE 0.
Definition gamestate0 : gamestate :=
  mkgamestate fpsstate0 vec0 vec0 CS_DEAD CS_DEAD 0 0 0 0 0 [] [] 0 0 0 0 0 0 0 0 0 0 0 0 0 0
    f32_zero 0.

Record savedscore := mksavedscore {
  sc_ip : Z; sc_name : cstring;
  sc_frags : Z; sc_flags : Z; sc_deaths : Z; sc_suicides : Z; sc_teamkills : Z;
  sc_shotdamage : Z; sc_explosivedamage : Z; sc_damage : Z; sc_hits : Z; sc_misses : Z;
  sc_shots : Z; sc_timeplayed : Z; sc_effectiveness : f32; sc_disconnecttime : Z
}.
Definition score_save (ip : Z) (name : cstring) (gs : gamestate) : savedscore :=
  mksavedscore ip name (frags gs) (flagscore gs) (deaths gs) (suicides gs) (teamkills gs)
    (shotdamage gs) (explosivedamage gs) (damage gs) (hits gs) (misses gs) (shots gs)
    (timeplayed gs) (effectiveness gs) (disconnecttime gs).
Definition score_restore (sc : savedscore) (gs : gamestate) : gamestate :=
  gs <| frags := sc_frags sc |> <| flagscore := sc_flags sc |> <| deaths := sc_deaths sc |>
     <| suicides := sc_suicides sc |> <| teamkills := sc_teamkills sc |>
     <| shotdamage := sc_shotdamage sc |> <| explosivedamage := sc_explosivedamage sc |>
     <| damage := sc_damage sc |> <| timeplayed := sc_timeplayed sc |>
     <| effectiveness := sc_effectiveness sc |> <| hits := sc_hits sc |>
     <| misses := sc_misses sc |> <| shots := sc_shots sc |>
     <| disconnecttime := sc_disconnecttime sc |>.

(** ** Game events *)
Record hitinfo := mkhit { target : Z; hit_lifesequence : Z; rays : Z; dist : f32; dir : vec }.
Inductive gameevent : Set :=
| shotevent (millis id gun : Z) (from to : vec) (hits : list hitinfo)
| explodeevent (millis id gun : Z) (hits : list hitinfo)
| suicideevent
| pickupevent (ent : Z).
Definition keepable (e : gameevent) : bool :=
  match e with explodeevent _ _ _ _ => true | _ => false end.

(** ** The cheat detector's memory of a client (anticheat.h [class anticheat]) *)
Record anticheat := mkanticheat {
  ac_clientnum : Z;
  pingupdates : Z; lastpingupdates : Z; lastpingsnapshot : Z; speedhack : Z;
  speedhack_updates : Z;
  speedhack2 : Z; speedhack2_lastreset : Z; speedhack2_strangedist_c : Z;
  positionhack : Z;
  speedhack2_dist : f32; speedhack2_strangedist : f32;
  lagged : bool; ac_last_lag : Z;
  lastshoot : Z; lastjumppad : Z; lastteleport : Z; lastdamage : Z; ac_lastspawn : Z;
  spawns : Z; lastjump : Z; lastgun : Z;
  jumphack : Z; jumppads : Z; jumphack_dist : Z;
  invisiblehack_count : Z; invisible_first : Z; invisible_last : Z;
  exceed_position : f32; ignore_exceed : Z; ac_ping : Z;
  last_fall_loc : f32; speedhack2_lastdist : f32; jumpdist : f32; lastjumphack_dist : f32;
  was_falling : bool; ac_pos : vec; initialized : bool
}.
#[export] Instance eta_anticheat : Eta anticheat := settable mkanticheat
  <ac_clientnum; pingupdates; lastpingupdates; lastpingsnapshot; speedhack;
   speedhack_updates; speedhack2; speedhack2_lastreset; speedhack2_strangedist_c;
   positionhack; speedhack2_dist; speedhack2_strangedist; lagged; ac_last_lag; lastshoot;
   lastjumppad; lastteleport; lastdamage; ac_lastspawn; spawns; lastjump; lastgun; jumphack;
   jumppads; jumphack_dist; invisiblehack_count; invisible_first; invisible_last;
   exceed_position; ignore_exceed; ac_ping; last_fall_loc; speedhack2_lastdist; jumpdist;
   lastjumphack_dist; was_falling; ac_pos; initialized>.
Definition anticheat0 : anticheat :=
  mkanticheat 0 0 0 0 0 0 0 0 0 0 f32_zero f32_zero false 0 0 0 0 0 0 0 0 0 0 0 0 0 0 0
    f32_zero 0 0 f32_zero f32_zero f32_zero f32_zero false vec0 false.

(** When the client last did what may only be done so often. *)
Record resends := mkresends {
  n_text_millis : Z; n_sayteam_millis : Z; n_mapvote_millis : Z; n_switchname_millis : Z;
  n_switchteam_millis : Z; n_kick_millis : Z; n_remip_millis : Z; n_newmap_millis : Z;
  n_spec_millis : Z
}.
#[export] Instance eta_resends : Eta resends := settable mkresends
  <n_text_millis; n_sayteam_millis; n_mapvote_millis; n_switchname_millis;
   n_switchteam_millis; n_kick_millis; n_remip_millis; n_newmap_millis; n_spec_millis>.
Definition resends0 : resends := mkresends 0 0 0 0 0 0 0 0 0.

Record clientinfo := mkclientinfo {
  ci_n : Z;
  clientnum : Z; ownernum : Z; connectmillis : Z; specmillis : Z; sessionid : Z;
  overflow : Z; playerid : Z;
  name : cstring; team : cstring; mapvote : cstring;
  playermodel : Z; modevote : Z;
  privilege : Z; hide_privilege : bool;
  connected : bool; local : bool; timesync : bool;
  gameoffset : Z; lastevent : Z; pushed : Z; exceeded : Z;
  ci_state : gamestate;
  events : list gameevent;
  position : list Z; messages : list Z;
  ci_bots : list nat;
  ping : Z; lastpingupdate : Z; lastposupdate : Z; lag : Z; aireinit : Z;
  clientmap : cstring; mapcrc : Z; no_spawn : Z;
  warned : bool; gameclip : bool;
  clipboard : option (list field); lastclipboard : Z; needclipboard : Z;
  connectauth : Z; authkickvictim : Z;
  clientmillis : Z; timetrial : Z;
  ac : anticheat;
  spy : bool; last_lag : Z;
  disconnect_msg : cstring;
  maploaded : Z; rank : Z; using_reservedslot : bool; allow_self_unspec : bool;
  authname : cstring; authdesc : cstring; authkickreason : option cstring; ci_resends : resends;
  getmap : bool; getdemo : bool
}.
#[export] Instance eta_clientinfo : Eta clientinfo := settable mkclientinfo
  <ci_n; clientnum; ownernum; connectmillis; specmillis; sessionid; overflow; playerid; name;
   team; mapvote; playermodel; modevote; privilege; hide_privilege; connected; local;
   timesync; gameoffset; lastevent; pushed; exceeded; ci_state; events; position; messages;
   ci_bots; ping; lastpingupdate; lastposupdate; lag; aireinit; clientmap; mapcrc; no_spawn;
   warned; gameclip; clipboard; lastclipboard; needclipboard; connectauth; authkickvictim;
   clientmillis; timetrial; ac; spy; last_lag; disconnect_msg; maploaded;
   rank; using_reservedslot; allow_self_unspec; authname; authdesc; authkickreason; ci_resends;
   getmap; getdemo>.
Coercion ci_state : clientinfo >-> gamestate.

Definition ci_mapchange (c : clientinfo) : clientinfo :=
  c <| mapvote := [] |> <| modevote := INT_MAX |> <| ci_state ::= gs_reset |>
    <| events := [] |> <| overflow := 0 |> <| timesync := false |> <| lastevent := 0 |>
    <| exceeded := 0 |> <| pushed := 0 |> <| maploaded := 0 |> <| clientmap := [] |>
    <| mapcrc := 0 |> <| warned := false |> <| gameclip := false |>.
Definition ci_reassign (c : clientinfo) : clientinfo :=
  c <| ci_state ::= gs_reassign |> <| events := [] |> <| timesync := false |>
    <| lastevent := 0 |>.
Definition cleanclipboard (fullclean : bool) (c : clientinfo) : clientinfo :=
  let c := c <| clipboard := None |> in
  if fullclean then c <| lastclipboard := 0 |> else c.

(** [addevent]: spectators and full queues drop the event. *)
Definition addevent (e : gameevent) (c : clientinfo) : clientinfo :=
  if cs_eqb (state c) CS_SPECTATOR || (100 <? zlength (events c)) then c
  else c <| events ::= fun es => es ++ [e] |>.

(** [geteventmillis] both answers and synchronises the client's clock. *)
Definition geteventmillis (servmillis cmillis : Z) (c : clientinfo) : Z * clientinfo :=
  if negb (timesync c) || (bool_decide (events c = []) && waitexpired servmillis c)
  then (servmillis, c <| timesync := true |> <| gameoffset := servmillis - cmillis |>)
  else (gameoffset c + cmillis, c).

(** [clientinfo()] with the detector off; [reset] of the rest. *)
Definition ci_reset (c : clientinfo) : clientinfo :=
  ci_mapchange (cleanclipboard true (c
    <| name := [] |> <| team := [] |> <| playermodel := -1 |> <| privilege := PRIV_NONE |>
    <| hide_privilege := false |> <| connected := false |> <| local := false |>
    <| connectauth := 0 |> <| position := [] |> <| messages := [] |> <| ping := 0 |>
    <| lastpingupdate := 0 |> <| lastposupdate := 0 |> <| lag := 0 |> <| clientmillis := 0 |>
    <| last_lag := 0 |> <| spy := false |> <| timetrial := 0 |> <| no_spawn := 0 |>
    <| aireinit := 0 |> <| using_reservedslot := false |> <| needclipboard := 0 |>
    <| authkickvictim := -1 |> <| authkickreason := None |>)).
Definition clientinfo0 : clientinfo := ci_reset
  (mkclientinfo 0 0 0 0 0 0 0 0 [] [] [] 0 0 0 false false false false 0 0 0 0 gamestate0 []
     [] [] [] 0 0 0 0 0 [] 0 0 false false None 0 0 0 0 0 0 anticheat0 false 0 [] 0 0 false false
     [] [] None resends0 false false).

(** * Map entities and items *)
Record entity := mkentity {
  e_o : vec; attr1 : Z; attr2 : Z; attr3 : Z; attr4 : Z; attr5 : Z; e_type : Z; e_reserved : Z
}.
Record server_entity := mksent { se_type : Z; spawntime : Z; spawned : bool; lastpickup : Z }.
#[export] Instance eta_server_entity : Eta server_entity :=
  settable mksent <se_type; spawntime; spawned; lastpickup>.

(** * The base modes *)

(** ctf.h [flag]. *)
Record flag := mkflag {
  f_id : Z; version : Z; spawnindex : Z;
  droploc : vec; spawnloc : vec;
  f_team : Z; f_droptime : Z; owntime : Z; holdtime : Z;
  f_owner : Z; dropcount : Z; f_dropper : Z; invistime : Z;
  tmillis : Z; drops : Z
}.
#[export] Instance eta_flag : Eta flag := settable mkflag
  <f_id; version; spawnindex; droploc; spawnloc; f_team; f_droptime; owntime; holdtime;
   f_owner; dropcount; f_dropper; invistime; tmillis; drops>.
Record ctfstate := mkctf {
  holdspawns : list vec; flags : list flag; ctf_scores : Z * Z; notgotflags : bool
}.
#[export] Instance eta_ctfstate : Eta ctfstate :=
  settable mkctf <holdspawns; flags; ctf_scores; notgotflags>.

(** capture.h [baseinfo]. *)
Record baseinfo := mkbaseinfo {
  b_o : vec; owner : cstring; enemy : cstring;
  ammogroup : Z; ammotype : Z; b_tag : Z; b_ammo : Z; owners : Z; enemies : Z;
  converted : Z; capturetime : Z
}.
#[export] Instance eta_baseinfo : Eta baseinfo := settable mkbaseinfo
  <b_o; owner; enemy; ammogroup; ammotype; b_tag; b_ammo; owners; enemies; converted;
   capturetime>.
Record capturestate := mkcapture {
  bases : list baseinfo; cap_scores : list (cstring * Z); captures : Z; notgotbases : bool
}.
#[export] Instance eta_capturestate : Eta capturestate :=
  settable mkcapture <bases; cap_scores; captures; notgotbases>.

(** collect.h [base] and [token]. *)
Record cbase := mkcbase { cb_id : Z; cb_team : Z; cb_o : vec; laststeal : Z }.
#[export] Instance eta_cbase : Eta cbase := settable mkcbase <cb_id; cb_team; cb_o; laststeal>.
Record token := mktoken {
  t_id : Z; t_team : Z; t_droptime : Z; t_o : vec; t_yaw : Z; t_dropper : Z
}.
#[export] Instance eta_token : Eta token :=
  settable mktoken <t_id; t_team; t_droptime; t_o; t_yaw; t_dropper>.
Record collectstate := mkcollect {
  col_bases : list cbase; col_scores : Z * Z; col_tokens : list token; nexttoken : Z;
  col_notgotbases : bool
}.
#[export] Instance eta_collectstate : Eta collectstate :=
  settable mkcollect <col_bases; col_scores; col_tokens; nexttoken; col_notgotbases>.

(** The object [smode] points to. *)
Inductive smode_kind : Set := capturemode | ctfmode | collectmode.
#[global] Instance smode_kind_eq_dec : EqDecision smode_kind.
Proof. solve_decision. Defined.

(** * The server *)

(** [getmilliseconds] is the system clock the resend limits use, [enet_time] the
    network's; [lastsend] is the last time the latter let [sendpackets] work. *)
Record clock := mkclock {
  curtime : Z; lastmillis : Z; totalmillis : Z; realmillis : Z; getmilliseconds : Z;
  enet_time : Z; lastsend : Z
}.
#[export] Instance eta_clock : Eta clock :=
  settable mkclock <curtime; lastmillis; totalmillis; realmillis; getmilliseconds; enet_time; lastsend>.

Record game := mkgame {
  notgotitems : bool; gamemode : Z; gamemillis : Z; gamelimit : Z; nextexceeded : Z;
  next_timeupdate : Z; gamespeed : Z; gamepaused : bool; shouldstep : bool;
  pausegame_owner : Z;
  smapname : cstring; interm : Z; mapreload : bool;
  next_gamemode : cstring; next_mapname : cstring; next_gametime : Z;
  spectator_delay : Z; mastermode : Z; mastermask : Z; reliablemessages : bool;
  smode : option smode_kind
}.
#[export] Instance eta_game : Eta game := settable mkgame
  <notgotitems; gamemode; gamemillis; gamelimit; nextexceeded; next_timeupdate; gamespeed;
   gamepaused; shouldstep; pausegame_owner; smapname; interm; mapreload; next_gamemode;
   next_mapname; next_gametime; spectator_delay; mastermode; mastermask; reliablemessages;
   smode>.

(** Configuration variables (Lua and command line). *)
Record config := mkconfig {
  persistteams : bool; display_open : bool;
  allow_mm_veto : bool; allow_mm_locked : bool; allow_mm_private : bool;
  allow_mm_private_reconnect : bool; reset_mm : bool;
  intermtime : Z; overtime : bool; restrictpausegame : bool; restrictgamespeed : bool;
  sv_spawnconf : spawnconf; ctftkpenalty : bool; spec_slots : bool;
  serverdesc : cstring; serverpass : cstring; slotpass : cstring; serverauth : cstring;
  adminpass : cstring;
  anti_cheat_enabled : bool; enable_extinfo : bool;
  disc_msgs : Z; disc_window : Z;
  resend_text : Z; resend_sayteam : Z; resend_mapvote : Z; resend_switchname : Z;
  resend_switchteam : Z; resend_kick : Z; resend_newmap : Z; resend_spec : Z;
  autorecorddemo : bool; packetdelay : Z; privilege_format : cstring
}.
#[export] Instance eta_config : Eta config := settable mkconfig
  <persistteams; display_open; allow_mm_veto; allow_mm_locked; allow_mm_private;
   allow_mm_private_reconnect; reset_mm; intermtime; overtime; restrictpausegame;
   restrictgamespeed; sv_spawnconf; ctftkpenalty; spec_slots; serverdesc; serverpass;
   slotpass; serverauth; adminpass; anti_cheat_enabled; enable_extinfo; disc_msgs;
   disc_window; resend_text; resend_sayteam; resend_mapvote; resend_switchname;
   resend_switchteam; resend_kick; resend_newmap; resend_spec; autorecorddemo;
   packetdelay; privilege_format>.

(** A slot of the engine's client table (engine/server.cpp [struct client]). *)
Inductive slottype : Set := ST_EMPTY | ST_LOCAL | ST_TCPIP.
#[global] Instance slottype_eq_dec : EqDecision slottype.
Proof. solve_decision. Defined.
Record slot := mkslot { sl_type : slottype; sl_info : option nat; sl_host : Z; sl_rtt : Z }.
#[export] Instance eta_slot : Eta slot := settable mkslot <sl_type; sl_info; sl_host; sl_rtt>.

Record roster := mkroster {
  ci_heap : gmap nat clientinfo; next_ci : nat;
  slots : list slot; localclients : Z; nonlocalclients : Z;
  connects : list nat; clients : list nat; bots : list (option nat); spies : list nat;
  spycn : Z; maxclients : Z; reservedslots : Z; reservedslots_use : Z;
  allowedips : list Z; scores : list savedscore;
  teaminfos : list (cstring * Z); disc_record : list (Z * list Z)
}.
#[export] Instance eta_roster : Eta roster := settable mkroster
  <ci_heap; next_ci; slots; localclients; nonlocalclients; connects; clients; bots; spies; spycn; maxclients; reservedslots;
   reservedslots_use; allowedips; scores; teaminfos; disc_record>.

Record mapitems := mkitems {
  mcrc : Z; ments : list entity; sents : list server_entity; sents_type_index : gmap Z Z;
  mapdata : option (list Z)
}.
#[export] Instance eta_mapitems : Eta mapitems :=
  settable mkitems <mcrc; ments; sents; sents_type_index; mapdata>.

Record aistate := mkai { dorefresh : bool; botbalance : bool; botlimit : Z; next_botid : Z }.
#[export] Instance eta_aistate : Eta aistate :=
  settable mkai <dorefresh; botbalance; botlimit; next_botid>.

Record delayed_sendpacket := mkdelayed { ds_time : Z; ds_channel : Z; ds_data : list field }.
(** A demo that is played is what is left to read of its file. *)
Record demostate := mkdemo {
  demorecord : bool; demonextmatch : bool; delayed_sendpackets : list delayed_sendpacket;
  demoplayback : option (list Z); nextplayback : Z; demos : list (cstring * list Z);
  demo_id : Z; demodir : cstring
}.
#[export] Instance eta_demostate : Eta demostate :=
  settable mkdemo <demorecord; demonextmatch; delayed_sendpackets; demoplayback; nextplayback; demos; demo_id; demodir>.

(** What a script asks for and the event loop does later. *)
Inductive task : Set :=
| TDisconnect (cn code session : Z) (reason : cstring)
| TAddbot (skill_ : Z)
| TDeletebot (cn : Z)
| TRespawn (cn session : Z)
| TReload.

Record server := mkserver {
  sv_clock : clock; sv_game : game; sv_config : config; sv_roster : roster;
  sv_items : mapitems; sv_ai : aistate; sv_demo : demostate;
  sv_ctf : ctfstate; sv_capture : capturestate; sv_collect : collectstate;
  sv_rng : mtstate; sv_out : list output; sv_tasks : list task
}.
#[export] Instance eta_server : Eta server := settable mkserver
  <sv_clock; sv_game; sv_config; sv_roster; sv_items; sv_ai; sv_demo; sv_ctf; sv_capture;
   sv_collect; sv_rng; sv_out; sv_tasks>.
Coercion sv_clock : server >-> clock.
Coercion sv_game : server >-> game.
Coercion sv_config : server >-> config.
Coercion sv_roster : server >-> roster.
Coercion sv_items : server >-> mapitems.
Coercion sv_ai : server >-> aistate.
Coercion sv_demo : server >-> demostate.
Coercion sv_ctf : server >-> ctfstate.
Coercion sv_capture : server >-> capturestate.
Coercion sv_collect : server >-> collectstate.

(** The globals of server.cpp and engine/server.cpp at start-up. *)
Definition server0 : server := mkserver
  (mkclock 0 0 0 0 0 0 0)
  (mkgame true 0 0 0 0 0 100 false true (-1) [] 0 false [] [] (-1) 0 MM_OPEN 0x100F false None)
  (mkconfig false false false false false false true 10000 false false false
     (mkspawnconf false true) true false [] [] [] [] [] true true 0 0 0 0 0 0 0 0 0 0 false 33
     (cstr "The server has %s your privilege to %s%s."))
  (mkroster empty 0 [] 0 0 [] [] [] [] 1000000 8 0 0 [] [] [] [])
  (mkitems 0 [] [] empty None) (mkai false true 8 (-2)) (mkdemo false false [] None 0 [] 0 (cstr "demo"))
  (mkctf [] [] (0, 0) false) (mkcapture [] [] 0 false) (mkcollect [] (0, 0) [] 0 false)
  (mt_initial 0) [] [].

(** [{{ f := v }}] is the assignment to a field as a function of the record. *)
Notation "{{ f := v }}" := (update_field f (fun _ => v)) (at level 0, f at level 99, v at level 200).
Notation "{{ f ::= u }}" := (update_field f u) (at level 0, f at level 99, u at level 200).

(** * The Lua listeners

    An event runs the listeners of the scripts, which may call back into the
    server; they answer whether the default action is vetoed. *)
Class Hooks := on_event : event -> M server bool.

(** [event_x(event_listeners(), std::make_tuple(...))]: the answer is the veto. *)
Definition fire `{!Hooks} (name : string) (args : list arg) : M server bool :=
  on_event (mkevent name args).

(** No script loaded. *)
Definition no_hooks : Hooks := fun _ => ret false.

Section primitives.
Definition get_server : M server server := gets id.

Definition set_game (f : game -> game) : M server unit := modify {{ sv_game ::= f }}.
Definition set_roster (f : roster -> roster) : M server unit := modify {{ sv_roster ::= f }}.
Definition set_items (f : mapitems -> mapitems) : M server unit := modify {{ sv_items ::= f }}.
Definition set_ai (f : aistate -> aistate) : M server unit := modify {{ sv_ai ::= f }}.
Definition set_demo (f : demostate -> demostate) : M server unit := modify {{ sv_demo ::= f }}.
Definition set_ctf (f : ctfstate -> ctfstate) : M server unit := modify {{ sv_ctf ::= f }}.
Definition set_capture (f : capturestate -> capturestate) : M server unit :=
  modify {{ sv_capture ::= f }}.
Definition set_collect (f : collectstate -> collectstate) : M server unit :=
  modify {{ sv_collect ::= f }}.
Definition emit (o : output) : M server unit := modify {{ sv_out ::= fun l => l ++ [o] }}.

Definition rand (x : Z) : M server Z := fun s =>
  let '(v, g) := rnd x (sv_rng s) in (v, s <| sv_rng := g |>).

(** [*ci]; every pointer of a well-formed state is a key of the heap. *)
Definition deref (ci : nat) (s : server) : clientinfo := default clientinfo0 (ci_heap s !! ci).
Definition upd_ci (ci : nat) (f : clientinfo -> clientinfo) : M server unit :=
  set_roster {{ ci_heap ::= alter f ci }}.
Definition set_ci (ci : nat) (c : clientinfo) : M server unit := upd_ci ci (fun _ => c).
Definition upd_gs (ci : nat) (f : gamestate -> gamestate) : M server unit :=
  upd_ci ci {{ ci_state ::= f }}.
End primitives.

(** The two default teams. *)
Definition good : cstring := cstr "good".
Definition evil : cstring := cstr "evil".

(** ** Small servers for the examples: client [ci] in slot [ci], playing. *)
Definition sample_client (ci : nat) (team_ : cstring) : clientinfo :=
  clientinfo0 <| ci_n := Z.of_nat ci |> <| clientnum := Z.of_nat ci |>
    <| ownernum := Z.of_nat ci |> <| team := team_ |> <| connected := true |>
    <| name := cstr "player" |> <| ci_state ::= fun gs => respawn gs <| state := CS_ALIVE |> |>.
Definition sample_server (mode : Z) (teams : list cstring) : server :=
  let ids := seq 0 (length teams) in
  server0 <| sv_game ::= fun g => g <| gamemode := mode |> <| gamelimit := 600000 |>
                              <| notgotitems := false |> <| smapname := cstr "map" |> |>
    <| sv_roster ::= fun r =>
         r <| ci_heap := list_to_map (zip ids (zip_with sample_client ids teams)) |>
           <| next_ci := length teams |> <| clients := ids |>
           <| slots := map (fun i => mkslot ST_TCPIP (Some i) (16777343 + Z.of_nat i) 50) ids |>
           <| nonlocalclients := zlength teams |> |>.

(** [isteam(a, b)] of game.h. *)
Definition isteam (s : server) (a b : cstring) : bool :=
  m_teammode (gamemode s) && bool_decide (a = b).

(** ** Reading a client back *)
Lemma deref_alter {A} (g : clientinfo -> A) f ci ci' (s : server) :
  (forall c, g (f c) = g c) ->
  g (deref ci' (s <| sv_roster ::= {{ ci_heap ::= alter f ci }} |>)) = g (deref ci' s).
Proof.
  intros Hf. unfold deref. simpl. destruct (decide (ci = ci')) as [<-|Hne].
  - rw lookup_alter_eq. destruct (ci_heap s !! ci); simpl; auto.
  - by rewrite -> lookup_alter_ne by done.
Qed.
Lemma deref_upd_eq f ci (s : server) c :
  ci_heap s !! ci = Some c ->
  deref ci (s <| sv_roster ::= {{ ci_heap ::= alter f ci }} |>) = f c.
Proof. intros Hc. unfold deref. simpl. by rw lookup_alter_eq Hc. Qed.

(** * Frames

    A relation on servers is [FramedBy R π] when it only looks at [π]; a
    primitive update that leaves [π] alone then respects [R].  [inv_on π P] is
    preservation of an invariant of [π], [eq_on π] that [π] does not change. *)
Definition inv_on {T} (π : server -> T) (P : T -> Prop) : relation server :=
  inv_rel (fun s => P (π s)).
Definition eq_on {T} (π : server -> T) : relation server := fun s s' => π s = π s'.
#[global] Instance eq_on_preorder {T} (π : server -> T) : PreOrder (eq_on π).
Proof. unfold eq_on. split; repeat intro; congruence. Qed.
#[global] Instance inv_on_preorder {T} (π : server -> T) P : PreOrder (inv_on π P).
Proof. unfold inv_on. apply _. Qed.

Class FramedBy {T} (R : relation server) (π : server -> T) :=
  framed_by : forall s s', π s = π s' -> R s s'.
#[global] Instance eq_on_framed {T} (π : server -> T) : FramedBy (eq_on π) π.
Proof. exact (fun s s' H => H). Qed.
#[global] Instance inv_on_framed {T} (π : server -> T) P : FramedBy (inv_on π P) π.
Proof. unfold FramedBy, inv_on, inv_rel. congruence. Qed.

Lemma respects_frame {T} R (π : server -> T) `{!FramedBy R π} (f : server -> server) :
  (forall s, π (f s) = π s) -> respects R (modify f).
Proof. intros Hf s. apply framed_by. symmetry. apply Hf. Qed.
Lemma respects_rand_frame {T} R (π : server -> T) `{!FramedBy R π} x :
  (forall s g, π (s <| sv_rng := g |>) = π s) -> respects R (rand x).
Proof.
  intros Hf s. apply framed_by. unfold exec, rand. destruct (rnd x (sv_rng s)) as [v g].
  cbn [snd]. by rw Hf.
Qed.
(** After a draw the result is known to be in range. *)
Lemma respects_bind_rand {T} R `{!PreOrder R} (π : server -> T) `{!FramedBy R π} {A} x
    (k : Z -> M server A) :
  (forall s g, π (s <| sv_rng := g |>) = π s) -> 0 < x ->
  (forall v, 0 <= v < x -> respects R (k v)) -> respects R (bind (rand x) k).
Proof.
  intros Hf Hx Hk s. rw exec_bind.
  pose proof (respects_rand_frame R π x Hf s) as Hr.
  etransitivity; [exact Hr|]. apply Hk.
  pose proof (rnd_range x (sv_rng s) Hx). unfold eval, rand. by destruct (rnd x (sv_rng s)).
Qed.
Lemma respects_inv_on {T} (π : server -> T) P (f : server -> server) :
  (forall s, P (π s) -> P (π (f s))) -> respects (inv_on π P) (modify f).
Proof. intros Hf s. exact (Hf s). Qed.

(** What the listeners of the scripts are assumed to preserve. *)
Class HooksRespect {hooks : Hooks} (R : relation server) :=
  hooks_respect : forall e, respects R (on_event e).
#[global] Instance no_hooks_respect R `{!PreOrder R} : HooksRespect (hooks := no_hooks) R.
Proof. intros e. unfold on_event, no_hooks. by apply respects_ret. Qed.

(** [frame] proves that a primitive update leaves [π] alone. *)
Ltac frame :=
  match goal with
  | |- respects ?R (rand _) =>
    eapply (respects_rand_frame R); [apply _|intros; reflexivity]
  | |- respects ?R _ =>
    unfold set_game, set_roster, set_items, set_ai, set_demo, set_ctf, set_capture,
      set_collect, emit, upd_gs, upd_ci, set_roster;
    eapply (respects_frame R); [apply _|intros; reflexivity]
  end.
#[export] Hint Extern 2 (respects _ (rand _)) => frame : respects.
#[export] Hint Extern 2 (respects _ (modify _)) => frame : respects.
#[export] Hint Extern 2 (respects _ (set_game _)) => frame : respects.
#[export] Hint Extern 2 (respects _ (set_roster _)) => frame : respects.
#[export] Hint Extern 2 (respects _ (set_items _)) => frame : respects.
#[export] Hint Extern 2 (respects _ (set_ai _)) => frame : respects.
#[export] Hint Extern 2 (respects _ (set_demo _)) => frame : respects.
#[export] Hint Extern 2 (respects _ (set_ctf _)) => frame : respects.
#[export] Hint Extern 2 (respects _ (set_capture _)) => frame : respects.
#[export] Hint Extern 2 (respects _ (set_collect _)) => frame : respects.
#[export] Hint Extern 2 (respects _ (emit _)) => frame : respects.
#[export] Hint Extern 2 (respects _ (upd_ci _ _)) => frame : respects.
#[export] Hint Extern 2 (respects _ (upd_gs _ _)) => frame : respects.
#[export] Hint Extern 1 (respects _ (on_event _)) => apply hooks_respect : respects.
#[export] Hint Extern 1 (respects _ (fire _ _)) => apply hooks_respect : respects.
#[export] Hint Extern 1 (respects _ get_server) => apply respects_gets; apply _ : respects.
