(* ===== verification/Ents.v ===== *)
(** The entities of a map on disk (fpsgame/ents.h [loadents], [writeents]).

    The server keeps the entities of each map, and the checksum of the map, in a
    compressed file of its own.  zlib and the disk are the class [Files]: what
    [opengzfile] finds under a name, uncompressed. *)
From S2P Require Import Prelude Text Paths Float32 Stream Game State.

#[local] Open Scope list_scope.

(** The operating system and zlib, as far as demos and maps use them. *)
Class Files := {
  ctime_text : cstring;              (* the time of day, trimmed *)
  strftime_text : cstring;           (* the same for a file name *)
  opens_for_writing : cstring -> bool;
  recorded : server -> list Z;       (* what the recording's file holds *)
  gzfile : cstring -> option (list Z);
  tempfile : bool                    (* a temporary file can be opened *)
}.
(** A disk with nothing on it. *)
Definition no_files : Files := {|
  ctime_text := []; strftime_text := []; opens_for_writing := fun _ => false; recorded := fun _ => [];
  gzfile := fun _ => None; tempfile := false |}.

Definition ents_magic : cstring := cstr "MAPENTS".
(** [getchar() != 'M' || getchar() != 'A' ...]: it stops at the first difference. *)
Fixpoint expect (magic : cstring) : M bytes bool :=
  match magic with
  | [] => ret true
  | m :: magic => c <- stream_getchar ;; if c =? m then expect magic else ret false
  end.
Definition get_entity : M bytes entity :=
  type <- get_uchar ;;
  a1 <- get_short ;; a2 <- get_short ;; a3 <- get_short ;; a4 <- get_short ;; a5 <- get_short ;;
  reserved <- get_uchar ;;
  x <- get_float ;; y <- get_float ;; z <- get_float ;;
  ret (mkentity (mkvec x y z) a1 a2 a3 a4 a5 type reserved).
(** The entities up to the [n]th; a word after each must be zero. *)
Fixpoint get_entities (n : nat) (ents : list entity) : M bytes (option (list entity)) :=
  match n with
  | O => ret (Some ents)
  | S n =>
    e <- get_entity ;;
    word <- get_int ;;
    if word =? 0 then get_entities n (ents ++ [e]) else ret None
  end.
(** Whether a file was good, and what [ents] and [mapcrc] hold then: the checksum is
    overwritten before the rest of the file is looked at. *)
Definition loaded : Type := bool * (list entity * Z).
(** After the entities a zero and their number again. *)
Definition get_last (elen mapcrc : Z) (ents : option (list entity)) : M bytes loaded :=
  match ents with
  | None => ret (false, ([], mapcrc))
  | Some ents =>
    word <- get_int ;;
    if negb (word =? 0) then ret (false, ([], mapcrc)) else
    last <- get_int ;;
    ret (if last =? elen then (true, (ents, mapcrc)) else (false, ([], mapcrc)))
  end.
Definition get_body (elen mapcrc : Z) (ents : list entity) : M bytes loaded :=
  word <- get_int ;;
  if negb (word =? 0) then ret (false, (ents, mapcrc)) else
  ents <- get_entities (Z.to_nat elen) ents ;;
  get_last elen mapcrc ents.
Definition get_ents (ents : list entity) (mapcrc : Z) : M bytes loaded :=
  ok <- expect ents_magic ;;
  if negb ok then ret (false, (ents, mapcrc)) else
  mapcrc <- get_uint ;;
  elen <- get_int ;;
  get_body elen mapcrc ents.
Definition ents_file (mname : cstring) : cstring :=
  path (copystring (cstr "mapinfo/" ++ mname ++ cstr ".ents") MAXSTRLEN).
Definition loadents {files : Files} (mname : cstring) (ents : list entity) (mapcrc : Z) : loaded :=
  match gzfile (ents_file mname) with
  | None => (false, (ents, mapcrc))
  | Some f => eval (get_ents ents mapcrc) f
  end.

Definition put_entity (e : entity) : bytes :=
  put_n 1 (e_type e) ++ put_n 2 (attr1 e) ++ put_n 2 (attr2 e) ++ put_n 2 (attr3 e) ++ put_n 2 (attr4 e) ++ put_n 2 (attr5 e) ++
  put_n 1 (e_reserved e) ++ put_float (vx (e_o e)) ++ put_float (vy (e_o e)) ++ put_float (vz (e_o e)) ++ put_n 4 0.
Definition put_ents (ents : list entity) (mapcrc : Z) : bytes :=
  putstring ents_magic ++ put_n 4 mapcrc ++ put_n 4 (zlength ents) ++ put_n 4 0 ++ concat (map put_entity ents) ++
  put_n 4 0 ++ put_n 4 (zlength ents).
(** The name and the contents of the file that is written, when it can be. *)
Definition writeents {files : Files} (mapname : cstring) (ents : list entity) (mapcrc : Z) : option (cstring * bytes) :=
  let file := ents_file mapname in
  if opens_for_writing file then Some (file, put_ents ents mapcrc) else None.

(** * A file that was written is read back *)

Definition is_short (n : Z) : Prop := - 32768 <= n < 32768.
Definition entity_ok (e : entity) : Prop :=
  Forall is_short [attr1 e; attr2 e; attr3 e; attr4 e; attr5 e] /\
  byte (e_type e) /\ byte (e_reserved e) /\ Forall is_f32 [vx (e_o e); vy (e_o e); vz (e_o e)].

(** [reads m v d]: of a file that begins with the bytes [d], [m] makes [v] and
    leaves the rest; when the file is cut within [d], it leaves nothing. *)
Definition reads {A} (m : M bytes A) (v : A) (d : bytes) : Prop :=
  (forall l, m (d ++ l) = (v, l)) /\ forall k, (k < length d)%nat -> exec m (take k d) = [].
Lemma reads_ret {A} (v : A) : reads (ret v) v [].
Proof. split; [done|]. cbn. lia. Qed.
Lemma reads_bind {A B} (m : M bytes A) (f : A -> M bytes B) v w d d' :
  reads m v d -> reads (f v) w d' -> (forall a, exec (f a) [] = []) -> reads (bind m f) w (d ++ d').
Proof.
  intros [Hm Hcut] [Hf Hfcut] He. split.
  - intros l. rw -app_assoc. unfold bind. by rw Hm Hf.
  - intros k. rw length_app exec_bind take_app. intros Hk. destruct (decide (k < length d)%nat) as [Hlt|Hge].
    + replace (k - length d)%nat with 0%nat by lia. rw take_0 app_nil_r. rewrite -> Hcut by done. apply He.
    + rewrite -> take_ge by lia. unfold exec at 2, eval. rw Hm. cbn [snd]. apply Hfcut. lia.
Qed.
Lemma reads_get n v : (0 < n)%nat -> reads (get_n n) (v mod 256 ^ Z.of_nat n) (put_n n v).
Proof.
  intros Hn. split; [apply get_put|]. intros k. rw length_put. intros Hk. pose proof (get_take n k v []) as H.
  rw app_nil_r in H. unfold exec. rw H. by destruct (Nat.leb_spec n k); [lia|].
Qed.
Lemma reads_map {A B} (m : M bytes A) (f : A -> B) v d w :
  reads m v d -> f v = w -> reads (x <- m ;; ret (f x)) w d.
Proof. intros Hm <-. rw -(app_nil_r d). apply reads_bind with v; [done|apply reads_ret|done]. Qed.
Lemma reads_uchar v : byte v -> reads get_uchar v (put_n 1 v).
Proof. intros Hv. rewrite <- (Z.mod_small v (256 ^ Z.of_nat 1)) at 1 by done. by apply reads_get; lia. Qed.
Lemma reads_short v : is_short v -> reads get_short v (put_n 2 v).
Proof.
  intros Hv. unfold get_short, is_short in *. apply reads_map with (1 := reads_get 2 v ltac:(lia)).
  change (256 ^ Z.of_nat 2) with 0x10000. destruct (decide (0 <= v)).
  - rewrite -> Z.mod_small by lia. by destruct (Z.ltb_spec v 0x8000); [|lia].
  - rewrite <- (Z.mod_add v 1) by lia. rewrite -> Z.mod_small by lia. destruct (Z.ltb_spec (v + 1 * 0x10000) 0x8000); lia.
Qed.
Lemma reads_int v : is_int v -> reads get_int v (put_n 4 v).
Proof.
  intros Hv. apply reads_map with (1 := reads_get 4 v ltac:(lia)). transitivity (to_int v); [|by apply to_int_id].
  unfold to_int. change (256 ^ Z.of_nat 4) with 4294967296. by rewrite -> Z.add_mod_idemp_l by lia.
Qed.
Lemma reads_float x : is_f32 x -> reads get_float x (put_float x).
Proof.
  intros Hx. apply reads_map with (1 := reads_get 4 _ ltac:(lia)).
  rewrite -> Z.mod_small by (by apply bits_of_f32_range). by apply f32_of_bits_of.
Qed.
Create HintDb reads.
#[export] Hint Resolve reads_uchar reads_short reads_int reads_float : reads.
Ltac reads_step := eapply reads_bind; [solve [eauto with reads]|cbv beta|exact (fun _ => eq_refl)].

Definition entity_body (e : entity) : bytes :=
  put_n 1 (e_type e) ++ put_n 2 (attr1 e) ++ put_n 2 (attr2 e) ++ put_n 2 (attr3 e) ++ put_n 2 (attr4 e) ++ put_n 2 (attr5 e) ++
  put_n 1 (e_reserved e) ++ put_float (vx (e_o e)) ++ put_float (vy (e_o e)) ++ put_float (vz (e_o e)).
Lemma put_entity_body e : put_entity e = entity_body e ++ put_n 4 0.
Proof. unfold put_entity, entity_body. by rw -!app_assoc. Qed.
Lemma reads_entity e : entity_ok e -> reads get_entity e (entity_body e).
Proof.
  intros (Ha&Ht&Hr&Hf). rewrite -> !Forall_cons in Ha. rewrite -> !Forall_cons in Hf. destruct Ha as (H1&H2&H3&H4&H5&_), Hf as (Hx&Hy&Hz&_).
  unfold get_entity, entity_body. rw -(app_nil_r (put_float (vz _))). do 10 reads_step.
  destruct e as [[x y z] a1 a2 a3 a4 a5 t r]. apply reads_ret.
Qed.
Lemma get_entity_end : exec get_entity [] = [].
Proof. reflexivity. Qed.
Lemma get_int_end : get_int [] = (0, []).
Proof. reflexivity. Qed.
Lemma get_entities_end n ents : exec (get_entities n ents) [] = [].
Proof.
  revert ents. induction n as [|n IH]; intros ents; cbn [get_entities]; [done|]. rewrite -> exec_bind.
  rewrite -> get_entity_end. rewrite -> exec_bind. unfold exec at 2. rewrite -> get_int_end. cbn [snd]. destruct (_ =? 0); [apply IH|reflexivity].
Qed.
Lemma reads_entities ents acc : Forall entity_ok ents ->
  reads (get_entities (length ents) acc) (Some (acc ++ ents)) (concat (map put_entity ents)).
Proof.
  intros He. revert acc. induction He as [|e ents He _ IH]; intros acc; cbn [length get_entities map concat].
  { rw app_nil_r. apply reads_ret. }
  rewrite -> put_entity_body. rewrite <- app_assoc. apply reads_bind with e; [by apply reads_entity| |].
  - apply reads_bind with 0; [by apply reads_int| |].
    + cbn [Z.eqb]. specialize (IH (acc ++ [e])). by rw -app_assoc in IH.
    + intros w. destruct (w =? 0); [apply get_entities_end|reflexivity].
  - intros a. rw exec_bind. unfold exec at 2. rw get_int_end. cbn [snd].
    destruct (_ =? 0); [apply get_entities_end|reflexivity].
Qed.


(** The file after the number of entities. *)
Definition ents_body (ents : list entity) : bytes :=
  put_n 4 0 ++ concat (map put_entity ents) ++ put_n 4 0 ++ put_n 4 (zlength ents).
Definition ents_size (ents : list entity) : Prop := Forall entity_ok ents /\ zlength ents <= INT_MAX.
Lemma ents_size_int ents : ents_size ents -> is_int (zlength ents).
Proof. intros [_ H]. unfold is_int, INT_MIN, INT_MAX, zlength in *. lia. Qed.
Lemma get_int_put v l : is_int v -> get_int (put_n 4 v ++ l) = (v, l).
Proof. intros Hv. by apply reads_int. Qed.
Lemma get_int_cut k v l : (k < 4)%nat -> get_int (take k (put_n 4 v ++ l)) = (0, []).
Proof.
  intros Hk. unfold get_int, bind. rewrite -> get_take. by destruct (Nat.leb_spec 4 k); [lia|].
Qed.
Lemma get_int_take k v l : is_int v -> (4 <= k)%nat -> get_int (take k (put_n 4 v ++ l)) = (v, take (k - 4) l).
Proof.
  intros Hv Hk. rewrite -> take_app, length_put, take_ge by (rw length_put; lia). by rewrite -> get_int_put by done.
Qed.
Lemma zero_is_int : is_int 0.
Proof. done. Qed.
(** One step of a program whose outcome is known. *)
Lemma eval_step {A B} (m : M bytes A) (k : A -> M bytes B) l v l' :
  m l = (v, l') -> eval (bind m k) l = eval (k v) l'.
Proof. intros Hm. unfold eval, bind. by rewrite -> Hm. Qed.
Lemma get_last_reads acc ents mapcrc :
  is_int (zlength ents) ->
  eval (get_last (zlength ents) mapcrc (Some (acc ++ ents))) (put_n 4 0 ++ put_n 4 (zlength ents)) = (true, (acc ++ ents, mapcrc)).
Proof.
  intros Hint. cbn [get_last]. rewrite -> (eval_step _ _ _ _ _ (get_int_put 0 _ zero_is_int)). cbn [Z.eqb negb].
  rewrite <- (app_nil_r (put_n 4 (zlength ents))). rewrite -> (eval_step _ _ _ _ _ (get_int_put _ _ Hint)).
  by rewrite -> Z.eqb_refl.
Qed.
(** Whatever is missing, the number at the end is not there. *)
Lemma get_last_end elen mapcrc ents : elen <> 0 -> eval (get_last elen mapcrc ents) [] = (false, ([], mapcrc)).
Proof.
  intros Hne. destruct ents; [|done]. unfold eval, get_last, bind.
  rewrite -> get_int_end. cbn [Z.eqb negb]. rewrite -> get_int_end. by destruct (Z.eqb_spec 0 elen).
Qed.
Lemma get_last_cut (ents : list entity) mapcrc acc k :
  zlength ents <> 0 -> (k < 8)%nat ->
  eval (get_last (zlength ents) mapcrc (Some acc)) (take k (put_n 4 0 ++ put_n 4 (zlength ents))) = (false, ([], mapcrc)).
Proof.
  intros Hne Hk. cbn [get_last]. destruct (Nat.lt_ge_cases k 4).
  - rewrite -> (eval_step _ _ _ _ _ (get_int_cut k 0 _ ltac:(done))). cbn [Z.eqb negb].
    rewrite -> (eval_step _ _ _ _ _ get_int_end). by destruct (Z.eqb_spec 0 (zlength ents)).
  - rewrite -> (eval_step _ _ _ _ _ (get_int_take k 0 _ zero_is_int ltac:(done))). cbn [Z.eqb negb].
    rewrite <- (app_nil_r (put_n 4 (zlength ents))).
    rewrite -> (eval_step _ _ _ _ _ (get_int_cut (k - 4) (zlength ents) [] ltac:(lia))).
    by destruct (Z.eqb_spec 0 (zlength ents)).
Qed.
Lemma get_body_reads acc ents mapcrc : ents_size ents ->
  eval (get_body (zlength ents) mapcrc acc) (ents_body ents) = (true, (acc ++ ents, mapcrc)).
Proof.
  intros He. pose proof (ents_size_int ents He) as Hint. destruct He as [He _].
  unfold get_body, ents_body. rewrite -> (eval_step _ _ _ _ _ (get_int_put 0 _ zero_is_int)). cbn [Z.eqb negb].
  assert (Z.to_nat (zlength ents) = length ents) as -> by apply Nat2Z.id.
  rewrite -> (eval_step _ _ _ _ _ (proj1 (reads_entities ents acc He) _)). by apply get_last_reads.
Qed.
Lemma get_body_cut ents mapcrc acc k : ents_size ents -> ents <> [] -> (k < length (ents_body ents))%nat ->
  eval (get_body (zlength ents) mapcrc acc) (take k (ents_body ents)) = (false, ([], mapcrc)).
Proof.
  intros [He _] Hne Hk.
  assert (zlength ents <> 0) as Hpos by (unfold zlength; destruct ents; [done|cbn; lia]).
  unfold get_body, ents_body in *. rewrite -> !length_app, !length_put in Hk.
  assert (Z.to_nat (zlength ents) = length ents) as -> by apply Nat2Z.id.
  destruct (Nat.lt_ge_cases k 4).
  { rewrite -> (eval_step _ _ _ _ _ (get_int_cut k 0 _ ltac:(done))). cbn [Z.eqb negb].
    rewrite -> eval_bind, get_entities_end. by apply get_last_end. }
  rewrite -> (eval_step _ _ _ _ _ (get_int_take k 0 _ zero_is_int ltac:(done))). cbn [Z.eqb negb].
  destruct (reads_entities ents acc He) as [Hread Hcut]. set (D := concat _) in *.
  rewrite -> take_app. destruct (Nat.lt_ge_cases (k - 4) (length D)).
  { replace (k - 4 - length D)%nat with 0%nat by lia. rewrite -> take_0, app_nil_r, eval_bind, Hcut by done.
    by apply get_last_end. }
  rewrite -> take_ge by lia. rewrite -> (eval_step _ _ _ _ _ (Hread _)). apply get_last_cut; [done|lia].
Qed.

Lemma expect_magic l : expect ents_magic (putstring ents_magic ++ l) = (true, l).
Proof. reflexivity. Qed.
Lemma expect_cut k : (k < 7)%nat -> fst (expect ents_magic (take k (putstring ents_magic))) = false.
Proof. intros Hk. do 7 (destruct k as [|k]; [reflexivity|]). lia. Qed.
Lemma put_ents_split ents mapcrc :
  put_ents ents mapcrc = putstring ents_magic ++ put_n 4 mapcrc ++ put_n 4 (zlength ents) ++ ents_body ents.
Proof. reflexivity. Qed.
Lemma get_uint_put v l : 0 <= v < 4294967296 -> get_uint (put_n 4 v ++ l) = (v, l).
Proof. intros Hv. unfold get_uint. rewrite -> get_put. by rewrite -> Z.mod_small. Qed.

Section disk.
Context {files : Files}.

(** C30: the entities of a map survive the disk: the file that [writeents] writes is
    read back by [loadents] as the same entities, added to those it was given, and the
    same checksum, for every list of entities that fits the fields of the struct and
    holds no NaN. *)
Theorem ents_roundtrip mname ents mapcrc file data ents0 crc0 :
  ents_size ents -> 0 <= mapcrc < 4294967296 ->
  writeents mname ents mapcrc = Some (file, data) -> gzfile file = Some data ->
  loadents mname ents0 crc0 = (true, (ents0 ++ ents, mapcrc)).
Proof.
  intros He Hcrc Hw Hdisk. unfold writeents in Hw. destruct (opens_for_writing _); [|done].
  apply (inj Some) in Hw. injection Hw as <- <-. unfold loadents. rewrite -> Hdisk.
  rewrite -> put_ents_split. unfold get_ents. rewrite -> (eval_step _ _ _ _ _ (expect_magic _)). cbn [negb].
  rewrite -> (eval_step _ _ _ _ _ (get_uint_put _ _ Hcrc)).
  rewrite -> (eval_step _ _ _ _ _ (get_int_put _ _ (ents_size_int _ He))). by apply get_body_reads.
Qed.

(** A file of entities that was cut short is refused, wherever it was cut, with
    one exception: cut in the checksum or the number of entities behind the magic, it
    is taken for the file of a map without entities.  What is refused behind that leaves
    no entities, but the checksum of the file. *)
Theorem ents_truncated mname ents mapcrc k ents0 crc0 :
  ents_size ents -> ents <> [] -> 0 <= mapcrc < 4294967296 ->
  (k < length (put_ents ents mapcrc))%nat ->
  gzfile (ents_file mname) = Some (take k (put_ents ents mapcrc)) ->
  loadents mname ents0 crc0 =
    if (k <? 7)%nat then (false, (ents0, crc0)) else
    if (k <? 15)%nat then (true, (ents0, if (11 <=? k)%nat then mapcrc else 0)) else (false, ([], mapcrc)).
Proof.
  intros He Hne Hcrc Hk Hdisk. unfold loadents. rewrite -> Hdisk.
  rewrite -> put_ents_split in Hk |- *. rewrite -> !length_app, !length_put in Hk.
  change (length (putstring ents_magic)) with 7%nat in Hk. unfold get_ents.
  destruct (Nat.ltb_spec k 7) as [H7|H7].
  { rewrite -> take_app. change (length (putstring ents_magic)) with 7%nat.
    replace (k - 7)%nat with 0%nat by lia. rewrite -> take_0, app_nil_r, eval_bind.
    change (eval (expect ?m) ?l) with (fst (expect m l)). by rewrite -> expect_cut by done. }
  rewrite -> take_app, take_ge by done. change (length (putstring ents_magic)) with 7%nat.
  rewrite -> (eval_step _ _ _ _ _ (expect_magic _)). cbn [negb].
  destruct (Nat.leb_spec 11 k) as [H11|H11].
  - rewrite -> take_app, length_put, take_ge by (rewrite -> length_put; lia).
    rewrite -> (eval_step _ _ _ _ _ (get_uint_put _ _ Hcrc)).
    destruct (Nat.ltb_spec k 15) as [H15|H15].
    + rewrite -> (eval_step _ _ _ _ _ (get_int_cut (k - 7 - 4) _ _ ltac:(lia))). reflexivity.
    + rewrite -> (eval_step _ _ _ _ _ (get_int_take (k - 7 - 4) _ _ (ents_size_int _ He) ltac:(lia))).
      apply get_body_cut; [done|done|lia].
  - destruct (Nat.ltb_spec k 15) as [H15|H15]; [|lia].
    assert (get_uint (take (k - 7) (put_n 4 mapcrc ++ put_n 4 (zlength ents) ++ ents_body ents)) = (0, [])) as Hcut.
    { unfold get_uint. rewrite -> get_take. by destruct (Nat.leb_spec 4 (k - 7)); [lia|]. }
    rewrite -> (eval_step _ _ _ _ _ Hcut). reflexivity.
Qed.
End disk.

(** ** A small map *)
Definition ents_sample : list entity :=
  [mkentity (mkvec (f32_of_int 512) (f32_lit 3 (-1)) (f32_of_int (-7))) 90 (-3) 0 0 32767 20 0;
   mkentity vec0 0 0 0 0 0 8 255].
Lemma ents_sample_ok : ents_size ents_sample.
Proof.
  assert (forall l, Forall (fun n => -32768 <= n < 32768) l -> Forall is_short l) as Hs by done.
  assert (is_f32 (f32_of_int 512) /\ is_f32 (f32_lit 3 (-1)) /\ is_f32 (f32_of_int (-7))) as (H1&H2&H3).
  { vm_compute. split_and!; right; split_and!; done. }
  split; [|by vm_compute]. apply Forall_cons. split; [|apply Forall_cons; split; [|done]];
    (split_and!; [apply Hs; cbn; decide_now|done|done|]).
  - apply Forall_cons. split; [done|]. apply Forall_cons. split; [done|]. apply Forall_cons. by split.
  - by repeat constructor.
Qed.
Definition disk_with (data : bytes) : Files := {|
  ctime_text := []; strftime_text := []; opens_for_writing := fun _ => true; recorded := fun _ => [];
  gzfile := fun _ => Some data; tempfile := true |}.
Lemma ents_roundtrip_witness :
  loadents (files := disk_with (put_ents ents_sample 77)) (cstr "reissen") [] 0 = (true, (ents_sample, 77)).
Proof.
  apply (ents_roundtrip (files := disk_with (put_ents ents_sample 77)) (cstr "reissen") ents_sample 77
    (ents_file (cstr "reissen")) (put_ents ents_sample 77) [] 0); [exact ents_sample_ok|done|reflexivity|reflexivity].
Defined.
Lemma ents_truncated_witness :
  let files k := disk_with (take k (put_ents ents_sample 77)) in
  loadents (files := files 12%nat) (cstr "reissen") [] 0 = (true, ([], 77)) /\
  loadents (files := files 40%nat) (cstr "reissen") [] 0 = (false, ([], 77)).
Proof.
  intros files. assert (length (put_ents ents_sample 77) = 83%nat) as Hlen by reflexivity. split.
  - apply (ents_truncated (files := files 12%nat) (cstr "reissen") ents_sample 77 12 [] 0);
      [exact ents_sample_ok|done|done|rewrite -> Hlen; lia|reflexivity].
  - apply (ents_truncated (files := files 40%nat) (cstr "reissen") ents_sample 77 40 [] 0);
      [exact ents_sample_ok|done|done|rewrite -> Hlen; lia|reflexivity].
Defined.
