(* ===== verification/Engine.v ===== *)
(** The engine's client table and packet delivery (engine/server.cpp), with the
    lookups of clients by number (fpsgame/server.cpp [getinfo]) it calls back.

    [sendf] formats into a growing packet; [encode] is the byte string of the
    packet, and the trace keeps the arguments.  ENet queues every packet handed
    to it: [Deliver to chan fs] is one [enet_peer_send]. *)
From S2P Require Import Prelude Wire Text Float32 Stream Game State.

(** * Packets *)

Section encode.
Context {B : Type} `{!Sink B} `{!BlockSink B}.
Definition putfloat (f : f32) (p : B) : B := sputs (put_n 4 (bits_of_f32 f)) p.
(** The elements of a block are [uchar]s. *)
Definition put_field (f : field) (p : B) : B :=
  match f with
  | FInt n => putint n p
  | FStr s => sendstring s p
  | FRaw bs => sputs (map to_uchar bs) p
  | FFloat x => putfloat x p
  end.
Definition put_fields (fs : list field) (p : B) : B := fold_left (fun p f => put_field f p) fs p.
End encode.

(** The packet [sendf] hands over: [packetbuf p(MAXTRANS); ...; p.finalize()]. *)
Definition sendf_packet (junk : Z) (fs : list field) : list Z :=
  finalize junk (put_fields (Sink0 := packetbuf_sink junk) (BlockSink0 := packetbuf_blocks junk) fs (packetbuf_new junk MAXTRANS)).

(** The four bytes of a [float], the low one first. *)
Definition float_bytes (x : f32) : list Z :=
  let b := bits_of_f32 x in [b mod 256; b / 256 mod 256; b / 65536 mod 256; b / 16777216 mod 256].
Definition field_bytes (f : field) : list Z :=
  match f with
  | FInt n => int_bytes n
  | FStr s => string_bytes s
  | FRaw bs => map to_uchar bs
  | FFloat x => float_bytes x
  end.
Definition encode (fs : list field) : list Z := concat (map field_bytes fs).

(** * Looking clients up *)

Definition getclientinfo (i : Z) (s : server) : option nat :=
  sl ← slots s .! i;
  if bool_decide (sl_type sl = ST_EMPTY) then None else sl_info sl.
Definition getclientip (n : Z) (s : server) : Z :=
  match slots s .! n with
  | Some sl => if bool_decide (sl_type sl = ST_TCPIP) then sl_host sl else 0
  | None => 0
  end.
Definition ENET_PEER_DEFAULT_ROUND_TRIP_TIME : Z := 500.
(** Round trip time plus variance of a peer. *)
Definition peer_rtt (n : Z) (s : server) : Z :=
  match slots s .! n with
  | Some sl => if bool_decide (sl_type sl = ST_TCPIP) then sl_rtt sl
               else ENET_PEER_DEFAULT_ROUND_TRIP_TIME
  | None => ENET_PEER_DEFAULT_ROUND_TRIP_TIME
  end.

Definition has_clientnum (n : Z) (s : server) (ci : nat) : bool := clientnum (deref ci s) =? n.

Definition getinfo (n : Z) (s : server) : option nat :=
  let by_slot :=
    if n <? MAXCLIENTS then getclientinfo n s
    else match bots s .! (n - MAXCLIENTS) with Some b => b | None => None end in
  if spycn s <=? n then
    match filter (fun ci => has_clientnum n s ci = true) (spies s) with
    | ci :: _ => Some ci
    | [] => by_slot
    end
  else by_slot.

Definition hasnonlocalclients (s : server) : bool := negb (nonlocalclients s =? 0).

Definition is_delayed_spectator (s : server) (c : clientinfo) : bool :=
  negb (spectator_delay s =? 0) && cs_eqb (state c) CS_SPECTATOR &&
  negb (privilege c =? PRIV_ADMIN).
Definition allowbroadcast (n : Z) (s : server) : bool :=
  match getinfo n s with
  | Some ci => connected (deref ci s) && negb (is_delayed_spectator s (deref ci s))
  | None => false
  end.
(** [real_cn]: the slot behind a spy's client number. *)
Definition real_cn (n : Z) (s : server) : Z :=
  match spies s .! (n - spycn s) with Some ci => ci_n (deref ci s) | None => n end.

(** * Delivery *)
Definition writedemo (chan : Z) (fs : list field) : M server unit :=
  s <- get_server ;; when (demorecord s) (emit (Record_ chan fs)).
Definition write_delayed_broadcast (chan : Z) (fs : list field) : M server unit :=
  s <- get_server ;;
  if (spectator_delay s =? 0) || negb (interm s =? 0) then ret tt
  else set_demo {{ delayed_sendpackets ::= fun l =>
                     l ++ [mkdelayed (totalmillis s + spectator_delay s) chan fs] }}.
Definition recordpacket (chan : Z) (fs : list field) : M server unit :=
  writedemo chan fs ;; write_delayed_broadcast chan fs.

(** [sendpacket] to one slot; a slot that holds no peer receives nothing. *)
Definition sendpacket_one (n chan : Z) (fs : list field) : M server unit :=
  s <- get_server ;;
  let n := if spycn s <=? n then real_cn n s else n in
  match slots s .! n with
  | Some sl => when (bool_decide (sl_type sl = ST_TCPIP)) (emit (Deliver n chan fs))
  | None => ret tt
  end.
Definition sendpacket_with (demooverride n chan : Z) (fs : list field) (exclude : Z)
    : M server unit :=
  when (if demooverride =? 0 then n <? 0 else demooverride =? 1) (recordpacket chan fs) ;;
  if n <? 0 then
    s <- get_server ;;
    forM (seqZ 0 (zlength (slots s))) (fun i =>
      s <- get_server ;;
      when (negb (i =? exclude) && allowbroadcast i s) (
        when (negb (demooverride =? 0) && (demooverride =? 1)) (recordpacket chan fs) ;;
        sendpacket_one i chan fs))
  else sendpacket_one n chan fs.
Definition sendpacket (n chan : Z) (fs : list field) (exclude : Z) : M server unit :=
  sendpacket_with 0 n chan fs exclude.

(** [sendf(cn, chan, format, ...)]; [sendfx] is the format with an [x]. *)
Definition sendfx (cn chan exclude : Z) (fs : list field) : M server unit :=
  sendpacket cn chan fs exclude.
Definition sendf (cn chan : Z) (fs : list field) : M server unit := sendfx cn chan (-1) fs.
(** The format with a [d]: recorded although it goes to one client. *)
Definition sendfd (cn chan : Z) (fs : list field) : M server unit :=
  sendpacket_with 1 cn chan fs (-1).

Definition sendservmsg (s : cstring) : M server unit := sendf (-1) 1 (message N_SERVMSG [FStr s]).
Definition sendprivtext (ci : nat) (text : cstring) : M server unit :=
  s <- get_server ;;
  when (aitype (deref ci s) =? AI_NONE)
    (sendf (clientnum (deref ci s)) 1 (message N_SERVMSG [FStr text])).

(** * Delivery changes nothing but the outbox *)

(** A projection that does not see the outbox and the delayed packets. *)
Class IgnoresIO {T} (π : server -> T) := {
  ignores_out : forall s f, π (s <| sv_out ::= f |>) = π s;
  ignores_demo : forall s f, π (s <| sv_demo ::= f |>) = π s
}.
#[export] Hint Extern 0 (IgnoresIO _) => split; intros; reflexivity : typeclass_instances.

Section delivery.
Context {T} (R : relation server) `{!PreOrder R} (π : server -> T) `{!FramedBy R π}
  `{!IgnoresIO π}.

Lemma respects_emit o : respects R (emit o).
Proof using Type*. unfold emit. eapply respects_frame; [done|]. intros s. apply ignores_out. Qed.
Lemma respects_set_demo f : respects R (set_demo f).
Proof using Type*. unfold set_demo. eapply respects_frame; [done|]. intros s. apply ignores_demo. Qed.
#[local] Hint Resolve respects_emit respects_set_demo : respects.
Lemma respects_recordpacket chan fs : respects R (recordpacket chan fs).
Proof using Type*. unfold recordpacket, writedemo, write_delayed_broadcast. solve_respects. Qed.
#[local] Hint Resolve respects_recordpacket : respects.
Lemma respects_sendpacket_one n chan fs : respects R (sendpacket_one n chan fs).
Proof using Type*. unfold sendpacket_one. solve_respects. Qed.
#[local] Hint Resolve respects_sendpacket_one : respects.
Lemma respects_sendpacket_with o n chan fs ex : respects R (sendpacket_with o n chan fs ex).
Proof using Type*. unfold sendpacket_with. solve_respects. Qed.
End delivery.

Ltac delivers := unfold sendprivtext, sendservmsg, sendf, sendfx, sendfd, sendpacket;
  solve [ eapply respects_sendpacket_with; apply _ | eapply respects_recordpacket; apply _ ].
#[export] Hint Extern 2 (respects _ (sendf _ _ _)) => delivers : respects.
#[export] Hint Extern 2 (respects _ (sendfx _ _ _ _)) => delivers : respects.
#[export] Hint Extern 2 (respects _ (sendfd _ _ _)) => delivers : respects.
#[export] Hint Extern 2 (respects _ (sendpacket _ _ _ _)) => delivers : respects.
#[export] Hint Extern 2 (respects _ (sendservmsg _)) => delivers : respects.
#[export] Hint Extern 2 (respects _ (recordpacket _ _)) => delivers : respects.

Lemma respects_sendprivtext {T} R `{!PreOrder R} (π : server -> T) `{!FramedBy R π}
    `{!IgnoresIO π} ci text : respects R (sendprivtext ci text).
Proof. unfold sendprivtext. solve_respects. Qed.
#[export] Hint Extern 2 (respects _ (sendprivtext _ _)) =>
  eapply respects_sendprivtext; apply _ : respects.

(** * Packets are their encodings *)

Section put_fields.
Context {B : Type} `{!Sink B} `{!SinkLaws B} `{!BlockSink B} `{!BlockSinkLaws B}.

Lemma float_bytes_eq x : put_n 4 (bits_of_f32 x) = float_bytes x.
Proof. unfold float_bytes, put_n. cbv zeta. by rewrite -> !Z.div_div. Qed.
Lemma emits_putfloat x : emits (B := B) (putfloat x) (float_bytes x).
Proof.
  unfold putfloat. rw -float_bytes_eq. apply emits_block. rw float_bytes_eq.
  repeat constructor; apply Z.mod_pos_bound; lia.
Qed.
Lemma emits_put_field f : emits (B := B) (put_field f) (field_bytes f).
Proof.
  destruct f as [n|s|bs|x]; simpl; [apply emits_putint|apply emits_sendstring| |apply emits_putfloat].
  apply emits_block. apply Forall_fmap, Forall_forall. intros b _. apply to_uchar_range.
Qed.
Lemma emits_put_fields fs : emits (B := B) (put_fields fs) (encode fs).
Proof.
  induction fs as [|f fs IH]; simpl; [apply emits_id|].
  apply (emits_compose (put_field f) _ _ _ (emits_put_field f) IH).
Qed.
End put_fields.

Lemma finalize_written junk p :
  buf_wf (ubuf p) -> finalize junk p = written (ubuf p).
Proof.
  intros ([? ?]&?&_). unfold finalize, resize, written. simpl. unfold enet_packet_resize.
  by rewrite -> (proj2 (Z.leb_le _ _)) by lia.
Qed.

Lemma packetbuf_new_room junk n k :
  is_uchar junk -> 0 < n -> @sroom _ (packetbuf_sink junk) (packetbuf_new junk n) k.
Proof.
  intros Hj Hn. simpl. unfold buf_wf, zlength. simpl. rw length_replicate.
  split_and!; try done; try lia. by apply Forall_replicate.
Qed.

(** * Properties *)

(** C12: [sendf] sends what it was asked to: whatever the allocator leaves in
    fresh memory and however often the packet has to grow past [MAXTRANS], the
    finalized packet is exactly the concatenation of the encodings of its
    arguments, with no byte lost or added. *)
Theorem sendf_packet_encodes (junk : Z) (fs : list field) :
  is_uchar junk -> sendf_packet junk fs = encode fs.
Proof.
  intros Hj. unfold sendf_packet.
  pose proof (fun k => packetbuf_new_room junk MAXTRANS k Hj ltac:(done)) as Hroom.
  destruct (emits_put_fields (B := packetbuf) (Sink0 := packetbuf_sink junk) (BlockSink0 := packetbuf_blocks junk) fs
              (packetbuf_new junk MAXTRANS) 0%nat (Hroom _)) as [(_&Hwf&_) Hw].
  rw finalize_written; [exact Hw|exact Hwf].
Qed.

Lemma sendf_packet_encodes_witness :
  let fs := message N_SETTEAM [FInt (-200); FStr (cstr "good"); FInt 1; FRaw (replicate (Z.to_nat 6000) 7); FFloat (f32_lit 3 (-1))] in
  sendf_packet 170 fs = encode fs.
Proof. apply (sendf_packet_encodes 170). decide_now. Defined.
