(* ===== verification/Intermission.v ===== *)
(** The end of a match: time left, player ranks and intermission
    (fpsgame/server.cpp [checkintermission], hopmod/server_functions.cpp). *)
From S2P Require Import Prelude Text Game State Engine.

Section intermission.
Context {hooks : Hooks}.

Definition get_minutes_left (s : server) : Z :=
  if gamelimit s <=? gamemillis s then 0
  else (gamelimit s - gamemillis s + 60000 - 1) ÷ 60000.
Definition get_seconds_left (s : server) : Z :=
  if gamelimit s <=? gamemillis s then 0 else (gamelimit s - gamemillis s) ÷ 1000.
(** The value of N_TIMEUP wherever the match time is announced. *)
Definition time_left (s : server) : Z :=
  if (gamemillis s <? gamelimit s) && (interm s =? 0)
  then tmax ((gamelimit s - gamemillis s) ÷ 1000) 1 else 0.

Definition changetime (remaining : Z) : M server unit :=
  s <- get_server ;;
  set_game {{ gamelimit := gamemillis s + remaining }} ;;
  when (0 <? remaining) (sendf (-1) 1 (message N_TIMEUP [FInt (remaining ÷ 1000)])) ;;
  set_game {{ next_timeupdate := gamemillis s + Z.rem remaining (60 * 1000) }} ;;
  s <- get_server ;;
  when (gamemillis s <? next_timeupdate s)
    (fire "timeupdate" [AInt (get_minutes_left s); AInt (get_seconds_left s)] ;; ret tt).
Definition set_minutes_left (mins : Z) : M server unit := changetime (mins * 1000 * 60).
Definition set_seconds_left (seconds : Z) : M server unit := changetime (seconds * 1000).

(** ** Ranks

    [std::sort] by descending score; equal scores share a rank, so the order
    of equals does not matter. *)
Fixpoint insert_score (x : Z * nat) (l : list (Z * nat)) : list (Z * nat) :=
  match l with
  | [] => [x]
  | y :: l' => if y.1 <? x.1 then x :: l else y :: insert_score x l'
  end.
Definition sort_scores (l : list (Z * nat)) : list (Z * nat) := foldr insert_score [] l.
Fixpoint assign_ranks (rank_ : Z) (prev : option Z) (l : list (Z * nat)) : list (nat * Z) :=
  match l with
  | [] => []
  | (score, ci) :: l =>
    let r := if bool_decide (prev = Some score) then rank_ else rank_ + 1 in
    (ci, r) :: assign_ranks r (Some score) l
  end.
Definition rank_players (s : server) (team_ : option cstring) : M server unit :=
  let in_team c := match team_ with None => true | Some t => bool_decide (team c = t) end in
  let players := map (fun ci => (frags (deref ci s), ci))
    (filter (fun ci => cs_eqb (state (deref ci s)) CS_SPECTATOR = false /\
                       in_team (deref ci s) = true) (clients s)) in
  forM (assign_ranks 0 None (sort_scores players))
    (fun '(ci, r) => upd_ci ci {{ rank := r }}).

(** [get_teams]: the distinct team names, converted to UTF-8. *)
Definition get_teams (s : server) : list (list Z) :=
  remove_dups (map (fun ci => encodeutf8 (team (deref ci s))) (clients s)).
Definition calc_player_ranks : M server unit :=
  s <- get_server ;;
  if m_edit (gamemode s) then ret tt
  else if m_teammode (gamemode s)
  then forM (get_teams s) (fun t => s <- get_server ;; rank_players s (Some t))
  else rank_players s None.

(** ** Intermission

    [checkovertime] asks the base modes for their scores; it is an argument
    so that the base modes can end a match themselves. *)
Definition checkintermission_with (checkovertime : M server bool) (force : bool) : M server unit :=
  s <- get_server ;;
  if (gamelimit s <=? gamemillis s) && (interm s =? 0) then
    extended <- (if force then ret false else checkovertime) ;;
    if (extended : bool) then ret tt else
    fire "timeupdate" [AInt 0; AInt 0] ;;
    s <- get_server ;;
    if gamemillis s <? gamelimit s then ret tt else
    sendf (-1) 1 (message N_TIMEUP [FInt 0]) ;;
    set_game {{ interm := gamemillis s + intermtime s }} ;;
    calc_player_ranks ;;
    fire "intermission" [] ;; ret tt
  else ret tt.

(** With [force] the overtime rule is not consulted. *)
Definition startintermission : M server unit :=
  s <- get_server ;;
  set_game {{ gamelimit := tmin (gamelimit s) (gamemillis s) }} ;;
  checkintermission_with (ret false) true.

(** *** Frames *)
Context {T} (R : relation server) `{!PreOrder R} (π : server -> T) `{!FramedBy R π}
  `{!IgnoresIO π} `{!HooksRespect R}
  (limit_ignored : forall s n, π (s <| sv_game ::= {{ gamelimit := n }} |>) = π s)
  (interm_ignored : forall s n, π (s <| sv_game ::= {{ interm := n }} |>) = π s)
  (ranks_ignored : forall s ci r,
     π (s <| sv_roster ::= {{ ci_heap ::= alter {{ rank := r }} ci }} |>) = π s).

Lemma respects_calc_player_ranks : respects R calc_player_ranks.
Proof using Type*.
  assert (forall s t, respects R (rank_players s t)) as Hr.
  { intros s t. unfold rank_players. apply respects_forM; [done|]. intros [ci r] _.
    eapply respects_frame; [done|]. intros; apply ranks_ignored. }
  unfold calc_player_ranks. solve_respects.
Qed.
Lemma respects_startintermission : respects R startintermission.
Proof using Type*.
  assert (forall n, respects R (set_game {{ gamelimit := n }})).
  { intros n. eapply respects_frame; [done|]. intros; apply limit_ignored. }
  assert (forall n, respects R (set_game {{ interm := n }})).
  { intros n. eapply respects_frame; [done|]. intros; apply interm_ignored. }
  pose proof respects_calc_player_ranks.
  unfold startintermission, checkintermission_with. solve_respects.
Qed.
End intermission.
