(* ===== verification/Ctf.v ===== *)
(** Capture the flag, protect and hold (fpsgame/ctf.h, the [SERVMODE] side).

    The flags are a vector indexed by the flag number; the handlers read and
    write [flags[i]] in place.  [dropflag], [returnflag] and [ownflag] on a flag
    number are the pure functions [flag_drop], [flag_return] and [flag_own] of
    the flag; the handlers on a client keep the source's names with a [ctf_]
    prefix. *)
From S2P Require Import Prelude Wire Text Float32 Game Random State Engine Intermission.

(** [ctfteamflag], [ctfflagteam]. *)
Definition ctfteamflag (s : cstring) : Z :=
  if bool_decide (s = good) then 1 else if bool_decide (s = evil) then 2 else 0.
Definition ctfflagteam (i : Z) : option cstring :=
  if i =? 1 then Some good else if i =? 2 then Some evil else None.
Definition team_arg (t : option cstring) : arg :=
  match t with Some t => AStr t | None => ANull end.

Definition BASERADIUS : Z := 64.
Definition BASEHEIGHT : Z := 24.
Definition MAXFLAGS : Z := 20.
Definition FLAGLIMIT : Z := 10.
Definition MAXHOLDSPAWNS : Z := 100.
Definition HOLDSECS : Z := 20.
Definition HOLDFLAGS : Z := 1.
Definition HOLDDEATHPENALTY : Z := 5.
Definition RESPAWNSECS : Z := 5.
Definition RESETFLAGTIME : Z := 10000.
Definition INVISFLAGTIME : Z := 20000.

(** * One flag *)

Definition flag_reset (f : flag) : flag :=
  mkflag (f_id f) 0 (-1) vec0 vec0 0 0 0 0 (-1) 0 (-1) 0 (-1) 0.
Definition flag_new : flag := flag_reset (mkflag (-1) 0 0 vec0 vec0 0 0 0 0 0 0 0 0 0 0).

Definition hasowner (f : flag) : bool := 0 <=? f_owner f.
Definition holdcounter (lastmillis : Z) (f : flag) : Z :=
  if holdtime f =? 0 then 0
  else if negb (hasowner f) && negb (f_droptime f =? 0) && (holdtime f <=? f_droptime f)
  then tmax ((f_droptime f - holdtime f) - (lastmillis - f_droptime f)) 0
  else lastmillis - holdtime f.

Definition flag_own (owner owntime_ ownteam : Z) (f : flag) : flag :=
  let f := f <| f_owner := owner |> <| owntime := owntime_ |> in
  let f :=
    if negb (holdtime f =? 0) && (f_team f =? ownteam) then
      let f := if negb (f_droptime f =? 0) && (f_droptime f <? owntime_)
               then f <| holdtime ::= Z.add (2 * (owntime_ - f_droptime f)) |> else f in
      f <| holdtime ::= fun h => tmin h owntime_ |>
    else
      let f := f <| holdtime := owntime_ |> in
      if 0 <=? ownteam then f <| f_team := ownteam |> else f in
  let f :=
    if owner =? f_dropper f
    then if dropcount f <? INT_MAX then f <| dropcount ::= Z.add 1 |> else f
    else f <| dropcount := 0 |> in
  f <| f_dropper := -1 |> <| invistime := 0 |>.

Definition flag_drop (o : vec) (droptime dropper : Z) (penalty : bool) (f : flag) : flag :=
  let f := f <| droploc := o |> <| f_droptime := droptime |> in
  let f := if dropper <? 0 then f <| dropcount := 0 |>
           else if penalty then f <| dropcount := INT_MAX |> else f in
  f <| f_dropper := dropper |> <| f_owner := -1 |> <| invistime := 0 |> <| tmillis := -1 |>
    <| drops ::= Z.add 1 |>.

Definition flag_return (invistime_ : Z) (f : flag) : flag :=
  f <| f_droptime := 0 |> <| holdtime := 0 |> <| dropcount := 0 |> <| f_owner := -1 |>
    <| f_dropper := -1 |> <| invistime := invistime_ |> <| tmillis := -1 |> <| drops := 0 |>.

Definition flag_dead (lastmillis : Z) (f : flag) : flag :=
  if holdtime f =? 0 then f else
  let limit := if negb (hasowner f) && negb (f_droptime f =? 0) && (holdtime f <=? f_droptime f)
               then f_droptime f else lastmillis in
  let f := f <| holdtime ::= Z.add (HOLDDEATHPENALTY * 1000) |> in
  if limit <=? holdtime f then f <| holdtime := 0 |> else f.

(** [f.dropper = -1; f.dropcount = 0] where [f.dropper] is the client. *)
Definition flag_forget (cn : Z) (f : flag) : flag :=
  if f_dropper f =? cn then f <| f_dropper := -1 |> <| dropcount := 0 |> else f.

(** * The vectors *)

Definition resetflags (c : ctfstate) : ctfstate :=
  c <| holdspawns := [] |> <| flags := [] |> <| ctf_scores := (0, 0) |>.
Definition ctf_reset (empty : bool) (c : ctfstate) : ctfstate :=
  resetflags c <| notgotflags := negb empty |>.

(** [while(v.length() <= i) v.add(x)]. *)
Definition grow {A} (x : A) (i : Z) (l : list A) : list A :=
  l ++ replicate (Z.to_nat (i + 1 - zlength l)) x.

Definition addflag (i : Z) (o : vec) (team_ invistime_ : Z) (c : ctfstate) : bool * ctfstate :=
  if (i <? 0) || (MAXFLAGS <=? i) then (false, c) else
  (true, c <| flags ::= fun l => zalter
     (fun f => flag_reset (f <| f_id := i |>) <| f_team := team_ |> <| spawnloc := o |>
                 <| invistime := invistime_ |>) i (grow flag_new i l) |>).

Definition addholdspawn (o : vec) (c : ctfstate) : bool * ctfstate :=
  if MAXHOLDSPAWNS <=? zlength (holdspawns c) then (false, c)
  else (true, c <| holdspawns ::= fun l => l ++ [o] |>).

Definition two_get (team : Z) (sc : Z * Z) : Z :=
  if team =? 1 then sc.1 else if team =? 2 then sc.2 else 0.
Definition two_set (team v : Z) (sc : Z * Z) : Z * Z :=
  if team =? 1 then (v, sc.2) else if team =? 2 then (sc.1, v) else sc.
Definition totalscore (team : Z) (c : ctfstate) : Z := two_get team (ctf_scores c).
Definition setscore (team score : Z) (c : ctfstate) : ctfstate :=
  c <| ctf_scores ::= two_set team score |>.
Definition addscore (team score : Z) (c : ctfstate) : Z * ctfstate :=
  if (1 <=? team) && (team <=? 2)
  then (totalscore team c + score, setscore team (totalscore team c + score) c)
  else (0, c).

Definition ctf_getteamscore (team : cstring) (c : ctfstate) : Z := totalscore (ctfteamflag team) c.
Definition ctf_getteamscores (c : ctfstate) : list (cstring * Z) :=
  (if fst (ctf_scores c) =? 0 then [] else [(good, fst (ctf_scores c))]) ++
  (if snd (ctf_scores c) =? 0 then [] else [(evil, snd (ctf_scores c))]).
Definition ctf_insidebase (f : flag) (o : vec) : bool :=
  in_cylinder BASERADIUS BASEHEIGHT (spawnloc f) o.

Definition flag_at (i : Z) (c : ctfstate) : flag := default flag_new (flags c .! i).
Definition flag_indices (c : ctfstate) : list Z := seqZ 0 (zlength (flags c)).
(** The first flag a client owns. *)
Definition owned_flag (cn : Z) (c : ctfstate) : option Z :=
  head (filter (fun j => f_owner (flag_at j c) = cn) (flag_indices c)).

(** A position on the wire: [int(x*DMF)]. *)
Definition wire_pos (o : vec) : Z * Z * Z :=
  (f32_to_int (fmul (vx o) DMF), f32_to_int (fmul (vy o) DMF), f32_to_int (fmul (vz o) DMF)).
Definition unwire_pos (p : Z * Z * Z) : vec :=
  let '(x, y, z) := p in
  mkvec (fdiv (f32_of_int x) DMF) (fdiv (f32_of_int y) DMF) (fdiv (f32_of_int z) DMF).

(** * The handlers *)
Section ctf.
Context {hooks : Hooks}.

Definition upd_flag (i : Z) (f : flag -> flag) : M server unit :=
  set_ctf {{ flags ::= zalter f i }}.
(** [++f.version] *)
Definition next_version (i : Z) : M server Z :=
  upd_flag i {{ version ::= Z.succ }} ;; gets (fun s : server => version (flag_at i s)).
Definition mode_hold (s : server) : bool := m_hold (gamemode s).
Definition mode_protect (s : server) : bool := m_protect (gamemode s).

(** At most four draws for a spawn point other than the present one. *)
Fixpoint draw_spawn (tries : nat) (n present last : Z) : M server Z :=
  match tries with
  | O => ret last
  | S tries =>
    i <- rand n ;; if negb (i =? present) then ret i else draw_spawn tries n present i
  end.
Definition spawnflag (i : Z) : M server unit :=
  s <- get_server ;;
  if bool_decide (holdspawns s = []) then ret tt else
  let present := spawnindex (flag_at i s) in
  j <- draw_spawn 4 (zlength (holdspawns s)) present present ;;
  upd_flag i {{ spawnindex := j }}.

Definition resetflag_event (i : Z) : M server unit :=
  s <- get_server ;;
  fire "resetflag" [team_arg (ctfflagteam (f_team (flag_at i s)))] ;; ret tt.
(** [sendf(-1, 1, "ri6", N_RESETFLAG, i, ++f.version, f.spawnindex, team, score)]. *)
Definition send_resetflag (i team_ score : Z) : M server unit :=
  v <- next_version i ;;
  s <- get_server ;;
  sendf (-1) 1 (message N_RESETFLAG
    [FInt i; FInt v; FInt (spawnindex (flag_at i s)); FInt team_; FInt score]) ;;
  resetflag_event i.

(** [while(flags.length() < HOLDFLAGS)]: every turn adds a flag, so
    [HOLDFLAGS] turns are enough. *)
Fixpoint fill_holdflags (fuel : nat) : M server unit :=
  match fuel with
  | O => ret tt
  | S fuel =>
    s <- get_server ;;
    let i := zlength (flags s) in
    if HOLDFLAGS <=? i then ret tt else
    let '(ok, c) := addflag i vec0 0 0 (sv_ctf s) in
    if negb ok then ret tt else
    set_ctf (fun _ => c) ;; spawnflag i ;; send_resetflag i 0 0 ;; fill_holdflags fuel
  end.
Definition setupholdspawns : M server unit :=
  s <- get_server ;;
  if negb (mode_hold s) || bool_decide (holdspawns s = []) then ret tt
  else fill_holdflags (Z.to_nat HOLDFLAGS).

Definition ctf_cleanup : M server unit := set_ctf (ctf_reset false).
Definition ctf_newmap : M server unit := set_ctf (ctf_reset true).

(** The loops over the map entities stop at the first refused entry. *)
Fixpoint add_holdspawns (es : list entity) (c : ctfstate) : ctfstate :=
  match es with
  | [] => c
  | e :: es =>
    if negb (e_type e =? BASE) then add_holdspawns es c
    else let '(ok, c) := addholdspawn (e_o e) c in if ok then add_holdspawns es c else c
  end.
Fixpoint add_mapflags (invistime_ : Z) (es : list entity) (c : ctfstate) : ctfstate :=
  match es with
  | [] => c
  | e :: es =>
    if negb (e_type e =? FLAG) || (attr2 e <? 1) || (2 <? attr2 e)
    then add_mapflags invistime_ es c
    else
      let '(ok, c) := addflag (zlength (flags c)) (e_o e) (attr2 e) invistime_ c in
      if ok then add_mapflags invistime_ es c else c
  end.
Definition ctf_setup : M server unit :=
  set_ctf (ctf_reset false) ;;
  s <- get_server ;;
  if notgotitems s || bool_decide (ments s = []) then ret tt else
  (if mode_hold s then set_ctf (add_holdspawns (ments s)) ;; setupholdspawns
   else set_ctf (add_mapflags (if mode_protect s then lastmillis s else 0) (ments s))) ;;
  set_ctf {{ notgotflags := false }}.

(** One flag of [dropflag(ci, dropper)]. *)
Definition drop_one (ci : nat) (dropper : option nat) (i : Z) : M server unit :=
  s <- get_server ;;
  let c := deref ci s in
  if negb (f_owner (flag_at i s) =? clientnum c) then ret tt
  else if mode_protect s && ctf_insidebase (flag_at i s) (pos c) then
    upd_flag i (flag_return 0) ;;
    v <- next_version i ;;
    sendf (-1) 1 (message N_RETURNFLAG [FInt (clientnum c); FInt i; FInt v]) ;;
    s <- get_server ;;
    fire "returnflag" [AInt (clientnum c); team_arg (ctfflagteam (f_team (flag_at i s)))] ;;
    ret tt
  else
    let '((x, y, z) as o) := wire_pos (pos c) in
    v <- next_version i ;;
    sendf (-1) 1 (message N_DROPFLAG
      [FInt (clientnum c); FInt i; FInt v; FInt x; FInt y; FInt z]) ;;
    s <- get_server ;;
    fire "dropflag" [AInt (clientnum c); team_arg (ctfflagteam (f_team (flag_at i s)))] ;;
    s <- get_server ;;
    let by_ := match dropper with Some d => clientnum (deref d s) | None => clientnum c end in
    upd_flag i (flag_drop (unwire_pos o) (lastmillis s) by_
      (match dropper with Some d => negb (d =? ci)%nat | None => false end)).
Definition ctf_dropflag (ci : nat) (dropper : option nat) : M server unit :=
  s <- get_server ;;
  if notgotflags s then ret tt else forM (flag_indices s) (drop_one ci dropper).

(** [loopv(flags) if(flags[i].dropper == ci->clientnum) ...]. *)
Definition forget_dropper (ci : nat) : M server unit :=
  s <- get_server ;; set_ctf {{ flags ::= map (flag_forget (clientnum (deref ci s))) }}.

Definition ctf_leavegame (ci : nat) (disconnecting : bool) : M server unit :=
  ctf_dropflag ci None ;; forget_dropper ci.

Definition ctf_died (ci : nat) (actor : option nat) : M server unit :=
  s <- get_server ;;
  if notgotflags s then ret tt else
  when (mode_hold s) (set_ctf {{ flags ::= map (fun f =>
    if f_owner f =? clientnum (deref ci s) then flag_dead (lastmillis s) f else f) }}) ;;
  let dropper := match actor with
    | Some a => if ctftkpenalty s && negb (a =? ci)%nat &&
                   isteam s (team (deref a s)) (team (deref ci s)) then Some a else None
    | None => None
    end in
  ctf_dropflag ci dropper ;; forget_dropper ci.

Definition ctf_canspawn (ci : nat) (connecting : bool) (s : server) : bool :=
  if m_efficiency (gamemode s) || negb (mode_protect s)
  then connecting || (lastdeath (deref ci s) =? 0) ||
       (RESPAWNSECS * 1000 <=? gamemillis s + curtime s - lastdeath (deref ci s))
  else true.
Definition ctf_canchangeteam (newteam : cstring) : bool := 0 <? ctfteamflag newteam.
Definition ctf_changeteam (ci : nat) : M server unit := ctf_dropflag ci None.

Definition scoreflag (ci : nat) (goal relay : Z) : M server unit :=
  s <- get_server ;;
  let i := if 0 <=? relay then relay else goal in
  let tt_ := if -1 <? tmillis (flag_at i s) then totalmillis s - tmillis (flag_at i s) else -1 in
  let old := timetrial (deref ci s) in
  when ((old =? 0) || (tt_ <? old)) (upd_ci ci {{ timetrial := tt_ }}) ;;
  upd_flag i (flag_return (if mode_protect s then lastmillis s else 0)) ;;
  upd_gs ci {{ flagscore ::= Z.add 1 }} ;;
  s <- get_server ;;
  let team_ := ctfteamflag (team (deref ci s)) in
  let '(score, c) := addscore team_ 1 (sv_ctf s) in
  set_ctf (fun _ => c) ;;
  when (mode_hold s) (spawnflag goal) ;;
  rv <- (if 0 <=? relay then next_version relay else ret (-1)) ;;
  gv <- next_version goal ;;
  s <- get_server ;;
  sendf (-1) 1 (message N_SCOREFLAG
    [FInt (clientnum (deref ci s)); FInt relay; FInt rv; FInt goal; FInt gv;
     FInt (spawnindex (flag_at goal s)); FInt team_; FInt score;
     FInt (flagscore (deref ci s))]) ;;
  fire "scoreflag" [AInt (clientnum (deref ci s)); AStr (team (deref ci s)); AInt score;
                    AInt tt_] ;;
  when (FLAGLIMIT <=? score) startintermission.

(** The guard of [takeflag]: which client may touch which flag. *)
Definition can_take (ci : nat) (i version_ : Z) (s : server) : bool :=
  let c := deref ci s in
  let f := flag_at i s in
  negb (notgotflags s) && bool_decide (is_Some (flags s .! i)) &&
  cs_eqb (state c) CS_ALIVE && negb (bool_decide (team c = [])) &&
  (if mode_hold s then 0 <=? spawnindex f else bool_decide (is_Some (ctfflagteam (f_team f)))) &&
  (f_owner f <? 0) && (version f =? version_) &&
  negb (negb (f_droptime f =? 0) && (f_dropper f =? clientnum c) && (3 <=? dropcount f)).

Definition takeflag (ci : nat) (i version_ : Z) : M server unit :=
  s <- get_server ;;
  if negb (can_take ci i version_ s) then ret tt else
  let c := deref ci s in
  let f := flag_at i s in
  let team_ := ctfteamflag (team c) in
  if mode_hold s || Bool.eqb (mode_protect s) (f_team f =? team_) then
    match owned_flag (clientnum c) s with
    | Some _ => ret tt
    | None =>
      upd_flag i (flag_own (clientnum c) (lastmillis s) (if mode_hold s then team_ else -1)) ;;
      v <- next_version i ;;
      sendf (-1) 1 (message N_TAKEFLAG [FInt (clientnum c); FInt i; FInt v]) ;;
      s <- get_server ;;
      when (drops (flag_at i s) =? 0) (upd_flag i {{ tmillis := totalmillis s }}) ;;
      fire "takeflag" [AInt (clientnum c); team_arg (ctfflagteam (f_team (flag_at i s)))] ;;
      ret tt
    end
  else if mode_protect s then when (invistime f =? 0) (scoreflag ci i (-1))
  else if negb (f_droptime f =? 0) then
    upd_flag i (flag_return 0) ;;
    v <- next_version i ;;
    sendf (-1) 1 (message N_RETURNFLAG [FInt (clientnum c); FInt i; FInt v]) ;;
    fire "returnflag" [AInt (clientnum c); team_arg (ctfflagteam (f_team f))] ;;
    ret tt
  else match owned_flag (clientnum c) s with
       | Some j => scoreflag ci i j
       | None => ret tt
       end.

(** One flag of [update]. *)
Definition update_flag (i : Z) : M server unit :=
  s <- get_server ;;
  let f := flag_at i s in
  when ((f_owner f <? 0) && negb (f_droptime f =? 0) &&
        (RESETFLAGTIME <=? lastmillis s - f_droptime f)) (
    upd_flag i (flag_return (if mode_protect s then lastmillis s else 0)) ;;
    when (mode_hold s) (spawnflag i) ;;
    s <- get_server ;;
    let f := flag_at i s in
    score <- (if mode_hold s then ret 0 else
      let '(score, c) := addscore (f_team f) (if mode_protect s then -1 else 0) (sv_ctf s) in
      set_ctf (fun _ => c) ;; ret score) ;;
    send_resetflag i (if mode_hold s then 0 else f_team f) score) ;;
  s <- get_server ;;
  let f := flag_at i s in
  when (negb (invistime f =? 0) && (INVISFLAGTIME <=? lastmillis s - invistime f)) (
    upd_flag i {{ invistime := 0 }} ;;
    sendf (-1) 1 (message N_INVISFLAG [FInt i; FInt 0])) ;;
  s <- get_server ;;
  let f := flag_at i s in
  when (mode_hold s && (0 <=? f_owner f) && (HOLDSECS * 1000 <=? lastmillis s - holdtime f))
    (match getinfo (f_owner f) s with
     | Some ci => scoreflag ci i (-1)
     | None => spawnflag i ;; send_resetflag i 0 0
     end).
Definition ctf_update : M server unit :=
  s <- get_server ;;
  if (gamelimit s <=? gamemillis s) || notgotflags s then ret tt
  else forM (flag_indices s) update_flag.

(** What [initclient] appends to the welcome packet. *)
Definition flag_fields (s : server) (f : flag) : list field :=
  [FInt (version f); FInt (spawnindex f); FInt (f_owner f);
   FInt (if invistime f =? 0 then 0 else 1)] ++
  (if f_owner f <? 0 then
     FInt (if f_droptime f =? 0 then 0 else 1) ::
     (if f_droptime f =? 0 then [] else
      let '(x, y, z) := wire_pos (droploc f) in [FInt x; FInt y; FInt z])
   else []) ++
  (if mode_hold s then
     if (f_team f =? 0) || (holdtime f =? 0) then [FInt (-1)]
     else [FInt (f_team f); FInt (holdcounter (lastmillis s) f ÷ 100)]
   else []).
Definition ctf_initclient (s : server) : list field :=
  message N_INITFLAGS ([FInt (fst (ctf_scores s)); FInt (snd (ctf_scores s));
                        FInt (zlength (flags s))] ++ concat (map (flag_fields s) (flags s))).

(** [o[k] = max(getint(p)/DMF, 0.0f)]. *)
Definition getcoord : M ucharbuf f32 :=
  n <- getint ;; let x := fdiv (f32_of_int n) DMF in ret (if fgt x f32_zero then x else f32_zero).
Definition getteampos : M ucharbuf (Z * vec) :=
  t <- getint ;; x <- getcoord ;; y <- getcoord ;; z <- getcoord ;; ret (t, mkvec x y z).

(** The commit half of [parseflags], on what the packet held. *)
Definition commit_flags (items : list (Z * vec)) : M server unit :=
  s <- get_server ;;
  if negb (notgotflags s) then ret tt else
  set_ctf (fun c =>
    if mode_hold s then fold_left (fun c it => (addholdspawn it.2 c).2) items c
    else fold_left (fun c '(i, it) =>
           (addflag i it.2 it.1 (if mode_protect s then lastmillis s else 0) c).2)
           (zip (seqZ 0 (zlength items)) items) c) ;;
  when (mode_hold s) setupholdspawns ;;
  set_ctf {{ notgotflags := false }}.
End ctf.

(** * The invariant

    A flag that is carried has no dropper and is visible; no client carries two
    flags; while the server waits for the flags of the map nobody carries one. *)
Definition flag_ok (f : flag) : Prop := 0 <= f_owner f -> f_dropper f = -1 /\ invistime f = 0.
Definition owners_unique (l : list flag) : Prop :=
  forall i j f g, l !! i = Some f -> l !! j = Some g ->
    0 <= f_owner f -> f_owner f = f_owner g -> i = j.
Definition unowned (f : flag) : Prop := f_owner f < 0.
Record ctf_wf (c : ctfstate) : Prop := {
  wf_flags : zlength (flags c) <= MAXFLAGS;
  wf_spawns : zlength (holdspawns c) <= MAXHOLDSPAWNS;
  wf_ok : Forall flag_ok (flags c);
  wf_unique : owners_unique (flags c);
  wf_waiting : notgotflags c = true -> Forall unowned (flags c)
}.

(** A step that creates no new carrier. *)
Definition calm (x y : flag) : Prop :=
  flag_ok x -> flag_ok y /\ (f_owner y = f_owner x \/ f_owner y < 0).
Definition calm_fun (f : flag -> flag) : Prop := forall x, calm x (f x).

Lemma calm_refl x : calm x x.
Proof. intros H. auto. Qed.

Lemma zalter_Forall2 {A} (R : A -> A -> Prop) f i l :
  (forall x, R x x) -> (forall x, R x (f x)) -> Forall2 R l (zalter f i l).
Proof.
  intros Hr Hf. unfold zalter. destruct (0 <=? i); [|by apply Forall_Forall2_diag, Forall_true].
  apply Forall2_lookup. intros j. destruct (decide (Z.to_nat i = j)) as [<-|Hne].
  - rw list_lookup_alter_eq. destruct (l !! _); simpl; by constructor.
  - rewrite -> list_lookup_alter_ne by done. destruct (l !! j); by constructor.
Qed.
Lemma map_Forall2 {A} (R : A -> A -> Prop) f l : (forall x, R x (f x)) -> Forall2 R l (map f l).
Proof. intros Hf. induction l; simpl; constructor; auto. Qed.

Lemma calm_wf c l : ctf_wf c -> Forall2 calm (flags c) l -> ctf_wf (c <| flags := l |>).
Proof.
  intros [Hn Hs Hok Hu Hw] Hc. assert (Forall flag_ok l) as Hok'.
  { apply Forall_lookup. intros i y Hy.
    destruct (Forall2_lookup_r _ _ _ _ _ Hc Hy) as (x&Hx&Hxy).
    apply Hxy. by eapply Forall_lookup_1 in Hok. }
  constructor; simpl; [|done|done| |].
  - unfold zlength in *. by rw -(Forall2_length _ _ _ Hc).
  - intros i j y z Hy Hz Hoy Eyz.
    destruct (Forall2_lookup_r _ _ _ _ _ Hc Hy) as (x&Hx&Hxy).
    destruct (Forall2_lookup_r _ _ _ _ _ Hc Hz) as (w&Hww&Hwz).
    destruct (Hxy ltac:(by eapply Forall_lookup_1 in Hok)) as [_ [?|?]]; [|lia].
    destruct (Hwz ltac:(by eapply Forall_lookup_1 in Hok)) as [_ [?|?]]; [|lia].
    apply (Hu i j x w); [done|done|lia|lia].
  - intros Hng. specialize (Hw Hng). apply Forall_lookup. intros i y Hy.
    destruct (Forall2_lookup_r _ _ _ _ _ Hc Hy) as (x&Hx&Hxy).
    destruct (Hxy ltac:(by eapply Forall_lookup_1 in Hok)) as [_ [E|?]]; [|done].
    unfold unowned. rw E. by eapply Forall_lookup_1 in Hw.
Qed.

Lemma calm_zalter c f i : calm_fun f -> ctf_wf c -> ctf_wf (c <| flags ::= zalter f i |>).
Proof.
  intros Hf Hwf. apply (calm_wf c (zalter f i (flags c)) Hwf).
  apply zalter_Forall2; [apply calm_refl|apply Hf].
Qed.
Lemma calm_map c f : calm_fun f -> ctf_wf c -> ctf_wf (c <| flags ::= map f |>).
Proof.
  intros Hf Hwf. apply (calm_wf c (map f (flags c)) Hwf). by apply map_Forall2.
Qed.

(** The updates of the handlers are calm. *)
Ltac calm := intros x Hx; unfold flag_ok in *; simpl; repeat case_match; simpl in *; (split; lia).
Lemma calm_return n : calm_fun (flag_return n).
Proof. unfold flag_return. calm. Qed.
Lemma calm_drop o t d p : calm_fun (flag_drop o t d p).
Proof. unfold flag_drop. calm. Qed.
Lemma calm_version : calm_fun {{ version ::= Z.succ }}.
Proof. calm. Qed.
Lemma calm_spawnindex j : calm_fun {{ spawnindex := j }}.
Proof. calm. Qed.
Lemma calm_tmillis t : calm_fun {{ tmillis := t }}.
Proof. calm. Qed.
Lemma calm_invistime : calm_fun {{ invistime := 0 }}.
Proof. calm. Qed.
Lemma calm_forget cn : calm_fun (flag_forget cn).
Proof. unfold flag_forget. calm. Qed.
Lemma calm_dead_owned cn t :
  calm_fun (fun f => if f_owner f =? cn then flag_dead t f else f).
Proof. unfold flag_dead. calm. Qed.
Create HintDb calm.
#[export] Hint Resolve calm_return calm_drop calm_version calm_spawnindex calm_tmillis
  calm_invistime calm_forget calm_dead_owned : calm.

(** ** The state transformers *)
Lemma ctf_reset_wf e c : ctf_wf (ctf_reset e c).
Proof. constructor; simpl; try done; try (unfold zlength; simpl; unfold MAXFLAGS, MAXHOLDSPAWNS; lia). Qed.

Lemma ctf_scores_wf c f : ctf_wf c -> ctf_wf (c <| ctf_scores ::= f |>).
Proof. by intros [? ? ? ? ?]; constructor. Qed.
Lemma addscore_wf t n c : ctf_wf c -> ctf_wf (addscore t n c).2.
Proof. unfold addscore, setscore. case_match; [|done]. apply ctf_scores_wf. Qed.
Lemma addscore_pair_wf t n c sc c' : addscore t n c = (sc, c') -> ctf_wf c -> ctf_wf c'.
Proof. intros E. replace c' with (addscore t n c).2 by by rw E. apply addscore_wf. Qed.
Lemma ctf_started_wf c : ctf_wf c -> ctf_wf (c <| notgotflags := false |>).
Proof. by intros [? ? ? ? ?]; constructor. Qed.
Lemma addholdspawn_wf o c : ctf_wf c -> ctf_wf (addholdspawn o c).2.
Proof.
  intros [? Hs ? ? ?]. unfold addholdspawn. case_match eqn:E; [done|].
  constructor; simpl; try done. apply Z.leb_gt in E. rw zlength_snoc. lia.
Qed.

Lemma grow_wf i c :
  i < MAXFLAGS -> ctf_wf c -> ctf_wf (c <| flags ::= grow flag_new i |>).
Proof.
  intros Hi [Hn Hs Hok Hu Hw]. unfold grow.
  assert (forall j f, (flags c ++ replicate (Z.to_nat (i + 1 - zlength (flags c))) flag_new)
    !! j = Some f -> flags c !! j = Some f \/ f = flag_new) as Hl.
  { intros j f [Hj|[_ [-> _]%lookup_replicate]]%lookup_app_Some; auto. }
  constructor; simpl; [| done | | |].
  - rw zlength_app. unfold zlength at 2. rw length_replicate. lia.
  - apply Forall_app. split; [done|]. by apply Forall_replicate.
  - intros j k f g [Hf| ->]%Hl [Hg| ->]%Hl Ho E; [eauto| | |]; simpl in *; lia.
  - intros Hng. apply Forall_app. split; [auto|]. by apply Forall_replicate.
Qed.
Lemma addflag_wf i o t n c : ctf_wf c -> ctf_wf (addflag i o t n c).2.
Proof.
  intros Hwf. unfold addflag. destruct (Z.ltb_spec i 0); [done|].
  destruct (Z.leb_spec MAXFLAGS i); [done|]. simpl.
  pose proof (grow_wf i c ltac:(lia) Hwf) as Hg.
  apply (calm_zalter _ (fun f => flag_reset (f <| f_id := i |>) <| f_team := t |>
           <| spawnloc := o |> <| invistime := n |>) i) in Hg; [exact Hg|]. calm.
Qed.
Lemma add_holdspawns_wf es : forall c, ctf_wf c -> ctf_wf (add_holdspawns es c).
Proof.
  induction es as [|e es IH]; intros c Hwf; simpl; [done|].
  case_match; [auto|]. pose proof (addholdspawn_wf (e_o e) c Hwf).
  destruct (addholdspawn _ c) as [[] c']; auto.
Qed.
Lemma add_mapflags_wf n es : forall c, ctf_wf c -> ctf_wf (add_mapflags n es c).
Proof.
  induction es as [|e es IH]; intros c Hwf; simpl; [done|].
  case_match; [auto|]. pose proof (addflag_wf (zlength (flags c)) (e_o e) (attr2 e) n c Hwf).
  destruct (addflag _ _ _ _ c) as [[] c']; auto.
Qed.

(** ** The handlers *)
Abbreviation ctf_inv := (inv_on sv_ctf ctf_wf).

Lemma respects_set_ctf f : (forall c, ctf_wf c -> ctf_wf (f c)) -> respects ctf_inv (set_ctf f).
Proof. intros Hf. apply respects_inv_on. intros s. apply Hf. Qed.
Lemma respects_upd_flag i f : calm_fun f -> respects ctf_inv (upd_flag i f).
Proof. intros Hf. apply respects_set_ctf. intros c. by apply calm_zalter. Qed.
Lemma respects_map_flags f : calm_fun f -> respects ctf_inv (set_ctf {{ flags ::= map f }}).
Proof. intros Hf. apply respects_set_ctf. intros c. by apply calm_map. Qed.
Lemma respects_ctf_started : respects ctf_inv (set_ctf {{ notgotflags := false }}).
Proof. apply respects_set_ctf, ctf_started_wf. Qed.
#[export] Hint Extern 1 (respects _ (upd_flag _ _)) =>
  apply respects_upd_flag; solve [auto with calm] : respects.
#[export] Hint Extern 1 (respects _ (set_ctf {{ flags ::= map _ }})) =>
  apply respects_map_flags; solve [auto with calm] : respects.
#[export] Hint Resolve respects_ctf_started : respects.

Section ctf_invariant.
Context {hooks : Hooks} `{!HooksRespect ctf_inv}.

Lemma respects_next_version i : respects ctf_inv (next_version i).
Proof using Type*. unfold next_version. solve_respects. Qed.
#[local] Hint Resolve respects_next_version : respects.
Lemma respects_draw_spawn k n p l : respects ctf_inv (draw_spawn k n p l).
Proof using Type*. revert l. induction k; intros l; simpl; solve_respects. Qed.
#[local] Hint Resolve respects_draw_spawn : respects.
Lemma respects_spawnflag i : respects ctf_inv (spawnflag i).
Proof using Type*. unfold spawnflag. solve_respects. Qed.
#[local] Hint Resolve respects_spawnflag : respects.
Lemma respects_send_resetflag i t sc : respects ctf_inv (send_resetflag i t sc).
Proof using Type*. unfold send_resetflag, resetflag_event. solve_respects. Qed.
#[local] Hint Resolve respects_send_resetflag : respects.
Lemma respects_ctf_intermission : respects ctf_inv startintermission.
Proof using Type*. eapply respects_startintermission; try apply _; reflexivity. Qed.
#[local] Hint Resolve respects_ctf_intermission : respects.

(** A step that installs a state computed from the present one. *)
Lemma respects_install {A} (c : ctfstate) (k : unit -> M server A) s :
  (ctf_wf (sv_ctf s) -> ctf_wf c) -> (forall u, respects ctf_inv (k u)) ->
  ctf_inv s (exec (bind (set_ctf (fun _ => c)) k) s).
Proof using Type*.
  intros Hc Hk. apply respects_bind_at; [apply _| |exact Hk]. exact Hc.
Qed.

Lemma respects_fill_holdflags k : respects ctf_inv (fill_holdflags k).
Proof using Type*.
  induction k as [|k IH]; simpl; [solve_respects|].
  apply (respects_read _ id). intros s. cbn [id].
  destruct (HOLDFLAGS <=? _); [apply respects_ret; apply _|].
  pose proof (addflag_wf (zlength (flags s)) vec0 0 0 (sv_ctf s)) as Hwf.
  destruct (addflag _ _ _ _ _) as [ok c]. destruct ok; simpl; [|by apply respects_ret; apply _].
  apply respects_install; [exact Hwf|]. intros _. solve_respects.
Qed.
#[local] Hint Resolve respects_fill_holdflags : respects.
Lemma respects_setupholdspawns : respects ctf_inv setupholdspawns.
Proof using Type*. unfold setupholdspawns. solve_respects. Qed.
#[local] Hint Resolve respects_setupholdspawns : respects.

Lemma respects_ctf_cleanup : respects ctf_inv ctf_cleanup.
Proof using Type*. apply respects_set_ctf. intros. apply ctf_reset_wf. Qed.
Lemma respects_ctf_newmap : respects ctf_inv ctf_newmap.
Proof using Type*. apply respects_set_ctf. intros. apply ctf_reset_wf. Qed.
Lemma respects_ctf_setup : respects ctf_inv ctf_setup.
Proof using Type*.
  pose proof (respects_set_ctf _ (fun c _ => ctf_reset_wf false c)).
  unfold ctf_setup. solve_respects; apply respects_set_ctf; intros c;
    [apply add_holdspawns_wf|apply add_mapflags_wf].
Qed.
Lemma respects_drop_one ci d i : respects ctf_inv (drop_one ci d i).
Proof using Type*. unfold drop_one. cbv zeta. solve_respects. Qed.
#[local] Hint Resolve respects_drop_one : respects.
Lemma respects_ctf_dropflag ci d : respects ctf_inv (ctf_dropflag ci d).
Proof using Type*. unfold ctf_dropflag. solve_respects. Qed.
#[local] Hint Resolve respects_ctf_dropflag : respects.
Lemma respects_forget_dropper ci : respects ctf_inv (forget_dropper ci).
Proof using Type*. unfold forget_dropper. solve_respects. Qed.
#[local] Hint Resolve respects_forget_dropper : respects.
Lemma respects_ctf_leavegame ci b : respects ctf_inv (ctf_leavegame ci b).
Proof using Type*. unfold ctf_leavegame. solve_respects. Qed.
Lemma respects_ctf_died ci a : respects ctf_inv (ctf_died ci a).
Proof using Type*. unfold ctf_died. cbv zeta. solve_respects. Qed.
Lemma respects_ctf_changeteam ci : respects ctf_inv (ctf_changeteam ci).
Proof using Type*. unfold ctf_changeteam. solve_respects. Qed.

Lemma respects_scoreflag ci goal relay : respects ctf_inv (scoreflag ci goal relay).
Proof using Type*.
  unfold scoreflag. cbv zeta.
  apply respects_bind; [apply _|solve_respects|intros s0].
  apply respects_bind; [apply _|solve_respects|intros _].
  apply respects_bind; [apply _|solve_respects|intros _].
  apply respects_bind; [apply _|solve_respects|intros _].
  apply (respects_read _ id). intros s. cbn [id].
  destruct (addscore _ _ _) as [sc c] eqn:E.
  apply respects_install; [by eapply addscore_pair_wf|]. intros _. solve_respects.
Qed.
#[local] Hint Resolve respects_scoreflag : respects.

Lemma owned_flag_None cn c :
  owned_flag cn c = None -> forall (i : nat) f, flags c !! i = Some f -> f_owner f <> cn.
Proof using.
  unfold owned_flag. intros Hn i f Hf E.
  assert (filter (fun j => f_owner (flag_at j c) = cn) (flag_indices c) = []) as Hnil.
  { by destruct (filter _ _). }
  assert (Z.of_nat i ∈ filter (fun j => f_owner (flag_at j c) = cn) (flag_indices c)) as Hin;
    [|rw Hnil in Hin; by apply not_elem_of_nil in Hin].
  apply list_elem_of_filter. apply lookup_lt_Some in Hf as Hl. split.
  - unfold flag_at, zlookup. rewrite -> (proj2 (Z.leb_le _ _)) by lia.
    by rw Nat2Z.id Hf.
  - apply elem_of_seqZ. unfold zlength. lia.
Qed.

Lemma flag_own_carrier cn t tm x :
  f_owner (flag_own cn t tm x) = cn /\ f_dropper (flag_own cn t tm x) = -1 /\
  invistime (flag_own cn t tm x) = 0.
Proof using. unfold flag_own. repeat case_match; done. Qed.

Lemma flag_own_wf cn t tm i c :
  ctf_wf c -> notgotflags c = false -> owned_flag cn c = None ->
  ctf_wf (c <| flags ::= zalter (flag_own cn t tm) i |>).
Proof using.
  intros [Hn Hs Hok Hu Hw] Hg Hno. pose proof (owned_flag_None _ _ Hno) as Hfree.
  unfold zalter. destruct (Z.leb_spec 0 i); [|by constructor].
  assert (forall j y, alter (flag_own cn t tm) (Z.to_nat i) (flags c) !! j = Some y ->
    (j = Z.to_nat i /\ f_owner y = cn /\ flag_ok y) \/
    (j <> Z.to_nat i /\ flags c !! j = Some y)) as Hl.
  { intros j y. destruct (decide (j = Z.to_nat i)) as [->|Hne].
    - rw list_lookup_alter_eq. intros (x&Hx& ->)%fmap_Some_1.
      destruct (flag_own_carrier cn t tm x) as (?&?&?). left. by unfold flag_ok.
    - rewrite -> list_lookup_alter_ne by done. auto. }
  constructor; simpl; [|done| | |by rw Hg].
  - unfold zlength in *. by rw length_alter.
  - apply Forall_lookup. intros j y [(_&_&?)|(_&Hy)]%Hl; [done|].
    by eapply Forall_lookup_1 in Hok.
  - intros j k y z [(->&Ey&_)|(Hj&Hy)]%Hl [(->&Ez&_)|(Hk&Hz)]%Hl Ho E; [done| | |].
    + destruct (Hfree k z Hz). congruence.
    + destruct (Hfree j y Hy). congruence.
    + by apply (Hu j k y z).
Qed.

Lemma respects_takeflag ci i v : respects ctf_inv (takeflag ci i v).
Proof using Type*.
  unfold takeflag. apply (respects_read _ id). intros s. cbn [id]. cbv zeta.
  destruct (can_take ci i v s) eqn:Hcan; cbn [negb]; [|apply respects_ret; apply _].
  assert (notgotflags s = false) as Hg.
  { unfold can_take in Hcan. destruct (notgotflags s); [done|reflexivity]. }
  case_match.
  - destruct (owned_flag _ _) eqn:Hown; [apply respects_ret; apply _|].
    apply respects_bind_at; [apply _| |intros _; solve_respects].
    intros Hwf. by apply (flag_own_wf _ _ _ _ (sv_ctf s)).
  - revert s Hcan Hg H. intros s _ _ _.
    assert (forall m : M server unit, respects ctf_inv m -> ctf_inv s (exec m s)) as Hm
      by (intros m Hm; apply Hm).
    apply Hm. solve_respects.
Qed.

Lemma respects_update_flag i : respects ctf_inv (update_flag i).
Proof using Type*.
  assert (forall t n, respects ctf_inv (s <- get_server ;;
    let '(score, c) := addscore t n (sv_ctf s) in set_ctf (fun _ => c) ;; ret score)) as Hadd.
  { intros t n. apply (respects_read _ id). intros s. cbn [id].
    destruct (addscore _ _ _) as [sc c] eqn:E.
    apply respects_install; [by eapply addscore_pair_wf|]. intros _. solve_respects. }
  unfold update_flag. cbv zeta.
  apply respects_bind; [apply _|solve_respects|intros s0].
  apply respects_bind; [apply _| |intros _; solve_respects].
  apply respects_when; [apply _|].
  apply respects_bind; [apply _|solve_respects|intros _].
  apply respects_bind; [apply _|solve_respects|intros _].
  apply (respects_read _ id). intros s. cbn [id].
  destruct (mode_hold s).
  - assert (forall m : M server unit, respects ctf_inv m -> ctf_inv s (exec m s)) as Hm
      by (intros m Hm; apply Hm).
    apply Hm. solve_respects.
  - apply respects_bind_at; [apply _| |intros sc; solve_respects].
    destruct (addscore _ _ _) as [sc c] eqn:E.
    apply respects_install; [by eapply addscore_pair_wf|]. intros _. solve_respects.
Qed.
#[local] Hint Resolve respects_update_flag : respects.
Lemma respects_ctf_update : respects ctf_inv ctf_update.
Proof using Type*. unfold ctf_update. solve_respects. Qed.

Lemma respects_commit_flags items : respects ctf_inv (commit_flags items).
Proof using Type*.
  unfold commit_flags. apply respects_bind; [apply _|solve_respects|intros s].
  destruct (negb (notgotflags s)); [solve_respects|].
  apply respects_bind; [apply _| |intros _; solve_respects].
  apply respects_set_ctf. intros c Hwf. case_match.
  - clear -Hwf. revert c Hwf. induction items as [|it l IH]; intros c Hwf; simpl; [done|].
    apply IH. by apply addholdspawn_wf.
  - generalize (zip (seqZ 0 (zlength items)) items). clear -Hwf. intros l. revert c Hwf.
    induction l as [|[i it] l IH]; intros c Hwf; simpl; [done|]. apply IH. by apply addflag_wf.
Qed.
End ctf_invariant.

(** * The whole protocol of the mode *)
Inductive ctf_op : Set :=
| CtfSetup | CtfNewmap | CtfCleanup | CtfFlags (items : list (Z * vec)) | CtfUpdate
| CtfLeave (ci : nat) (disconnecting : bool) | CtfDied (ci : nat) (actor : option nat)
| CtfChangeteam (ci : nat) | CtfDrop (ci : nat) (dropper : option nat)
| CtfTake (ci : nat) (i version : Z).

Definition run_ctf {hooks : Hooks} (op : ctf_op) : M server unit :=
  match op with
  | CtfSetup => ctf_setup
  | CtfNewmap => ctf_newmap
  | CtfCleanup => ctf_cleanup
  | CtfFlags items => commit_flags items
  | CtfUpdate => ctf_update
  | CtfLeave ci d => ctf_leavegame ci d
  | CtfDied ci a => ctf_died ci a
  | CtfChangeteam ci => ctf_changeteam ci
  | CtfDrop ci d => ctf_dropflag ci d
  | CtfTake ci i v => takeflag ci i v
  end.

Lemma respects_run_ctf {hooks : Hooks} `{!HooksRespect ctf_inv} op : respects ctf_inv (run_ctf op).
Proof.
  destruct op; simpl;
    eauto using respects_ctf_setup, respects_ctf_newmap, respects_ctf_cleanup,
      respects_commit_flags, respects_ctf_update, respects_ctf_leavegame, respects_ctf_died,
      respects_ctf_changeteam, respects_ctf_dropflag, respects_takeflag.
Qed.

(** ** Abstract flags

    What the rules of capture the flag talk about: each flag's team and where
    it is. *)
Inductive place : Set := AtBase | Dropped | Carried (cn : Z).
Definition place_of (f : flag) : place :=
  if 0 <=? f_owner f then Carried (f_owner f)
  else if f_droptime f =? 0 then AtBase else Dropped.
Definition ctf_abs (c : ctfstate) : list (Z * place) * (Z * Z) :=
  (map (fun f => (f_team f, place_of f)) (flags c), ctf_scores c).

(** The rules for a player of [team] who touches flag [i]; [mine] is the flag
    the player carries. *)
Definition ctf_rules (cn team i : Z) (mine : option Z) (a : list (Z * place) * (Z * Z))
    : list (Z * place) * (Z * Z) :=
  let '(fs, sc) := a in
  let move j p := zalter (fun x => (x.1, p)) j fs in
  match fs .! i, mine with
  | Some (t, AtBase), Some j =>
    if t =? team then (move j AtBase, two_set team (two_get team sc + 1) sc) else a
  | Some (t, Dropped), Some j => if t =? team then (move i AtBase, sc) else a
  | Some (t, Dropped), None => if t =? team then (move i AtBase, sc) else (move i (Carried cn), sc)
  | Some (t, AtBase), None => if t =? team then a else (move i (Carried cn), sc)
  | _, _ => a
  end.

Definition same_place (x y : flag) : Prop := f_team y = f_team x /\ place_of y = place_of x.

Lemma map_zalter {A B} (g : A -> B) f f' i l :
  (forall x, g (f x) = f' (g x)) -> map g (zalter f i l) = zalter f' i (map g l).
Proof.
  intros Hg. unfold zalter. destruct (0 <=? i); [|done].
  apply list_eq. intros j. change (map g) with (fmap (M := list) g).
  rw list_lookup_fmap. destruct (decide (j = Z.to_nat i)) as [->|Hne].
  - rw !list_lookup_alter_eq list_lookup_fmap. destruct (_ !! _); simpl; [by rw Hg|done].
  - rewrite -> !list_lookup_alter_ne by done. by rw list_lookup_fmap.
Qed.
Lemma zalter_id {A} (f : A -> A) i l : (forall x, f x = x) -> zalter f i l = l.
Proof.
  intros Hf. unfold zalter. destruct (0 <=? i); [|done]. apply list_eq. intros j.
  destruct (decide (j = Z.to_nat i)) as [->|Hne].
  - rw list_lookup_alter_eq. destruct (l !! _); simpl; [by rw Hf|done].
  - by rewrite -> list_lookup_alter_ne by done.
Qed.
Lemma abs_same c f i :
  (forall x, same_place x (f x)) -> ctf_abs (c <| flags ::= zalter f i |>) = ctf_abs c.
Proof.
  intros Hf. unfold ctf_abs. simpl. f_equal.
  rw (map_zalter _ _ (fun x => x)); [by rw zalter_id|].
  intros x. destruct (Hf x) as [-> ->]. done.
Qed.
Lemma abs_move c f i p :
  (forall x, f_team (f x) = f_team x /\ place_of (f x) = p) ->
  ctf_abs (c <| flags ::= zalter f i |>) =
  (zalter (fun x => (x.1, p)) i (ctf_abs c).1, (ctf_abs c).2).
Proof.
  intros Hf. unfold ctf_abs. simpl. f_equal. apply map_zalter.
  intros x. destruct (Hf x) as [-> ->]. done.
Qed.

Section ctf_refinement.
Context {hooks : Hooks} `{!HooksRespect (eq_on sv_ctf)}.
Abbreviation keeps_abs := (eq_on (fun s => ctf_abs (sv_ctf s))).

#[local] Instance keeps_abs_framed : FramedBy keeps_abs sv_ctf.
Proof. unfold FramedBy, eq_on. congruence. Qed.
#[local] Instance keeps_abs_hooks : HooksRespect keeps_abs.
Proof using Type*.
  intros e s. pose proof (hooks_respect (R := eq_on sv_ctf) e s) as H.
  unfold eq_on in *. by rw H.
Qed.

Lemma keeps_abs_flag i f : (forall x, same_place x (f x)) -> respects keeps_abs (upd_flag i f).
Proof using. intros Hf s. unfold eq_on, upd_flag, set_ctf, exec, modify. simpl. by rw abs_same. Qed.
Lemma keeps_abs_version i : respects keeps_abs (next_version i).
Proof using.
  assert (respects keeps_abs (upd_flag i {{ version ::= Z.succ }})) by (by apply keeps_abs_flag).
  unfold next_version. solve_respects.
Qed.
#[local] Hint Resolve keeps_abs_version : respects.
Lemma keeps_abs_tmillis i t : respects keeps_abs (upd_flag i {{ tmillis := t }}).
Proof using. by apply keeps_abs_flag. Qed.
#[local] Hint Resolve keeps_abs_tmillis : respects.
Lemma keeps_abs_intermission : respects keeps_abs startintermission.
Proof using Type*. eapply respects_startintermission; try apply _; reflexivity. Qed.
#[local] Hint Resolve keeps_abs_intermission : respects.

Lemma sv_ctf_upd_flag i f s :
  sv_ctf (exec (upd_flag i f) s) = sv_ctf s <| flags ::= zalter f i |>.
Proof using. done. Qed.

(** Running [m] first and then a continuation that keeps the abstraction. *)
Lemma abs_bind {A B} (m : M server A) (k : A -> M server B) s :
  (forall a, respects keeps_abs (k a)) ->
  ctf_abs (sv_ctf (exec (bind m k) s)) = ctf_abs (sv_ctf (exec m s)).
Proof using. intros Hk. rw exec_bind. symmetry. apply Hk. Qed.

Lemma scoreflag_abs ci goal relay s :
  mode_hold s = false ->
  let i := if 0 <=? relay then relay else goal in
  let t := ctfteamflag (team (deref ci s)) in
  let a := ctf_abs (sv_ctf s) in
  ctf_abs (sv_ctf (exec (scoreflag ci goal relay) s)) =
  (zalter (fun x => (x.1, AtBase)) i a.1, two_set t (two_get t a.2 + 1) a.2).
Proof using Type*.
  intros Hh i t a. unfold scoreflag. cbv zeta.
  rw (exec_bind get_server). cbn [eval gets get_server fst snd exec id].
  fold i. set (tt_ := if -1 <? _ then _ else _).
  set (m1 := when _ (upd_ci _ _)). set (s1 := exec m1 s).
  assert (sv_ctf s1 = sv_ctf s /\ team (deref ci s1) = team (deref ci s) /\
          sv_game s1 = sv_game s) as (E1&E2&E3).
  { subst s1 m1. unfold when. case_match; [|done]. split_and!; [done| |done].
    by apply (deref_alter team). }
  rw (exec_bind m1). fold s1. clearbody s1. clear m1.
  rw (exec_bind (upd_flag i _)). set (s2 := exec (upd_flag i _) s1).
  rw (exec_bind (upd_gs ci _)). set (s3 := exec (upd_gs ci _) s2).
  assert (sv_game s3 = sv_game s /\ team (deref ci s3) = team (deref ci s) /\
    ctf_abs (sv_ctf s3) = (zalter (fun x => (x.1, AtBase)) i a.1, a.2)) as (F1&F2&F3).
  { split_and!; [done| |].
    - rw -E2. by apply (deref_alter team {{ ci_state ::= {{ flagscore ::= Z.add 1 }} }} ci ci s2).
    - subst a. rw -E1. by apply (abs_move (sv_ctf s1) (flag_return _) i AtBase). }
  clearbody s3. clear s2.
  rw (exec_bind get_server). cbn [eval gets get_server fst snd exec id].
  rw F2. fold t. rw (surjective_pairing (addscore t 1 (sv_ctf s3))).
  rw abs_bind; last first.
  - intros _. unfold mode_hold in *. rw F1 Hh. cbn [when]. solve_respects.
  - cbn. unfold addscore, two_set, totalscore, setscore.
    assert (ctf_scores (sv_ctf s3) = a.2) as Es by (by injection F3).
    destruct (Z.eqb_spec t 1) as [Et|]; [|destruct (Z.eqb_spec t 2) as [Et|]].
    + rw Et. cbn. unfold ctf_abs in *. cbn. rw Es. injection F3 as -> _. done.
    + rw Et. cbn. unfold ctf_abs in *. cbn. rw Es. injection F3 as -> _. done.
    + rewrite -> (proj2 (andb_false_iff _ _)) by lia. done.
Qed.

(** What the guard of [takeflag] tells about the flag. *)
Lemma can_take_place ci i v s :
  can_take ci i v s = true ->
  exists f, flags s .! i = Some f /\ flag_at i s = f /\ f_owner f < 0 /\
    (ctf_abs (sv_ctf s)).1 .! i = Some (f_team f, if f_droptime f =? 0 then AtBase else Dropped).
Proof using.
  unfold can_take. intros Hcan. repeat (apply andb_true_iff in Hcan as [Hcan ?]).
  assert (is_Some (flags s .! i)) as [f Hf] by by eapply bool_decide_eq_true_1.
  assert (flag_at i s = f) as Ef by (unfold flag_at; by rw Hf).
  exists f. rw Ef in H1. apply Z.ltb_lt in H1. split_and!; [done|done|done|].
  unfold ctf_abs, zlookup in *. cbn [fst]. destruct (0 <=? i); [|done].
  change (map ?g ?l) with (g <$> l). rw list_lookup_fmap Hf. cbn. unfold place_of.
  by zdecide.
Qed.

Lemma place_own cn t tm x :
  0 <= cn -> tm = -1 ->
  f_team (flag_own cn t tm x) = f_team x /\ place_of (flag_own cn t tm x) = Carried cn.
Proof using.
  intros Hcn ->. destruct (flag_own_carrier cn t (-1) x) as (E&_&_).
  split; [|unfold place_of; rw E; by zdecide].
  unfold flag_own. destruct (_ && _); destruct (_ =? _); repeat case_match; done.
Qed.

Lemma takeflag_abs ci i v s :
  mode_hold s = false -> mode_protect s = false ->
  0 <= clientnum (deref ci s) -> can_take ci i v s = true ->
  ctf_abs (sv_ctf (exec (takeflag ci i v) s)) =
  ctf_rules (clientnum (deref ci s)) (ctfteamflag (team (deref ci s))) i
    (owned_flag (clientnum (deref ci s)) (sv_ctf s)) (ctf_abs (sv_ctf s)).
Proof using Type*.
  intros Hh Hp Hcn Hcan. destruct (can_take_place _ _ _ _ Hcan) as (f&Hf&Ef&Ho&Hl).
  unfold takeflag. rw (exec_bind get_server). cbn [eval gets get_server fst snd exec id].
  rw Hcan. cbn [negb]. cbv zeta. rw Hh Hp Ef.
  set (cn := clientnum (deref ci s)) in *. set (t := ctfteamflag (team (deref ci s))).
  unfold ctf_rules. rw (surjective_pairing (ctf_abs (sv_ctf s))) Hl.
  cbn [orb]. destruct (Z.eqb_spec (f_team f) t) as [Et|Et]; cbn [Bool.eqb].
  - destruct (Z.eqb_spec (f_droptime f) 0) as [Ed|Ed]; cbn [negb].
    + destruct (owned_flag cn s) as [j|] eqn:Ej; [|by rw -surjective_pairing].
      rewrite -> scoreflag_abs by done. cbn [fst snd]. fold t.
      assert (0 <= j) as Hj; [|by zdecide].
      unfold owned_flag in Ej. apply head_Some in Ej as [l' Ej].
      assert (j ∈ filter (fun j => f_owner (flag_at j s) = cn) (flag_indices s)) as Hin
        by (rw Ej; set_solver).
      apply list_elem_of_filter in Hin as [_ Hin]. unfold flag_indices in Hin.
      apply elem_of_seqZ in Hin. lia.
    + rewrite -> abs_bind by (intros; solve_respects).
      rw sv_ctf_upd_flag. rewrite -> (abs_move (sv_ctf s) (flag_return 0) i AtBase) by done.
      by destruct (owned_flag cn s).
  - destruct (owned_flag cn s) as [j|] eqn:Ej.
    + rw -surjective_pairing. by destruct (f_droptime f =? 0).
    + rewrite -> abs_bind by (intros; solve_respects).
      rw sv_ctf_upd_flag. rewrite -> (abs_move (sv_ctf s) (flag_own cn (lastmillis s) (-1)) i (Carried cn))
        by (intros; by apply place_own).
      by destruct (f_droptime f =? 0).
Qed.
End ctf_refinement.

(** ** Leaving the game *)
Definition released (x y : flag) : Prop := f_owner y = f_owner x \/ f_owner y < 0.
Definition lets_go (s s' : server) : Prop :=
  sv_roster s = sv_roster s' /\ Forall2 released (flags s) (flags s').
#[global] Instance lets_go_preorder : PreOrder lets_go.
Proof.
  split; unfold lets_go.
  - intros s. split; [done|]. apply Forall_Forall2_diag, Forall_true. intros x. by left.
  - intros s1 s2 s3 [E1 F1] [E2 F2]. split; [congruence|].
    eapply Forall2_trans; [|exact F1|exact F2]. unfold released. intros x y z. lia.
Qed.
#[global] Instance lets_go_framed : FramedBy lets_go (fun s => (sv_roster s, sv_ctf s)).
Proof.
  intros s s' [= E1 E2]. unfold lets_go. rw E1 E2. split; [done|].
  apply Forall_Forall2_diag, Forall_true. intros x. by left.
Qed.

Section ctf_leave.
Context {hooks : Hooks} `{!HooksRespect lets_go}.

Lemma lets_go_flag i f : (forall x, released x (f x)) -> respects lets_go (upd_flag i f).
Proof using.
  intros Hf s. split; [done|]. apply zalter_Forall2; [by left|done].
Qed.
Lemma lets_go_version i : respects lets_go (next_version i).
Proof using.
  assert (respects lets_go (upd_flag i {{ version ::= Z.succ }}))
    by (apply lets_go_flag; by left).
  unfold next_version. solve_respects.
Qed.
#[local] Hint Resolve lets_go_version : respects.
Lemma lets_go_return i n : respects lets_go (upd_flag i (flag_return n)).
Proof using. apply lets_go_flag. by right. Qed.
Lemma lets_go_drop i o t d p : respects lets_go (upd_flag i (flag_drop o t d p)).
Proof using.
  apply lets_go_flag. right. unfold flag_drop. repeat case_match; simpl; lia.
Qed.
#[local] Hint Resolve lets_go_return lets_go_drop : respects.

(** The flag a client carries is somewhere else after [drop_one]. *)
Lemma released_at i s s' :
  lets_go s s' -> forall cn, 0 <= cn -> f_owner (flag_at i s) <> cn ->
  f_owner (flag_at i s') <> cn.
Proof using.
  intros [_ HF] cn Hcn Hne. unfold flag_at in *. unfold zlookup in *.
  destruct (0 <=? i); [|done].
  destruct (flags s !! Z.to_nat i) as [x|] eqn:Ex.
  - destruct (Forall2_lookup_l _ _ _ _ _ HF Ex) as (y&->&Hy). simpl in *.
    unfold released in Hy. lia.
  - rewrite -> (proj1 (Forall2_lookup_None _ _ _ HF _) Ex) || idtac.
    apply lookup_ge_None in Ex. rw (Forall2_length _ _ _ HF) in Ex.
    by apply lookup_ge_None in Ex as ->.
Qed.
Lemma owner_zalter i f s cn :
  0 <= cn -> (forall x, f_owner (f x) = -1) ->
  f_owner (flag_at i (exec (upd_flag i f) s)) <> cn.
Proof using.
  intros Hcn Hf. unfold flag_at, upd_flag, set_ctf, exec, modify. simpl.
  rw zlookup_zalter_eq. destruct (flags s .! i) as [x|]; simpl; [rw Hf|]; lia.
Qed.

Lemma respects_lets_go_drop_one ci d i : respects lets_go (drop_one ci d i).
Proof using Type*. unfold drop_one. cbv zeta. solve_respects. Qed.

Lemma drop_one_releases ci d i s :
  0 <= clientnum (deref ci s) ->
  f_owner (flag_at i (exec (drop_one ci d i) s)) <> clientnum (deref ci s).
Proof using Type*.
  intros Hcn. set (cn := clientnum (deref ci s)) in *.
  unfold drop_one. rw (exec_bind get_server). cbn [eval gets get_server fst snd exec id].
  cbv zeta. fold cn.
  destruct (Z.eqb_spec (f_owner (flag_at i s)) cn) as [E|E]; cbn [negb]; [|done].
  destruct (_ && _).
  - rw (exec_bind (upd_flag i _)). set (s1 := exec (upd_flag i _) s).
    assert (f_owner (flag_at i s1) <> cn) as H1 by by apply owner_zalter.
    eapply released_at; [|exact Hcn|exact H1].
    match goal with |- lets_go s1 (exec ?m s1) => enough (respects lets_go m) as H by apply H end.
    solve_respects.
  - destruct (wire_pos _) as [[x y] z] eqn:Ew.
    rw !exec_bind. apply owner_zalter; [done|].
    intros f. unfold flag_drop. repeat case_match; done.
Qed.

Lemma drop_all_releases ci d l s i :
  0 <= clientnum (deref ci s) -> i ∈ l ->
  f_owner (flag_at i (exec (forM l (drop_one ci d)) s)) <> clientnum (deref ci s).
Proof using Type*.
  intros Hcn. revert s Hcn. induction l as [|j l IH]; intros s Hcn Hi; [by apply elem_of_nil in Hi|].
  cbn [forM]. rw exec_bind. set (s1 := exec (drop_one ci d j) s).
  assert (lets_go s s1) as Hs1 by apply respects_lets_go_drop_one.
  assert (deref ci s1 = deref ci s) as Ed by (unfold deref; by rewrite -> (proj1 Hs1)).
  apply elem_of_cons in Hi as [->|Hi].
  - assert (respects lets_go (forM l (drop_one ci d))) as Hf.
    { apply respects_forM; [apply _|]. intros. apply respects_lets_go_drop_one. }
    eapply released_at; [apply Hf|exact Hcn|by apply drop_one_releases].
  - rw -Ed. apply IH; [by rw Ed|done].
Qed.

Lemma ctf_dropflag_releases ci d s :
  0 <= clientnum (deref ci s) -> (notgotflags s = true -> Forall unowned (flags s)) ->
  lets_go s (exec (ctf_dropflag ci d) s) /\
  Forall (fun f => f_owner f <> clientnum (deref ci s)) (flags (exec (ctf_dropflag ci d) s)).
Proof using Type*.
  intros Hcn Hw.
  assert (lets_go s (exec (ctf_dropflag ci d) s)) as Hl.
  { assert (forall ci d i, respects lets_go (drop_one ci d i)) as Hd
      by (intros; apply respects_lets_go_drop_one).
    assert (respects lets_go (ctf_dropflag ci d)) as H; [|apply H].
    unfold ctf_dropflag. solve_respects. }
  split; [done|]. revert Hl. unfold ctf_dropflag. rw (exec_bind get_server).
  cbn [eval gets get_server fst snd exec id]. destruct (notgotflags s) eqn:En.
  - intros _. eapply Forall_impl; [by apply Hw|]. unfold unowned. simpl. lia.
  - intros Hl. apply Forall_lookup. intros i f Hf.
    pose proof (drop_all_releases ci d (flag_indices s) s (Z.of_nat i) Hcn) as H.
    unfold flag_at, zlookup in H. rewrite -> (proj2 (Z.leb_le 0 (Z.of_nat i))) in H by lia.
    rw Nat2Z.id Hf in H. apply H. apply elem_of_seqZ.
    apply lookup_lt_Some in Hf. unfold exec in Hf.
    pose proof (Forall2_length _ _ _ (proj2 Hl)) as El. unfold exec in El.
    unfold zlength. rw El. lia.
Qed.
End ctf_leave.

(** * Properties *)

(** Two players in capture the flag (mode 11), both flags at their bases. *)
Definition ctf_sample : server :=
  sample_server 11 [good; evil]
    <| sv_ctf := (addflag 1 vec0 2 0 (addflag 0 vec0 1 0 (mkctf [] [] (0, 0) false)).2).2 |>.

(** C13: whatever the clients send and the clock does, the flags stay consistent:
    for every sequence of the operations of the mode (map load, flag lists from
    clients, takes, drops, deaths, team changes, disconnects, updates), from a
    consistent state, there are never more than [MAXFLAGS] flags, no player ever
    carries two, a carried flag has no dropper and is visible, and nobody carries
    a flag while the server still waits for the flags of the map.  The Lua
    listeners are any programs that keep this themselves. *)
Theorem ctf_flags_invariant {hooks : Hooks} `{!HooksRespect (inv_on sv_ctf ctf_wf)}
    (ops : list ctf_op) (s : server) :
  ctf_wf (sv_ctf s) -> ctf_wf (sv_ctf (exec (forM ops run_ctf) s)).
Proof.
  assert (respects (inv_on sv_ctf ctf_wf) (forM ops run_ctf)) as H; [|apply H].
  apply respects_forM; [apply _|]. intros op _. apply respects_run_ctf.
Qed.

Lemma ctf_flags_invariant_witness :
  let ops := [CtfFlags [(1, vec0); (2, vec0)]; CtfTake 0 1 0; CtfTake 0 0 0; CtfTake 1 0 2;
              CtfDied 1 (Some 0%nat); CtfUpdate; CtfLeave 0 true] in
  ctf_wf (sv_ctf (exec (forM ops (run_ctf (hooks := no_hooks)))
    (sample_server 11 [good; evil] <| sv_ctf ::= ctf_reset false |>))).
Proof.
  apply (ctf_flags_invariant (hooks := no_hooks)
    [CtfFlags [(1, vec0); (2, vec0)]; CtfTake 0 1 0; CtfTake 0 0 0; CtfTake 1 0 2;
     CtfDied 1 (Some 0%nat); CtfUpdate; CtfLeave 0 true]).
  apply ctf_reset_wf.
Defined.

(** C14: [takeflag] plays capture the flag by the rules.  In the plain mode, a
    request that fails the guard (stale version, dead or teamless player,
    carried flag, third attempt of the last dropper) changes nothing at all; any
    other moves the flags and scores exactly as [ctf_rules] says: an enemy flag
    is picked up by a player with free hands, the own dropped flag goes home, the
    own flag at its base scores one point for the flag the player carries, which
    goes home too, and nothing else ever moves. *)
Theorem ctf_takeflag_refines {hooks : Hooks} `{!HooksRespect (eq_on sv_ctf)}
    (ci : nat) (i v : Z) (s : server) :
  m_hold (gamemode s) = false -> m_protect (gamemode s) = false ->
  0 <= clientnum (deref ci s) ->
  (can_take ci i v s = false -> exec (takeflag ci i v) s = s) /\
  (can_take ci i v s = true ->
   ctf_abs (sv_ctf (exec (takeflag ci i v) s)) =
   ctf_rules (clientnum (deref ci s)) (ctfteamflag (team (deref ci s))) i
     (owned_flag (clientnum (deref ci s)) (sv_ctf s)) (ctf_abs (sv_ctf s))).
Proof.
  intros Hh Hp Hcn. split; [|by apply takeflag_abs].
  intros Hcan. unfold takeflag. rw (exec_bind get_server).
  cbn [eval gets get_server fst snd exec id]. by rw Hcan.
Qed.

Lemma ctf_takeflag_refines_witness :
  let s := ctf_sample in
  can_take 0 1 0 s = true /\
  (can_take 0 1 0 s = false -> exec (takeflag (hooks := no_hooks) 0 1 0) s = s) /\
  (can_take 0 1 0 s = true ->
   ctf_abs (sv_ctf (exec (takeflag (hooks := no_hooks) 0 1 0) s)) =
   ctf_rules (clientnum (deref 0 s)) (ctfteamflag (team (deref 0 s))) 1
     (owned_flag (clientnum (deref 0 s)) (sv_ctf s)) (ctf_abs (sv_ctf s))).
Proof.
  split; [vm_compute; reflexivity|].
  apply (ctf_takeflag_refines (hooks := no_hooks) 0 1 0 ctf_sample);
    [vm_compute; reflexivity|vm_compute; reflexivity|vm_compute; discriminate].
Defined.

(** A player who leaves takes no flag along: after [leavegame] (disconnect,
    spectating, edit mode) no flag is carried by that client number and none
    remembers it as its dropper, in every variant of the mode, so the number can
    be given to the next client. *)
Theorem ctf_leavegame_clears {hooks : Hooks} `{!HooksRespect lets_go}
    (ci : nat) (disconnecting : bool) (s : server) :
  ctf_wf (sv_ctf s) -> 0 <= clientnum (deref ci s) ->
  Forall (fun f => f_owner f <> clientnum (deref ci s) /\ f_dropper f <> clientnum (deref ci s))
         (flags (exec (ctf_leavegame ci disconnecting) s)).
Proof.
  intros Hwf Hcn. unfold ctf_leavegame. rw (exec_bind (ctf_dropflag ci None)).
  destruct (ctf_dropflag_releases ci None s Hcn (wf_waiting _ Hwf)) as [Hl Hr].
  set (s1 := exec _ s) in *. unfold forget_dropper. rw (exec_bind get_server).
  cbn [eval gets get_server fst snd exec id].
  assert (deref ci s1 = deref ci s) as -> by (unfold deref; by rewrite -> (proj1 Hl)).
  change (flags (exec (set_ctf {{ flags ::= ?f }}) s1)) with (f (flags s1)).
  apply Forall_fmap. eapply Forall_impl; [exact Hr|]. intros f Hf. cbn.
  unfold flag_forget. destruct (Z.eqb_spec (f_dropper f) (clientnum (deref ci s))); simpl;
    split; try done; lia.
Qed.

Lemma ctf_leavegame_clears_witness :
  let s := exec (takeflag (hooks := no_hooks) 0 1 0) ctf_sample in
  owned_flag 0 (sv_ctf s) = Some 1 /\
  Forall (fun f => f_owner f <> clientnum (deref 0 s) /\ f_dropper f <> clientnum (deref 0 s))
         (flags (exec (ctf_leavegame (hooks := no_hooks) 0 true) s)).
Proof.
  split; [vm_compute; reflexivity|].
  apply (ctf_leavegame_clears (hooks := no_hooks)).
  - apply (respects_takeflag (hooks := no_hooks)). by apply addflag_wf, addflag_wf; constructor.
  - vm_compute. discriminate.
Defined.
