(* ===== verification/Capture.v ===== *)
(** Capture and regen capture (fpsgame/capture.h, the [SERVMODE] side).

    [baseinfo] is the state machine of one base: [enter], [steal], [leave],
    [occupy], [addammo], [takeammo] are its transitions, each with the answer
    that tells the caller to broadcast the base.  [copystring] between two
    [string]s of the same size is an assignment. *)
From S2P Require Import Prelude Wire Text Float32 Game Random State Engine Intermission.

Definition CAPTURERADIUS : Z := 64.
Definition CAPTUREHEIGHT : Z := 24.
Definition OCCUPYBONUS : Z := 1.
Definition OCCUPYPOINTS : Z := 1.
Definition OCCUPYENEMYLIMIT : Z := 28.
Definition OCCUPYNEUTRALLIMIT : Z := 14.
Definition SCORESECS : Z := 10.
Definition AMMOSECS : Z := 15.
Definition REGENSECS : Z := 1.
Definition REGENHEALTH : Z := 10.
Definition REGENARMOUR : Z := 10.
Definition REGENAMMO : Z := 20.
Definition MAXAMMO : Z := 5.
Definition CAPTURE_RESPAWNSECS : Z := 5.
Definition MAXBASES : Z := 100.

(** * One base *)
Abbreviation nonempty t := (negb (bool_decide (t = []))).
Abbreviation same a b := (bool_decide (a = b)).

Definition valid (b : baseinfo) : bool :=
  (0 <? ammotype b) && (ammotype b <=? I_CARTRIDGES - I_SHELLS + 1).

Definition noenemy (b : baseinfo) : baseinfo :=
  b <| enemy := [] |> <| enemies := 0 |> <| converted := 0 |>.

(** A new base: [reset] leaves the position. *)
Definition base_new : baseinfo := mkbaseinfo vec0 [] [] 0 0 (-1) 0 0 0 0 (-1).

Definition enter (team : cstring) (b : baseinfo) : bool * baseinfo :=
  if same (owner b) team then (false, b <| owners ::= Z.succ |>)
  else if enemies b =? 0 then
    let b := if same (enemy b) team then b
             else b <| converted := 0 |> <| enemy := team |> in
    (true, b <| enemies ::= Z.succ |>)
  else if negb (same (enemy b) team) then (false, b)
  else (false, b <| enemies ::= Z.succ |>).

Definition steal (team : cstring) (b : baseinfo) : bool :=
  (enemies b =? 0) && negb (same (owner b) team).

Definition leave (team : cstring) (b : baseinfo) : bool * baseinfo :=
  if same (owner b) team && (0 <? owners b) then (false, b <| owners ::= Z.pred |>)
  else if negb (same (enemy b) team) || (enemies b <=? 0) then (false, b)
  else (enemies b - 1 =? 0, b <| enemies ::= Z.pred |>).

Definition occupy (team : cstring) (units : Z) (b : baseinfo) : Z * baseinfo :=
  if negb (same (enemy b) team) then (-1, b) else
  let b := b <| converted ::= Z.add units |> in
  if units <? 0 then (-1, if converted b <=? 0 then noenemy b else b)
  else if converted b <? (if nonempty (owner b) then OCCUPYENEMYLIMIT else OCCUPYNEUTRALLIMIT)
  then (-1, b)
  else if nonempty (owner b)
  then (0, b <| owner := [] |> <| converted := 0 |> <| enemy := team |>)
  else (1, noenemy (b <| owner := team |> <| b_ammo := 0 |>
                      <| capturetime := 0 |> <| owners := enemies b |>)).

Definition base_addammo (i : Z) (b : baseinfo) : bool * baseinfo :=
  if MAXAMMO <=? b_ammo b then (false, b)
  else (true, b <| b_ammo ::= fun a => tmin (a + i) MAXAMMO |>).
Definition takeammo (team : cstring) (b : baseinfo) : bool * baseinfo :=
  if negb (same (owner b) team) || (b_ammo b <=? 0) then (false, b)
  else (true, b <| b_ammo ::= Z.pred |>).

Definition insidebase (b : baseinfo) (o : vec) : bool :=
  in_cylinder CAPTURERADIUS CAPTUREHEIGHT (b_o b) o.

(** * The vectors *)
Definition resetbases (c : capturestate) : capturestate :=
  c <| bases := [] |> <| cap_scores := [] |> <| captures := 0 |>.
Definition capture_reset (empty : bool) (c : capturestate) : capturestate :=
  resetbases c <| notgotbases := negb empty |>.

Fixpoint assoc_score (team : cstring) (l : list (cstring * Z)) : option Z :=
  match l with
  | [] => None
  | (t, n) :: l => if same t team then Some n else assoc_score team l
  end.
Fixpoint assoc_update (team : cstring) (f : Z -> Z) (l : list (cstring * Z)) : list (cstring * Z) :=
  match l with
  | [] => [(team, f 0)]
  | (t, n) :: l => if same t team then (t, f n) :: l else (t, n) :: assoc_update team f l
  end.
Definition capture_getteamscore (team : cstring) (c : capturestate) : Z :=
  default 0 (assoc_score team (cap_scores c)).
Definition capture_getteamscores (c : capturestate) : list (cstring * Z) := cap_scores c.
(** [findscore(team).total] updated by [f]. *)
Definition upd_score (team : cstring) (f : Z -> Z) (c : capturestate) : capturestate :=
  c <| cap_scores ::= assoc_update team f |>.

Definition hasbases (team : cstring) (c : capturestate) : bool :=
  existsb (fun b => nonempty (owner b) && same (owner b) team) (bases c).

Definition AMMO_TYPES : Z := I_GRENADES - I_SHELLS + 1.

(** How often each ammo type is used by the groups so far: a group counts once,
    at its first base. *)
Fixpoint group_uses (l seen : list baseinfo) (uses : list Z) : list Z :=
  match l with
  | [] => uses
  | b :: l =>
    let uses :=
      if (ammogroup b =? 0) || existsb (fun b' => ammogroup b' =? ammogroup b) seen then uses
      else zalter Z.succ (ammotype b - 1) uses in
    group_uses l (seen ++ [b]) uses
  end.
Definition least_used (uses : list Z) : Z :=
  fold_left (fun m i => if default 0 (uses .! i) <? default 0 (uses .! m) then i else m)
    (seqZ 0 (zlength uses)) 0.

Definition add_base (b : baseinfo) (c : capturestate) : capturestate :=
  c <| bases ::= fun l => l ++ [b] |>.

Section capture.
Context {hooks : Hooks}.

Definition addbase (ammotype_ : Z) (o : vec) : M server unit :=
  s <- get_server ;;
  if MAXBASES <=? zlength (bases s) then ret tt else
  let group := tmin ammotype_ 0 in
  t <- (if 0 <? ammotype_ then ret ammotype_
        else r <- rand AMMO_TYPES ;; ret (r + 1)) ;;
  let b := base_new <| ammogroup := group |> <| b_o := o |> in
  if group =? 0 then set_capture (add_base (b <| ammotype := t |>)) else
  match filter (fun b' => ammogroup b' = group) (bases s) with
  | b' :: _ => set_capture (add_base (b <| ammotype := ammotype b' |>))
  | [] =>
    let uses := group_uses (bases s) [] (replicate (Z.to_nat AMMO_TYPES) 0) in
    let least := default 0 (uses .! (least_used uses)) in
    let avail := filter (fun i => default 0 (uses .! (i - 1)) = least) (seqZ 1 AMMO_TYPES) in
    r <- rand (zlength avail) ;;
    set_capture (add_base (b <| ammotype := default 0 (avail .! r) |>))
  end.

Definition upd_base (i : Z) (f : baseinfo -> baseinfo) : M server unit :=
  set_capture {{ bases ::= zalter f i }}.
Definition base_at (i : Z) (c : capturestate) : baseinfo := default base_new (bases c .! i).
Definition base_indices (c : capturestate) : list Z := seqZ 0 (zlength (bases c)).
(** [b.transition(...)] on [bases[i]]. *)
Definition step_base {A} (i : Z) (f : baseinfo -> A * baseinfo) : M server A :=
  s <- get_server ;; upd_base i (fun b => (f b).2) ;; ret (f (base_at i s)).1.

Definition sendbaseinfo (i : Z) : M server unit :=
  s <- get_server ;;
  let b := base_at i s in
  sendf (-1) 1 (message N_BASEINFO
    [FInt i; FStr (owner b); FStr (enemy b);
     FInt (if nonempty (enemy b) then converted b else 0);
     FInt (if nonempty (owner b) then b_ammo b else 0)]).

Definition capture_initclient (connecting : bool) (s : server) : list field :=
  (if connecting
   then concat (map (fun '(t, n) => message N_BASESCORE [FInt (-1); FStr t; FInt n])
                    (cap_scores s))
   else []) ++
  message N_BASES (FInt (zlength (bases s)) ::
    concat (map (fun b => [FInt (ammotype b); FStr (owner b); FStr (enemy b);
                           FInt (converted b); FInt (b_ammo b)]) (bases s))).
Definition sendbases : M server unit :=
  s <- get_server ;; sendpacket (-1) 1 (capture_initclient false s) (-1).

(** Is the client an owner the base sees: alive, in [team], inside. *)
Definition stands_in (team_ : cstring) (b : baseinfo) (c : clientinfo) : bool :=
  cs_eqb (state c) CS_ALIVE && nonempty (team c) && same (team c) team_ &&
  insidebase b (pos c).

Definition stealbase (n : Z) (team_ : cstring) : M server unit :=
  s <- get_server ;;
  forM (clients s) (fun ci =>
    s <- get_server ;;
    when (stands_in team_ (base_at n s) (deref ci s))
      (step_base n (enter (team (deref ci s))) ;; ret tt)) ;;
  sendbaseinfo n.

(** The first base that can serve the player gives one ammo box. *)
Fixpoint replenish_from (ci : nat) (js : list Z) : M server unit :=
  match js with
  | [] => ret tt
  | i :: js =>
    s <- get_server ;;
    let b := base_at i s in
    let c := deref ci s in
    if valid b && insidebase b (pos c) && negb (hasmaxammo (ammotype b - 1 + I_SHELLS) c) then
      taken <- step_base i (takeammo (team c)) ;;
      if (taken : bool) then
        sendbaseinfo i ;;
        sendf (-1) 1 (message N_REPAMMO [FInt (clientnum c); FInt (ammotype b)]) ;;
        upd_gs ci {{ fps ::= addammo (ammotype b) 1 1 }}
      else replenish_from ci js
    else replenish_from ci js
  end.
Definition replenishammo (ci : nat) : M server unit :=
  s <- get_server ;;
  let c := deref ci s in
  if m_noitems (gamemode s) || notgotbases s || negb (cs_eqb (state c) CS_ALIVE) ||
     same (team c) []
  then ret tt else replenish_from ci (base_indices s).

Definition movebase (team_ : cstring) (oldpos : vec) (oldclip : bool) (newpos : vec)
    (newclip : bool) (i : Z) : M server unit :=
  s <- get_server ;;
  let b := base_at i s in
  if negb (valid b) then ret tt else
  let left := negb oldclip && insidebase b oldpos in
  let entered := negb newclip && insidebase b newpos in
  if left && negb entered then
    changed <- step_base i (leave team_) ;; when changed (sendbaseinfo i)
  else if entered && negb left then
    changed <- step_base i (enter team_) ;; when changed (sendbaseinfo i)
  else when (left && entered && steal team_ b) (stealbase i team_).
Definition movebases (team_ : cstring) (oldpos : vec) (oldclip : bool) (newpos : vec)
    (newclip : bool) : M server unit :=
  s <- get_server ;;
  if same team_ [] || (gamelimit s <=? gamemillis s) then ret tt
  else forM (base_indices s) (movebase team_ oldpos oldclip newpos newclip).
Definition leavebases (team_ : cstring) (o : vec) : M server unit :=
  movebases team_ o false nowhere true.
Definition enterbases (team_ : cstring) (o : vec) : M server unit :=
  movebases team_ nowhere true o false.

Definition addscore (base : Z) (team_ : cstring) (n : Z) : M server unit :=
  if n =? 0 then ret tt else
  set_capture (upd_score team_ (Z.add n)) ;;
  s <- get_server ;;
  let total := capture_getteamscore team_ s in
  sendf (-1) 1 (message N_BASESCORE [FInt base; FStr team_; FInt total]) ;;
  fire "scoreupdate" [AStr (encodeutf8 team_); AInt total] ;; ret tt.

(** Health, armour and ammo of an owner inside; the second component tells
    whether something changed. *)
Definition regen_client (b : baseinfo) (ticks : Z) (st : fpsstate) : bool * fpsstate :=
  let green := is_max (itemstat_of (I_GREENARMOUR - I_SHELLS)) in
  let '(n1, st) :=
    if health st <? maxhealth st
    then (true, st <| health ::= fun h => tmin (h + ticks * REGENHEALTH) (maxhealth st) |>)
    else (false, st) in
  let '(n2, st) :=
    if negb (armourtype st =? A_GREEN) || (armour st <? green) then
      let st := if armourtype st =? A_GREEN then st
                else st <| armourtype := A_GREEN |> <| armour := 0 |> in
      (true, st <| armour ::= fun a => tmin (a + ticks * REGENARMOUR) green |>)
    else (false, st) in
  let '(n3, st) :=
    if valid b && negb (hasmaxammo (ammotype b - 1 + I_SHELLS) st)
    then (true, addammo (ammotype b) (ticks * REGENAMMO) 100 st) else (false, st) in
  (n1 || n2 || n3, st).
Definition regenowners (i ticks : Z) : M server unit :=
  s <- get_server ;;
  forM (clients s) (fun ci =>
    s <- get_server ;;
    let b := base_at i s in
    let c := deref ci s in
    when (stands_in (owner b) b c) (
      let '(notify, st) := regen_client b ticks c in
      upd_gs ci {{ fps ::= fun st => snd (regen_client b ticks st) }} ;;
      when notify (sendf (-1) 1 (message N_BASEREGEN
        [FInt (clientnum c); FInt (health st); FInt (armour st); FInt (ammotype b);
         FInt (if valid b then get_ammo st (ammotype b) else 0)])))).

(** Every valid base held by one team: that team wins. *)
Fixpoint sole_owner (last : option cstring) (l : list baseinfo) : option cstring :=
  match l with
  | [] => last
  | b :: l =>
    if negb (valid b) then sole_owner last l
    else if same (owner b) [] then None
    else match last with
         | None => sole_owner (Some (owner b)) l
         | Some t => if same t (owner b) then sole_owner last l else None
         end
  end.
Definition endcheck : M server unit :=
  s <- get_server ;;
  match sole_owner None (bases s) with
  | None => ret tt
  | Some t =>
    set_capture (upd_score t (fun _ => 10000)) ;;
    sendf (-1) 1 (message N_BASESCORE [FInt (-1); FStr t; FInt 10000]) ;;
    fire "scoreupdate" [AStr (encodeutf8 t); AInt 10000] ;;
    startintermission
  end.

(** How many multiples of [secs] the capture time passed in this tick. *)
Definition elapsed (secs t ct : Z) : Z := ct ÷ secs - (ct - t) ÷ secs.

Definition update_base (t i : Z) : M server unit :=
  s <- get_server ;;
  let b := base_at i s in
  if negb (valid b) then ret tt
  else if nonempty (enemy b) then
    when ((owners b =? 0) || (enemies b =? 0))
      (step_base i (occupy (enemy b)
         (OCCUPYBONUS * (if enemies b =? 0 then -1 else 1) +
          OCCUPYPOINTS * (if enemies b =? 0 then - (1 + owners b) else enemies b) * t)) ;;
       ret tt) ;;
    sendbaseinfo i
  else if nonempty (owner b) then
    upd_base i {{ capturetime ::= Z.add t }} ;;
    let ct := capturetime b + t in
    when (negb (elapsed SCORESECS t ct =? 0)) (addscore i (owner b) (elapsed SCORESECS t ct)) ;;
    s <- get_server ;;
    let ct := capturetime (base_at i s) in
    if m_regencapture (gamemode s) then
      when (negb (elapsed REGENSECS t ct =? 0)) (regenowners i (elapsed REGENSECS t ct))
    else
      when (negb (elapsed AMMOSECS t ct =? 0)) (
        changed <- step_base i (base_addammo (elapsed AMMOSECS t ct)) ;;
        when changed (sendbaseinfo i))
  else ret tt.
Definition capture_update : M server unit :=
  s <- get_server ;;
  if gamelimit s <=? gamemillis s then ret tt else
  endcheck ;;
  s <- get_server ;;
  let t := gamemillis s ÷ 1000 - (gamemillis s - curtime s) ÷ 1000 in
  if t <? 1 then ret tt else forM (base_indices s) (update_base t).

Definition capture_entergame (ci : nat) : M server unit :=
  s <- get_server ;;
  let c := deref ci s in
  if notgotbases s || negb (cs_eqb (state c) CS_ALIVE) || gameclip c then ret tt
  else enterbases (team c) (pos c).
Definition capture_spawned (ci : nat) : M server unit :=
  s <- get_server ;;
  let c := deref ci s in
  if notgotbases s || gameclip c then ret tt else enterbases (team c) (pos c).
Definition capture_leavegame (ci : nat) (disconnecting : bool) : M server unit :=
  s <- get_server ;;
  let c := deref ci s in
  if notgotbases s || negb (cs_eqb (state c) CS_ALIVE) || gameclip c then ret tt
  else leavebases (team c) (pos c).
Definition capture_died (ci : nat) (actor : option nat) : M server unit :=
  s <- get_server ;;
  let c := deref ci s in
  if notgotbases s || gameclip c then ret tt else leavebases (team c) (pos c).
Definition capture_canspawn (ci : nat) (connecting : bool) (s : server) : bool :=
  m_regencapture (gamemode s) || connecting || (lastdeath (deref ci s) =? 0) ||
  (CAPTURE_RESPAWNSECS * 1000 <=? gamemillis s + curtime s - lastdeath (deref ci s)).
Definition capture_moved (ci : nat) (oldpos : vec) (oldclip : bool) (newpos : vec)
    (newclip : bool) : M server unit :=
  s <- get_server ;;
  if notgotbases s then ret tt
  else movebases (team (deref ci s)) oldpos oldclip newpos newclip.
Definition capture_changeteam (ci : nat) (oldteam newteam : cstring) : M server unit :=
  s <- get_server ;;
  let c := deref ci s in
  if notgotbases s || gameclip c then ret tt
  else leavebases oldteam (pos c) ;; enterbases newteam (pos c).

Definition capture_cleanup : M server unit := set_capture (capture_reset false).
Definition capture_newmap : M server unit := set_capture (capture_reset true).
(** [loopv(clients) if(... == CS_ALIVE) entergame(clients[i])]. *)
Definition enter_alive : M server unit :=
  s <- get_server ;;
  forM (clients s) (fun ci =>
    s <- get_server ;;
    when (cs_eqb (state (deref ci s)) CS_ALIVE) (capture_entergame ci)).
Definition capture_setup : M server unit :=
  set_capture (capture_reset false) ;;
  s <- get_server ;;
  if notgotitems s || bool_decide (ments s = []) then ret tt else
  forM (ments s) (fun e => when (e_type e =? BASE) (addbase (attr1 e) (e_o e))) ;;
  set_capture {{ notgotbases := false }} ;;
  sendbases ;;
  enter_alive.

(** The commit half of [parsebases]. *)
Definition commit_bases (items : list (Z * vec)) : M server unit :=
  s <- get_server ;;
  if negb (notgotbases s) then ret tt else
  forM items (fun '(t, o) =>
    addbase (if (GUN_SG <=? t) && (t <=? GUN_PISTOL) then t else tmin t 0) o) ;;
  set_capture {{ notgotbases := false }} ;;
  sendbases ;;
  enter_alive.

Definition capture_extinfoteam (team_ : cstring) (c : capturestate) : list field :=
  let owned := filter (fun j => owner (base_at j c) = team_) (base_indices c) in
  FInt (zlength owned) :: map FInt owned.
End capture.

(** * The invariant

    A base is held by one team and attacked by another; the conversion counter
    stays below the limit of its phase; a base of an ammo group has one of the
    five types its group can hand out. *)
Definition occupy_limit (b : baseinfo) : Z :=
  if nonempty (owner b) then OCCUPYENEMYLIMIT else OCCUPYNEUTRALLIMIT.
Record base_wf (b : baseinfo) : Prop := {
  wf_ammo : 0 <= b_ammo b <= MAXAMMO;
  wf_owners : 0 <= owners b;
  wf_enemies : 0 <= enemies b;
  wf_noenemy : enemy b = [] -> enemies b = 0;
  wf_rival : owner b = enemy b -> owner b = [];
  wf_converted : 0 <= converted b < occupy_limit b;
  wf_group : ammogroup b <> 0 -> 1 <= ammotype b <= AMMO_TYPES
}.
Record capture_wf (c : capturestate) : Prop := {
  wf_bases : Forall base_wf (bases c);
  wf_count : zlength (bases c) <= MAXBASES;
  wf_teams : NoDup (map fst (cap_scores c))
}.

(** ** The transitions of a base *)
Lemma base_cases (P : Prop) `{!Decision P} : bool_decide P = true /\ P \/ bool_decide P = false /\ ~ P.
Proof. destruct (decide P); [left|right]; split; by rw ?bool_decide_eq_true ?bool_decide_eq_false. Qed.

(** Splits on every string comparison of a goal about a base. *)
Ltac strings := unfold occupy_limit, noenemy in *; repeat match goal with
  | |- context [bool_decide ?P] => destruct (base_cases P) as [[-> ?]|[-> ?]]
  | H : context [bool_decide ?P] |- _ => destruct (base_cases P) as [[E ?]|[E ?]]; rewrite -> E in H; clear E
  end; simpl in *.
Ltac limits := unfold OCCUPYENEMYLIMIT, OCCUPYNEUTRALLIMIT, MAXAMMO in *.
Ltac use_noenemy := match goal with
  | Hn : _ = [] -> ?e = 0 |- _ => assert (e = 0) by (apply Hn; congruence); lia
  end.
Ltac base_solve :=
  constructor; simpl; strings; limits; intros; subst; try congruence; try lia; auto; try use_noenemy.

Lemma noenemy_wf b : base_wf b -> base_wf (noenemy b).
Proof. intros [? ? ? ? ? ? ?]. base_solve. Qed.

Lemma enter_wf t b : t <> [] -> base_wf b -> base_wf (enter t b).2.
Proof.
  intros Ht [? ? ? ? ? ? ?]. unfold enter. strings; try (by base_solve).
  all: destruct (Z.eqb_spec (enemies b) 0); simpl; base_solve.
Qed.
Lemma leave_wf t b : base_wf b -> base_wf (leave t b).2.
Proof.
  intros [? ? ? ? ? ? ?]. unfold leave. strings; zcases; try (by base_solve).
Qed.
Lemma occupy_wf t u b : base_wf b -> base_wf (occupy t u b).2.
Proof.
  intros [? ? ? ? ? ? ?]. unfold occupy. strings; zcases; base_solve.
Qed.
Lemma base_addammo_wf i b : 0 <= i -> base_wf b -> base_wf (base_addammo i b).2.
Proof.
  intros Hi [? ? ? ? ? ? ?]. unfold base_addammo. zcases; [by constructor|].
  constructor; simpl; try done. rw tmin_spec. limits. lia.
Qed.
Lemma takeammo_wf t b : base_wf b -> base_wf (takeammo t b).2.
Proof.
  intros [? ? ? ? ? ? ?]. unfold takeammo. strings; zcases; base_solve.
Qed.
Lemma capturetime_wf t b : base_wf b -> base_wf (b <| capturetime ::= Z.add t |>).
Proof. by intros [? ? ? ? ? ? ?]; constructor. Qed.

(** ** The vectors *)
Lemma Forall_zalter {A} (P : A -> Prop) f i l :
  Forall P l -> (forall x, P x -> P (f x)) -> Forall P (zalter f i l).
Proof.
  intros Hl Hf. unfold zalter. destruct (0 <=? i); [|done].
  apply Forall_alter; auto.
Qed.
Lemma assoc_update_fst t f l :
  NoDup (map fst l) ->
  NoDup (map fst (assoc_update t f l)) /\
  (forall u, u ∈ map fst (assoc_update t f l) -> u ∈ map fst l \/ u = t).
Proof.
  induction l as [|[u n] l IH]; simpl; intros Hd.
  - split; [apply NoDup_singleton|]. intros u Hu. right. set_solver.
  - apply NoDup_cons in Hd as [Hu Hd]. destruct (base_cases (u = t)) as [[-> Eu]|[-> Eu]]; simpl.
    + split; [by constructor|auto].
    + destruct (IH Hd) as [Hn Hin]. split.
      * constructor; [|done]. intros [?|?]%Hin; [done|congruence].
      * intros v [->|Hv]%elem_of_cons; [left; set_solver|]. destruct (Hin v Hv); [left; set_solver|auto].
Qed.
Lemma upd_score_wf t f c : capture_wf c -> capture_wf (upd_score t f c).
Proof.
  intros [? ? Hd]. constructor; simpl; [done|done|]. by apply assoc_update_fst.
Qed.
Lemma capture_reset_wf e c : capture_wf (capture_reset e c).
Proof. constructor; simpl; [constructor|unfold zlength; simpl; unfold MAXBASES; lia|constructor]. Qed.

Lemma zlength_uses l : forall seen uses, zlength (group_uses l seen uses) = zlength uses.
Proof.
  induction l as [|b l IH]; intros seen uses; simpl; [done|].
  rw IH. case_match; [done|]. apply zlength_zalter.
Qed.
Lemma least_used_range uses : 0 < zlength uses -> 0 <= least_used uses < zlength uses.
Proof.
  intros Hl. unfold least_used.
  assert (forall l m, (forall i, i ∈ l -> 0 <= i < zlength uses) -> 0 <= m < zlength uses ->
    0 <= fold_left (fun m i => if default 0 (uses .! i) <? default 0 (uses .! m) then i else m) l m
      < zlength uses) as H.
  { induction l as [|i l IH]; intros m Hi Hm; simpl; [done|].
    apply IH; [set_solver|]. case_match; [apply Hi; set_solver|done]. }
  apply H; [|lia]. intros i Hi%elem_of_seqZ. lia.
Qed.

(** ** The handlers *)
Abbreviation capture_inv := (inv_on sv_capture capture_wf).

Lemma respects_set_capture f :
  (forall c, capture_wf c -> capture_wf (f c)) -> respects capture_inv (set_capture f).
Proof. intros Hf. apply respects_inv_on. intros s. apply Hf. Qed.
Lemma respects_upd_base i f :
  (forall b, base_wf b -> base_wf (f b)) -> respects capture_inv (upd_base i f).
Proof.
  intros Hf. apply respects_set_capture. intros c [? ? ?]. constructor; simpl.
  - by apply Forall_zalter.
  - by rw zlength_zalter.
  - done.
Qed.
Lemma respects_step_base {A} i (f : baseinfo -> A * baseinfo) :
  (forall b, base_wf b -> base_wf (f b).2) -> respects capture_inv (step_base i f).
Proof. intros Hf. pose proof (respects_upd_base i _ Hf). unfold step_base. solve_respects. Qed.
Lemma respects_upd_score t f : respects capture_inv (set_capture (upd_score t f)).
Proof. apply respects_set_capture. intros c. apply upd_score_wf. Qed.
#[export] Hint Resolve respects_upd_score : respects.

Section capture_invariant.
Context {hooks : Hooks} `{!HooksRespect capture_inv}.

Lemma respects_capture_intermission : respects capture_inv startintermission.
Proof using Type*. eapply respects_startintermission; try apply _; reflexivity. Qed.
#[local] Hint Resolve respects_capture_intermission : respects.
Lemma respects_sendbaseinfo i : respects capture_inv (sendbaseinfo i).
Proof using Type*. unfold sendbaseinfo. solve_respects. Qed.
#[local] Hint Resolve respects_sendbaseinfo : respects.
Lemma respects_sendbases : respects capture_inv sendbases.
Proof using Type*. unfold sendbases. solve_respects. Qed.
#[local] Hint Resolve respects_sendbases : respects.

(** Appending one base to a vector with room. *)
Lemma respects_add_base b (s : server) :
  base_wf b -> zlength (bases s) < MAXBASES ->
  capture_inv s (exec (set_capture (add_base b)) s).
Proof using.
  intros Hb Hn. intros [? ? ?]. constructor; simpl; [|rw zlength_snoc; cbn in *; lia|done].
  apply Forall_app. split; [done|]. by constructor.
Qed.

Lemma base_new_wf t g o :
  g <= 0 -> (g <> 0 -> 1 <= t <= AMMO_TYPES) ->
  base_wf (base_new <| ammogroup := g |> <| b_o := o |> <| ammotype := t |>).
Proof using. intros Hg Ht. by constructor. Qed.

Lemma respects_addbase t o : respects capture_inv (addbase t o).
Proof using Type*.
  unfold addbase. apply (respects_read _ id). intros s. cbn [id]. cbv zeta.
  destruct (Z.leb_spec MAXBASES (zlength (bases s))) as [|Hroom]; [by apply respects_ret; apply _|].
  set (group := tmin t 0). assert (group <= 0) as Hg by (subst group; rw tmin_spec; lia).
  intros Hwf. pose proof Hwf as [Hbs _ _]. revert Hwf.
  (* the draw that is thrown away for groups *)
  rw exec_bind. set (s1 := exec _ s). set (t0 := eval _ s).
  assert (sv_capture s1 = sv_capture s) as E1.
  { subst s1. destruct (0 <? t); [done|]. unfold exec, rand, bind.
    by destruct (rnd AMMO_TYPES (sv_rng s)). }
  rw -E1. cbn beta. rw -E1 in Hbs. assert (zlength (bases s1) < MAXBASES) as Hroom1 by by rw E1.
  clearbody s1 t0. revert s1 E1 Hbs Hroom1. intros s1 E1 Hbs Hroom1.
  destruct (Z.eqb_spec group 0) as [E0|E0].
  { apply respects_add_base; [|done]. apply base_new_wf; [lia|done]. }
  destruct (filter (fun b' => ammogroup b' = group) (bases s1)) as [|b' l] eqn:Ef; last first.
  { cbv iota. apply respects_add_base; [|done]. apply base_new_wf; [done|]. intros _.
    assert (b' ∈ filter (fun b' => ammogroup b' = group) (bases s1)) as Hin by (rw Ef; by left).
    apply list_elem_of_filter in Hin as [Eg Hin].
    eapply Forall_forall in Hbs; [|exact Hin]. apply Hbs. congruence. }
  cbv zeta iota. set (uses := group_uses _ _ _).
  assert (zlength uses = AMMO_TYPES) as Hu by (subst uses; by rw zlength_uses).
  set (avail := filter (fun i => default 0 (uses .! (i - 1)) = _) (seqZ 1 AMMO_TYPES)).
  assert (forall i, i ∈ avail -> 1 <= i <= AMMO_TYPES) as Ha.
  { intros i Hi. subst avail. apply list_elem_of_filter in Hi as [_ Hi].
    apply elem_of_seqZ in Hi. lia. }
  assert (0 < zlength avail) as Hpos.
  { pose proof (least_used_range uses ltac:(rw Hu; done)) as Hl.
    assert (least_used uses + 1 ∈ avail) as Hin.
    { subst avail. apply list_elem_of_filter. split; [by rw Z.add_simpl_r|].
      apply elem_of_seqZ. lia. }
    unfold zlength. destruct avail; [by apply not_elem_of_nil in Hin|simpl; lia]. }
  rw exec_bind. set (s2 := exec (rand _) s1). set (r := eval (rand _) s1).
  assert (sv_capture s2 = sv_capture s1 /\ 0 <= r < zlength avail) as [E2 Hr].
  { pose proof (rnd_range (zlength avail) (sv_rng s1) Hpos) as Hr. subst s2 r.
    unfold exec, eval, rand. by destruct (rnd (zlength avail) (sv_rng s1)). }
  rw -E2. apply respects_add_base; [|cbn in *; by rw E2].
  apply base_new_wf; [done|]. intros _. apply zlookup_is_Some in Hr as [v Hv]. rw Hv.
  by apply Ha, (zlookup_elem_of avail r).
Qed.
#[local] Hint Resolve respects_addbase : respects.

Lemma respects_stealbase n t : respects capture_inv (stealbase n t).
Proof using Type*.
  unfold stealbase. apply respects_bind; [apply _|solve_respects|intros s0].
  apply respects_bind; [apply _| |intros _; solve_respects].
  apply respects_forM; [apply _|]. intros ci _.
  apply (respects_read _ id). intros s. cbn [id].
  unfold when. destruct (stands_in _ _ _) eqn:E; [|by apply respects_ret; apply _].
  assert (team (deref ci s) <> []) as Ht.
  { unfold stands_in in E. intros En. rw En in E. cbn in E. by rw andb_false_r in E. }
  pose proof (respects_step_base n (enter (team (deref ci s)))
    (fun b => enter_wf _ b Ht)) as Hs.
  match goal with |- capture_inv s (exec ?m s) => enough (respects capture_inv m) as H by apply H end.
  solve_respects.
Qed.
#[local] Hint Resolve respects_stealbase : respects.

Lemma respects_takeammo i t : respects capture_inv (step_base i (takeammo t)).
Proof using. apply respects_step_base. intros. by apply takeammo_wf. Qed.
Lemma respects_leave i t : respects capture_inv (step_base i (leave t)).
Proof using. apply respects_step_base. intros. by apply leave_wf. Qed.
Lemma respects_occupy i t u : respects capture_inv (step_base i (occupy t u)).
Proof using. apply respects_step_base. intros. by apply occupy_wf. Qed.
Lemma respects_capturetime i t : respects capture_inv (upd_base i {{ capturetime ::= Z.add t }}).
Proof using. apply respects_upd_base. intros. by apply capturetime_wf. Qed.
#[local] Hint Resolve respects_takeammo respects_leave respects_occupy respects_capturetime : respects.

Lemma respects_replenishammo ci : respects capture_inv (replenishammo ci).
Proof using Type*.
  assert (forall js, respects capture_inv (replenish_from ci js)) as Hr.
  { induction js as [|i js IH]; simpl; cbv zeta; solve_respects. }
  unfold replenishammo. cbv zeta. solve_respects.
Qed.

Lemma respects_movebase t op oc np nc i : t <> [] -> respects capture_inv (movebase t op oc np nc i).
Proof using Type*.
  intros Ht. assert (respects capture_inv (step_base i (enter t))).
  { apply respects_step_base. intros. by apply enter_wf. }
  unfold movebase. cbv zeta. solve_respects.
Qed.
Lemma respects_movebases t op oc np nc : respects capture_inv (movebases t op oc np nc).
Proof using Type*.
  unfold movebases. apply respects_bind; [apply _|solve_respects|intros s].
  destruct (base_cases (t = [])) as [[-> ?]|[-> Ht]]; [by apply respects_ret; apply _|].
  pose proof (fun i => respects_movebase t op oc np nc i Ht). solve_respects.
Qed.
#[local] Hint Resolve respects_movebases : respects.

Lemma respects_capture_addscore i t n : respects capture_inv (addscore i t n).
Proof using Type*. unfold addscore. solve_respects. Qed.
#[local] Hint Resolve respects_capture_addscore : respects.
Lemma respects_regenowners i n : respects capture_inv (regenowners i n).
Proof using Type*. unfold regenowners. cbv zeta. solve_respects. Qed.
#[local] Hint Resolve respects_regenowners : respects.
Lemma respects_endcheck : respects capture_inv endcheck.
Proof using Type*. unfold endcheck. solve_respects. Qed.
#[local] Hint Resolve respects_endcheck : respects.

Lemma elapsed_nonneg secs t ct : 0 < secs -> 0 <= t -> 0 <= elapsed secs t ct.
Proof using.
  intros Hs Ht. unfold elapsed. pose proof (Z.quot_le_mono (ct - t) ct secs). lia.
Qed.

Lemma respects_update_base t i : 0 <= t -> respects capture_inv (update_base t i).
Proof using Type*.
  intros Ht.
  assert (forall ct, respects capture_inv (step_base i (base_addammo (elapsed AMMOSECS t ct)))).
  { intros ct. apply respects_step_base. intros b. apply base_addammo_wf.
    by apply elapsed_nonneg. }
  unfold update_base. cbv zeta. solve_respects.
Qed.
Lemma respects_capture_update : respects capture_inv capture_update.
Proof using Type*.
  unfold capture_update. apply respects_bind; [apply _|solve_respects|intros s0].
  destruct (_ <=? _); [solve_respects|].
  apply respects_bind; [apply _|solve_respects|intros _].
  apply respects_bind; [apply _|solve_respects|intros s]. cbv zeta.
  destruct (Z.ltb_spec (gamemillis s ÷ 1000 - (gamemillis s - curtime s) ÷ 1000) 1);
    [solve_respects|].
  apply respects_forM; [apply _|]. intros i _. apply respects_update_base. lia.
Qed.

Lemma respects_capture_entergame ci : respects capture_inv (capture_entergame ci).
Proof using Type*. unfold capture_entergame, enterbases. cbv zeta. solve_respects. Qed.
#[local] Hint Resolve respects_capture_entergame : respects.
Lemma respects_enter_alive : respects capture_inv enter_alive.
Proof using Type*. unfold enter_alive. solve_respects. Qed.
#[local] Hint Resolve respects_enter_alive : respects.
Lemma respects_got_bases : respects capture_inv (set_capture {{ notgotbases := false }}).
Proof using. apply respects_set_capture. intros c [? ? ?]. by constructor. Qed.
Lemma respects_capture_reset e : respects capture_inv (set_capture (capture_reset e)).
Proof using. apply respects_set_capture. intros c _. apply capture_reset_wf. Qed.
#[local] Hint Resolve respects_got_bases respects_capture_reset : respects.
Lemma respects_capture_setup : respects capture_inv capture_setup.
Proof using Type*. unfold capture_setup. solve_respects. Qed.
Lemma respects_commit_bases items : respects capture_inv (commit_bases items).
Proof using Type*. unfold commit_bases. solve_respects. Qed.
End capture_invariant.

(** * The whole protocol of the mode *)
Inductive capture_op : Set :=
| CapSetup | CapNewmap | CapCleanup | CapBases (items : list (Z * vec)) | CapUpdate
| CapEnter (ci : nat) | CapSpawned (ci : nat) | CapLeave (ci : nat) (disconnecting : bool)
| CapDied (ci : nat) (actor : option nat)
| CapMoved (ci : nat) (oldpos : vec) (oldclip : bool) (newpos : vec) (newclip : bool)
| CapChangeteam (ci : nat) (oldteam newteam : cstring) | CapRepammo (ci : nat).

Definition run_capture {hooks : Hooks} (op : capture_op) : M server unit :=
  match op with
  | CapSetup => capture_setup
  | CapNewmap => capture_newmap
  | CapCleanup => capture_cleanup
  | CapBases items => commit_bases items
  | CapUpdate => capture_update
  | CapEnter ci => capture_entergame ci
  | CapSpawned ci => capture_spawned ci
  | CapLeave ci d => capture_leavegame ci d
  | CapDied ci a => capture_died ci a
  | CapMoved ci op oc np nc => capture_moved ci op oc np nc
  | CapChangeteam ci o n => capture_changeteam ci o n
  | CapRepammo ci => replenishammo ci
  end.

Lemma respects_run_capture {hooks : Hooks} `{!HooksRespect capture_inv} op :
  respects capture_inv (run_capture op).
Proof.
  pose proof respects_movebases.
  destruct op; simpl;
    eauto using respects_capture_setup, respects_commit_bases, respects_capture_update,
      respects_capture_entergame, respects_replenishammo, respects_capture_reset;
    unfold capture_spawned, capture_leavegame, capture_died, capture_moved, capture_changeteam,
      enterbases, leavebases; cbv zeta; solve_respects.
Qed.

(** * Properties *)

(** C15: the bases of capture stay consistent under every sequence of
    operations of the mode (map load, base lists from clients, spawns, deaths,
    moves, team changes, ammo requests, updates): at most [MAXBASES] bases, one
    score entry per team, and for each base no team is both owner and enemy,
    nobody is counted for an absent enemy, the counts are never negative, the
    conversion counter stays below the limit of its phase, the ammo store stays
    within [0, MAXAMMO], and the ammo type of a grouped base is one of the five
    the usage table of [addbase] is indexed by, so that table is never written
    out of bounds. *)
Theorem capture_bases_invariant {hooks : Hooks} `{!HooksRespect (inv_on sv_capture capture_wf)}
    (ops : list capture_op) (s : server) :
  capture_wf (sv_capture s) -> capture_wf (sv_capture (exec (forM ops run_capture) s)).
Proof.
  assert (respects (inv_on sv_capture capture_wf) (forM ops run_capture)) as H; [|apply H].
  apply respects_forM; [apply _|]. intros op _. apply respects_run_capture.
Qed.

Lemma capture_bases_invariant_witness :
  let ops := [CapBases [(-1, vec0); (-1, vec0); (-2, vec0); (3, vec0)]; CapSpawned 0;
              CapMoved 1 nowhere true vec0 false; CapUpdate; CapDied 0 None; CapRepammo 1] in
  capture_wf (sv_capture (exec (forM ops (run_capture (hooks := no_hooks)))
    (sample_server 9 [good; evil] <| sv_capture ::= capture_reset false |>))).
Proof.
  apply (capture_bases_invariant (hooks := no_hooks)
    [CapBases [(-1, vec0); (-1, vec0); (-2, vec0); (3, vec0)]; CapSpawned 0;
     CapMoved 1 nowhere true vec0 false; CapUpdate; CapDied 0 None; CapRepammo 1]).
  apply capture_reset_wf.
Defined.

(** The conversion of a base is a two-phase state machine.  One tick of
    [occupy] by the attackers of a consistent base leads to exactly one of four
    outcomes: the attack fails or stays in its phase (the owner is unchanged);
    an owned base is neutralised (it has no owner, the attack goes on, the
    counter restarts); a neutral base is captured (the attackers own it, its
    ammo and capture time restart at zero and the attack is over).  An owned base
    never changes hands in one tick, and the outcome is reached exactly when the
    counter meets the limit of the phase. *)
Theorem occupy_phases (b : baseinfo) (units : Z) :
  base_wf b -> enemy b <> [] ->
  let '(outcome, b') := occupy (enemy b) units b in
  let reached := (0 <=? units) && (occupy_limit b <=? converted b + units) in
  (reached = false -> outcome = -1 /\ owner b' = owner b /\
     (b' = b <| converted ::= Z.add units |> \/ b' = noenemy (b <| converted ::= Z.add units |>))) /\
  (reached = true -> owner b <> [] ->
     outcome = 0 /\ owner b' = [] /\ enemy b' = enemy b /\ converted b' = 0 /\
     enemies b' = enemies b) /\
  (reached = true -> owner b = [] ->
     outcome = 1 /\ owner b' = enemy b /\ owners b' = enemies b /\ enemy b' = [] /\
     b_ammo b' = 0 /\ capturetime b' = 0).
Proof.
  intros Hwf He. unfold occupy. rw (bool_decide_eq_true_2 (enemy b = enemy b) eq_refl). cbn [negb].
  cbv zeta. cbn [converted owner update_field]. unfold occupy_limit.
  destruct (Z.ltb_spec units 0).
  - rewrite -> (proj2 (Z.leb_gt 0 units)) by lia. cbn [andb].
    split_and!; intros; try done. split; [done|]. case_match; auto.
  - rewrite -> (proj2 (Z.leb_le 0 units)) by lia. cbn [andb]. rw (Z.add_comm units).
    destruct (base_cases (owner b = [])) as [[-> Eo]|[-> Eo]]; cbn [negb];
      rw Z.leb_antisym; destruct (_ <? _); cbn [negb];
      split_and!; intros; try done; auto.
Qed.

Lemma occupy_phases_witness :
  let b := base_new <| enemy := good |> <| enemies := 1 |> <| converted := 13 |> in
  let '(outcome, b') := occupy (enemy b) 2 b in
  let reached := (0 <=? 2) && (occupy_limit b <=? converted b + 2) in
  (reached = false -> outcome = -1 /\ owner b' = owner b /\
     (b' = b <| converted ::= Z.add 2 |> \/ b' = noenemy (b <| converted ::= Z.add 2 |>))) /\
  (reached = true -> owner b <> [] ->
     outcome = 0 /\ owner b' = [] /\ enemy b' = enemy b /\ converted b' = 0 /\
     enemies b' = enemies b) /\
  (reached = true -> owner b = [] ->
     outcome = 1 /\ owner b' = enemy b /\ owners b' = enemies b /\ enemy b' = [] /\
     b_ammo b' = 0 /\ capturetime b' = 0).
Proof.
  apply (occupy_phases (base_new <| enemy := good |> <| enemies := 1 |> <| converted := 13 |>) 2);
    [|done].
  constructor; simpl; try done.
Defined.
