(* ===== verification/Collect.v ===== *)
(** Skull collector (fpsgame/collect.h, the [SERVMODE] side).

    The tokens on the ground are a vector the handlers scan backwards while
    they remove entries by moving the last one into the hole; [scan_tokens] is
    that loop.  The handlers on a client keep the source's names with a
    [collect_] prefix where another mode has the same name. *)
From S2P Require Import Prelude Wire Text Float32 Game Random State Engine Intermission.

(** [collectteambase], [collectbaseteam]. *)
Definition collectteambase (s : cstring) : Z :=
  if bool_decide (s = good) then 1 else if bool_decide (s = evil) then 2 else 0.
Definition collectbaseteam (i : Z) : option cstring :=
  if i =? 1 then Some good else if i =? 2 then Some evil else None.

Definition BASERADIUS : Z := 16.
Definition BASEHEIGHT : Z := 16.
Definition MAXBASES : Z := 20.
Definition TOKENLIMIT : Z := 5.
Definition UNOWNEDTOKENLIMIT : Z := 15.
Definition SCORELIMIT : Z := 50.
Definition RESPAWNSECS : Z := 5.
Definition EXPIRETOKENTIME : Z := 10000.
Definition STEALTOKENTIME : Z := 5000.

(** * The vectors *)

Definition cbase_reset (b : cbase) : cbase := mkcbase (cb_id b) 0 vec0 0.
Definition cbase_new : cbase := mkcbase 0 0 vec0 0.

Definition collect_resetbases (c : collectstate) : collectstate :=
  c <| col_bases := [] |> <| col_tokens := [] |> <| col_scores := (0, 0) |> <| nexttoken := 0 |>.
Definition collect_reset (empty : bool) (c : collectstate) : collectstate :=
  collect_resetbases c <| col_notgotbases := negb empty |>.

(** [while(bases.length()<=i) bases.add()], then the entry is filled in. *)
Definition collect_addbase (i : Z) (o : vec) (team : Z) (c : collectstate) : bool * collectstate :=
  if (i <? 0) || (MAXBASES <=? i) then (false, c) else
  (true, c <| col_bases ::= fun l =>
     zalter (fun b => cbase_reset b <| cb_id := i |> <| cb_team := team |> <| cb_o := o |>) i
       (l ++ replicate (Z.to_nat (i + 1 - zlength l)) cbase_new) |>).

Definition findtoken (id : Z) (c : collectstate) : option token :=
  head (filter (fun t => t_id t = id) (col_tokens c)).

(** [if(++nexttoken < 0) nexttoken = 1]. *)
Definition next_id (n : Z) : Z := let n := to_int (n + 1) in if n <? 0 then 1 else n.
Definition droptoken (o : vec) (yaw team droptime dropper : Z) (c : collectstate)
    : token * collectstate :=
  let id := next_id (nexttoken c) in
  let t := mktoken id team droptime o yaw dropper in
  (t, c <| nexttoken := id |> <| col_tokens ::= fun l => l ++ [t] |>).

Definition pair_get (team : Z) (sc : Z * Z) : Z :=
  if team =? 1 then sc.1 else if team =? 2 then sc.2 else 0.
Definition pair_set (team v : Z) (sc : Z * Z) : Z * Z :=
  if team =? 1 then (v, sc.2) else if team =? 2 then (sc.1, v) else sc.
Definition collect_totalscore (team : Z) (c : collectstate) : Z := pair_get team (col_scores c).
Definition collect_addscore (team score : Z) (c : collectstate) : Z * collectstate :=
  if (1 <=? team) && (team <=? 2) then
    let v := collect_totalscore team c + score in (v, c <| col_scores ::= pair_set team v |>)
  else (0, c).
Definition collect_getteamscore (team : cstring) (c : collectstate) : Z :=
  collect_totalscore (collectteambase team) c.
Definition collect_getteamscores (c : collectstate) : list (cstring * Z) :=
  (if fst (col_scores c) =? 0 then [] else [(good, fst (col_scores c))]) ++
  (if snd (col_scores c) =? 0 then [] else [(evil, snd (col_scores c))]).
Definition collect_hidefrags : bool := true.
Definition collect_insidebase (b : cbase) (o : vec) : bool :=
  in_cylinder BASERADIUS BASEHEIGHT (cb_o b) o.

(** [loopvrev(tokens)]: [visit] sees each token, may rewrite it, and tells
    whether it goes; the identifiers come back in the order of removal. *)
Section scan.
Context {A : Type} (visit : A -> token -> A * token * bool).
Fixpoint scan_tokens (n : nat) (a : A) (l : list token) : list Z * list token :=
  match n with
  | O => ([], l)
  | S n =>
    match l !! n with
    | None => scan_tokens n a l
    | Some t =>
      let '(a, t', gone) := visit a t in
      if gone then
        let '(ids, l) := scan_tokens n a (removeunordered n l) in (t_id t :: ids, l)
      else scan_tokens n a (<[n := t']> l)
    end
  end.
End scan.

(** [t.team == team ? ++friendly > limit : ++enemy > limit]. *)
Definition count_token (team limit : Z) (cnt : Z * Z) (t : token) : (Z * Z) * bool :=
  if t_team t =? team then ((cnt.1 + 1, cnt.2), limit <? cnt.1 + 1)
  else ((cnt.1, cnt.2 + 1), limit <? cnt.2 + 1).
Definition visit_drop (cn team : Z) (cnt : Z * Z) (t : token) : (Z * Z) * token * bool :=
  if t_dropper t =? cn then
    let '(cnt, over) := count_token team TOKENLIMIT cnt t in (cnt, t, over)
  else (cnt, t, false).
Definition visit_leave (cn team : Z) (cnt : Z * Z) (t : token) : (Z * Z) * token * bool :=
  let mine := t_dropper t =? cn in
  let t := if mine then t <| t_dropper := INT_MIN |> else t in
  if negb mine && (INT_MIN <? t_dropper t) then (cnt, t, false) else
  let '(cnt, over) := count_token team UNOWNEDTOKENLIMIT cnt t in (cnt, t, over).
Definition visit_expire (lastmillis : Z) (a : unit) (t : token) : unit * token * bool :=
  (a, t, EXPIRETOKENTIME <=? lastmillis - t_droptime t).
Definition expire_fields (ids : list Z) : list field :=
  if bool_decide (ids = []) then [] else message N_EXPIRETOKENS (map FInt ids ++ [FInt (-1)]).

(** * The handlers *)
Section collect.
Context {hooks : Hooks}.

Definition collect_cleanup : M server unit := set_collect (collect_reset false).
Definition collect_newmap : M server unit := set_collect (collect_reset true).
Fixpoint add_mapbases (es : list entity) (c : collectstate) : collectstate :=
  match es with
  | [] => c
  | e :: es =>
    if negb (e_type e =? FLAG) || (attr2 e <? 1) || (2 <? attr2 e) then add_mapbases es c else
    let '(ok, c) := collect_addbase (zlength (col_bases c)) (e_o e) (attr2 e) c in
    if ok then add_mapbases es c else c
  end.
Definition collect_setup : M server unit :=
  set_collect (collect_reset false) ;;
  s <- get_server ;;
  if notgotitems s || bool_decide (ments s = []) then ret tt else
  set_collect (add_mapbases (ments s)) ;;
  set_collect {{ col_notgotbases := false }}.

(** The tokens a death leaves behind: the first is of the victim's own team. *)
Fixpoint drop_tokens (n : nat) (o : vec) (team droptime dropper : Z) (yaws : list Z)
    (own : bool) (c : collectstate) : list token * collectstate :=
  match n, yaws with
  | S n, yaw :: yaws =>
    let '(t, c) := droptoken o yaw (if own then team else - team) droptime dropper c in
    let '(ts, c) := drop_tokens n o team droptime dropper yaws false c in (t :: ts, c)
  | _, _ => ([], c)
  end.
Definition token_fields (t : token) : list field :=
  [FInt (t_id t); FInt (t_team t); FInt (t_yaw t)].
(** A position on the wire: [int(x*DMF)]. *)
Definition pos_fields (o : vec) : list field :=
  [FInt (f32_to_int (fmul (vx o) DMF)); FInt (f32_to_int (fmul (vy o) DMF));
   FInt (f32_to_int (fmul (vz o) DMF))].
Definition set_tokens (ci : nat) (n : Z) : M server unit := upd_gs ci {{ tokens := n }}.

Definition droptokens (ci : nat) (penalty : bool) : M server unit :=
  s <- get_server ;;
  if col_notgotbases s then ret tt else
  let c := deref ci s in
  let team_ := collectteambase (team c) in
  let '(ids, l) := scan_tokens (visit_drop (clientnum c) team_) (length (col_tokens s))
                     (1, if penalty then 0 else tokens c) (col_tokens s) in
  set_collect {{ col_tokens := l }} ;;
  let numdrops := 1 + (if penalty then 0 else tokens c) in
  yaw <- rand 360 ;;
  s <- get_server ;;
  let yaws := map (fun i => yaw + (i * 360) ÷ numdrops) (seqZ 0 numdrops) in
  let '(ts, col) := drop_tokens (Z.to_nat numdrops) (pos c) team_ (lastmillis s) (clientnum c)
                      yaws true (sv_collect s) in
  set_collect (fun _ => col) ;;
  sendpacket (-1) 1 (expire_fields ids ++
    message N_DROPTOKENS (FInt (clientnum c) :: pos_fields (pos c) ++
      concat (map token_fields ts) ++ [FInt (-1)])) (-1) ;;
  set_tokens ci 0.

Definition collect_leavegame (ci : nat) (disconnecting : bool) : M server unit :=
  set_tokens ci 0 ;;
  if negb disconnecting then ret tt else
  s <- get_server ;;
  let c := deref ci s in
  let '(ids, l) := scan_tokens (visit_leave (clientnum c) (collectteambase (team c)))
                     (length (col_tokens s)) (0, 0) (col_tokens s) in
  set_collect {{ col_tokens := l }} ;;
  when (negb (bool_decide (ids = []))) (sendpacket (-1) 1 (expire_fields ids) (-1)).

Definition collect_died (ci : nat) (actor : option nat) : M server unit :=
  s <- get_server ;;
  droptokens ci (match actor with
                 | None => true
                 | Some a => isteam s (team (deref a s)) (team (deref ci s))
                 end).

Definition collect_canspawn (ci : nat) (connecting : bool) (s : server) : bool :=
  connecting || (lastdeath (deref ci s) =? 0) ||
  (RESPAWNSECS * 1000 <=? gamemillis s + curtime s - lastdeath (deref ci s)).
Definition collect_canchangeteam (newteam : cstring) : bool := 0 <? collectteambase newteam.

Definition cbase_at (i : Z) (s : server) : cbase := default cbase_new (col_bases s .! i).
Definition set_laststeal (i t : Z) : M server unit :=
  set_collect {{ col_bases ::= zalter {{ laststeal := t }} i }}.
Definition collect_score (team_ n : Z) : M server Z :=
  s <- get_server ;;
  let '(v, c) := collect_addscore team_ n (sv_collect s) in
  set_collect (fun _ => c) ;; ret v.

(** Who may use base [basenum]: the guard of [deposittokens]. *)
Definition can_deposit (ci : nat) (basenum : Z) (s : server) : bool :=
  let c := deref ci s in
  let b := cbase_at basenum s in
  negb (col_notgotbases s) && bool_decide (is_Some (col_bases s .! basenum)) &&
  cs_eqb (state c) CS_ALIVE && negb (bool_decide (team c = [])) &&
  bool_decide (is_Some (collectbaseteam (cb_team b))) &&
  negb (cb_team b =? collectteambase (team c)).

Definition deposittokens (ci : nat) (basenum : Z) : M server unit :=
  s <- get_server ;;
  if negb (can_deposit ci basenum s) then ret tt else
  let c := deref ci s in
  let b := cbase_at basenum s in
  let team_ := collectteambase (team c) in
  if 0 <? tokens c then
    set_laststeal basenum (gamemillis s) ;;
    upd_gs ci {{ flagscore ::= Z.add (tokens c) }} ;;
    score <- collect_score team_ (tokens c) ;;
    sendf (-1) 1 (message N_DEPOSITTOKENS
      [FInt (clientnum c); FInt basenum; FInt (tokens c); FInt team_; FInt score;
       FInt (flagscore c + tokens c)]) ;;
    set_tokens ci 0 ;;
    when (SCORELIMIT <=? score) startintermission
  else if gamemillis s <? laststeal b + STEALTOKENTIME then ret tt
  else if collect_totalscore (cb_team b) s <=? 0 then ret tt
  else
    let stolen := zlength (filter (fun t => t_dropper t = -1 - basenum) (col_tokens s)) in
    when (stolen <? TOKENLIMIT) (
      set_laststeal basenum (gamemillis s) ;;
      score <- collect_score (cb_team b) (-1) ;;
      yaw <- rand 360 ;;
      s <- get_server ;;
      let '(t, col) := droptoken (cb_o b) yaw team_ (lastmillis s) (-1 - basenum) (sv_collect s) in
      set_collect (fun _ => col) ;;
      sendf (-1) 1 (message N_STEALTOKENS
        ([FInt (clientnum c); FInt team_; FInt basenum; FInt (cb_team b); FInt score] ++
         pos_fields (t_o t) ++ [FInt (t_id t); FInt (t_yaw t); FInt (-1)]))).

Definition taketoken (ci : nat) (id : Z) : M server unit :=
  s <- get_server ;;
  let c := deref ci s in
  if col_notgotbases s || negb (cs_eqb (state c) CS_ALIVE) || bool_decide (team c = []) then ret tt
  else match findtoken id s with
  | None => ret tt
  | Some t =>
    let team_ := collectteambase (team c) in
    when (negb (t_team t =? team_) && ((0 <? t_team t) || (- t_team t =? team_)) &&
          (tokens c <? TOKENLIMIT)) (upd_gs ci {{ tokens ::= Z.add 1 }}) ;;
    s <- get_server ;;
    sendf (-1) 1 (message N_TAKETOKEN
      [FInt (clientnum (deref ci s)); FInt id; FInt (tokens (deref ci s))])
  end.

Definition collect_update : M server unit :=
  s <- get_server ;;
  if (gamelimit s <=? gamemillis s) || col_notgotbases s then ret tt else
  let '(ids, l) := scan_tokens (visit_expire (lastmillis s)) (length (col_tokens s)) tt
                     (col_tokens s) in
  set_collect {{ col_tokens := l }} ;;
  when (negb (bool_decide (ids = []))) (sendf (-1) 1 (expire_fields ids)).

(** What [initclient] appends to the welcome packet. *)
Definition collect_initclient (s : server) : list field :=
  message N_INITTOKENS (
    [FInt (fst (col_scores s)); FInt (snd (col_scores s)); FInt (zlength (col_tokens s))] ++
    concat (map (fun t => token_fields t ++ pos_fields (t_o t)) (col_tokens s)) ++
    concat (map (fun ci => let c := deref ci s in
      if cs_eqb (state c) CS_ALIVE && (0 <? tokens c)
      then [FInt (clientnum c); FInt (tokens c)] else []) (clients s)) ++ [FInt (-1)]).

(** The commit half of [parsebases], on what the packet held. *)
Definition commit_tokenbases (items : list (Z * vec)) : M server unit :=
  s <- get_server ;;
  if negb (col_notgotbases s) then ret tt else
  set_collect (fun c => fold_left (fun c '(i, it) => (collect_addbase i it.2 it.1 c).2)
                          (zip (seqZ 0 (zlength items)) items) c) ;;
  set_collect {{ col_notgotbases := false }}.
End collect.

(** * The backward scan *)

Section scan_facts.
Context {A : Type} (visit : A -> token -> A * token * bool).

(** The loop never loses or invents a token: whatever property the visitor
    keeps holds for what is left, and what is left is no longer than before. *)
Lemma scan_tokens_Forall (P : token -> Prop) n a l :
  (forall a t, P t -> P (visit a t).1.2) -> Forall P l ->
  Forall P (scan_tokens visit n a l).2 /\ Forall (fun id => exists t, P t /\ t_id t = id)
    (scan_tokens visit n a l).1.
Proof using.
  intros Hv. revert a l. induction n as [|n IH]; intros a l Hl; simpl; [by split|].
  destruct (l !! n) as [t|] eqn:E; [|auto].
  assert (P t) as Ht by by eapply Forall_lookup_1 in Hl.
  specialize (Hv a t Ht). destruct (visit a t) as [[a' t'] []]; simpl in *.
  - destruct (removeunordered_spec n l t E) as (k1&k2&k3&El&_&Er&Hp).
    assert (Forall P (removeunordered n l)) as Hr.
    { rw Er. rw El in Hl. apply Forall_app in Hl as [? [_ ?]%Forall_cons].
      apply Forall_app. split; [done|]. by rw Hp. }
    destruct (IH a' _ Hr). destruct (scan_tokens _ _ _ _) as [ids l']; simpl in *.
    split; [done|]. constructor; eauto.
  - apply IH. by apply Forall_insert.
Qed.
End scan_facts.

(** ** The tokens one client has on the ground *)
Definition friendly (cn team : Z) (t : token) : Prop := t_dropper t = cn /\ t_team t = team.
Definition hostile (cn team : Z) (t : token) : Prop := t_dropper t = cn /\ t_team t <> team.
#[global] Instance friendly_dec cn team t : Decision (friendly cn team t).
Proof. unfold friendly. apply _. Defined.
#[global] Instance hostile_dec cn team t : Decision (hostile cn team t).
Proof. unfold hostile. apply _. Defined.

Section count.
Context {A : Type} (P : A -> Prop) `{!forall x, Decision (P x)}.
Definition count (l : list A) : Z := zlength (filter P l).
Lemma count_app l k : count (l ++ k) = count l + count k.
Proof. unfold count. by rw filter_app zlength_app. Qed.
Lemma count_cons x l : count (x :: l) = (if bool_decide (P x) then 1 else 0) + count l.
Proof.
  unfold count, zlength. rw filter_cons. case_bool_decide; case_decide; try done. simpl. lia.
Qed.
Lemma count_perm l k : l ≡ₚ k -> count l = count k.
Proof. unfold count, zlength. by intros ->. Qed.
Lemma count_nonneg l : 0 <= count l.
Proof. apply zlength_nonneg. Qed.
End count.

Lemma visit_drop_eq cn team cnt t :
  visit_drop cn team cnt t =
  if t_dropper t =? cn then
    let '(cnt, over) := count_token team TOKENLIMIT cnt t in (cnt, t, over)
  else (cnt, t, false).
Proof. done. Qed.

(** The entries the scan has still to visit are the first [n]; what is behind
    them has been counted and kept. *)
Lemma scan_drop_count cn team n : forall a b l,
  (n <= length l)%nat ->
  let l' := (scan_tokens (visit_drop cn team) n (a, b) l).2 in
  count (friendly cn team) l' <=
    count (friendly cn team) (drop n l) + Z.max 0 (TOKENLIMIT - a) /\
  count (hostile cn team) l' <=
    count (hostile cn team) (drop n l) + Z.max 0 (TOKENLIMIT - b).
Proof.
  induction n as [|n IH]; intros a b l Hn; cbn [scan_tokens]; [cbv zeta; cbn [snd]; rw drop_0; lia|].
  destruct (l !! n) as [t|] eqn:E; [|apply lookup_ge_None in E; lia].
  pose proof (drop_S _ _ _ E) as Hd. pose proof (removeunordered_spec _ _ _ E) as Hr.
  assert (forall a b, let l' := (scan_tokens (visit_drop cn team) n (a, b) (<[n:=t]> l)).2 in
    count (friendly cn team) l' <= (if bool_decide (friendly cn team t) then 1 else 0) +
      count (friendly cn team) (drop (S n) l) + Z.max 0 (TOKENLIMIT - a) /\
    count (hostile cn team) l' <= (if bool_decide (hostile cn team t) then 1 else 0) +
      count (hostile cn team) (drop (S n) l) + Z.max 0 (TOKENLIMIT - b)) as Hkeep.
  { intros a' b'. rewrite -> list_insert_id by done. cbv zeta. rw -!count_cons -Hd. apply IH. lia. }
  assert (forall a b, let l' := (scan_tokens (visit_drop cn team) n (a, b) (removeunordered n l)).2 in
    count (friendly cn team) l' <=
      count (friendly cn team) (drop (S n) l) + Z.max 0 (TOKENLIMIT - a) /\
    count (hostile cn team) l' <=
      count (hostile cn team) (drop (S n) l) + Z.max 0 (TOKENLIMIT - b)) as Hgone.
  { intros a' b'. destruct Hr as (k1&k2&k3&El&En&->&Hp).
    assert (drop n (k1 ++ k3) ≡ₚ drop (S n) l) as Hp'.
    { rw El. rewrite -> (drop_app_length' k1 k3 n) by done.
      rw cons_middle app_assoc. rewrite -> (drop_app_length' (k1 ++ [t]) k2 (S n)); [done|].
      rw length_app. simpl. lia. }
    rw -!(count_perm _ _ _ Hp'). apply IH. rw length_app. lia. }
  rw (visit_drop_eq cn team (a, b) t). destruct (Z.eqb_spec (t_dropper t) cn) as [Ed|Ed].
  - unfold count_token. destruct (Z.eqb_spec (t_team t) team) as [Et|Et]; simpl.
    + destruct (Z.ltb_spec TOKENLIMIT (a + 1)); simpl.
      * generalize (Hgone (a + 1) b). destruct (scan_tokens _ _ _ _). simpl. lia.
      * specialize (Hkeep (a + 1) b). simpl in Hkeep.
        rewrite -> (bool_decide_eq_true_2 (friendly cn team t)) in Hkeep by (split; done).
        rewrite -> (bool_decide_eq_false_2 (hostile cn team t)) in Hkeep by (intros [? ?]; done).
        lia.
    + destruct (Z.ltb_spec TOKENLIMIT (b + 1)); simpl.
      * generalize (Hgone a (b + 1)). destruct (scan_tokens _ _ _ _). simpl. lia.
      * specialize (Hkeep a (b + 1)). simpl in Hkeep.
        rewrite -> (bool_decide_eq_false_2 (friendly cn team t)) in Hkeep by (intros [? ?]; done).
        rewrite -> (bool_decide_eq_true_2 (hostile cn team t)) in Hkeep by (split; done).
        lia.
  - specialize (Hkeep a b). simpl in *.
    rewrite -> (bool_decide_eq_false_2 (friendly cn team t)) in Hkeep by (intros [? ?]; done).
    rewrite -> (bool_decide_eq_false_2 (hostile cn team t)) in Hkeep by (intros [? ?]; done).
    lia.
Qed.

Lemma drop_tokens_spec n : forall o team dt cn yaws own c,
  length yaws = n ->
  let r := drop_tokens n o team dt cn yaws own c in
  col_tokens r.2 = col_tokens c ++ r.1 /\ zlength r.1 = Z.of_nat n /\
  (col_bases r.2, col_scores r.2, col_notgotbases r.2) =
  (col_bases c, col_scores c, col_notgotbases c) /\
  match n with
  | O => r.1 = []
  | S _ => exists t ts, r.1 = t :: ts /\ t_dropper t = cn /\
      t_team t = (if own then team else - team) /\
      Forall (fun t => t_dropper t = cn /\ t_team t = - team) ts
  end.
Proof.
  induction n as [|n IH]; intros o team dt cn yaws own c Hy; simpl; [by rw app_nil_r|].
  destruct yaws as [|yaw yaws]; [done|]. injection Hy as Hy. cbn [droptoken].
  specialize (IH o team dt cn yaws false).
  match goal with |- context [drop_tokens n _ _ _ _ _ _ ?c1] => specialize (IH c1 Hy) end.
  destruct (drop_tokens _ _ _ _ _ _ _ _) as [ts c']; simpl in *.
  destruct IH as (E1&E2&E3&E4). split_and!; [by rw E1 -app_assoc| |done|].
  - unfold zlength in *. simpl. lia.
  - eexists _, ts. split_and!; [done|done|done|].
    destruct n; [by subst|]. destruct E4 as (t&ts'&->&?&?&?). by constructor.
Qed.

Lemma count_Forall {A} (P Q : A -> Prop) `{!forall x, Decision (P x)} l :
  (forall x, Q x -> P x) -> Forall Q l -> count P l = zlength l.
Proof.
  intros HQ Hl. unfold count, zlength. induction Hl as [|x l Hx Hl IH]; [done|].
  rw filter_cons. rewrite -> decide_True by auto. simpl. lia.
Qed.
Lemma count_none {A} (P Q : A -> Prop) `{!forall x, Decision (P x)} l :
  (forall x, Q x -> P x -> False) -> Forall Q l -> count P l = 0.
Proof.
  intros HQ Hl. unfold count, zlength. induction Hl as [|x l Hx Hl IH]; [done|].
  rw filter_cons. rewrite -> decide_False; [done|]. intros Hp. by apply (HQ x).
Qed.

(** ** What [droptokens] does to the tokens *)
Lemma droptokens_tokens (ci : nat) (penalty : bool) (s : server) :
  col_notgotbases s = false ->
  let c := deref ci s in
  let cn := clientnum c in
  let team_ := collectteambase (team c) in
  let held := if penalty then 0 else tokens c in
  let ground := scan_tokens (visit_drop cn team_) (length (col_tokens s)) (1, held) (col_tokens s) in
  exists ts,
    col_tokens (exec (droptokens ci penalty) s) = ground.2 ++ ts /\
    zlength ts = Z.max 0 (1 + held) /\
    (0 <= held -> exists t l, ts = t :: l /\ t_dropper t = cn /\ t_team t = team_ /\
       Forall (fun t => t_dropper t = cn /\ t_team t = - team_) l) /\
    col_scores (exec (droptokens ci penalty) s) = col_scores s.
Proof.
  intros Hn c cn team_ held ground. unfold droptokens.
  rw (exec_bind get_server). cbn [eval gets get_server fst snd exec id].
  rw Hn. cbv zeta. fold c. fold cn. fold team_. fold held. fold ground.
  destruct ground as [ids l]. rw (exec_bind (set_collect _)). set (s1 := exec (set_collect _) s).
  rw (exec_bind (rand 360)). set (yaw := eval (rand 360) s1). set (s2 := exec (rand 360) s1).
  assert (sv_collect s2 = sv_collect s <| col_tokens := l |>) as E2.
  { subst s2. unfold exec, rand. by destruct (rnd 360 (sv_rng s1)). }
  clearbody s2 yaw. rw (exec_bind get_server). cbn [eval gets get_server fst snd exec id].
  match goal with |- context [map ?f (seqZ 0 ?k)] => set (yaws := map f (seqZ 0 k)) end.
  pose proof (drop_tokens_spec (Z.to_nat (1 + held)) (pos c) team_ (lastmillis s2) cn yaws true
    (sv_collect s2)) as Hd.
  destruct (drop_tokens _ _ _ _ _ _ _ _) as [ts col]. cbn [fst snd] in Hd.
  destruct Hd as (H1&H2&H3&H4); [subst yaws; by rw length_map length_seqZ|].
  match goal with |- context [exec (bind (set_collect (fun _ => col)) ?k) s2] =>
    assert (sv_collect (exec (bind (set_collect (fun _ => col)) k) s2) = col) as E end.
  { rw (exec_bind (set_collect _)).
    match goal with |- sv_collect (exec ?m ?st) = _ =>
      assert (respects (eq_on sv_collect) m) as Hm by (unfold set_tokens; solve_respects);
      specialize (Hm st) end. unfold eq_on in Hm. rw -Hm. done. }
  rw E. exists ts. split_and!.
  - rw H1 E2. done.
  - rw H2. lia.
  - intros Hh. destruct (Z.to_nat (1 + held)) eqn:En; [lia|].
    destruct H4 as (t&l'&?&?&?&?). eauto 10.
  - rw E2 in H3. by injection H3 as _ -> _.
Qed.

(** * The invariant

    It concerns the mode's own state and what each client holds. *)
Definition held (c : clientinfo) : Z := tokens c.
Definition collect_view (s : server) : gmap nat Z * collectstate :=
  (held <$> ci_heap s, sv_collect s).
Definition token_ok (t : token) : Prop := 1 <= t_id t <= INT_MAX.
Record collect_wf (v : gmap nat Z * collectstate) : Prop := {
  wf_held : map_Forall (fun _ n => 0 <= n <= TOKENLIMIT) v.1;
  wf_bases : zlength (col_bases v.2) <= MAXBASES;
  wf_scores : 0 <= (col_scores v.2).1 /\ 0 <= (col_scores v.2).2;
  wf_next : 0 <= nexttoken v.2 <= INT_MAX;
  wf_ids : Forall token_ok (col_tokens v.2)
}.
Abbreviation collect_inv := (inv_on collect_view collect_wf).

#[global] Instance collect_view_io : IgnoresIO collect_view.
Proof. split; reflexivity. Qed.

Lemma next_id_range n : 0 <= n <= INT_MAX -> 1 <= next_id n <= INT_MAX.
Proof.
  intros Hn. unfold next_id. pose proof (to_int_range (n + 1)) as [_ Hhi].
  destruct (Z.ltb_spec (to_int (n + 1)) 0); [unfold INT_MAX; lia|].
  destruct (decide (n = INT_MAX)) as [->|]; [by vm_compute in H|].
  rewrite -> to_int_id in * by (unfold is_int, INT_MIN, INT_MAX in *; lia). lia.
Qed.

(** ** The primitive steps *)
Lemma respects_set_collect f :
  (forall m c, collect_wf (m, c) -> collect_wf (m, f c)) -> respects collect_inv (set_collect f).
Proof. intros Hf. apply respects_inv_on. intros s. apply Hf. Qed.
Lemma held_alter (f : clientinfo -> clientinfo) ci (s : server) :
  held <$> alter f ci (ci_heap s) =
  match ci_heap s !! ci with
  | Some c => <[ci := held (f c)]> (held <$> ci_heap s)
  | None => held <$> ci_heap s
  end.
Proof.
  destruct (ci_heap s !! ci) as [c|] eqn:E.
  - rw -fmap_insert. f_equal. apply map_eq. intros i. destruct (decide (ci = i)) as [<-|].
    + by rw lookup_alter_eq lookup_insert_eq E.
    + by rewrite -> lookup_alter_ne, lookup_insert_ne by done.
  - f_equal. apply map_eq. intros i. destruct (decide (ci = i)) as [<-|].
    + by rw lookup_alter_eq E.
    + by rewrite -> lookup_alter_ne by done.
Qed.
Lemma held_same (f : clientinfo -> clientinfo) ci (s : server) :
  (forall c, held (f c) = held c) ->
  held <$> alter f ci (ci_heap s) =
  held <$> ci_heap s.
Proof.
  intros Hf. rw held_alter. destruct (ci_heap s !! ci) as [c|] eqn:E; [|done].
  apply insert_id. by rw lookup_fmap E Hf.
Qed.
Lemma collect_upd_at (f : clientinfo -> clientinfo) ci (s : server) :
  (collect_wf (collect_view s) -> 0 <= tokens (f (deref ci s)) <= TOKENLIMIT) ->
  collect_inv s (exec (upd_ci ci f) s).
Proof.
  intros Hf Hwf. specialize (Hf Hwf). destruct Hwf as [Hh ? ? ? ?]. constructor; try done.
  unfold collect_view. cbn. rw held_alter. unfold deref in Hf.
  destruct (ci_heap s !! ci) as [c|]; [|done]. by apply map_Forall_insert_2.
Qed.
Lemma respects_set_tokens ci n : 0 <= n <= TOKENLIMIT -> respects collect_inv (set_tokens ci n).
Proof. intros Hn s. by apply collect_upd_at. Qed.
Lemma respects_collect_keep ci f :
  (forall gs, tokens (f gs) = tokens gs) -> respects collect_inv (upd_gs ci f).
Proof.
  intros Hf. apply respects_inv_on. intros s. unfold collect_view. cbn.
  rw held_same; [done|]. intros c. apply Hf.
Qed.
Lemma respects_collect_intermission {hooks : Hooks} `{!HooksRespect collect_inv} :
  respects collect_inv startintermission.
Proof.
  eapply respects_startintermission; try apply _; [done|done|].
  intros s ci r. unfold collect_view. cbn. by rw held_same.
Qed.
#[export] Hint Resolve respects_collect_intermission : respects.

Ltac collect_step := apply respects_set_collect; intros ? ? [? ? ? ? ?]; by constructor.

Lemma respects_set_laststeal i t : respects collect_inv (set_laststeal i t).
Proof.
  apply respects_set_collect. intros m c [? ? ? ? ?]. constructor; try done.
  simpl. by rw zlength_zalter.
Qed.
Lemma respects_got_tokenbases : respects collect_inv (set_collect {{ col_notgotbases := false }}).
Proof. collect_step. Qed.
Lemma respects_collect_reset e : respects collect_inv (set_collect (collect_reset e)).
Proof.
  apply respects_set_collect. intros m c [? ? ? ? ?]. constructor; try done; simpl;
    unfold MAXBASES, INT_MAX, zlength; simpl; lia.
Qed.
#[export] Hint Resolve respects_set_laststeal respects_got_tokenbases respects_collect_reset : respects.

Lemma collect_addscore_wf m t n c :
  0 <= pair_get t (col_scores c) + n -> collect_wf (m, c) -> collect_wf (m, (collect_addscore t n c).2).
Proof.
  intros Hn [? ? Hs ? ?]. unfold collect_addscore, collect_totalscore, pair_get in *.
  destruct (Z.leb_spec 1 t); [|done]. destruct (Z.leb_spec t 2); [|done].
  constructor; try done. simpl in *. unfold pair_set.
  destruct (t =? 1); [simpl; lia|]. destruct (t =? 2); simpl; lia.
Qed.
Lemma collect_score_at t n (s : server) :
  (collect_wf (collect_view s) -> 0 <= collect_totalscore t s + n) ->
  collect_inv s (exec (collect_score t n) s).
Proof.
  intros Hn Hwf. unfold collect_score. rw (exec_bind get_server).
  cbn [eval gets get_server fst snd exec id].
  pose proof (collect_addscore_wf _ t n (sv_collect s) (Hn Hwf) Hwf) as H.
  by destruct (collect_addscore t n (sv_collect s)).
Qed.
Lemma respects_collect_score t n : 0 <= n -> respects collect_inv (collect_score t n).
Proof.
  intros Hn s. apply collect_score_at. intros [? ? Hs ? ?]. simpl in Hs.
  unfold collect_totalscore, pair_get. repeat case_match; lia.
Qed.
Lemma collect_scan_wf {A} (visit : A -> token -> A * token * bool) n a m c :
  (forall a t, t_id (visit a t).1.2 = t_id t) -> collect_wf (m, c) ->
  collect_wf (m, c <| col_tokens := (scan_tokens visit n a (col_tokens c)).2 |>).
Proof.
  intros Hv [? ? ? ? Hi]. constructor; try done. simpl.
  apply (scan_tokens_Forall visit token_ok); [|done].
  intros a' t. unfold token_ok. by rw Hv.
Qed.
Lemma droptoken_wf o yaw t dt cn m c :
  collect_wf (m, c) -> collect_wf (m, (droptoken o yaw t dt cn c).2).
Proof.
  intros [? ? ? Hn Hi]. simpl in *. pose proof (next_id_range _ Hn).
  constructor; try done; simpl in *; [lia|].
  apply Forall_app. split; [done|]. constructor; [exact H|constructor].
Qed.
Lemma drop_tokens_wf n : forall o t dt cn yaws own m c,
  collect_wf (m, c) -> collect_wf (m, (drop_tokens n o t dt cn yaws own c).2).
Proof.
  induction n as [|n IH]; intros o t dt cn yaws own m c Hwf; cbn [drop_tokens]; [done|].
  destruct yaws as [|yaw yaws]; [done|].
  pose proof (droptoken_wf o yaw (if own then t else - t) dt cn m c Hwf) as H.
  destruct (droptoken _ _ _ _ _ c) as [t1 c1]. cbn [snd] in H.
  specialize (IH o t dt cn yaws false m c1 H).
  by destruct (drop_tokens _ _ _ _ _ _ _ c1).
Qed.
Lemma collect_addbase_wf i o t m c :
  collect_wf (m, c) -> collect_wf (m, (collect_addbase i o t c).2).
Proof.
  intros [? Hb ? ? ?]. unfold collect_addbase. destruct (Z.ltb_spec i 0); [done|].
  destruct (Z.leb_spec MAXBASES i); [done|]. constructor; try done. simpl in *.
  rw zlength_zalter zlength_app. unfold zlength at 2. rw length_replicate. lia.
Qed.
Lemma add_mapbases_wf es : forall m c, collect_wf (m, c) -> collect_wf (m, add_mapbases es c).
Proof.
  induction es as [|e es IH]; intros m c Hwf; simpl; [done|].
  case_match; [auto|]. pose proof (collect_addbase_wf (zlength (col_bases c)) (e_o e) (attr2 e) m c Hwf).
  destruct (collect_addbase _ _ _ c) as [[] c']; auto.
Qed.

(** The visitors leave the identifiers alone. *)
Lemma visit_drop_id cn team cnt t : t_id (visit_drop cn team cnt t).1.2 = t_id t.
Proof. unfold visit_drop, count_token. by destruct (_ =? cn); [destruct (_ =? team)|]. Qed.
Lemma visit_leave_id cn team cnt t : t_id (visit_leave cn team cnt t).1.2 = t_id t.
Proof.
  unfold visit_leave, count_token. destruct (_ =? cn); simpl.
  - by destruct (_ =? team).
  - destruct (_ <? _); simpl; [done|]. by destruct (_ =? team).
Qed.

(** ** The handlers *)
Section collect_handlers.
Context {hooks : Hooks} `{!HooksRespect collect_inv}.

Lemma respects_collect_setup : respects collect_inv collect_setup.
Proof using.
  assert (forall es, respects collect_inv (set_collect (add_mapbases es))).
  { intros es. apply respects_set_collect. intros. by apply add_mapbases_wf. }
  unfold collect_setup. solve_respects.
Qed.
Lemma respects_droptokens ci penalty : respects collect_inv (droptokens ci penalty).
Proof using.
  unfold droptokens. apply (respects_read _ id). intros s. cbn [id].
  destruct (col_notgotbases s); [by intros ?|]. cbv zeta.
  set (visit := visit_drop _ _). set (a := (1, _)).
  pose proof (fun Hwf => collect_scan_wf visit (length (col_tokens s)) a
    (collect_view s).1 (sv_collect s)
    (visit_drop_id _ _) Hwf) as Hs.
  destruct (scan_tokens visit _ a (col_tokens s)) as [ids l]. cbn [snd] in Hs.
  apply respects_bind_at; [apply _|intros Hwf; exact (Hs Hwf)|]. intros _.
  apply respects_bind; [apply _|solve_respects|]. intros yaw.
  apply (respects_read _ id). intros s'. cbn [id].
  match goal with |- context [drop_tokens ?n ?o ?t ?dt ?cn ?ys ?own (sv_collect s')] =>
    pose proof (drop_tokens_wf n o t dt cn ys own (collect_view s').1 (sv_collect s')) as Hd;
    destruct (drop_tokens n o t dt cn ys own (sv_collect s')) as [ts col] end.
  apply respects_bind_at; [apply _|intros Hwf; exact (Hd Hwf)|]. intros _.
  apply respects_bind; [apply _|solve_respects|]. intros _.
  apply respects_set_tokens. unfold TOKENLIMIT. lia.
Qed.
Lemma respects_collect_leavegame ci d : respects collect_inv (collect_leavegame ci d).
Proof using.
  unfold collect_leavegame. apply respects_bind; [apply _| |intros _].
  { apply respects_set_tokens. unfold TOKENLIMIT. lia. }
  destruct d; simpl; [|by intros ?].
  apply (respects_read _ id). intros s. cbn [id].
  set (visit := visit_leave _ _).
  pose proof (fun Hwf => collect_scan_wf visit (length (col_tokens s)) (0, 0)
    (collect_view s).1 (sv_collect s)
    (visit_leave_id _ _) Hwf) as Hs.
  destruct (scan_tokens visit _ (0, 0) (col_tokens s)) as [ids l]. cbn [snd] in Hs.
  apply respects_bind_at; [apply _|intros Hwf; exact (Hs Hwf)|]. intros _. solve_respects.
Qed.
Lemma respects_collect_died ci actor : respects collect_inv (collect_died ci actor).
Proof using. unfold collect_died. pose proof respects_droptokens. solve_respects. Qed.
Lemma respects_collect_update : respects collect_inv collect_update.
Proof using.
  unfold collect_update. apply (respects_read _ id). intros s. cbn [id].
  case_match; [by intros ?|].
  pose proof (fun Hwf => collect_scan_wf (visit_expire (lastmillis s)) (length (col_tokens s)) tt
    (collect_view s).1 (sv_collect s) (fun _ _ => eq_refl) Hwf) as Hs.
  destruct (scan_tokens _ _ tt (col_tokens s)) as [ids l]. cbn [snd] in Hs.
  apply respects_bind_at; [apply _|intros Hwf; exact (Hs Hwf)|]. intros _. solve_respects.
Qed.
Lemma respects_commit_tokenbases items : respects collect_inv (commit_tokenbases items).
Proof using.
  assert (forall l, respects collect_inv (set_collect (fun c =>
    fold_left (fun c '(i, it) => (collect_addbase i it.2 it.1 c).2) l c))).
  { intros l. apply respects_set_collect. induction l as [|[i it] l IH]; intros m c Hwf; simpl; [done|].
    apply IH. by apply (collect_addbase_wf i it.2 it.1 m c). }
  unfold commit_tokenbases. solve_respects.
Qed.
Lemma respects_taketoken ci id : respects collect_inv (taketoken ci id).
Proof using.
  unfold taketoken. apply (respects_read _ Datatypes.id). intros s. cbn [Datatypes.id]. cbv zeta.
  case_match; [by intros ?|]. destruct (findtoken id s) as [t|]; [|by intros ?].
  apply respects_bind_at; [apply _| |intros _; solve_respects].
  match goal with |- context [when ?b _] => destruct b eqn:Eb end; [|done].
  apply andb_true_iff in Eb as [_ Hlt%Z.ltb_lt]. simpl.
  apply collect_upd_at. intros [Hh ? ? ? ?]. simpl. unfold deref in *.
  destruct (ci_heap s !! ci) as [c|] eqn:E; simpl in *; [|unfold TOKENLIMIT; lia].
  assert (0 <= held c <= TOKENLIMIT); [|unfold held in *; lia].
  apply (Hh ci). unfold collect_view. simpl. by rw lookup_fmap E.
Qed.
Lemma respects_deposittokens ci b : respects collect_inv (deposittokens ci b).
Proof using Type*.
  unfold deposittokens. apply (respects_read _ id). intros s. cbn [id].
  destruct (can_deposit ci b s); cbn [negb]; [|by intros ?]. cbv zeta.
  destruct (Z.ltb_spec 0 (tokens (deref ci s))).
  - match goal with |- collect_inv _ (exec ?m _) => enough (respects collect_inv m) by auto end.
    pose proof (fun t n H => respects_collect_score t n H).
    apply respects_bind; [apply _|solve_respects|intros _].
    apply respects_bind; [apply _|by apply respects_collect_keep|intros _].
    apply respects_bind; [apply _|apply respects_collect_score; lia|intros score].
    apply respects_bind; [apply _|solve_respects|intros _].
    apply respects_bind; [apply _|apply respects_set_tokens; unfold TOKENLIMIT; lia|intros _].
    solve_respects.
  - case_match; [by intros ?|].
    destruct (Z.leb_spec (collect_totalscore (cb_team (cbase_at b s)) s) 0); [by intros ?|].
    destruct (_ <? TOKENLIMIT); [|by intros ?]. cbn [when].
    rw (exec_bind (set_laststeal _ _)).
    transitivity (exec (set_laststeal b (gamemillis s)) s); [apply respects_set_laststeal|].
    set (s1 := exec (set_laststeal b (gamemillis s)) s).
    assert (collect_totalscore (cb_team (cbase_at b s)) s1 =
            collect_totalscore (cb_team (cbase_at b s)) s) as E by done.
    apply (respects_bind_at collect_inv); [|intros score].
    + apply collect_score_at. rw E. lia.
    + apply respects_bind; [apply _|solve_respects|]. intros yaw.
      apply (respects_read _ id). intros s2. cbn [id].
      match goal with |- context [droptoken ?o ?y ?t ?dt ?cn (sv_collect s2)] =>
        pose proof (droptoken_wf o y t dt cn (collect_view s2).1 (sv_collect s2)) as Hd;
        destruct (droptoken o y t dt cn (sv_collect s2)) as [tk col] end.
      apply respects_bind_at; [apply _|intros Hwf; exact (Hd Hwf)|]. intros _. solve_respects.
Qed.
End collect_handlers.

(** Everything a client or the clock can make the mode do. *)
Inductive collect_op : Set :=
| Collect_setup | Collect_newmap | Collect_cleanup | Collect_update
| Collect_bases (items : list (Z * vec))
| Collect_died (ci : nat) (actor : option nat)
| Collect_leave (ci : nat) (disconnecting : bool)
| Collect_deposit (ci : nat) (basenum : Z)
| Collect_take (ci : nat) (id : Z).
Definition run_collect {hooks : Hooks} (op : collect_op) : M server unit :=
  match op with
  | Collect_setup => collect_setup
  | Collect_newmap => collect_newmap
  | Collect_cleanup => collect_cleanup
  | Collect_update => collect_update
  | Collect_bases items => commit_tokenbases items
  | Collect_died ci actor => collect_died ci actor
  | Collect_leave ci d => collect_leavegame ci d
  | Collect_deposit ci b => deposittokens ci b
  | Collect_take ci id => taketoken ci id
  end.
Lemma respects_run_collect {hooks : Hooks} `{!HooksRespect collect_inv} op :
  respects collect_inv (run_collect op).
Proof.
  destruct op; simpl; eauto using respects_collect_setup, respects_collect_update,
    respects_commit_tokenbases, respects_collect_died, respects_collect_leavegame,
    respects_deposittokens, respects_taketoken, respects_collect_reset.
Qed.

(** * Properties *)

(** A player never litters the map: when a victim of one of the two teams
    drops tokens (holding at most [TOKENLIMIT], as every player does), older
    tokens expire so that at most [TOKENLIMIT] of its own team's and at most
    [TOKENLIMIT] of the other kind dropped by that player remain, the new ones
    included; with a penalty nothing but the one token of its team is dropped. *)
Theorem collect_drop_cap (ci : nat) (penalty : bool) (s : server) :
  col_notgotbases s = false -> 0 <= tokens (deref ci s) <= TOKENLIMIT ->
  collectteambase (team (deref ci s)) <> 0 ->
  let cn := clientnum (deref ci s) in
  let team_ := collectteambase (team (deref ci s)) in
  let ground := col_tokens (exec (droptokens ci penalty) s) in
  1 <= count (friendly cn team_) ground <= TOKENLIMIT /\
  (if penalty then 0 else tokens (deref ci s)) <= count (hostile cn team_) ground <= TOKENLIMIT.
Proof.
  intros Hn Ht Hteam cn team_ ground.
  destruct (droptokens_tokens ci penalty s Hn) as (ts&E&Hlen&Hts&_).
  fold cn in E, Hts. fold team_ in E, Hts. subst ground. rw E.
  set (held := if penalty then 0 else tokens (deref ci s)) in *.
  assert (0 <= held <= TOKENLIMIT) as Hh by (subst held; destruct penalty; unfold TOKENLIMIT in *; lia).
  destruct (Hts ltac:(lia)) as (t&l&->&Hc&Htm&Hl).
  pose proof (scan_drop_count cn team_ (length (col_tokens s)) 1 held (col_tokens s) ltac:(lia)) as [Hf Hg].
  rw drop_all in Hf Hg. rw !count_app !count_cons.
  rewrite -> (bool_decide_eq_true_2 (friendly cn team_ t)) by done.
  rewrite -> (bool_decide_eq_false_2 (hostile cn team_ t)) by (intros [_ ?]; done).
  assert (count (friendly cn team_) l = 0) as ->.
  { eapply count_none; [|exact Hl]. intros x [? ?] [? ?]. lia. }
  assert (count (hostile cn team_) l = zlength l) as ->.
  { eapply count_Forall; [|exact Hl]. intros x [? ?]. split; [done|lia]. }
  unfold zlength in Hlen. simpl in Hlen. unfold zlength.
  pose proof (count_nonneg (friendly cn team_) (scan_tokens (visit_drop cn team_)
    (length (col_tokens s)) (1, held) (col_tokens s)).2).
  pose proof (count_nonneg (hostile cn team_) (scan_tokens (visit_drop cn team_)
    (length (col_tokens s)) (1, held) (col_tokens s)).2).
  unfold count in *. unfold zlength in *. simpl in Hf, Hg. unfold TOKENLIMIT in *. lia.
Qed.

(** Two players, the second with three skulls, and a base of each team. *)
Definition collect_sample : server :=
  sample_server 20 [good; evil]
    <| sv_collect := mkcollect [mkcbase 0 1 vec0 0; mkcbase 1 2 vec0 0] (0, 4)
                       [mktoken 3 2 0 vec0 0 1; mktoken 4 (-2) 0 vec0 0 1;
                        mktoken 5 (-2) 0 vec0 0 1; mktoken 6 (-2) 0 vec0 0 1] 6 false |>
    <| sv_roster ::= {{ ci_heap ::= alter {{ ci_state ::= {{ tokens := 3 }} }} 1%nat }} |>.
Lemma collect_sample_wf : collect_wf (collect_view collect_sample).
Proof.
  constructor; try decide_now; vm_compute; repeat split; discriminate.
Qed.

Lemma collect_drop_cap_witness :
  let s := collect_sample in
  let ground := col_tokens (exec (droptokens 1 false) s) in
  1 <= count (friendly 1 2) ground <= TOKENLIMIT /\
  3 <= count (hostile 1 2) ground <= TOKENLIMIT.
Proof.
  apply (collect_drop_cap 1 false collect_sample); [vm_compute; reflexivity| |vm_compute; discriminate].
  vm_compute. split; discriminate.
Defined.

(** C16: the books of the collector mode always balance: for every sequence of
    the operations of the mode (map load, base lists from clients, deaths,
    departures, deposits, takes, updates) no player ever holds more than
    [TOKENLIMIT] skulls or fewer than none, no team's score is negative (steals
    included), there are at most [MAXBASES] bases, and every token on the ground
    has a positive identifier even after the counter wraps around. *)
Theorem collect_invariant {hooks : Hooks} `{!HooksRespect (inv_on collect_view collect_wf)}
    (ops : list collect_op) (s : server) :
  collect_wf (collect_view s) -> collect_wf (collect_view (exec (forM ops run_collect) s)).
Proof.
  assert (respects collect_inv (forM ops run_collect)) as H; [|apply H].
  apply respects_forM; [apply _|]. intros op _. apply respects_run_collect.
Qed.

Lemma collect_invariant_witness :
  let ops := [Collect_take 0 3; Collect_take 0 3; Collect_deposit 0 1; Collect_deposit 0 1;
              Collect_died 1 (Some 0%nat); Collect_leave 1 true; Collect_update] in
  collect_wf (collect_view (exec (forM ops (run_collect (hooks := no_hooks))) collect_sample)).
Proof.
  apply (collect_invariant (hooks := no_hooks)
    [Collect_take 0 3; Collect_take 0 3; Collect_deposit 0 1; Collect_deposit 0 1;
     Collect_died 1 (Some 0%nat); Collect_leave 1 true; Collect_update]).
  apply collect_sample_wf.
Defined.

(** What [deposittokens] may change besides time, packets and ranks. *)
Definition books (ci : nat) (s : server) : (Z * Z) * Z * Z :=
  (col_scores s, tokens (deref ci s), flagscore (deref ci s)).

Lemma books_intermission {hooks : Hooks} ci `{!HooksRespect (eq_on (books ci))} :
  respects (eq_on (books ci)) startintermission.
Proof.
  eapply (respects_startintermission (eq_on (books ci)) (books ci)); [done|done|].
  intros s ci' r. unfold books. f_equal; [f_equal|].
  - by apply (deref_alter (fun c : clientinfo => tokens c) {{ rank := r }}).
  - by apply (deref_alter (fun c : clientinfo => flagscore c) {{ rank := r }}).
Qed.
Lemma collect_score_books t n (s : server) :
  ci_heap (exec (collect_score t n) s) = ci_heap s /\
  col_scores (exec (collect_score t n) s) = pair_set t (pair_get t (col_scores s) + n) (col_scores s).
Proof.
  unfold collect_score. rw (exec_bind get_server). cbn [eval gets get_server fst snd exec id].
  unfold collect_addscore, collect_totalscore, pair_get, pair_set.
  destruct (Z.eqb_spec t 1) as [->|]; [by split|].
  destruct (Z.eqb_spec t 2) as [->|]; [by split|].
  by rewrite -> (proj2 (andb_false_iff _ _)) by lia.
Qed.
(** The end of a deposit: the announcement, then the player's hands are empty. *)
Lemma deposit_tail {hooks : Hooks} ci `{!HooksRespect (eq_on (books ci))} fs b (s : server) :
  is_Some (ci_heap s !! ci) ->
  books ci (exec (sendf (-1) 1 fs ;; set_tokens ci 0 ;; when b startintermission) s) =
  (col_scores s, 0, flagscore (deref ci s)).
Proof.
  intros [c Hc]. rw exec_bind. set (s1 := exec (sendf _ _ _) s).
  assert (respects (eq_on (fun s : server => (sv_roster s, sv_collect s))) (sendf (-1) 1 fs)) as Hs
    by solve_respects.
  specialize (Hs s). fold s1 in Hs. injection Hs as E Ec.
  clearbody s1. rw exec_bind. set (s2 := exec (set_tokens ci 0) s1).
  assert (respects (eq_on (books ci)) (when b startintermission)) as Hm
    by (pose proof (books_intermission ci); solve_respects).
  specialize (Hm s2). unfold eq_on in Hm. rw -Hm. unfold books.
  change (col_scores s2) with (col_scores s1). rw -Ec.
  change (deref ci s2) with
    (default clientinfo0 (alter {{ ci_state ::= {{ tokens := 0 }} }} ci (ci_heap s1) !! ci)).
  unfold deref. rw -E lookup_alter_eq Hc. done.
Qed.

(** Depositing scores what was carried: when the guard lets a player who
    holds skulls use an enemy base, the score of the player's team and the
    player's own score grow by exactly the number of skulls, the player is left
    with none and the other team's score is untouched, whether or not the match
    ends there; a request the guard refuses changes nothing at all. *)
Theorem collect_deposit_scores {hooks : Hooks} (ci : nat) `{!HooksRespect (eq_on (books ci))}
    (basenum : Z) (s : server) :
  (can_deposit ci basenum s = false -> exec (deposittokens ci basenum) s = s) /\
  (can_deposit ci basenum s = true -> is_Some (ci_heap s !! ci) -> 0 < tokens (deref ci s) ->
   let team_ := collectteambase (team (deref ci s)) in
   let n := tokens (deref ci s) in
   books ci (exec (deposittokens ci basenum) s) =
   (pair_set team_ (pair_get team_ (col_scores s) + n) (col_scores s), 0,
    flagscore (deref ci s) + n)).
Proof.
  split.
  - intros Hc. unfold deposittokens. rw (exec_bind get_server).
    cbn [eval gets get_server fst snd exec id]. by rw Hc.
  - intros Hc [c Hci] Hn team_ n. unfold deposittokens. rw (exec_bind get_server).
    cbn [eval gets get_server fst snd exec id]. rw Hc. cbn [negb]. cbv zeta.
    rewrite -> (proj2 (Z.ltb_lt _ _) Hn). fold team_. fold n.
    rw (exec_bind (set_laststeal _ _)) (exec_bind (upd_gs ci _)) (exec_bind (collect_score _ _)).
    set (s2 := exec (upd_gs ci _) _).
    assert (ci_heap s2 !! ci = Some (c <| ci_state ::= {{ flagscore ::= Z.add n }} |>)) as H2
      by (cbn; by rw lookup_alter_eq Hci).
    assert (col_scores s2 = col_scores s) as Es by done. clearbody s2.
    destruct (collect_score_books team_ n s2) as [E3 Es3]. rw Es in Es3.
    rw deposit_tail; [|by rw E3 H2]. rw Es3. unfold deref. rw E3 H2 Hci. cbn.
    f_equal. lia.
Qed.

Lemma collect_deposit_scores_witness :
  let s := collect_sample in
  can_deposit 1 0 s = true /\
  (can_deposit 1 0 s = false -> exec (deposittokens (hooks := no_hooks) 1 0) s = s) /\
  (can_deposit 1 0 s = true -> is_Some (ci_heap s !! 1%nat) -> 0 < tokens (deref 1 s) ->
   books 1 (exec (deposittokens (hooks := no_hooks) 1 0) s) =
   (pair_set 2 (pair_get 2 (col_scores s) + 3) (col_scores s), 0, flagscore (deref 1 s) + 3)).
Proof.
  split; [vm_compute; reflexivity|].
  apply (collect_deposit_scores (hooks := no_hooks) 1 0 collect_sample).
Defined.
