(* ===== verification/Servmode.v ===== *)
(** The interface [servmode] of server.cpp and its three implementations.

    [smode] points to one of three objects or to none; a virtual call is a
    field of the record [servmode] selected by [servmode_of].  [ModeFrame] says
    which part of the state no mode touches: the clients of the interface are
    proved against the class [ModeRespects], and the three modes discharge it. *)
From S2P Require Import Prelude Wire Text Float32 Game Random State Engine Intermission.
From S2P Require Ctf Capture Collect.

Record servmode := mkservmode {
  sm_entergame : nat -> M server unit;
  sm_leavegame : nat -> bool -> M server unit;
  sm_moved : nat -> vec -> bool -> vec -> bool -> M server unit;
  sm_canspawn : nat -> bool -> server -> bool;
  sm_spawned : nat -> M server unit;
  sm_died : nat -> option nat -> M server unit;
  sm_canchangeteam : nat -> cstring -> cstring -> bool;
  sm_changeteam : nat -> cstring -> cstring -> M server unit;
  sm_initclient : option nat -> bool -> server -> list field;
  sm_update : M server unit;
  sm_cleanup : M server unit;
  sm_setup : M server unit;
  sm_newmap : M server unit;
  sm_hidefrags : bool;
  sm_getteamscore : cstring -> server -> Z;
  sm_getteamscores : server -> list (cstring * Z);
  sm_extinfoteam : cstring -> server -> option (list field)
}.
#[export] Instance eta_servmode : Eta servmode := settable mkservmode
  <sm_entergame; sm_leavegame; sm_moved; sm_canspawn; sm_spawned; sm_died; sm_canchangeteam;
   sm_changeteam; sm_initclient; sm_update; sm_cleanup; sm_setup; sm_newmap; sm_hidefrags;
   sm_getteamscore; sm_getteamscores; sm_extinfoteam>.

(** The bodies of the virtual functions in [struct servmode]. *)
Definition base_servmode : servmode := {|
  sm_entergame _ := ret tt;
  sm_leavegame _ _ := ret tt;
  sm_moved _ _ _ _ _ := ret tt;
  sm_canspawn _ _ _ := true;
  sm_spawned _ := ret tt;
  sm_died _ _ := ret tt;
  sm_canchangeteam _ _ _ := true;
  sm_changeteam _ _ _ := ret tt;
  sm_initclient _ _ _ := [];
  sm_update := ret tt;
  sm_cleanup := ret tt;
  sm_setup := ret tt;
  sm_newmap := ret tt;
  sm_hidefrags := false;
  sm_getteamscore _ _ := 0;
  sm_getteamscores _ := [];
  sm_extinfoteam _ _ := None
|}.

Section servmodes.
Context {hooks : Hooks}.

Definition captureservmode : servmode := base_servmode
  <| sm_entergame := Capture.capture_entergame |>
  <| sm_leavegame := Capture.capture_leavegame |>
  <| sm_moved := Capture.capture_moved |>
  <| sm_canspawn := Capture.capture_canspawn |>
  <| sm_spawned := Capture.capture_spawned |>
  <| sm_died := Capture.capture_died |>
  <| sm_changeteam := Capture.capture_changeteam |>
  <| sm_initclient := fun _ => Capture.capture_initclient |>
  <| sm_update := Capture.capture_update |>
  <| sm_cleanup := Capture.capture_cleanup |>
  <| sm_setup := Capture.capture_setup |>
  <| sm_newmap := Capture.capture_newmap |>
  <| sm_hidefrags := true |>
  <| sm_getteamscore := fun t s => Capture.capture_getteamscore t s |>
  <| sm_getteamscores := fun s => Capture.capture_getteamscores s |>
  <| sm_extinfoteam := fun t s => Some (Capture.capture_extinfoteam t s) |>.

Definition ctfservmode : servmode := base_servmode
  <| sm_leavegame := Ctf.ctf_leavegame |>
  <| sm_canspawn := Ctf.ctf_canspawn |>
  <| sm_died := Ctf.ctf_died |>
  <| sm_canchangeteam := fun _ _ t => Ctf.ctf_canchangeteam t |>
  <| sm_changeteam := fun ci _ _ => Ctf.ctf_changeteam ci |>
  <| sm_initclient := fun _ _ => Ctf.ctf_initclient |>
  <| sm_update := Ctf.ctf_update |>
  <| sm_cleanup := Ctf.ctf_cleanup |>
  <| sm_setup := Ctf.ctf_setup |>
  <| sm_newmap := Ctf.ctf_newmap |>
  <| sm_hidefrags := true |>
  <| sm_getteamscore := fun t s => Ctf.ctf_getteamscore t s |>
  <| sm_getteamscores := fun s => Ctf.ctf_getteamscores s |>.

Definition collectservmode : servmode := base_servmode
  <| sm_leavegame := Collect.collect_leavegame |>
  <| sm_canspawn := Collect.collect_canspawn |>
  <| sm_died := Collect.collect_died |>
  <| sm_canchangeteam := fun _ _ t => Collect.collect_canchangeteam t |>
  <| sm_initclient := fun _ _ => Collect.collect_initclient |>
  <| sm_update := Collect.collect_update |>
  <| sm_cleanup := Collect.collect_cleanup |>
  <| sm_setup := Collect.collect_setup |>
  <| sm_newmap := Collect.collect_newmap |>
  <| sm_hidefrags := true |>
  <| sm_getteamscore := fun t s => Collect.collect_getteamscore t s |>
  <| sm_getteamscores := fun s => Collect.collect_getteamscores s |>.

Definition servmode_of (k : smode_kind) : servmode :=
  match k with
  | capturemode => captureservmode
  | ctfmode => ctfservmode
  | collectmode => collectservmode
  end.

(** [if(smode) smode->f(...)]. *)
Definition with_smode (f : servmode -> M server unit) : M server unit :=
  s <- get_server ;;
  match smode s with Some k => f (servmode_of k) | None => ret tt end.
(** [smode && smode->hidefrags()], and [!smode || smode->canchangeteam(...)]. *)
Definition hidefrags (s : server) : bool :=
  match smode s with Some k => sm_hidefrags (servmode_of k) | None => false end.
Definition canchangeteam (ci : nat) (oldteam newteam : cstring) (s : server) : bool :=
  match smode s with
  | Some k => sm_canchangeteam (servmode_of k) ci oldteam newteam
  | None => true
  end.
Definition canspawn (ci : nat) (connecting : bool) (s : server) : bool :=
  match smode s with Some k => sm_canspawn (servmode_of k) ci connecting s | None => true end.
(** No mode overrides [fragvalue]. *)
Definition fragvalue (victim actor : nat) (s : server) : Z :=
  if (victim =? actor)%nat || isteam s (team (deref victim s)) (team (deref actor s)) then -1 else 1.

(** ** What the rest of the server may rely on *)

(** A program on which every call of the interface leaves [R] between the
    states before and after it. *)
Class ModeRespects (R : relation server) : Prop := {
  mr_entergame k ci : respects R (sm_entergame (servmode_of k) ci);
  mr_leavegame k ci d : respects R (sm_leavegame (servmode_of k) ci d);
  mr_moved k ci o oc n nc : respects R (sm_moved (servmode_of k) ci o oc n nc);
  mr_spawned k ci : respects R (sm_spawned (servmode_of k) ci);
  mr_died k ci a : respects R (sm_died (servmode_of k) ci a);
  mr_changeteam k ci o n : respects R (sm_changeteam (servmode_of k) ci o n);
  mr_update k : respects R (sm_update (servmode_of k));
  mr_cleanup k : respects R (sm_cleanup (servmode_of k));
  mr_setup k : respects R (sm_setup (servmode_of k));
  mr_newmap k : respects R (sm_newmap (servmode_of k))
}.

(** What a mode may change of a client: its score in the mode, its rank, what
    it carries and the supplies a base hands out. *)
Definition mode_core (c : clientinfo) : clientinfo :=
  c <| timetrial := 0 |> <| rank := 0 |>
    <| ci_state ::= fun gs => gs <| tokens := 0 |> <| flagscore := 0 |>
         <| fps ::= fun st => fpsstate0 <| aitype := aitype st |> <| skill := skill st |> |> |>.

(** A projection that sees nothing a mode may change. *)
Class ModeFrame {T} (π : server -> T) : Prop := {
  mf_io : IgnoresIO π;
  mf_ctf s f : π (s <| sv_ctf ::= f |>) = π s;
  mf_capture s f : π (s <| sv_capture ::= f |>) = π s;
  mf_collect s f : π (s <| sv_collect ::= f |>) = π s;
  mf_rng s g : π (s <| sv_rng := g |>) = π s;
  mf_limit s n : π (s <| sv_game ::= {{ gamelimit := n }} |>) = π s;
  mf_interm s n : π (s <| sv_game ::= {{ interm := n }} |>) = π s;
  mf_clients s ci f : (forall c, mode_core (f c) = mode_core c) ->
    π (s <| sv_roster ::= {{ ci_heap ::= alter f ci }} |>) = π s
}.
End servmodes.
#[export] Hint Extern 0 (ModeFrame _) =>
  split; [apply _|intros; reflexivity..] : typeclass_instances.

(** * The modes respect their frame *)
Section mode_frame.
Context {hooks : Hooks} {T} (R : relation server) `{!PreOrder R} (π : server -> T)
  `{!FramedBy R π} `{!ModeFrame π} `{!HooksRespect R}.

#[local] Instance mode_io : IgnoresIO π := mf_io.

Lemma frame_ctf f : respects R (set_ctf f).
Proof using All. eapply respects_frame; [done|]. intros; apply mf_ctf. Qed.
Lemma frame_capture f : respects R (set_capture f).
Proof using All. eapply respects_frame; [done|]. intros; apply mf_capture. Qed.
Lemma frame_collect f : respects R (set_collect f).
Proof using All. eapply respects_frame; [done|]. intros; apply mf_collect. Qed.
Lemma frame_rand x : respects R (rand x).
Proof using All. eapply respects_rand_frame; [done|]. intros; apply mf_rng. Qed.
Lemma frame_client ci f :
  (forall c, mode_core (f c) = mode_core c) -> respects R (upd_ci ci f).
Proof using All. intros Hf. eapply respects_frame; [done|]. intros; by apply mf_clients. Qed.
Lemma frame_intermission : respects R startintermission.
Proof using All.
  eapply respects_startintermission; [apply _..| | |].
  - intros; apply mf_limit.
  - intros; apply mf_interm.
  - intros. by apply mf_clients.
Qed.
#[local] Hint Resolve frame_ctf frame_capture frame_collect frame_rand frame_intermission : respects.
#[local] Hint Extern 1 (respects _ (upd_ci _ _)) => apply frame_client; done : respects.
#[local] Hint Extern 1 (respects _ (upd_gs _ _)) => apply frame_client; done : respects.

(** ** Capture the flag *)
Lemma frame_upd_flag i f : respects R (Ctf.upd_flag i f).
Proof using All. unfold Ctf.upd_flag. solve_respects. Qed.
#[local] Hint Resolve frame_upd_flag : respects.
Lemma frame_next_version i : respects R (Ctf.next_version i).
Proof using All. unfold Ctf.next_version. solve_respects. Qed.
#[local] Hint Resolve frame_next_version : respects.
Lemma frame_spawnflag i : respects R (Ctf.spawnflag i).
Proof using All.
  assert (forall n k p l, respects R (Ctf.draw_spawn n k p l))
    by (intros n; induction n; intros; simpl; solve_respects).
  unfold Ctf.spawnflag. solve_respects.
Qed.
#[local] Hint Resolve frame_spawnflag : respects.
Lemma frame_send_resetflag i t n : respects R (Ctf.send_resetflag i t n).
Proof using All. unfold Ctf.send_resetflag, Ctf.resetflag_event. solve_respects. Qed.
#[local] Hint Resolve frame_send_resetflag : respects.
Lemma frame_ctf_setup : respects R Ctf.ctf_setup.
Proof using All.
  assert (forall n, respects R (Ctf.fill_holdflags n))
    by (intros n; induction n; simpl; solve_respects).
  unfold Ctf.ctf_setup, Ctf.setupholdspawns. solve_respects.
Qed.
Lemma frame_ctf_dropflag ci d : respects R (Ctf.ctf_dropflag ci d).
Proof using All.
  assert (forall i, respects R (Ctf.drop_one ci d i)) by (intros; unfold Ctf.drop_one; solve_respects).
  unfold Ctf.ctf_dropflag. solve_respects.
Qed.
#[local] Hint Resolve frame_ctf_dropflag : respects.
Lemma frame_ctf_leavegame ci d : respects R (Ctf.ctf_leavegame ci d).
Proof using All. unfold Ctf.ctf_leavegame, Ctf.forget_dropper. solve_respects. Qed.
Lemma frame_ctf_died ci a : respects R (Ctf.ctf_died ci a).
Proof using All. unfold Ctf.ctf_died, Ctf.forget_dropper. cbv zeta. solve_respects. Qed.
Lemma frame_scoreflag ci g r : respects R (Ctf.scoreflag ci g r).
Proof using All. unfold Ctf.scoreflag. cbv zeta. solve_respects. Qed.
#[local] Hint Resolve frame_scoreflag : respects.
Lemma frame_ctf_update : respects R Ctf.ctf_update.
Proof using All.
  assert (forall i, respects R (Ctf.update_flag i))
    by (intros; unfold Ctf.update_flag; cbv zeta; solve_respects).
  unfold Ctf.ctf_update. solve_respects.
Qed.

(** ** Capture *)
Lemma frame_step_base {A} i (f : baseinfo -> A * baseinfo) : respects R (Capture.step_base i f).
Proof using All. unfold Capture.step_base, Capture.upd_base. solve_respects. Qed.
#[local] Hint Resolve frame_step_base : respects.
Lemma frame_sendbaseinfo i : respects R (Capture.sendbaseinfo i).
Proof using All. unfold Capture.sendbaseinfo. solve_respects. Qed.
#[local] Hint Resolve frame_sendbaseinfo : respects.
Lemma frame_movebases t o oc n nc : respects R (Capture.movebases t o oc n nc).
Proof using All.
  assert (forall i, respects R (Capture.stealbase i t)) by (intros; unfold Capture.stealbase; solve_respects).
  assert (forall i, respects R (Capture.movebase t o oc n nc i))
    by (intros; unfold Capture.movebase; cbv zeta; solve_respects).
  unfold Capture.movebases. solve_respects.
Qed.
#[local] Hint Resolve frame_movebases : respects.
Lemma frame_capture_entergame ci : respects R (Capture.capture_entergame ci).
Proof using All. unfold Capture.capture_entergame, Capture.enterbases. cbv zeta. solve_respects. Qed.
#[local] Hint Resolve frame_capture_entergame : respects.
Lemma frame_capture_setup : respects R Capture.capture_setup.
Proof using All.
  assert (forall t o, respects R (Capture.addbase t o))
    by (intros; unfold Capture.addbase; cbv zeta; solve_respects).
  unfold Capture.capture_setup, Capture.sendbases, Capture.enter_alive. solve_respects.
Qed.
Lemma regen_client_keeps b n st :
  aitype (Capture.regen_client b n st).2 = aitype st /\ skill (Capture.regen_client b n st).2 = skill st.
Proof. unfold Capture.regen_client. repeat case_match; simplify_eq; done. Qed.
Lemma frame_regenowners i n : respects R (Capture.regenowners i n).
Proof using All.
  unfold Capture.regenowners. cbv zeta.
  apply respects_bind; [done|apply respects_gets; done|]. intros s0.
  apply respects_forM; [done|]. intros ci _.
  apply respects_bind; [done|apply respects_gets; done|]. intros s.
  apply respects_when; [done|]. destruct (Capture.regen_client _ n (deref ci s)) as [notify st].
  apply respects_bind; [done| |intros _; solve_respects].
  apply frame_client. intros c. unfold mode_core. cbn.
  destruct (regen_client_keeps (Capture.base_at i s) n (fps (ci_state c))) as [E1 E2]. by rw E1 E2.
Qed.
Lemma frame_capture_update : respects R Capture.capture_update.
Proof using All.
  assert (forall i t n, respects R (Capture.addscore i t n))
    by (intros; unfold Capture.addscore; cbv zeta; solve_respects).
  assert (forall i n, respects R (Capture.regenowners i n))
    by (intros; apply frame_regenowners).
  assert (respects R Capture.endcheck) by (unfold Capture.endcheck; solve_respects).
  assert (forall t i, respects R (Capture.update_base t i))
    by (intros; unfold Capture.update_base, Capture.upd_base; cbv zeta; solve_respects).
  unfold Capture.capture_update. cbv zeta. solve_respects.
Qed.

(** ** Collect *)
Lemma frame_collect_died ci a : respects R (Collect.collect_died ci a).
Proof using All.
  assert (forall p, respects R (Collect.droptokens ci p))
    by (intros; unfold Collect.droptokens, Collect.set_tokens; cbv zeta; solve_respects).
  unfold Collect.collect_died. solve_respects.
Qed.
Lemma frame_collect_leavegame ci d : respects R (Collect.collect_leavegame ci d).
Proof using All. unfold Collect.collect_leavegame, Collect.set_tokens. cbv zeta. solve_respects. Qed.

(** Every frame of the modes is respected by each of them. *)
Lemma mode_frame_respects : ModeRespects R.
Proof using All.
  split; intros []; intros; simpl;
    try solve [apply respects_ret; apply _ | apply frame_ctf | apply frame_capture | apply frame_collect
              | eauto using frame_ctf_setup, frame_ctf_leavegame, frame_ctf_died, frame_ctf_update,
                  frame_capture_setup, frame_capture_update, frame_collect_died, frame_collect_leavegame
              | unfold Capture.capture_leavegame, Capture.capture_moved, Capture.capture_spawned,
                  Capture.capture_died, Capture.capture_changeteam, Capture.leavebases,
                  Capture.enterbases, Ctf.ctf_changeteam, Collect.collect_update, Collect.collect_setup;
                cbv zeta; solve_respects].
Qed.
End mode_frame.
#[export] Hint Extern 1 (ModeRespects _) => eapply mode_frame_respects; apply _ : typeclass_instances.

(** * What can be seen of the clients

    [heap_view g] sees [g] of every client and the parts of the match the modes
    leave alone. *)
Definition match_view (s : server) := (gamemode s, gamemillis s, clients s, bots s, spies s, spycn s, slots s).
Definition heap_view {A} (g : clientinfo -> A) (s : server) := (g <$> ci_heap s, match_view s).

Lemma fmap_alter_id {A B} (g : A -> B) (f : A -> A) (k : nat) (m : gmap nat A) :
  (forall c, g (f c) = g c) -> g <$> alter f k m = g <$> m.
Proof.
  intros Hf. apply map_eq. intros j. rw !lookup_fmap. destruct (decide (k = j)) as [<-|].
  - rw lookup_alter_eq. destruct (m !! k); simpl; by rw ?Hf.
  - by rewrite -> lookup_alter_ne by done.
Qed.
Lemma fmap_alter {A B} (g : A -> B) (f : A -> A) (h : B -> B) (k : nat) (m : gmap nat A) :
  (forall c, g (f c) = h (g c)) -> g <$> alter f k m = alter h k (g <$> m).
Proof.
  intros Hf. apply map_eq. intros j. rw lookup_fmap. destruct (decide (k = j)) as [<-|].
  - rw !lookup_alter_eq lookup_fmap. destruct (m !! k); simpl; by rw ?Hf.
  - rewrite -> !lookup_alter_ne by done. by rw lookup_fmap.
Qed.

Section heap_view.
Context {A : Type} (g : clientinfo -> A).

Lemma heap_view_upd f h ci s :
  (forall c, g (f c) = h (g c)) ->
  heap_view g (exec (upd_ci ci f) s) = (alter h ci (g <$> ci_heap s), match_view s).
Proof. intros Hf. unfold heap_view. f_equal. simpl. by apply fmap_alter. Qed.
Lemma heap_view_frame f ci : (forall c, g (f c) = g c) -> respects (eq_on (heap_view g)) (upd_ci ci f).
Proof.
  intros Hf s. unfold eq_on, heap_view. f_equal. simpl. symmetry. by apply fmap_alter_id.
Qed.
Lemma heap_view_deref s s' ci : heap_view g s = heap_view g s' -> g (deref ci s) = g (deref ci s').
Proof.
  intros [= E _]. pose proof (f_equal (fun m => m !! ci) E) as H. cbn in H. rw !lookup_fmap in H.
  unfold deref. destruct (ci_heap s !! ci), (ci_heap s' !! ci); simpl in *; congruence.
Qed.
Lemma heap_view_mode : (forall c, g (mode_core c) = g c) -> ModeFrame (heap_view g).
Proof.
  intros Hg. split; [apply _|intros; reflexivity..|]. intros s ci f Hf. unfold heap_view. f_equal.
  simpl. apply fmap_alter_id. intros c. by rw -Hg Hf Hg.
Qed.
(** Scripts that leave the clients alone leave every view of them alone. *)
Lemma hooks_heap_view {hooks : Hooks} :
  HooksRespect (eq_on (heap_view (fun c => c))) -> HooksRespect (eq_on (heap_view g)).
Proof.
  intros H e s. specialize (H e s). unfold eq_on, heap_view in *. injection H as E1 E2 E3 E4 E5 E6 E7 E8.
  rw !map_fmap_id in E1. f_equal; [by rw E1|]. unfold match_view. congruence.
Qed.
End heap_view.
#[export] Hint Extern 1 (ModeFrame (heap_view _)) => apply heap_view_mode; intros; reflexivity : typeclass_instances.

Lemma respects_with_smode {hooks : Hooks} R `{!PreOrder R} f :
  (forall k, respects R (f (servmode_of k))) -> respects R (with_smode f).
Proof. intros Hf. unfold with_smode. solve_respects. Qed.
