(* ===== verification/Roster.v ===== *)
(** Who is playing: counts, names, teams and saved scores (fpsgame/server.cpp).

    The set [teaminfos] is an association list from team names to frags; the
    two teams [autoteam] fills are lists of clients, and its two nested loops
    are the fixpoints [team_round] and [team_rounds] on an explicit fuel, each
    turn taking one client out of the running. *)
From S2P Require Import Prelude Wire Text Float32 Game Random State Engine Servmode.

#[local] Open Scope list_scope.

(** * Counting clients *)

Definition numclients (exclude : Z) (nospec noai priv : bool) (s : server) : Z :=
  zlength (filter (fun ci => let c := deref ci s in
    negb (clientnum c =? exclude) &&
    (negb nospec || negb (cs_eqb (state c) CS_SPECTATOR) ||
     (priv && (negb (privilege c =? 0) || local c))) &&
    (negb noai || (aitype c =? AI_NONE)) = true) (clients s)) - zlength (spies s).
Definition spec_count (s : server) : Z :=
  zlength (filter (fun ci => cs_eqb (state (deref ci s)) CS_SPECTATOR &&
                             negb (spy (deref ci s)) = true) (clients s)).
Definition duplicatename (ci : nat) (name_ : cstring) (s : server) : bool :=
  existsb (fun i => negb (i =? ci)%nat && bool_decide (name_ = name (deref i s)) &&
                    negb (spy (deref i s))) (clients s).

(** Decimal digits: [%d]. *)
Fixpoint digits (fuel : nat) (n : Z) (acc : list Z) : list Z :=
  match fuel with
  | O => acc
  | S fuel => if n <? 10 then (48 + n) :: acc
              else digits fuel (n ÷ 10) ((48 + n mod 10) :: acc)
  end.
Definition print_int (n : Z) : cstring :=
  if n <? 0 then 45 :: digits 20 (- n) [] else digits 20 n [].

Definition colorname (ci : nat) (name_ : cstring) (s : server) : cstring :=
  let bot := negb (aitype (deref ci s) =? AI_NONE) in
  if negb (bool_decide (name_ = [])) && negb (duplicatename ci name_ s) && negb bot then name_
  else copystring (name_ ++ [32; 12; 115; 12; 53] ++
         (if bot then [91] else [40]) ++ print_int (clientnum (deref ci s)) ++
         (if bot then [93] else [41]) ++ [12; 114]) MAXSTRLEN.

(** ** Names of modes and privileges *)
Definition modename (n : Z) : option cstring :=
  if m_valid n then (fun g => cstr (gm_name g)) <$> gamemodes .! (n - STARTGAMEMODE) else None.
(** The search starts at the first mode number 0. *)
Definition modecode (name_ : cstring) : Z :=
  match filter (fun i => (fun g => cstr (gm_name g)) <$> gamemodes .! i = Some name_)
          (seqZ (0 - STARTGAMEMODE) (NUMGAMEMODES - (0 - STARTGAMEMODE))) with
  | i :: _ => i + STARTGAMEMODE
  | [] => 0
  end.
Definition mastermodename (n : Z) : option cstring :=
  if MM_START <=? n then cstr <$> mastermodenames .! (n - MM_START) else None.
Definition privname (type : Z) : cstring :=
  let color c t := [12; 115; 12; c] ++ cstr t ++ [12; 114] in
  if type =? PRIV_ADMIN then color 54 "admin"%string
  else if type =? PRIV_AUTH then color 49 "auth"%string
  else if type =? PRIV_MASTER then color 48 "master"%string
  else if type =? PRIV_NONE then color 102 "none"%string
  else cstr "unknown".

(** * Teams *)

Definition clearteaminfo : M server unit := set_roster {{ teaminfos := [] }}.
Definition teamhasplayers (t : cstring) (s : server) : bool :=
  existsb (fun ci => bool_decide (team (deref ci s) = t)) (clients s).
Definition access_teaminfo (t : cstring) (s : server) : option Z :=
  snd <$> head (filter (fun e => e.1 = t) (teaminfos s)).
Definition add_teamfrags (t : cstring) (n : Z) : M server unit :=
  set_roster {{ teaminfos ::= map (fun e => if bool_decide (e.1 = t) then (e.1, e.2 + n) else e) }}.
Definition pruneteaminfo : M server bool :=
  s <- get_server ;;
  let l := filter (fun e => negb (e.2 =? 0) || teamhasplayers e.1 s = true) (teaminfos s) in
  set_roster {{ teaminfos := l }} ;; ret (zlength l <? zlength (teaminfos s)).
(** [false] when the table is full of teams that are in use. *)
Definition addteaminfo (t : cstring) : M server bool :=
  s <- get_server ;;
  match access_teaminfo t s with
  | Some _ => ret true
  | None =>
    room <- (if MAXTEAMS <=? zlength (teaminfos s) then pruneteaminfo else ret true) ;;
    if (room : bool)
    then set_roster {{ teaminfos ::= fun l => l ++ [(copystring t (MAXTEAMLEN + 1), 0)] }} ;; ret true
    else ret false
  end.

(** [effectiveness/max(timeplayed, 1)]. *)
Definition client_rank (c : clientinfo) : f32 :=
  fdiv (effectiveness c) (f32_of_int (tmax (timeplayed c) 1)).
Definition f32_minus1 : f32 := f32_of_int (-1).
Definition f32_one : f32 := f32_of_int 1.

Definition choosebestclient (s : server) : option (nat * f32) :=
  fold_left (fun best ci =>
    let c := deref ci s in
    if timeplayed c <? 0 then best else
    let r := if cs_eqb (state c) CS_SPECTATOR then f32_minus1 else client_rank c in
    match best with
    | None => Some (ci, r)
    | Some (_, bestrank) => if fgt r bestrank then Some (ci, r) else best
    end) (clients s) None.

Section autoteam.
Context {hooks : Hooks}.

(** One round: clients join the team whose turn it is while it is not ahead. *)
Fixpoint team_round (fuel : nat) (selected : Z) (mine theirs : f32) (members : list nat)
    : M server (Z * f32 * list nat) :=
  match fuel with
  | O => ret (selected, mine, members)
  | S fuel =>
    s <- get_server ;;
    if negb (fle mine theirs) then ret (selected, mine, members) else
    match choosebestclient s with
    | None => ret (selected, mine, members)
    | Some (ci, r) =>
      let r := if hidefrags s then f32_one else r in
      if negb (hidefrags s) && (0 <? selected) && fle r f32_zero then ret (selected, mine, members) else
      upd_gs ci {{ timeplayed := -1 }} ;;
      let mine := if fgt r f32_zero then fadd mine r else mine in
      if fle r f32_zero then ret (selected + 1, mine, members ++ [ci])
      else team_round fuel (selected + 1) mine theirs (members ++ [ci])
    end
  end.
(** [remaining >= 0] always holds: nobody is selected twice. *)
Fixpoint team_rounds (fuel : nat) (first second : f32 * list nat) (remaining : Z)
    : M server ((f32 * list nat) * (f32 * list nat)) :=
  match fuel with
  | O => ret (first, second)
  | S fuel =>
    if remaining <? 0 then ret (first, second) else
    s <- get_server ;;
    r <- team_round (S (length (clients s))) 0 first.1 second.1 first.2 ;;
  let '(selected, rank_, members) := r in
    if selected =? 0 then ret ((rank_, members), second) else
    r <- team_rounds fuel second (rank_, members) (remaining - selected) ;;
    let '(second, first) := r in ret (first, second)
  end.

Definition assign_team (t : cstring) (ci : nat) : M server unit :=
  s <- get_server ;;
  let c := deref ci s in
  if bool_decide (team c = t) then ret tt
  else if persistteams s && negb (bool_decide (team c = [])) && canchangeteam ci t (team c) s
  then addteaminfo (team c) ;; ret tt
  else
    upd_ci ci {{ team := copystring t (MAXTEAMLEN + 1) }} ;;
    sendf (-1) 1 (message N_SETTEAM [FInt (clientnum c); FStr t; FInt (-1)]).
Definition autoteam : M server unit :=
  s <- get_server ;;
  let n := zlength (clients s) in
  r <- team_rounds (S (S (length (clients s)))) (f32_zero, []) (f32_zero, []) n ;;
  let '(first, second) := r in
  addteaminfo good ;;
  forM first.2 (assign_team good) ;;
  addteaminfo evil ;;
  forM second.2 (assign_team evil).
End autoteam.

(** ** The team for a newcomer *)
Record teamrank := mkteamrank { tr_rank : f32; tr_clients : Z }.
Definition worst_of (hide : bool) (a worst : teamrank) : bool :=
  if hide then (tr_clients a <? tr_clients worst) ||
               ((tr_clients a =? tr_clients worst) && flt (tr_rank a) (tr_rank worst))
  else flt (tr_rank a) (tr_rank worst) ||
       (feq (tr_rank a) (tr_rank worst) && (tr_clients a <? tr_clients worst)).
Definition counts_for_team (exclude : option nat) (s : server) (ci : nat) : bool :=
  let c := deref ci s in
  negb (bool_decide (exclude = Some ci)) && (aitype c =? AI_NONE) &&
  negb (cs_eqb (state c) CS_SPECTATOR) && negb (bool_decide (team c = [])).
(** [timeplayed += lastmillis - lasttimeplayed; lasttimeplayed = lastmillis]. *)
Definition touch_timeplayed (ci : nat) : M server unit :=
  s <- get_server ;;
  upd_gs ci (fun gs => gs <| timeplayed ::= Z.add (lastmillis s - lasttimeplayed gs) |>
                          <| lasttimeplayed := lastmillis s |>).
Definition team_rank (t : cstring) (exclude : option nat) (s : server) : teamrank :=
  let l := filter (fun ci => counts_for_team exclude s ci && bool_decide (team (deref ci s) = t) = true)
             (clients s) in
  mkteamrank (fold_left (fun r ci => fadd r (client_rank (deref ci s))) l f32_zero) (zlength l).
Definition chooseworstteam {hooks : Hooks} (exclude : option nat) : M server cstring :=
  s <- get_server ;;
  forM (filter (fun ci => counts_for_team exclude s ci = true) (clients s)) touch_timeplayed ;;
  s <- get_server ;;
  ret (if worst_of (hidefrags s) (team_rank good exclude s) (team_rank evil exclude s)
       then good else evil).

(** * Saved scores *)
Definition same_player (ip : Z) (name_ : cstring) (sc : savedscore) : bool :=
  (sc_ip sc =? ip) && bool_decide (sc_name sc = name_).
Definition has_score (ci : nat) (s : server) : bool :=
  negb ((getclientip (clientnum (deref ci s)) s =? 0) && negb (local (deref ci s))).
(** [findscore(ci, true)] and the copy into the entry it returns. *)
Definition savescore (ci : nat) : M server unit :=
  s <- get_server ;;
  let c := deref ci s in
  let ip := getclientip (clientnum c) s in
  if negb (has_score ci s) then ret tt else
  let sc := score_save ip (name c) c in
  set_roster {{ scores ::= fun l =>
    match list_find (fun sc => same_player ip (name c) sc = true) l with
    | Some (i, _) => <[i := sc]> l
    | None => l ++ [sc]
    end }}.
(** [findscore(ci, false)]: a twin who is still playing comes first. *)
Definition findscore (ci : nat) : M server (option savedscore) :=
  s <- get_server ;;
  let c := deref ci s in
  let ip := getclientip (clientnum c) s in
  if negb (has_score ci s) then ret None else
  match filter (fun oi => negb (clientnum (deref oi s) =? clientnum c) &&
          (getclientip (clientnum (deref oi s)) s =? ip) &&
          bool_decide (name (deref oi s) = name c) = true) (clients s) with
  | oi :: _ =>
    touch_timeplayed oi ;;
    s <- get_server ;;
    ret (Some (score_save ip (name c) (deref oi s)))
  | [] => ret (head (filter (fun sc => same_player ip (name c) sc = true) (scores s)))
  end.
Definition restorescore (ci : nat) : M server bool :=
  sc <- findscore ci ;;
  match sc with
  | Some sc => upd_gs ci (score_restore sc) ;; ret true
  | None => ret false
  end.

(** * Saved scores come back *)

(** What a client has achieved, read from the client itself. *)
Definition record_of (c : clientinfo) : list Z * f32 :=
  ([frags c; flagscore c; deaths c; suicides c; teamkills c; shotdamage c; explosivedamage c; damage c;
    hits c; misses c; shots c; timeplayed c; disconnecttime c], effectiveness c).

Section saved.
Context {A : Type} (P : A -> bool) (x : A) (Hx : P x = true).
(** The list with [x] in the place of the first entry it stands for. *)
Definition put_first (l : list A) : list A :=
  match list_find (fun y => P y = true) l with
  | Some (i, _) => <[i := x]> l
  | None => l ++ [x]
  end.
Lemma head_put_first l : head (filter (fun y => P y = true) (put_first l)) = Some x.
Proof using Hx.
  unfold put_first. induction l as [|y l IH]; simpl.
  - rw filter_cons. by rewrite -> decide_True by done.
  - destruct (decide (P y = true)) as [Hy|Hy]; simpl.
    + rw filter_cons. by rewrite -> decide_True by done.
    + destruct (list_find _ l) as [[i z]|]; simpl in *; rw filter_cons;
        by rewrite -> decide_False by done.
Qed.
End saved.

Lemma savescore_scores ci (s : server) :
  has_score ci s = true ->
  let c := deref ci s in
  let ip := getclientip (clientnum c) s in
  scores (exec (savescore ci) s) =
  put_first (same_player ip (name c)) (score_save ip (name c) c) (scores s).
Proof.
  intros Hs c ip. unfold savescore. rw (exec_bind get_server).
  cbn [eval gets get_server fst snd exec id]. by rw Hs.
Qed.

(** Nobody else with this name and address is playing. *)
Definition no_twin (ci : nat) (s : server) : bool :=
  negb (existsb (fun oi => negb (clientnum (deref oi s) =? clientnum (deref ci s)) &&
    (getclientip (clientnum (deref oi s)) s =? getclientip (clientnum (deref ci s)) s) &&
    bool_decide (name (deref oi s) = name (deref ci s))) (clients s)).

Lemma findscore_saved ci (s : server) :
  has_score ci s = true -> no_twin ci s = true ->
  findscore ci s = (head (filter (fun sc => same_player (getclientip (clientnum (deref ci s)) s)
                       (name (deref ci s)) sc = true) (scores s)), s).
Proof.
  intros Hs Ht. unfold findscore, get_server, gets, bind. cbn [id]. rw Hs. cbn [negb].
  match goal with |- context [@filter ?A ?B ?I ?P ?D (clients (sv_roster s))] =>
    destruct (@filter A B I P D (clients s)) as [|oi l] eqn:E end; [done|].
  assert (oi ∈ oi :: l) as Hin by set_solver. rw -E in Hin.
  apply list_elem_of_filter in Hin as [Hp Hin]. unfold no_twin in Ht.
  apply negb_true_iff in Ht. exfalso. assert (true = false); [|done]. rw -Ht. symmetry.
  apply existsb_exists. exists oi. split; [by apply list_elem_of_In|done].
Qed.

(** * The draft of [autoteam]

    In the modes that hide frags every client counts the same, so the teams are
    filled in turns.  [avail] are the clients still to be drafted. *)
Definition undrafted (s : server) (ci : nat) : Prop := 0 <= timeplayed (deref ci s).
#[global] Instance undrafted_dec s ci : Decision (undrafted s ci).
Proof. unfold undrafted. apply _. Defined.
Definition avail (s : server) : list nat := filter (undrafted s) (clients s).

Lemma choosebestclient_spec (s : server) :
  match choosebestclient s with
  | Some (ci, _) => ci ∈ avail s
  | None => avail s = []
  end.
Proof.
  unfold choosebestclient, avail.
  match goal with |- context [fold_left ?f] => set (g := f) end.
  assert (forall l acc, match fold_left g l acc with
    | Some (ci, _) => (exists r, acc = Some (ci, r)) \/ ci ∈ filter (undrafted s) l
    | None => acc = None /\ filter (undrafted s) l = []
    end) as H.
  { induction l as [|ci l IH]; intros acc; simpl.
    - destruct acc as [[ci r]|]; eauto.
    - specialize (IH (g acc ci)). rw filter_cons.
      assert (g acc ci = acc /\ (undrafted s ci -> acc <> None) \/
              undrafted s ci /\ exists r, g acc ci = Some (ci, r)) as Hg.
      { unfold g, undrafted. destruct (Z.ltb_spec (timeplayed (deref ci s)) 0); [left; split; [done|lia]|].
        destruct acc as [[ci' r']|]; [|eauto]. destruct (fgt _ r'); [right; eauto|left; by split]. }
      destruct (fold_left g l (g acc ci)) as [[ci' r']|].
      + destruct IH as [[r Er]|Hin]; [|right; case_decide; set_solver].
        destruct Hg as [[E _]|[Hu [r2 E]]].
        * left. exists r. by rw -E.
        * right. rw E in Er. injection Er as -> _. rewrite -> decide_True by done. by left.
      + destruct IH as [E1 E2]. destruct Hg as [[E Hu]|[_ [r E]]]; [|by rw E in E1].
        rw E in E1. split; [done|]. case_decide; [|done]. by destruct Hu. }
  specialize (H (clients s) None).
  destruct (fold_left g (clients s) None) as [[ci r]|]; [|by destruct H].
  by destruct H as [[r' ?]|?].
Qed.

Definition draft_mark (l : list nat) (ci : nat) (c : clientinfo) : clientinfo :=
  if decide (ci ∈ l) then c <| ci_state ::= {{ timeplayed := -1 }} |> else c.
(** What drafting the clients of [l] does to the state. *)
Record drafts (l : list nat) (s s' : server) : Prop := {
  dr_clients : clients s' = clients s;
  dr_game : sv_game s' = sv_game s;
  dr_config : sv_config s' = sv_config s;
  dr_heap ci : ci_heap s' !! ci = draft_mark l ci <$> ci_heap s !! ci;
  dr_avail : avail s ≡ₚ l ++ avail s'
}.
Definition roster_ok (s : server) : Prop :=
  NoDup (clients s) /\ Forall (fun ci => is_Some (ci_heap s !! ci)) (clients s).

Lemma drafts_nil s : drafts [] s s.
Proof.
  split; try done. intros ci. destruct (ci_heap s !! ci) as [c|]; [|done].
  unfold draft_mark. cbn. by rewrite -> decide_False by set_solver.
Qed.
Lemma drafts_ok l s s' : drafts l s s' -> roster_ok s -> roster_ok s'.
Proof.
  intros [Hc _ _ Hh _] [Hn Hf]. split; rw Hc; [done|].
  eapply Forall_impl; [exact Hf|]. intros ci [c Hci]. rw Hh Hci. by eexists.
Qed.
Lemma drafts_one ci (s : server) :
  roster_ok s -> ci ∈ avail s ->
  drafts [ci] s (exec (upd_gs ci {{ timeplayed := -1 }}) s).
Proof.
  intros [Hn Hf] Hin. set (s' := exec _ s).
  assert (forall x, ci_heap s' !! x = draft_mark [ci] x <$> ci_heap s !! x) as Hh.
  { intros x. change (ci_heap s') with (alter {{ ci_state ::= {{ timeplayed := -1 }} }} ci (ci_heap s)).
    unfold draft_mark. destruct (decide (ci = x)) as [<-|Hne].
    - rw lookup_alter_eq. destruct (ci_heap s !! ci); [|done]. cbn.
      by rewrite -> decide_True by set_solver.
    - rewrite -> lookup_alter_ne by done. destruct (ci_heap s !! x) as [c|]; [|done]. cbn.
      by rewrite -> decide_False by set_solver. }
  split; try done.
  apply list_elem_of_filter in Hin as [Hu Hin].
  assert (forall x, undrafted s' x <-> undrafted s x /\ x <> ci) as Hx.
  { intros x. unfold undrafted, deref. rw Hh. destruct (decide (x = ci)) as [->|Hne].
    - rewrite -> Forall_forall in Hf. destruct (Hf ci Hin) as [c ->]. unfold draft_mark. cbn.
      rewrite -> decide_True by set_solver. cbn. lia.
    - destruct (ci_heap s !! x); [|cbn; tauto]. unfold draft_mark. cbn.
      rewrite -> decide_False by set_solver. tauto. }
  apply NoDup_Permutation.
  - by apply NoDup_filter.
  - constructor; [|by apply NoDup_filter]. intros [Hc _]%list_elem_of_filter. by apply Hx in Hc as [_ Hc].
  - intros x. rw elem_of_cons. unfold avail. rw !list_elem_of_filter Hx.
    change (clients s') with (clients s). split.
    + intros [? ?]. destruct (decide (x = ci)); auto.
    + intros [->|[[? ?] ?]]; auto.
Qed.
Lemma drafts_app l l' s s' s'' :
  drafts l s s' -> drafts l' s' s'' -> drafts (l ++ l') s s''.
Proof.
  intros [A1 A2 A3 A4 A5] [B1 B2 B3 B4 B5]. split; try congruence.
  - intros ci. rw B4 A4. destruct (ci_heap s !! ci) as [c|]; [|done]. cbn. f_equal.
    unfold draft_mark. rewrite -> (decide_ext (ci ∈ l ++ l') (ci ∈ l \/ ci ∈ l')) by set_solver.
    repeat case_decide; try done; tauto.
  - by rw A5 B5 app_assoc.
Qed.

(** Counting in [float] is exact in the range a roster needs. *)
Definition MAXDRAFT : Z := 300.
Lemma f32_count n m :
  0 <= n <= MAXDRAFT -> 0 <= m <= MAXDRAFT ->
  fle (f32_of_int n) (f32_of_int m) = (n <=? m) /\
  fadd (f32_of_int n) f32_one = f32_of_int (n + 1).
Proof.
  intros Hn Hm.
  assert (forallb (fun n => bool_decide (fadd (f32_of_int n) f32_one = f32_of_int (n + 1)) &&
    forallb (fun m => Bool.eqb (fle (f32_of_int n) (f32_of_int m)) (n <=? m)) (seqZ 0 301))
    (seqZ 0 301) = true) as H by (vm_compute; reflexivity).
  rewrite -> forallb_forall in H. specialize (H n).
  assert (forall k, 0 <= k <= MAXDRAFT -> In k (seqZ 0 301)) as Hin.
  { intros k Hk. apply list_elem_of_In, elem_of_seqZ. unfold MAXDRAFT in Hk. lia. }
  specialize (H (Hin n Hn)). apply andb_true_iff in H as [H1%bool_decide_eq_true_1 H2].
  rewrite -> forallb_forall in H2. specialize (H2 m (Hin m Hm)). split; [|done].
  by apply eqb_prop in H2.
Qed.

Section draft.
Context {hooks : Hooks}.

Lemma team_round_drafts fuel : forall selected n m members (s : server),
  roster_ok s -> hidefrags s = true -> (length (avail s) < fuel)%nat ->
  0 <= n -> 0 <= m <= MAXDRAFT -> n + zlength (avail s) <= MAXDRAFT ->
  let r := eval (team_round fuel selected (f32_of_int n) (f32_of_int m) members) s in
  let s' := exec (team_round fuel selected (f32_of_int n) (f32_of_int m) members) s in
  exists l, r = (selected + zlength l, f32_of_int (n + zlength l), members ++ l) /\
    drafts l s s' /\ (avail s' = [] \/ m < n + zlength l) /\ n + zlength l <= Z.max n (m + 1).
Proof.
  induction fuel as [|fuel IH]; intros selected n m members s Hok Hh Hf Hn Hm Hmax; [lia|].
  pose proof (zlength_nonneg (avail s)).
  cbn [team_round]. rw (eval_bind get_server) (exec_bind get_server).
  cbn [eval gets get_server fst snd exec id].
  destruct (f32_count n m ltac:(lia) Hm) as [-> Ef].
  destruct (Z.leb_spec n m) as [Hle|Hgt]; cbn [negb]; last first.
  { exists []. rw app_nil_r. cbn. rw !Z.add_0_r. split_and!; [done|apply drafts_nil|by right|lia]. }
  pose proof (choosebestclient_spec s) as Hb.
  destruct (choosebestclient s) as [[ci r0]|]; last first.
  { exists []. rw app_nil_r. cbn. rw !Z.add_0_r. split_and!; [done|apply drafts_nil|by left|lia]. }
  rw Hh. cbn [negb andb]. cbv zeta. rw (eval_bind (upd_gs _ _)) (exec_bind (upd_gs _ _)).
  change (fgt f32_one f32_zero) with true. change (fle f32_one f32_zero) with false. cbn [negb].
  pose proof (drafts_one ci s Hok Hb) as Hd. set (s1 := exec (upd_gs _ _) s) in *.
  pose proof (Permutation_length (dr_avail _ _ _ Hd)) as Hlen. simpl in Hlen.
  rw Ef. destruct (IH (selected + 1) (n + 1) m (members ++ [ci]) s1) as (l&Er&Hd'&Hend&Hbound);
    [by eapply drafts_ok| |lia|lia|lia|unfold zlength in *; lia|].
  { unfold hidefrags in *. by rw (dr_game _ _ _ Hd). }
  exists (ci :: l). rw Er. unfold zlength in *. cbn [length].
  split_and!.
  - rw -app_assoc. cbn. do 2 f_equal; [lia|f_equal; lia].
  - by apply (drafts_app [ci] l s s1).
  - destruct Hend; [by left|right; lia].
  - lia.
Qed.

Lemma team_rounds_drafts fuel : forall n m A B remaining (s : server),
  roster_ok s -> hidefrags s = true -> (length (avail s) < fuel)%nat ->
  0 <= n -> n <= m <= n + 1 -> n + zlength (avail s) + 1 <= MAXDRAFT ->
  zlength (avail s) <= remaining ->
  let r := eval (team_rounds fuel (f32_of_int n, A) (f32_of_int m, B) remaining) s in
  let s' := exec (team_rounds fuel (f32_of_int n, A) (f32_of_int m, B) remaining) s in
  exists a b, r.1.2 = A ++ a /\ r.2.2 = B ++ b /\ drafts (a ++ b) s s' /\ avail s' = [] /\
    -1 <= (n + zlength a) - (m + zlength b) <= 1.
Proof.
  induction fuel as [|fuel IH]; intros n m A B remaining s Hok Hh Hf Hn Hm Hmax Hrem; [lia|].
  pose proof (zlength_nonneg (avail s)). cbn [team_rounds].
  destruct (Z.ltb_spec remaining 0); [lia|].
  rw (eval_bind get_server) (exec_bind get_server). cbn [eval gets get_server fst snd exec id].
  rw (eval_bind (team_round _ _ _ _ _)) (exec_bind (team_round _ _ _ _ _)).
  destruct (team_round_drafts (S (length (clients s))) 0 n m A s Hok Hh) as (l&Er&Hd&Hend&Hb);
    [|lia|lia|lia|].
  { pose proof (length_filter (undrafted s) (clients s)). unfold avail. lia. }
  rw Er. set (s1 := exec (team_round _ _ _ _ _) s) in *. clearbody s1. cbv beta iota zeta.
  pose proof (Permutation_length (dr_avail _ _ _ Hd)) as Hlen. rw length_app in Hlen.
  destruct l as [|ci l].
  - cbn. rw app_nil_r Z.add_0_r in Hend |- *. destruct Hend as [He|?]; [|lia].
    exists [], []. rw !app_nil_r. cbn. split_and!; try done; lia.
  - assert (0 < zlength (ci :: l)) by (unfold zlength; simpl; lia).
    rewrite -> (proj2 (Z.eqb_neq (0 + zlength (ci :: l)) 0)) by lia.
    rw (eval_bind (team_rounds _ _ _ _)) (exec_bind (team_rounds _ _ _ _)).
    unfold zlength in *. cbn [length] in *.
    destruct (IH m (n + Z.of_nat (S (length l))) B (A ++ ci :: l) (remaining - (0 + Z.of_nat (S (length l)))) s1)
      as (b&a&E1&E2&Hd'&He&Hb'); try lia.
    { by eapply drafts_ok. }
    { unfold hidefrags in *. by rw (dr_game _ _ _ Hd). }
    match goal with |- context [eval (team_rounds ?f ?x ?y ?z) s1] =>
      set (r := eval (team_rounds f x y z) s1) in *; set (s2 := exec (team_rounds f x y z) s1) in * end.
    destruct r as [[r1 B'] [r2 A']]. cbn in E1, E2 |- *. subst A' B'.
    exists (ci :: l ++ a), b. split_and!; [by rw -app_assoc|done| |done|cbn [length]; rw length_app; lia|cbn [length]; rw length_app; lia].
    pose proof (drafts_app _ _ _ _ _ Hd Hd') as [D1 D2 D3 D4 D5].
    assert (forall x, x ∈ (ci :: l) ++ b ++ a <-> x ∈ (ci :: l ++ a) ++ b) as Hx by set_solver.
    split; [done|done|done| |].
    + intros x. rw D4. destruct (ci_heap s !! x) as [c|]; [|done]. cbn. f_equal.
      unfold draft_mark. by rewrite -> (decide_ext (x ∈ (ci :: l) ++ b ++ a) (x ∈ (ci :: l ++ a) ++ b)) by apply Hx.
    + rw D5 (Permutation_app_comm b a). by rw !app_assoc.
Qed.
End draft.

(** ** Handing out the names *)
Lemma good_fits : copystring good (MAXTEAMLEN + 1) = good.
Proof. done. Qed.
Lemma evil_fits : copystring evil (MAXTEAMLEN + 1) = evil.
Proof. done. Qed.
Definition team_mark (t : cstring) (l : list nat) (ci : nat) (c : clientinfo) : clientinfo :=
  if decide (ci ∈ l) then c <| team := t |> else c.

Lemma assign_teams {hooks : Hooks} t l : forall s : server,
  persistteams s = false -> copystring t (MAXTEAMLEN + 1) = t ->
  let s' := exec (forM l (assign_team t)) s in
  sv_config s' = sv_config s /\ clients s' = clients s /\
  forall ci, ci_heap s' !! ci = team_mark t l ci <$> ci_heap s !! ci.
Proof.
  induction l as [|ci l IH]; intros s Hp Ht.
  - split_and!; [done|done|]. intros x. cbn [forM]. change (exec (ret tt) s) with s.
    destruct (ci_heap s !! x) as [c|]; [|done]. cbn. f_equal.
  - cbn [forM]. rw (exec_bind (assign_team t ci)). set (s1 := exec (assign_team t ci) s).
    assert (sv_config s1 = sv_config s /\ clients s1 = clients s /\
      forall x, ci_heap s1 !! x = team_mark t [ci] x <$> ci_heap s !! x) as (E1&E2&E3).
    { subst s1. unfold assign_team. rw (exec_bind get_server).
      cbn [eval gets get_server fst snd exec id]. cbv zeta. rw Hp Ht. cbn [andb].
      destruct (bool_decide (team (deref ci s) = t)) eqn:Et.
      - split_and!; [done|done|]. intros x. change (exec (ret tt) s) with s.
        destruct (ci_heap s !! x) as [c|] eqn:Ex; [|done]. cbn. f_equal. unfold team_mark.
        destruct (decide (x ∈ [ci])) as [->%list_elem_of_singleton|]; [|done].
        apply bool_decide_eq_true_1 in Et. unfold deref in Et. rw Ex in Et. cbn in Et. subst t.
        by destruct c.
      - rw (exec_bind (upd_ci _ _)). set (s2 := exec (upd_ci _ _) s).
        match goal with |- context [exec (sendf ?a ?b ?m) s2] =>
          assert (respects (eq_on (fun s : server => (sv_roster s, sv_config s))) (sendf a b m)) as Hs
            by solve_respects; specialize (Hs s2);
          assert (sv_roster s2 = sv_roster (exec (sendf a b m) s2)) as F1 by exact (f_equal fst Hs);
          assert (sv_config s2 = sv_config (exec (sendf a b m) s2)) as F2 by exact (f_equal snd Hs) end.
        rw -F1 -F2. split_and!; [done|done|]. intros x.
        change (ci_heap s2) with (alter {{ team := t }} ci (ci_heap s)). unfold team_mark.
        destruct (decide (ci = x)) as [<-|Hne].
        + rw lookup_alter_eq. destruct (ci_heap s !! ci); [|done]. cbn.
          rewrite -> decide_True by (by apply list_elem_of_singleton). done.
        + rewrite -> lookup_alter_ne by done. destruct (ci_heap s !! x); [|done]. cbn.
          rewrite -> decide_False; [done|]. by intros ->%list_elem_of_singleton. }
    destruct (IH s1) as (F1&F2&F3); [by rw E1|done|].
    split_and!; [congruence|congruence|]. intros x. rw F3 E3.
    destruct (ci_heap s !! x) as [c|]; [|done]. cbn. f_equal. unfold team_mark.
    rewrite -> (decide_ext (x ∈ ci :: l) (x ∈ [ci] \/ x ∈ l)) by set_solver.
    repeat case_decide; try done; tauto.
Qed.

(** * Properties *)

(** C17: a player who leaves and comes back keeps the record: [savescore] at the
    disconnect and [restorescore] in any later state whose score list is
    unchanged, for a client with the same name and address and no twin in the
    game, restore every statistic (frags, flags, deaths, suicides, team kills,
    the damage counters, hits, misses, shots, time played, effectiveness and the
    time of the disconnect) exactly as it was, whatever was saved before. *)
Theorem score_survives_reconnect (ci ci' : nat) (s s' : server) :
  has_score ci s = true -> scores s' = scores (exec (savescore ci) s) ->
  is_Some (ci_heap s' !! ci') -> has_score ci' s' = true -> no_twin ci' s' = true ->
  name (deref ci' s') = name (deref ci s) ->
  getclientip (clientnum (deref ci' s')) s' = getclientip (clientnum (deref ci s)) s ->
  eval (restorescore ci') s' = true /\
  record_of (deref ci' (exec (restorescore ci') s')) = record_of (deref ci s).
Proof.
  intros Hs Hsc [c' Hc'] Hs' Ht Hn Hip. unfold restorescore. rw eval_bind exec_bind.
  unfold eval, exec. rewrite -> (findscore_saved ci' s' Hs' Ht). cbn [fst snd].
  rw Hsc (savescore_scores ci s Hs) Hn Hip head_put_first; last first.
  { unfold same_player. simpl. rw Z.eqb_refl. by rewrite -> bool_decide_eq_true_2 by done. }
  cbn. split; [done|]. unfold deref at 1. simpl. by rw lookup_alter_eq Hc'.
Qed.

Lemma score_survives_reconnect_witness :
  let s := sample_server 5 [good; evil]
    <| sv_roster ::= {{ ci_heap ::= alter {{ ci_state ::= {{ frags := 7 }} }} 1%nat }} |> in
  let s' := exec (savescore 1) s
    <| sv_roster ::= {{ ci_heap ::= insert 2%nat (deref 1 s <| ci_state := gamestate0 |>) }} |>
    <| sv_roster ::= {{ clients := [0%nat; 2%nat] }} |> in
  eval (restorescore 2) s' = true /\
  record_of (deref 2 (exec (restorescore 2) s')) = record_of (deref 1 s).
Proof.
  intros s s'. apply (score_survives_reconnect 1 2 s s');
    solve [vm_compute; reflexivity | eexists; vm_compute; reflexivity].
Defined.

Definition on_team (t : cstring) (s : server) (ci : nat) : Prop := team (deref ci s) = t.
#[global] Instance on_team_dec t s ci : Decision (on_team t s ci).
Proof. unfold on_team. apply _. Defined.
(** How many clients wear a team's name. *)
Definition team_size (t : cstring) (s : server) : Z :=
  zlength (filter (on_team t s) (clients s)).

Lemma addteaminfo_frame t :
  respects (eq_on (fun s : server => (ci_heap s, clients s, sv_config s))) (addteaminfo t).
Proof. unfold addteaminfo, pruneteaminfo. cbv zeta. solve_respects. Qed.

(** The names are handed out as the draft says. *)
Lemma autoteam_assigns {hooks : Hooks} (s : server) :
  hidefrags s = true -> persistteams s = false -> roster_ok s -> avail s = clients s ->
  zlength (clients s) < MAXDRAFT ->
  let s' := exec autoteam s in
  exists a b, clients s ≡ₚ a ++ b /\ -1 <= zlength a - zlength b <= 1 /\
    clients s' = clients s /\ Forall (on_team good s') a /\ Forall (on_team evil s') b.
Proof.
  intros Hh Hp Hok Hav Hmax. cbv zeta. unfold autoteam. rw (exec_bind get_server).
  cbn [eval gets get_server fst snd exec id]. cbv zeta. rw (exec_bind (team_rounds _ _ _ _)).
  destruct (team_rounds_drafts (S (S (length (clients s)))) 0 0 [] [] (zlength (clients s)) s Hok Hh)
    as (a&b&Ea&Eb&Hd&He&Hbal); rw ?Hav; try lia.
  change (f32_of_int 0) with f32_zero in *.
  set (r := eval (team_rounds _ _ _ _) s) in *. set (s1 := exec (team_rounds _ _ _ _) s) in *.
  clearbody r s1. destruct r as [[r1 A] [r2 B]]. cbn in Ea, Eb. subst A B. cbn [snd].
  pose proof (dr_avail _ _ _ Hd) as Hperm. rw Hav He app_nil_r in Hperm.
  rw (exec_bind (addteaminfo _)). set (s2 := exec (addteaminfo good) s1).
  pose proof (addteaminfo_frame good s1) as F2. fold s2 in F2. clearbody s2.
  rw (exec_bind (forM a _)). set (s3 := exec (forM a _) s2).
  destruct (assign_teams good a s2) as (C3&L3&H3);
    [by injection F2 as _ _ <-; rw (dr_config _ _ _ Hd)|done|]. fold s3 in C3, L3, H3. clearbody s3.
  rw (exec_bind (addteaminfo _)). set (s4 := exec (addteaminfo evil) s3).
  pose proof (addteaminfo_frame evil s3) as F4. fold s4 in F4. clearbody s4.
  injection F2 as F2h F2l F2c. injection F4 as F4h F4l F4c.
  destruct (assign_teams evil b s4) as (C5&L5&H5);
    [by rw -F4c C3 -F2c (dr_config _ _ _ Hd)|done|].
  set (s5 := exec (forM b _) s4) in *. clearbody s5.
  assert (forall ci, ci_heap s5 !! ci =
    (fun c => team_mark evil b ci (team_mark good a ci (draft_mark (a ++ b) ci c))) <$> ci_heap s !! ci)
    as Hheap.
  { intros ci. rw H5 -F4h H3 -F2h (dr_heap _ _ _ Hd). by destruct (ci_heap s !! ci). }
  destruct Hok as [Hn Hf]. rw Hperm in Hn. apply NoDup_app in Hn as (_&Hdis&_).
  rewrite -> Forall_forall in Hf. exists a, b.
  assert (clients s5 = clients s) as Hcl by (rw L5 -F4l L3 -F2l; by apply (dr_clients _ _ _ Hd)).
  split_and!; [done|lia|lia|done| |].
  - apply Forall_forall. intros ci Hci. unfold on_team, deref. rw Hheap.
    destruct (Hf ci) as [c ->]; [rw Hperm; by apply elem_of_app; left|]. cbn. unfold team_mark.
    rewrite -> (decide_False (P := ci ∈ b)) by auto. by rewrite -> decide_True by done.
  - apply Forall_forall. intros ci Hci. unfold on_team, deref. rw Hheap.
    destruct (Hf ci) as [c ->]; [rw Hperm; by apply elem_of_app; right|]. cbn. unfold team_mark.
    by rewrite -> (decide_True (P := ci ∈ b)) by done.
Qed.

Lemma filter_split {A} (P : A -> Prop) `{!forall x, Decision (P x)} a b :
  Forall P a -> Forall (fun x => ~ P x) b -> filter P (a ++ b) = a.
Proof.
  intros Ha Hb. rw filter_app. rewrite -> (filter_every P a Ha).
  rewrite -> (filter_none P b Hb). apply app_nil_r.
Qed.

(** C18: in the modes that hide frags (capture, ctf, collect and their variants)
    [autoteam] always terminates with fair teams: with team persistence off and
    any number of clients the server can hold, every client ends on one of the
    two teams and the sizes differ by at most one. *)
Theorem autoteam_balanced {hooks : Hooks} (s : server) :
  hidefrags s = true -> persistteams s = false -> roster_ok s ->
  Forall (undrafted s) (clients s) -> zlength (clients s) < MAXDRAFT ->
  let s' := exec autoteam s in
  clients s' = clients s /\
  Forall (fun ci => on_team good s' ci \/ on_team evil s' ci) (clients s') /\
  -1 <= team_size good s' - team_size evil s' <= 1.
Proof.
  intros Hh Hp Hok Hu Hmax s'.
  destruct (autoteam_assigns s Hh Hp Hok) as (a&b&Hperm&Hbal&Hcl&Ha&Hb);
    [by apply filter_every|done|]. fold s' in Hcl, Ha, Hb. clearbody s'.
  assert (good <> evil) as Hne by done.
  assert (forall ci, on_team good s' ci -> ~ on_team evil s' ci) as Hx
    by (unfold on_team; intros ci E1 E2; congruence).
  unfold team_size. rw Hcl. split; [done|]. split.
  - rw Hperm. apply Forall_app. split; eapply Forall_impl; eauto.
  - unfold zlength in *. rw Hperm. rewrite -> (filter_split (on_team good s') a b); [|done|].
    + rw (Permutation_app_comm a b).
      rewrite -> (filter_split (on_team evil s') b a); [lia|done|].
      eapply Forall_impl; [exact Ha|]. auto.
    + eapply Forall_impl; [exact Hb|]. intros ci E1 E2. by apply (Hx ci).
Qed.

Definition draft_sample : server :=
  sample_server 11 [good; good; good; evil; good] <| sv_game ::= {{ smode := Some ctfmode }} |>.
Lemma autoteam_balanced_witness :
  let s' := exec (autoteam (hooks := no_hooks)) draft_sample in
  clients s' = clients draft_sample /\
  Forall (fun ci => on_team good s' ci \/ on_team evil s' ci) (clients s') /\
  -1 <= team_size good s' - team_size evil s' <= 1.
Proof.
  apply (autoteam_balanced (hooks := no_hooks) draft_sample);
    [vm_compute; reflexivity|vm_compute; reflexivity|split; decide_now|decide_now|vm_compute; reflexivity].
Defined.

(** Without hidden frags the draft can stop early: a player of no effectiveness
    who is left over when the team whose turn it is leads keeps the old name. *)
Example autoteam_leaves_out :
  let s := sample_server 2 [[]; []; []]
    <| sv_roster ::= {{ ci_heap ::= alter {{ ci_state ::= {{ effectiveness := f32_of_int 5 }} }} 0%nat }} |> in
  map (fun ci => team (deref ci (exec (autoteam (hooks := no_hooks)) s))) [0%nat; 1%nat; 2%nat] =
  [good; evil; []].
Proof. vm_compute. reflexivity. Qed.
