(* ===== verification/Items.v ===== *)
(** The items of the map (fpsgame/server.cpp): which entities spawn, when they
    come back, and who gets them.

    [sents] is a vector indexed by the number of the map entity.  Loading a map
    file is the argument [mapfile] of [loaditems]; the lists that clients send
    are split into reading (Packet) and the commit below. *)
From S2P Require Import Prelude Wire Text Float32 Game Random State Engine Servmode Roster.

Definition canspawnitem (type : Z) (s : server) : bool :=
  negb (m_noitems (gamemode s)) && ((I_SHELLS <=? type) && (type <=? I_QUAD) &&
  (negb (m_noammo (gamemode s)) || (type <? I_SHELLS) || (I_CARTRIDGES <? type))).

(** In milliseconds; fewer players wait longer for ammunition and health. *)
Definition item_spawntime (type : Z) (s : server) : Z :=
  if m_classicsp (gamemode s) then INT_MAX else
  let np := numclients (-1) true false false s in
  let np := if np <? 3 then 4 else if 4 <? np then 2 else 3 in
  let sec :=
    if (I_SHELLS <=? type) && (type <=? I_CARTRIDGES) then np * 4
    else if type =? I_HEALTH then np * 5
    else if type =? I_GREENARMOUR then 20
    else if type =? I_YELLOWARMOUR then 30
    else if type =? I_BOOST then 60
    else if type =? I_QUAD then 70 else 0 in
  sec * 1000.
Definition delayspawn (type : Z) (s : server) : bool :=
  if (type =? I_GREENARMOUR) || (type =? I_YELLOWARMOUR) then negb (m_classicsp (gamemode s))
  else (type =? I_BOOST) || (type =? I_QUAD).

Definition sent_new : server_entity := mksent NOTUSED 0 false (-1).
(** [while(sents.length()<=i) sents.add(se)]. *)
Definition grow_sents (i : Z) (l : list server_entity) : list server_entity :=
  l ++ replicate (Z.to_nat (i + 1 - zlength l)) sent_new.
Definition upd_sent (i : Z) (f : server_entity -> server_entity) : M server unit :=
  set_items {{ sents ::= zalter f i }}.
Definition sent_at (i : Z) (s : server) : server_entity := default sent_new (sents s .! i).

Definition resetitems : M server unit :=
  set_items {{ mcrc := 0 }} ;; set_items {{ ments := [] }} ;; set_items {{ sents := [] }}.

(** The first client whose request arrives gets the item. *)
Definition pickup (i sender : Z) : M server bool :=
  s <- get_server ;;
  if (m_timed (gamemode s) && (gamelimit s <=? gamemillis s)) ||
     negb (bool_decide (is_Some (sents s .! i))) || negb (spawned (sent_at i s)) then ret false else
  match getinfo sender s with
  | None => ret false
  | Some ci =>
    let type := se_type (sent_at i s) in
    if negb (local (deref ci s)) && negb (canpickup type (deref ci s)) then
      sendf sender 1 (message N_ITEMACC [FInt i; FInt (-1)]) ;; ret false
    else
      upd_sent i {{ spawned := false }} ;;
      upd_sent i {{ spawntime := item_spawntime type s }} ;;
      upd_sent i {{ lastpickup := totalmillis s }} ;;
      sendf (-1) 1 (message N_ITEMACC [FInt i; FInt sender]) ;;
      upd_gs ci {{ fps ::= pickup_item type }} ;; ret true
  end.

(** One entity of the new map: [loaditems] and the list of a client. *)
Definition place_item (i type : Z) : M server unit :=
  s <- get_server ;;
  when (canspawnitem type s) (
    if m_mp (gamemode s) && delayspawn type s
    then upd_sent i {{ spawntime := item_spawntime type s }}
    else upd_sent i {{ spawned := true }}).
(** [mapfile] is [loadents]: it gets [ments] and [mcrc] and answers with what they hold then. *)
Definition loaditems (mapfile : cstring -> list entity -> Z -> bool * (list entity * Z)) : M server unit :=
  resetitems ;;
  set_game {{ notgotitems := true }} ;;
  s <- get_server ;;
  if m_edit (gamemode s) then set_items {{ mcrc := 0 }} else
  let '(ok, (es, crc)) := mapfile (smapname s) (ments s) (mcrc s) in
  set_items {{ ments := es }} ;; set_items {{ mcrc := crc }} ;;
  if negb ok then set_items {{ mcrc := 0 }} else
  forM (zip (seqZ 0 (zlength es)) es) (fun '(i, e) =>
    s <- get_server ;;
    when (canspawnitem (e_type e) s) (
      set_items {{ sents ::= grow_sents i }} ;;
      upd_sent i {{ se_type := e_type e }} ;;
      place_item i (e_type e))) ;;
  set_game {{ notgotitems := false }}.

(** N_ITEMLIST, after its guard: the entries the client sent, in order.  The
    type is the client's number and is used as an index unchecked. *)
Definition commit_itemlist (items : list (Z * Z)) : M server unit :=
  forM items (fun '(n, type) =>
    set_items {{ sents ::= grow_sents n }} ;;
    upd_sent n {{ se_type := type }} ;;
    set_items {{ sents_type_index ::= insert type n }} ;;
    place_item n type) ;;
  set_game {{ notgotitems := false }}.
(** The loop condition on the index. *)
Definition itemlist_index (n : Z) : bool := (0 <=? n) && (n <? MAXENTS).

(** N_EDITENT, after its guard. *)
Definition commit_editent (i type : Z) : M server unit :=
  s <- get_server ;;
  let can := canspawnitem type s in
  when ((i <? MAXENTS) && (bool_decide (is_Some (sents s .! i)) || can)) (
    set_items {{ sents ::= grow_sents i }} ;;
    upd_sent i {{ se_type := type }} ;;
    s <- get_server ;;
    let e := sent_at i s in
    when (if can then negb (spawned e) else spawned e || negb (spawntime e =? 0))
      (upd_sent i (fun e => e <| spawntime := if can then 1 else 0 |> <| spawned := false |>))).

(** One entity in one step of the clock: its new state and the announcements. *)
Definition tick_item (curtime_ i : Z) (e : server_entity) : server_entity * list (list field) :=
  if spawntime e =? 0 then (e, []) else
  let t := spawntime e - curtime_ in
  if t <=? 0 then (e <| spawntime := 0 |> <| spawned := true |>, [message N_ITEMSPAWN [FInt i]])
  else (e <| spawntime := t |>,
        if (t <=? 10000) && (10000 <? spawntime e) && ((se_type e =? I_QUAD) || (se_type e =? I_BOOST))
        then [message N_ANNOUNCE [FInt (se_type e)]] else []).
Definition update_items : M server unit :=
  s <- get_server ;;
  when (negb (curtime s =? 0)) (
    forM (seqZ 0 (zlength (sents s))) (fun i =>
      s <- get_server ;;
      let '(e, msgs) := tick_item (curtime s) i (sent_at i s) in
      upd_sent i (fun _ => e) ;;
      forM msgs (sendf (-1) 1))).

(** * What an item is worth *)

(** Supplies within the limits of the items: what players have in the modes
    where items are on the map. *)
Record supplies_ok (st : fpsstate) : Prop := {
  so_health : health st <= maxhealth st;
  so_maxhealth : 0 < maxhealth st <= 200;
  so_armour : 0 <= armour st <= 200;
  so_type : armourtype st = A_BLUE \/ armourtype st = A_GREEN /\ armour st <= 100 \/
            armourtype st = A_YELLOW;
  so_quad : 0 <= quadmillis st <= 30000;
  so_guns : zlength (ammo st) = NUMGUNS;
  so_ammo g : GUN_SG <= g <= GUN_PISTOL -> 0 <= get_ammo st g <= is_max (itemstat_of (g - GUN_SG))
}.

Lemma get_set_ammo g g' n st :
  zlength (ammo st) = NUMGUNS -> 0 <= g < NUMGUNS ->
  get_ammo (set_ammo g n st) g' = if g' =? g then n else get_ammo st g'.
Proof.
  intros Hl Hg. unfold get_ammo, set_ammo. simpl. destruct (Z.eqb_spec g' g) as [->|].
  - rewrite -> zlookup_zinsert_eq by lia. done.
  - by rewrite -> zlookup_zinsert_ne by lia.
Qed.
Lemma set_ammo_id g st : set_ammo g (get_ammo st g) st = st \/ ammo st .! g = None.
Proof.
  unfold set_ammo, get_ammo. destruct (ammo st .! g) as [a|] eqn:E; [left|by right].
  destruct st as [h mh ar at_ q gs gw am ait sk]. cbn in *. f_equal. unfold zinsert, zlookup in *.
  destruct (0 <=? g); [|done]. by apply list_insert_id.
Qed.

(** The ammunition items are the numbers I_SHELLS .. I_CARTRIDGES, one per gun. *)
Lemma ammo_item type :
  I_SHELLS <= type <= I_CARTRIDGES ->
  is_info (itemstat_of (type - I_SHELLS)) = type - I_SHELLS + GUN_SG /\
  0 < is_add (itemstat_of (type - I_SHELLS)) /\
  (type =? I_BOOST) = false /\ (type =? I_HEALTH) = false /\ (type =? I_GREENARMOUR) = false /\
  (type =? I_YELLOWARMOUR) = false /\ (type =? I_QUAD) = false /\
  (type <? I_SHELLS) || (I_QUAD <? type) = false.
Proof.
  intros H. unfold I_SHELLS, I_CARTRIDGES in H.
  assert (type = 8 \/ type = 9 \/ type = 10 \/ type = 11 \/ type = 12 \/ type = 13)
    as [->|[->|[->|[->|[->| ->]]]]] by lia; vm_compute; repeat split; congruence.
Qed.

Lemma pickup_ammo_ok type st :
  supplies_ok st -> I_SHELLS <= type <= I_CARTRIDGES ->
  supplies_ok (pickup_item type st) /\
  (canpickup type st = true -> pickup_item type st <> st) /\
  (canpickup type st = false -> pickup_item type st = st).
Proof.
  intros Hok Ht. destruct (ammo_item type Ht) as (Ei&Ea&E1&E2&E3&E4&E5&E6).
  unfold pickup_item, canpickup. cbv zeta. rw E1 E2 E3 E4 E5 E6 Ei. cbn [orb].
  set (g := type - I_SHELLS + GUN_SG). set (it := itemstat_of (type - I_SHELLS)) in *.
  assert (GUN_SG <= g <= GUN_PISTOL) as Hg by (unfold g, GUN_SG, GUN_PISTOL, I_SHELLS, I_CARTRIDGES in *; lia).
  assert (itemstat_of (g - GUN_SG) = it) as Eg by (unfold it, g; f_equal; lia).
  assert (0 <= g < NUMGUNS) as Hg' by (unfold GUN_SG, GUN_PISTOL, NUMGUNS in *; lia).
  pose proof (so_ammo _ Hok g Hg) as Ha. rw Eg in Ha. rw tmin_spec.
  set (a' := Z.min _ _). split; [|split].
  - destruct Hok. constructor; try done; [simpl; by rw zlength_zinsert|].
    intros g' Hgr. rewrite -> get_set_ammo by done. destruct (Z.eqb_spec g' g) as [->|]; [|auto].
    rw Eg. lia.
  - intros Hlt%Z.ltb_lt Hsame. pose proof (f_equal (fun st => get_ammo st g) Hsame) as H. cbn beta in H.
    rewrite -> get_set_ammo in H by (destruct Hok; done). rw Z.eqb_refl in H. lia.
  - intros Hge%Z.ltb_ge. replace a' with (get_ammo st g) by lia.
    destruct (set_ammo_id g st) as [|Hnone]; [done|].
    apply zlookup_None in Hnone. destruct Hok as [? ? ? ? ? Hl ?]. lia.
Qed.

(** The other items, one equation each. *)
Lemma pickup_health st :
  pickup_item I_HEALTH st = st <| health := tmin (health st + 25) (maxhealth st) |> /\
  canpickup I_HEALTH st = (health st <? maxhealth st).
Proof. done. Qed.
Lemma pickup_boost st :
  pickup_item I_BOOST st =
    st <| maxhealth := tmin (maxhealth st + 50) 200 |>
       <| health := tmin (health st + 100) (tmin (maxhealth st + 50) 200) |> /\
  canpickup I_BOOST st = (maxhealth st <? 200) || (health st <? maxhealth st).
Proof. done. Qed.
Lemma pickup_green st :
  pickup_item I_GREENARMOUR st = st <| armour := tmin (armour st + 100) 100 |> <| armourtype := A_GREEN |> /\
  canpickup I_GREENARMOUR st =
    if (armourtype st =? A_YELLOW) && (100 <=? armour st) then false
    else (armourtype st =? 0) || (armour st <? 100).
Proof. done. Qed.
Lemma pickup_yellow st :
  pickup_item I_YELLOWARMOUR st = st <| armour := tmin (armour st + 200) 200 |> <| armourtype := A_YELLOW |> /\
  canpickup I_YELLOWARMOUR st = (armourtype st =? 0) || (armour st <? 200).
Proof. done. Qed.
Lemma pickup_quad st :
  pickup_item I_QUAD st = st <| quadmillis := tmin (quadmillis st + 20000) 30000 |> /\
  canpickup I_QUAD st = (quadmillis st <? 30000).
Proof. done. Qed.

Ltac bools := repeat match goal with
  | H : (_ || _) = true |- _ => apply orb_true_iff in H as [H|H]
  | H : (_ || _) = false |- _ => apply orb_false_iff in H as [? ?]
  | H : (_ && _) = true |- _ => apply andb_true_iff in H as [? ?]
  | H : (if ?b then _ else _) = _ |- _ => destruct b eqn:?
  | H : (_ <? _) = true |- _ => apply Z.ltb_lt in H
  | H : (_ <? _) = false |- _ => apply Z.ltb_ge in H
  | H : (_ <=? _) = true |- _ => apply Z.leb_le in H
  | H : (_ =? _) = true |- _ => apply Z.eqb_eq in H
  | H : (_ =? _) = false |- _ => apply Z.eqb_neq in H
  end.

Lemma pickup_other_ok type st :
  supplies_ok st -> I_HEALTH <= type <= I_QUAD ->
  supplies_ok (pickup_item type st) /\
  (canpickup type st = true -> pickup_item type st <> st) /\
  (canpickup type st = false -> pickup_item type st = st \/
     type = I_GREENARMOUR /\ armourtype st = A_YELLOW /\ 100 <= armour st).
Proof.
  intros Hok Ht.
  assert (type = I_HEALTH \/ type = I_BOOST \/ type = I_GREENARMOUR \/ type = I_YELLOWARMOUR \/
          type = I_QUAD) as Hty
    by (unfold I_HEALTH, I_BOOST, I_GREENARMOUR, I_YELLOWARMOUR, I_QUAD in *; lia).
  pose proof (pickup_health st) as [P1 C1]. pose proof (pickup_boost st) as [P2 C2].
  pose proof (pickup_green st) as [P3 C3]. pose proof (pickup_yellow st) as [P4 C4].
  pose proof (pickup_quad st) as [P5 C5].
  destruct st as [h mh ar at_ q gs gw am ait sk].
  destruct Hok as [Hh Hm Ha Hat Hq Hl Hg]; cbn in Hh, Hm, Ha, Hat, Hq, Hl.
  unfold A_BLUE, A_GREEN, A_YELLOW in *.
  destruct Hty as [->|[->|[->|[->| ->]]]];
    [rw P1 C1|rw P2 C2|rw P3 C3|rw P4 C4|rw P5 C5]; clear P1 C1 P2 C2 P3 C3 P4 C4 P5 C5;
    rw ?tmin_spec; (split; [constructor; cbn; unfold A_BLUE, A_GREEN, A_YELLOW; try done; lia|]);
    split; intros Hc; bools; cbn in *; try (intros [=]; lia); try (left; f_equal; lia);
    try (right; split_and!; done); lia.
Qed.

(** * Properties *)

(** A player is refused an item exactly when it is worth nothing: for a
    player within the limits of the items, an allowed item changes the player's
    supplies, a refused one would leave them as they are (or trade yellow armour
    of at least 100 for green), and no item ever takes health, armour,
    ammunition or quad time past its limit. *)
Theorem canpickup_exact (type : Z) (st : fpsstate) :
  supplies_ok st -> I_SHELLS <= type <= I_QUAD ->
  supplies_ok (pickup_item type st) /\
  (canpickup type st = true -> pickup_item type st <> st) /\
  (canpickup type st = false -> pickup_item type st = st \/
     type = I_GREENARMOUR /\ armourtype st = A_YELLOW /\ 100 <= armour st).
Proof.
  intros Hok Ht. destruct (decide (type <= I_CARTRIDGES)) as [Hle|Hgt].
  - destruct (pickup_ammo_ok type st Hok) as (?&?&?); [lia|]. auto.
  - apply pickup_other_ok; [done|]. unfold I_CARTRIDGES, I_HEALTH in *. lia.
Qed.

Lemma canpickup_exact_witness :
  let st := fps_respawn fpsstate0 in
  canpickup I_HEALTH st = false /\ pickup_item I_HEALTH st = st.
Proof.
  destruct (canpickup_exact I_HEALTH (fps_respawn fpsstate0)) as (_&_&H).
  - constructor; try (vm_compute; repeat split; congruence); [by left|].
    intros g Hg. assert (get_ammo (fps_respawn fpsstate0) g = 0) as ->; [|].
    + unfold GUN_SG, GUN_PISTOL in Hg.
      assert (g = 1 \/ g = 2 \/ g = 3 \/ g = 4 \/ g = 5 \/ g = 6)
        as [->|[->|[->|[->|[->| ->]]]]] by lia; reflexivity.
    + unfold GUN_SG, GUN_PISTOL in Hg.
      assert (g = 1 \/ g = 2 \/ g = 3 \/ g = 4 \/ g = 5 \/ g = 6)
        as [->|[->|[->|[->|[->| ->]]]]] by lia; vm_compute; split; congruence.
  - vm_compute; split; congruence.
  - split; [reflexivity|]. destruct (H eq_refl) as [E|[[=] _]]. exact E.
Defined.

(** When [pickup] grants the item. *)
Definition grants (i sender : Z) (s : server) : bool :=
  negb (m_timed (gamemode s) && (gamelimit s <=? gamemillis s)) &&
  match sents s .! i, getinfo sender s with
  | Some e, Some ci => spawned e && (local (deref ci s) || canpickup (se_type e) (deref ci s))
  | _, _ => false
  end.

(** What an item exchange is about: the items and the clients. *)
Definition items_view (s : server) := (sents s, ci_heap s, gamemode s, gamelimit s, gamemillis s).

Lemma sendf_items_view to chan fs s : items_view (exec (sendf to chan fs) s) = items_view s.
Proof.
  assert (respects (eq_on items_view) (sendf to chan fs)) as Hs by solve_respects.
  symmetry. exact (Hs s).
Qed.

Lemma pickup_refused i n s :
  grants i n s = false -> eval (pickup i n) s = false /\ items_view (exec (pickup i n) s) = items_view s.
Proof.
  unfold grants, pickup, sent_at. rw (eval_bind get_server) (exec_bind get_server).
  cbn [eval exec get_server gets fst snd id]. unfold sent_at.
  destruct (m_timed _ && _); [done|]. cbn [negb andb orb].
  destruct (sents s .! i) as [e|]; [|done]. rewrite -> bool_decide_true by done. cbn [negb orb default id].
  destruct (spawned e); cbn [negb orb andb]; [|by destruct (getinfo n s)].
  destruct (getinfo n s) as [ci|]; [|done]. cbv zeta. rw -negb_orb.
  intros ->. cbn [negb]. rw eval_bind exec_bind. split; [done|]. apply sendf_items_view.
Qed.

Lemma upd_sent_view i f s :
  items_view (exec (upd_sent i f) s) =
  (zalter f i (sents s), ci_heap s, gamemode s, gamelimit s, gamemillis s).
Proof. done. Qed.

Definition take_item (s : server) (e : server_entity) : server_entity :=
  e <| spawned := false |> <| spawntime := item_spawntime (se_type e) s |> <| lastpickup := totalmillis s |>.

Lemma pickup_granted i n s e ci :
  grants i n s = true -> sents s .! i = Some e -> getinfo n s = Some ci ->
  eval (pickup i n) s = true /\
  items_view (exec (pickup i n) s) =
    (zinsert (sents s) i (take_item s e), alter {{ ci_state ::= {{ fps ::= pickup_item (se_type e) }} }} ci (ci_heap s),
     gamemode s, gamelimit s, gamemillis s).
Proof.
  unfold grants, pickup. intros Hg He Hci. rw (eval_bind get_server) (exec_bind get_server).
  cbn [eval exec get_server gets fst snd id]. unfold sent_at. rw He Hci in Hg. rw He Hci.
  destruct (m_timed _ && _); [done|]. rewrite -> bool_decide_true by done. cbn [negb andb orb default id] in *.
  destruct (spawned e); [|done]. cbn [negb andb orb] in *. cbv zeta. rw -negb_orb Hg. cbn [negb].
  split.
  { rw 3!(eval_bind (upd_sent _ _)) (eval_bind (sendf _ _ _)) (eval_bind (upd_gs _ _)). done. }
  rw 3!(exec_bind (upd_sent _ _)) (exec_bind (sendf _ _ _)) (exec_bind (upd_gs _ _)).
  set (s1 := exec (upd_sent i _) _). pose proof (sendf_items_view (-1) 1
    (message N_ITEMACC [FInt i; FInt n]) s1) as Hs. set (s2 := exec (sendf _ _ _) s1) in *.
  assert (items_view s1 = (zinsert (sents s) i (take_item s e), ci_heap s, gamemode s, gamelimit s,
    gamemillis s)) as H1.
  { unfold s1. rw upd_sent_view. unfold items_view. cbn. repeat f_equal.
    unfold zlookup, zinsert, zalter in *. destruct (0 <=? i); [|done].
    apply list_eq. intros j. destruct (decide (j = Z.to_nat i)) as [->|].
    - rw !list_lookup_alter_eq He. symmetry. apply list_lookup_insert_eq, lookup_lt_is_Some. eauto.
    - rewrite -> !list_lookup_alter_ne by done. by rewrite -> list_lookup_insert_ne by done. }
  rw H1 in Hs. clearbody s2. unfold items_view in *.
  injection Hs as E1 E2 E3 E4 E5. cbn [exec ret snd upd_gs upd_ci set_roster modify]. simpl. congruence.
Qed.

Lemma grants_inv i n s :
  grants i n s = true -> exists e ci, sents s .! i = Some e /\ spawned e = true /\ getinfo n s = Some ci.
Proof.
  unfold grants. destruct (sents s .! i) as [e|], (getinfo n s) as [ci|]; rw ?andb_false_r; try done.
  intros [_ [? _]%andb_true_iff]%andb_true_iff. eauto.
Qed.

(** C19: an item goes to exactly one player.  [pickup] succeeds exactly when the
    match is running, the item is there and the player may have it; then the
    item is gone with its timer set, and only that player's supplies change, by
    exactly what the item is worth; any later request for it, by whomever, is
    refused.  A refused request changes no item and no player. *)
Theorem pickup_exclusive (i n : Z) (s : server) :
  let s' := exec (pickup i n) s in
  eval (pickup i n) s = grants i n s /\
  (grants i n s = true ->
    (exists e ci, sents s .! i = Some e /\ getinfo n s = Some ci /\
      sents s' = zinsert (sents s) i (take_item s e) /\
      ci_heap s' = alter {{ ci_state ::= {{ fps ::= pickup_item (se_type e) }} }} ci (ci_heap s)) /\
    (forall m, eval (pickup i m) s' = false)) /\
  (grants i n s = false -> sents s' = sents s /\ ci_heap s' = ci_heap s).
Proof.
  cbv zeta. destruct (grants i n s) eqn:Hg.
  - destruct (grants_inv _ _ _ Hg) as (e&ci&He&Hsp&Hci).
    destruct (pickup_granted i n s e ci Hg He Hci) as [-> Hv].
    split_and!; [done| |done]. intros _. injection Hv as E1 E2 _ _ _. split; [by exists e, ci|].
    intros m. apply pickup_refused. unfold grants. rw E1.
    rewrite -> zlookup_zinsert_eq by (by eapply zlookup_Some_range).
    by destruct (getinfo m _); cbn [spawned take_item andb]; rw /= ?andb_false_r.
  - destruct (pickup_refused i n s Hg) as [-> Hv]. injection Hv as E1 E2 _ _ _. by split_and!.
Qed.

(** ** The timer *)

Definition item_of (s : server) := (sents s, curtime s).

Lemma sendf_item_of to chan fs : respects (eq_on item_of) (sendf to chan fs).
Proof. solve_respects. Qed.

(** One round of the loop touches its own item only. *)
Lemma forM_tick_frame c (k : list Z) (s : server) :
  NoDup k -> curtime s = c ->
  let s' := exec (forM k (fun i =>
      s <- get_server ;;
      let '(e, msgs) := tick_item (curtime s) i (sent_at i s) in
      upd_sent i (fun _ => e) ;;
      forM msgs (sendf (-1) 1))) s in
  curtime s' = c /\
  forall j, sents s' .! j = if bool_decide (j ∈ k) then (fun e => (tick_item c j e).1) <$> sents s .! j
                         else sents s .! j.
Proof.
  revert s. induction k as [|i k IH]; intros s Hnd Hc; cbn zeta; [by split|].
  apply NoDup_cons in Hnd as [Hi Hnd]. cbn [forM]. rw exec_bind.
  match goal with |- context [exec (bind get_server ?f) s] => set (step := f) end.
  assert (item_of (exec (bind get_server step) s) =
          (zalter (fun _ => (tick_item c i (sent_at i s)).1) i (sents s), c)) as Hs.
  { rw (exec_bind get_server). cbn [eval exec get_server gets fst snd id]. unfold step. rw Hc.
    destruct (tick_item c i (sent_at i s)) as [e msgs]. rw exec_bind.
    pose proof (respects_forM (eq_on item_of) msgs (sendf (-1) 1)
      (fun fs _ => sendf_item_of (-1) 1 fs) (exec (upd_sent i (fun _ => e)) s)) as Hf.
    rw -Hf. cbn [fst]. by rw -Hc. }
  set (s1 := exec (bind get_server step) s) in *. clearbody s1. injection Hs as H1 H2.
  destruct (IH s1 Hnd H2) as [Hc' Hl]. split; [done|]. intros j. rw Hl H1.
  destruct (decide (j = i)) as [->|Hne].
  - rewrite -> bool_decide_false by done. rewrite -> bool_decide_true by set_solver.
    rw zlookup_zalter_eq. unfold sent_at. by destruct (sents s .! i).
  - rewrite -> zlookup_zalter_ne by done.
    by rewrite -> (bool_decide_ext (j ∈ i :: k) (j ∈ k)) by set_solver.
Qed.

Lemma update_items_spec (s : server) :
  curtime s <> 0 ->
  forall j, sents (exec update_items s) .! j = (fun e => (tick_item (curtime s) j e).1) <$> sents s .! j.
Proof.
  intros Hc j. unfold update_items. rw (exec_bind get_server). cbn [eval exec get_server gets fst snd id].
  rewrite -> (proj2 (Z.eqb_neq _ _)) by done. cbn [negb when].
  destruct (forM_tick_frame (curtime s) (seqZ 0 (zlength (sents s))) s) as [_ ->];
    [apply NoDup_seqZ|done|].
  case_bool_decide as Hj; [done|]. rewrite -> (proj2 (zlookup_None _ _)); [done|].
  rw elem_of_seqZ in Hj. lia.
Qed.

(** The clock advances by [ds], one update after each step. *)
Fixpoint clock_steps (ds : list Z) (s : server) : server :=
  match ds with
  | [] => s
  | d :: ds => clock_steps ds (exec update_items (s <| sv_clock ::= {{ curtime := d }} |>))
  end.

Lemma clock_steps_idle ds (s : server) i e :
  Forall (fun d => 0 < d) ds -> sents s .! i = Some e -> spawntime e = 0 ->
  sents (clock_steps ds s) .! i = Some e.
Proof.
  intros Hds. revert s. induction Hds as [|d ds Hd _ IH]; intros s He Ht; [done|].
  cbn [clock_steps]. apply IH; [|done]. rewrite -> update_items_spec by (simpl; lia).
  cbn. rw He. simpl. unfold tick_item. by rw Ht.
Qed.

(** An item taken with [spawntime] milliseconds on its timer is back exactly
    when that much time has passed, however the time is cut into steps: before,
    it is absent with the rest on its timer; after, it is there and the timer
    is off.  The other items do not disturb it. *)
Theorem item_returns_on_time (ds : list Z) (s : server) (i : Z) (e : server_entity) :
  Forall (fun d => 0 < d) ds -> sents s .! i = Some e -> 0 < spawntime e -> spawned e = false ->
  sents (clock_steps ds s) .! i = Some (
    if foldr Z.add 0 ds <? spawntime e
    then e <| spawntime := spawntime e - foldr Z.add 0 ds |>
    else e <| spawntime := 0 |> <| spawned := true |>).
Proof.
  intros Hds. revert s e. induction Hds as [|d ds Hd Hds IH]; intros s e He Ht Hsp;
    cbn [clock_steps foldr].
  { rewrite -> (proj2 (Z.ltb_lt 0 _)) by done. rw He Z.sub_0_r. by destruct e. }
  set (s1 := s <| sv_clock ::= {{ curtime := d }} |>).
  assert (sents (exec update_items s1) .! i = Some (tick_item d i e).1) as H1.
  { rewrite -> update_items_spec by (simpl; lia). cbn. by rw He. }
  assert (0 <= foldr Z.add 0 ds) as Hsum by (clear -Hds; induction Hds; simpl; lia).
  unfold tick_item in H1. rewrite -> (proj2 (Z.eqb_neq _ _)) in H1 by lia. cbv zeta in H1.
  destruct (Z.leb_spec (spawntime e - d) 0); cbn [fst] in H1.
  - rewrite -> (proj2 (Z.ltb_ge _ _)) by lia. by apply clock_steps_idle.
  - rewrite -> (IH _ _ H1) by (first [cbn; lia|done]). cbn [spawntime update_field].
    destruct (Z.ltb_spec (foldr Z.add 0 ds) (spawntime e - d));
      [rewrite -> (proj2 (Z.ltb_lt _ _)) by lia|rewrite -> (proj2 (Z.ltb_ge _ _)) by lia];
      destruct e; cbn in *; do 2 f_equal; lia.
Qed.

Lemma item_returns_on_time_witness :
  let s := server0 <| sv_items ::= {{ sents := [mksent I_HEALTH 20000 false 0] }} |> in
  sents (clock_steps [5000; 12000] s) .! 0 = Some (mksent I_HEALTH 3000 false 0) /\
  sents (clock_steps [5000; 12000; 3000] s) .! 0 = Some (mksent I_HEALTH 0 true 0).
Proof.
  split.
  - apply (item_returns_on_time [5000; 12000] _ 0 (mksent I_HEALTH 20000 false 0)); [decide_now|done..].
  - apply (item_returns_on_time [5000; 12000; 3000] _ 0 (mksent I_HEALTH 20000 false 0));
      [decide_now|done..].
Defined.

(** A list that names the same entity twice, first as health and then as quad
    damage, puts the quad on the map at once although its timer is running. *)
Example itemlist_repeated_index :
  sents (exec (commit_itemlist [(0, I_HEALTH); (0, I_QUAD)]) (sample_server 0 [good; evil])) =
    [mksent I_QUAD 70000 true (-1)] /\
  sents (exec (commit_itemlist [(0, I_QUAD)]) (sample_server 0 [good; evil])) =
    [mksent I_QUAD 70000 false (-1)].
Proof. by vm_compute. Qed.
