(* ===== verification/Cheat.v ===== *)
(** What the cheat detector tells the rest of the server (fpsgame/anticheat.h,
    the part compiled into the server): reporting a cheat, the visibility test
    and the integer distance, with the vectors, the printing of numbers and the
    addresses they need. *)
From S2P Require Import Prelude Wire Text Float32 Game Random State Engine Roster.
From Stdlib Require Import Floats.

(** * Numbers as text *)

(** [%.2f] of a [float]: the exact value rounded to hundredths, ties to even. *)
Definition round_half_even (n d : Z) : Z :=
  let q := n / d in
  match 2 * (n mod d) ?= d with
  | Lt => q
  | Gt => q + 1
  | Eq => if Z.even q then q else q + 1
  end.
Definition print_hundredths (neg : bool) (n : Z) : cstring :=
  (if neg then [45] else []) ++ print_int (n / 100) ++ [46] ++
  [48 + n / 10 mod 10; 48 + n mod 10].
Definition print_f2 (x : f32) : cstring :=
  match x with
  | S754_zero neg => print_hundredths neg 0
  | S754_infinity neg => (if neg then [45] else []) ++ cstr "inf"
  | S754_nan => cstr "-nan"
  | S754_finite neg m e =>
    print_hundredths neg
      (if 0 <=? e then 100 * Zpos m * 2 ^ e else round_half_even (100 * Zpos m) (2 ^ (- e)))
  end.
(** A network address as dotted quad; the first byte is the lowest. *)
Definition dotted_quad (host : Z) : cstring :=
  let byte i := print_int (Z.shiftr host (8 * i) mod 256) in
  byte 0 ++ [46] ++ byte 1 ++ [46] ++ byte 2 ++ [46] ++ byte 3.
Definition hostname (ci : nat) (s : server) : cstring :=
  dotted_quad (getclientip (clientnum (deref ci s)) s).

(** * Vectors *)

(** [vec::rescale] with its threshold [1e-6f]. *)
Definition f32_1em6 : f32 := f32_lit 8796093 (-43).
Definition vec_rescale (v : vec) (k : f32) : vec :=
  let mag := vec_magnitude v in if fgt mag f32_1em6 then vec_mul v (fdiv k mag) else v.
(** [ivec(v)]. *)
Definition ivec_of (v : vec) : Z * Z * Z := (f32_to_int (vx v), f32_to_int (vy v), f32_to_int (vz v)).

(** [sqrt] of an [int] in double precision, rounded to [float]. *)
Definition f32_of_f64 (x : spec_float) : f32 :=
  match x with
  | S754_finite s m e => binary_normalize 24 128 (if s then Zneg m else Zpos m) e s
  | _ => x
  end.
Definition distance (a b : vec) : f32 :=
  let x := f32_to_int (fsub (vx a) (vx b)) in
  let y := f32_to_int (fsub (vy a) (vy b)) in
  let z := f32_to_int (fsub (vz a) (vz b)) in
  let d := to_int (to_int (to_int (x * x) + to_int (y * y)) + to_int (z * z)) in
  f32_of_f64 (SFsqrt 53 1024 (binary_normalize 53 1024 d 0 false)).
Definition vec_equal (a b : vec) : bool := bool_decide (ivec_of a = ivec_of b).
(** [a == b] on floats. *)
Definition vec_eqb (a b : vec) : bool :=
  feq (vx a) (vx b) && feq (vy a) (vy b) && feq (vz a) (vz b).

(** * Reports *)
Section cheat.
Context {hooks : Hooks}.

(** [anti_cheat_add_log_to_demo] is on.  The text travels as a team change of
    client 2048, character by character. *)
Definition cheat_text (ci : nat) (cheat_ info1 : Z) (info2 : cstring) (s : server) : cstring :=
  [12; 51] ++ cstr "CHEAT DETECTED " ++ [12; 49] ++ cstr "-> " ++ [12; 51] ++ cstr "NAME: " ++
  [12; 49] ++ name (deref ci s) ++ [32; 12; 51] ++ cstr "IP: " ++ [12; 49] ++ hostname ci s ++
  [32; 12; 51] ++ cstr "TYPE: " ++ [12; 49] ++ print_int cheat_ ++ [32; 12; 51] ++
  cstr "INFO1: " ++ [12; 49] ++ print_int info1 ++ [32; 12; 51] ++ cstr "INFO2: " ++ [12; 51] ++ info2.
Definition cheat (cn cheat_ info1 : Z) (info2 : cstring) : M server unit :=
  s <- get_server ;;
  if negb (anti_cheat_enabled s) then ret tt else
  when (demorecord s)
    (match getinfo cn s with
     | Some ci =>
       recordpacket 1 (message N_SETTEAM (FInt 2048 ::
         map (fun c => FInt (to_schar c)) (cheat_text ci cheat_ info1 info2 s) ++ [FInt 0; FInt (-1)]))
     | None => ret tt
     end) ;;
  fire "cheat" [AInt cn; AInt cheat_; AInt info1; AStr info2] ;; ret tt.

(** 0: visible; 1: no position for too long; 2: at an impossible place. *)
Definition is_invisible (cn : Z) (s : server) : Z :=
  match getinfo cn s with
  | None => 0
  | Some ci =>
    let c := deref ci s in
    if negb (anti_cheat_enabled s) || negb (cs_eqb (state c) CS_ALIVE || cs_eqb (state c) CS_LAGGED) ||
       (7500 <=? ping c) then 0 else
    let lag_ := totalmillis s - lastposupdate c in
    let lag_ := if lag_ =? totalmillis s then -1 else lag_ in
    if vec_eqb (pos c) nowhere || vec_eqb (pos c) vec0 then 2
    else if (7500 <=? lag_) || (lag_ =? -1) then 1 else 0
  end.

Definition upd_ac (ci : nat) (f : anticheat -> anticheat) : M server unit := upd_ci ci {{ ac ::= f }}.
Definition ac_damage (ci : nat) : M server unit :=
  s <- get_server ;; upd_ac ci {{ lastdamage := totalmillis s }}.
Definition out_of_gun_distance_range (ci : nat) (gun : Z) (info : cstring) : M server unit :=
  s <- get_server ;; cheat (ac_clientnum (ac (deref ci s))) 14 gun info.
End cheat.

Lemma respects_cheat {hooks : Hooks} {T} R `{!PreOrder R} (π : server -> T) `{!FramedBy R π}
    `{!IgnoresIO π} `{!HooksRespect R} cn c i t : respects R (cheat cn c i t).
Proof. unfold cheat. solve_respects. Qed.
#[export] Hint Extern 2 (respects _ (cheat _ _ _ _)) => eapply respects_cheat; apply _ : respects.

Example print_f2_ex : print_f2 (f32_lit 12345 (-10)) = cstr "12.06" /\ print_f2 (f32_lit (-1) (-3)) = cstr "-0.12".
Proof. by vm_compute. Qed.
Example distance_ex :
  distance (mkvec (f32_of_int 3) f32_zero f32_zero) (mkvec f32_zero (f32_of_int 4) f32_zero) = f32_of_int 5.
Proof. by vm_compute. Qed.
Example dotted_quad_ex : dotted_quad 16777343 = cstr "127.0.0.1".
Proof. by vm_compute. Qed.
