(* ===== verification/Combat.v ===== *)
(** Fighting: pushes, damage and death (fpsgame/server.cpp [calcpushrange] ..
    [checkexceeded], [dodamage], [suicide]). *)
From S2P Require Import Prelude Wire Text Float32 Game Random State Engine Intermission Servmode Roster Cheat.

(** * Pushes and excess speed *)

Definition PUSHMILLIS : Z := 3000.
Definition calcpushrange (ci : nat) (s : server) : Z := PUSHMILLIS + peer_rtt (ownernum (deref ci s)) s.
Definition checkpushed (millis range : Z) (c : clientinfo) : bool :=
  (pushed c - range <=? millis) && (millis <=? pushed c + range).
Definition scheduleexceeded (ci : nat) : M server unit :=
  s <- get_server ;;
  let c := deref ci s in
  if negb (cs_eqb (state c) CS_ALIVE) || (exceeded c =? 0) then ret tt else
  let range := calcpushrange ci s in
  when ((nextexceeded s =? 0) || (exceeded c + range <? nextexceeded s))
    (set_game {{ nextexceeded := exceeded c + range }}).
Definition setexceeded (ci : nat) : M server unit :=
  s <- get_server ;;
  let c := deref ci s in
  when (cs_eqb (state c) CS_ALIVE && (exceeded c =? 0) &&
        negb (checkpushed (gamemillis s) (calcpushrange ci s) c))
    (upd_ci ci {{ exceeded := gamemillis s }}) ;;
  scheduleexceeded ci.
Definition setpushed (ci : nat) : M server unit :=
  s <- get_server ;;
  upd_ci ci {{ pushed ::= fun p => tmax p (gamemillis s) }} ;;
  s <- get_server ;;
  let c := deref ci s in
  when (negb (exceeded c =? 0) && checkpushed (exceeded c) (calcpushrange ci s) c)
    (upd_ci ci {{ exceeded := 0 }}).
Definition checkexceeded (ci : nat) (s : server) : bool :=
  let c := deref ci s in
  cs_eqb (state c) CS_ALIVE && negb (exceeded c =? 0) &&
  (exceeded c + calcpushrange ci s <? gamemillis s).

Section combat.
Context {hooks : Hooks}.

(** * Damage and death *)

(** The values of [friends] and [enemies], the fragger included. *)
Definition friends_enemies (actor : nat) (s : server) : Z * Z :=
  if m_teammode (gamemode s) then
    let same := fun ci => bool_decide (team (deref ci s) = team (deref actor s)) in
    (zlength (filter (fun ci => same ci = true) (clients s)),
     zlength (filter (fun ci => same ci = false) (clients s)))
  else (1, zlength (clients s) - 1).
Definition frag_worth (fragvalue_ friends enemies : Z) : f32 :=
  fdiv (f32_of_int (fragvalue_ * friends)) (f32_of_int (tmax enemies 1)).

(** The rest of [dodamage] once the target has no health left. *)
Definition die (target actor : nat) : M server unit :=
  upd_gs target {{ deaths ::= Z.succ }} ;;
  upd_gs target {{ suicides ::= fun n => n + if (actor =? target)%nat then 1 else 0 }} ;;
  s <- get_server ;;
  when (negb (actor =? target)%nat && isteam s (team (deref actor s)) (team (deref target s)))
    (upd_gs actor {{ teamkills ::= Z.succ }} ;;
     fire "teamkill" [AInt (clientnum (deref actor s)); AInt (clientnum (deref target s))] ;; ret tt) ;;
  s <- get_server ;;
  let fv := fragvalue target actor s in
  upd_gs actor {{ frags ::= fun n => n + fv }} ;;
  s <- get_server ;;
  when (0 <? fv)
    (let '(fr, en) := friends_enemies actor s in
     upd_gs actor {{ effectiveness ::= fun e => fadd e (frag_worth fv fr en) }}) ;;
  let actorteam := team (deref actor s) in
  when (m_teammode (gamemode s)) (add_teamfrags actorteam fv) ;;
  fire "frag" [AInt (clientnum (deref target s)); AInt (clientnum (deref actor s))] ;;
  s' <- get_server ;;
  sendf (-1) 1 (message N_DIED [FInt (clientnum (deref target s')); FInt (clientnum (deref actor s'));
    FInt (frags (deref actor s'));
    FInt (if m_teammode (gamemode s) then default 0 (access_teaminfo actorteam s') else 0)]) ;;
  upd_ci target {{ position := [] }} ;;
  with_smode (fun m => sm_died m target (Some actor)) ;;
  s <- get_server ;;
  upd_gs target {{ state := CS_DEAD }} ;;
  upd_gs target {{ lastdeath := gamemillis s }} ;;
  upd_gs target {{ deadflush := gamemillis s + DEATHMILLIS }}.

(** The gun's name is printed as [%s]: the source passes the literal. *)
Definition range_text (gun : Z) (d : f32) : cstring :=
  cstr "GUN: %s GUN-RANGE: " ++ print_int (gi_range (guninfo_of gun)) ++ cstr " DISTANCE: " ++ print_f2 d.

(** The damage itself; the result is the health left. *)
Definition hurt (target actor : nat) (damage_ gun : Z) (hitpush : vec) : M server Z :=
  upd_gs target {{ fps ::= fun st => (fps_dodamage damage_ st).2 }} ;;
  s <- get_server ;;
  when (negb (target =? actor)%nat && negb (isteam s (team (deref target s)) (team (deref actor s))))
    (upd_gs actor {{ damage ::= fun n => n + damage_ }}) ;;
  s <- get_server ;;
  let t := deref target s in
  sendf (-1) 1 (message N_DAMAGE [FInt (clientnum t); FInt (clientnum (deref actor s)); FInt damage_;
    FInt (armour t); FInt (health t)]) ;;
  (if (target =? actor)%nat then setpushed target
   else when (negb (vec_iszero hitpush)) (
     let '(x, y, z) := ivec_of (vec_rescale hitpush DNF) in
     sendf (if health t <=? 0 then -1 else ownernum t) 1
       (message N_HITPUSH [FInt (clientnum t); FInt gun; FInt damage_; FInt x; FInt y; FInt z]) ;;
     setpushed target)) ;;
  ret (health t).
Definition inflict (target actor : nat) (damage_ gun : Z) (hitpush : vec) : M server unit :=
  left_ <- hurt target actor damage_ gun hitpush ;;
  when (left_ <=? 0) (die target actor).

Definition dodamage (target actor : nat) (damage_ gun : Z) (hitpush : vec) : M server unit :=
  s <- get_server ;;
  veto <- fire "damage" [AInt (clientnum (deref target s)); AInt (clientnum (deref actor s)); AInt damage_;
    AInt gun; AFloat (vx hitpush); AFloat (vy hitpush); AFloat (vz hitpush)] ;;
  if (veto : bool) then ret tt else
  s <- get_server ;;
  if negb (anti_cheat_enabled s) then inflict target actor damage_ gun hitpush else
  ac_damage target ;;
  let st_dist := distance (pos (deref actor s)) (pos (deref target s)) in
  if gi_range (guninfo_of gun) + 50 <? f32_to_int st_dist
  then out_of_gun_distance_range actor gun (range_text gun st_dist)
  else inflict target actor damage_ gun hitpush.

Definition suicide (ci : nat) : M server unit :=
  s <- get_server ;;
  veto <- fire "suicide" [AInt (clientnum (deref ci s))] ;;
  if (veto : bool) then ret tt else
  s <- get_server ;;
  if negb (cs_eqb (state (deref ci s)) CS_ALIVE) then ret tt else
  let fv := fragvalue ci ci s in
  upd_gs ci {{ frags ::= fun n => n + fv }} ;;
  upd_gs ci {{ deaths ::= Z.succ }} ;;
  upd_gs ci {{ suicides ::= Z.succ }} ;;
  when (m_teammode (gamemode s)) (add_teamfrags (team (deref ci s)) fv) ;;
  s <- get_server ;;
  let c := deref ci s in
  sendf (-1) 1 (message N_DIED [FInt (clientnum c); FInt (clientnum c); FInt (frags c);
    FInt (if m_teammode (gamemode s) then default 0 (access_teaminfo (team c) s) else 0)]) ;;
  upd_ci ci {{ position := [] }} ;;
  with_smode (fun m => sm_died m ci None) ;;
  s <- get_server ;;
  upd_gs ci {{ state := CS_DEAD }} ;;
  upd_gs ci {{ lastdeath := gamemillis s }} ;;
  upd_gs ci respawn.
End combat.

(** * The accounting of a fight

    Everything about a client but what its mode, a push or its last position
    may change. *)
Definition fight_core (c : clientinfo) : clientinfo :=
  mode_core c <| pushed := 0 |> <| exceeded := 0 |> <| position := [] |>.
Abbreviation fight_view := (heap_view fight_core).
Abbreviation team_view := (heap_view team).

(** A client but for what the cheat detector notes about it. *)
Definition without_notes (c : clientinfo) : clientinfo := c <| ac := anticheat0 |>.

Section accounting.
Context {hooks : Hooks} `{Hh : !HooksRespect (eq_on (heap_view (fun c => c)))}.

#[local] Instance hooks_fight : HooksRespect (eq_on fight_view).
Proof using Hh. by apply hooks_heap_view. Qed.
#[local] Instance hooks_team : HooksRespect (eq_on team_view).
Proof using Hh. by apply hooks_heap_view. Qed.

Lemma team_view_upd_gs ci f : respects (eq_on team_view) (upd_gs ci f).
Proof. by apply heap_view_frame. Qed.
#[local] Hint Resolve team_view_upd_gs : respects.

Lemma setpushed_fight ci : respects (eq_on fight_view) (setpushed ci).
Proof.
  assert (forall f : Z -> Z, respects (eq_on fight_view) (upd_ci ci {{ pushed ::= f }}))
    by (intros; by apply heap_view_frame).
  assert (forall f : Z -> Z, respects (eq_on fight_view) (upd_ci ci {{ exceeded ::= f }}))
    by (intros; by apply heap_view_frame).
  unfold setpushed. solve_respects.
Qed.

(** The worth of a kill depends on teams only. *)
Lemma fragvalue_view v a s s' : team_view s = team_view s' -> fragvalue v a s = fragvalue v a s'.
Proof.
  intros E. unfold fragvalue, isteam. rw (heap_view_deref team s s' v E) (heap_view_deref team s s' a E).
  by injection E as _ -> _.
Qed.
Lemma isteam_view v a s s' :
  team_view s = team_view s' ->
  isteam s (team (deref v s)) (team (deref a s)) = isteam s' (team (deref v s')) (team (deref a s')).
Proof.
  intros E. unfold isteam. rw (heap_view_deref team s s' v E) (heap_view_deref team s s' a E).
  by injection E as _ -> _.
Qed.
Lemma friends_enemies_view a s s' :
  team_view s = team_view s' -> friends_enemies a s = friends_enemies a s'.
Proof.
  intros E. unfold friends_enemies. pose proof (fun i => heap_view_deref team s s' i E) as Ht.
  injection E as _ Eg _ Ec _ _ _ _. rw Eg Ec. destruct (m_teammode _); [|done].
  f_equal; f_equal; apply list_filter_iff; intros i;
    (rw !bool_decide_eq_true || rw !bool_decide_eq_false); by rw (Ht i) (Ht a).
Qed.

(** What a kill does to the tallies. *)
Definition credit (fv : Z) (fr_en : Z * Z) (c : clientinfo) : clientinfo :=
  c <| ci_state ::= fun gs => gs <| frags ::= fun n => n + fv |>
         <| effectiveness ::= fun e => if 0 <? fv then fadd e (frag_worth fv fr_en.1 fr_en.2) else e |> |>.
Definition penalty (c : clientinfo) : clientinfo := c <| ci_state ::= {{ teamkills ::= Z.succ }} |>.
Definition bury (now suicide_ : Z) (c : clientinfo) : clientinfo :=
  c <| ci_state ::= fun gs => gs <| deaths ::= Z.succ |> <| suicides ::= fun n => n + suicide_ |>
         <| state := CS_DEAD |> <| lastdeath := now |> <| deadflush := now + DEATHMILLIS |> |>.

(** [effect F m s]: run in [s], [m] applies [F k] to each client [k]. *)
Definition effect {A} (F : nat -> clientinfo -> clientinfo) (m : M server A) (s : server) : Prop :=
  team_view (exec m s) = team_view s /\
  forall k, fight_core <$> ci_heap (exec m s) !! k = (F k ∘ fight_core) <$> ci_heap s !! k.

Lemma effect_frame {A} (m : M server A) s : respects (eq_on fight_view) m -> effect (fun _ c => c) m s.
Proof.
  intros Hm. specialize (Hm s). unfold eq_on, heap_view in Hm. injection Hm as E E1 E2 E3 E4 E5 E6 E7.
  assert (forall k, fight_core <$> ci_heap (exec m s) !! k = fight_core <$> ci_heap s !! k) as Hk.
  { intros k. by rw -!lookup_fmap E. }
  split; [|intros k; rw Hk; by destruct (ci_heap s !! k)]. unfold heap_view, match_view.
  rw E1 E2 E3 E4 E5 E6 E7. f_equal. apply map_eq. intros k. rw !lookup_fmap.
  specialize (Hk k). destruct (ci_heap (exec m s) !! k), (ci_heap s !! k); try done.
  exact (f_equal (fmap (M := option) team) Hk).
Qed.
Lemma effect_upd_gs ci f s :
  (forall c, fight_core (c <| ci_state ::= f |>) = (fight_core c) <| ci_state ::= f |>) ->
  effect (fun k c => if decide (k = ci) then c <| ci_state ::= f |> else c) (upd_gs ci f) s.
Proof.
  intros Hf. split; [symmetry; apply team_view_upd_gs|]. intros k. simpl.
  case_decide as Hk; [subst; rw lookup_alter_eq|rewrite -> lookup_alter_ne by done];
    destruct (ci_heap s !! _); simpl; [by rw Hf|done..].
Qed.
Lemma effect_bind {A B} F G (m : M server A) (n : A -> M server B) s :
  effect F m s -> effect G (n (eval m s)) (exec m s) -> effect (fun k c => G k (F k c)) (bind m n) s.
Proof.
  intros [Ht Hm] [Ht' Hn]. unfold effect. rw exec_bind. split; [by rw Ht'|].
  intros k. rw Hn. specialize (Hm k).
  destruct (ci_heap (exec m s) !! k), (ci_heap s !! k); simpl in *; try done. apply (inj Some) in Hm.
  by rw Hm.
Qed.
(** Between the steps only the teams matter. *)
Lemma effect_then {A B} F G (m : M server A) (n : A -> M server B) s :
  effect F m s -> (forall a s', team_view s' = team_view s -> effect G (n a) s') ->
  effect (fun k c => G k (F k c)) (bind m n) s.
Proof. intros Hm Hn. eapply effect_bind; [done|]. apply Hn, Hm. Qed.
Lemma effect_skip {A B} G (m : M server A) (n : A -> M server B) s :
  respects (eq_on fight_view) m -> (forall a s', team_view s' = team_view s -> effect G (n a) s') ->
  effect G (bind m n) s.
Proof. intros Hm Hn. apply (effect_then (fun _ c => c) G); [by apply effect_frame|done]. Qed.
Lemma effect_read {B} F (n : server -> M server B) s : effect F (n s) s -> effect F (bind get_server n) s.
Proof. done. Qed.
Lemma effect_when F b m s : effect F m s -> effect (fun k c => if b : bool then F k c else c) (when b m) s.
Proof. destruct b; [done|]. intros _. apply effect_frame. apply respects_ret. apply _. Qed.
Lemma effect_ext {A} F G (m : M server A) s : (forall k c, F k c = G k c) -> effect F m s -> effect G m s.
Proof.
  intros E [Ht Hm]. split; [done|]. intros k. rw Hm. destruct (ci_heap s !! k); simpl; by rw ?E.
Qed.

Definition kills (now : Z) (teamkill : bool) (fv : Z) (fr_en : Z * Z) (target actor k : nat)
    (c : clientinfo) : clientinfo :=
  let c := if decide (k = actor) then credit fv fr_en (if teamkill then penalty c else c) else c in
  if decide (k = target) then bury now (if (actor =? target)%nat then 1 else 0) c else c.

Lemma effect_die t a (s : server) :
  effect (kills (gamemillis s) (negb (a =? t)%nat && isteam s (team (deref a s)) (team (deref t s)))
            (fragvalue t a s) (friends_enemies a s) t a) (die t a) s.
Proof.
  unfold die. eapply effect_ext; [|
    eapply effect_then; [by apply effect_upd_gs|intros _ s1 E1];
    eapply effect_then; [by apply effect_upd_gs|intros _ s2 E2]; apply effect_read;
    rw (isteam_view a t s2 s) ?E2 //;
    eapply effect_then; [apply effect_when; eapply effect_then; [by apply effect_upd_gs|];
      intros; apply effect_frame; solve_respects|intros _ s3 E3]; apply effect_read;
    rw (fragvalue_view t a s3 s) ?E3 ?E2 //;
    eapply effect_then; [by apply effect_upd_gs|intros _ s4 E4]; apply effect_read;
    rw (friends_enemies_view a s4 s) ?E4 ?E3 ?E2 //;
    eapply effect_then; [apply effect_when; rw (surjective_pairing (friends_enemies a s)); by apply effect_upd_gs|intros _ s5 E5];
    apply effect_skip; [apply respects_when; [apply _|]; unfold add_teamfrags; frame|intros _ s6 E6];
    apply effect_skip; [solve_respects|intros _ s7 E7]; apply effect_read;
    apply effect_skip; [solve_respects|intros _ s8 E8];
    apply effect_skip; [by apply heap_view_frame|intros _ s9 E9];
    apply effect_skip; [apply respects_with_smode; [apply _|]; intros; apply mr_died|intros _ sa Ea];
    apply effect_read;
    assert (gamemillis sa = gamemillis s) as ->
      by (assert (team_view sa = team_view s) as [=] by congruence; congruence);
    eapply effect_then; [by apply effect_upd_gs|intros _ sb Eb];
    eapply effect_then; [by apply effect_upd_gs|intros _ sc Ec];
    by apply effect_upd_gs].
  intros k c. cbv beta. unfold kills, credit, penalty, bury.
  by destruct (negb _ && _), (0 <? fragvalue t a s), (decide (k = t)), (decide (k = a)).
Qed.

(** ** The damage *)
Definition deals (enemy : bool) (damage_ : Z) (actor k : nat) (c : clientinfo) : clientinfo :=
  if enemy then
    if decide (k = actor) then c <| ci_state ::= {{ damage ::= fun n => n + damage_ }} |> else c
  else c.

Lemma effect_hurt t a d gun push (s : server) :
  effect (deals (negb (t =? a)%nat && negb (isteam s (team (deref t s)) (team (deref a s)))) d a)
    (hurt t a d gun push) s.
Proof.
  unfold hurt. eapply effect_ext; [|
    apply effect_skip; [by apply heap_view_frame|intros _ s1 E1]; apply effect_read;
    rw (isteam_view t a s1 s) ?E1 //;
    eapply effect_then; [apply effect_when; by apply effect_upd_gs|intros _ s2 E2];
    apply effect_frame; pose proof setpushed_fight; solve_respects].
  intros k c. cbv beta. unfold deals. by destruct (negb _ && _).
Qed.

Lemma setpushed_fps ci : respects (eq_on (heap_view fps)) (setpushed ci).
Proof.
  assert (forall f : Z -> Z, respects (eq_on (heap_view fps)) (upd_ci ci {{ pushed ::= f }}))
    by (intros; by apply heap_view_frame).
  assert (forall f : Z -> Z, respects (eq_on (heap_view fps)) (upd_ci ci {{ exceeded ::= f }}))
    by (intros; by apply heap_view_frame).
  unfold setpushed. solve_respects.
Qed.
Lemma hurt_fps t a d gun push (s : server) :
  is_Some (ci_heap s !! t) ->
  eval (hurt t a d gun push) s = health (fps_dodamage d (deref t s)).2 /\
  fps (deref t (exec (hurt t a d gun push) s)) = (fps_dodamage d (deref t s)).2.
Proof.
  intros [c Hc]. pose proof setpushed_fps as Hp. unfold hurt. rw eval_bind exec_bind.
  assert (fps (deref t (exec (upd_gs t {{ fps ::= fun st => (fps_dodamage d st).2 }}) s)) =
          (fps_dodamage d (deref t s)).2) as E1.
  { unfold upd_gs, upd_ci, set_roster, exec, modify. cbn [snd].
    rewrite -> (deref_upd_eq _ t s c) by done. unfold deref. by rw Hc. }
  set (s1 := exec (upd_gs t _) s) in *. clearbody s1. rw (eval_bind get_server) (exec_bind get_server).
  cbn [eval exec get_server gets fst snd id]. rw eval_bind exec_bind.
  match goal with |- context [exec (when ?b (upd_gs a ?f)) s1] =>
    assert (respects (eq_on (heap_view fps)) (when b (upd_gs a f))) as H2
      by (apply respects_when; [apply _|by apply heap_view_frame]) end.
  specialize (H2 s1). set (s2 := exec (when _ _) s1) in *. clearbody s2.
  apply (heap_view_deref fps s1 s2 t) in H2. rw -E1 H2.
  rw (eval_bind get_server) (exec_bind get_server). cbn [eval exec get_server gets fst snd id].
  split; [by rw !eval_bind|]. set (l := health _). clearbody l.
  match goal with |- fps (ci_state (deref t (exec ?m s2))) = _ =>
    assert (respects (eq_on (heap_view fps)) m) as H3 by solve_respects end.
  symmetry. exact (heap_view_deref fps _ _ t (H3 s2)).
Qed.

(** ** The whole of [dodamage] *)
Lemma effect_inflict t a d gun push (s : server) :
  is_Some (ci_heap s !! t) ->
  effect (fun k c =>
      let tk := negb (t =? a)%nat && negb (isteam s (team (deref t s)) (team (deref a s))) in
      let c := deals tk d a k c in
      if health (fps_dodamage d (deref t s)).2 <=? 0
      then kills (gamemillis s) (negb (a =? t)%nat && isteam s (team (deref a s)) (team (deref t s)))
             (fragvalue t a s) (friends_enemies a s) t a k c
      else c) (inflict t a d gun push) s.
Proof.
  intros Ht. unfold inflict. destruct (hurt_fps t a d gun push s Ht) as [E _].
  pose proof (effect_hurt t a d gun push s) as Hh'.
  pose proof (effect_die t a (exec (hurt t a d gun push) s)) as Hd.
  set (s1 := exec _ s) in *. pose proof (proj1 Hh') as E1. fold s1 in E1.
  rw (isteam_view a t s1 s) ?E1 // (fragvalue_view t a s1 s) ?E1 // in Hd.
  rw (friends_enemies_view a s1 s) ?E1 // in Hd.
  replace (gamemillis s1) with (gamemillis s) in Hd by (injection E1; congruence).
  eapply effect_ext; [|eapply effect_bind; [exact Hh'|rw E; apply effect_when; exact Hd]].
  done.
Qed.

(** ** Whether a hit counts *)

(** A listener may refuse it; the cheat detector does when the target is out of range. *)
Definition vetoed (t a : nat) (d gun : Z) (push : vec) (s : server) : bool :=
  eval (fire "damage" [AInt (clientnum (deref t s)); AInt (clientnum (deref a s)); AInt d;
    AInt gun; AFloat (vx push); AFloat (vy push); AFloat (vz push)]) s.
Definition out_of_range (t a : nat) (gun : Z) (s : server) : bool :=
  anti_cheat_enabled s &&
  (gi_range (guninfo_of gun) + 50 <? f32_to_int (distance (pos (deref a s)) (pos (deref t s)))).

#[local] Instance hooks_unnoted : HooksRespect (eq_on (heap_view without_notes)).
Proof using Hh. by apply hooks_heap_view. Qed.
Lemma ac_damage_unnoted ci : respects (eq_on (heap_view without_notes)) (ac_damage ci).
Proof.
  unfold ac_damage. apply (respects_bind (eq_on (heap_view without_notes))).
  - apply respects_gets; apply _.
  - intros. by apply heap_view_frame.
Qed.
Lemma dodamage_cases t a d gun push (s : server) :
  HooksRespect (eq_on sv_config) ->
  let m := dodamage t a d gun push in
  if vetoed t a d gun push s || out_of_range t a gun s
  then heap_view without_notes (exec m s) = heap_view without_notes s
  else exists s1, heap_view without_notes s1 = heap_view without_notes s /\ exec m s = exec (inflict t a d gun push) s1.
Proof.
  intros Hc m. unfold m, dodamage. rw (exec_bind get_server).
  cbn [eval exec get_server gets fst snd id]. rw exec_bind. fold (vetoed t a d gun push s).
  match goal with |- context [exec (fire ?n ?l) s] =>
    pose proof (Hh (mkevent n l) s) as E1; pose proof (Hc (mkevent n l) s) as E2;
    change (exec (fire n l) s) with (exec (on_event (mkevent n l)) s);
    set (s1 := exec (on_event (mkevent n l)) s) in * end.
  assert (forall k, deref k s1 = deref k s) as Ed by (intros k; symmetry; exact (heap_view_deref (fun c => c) s s1 k E1)).
  assert (heap_view without_notes s1 = heap_view without_notes s) as E3.
  { symmetry. exact (hooks_unnoted _ s). }
  clearbody s1. unfold eq_on in E2. destruct (vetoed _ _ _ _ _ _); [exact E3|]. cbn [orb].
  rw (exec_bind get_server). cbn [eval exec get_server gets fst snd id]. unfold out_of_range. rw -E2 !Ed.
  destruct (anti_cheat_enabled s); cbn [negb andb]; [|by exists s1].
  rw exec_bind. pose proof (ac_damage_unnoted t s1) as E4. unfold eq_on in E4. rw E3 in E4.
  set (s2 := exec (ac_damage t) s1) in *. clearbody s2. cbv zeta.
  destruct (_ <? _).
  - rewrite -> E4. symmetry. revert s2 E4. intros s2 _.
    match goal with |- _ = heap_view _ (exec ?m s2) =>
      assert (respects (eq_on (heap_view without_notes)) m) as H by (unfold out_of_gun_distance_range; solve_respects) end.
    apply H.
  - exists s2. split; [by symmetry|done].
Qed.
End accounting.

Definition b2z (b : bool) : Z := if b then 1 else 0.

(** The numbers of client [k] after [target] lost health to [actor]. *)
Record tallied (s : server) (t a : nat) (d : Z) (died : bool) (k : nat) (c c' : clientinfo) : Prop := {
  tl_damage : damage c' = damage c +
    if (k =? a)%nat && negb (t =? a)%nat && negb (isteam s (team (deref t s)) (team (deref a s))) then d else 0;
  tl_deaths : deaths c' = deaths c + b2z (died && (k =? t)%nat);
  tl_suicides : suicides c' = suicides c + b2z (died && (k =? t)%nat && (a =? t)%nat);
  tl_teamkills : teamkills c' = teamkills c +
    b2z (died && (k =? a)%nat && negb (a =? t)%nat && isteam s (team (deref a s)) (team (deref t s)));
  tl_frags : frags c' = frags c + if died && (k =? a)%nat then fragvalue t a s else 0;
  tl_state : state c' = if died && (k =? t)%nat then CS_DEAD else state c;
  tl_lastdeath : lastdeath c' = if died && (k =? t)%nat then gamemillis s else lastdeath c;
  tl_rest : name c' = name c /\ team c' = team c /\ events c' = events c /\
            lifesequence c' = lifesequence c /\ hits c' = hits c /\ shots c' = shots c
}.

Lemma isteam_sym (s : server) a b : isteam s a b = isteam s b a.
Proof. unfold isteam. f_equal. apply bool_decide_ext. split; congruence. Qed.

(** The numbers of [tallied], read off the effect of [inflict]. *)
Lemma tallied_of_effect (s : server) t a d died k c c' :
  fight_core c' = (let x := deals (negb (t =? a)%nat && negb (isteam s (team (deref t s)) (team (deref a s)))) d a k
                              (fight_core c) in
    if died : bool then
      kills (gamemillis s) (negb (a =? t)%nat && isteam s (team (deref a s)) (team (deref t s)))
        (fragvalue t a s) (friends_enemies a s) t a k x
    else x) ->
  tallied s t a d died k c c'.
Proof.
  intros H.
  pose proof (f_equal (fun c : clientinfo => (damage c, deaths c, suicides c, teamkills c, frags c)) H) as H1.
  pose proof (f_equal (fun c : clientinfo => (state c, lastdeath c)) H) as H2.
  pose proof (f_equal (fun c : clientinfo => (name c, team c, events c, lifesequence c, hits c, shots c)) H) as H3.
  clear H. revert H1 H2 H3. unfold kills, deals, credit, penalty, bury. cbv zeta.
  rw (Nat.eqb_sym t a) (isteam_sym s (team (deref t s))).
  remember (isteam s (team (deref a s)) (team (deref t s))) as ally eqn:Ha. symmetry in Ha.
  rw !pair_eq. intros ((((D1&D2)&D3)&D4)&D5) (D6&D7) (((((D8&D9)&D10)&D11)&D12)&D13). revert D1 D2 D3 D4 D5 D6 D7 D8 D9 D10 D11 D12 D13.
  destruct (decide (k = a)) as [Ea|Ea]; [apply Nat.eqb_eq in Ea|apply Nat.eqb_neq in Ea];
    (destruct (decide (k = t)) as [Et|Et]; [apply Nat.eqb_eq in Et|apply Nat.eqb_neq in Et]).
  all: destruct died, (a =? t)%nat eqn:Eat, ally; cbn -[Z.add Z.succ]; intros.
  all: constructor; rw ?(Nat.eqb_sym t a) ?Eat ?(isteam_sym s (team (deref t s))) ?Ha ?Ea ?Et;
    cbn [negb andb b2z]; split_and?; try done; try lia.
Qed.

Lemma tallied_unnoted (s : server) t a d died k c c1 c' :
  without_notes c1 = without_notes c -> tallied s t a d died k c1 c' -> tallied s t a d died k c c'.
Proof.
  intros E [H1 H2 H3 H4 H5 H6 H7 H8].
  assert (ci_state c1 = ci_state c) as Es by exact (f_equal ci_state E).
  rw Es in H1 H2 H3 H4 H5 H6 H7 H8. constructor; [assumption..|].
  pose proof (f_equal (fun c : clientinfo => (name c, team c, events c)) E) as Er. injection Er as E1 E2 E3.
  by rw -E1 -E2 -E3.
Qed.

(** C20: the accounting of a hit, in every mode, as long as the scripts change neither
    clients nor configuration when they are told of it.  The hit does not count when a
    listener of the event "damage" refuses it, or when the cheat detector is on and the
    distance of the two is beyond the range of the gun and fifty units more: then no
    client changes, but for the notes of the detector.  Otherwise, for every client:
    damage is credited to the actor only against an enemy; the target dies exactly when
    the damage its armour let through leaves it no health, and then dies once:
    one death, one suicide when it did it itself, one team kill when it was an
    ally, one frag gained or lost by the actor, nothing for anyone else.  A target that
    survives keeps the rest of its health and armour. *)
Theorem dodamage_accounting {hooks : Hooks} (t a : nat) (d gun : Z) (push : vec) (s : server) :
  HooksRespect (eq_on (heap_view (fun c => c))) -> HooksRespect (eq_on sv_config) ->
  is_Some (ci_heap s !! t) ->
  let hit := (fps_dodamage d (deref t s)).2 in
  let s' := exec (dodamage t a d gun push) s in
  if vetoed t a d gun push s || out_of_range t a gun s
  then forall k, without_notes (deref k s') = without_notes (deref k s)
  else
    (0 < health hit -> fps (deref t s') = hit) /\
    forall k, is_Some (ci_heap s !! k) -> tallied s t a d (health hit <=? 0) k (deref k s) (deref k s').
Proof.
  intros Hh Hc Ht. pose proof (dodamage_cases t a d gun push s Hc) as Hcases. cbv zeta in *.
  destruct (_ || _); [intros k; exact (heap_view_deref without_notes _ _ k Hcases)|].
  destruct Hcases as (s1&E&->).
  assert (forall k, without_notes (deref k s1) = without_notes (deref k s)) as Ed
    by exact (fun k => heap_view_deref without_notes _ _ k E).
  assert (forall k, without_notes <$> ci_heap s1 !! k = without_notes <$> ci_heap s !! k) as El.
  { intros k. injection E as E _. by rw -!lookup_fmap E. }
  assert (is_Some (ci_heap s1 !! t)) as Ht1.
  { specialize (El t). destruct Ht as [c Hk]. rw Hk in El. by destruct (ci_heap s1 !! t). }
  assert (match_view s1 = match_view s) as Em by (unfold heap_view in E; congruence).
  assert (team_view s1 = team_view s) as Etv.
  { unfold heap_view. f_equal; [|done]. apply map_eq. intros k. rw !lookup_fmap. specialize (El k).
    destruct (ci_heap s1 !! k), (ci_heap s !! k); try done. exact (f_equal (fmap (M := option) team) El). }
  assert (fps (deref t s1) = fps (deref t s)) as Ef by exact (f_equal (fun c : clientinfo => fps c) (Ed t)).
  split.
  - intros Hp. destruct (hurt_fps t a d gun push s1 Ht1) as [E1 E2]. rw Ef in E1 E2. rw -E2.
    unfold inflict. rw exec_bind E1. by rewrite -> (proj2 (Z.leb_gt _ _)) by lia.
  - intros k [c Hk]. apply tallied_unnoted with (deref k s1); [apply Ed|].
    destruct (effect_inflict t a d gun push s1 Ht1) as [_ Hi]. specialize (Hi k).
    rw (isteam_view t a s1 s) // (isteam_view a t s1 s) // in Hi.
    rw (fragvalue_view t a s1 s) // (friends_enemies_view a s1 s) // Ef in Hi.
    assert (gamemillis s1 = gamemillis s) as E2 by (injection Em; congruence). rw E2 in Hi.
    specialize (El k). rw Hk in El. destruct (ci_heap s1 !! k) as [c1|] eqn:Hk1; [|done].
    cbn [fmap option_fmap option_map compose] in Hi.
    assert (deref k s1 = c1) as -> by (unfold deref; by rw Hk1).
    destruct (ci_heap (exec (inflict t a d gun push) s1) !! k) as [c'|] eqn:Hk'; [|done].
    assert (deref k (exec (inflict t a d gun push) s1) = c') as -> by (unfold deref; by rw Hk').
    apply (inj Some) in Hi.
    apply tallied_of_effect. exact Hi.
Qed.

(** With the detector as it is by default. *)
Lemma dodamage_accounting_witness :
  let s := sample_server 5 [good; evil] <| sv_config ::= {{ anti_cheat_enabled := true }} |> in
  let s' := exec (dodamage (hooks := no_hooks) 1 0 100 GUN_RIFLE vec0) s in
  (frags (deref 0 s'), damage (deref 0 s'), deaths (deref 1 s'), state (deref 1 s')) = (1, 100, 1, CS_DEAD).
Proof.
  destruct (dodamage_accounting (hooks := no_hooks) 1 0 100 GUN_RIFLE vec0
    (sample_server 5 [good; evil] <| sv_config ::= {{ anti_cheat_enabled := true }} |>)
    _ _ ltac:(by eexists)) as [_ H].
  pose proof (H 0%nat ltac:(by eexists)) as [H1 _ _ _ H2 _ _ _].
  pose proof (H 1%nat ltac:(by eexists)) as [_ H3 _ _ _ H4 _ _]. cbv zeta.
  rewrite -> H1, H2, H3, H4. reflexivity.
Defined.
(** Out of range nothing happens to the target. *)
Example shot_from_afar :
  let s := sample_server 5 [good; evil] <| sv_config ::= {{ anti_cheat_enabled := true }} |>
    <| sv_roster ::= {{ ci_heap ::= alter {{ ci_state ::= {{ pos := mkvec (f32_of_int 400) f32_zero f32_zero }} }} 0%nat }} |>
    <| sv_roster ::= {{ ci_heap ::= alter {{ ci_state ::= {{ pos := vec0 }} }} 1%nat }} |> in
  let s' := exec (dodamage (hooks := no_hooks) 1 0 100 GUN_FIST vec0) s in
  health (deref 1 s') = health (deref 1 s) /\ deaths (deref 1 s') = 0.
Proof. vm_compute. done. Qed.

(** * What fighting leaves alone *)

(** A client without what damage may change. *)
Definition fight_free (c : clientinfo) : clientinfo := Eval cbv -[f32_zero anticheat0 fpsstate0] in
  (fight_core c <| ac := anticheat0 |> <| ci_state ::= fun gs => gs
    <| deaths := 0 |> <| suicides := 0 |> <| teamkills := 0 |> <| frags := 0 |>
    <| effectiveness := f32_zero |> <| damage := 0 |> <| state := CS_DEAD |>
    <| lastdeath := 0 |> <| deadflush := 0 |> |>).
Section fight_frame.
Context {hooks : Hooks} {Hh : HooksRespect (eq_on (heap_view (fun c => c)))}.
Context {A : Type} (g : clientinfo -> A) (Hg : forall c, g (fight_free c) = g c).

#[local] Instance hooks_g : HooksRespect (eq_on (heap_view g)).
Proof using Hh. by apply hooks_heap_view. Qed.
#[local] Instance mode_g : ModeFrame (heap_view g).
Proof using Hg. apply heap_view_mode. intros c. exact (eq_trans (eq_sym (Hg (mode_core c))) (Hg c)). Qed.

Lemma fight_frame_upd ci f :
  (forall c, fight_free (f c) = fight_free c) -> respects (eq_on (heap_view g)) (upd_ci ci f).
Proof using Hg. intros Hf. apply heap_view_frame. intros c.
  rewrite <- (Hg (f c)), (Hf c). apply Hg.
Qed.
#[local] Hint Extern 1 (respects _ (upd_ci _ _)) => apply fight_frame_upd; done : respects.
#[local] Hint Extern 1 (respects _ (upd_gs _ _)) => apply fight_frame_upd; done : respects.
#[local] Hint Extern 1 (respects _ (upd_ac _ _)) => apply fight_frame_upd; done : respects.

Lemma setpushed_frame ci : respects (eq_on (heap_view g)) (setpushed ci).
Proof using Hg. unfold setpushed. cbv zeta. solve_respects. Qed.
#[local] Hint Resolve setpushed_frame : respects.
Lemma with_died_frame t a : respects (eq_on (heap_view g)) (with_smode (fun m => sm_died m t a)).
Proof using Hg Hh. apply respects_with_smode; [apply _|]. intros. apply mr_died. Qed.
#[local] Hint Resolve with_died_frame : respects.
Lemma inflict_frame t a d gun push : respects (eq_on (heap_view g)) (inflict t a d gun push).
Proof using Hg Hh.
  assert (respects (eq_on (heap_view g)) (die t a)).
  { unfold die, add_teamfrags. cbv zeta. solve_respects. }
  unfold inflict, hurt. cbv zeta. solve_respects.
Qed.
#[local] Hint Resolve inflict_frame : respects.
Lemma dodamage_frame t a d gun push : respects (eq_on (heap_view g)) (dodamage t a d gun push).
Proof using Hg Hh. unfold dodamage, ac_damage, out_of_gun_distance_range. cbv zeta. solve_respects. Qed.
End fight_frame.
