(* ===== verification/Events.v ===== *)
(** The queued events of a client: shots, explosions, suicides and items
    (fpsgame/server.cpp [shotevent::process] .. [cleartimedevents]).

    The events a client sends are queued with the client's own times and run
    when the match time has reached them. *)
From S2P Require Import Prelude Wire Text Float32 Game Random State Engine Intermission Servmode Roster Items Cheat Combat.

Section events.
Context {hooks : Hooks}.

Definition quad_factor (gs : gamestate) : Z := if quadmillis gs =? 0 then 1 else 4.
Definition upd_rockets (ci : nat) (f : projectilestate -> projectilestate) := upd_gs ci {{ rockets ::= f }}.
Definition upd_grenades (ci : nat) (f : projectilestate -> projectilestate) := upd_gs ci {{ grenades ::= f }}.

(** The target of a hit, if the hit still applies to its present life. *)
Definition hit_target (h : hitinfo) (s : server) : option nat :=
  ci ← getinfo (target h) s;
  if cs_eqb (state (deref ci s)) CS_ALIVE && (hit_lifesequence h =? lifesequence (deref ci s))
  then Some ci else None.
Definition count_hit (ci target_ : nat) : M server unit :=
  upd_gs ci {{ hits ::= fun n => n + if (ci =? target_)%nat then 0 else 1 }}.

(** [int(damage*(1-dist/EXP_DISTSCALE/exprad))]. *)
Definition splash_damage (damage_ : Z) (dist_ : f32) (exprad : Z) : Z :=
  f32_to_int (fmul (f32_of_int damage_)
    (fsub (f32_of_int 1) (fdiv (fdiv dist_ (f32_lit 3 (-1))) (f32_of_int exprad)))).
Definition explode_hit (ci : nat) (gun : Z) (earlier : list hitinfo) (h : hitinfo) : M server unit :=
  s <- get_server ;;
  match hit_target h s with
  | None => ret tt
  | Some t =>
    if flt (dist h) f32_zero || fgt (dist h) (f32_of_int (gi_exprad (guninfo_of gun))) then ret tt else
    if existsb (fun e => target e =? target h) earlier then ret tt else
    count_hit ci t ;;
    let damage_ := gi_damage (guninfo_of gun) * quad_factor (deref ci s) in
    let damage_ := splash_damage damage_ (dist h) (gi_exprad (guninfo_of gun)) in
    let damage_ := if (t =? ci)%nat then damage_ ÷ EXP_SELFDAMDIV else damage_ in
    dodamage t ci damage_ gun (dir h)
  end.
Fixpoint explode_hits (ci : nat) (gun : Z) (earlier hs : list hitinfo) : M server unit :=
  match hs with
  | [] => ret tt
  | h :: hs => explode_hit ci gun earlier h ;; explode_hits ci gun (earlier ++ [h]) hs
  end.
Definition explode_process (ci : nat) (id gun : Z) (hs : list hitinfo) : M server unit :=
  s <- get_server ;;
  let gs := ci_state (deref ci s) in
  let go remove :=
    remove ;;
    upd_gs ci {{ explosivedamage ::= fun n => n + gi_damage (guninfo_of gun) * quad_factor gs }} ;;
    sendfx (-1) 1 (ownernum (deref ci s))
      (message N_EXPLODEFX [FInt (clientnum (deref ci s)); FInt gun; FInt id]) ;;
    explode_hits ci gun [] hs in
  if gun =? GUN_RL then
    let '(found, l) := proj_remove id (rockets gs) in
    if (found : bool) then go (upd_rockets ci (fun _ => l)) else ret tt
  else if gun =? GUN_GL then
    let '(found, l) := proj_remove id (grenades gs) in
    if (found : bool) then go (upd_grenades ci (fun _ => l)) else ret tt
  else ret tt.

(** One hit of a shot; the result is the new [totalrays]. *)
Definition shot_hit (ci : nat) (gun totalrays : Z) (h : hitinfo) : M server Z :=
  s <- get_server ;;
  match hit_target h s with
  | None => ret totalrays
  | Some t =>
    if (rays h <? 1) || fgt (dist h) (f32_of_int (gi_range (guninfo_of gun) + 1)) then ret totalrays else
    let totalrays := to_int (totalrays + rays h) in
    if gi_rays (guninfo_of gun) <? totalrays then ret totalrays else
    count_hit ci t ;;
    let damage_ := to_int (rays h * gi_damage (guninfo_of gun)) in
    let damage_ := to_int (damage_ * quad_factor (deref ci s)) in
    dodamage t ci damage_ gun (dir h) ;; ret totalrays
  end.
Fixpoint shot_hits (ci : nat) (gun totalrays : Z) (hs : list hitinfo) : M server unit :=
  match hs with
  | [] => ret tt
  | h :: hs => n <- shot_hit ci gun totalrays h ;; shot_hits ci gun n hs
  end.

(** The guard of [shotevent::process]. *)
Definition can_shoot (ci : nat) (millis gun : Z) (from to : vec) (s : server) : bool :=
  let gs := ci_state (deref ci s) in
  let range := gi_range (guninfo_of gun) in
  isalive (gamemillis s) gs && (gunwait gs <=? to_int (millis - lastshot gs)) &&
  (GUN_FIST <=? gun) && (gun <=? GUN_PISTOL) && (0 <? get_ammo gs gun) &&
  negb (negb (range =? 0) && fgt (vec_dist from to) (f32_of_int (range + 1))).
Definition scaled (x : f32) : Z := f32_to_int (fmul x DMF).
(** The parts of [shotevent::process]: firing, landing, tallying. *)
Definition shot_fire (ci : nat) (millis id gun : Z) (from to : vec) : M server unit :=
  s <- get_server ;;
  when (negb (gun =? GUN_FIST)) (upd_gs ci {{ fps ::= fun st => set_ammo gun (get_ammo st gun - 1) st }}) ;;
  upd_gs ci {{ lastshot := millis }} ;;
  upd_gs ci {{ fps ::= fun st => st <| gunwait := gi_attackdelay (guninfo_of gun) |> }} ;;
  sendfx (-1) 1 (ownernum (deref ci s)) (message N_SHOTFX
    [FInt (clientnum (deref ci s)); FInt gun; FInt id;
     FInt (scaled (vx from)); FInt (scaled (vy from)); FInt (scaled (vz from));
     FInt (scaled (vx to)); FInt (scaled (vy to)); FInt (scaled (vz to))]) ;;
  upd_gs ci {{ shotdamage ::= fun n =>
    n + gi_damage (guninfo_of gun) * quad_factor (deref ci s) * gi_rays (guninfo_of gun) }} ;;
  upd_gs ci {{ shots ::= Z.succ }}.
Definition shot_land (ci : nat) (id gun : Z) (hs : list hitinfo) : M server unit :=
  if gun =? GUN_RL then upd_rockets ci (proj_add 8 id)
  else if gun =? GUN_GL then upd_grenades ci (proj_add 8 id)
  else shot_hits ci gun 0 hs.
Definition shot_tally (ci : nat) (gun old_hits : Z) : M server unit :=
  s <- get_server ;;
  upd_gs ci {{ misses ::= fun n => n + if hits (deref ci s) - old_hits =? 0 then 1 else 0 }} ;;
  fire "shot" [AInt (clientnum (deref ci s)); AInt gun; AInt (hits (deref ci s) - old_hits)] ;; ret tt.
Definition shot_process (ci : nat) (millis id gun : Z) (from to : vec) (hs : list hitinfo) : M server unit :=
  s <- get_server ;;
  if negb (can_shoot ci millis gun from to s) then ret tt else
  shot_fire ci millis id gun from to ;;
  s <- get_server ;;
  let old_hits := hits (deref ci s) in
  shot_land ci id gun hs ;;
  shot_tally ci gun old_hits.

Definition pickup_process (ci : nat) (ent : Z) : M server unit :=
  s <- get_server ;;
  if m_mp (gamemode s) && negb (isalive (gamemillis s) (deref ci s)) then ret tt
  else pickup ent (clientnum (deref ci s)) ;; ret tt.

(** [process], and [flush] of an event and of a timed event. *)
Definition process (ci : nat) (e : gameevent) : M server unit :=
  match e with
  | shotevent millis id gun from to hs => shot_process ci millis id gun from to hs
  | explodeevent _ id gun hs => explode_process ci id gun hs
  | suicideevent => suicide ci
  | pickupevent ent => pickup_process ci ent
  end.
Definition event_millis (e : gameevent) : option Z :=
  match e with
  | shotevent millis _ _ _ _ _ | explodeevent millis _ _ _ => Some millis
  | _ => None
  end.
Definition flush (ci : nat) (fmillis : Z) (e : gameevent) : M server bool :=
  match event_millis e with
  | None => process ci e ;; ret true
  | Some millis =>
    s <- get_server ;;
    if fmillis <? millis then ret false
    else if lastevent (deref ci s) <=? millis
    then upd_ci ci {{ lastevent := millis }} ;; process ci e ;; ret true
    else ret true
  end.
(** [events.remove(0)]. *)
Definition clearevent (ci : nat) : M server unit := upd_ci ci {{ events ::= tail }}.

(** [while(ci->events.length())]; an event can only leave the queue, so its
    length is fuel enough (theorem [flushevents_drains]). *)
Fixpoint flushevents_loop (fuel : nat) (ci : nat) (millis : Z) : M server unit :=
  s <- get_server ;;
  match events (deref ci s), fuel with
  | ev :: _, S fuel =>
    done_ <- flush ci millis ev ;;
    if (done_ : bool) then clearevent ci ;; flushevents_loop fuel ci millis else ret tt
  | _, _ => ret tt
  end.
Definition flushevents (ci : nat) (millis : Z) : M server unit :=
  s <- get_server ;; flushevents_loop (length (events (deref ci s))) ci millis.

Definition tick_quad (curtime_ : Z) (st : fpsstate) : fpsstate :=
  if (0 <? curtime_) && negb (quadmillis st =? 0)
  then st <| quadmillis := tmax (quadmillis st - curtime_) 0 |> else st.
Definition processevents : M server unit :=
  s <- get_server ;;
  forM (clients s) (fun ci =>
    s <- get_server ;;
    upd_gs ci {{ fps ::= tick_quad (curtime s) }} ;;
    flushevents ci (gamemillis s)).

(** The loop of [cleartimedevents], with its index [i] and [keep]; the events
    past [keep] are dropped at its end. *)
Fixpoint keep_loop (fuel : nat) (i keep : nat) (es : list gameevent) : list gameevent :=
  match fuel, es !! i with
  | S fuel, Some e =>
    if keepable e then
      let '(i, es) := if (keep <? i)%nat then (keep, take keep es ++ drop i es) else (i, es) in
      keep_loop fuel (S i) (S i) es
    else keep_loop fuel (S i) keep es
  | _, _ => take keep es
  end.
Definition cleartimedevents (c : clientinfo) : clientinfo :=
  c <| events ::= fun es => keep_loop (length es) 0 0 es |> <| timesync := false |>.
End events.

(** A client without what any event may change. *)
Definition event_free (c : clientinfo) : clientinfo := Eval cbv -[gamestate0 anticheat0] in
  (fight_free c <| ci_state := gamestate0 |>).


Section event_frame.
Context {hooks : Hooks} {Hh : HooksRespect (eq_on (heap_view (fun c => c)))}.
Context {A : Type} (g : clientinfo -> A) (Hg : forall c, g (event_free c) = g c).

#[local] Instance hooks_g' : HooksRespect (eq_on (heap_view g)).
Proof using Hh. by apply hooks_heap_view. Qed.
Lemma event_fight_free c : g (fight_free c) = g c.
Proof using Hg. exact (eq_trans (eq_sym (Hg (fight_free c))) (Hg c)). Qed.
#[local] Instance mode_g' : ModeFrame (heap_view g).
Proof using Hg. apply heap_view_mode. intros c. exact (eq_trans (eq_sym (Hg (mode_core c))) (Hg c)). Qed.

Lemma event_frame_upd ci f :
  (forall c, event_free (f c) = event_free c) -> respects (eq_on (heap_view g)) (upd_ci ci f).
Proof using Hg. intros Hf. apply heap_view_frame. intros c. rewrite <- (Hg (f c)), (Hf c). apply Hg. Qed.
#[local] Hint Extern 1 (respects _ (upd_ci _ _)) => apply event_frame_upd; done : respects.
#[local] Hint Extern 1 (respects _ (upd_gs _ _)) => apply event_frame_upd; done : respects.
#[local] Hint Extern 1 (respects _ (dodamage _ _ _ _ _)) =>
  apply (dodamage_frame g event_fight_free) : respects.
#[local] Hint Extern 1 (respects _ (with_smode _)) =>
  apply (with_died_frame g event_fight_free) : respects.

Lemma suicide_frame ci : respects (eq_on (heap_view g)) (suicide ci).
Proof using Hg Hh. unfold suicide, add_teamfrags. cbv zeta. solve_respects. Qed.
Lemma count_hit_frame ci t : respects (eq_on (heap_view g)) (count_hit ci t).
Proof using Hg. unfold count_hit. solve_respects. Qed.
#[local] Hint Resolve suicide_frame count_hit_frame : respects.
Lemma explode_frame ci id gun hs : respects (eq_on (heap_view g)) (explode_process ci id gun hs).
Proof using Hg Hh.
  assert (forall l k, respects (eq_on (heap_view g)) (explode_hits ci gun l k)).
  { intros l k. revert l. induction k as [|h k IH]; intros l; cbn [explode_hits]; [solve_respects|].
    unfold explode_hit. cbv zeta. solve_respects. }
  unfold explode_process, upd_rockets, upd_grenades. cbv zeta. solve_respects.
Qed.
Lemma shot_frame ci m id gun o t hs : respects (eq_on (heap_view g)) (shot_process ci m id gun o t hs).
Proof using Hg Hh.
  assert (forall n k, respects (eq_on (heap_view g)) (shot_hits ci gun n k)).
  { intros n k. revert n. induction k as [|h k IH]; intros n; cbn [shot_hits]; [solve_respects|].
    unfold shot_hit. cbv zeta. solve_respects. }
  unfold shot_process, shot_fire, shot_land, shot_tally, upd_rockets, upd_grenades. cbv zeta. solve_respects.
Qed.
Lemma pickup_frame ci e : respects (eq_on (heap_view g)) (pickup_process ci e).
Proof using Hg. unfold pickup_process, pickup, upd_sent. cbv zeta. solve_respects. Qed.
Lemma process_frame ci e : respects (eq_on (heap_view g)) (process ci e).
Proof using Hg Hh. destruct e; [apply shot_frame|apply explode_frame|apply suicide_frame|apply pickup_frame]. Qed.
End event_frame.

(** * The event queue *)

(** The events that are due at [fmillis] and those that have to wait: a timed
    event that is not due yet holds back all events after it. *)
Fixpoint split_due (fmillis : Z) (es : list gameevent) : list gameevent * list gameevent :=
  match es with
  | [] => ([], [])
  | e :: es' =>
    if (if event_millis e is Some m then m <=? fmillis else true)
    then let '(due, rest) := split_due fmillis es' in (e :: due, rest)
    else ([], es)
  end.
(** Which of the due events run: a timed event older than the last that ran is
    dropped. *)
Fixpoint schedule (last_ : Z) (es : list gameevent) : list (gameevent * bool) :=
  match es with
  | [] => []
  | e :: es =>
    match event_millis e with
    | None => (e, true) :: schedule last_ es
    | Some m => (e, last_ <=? m) :: schedule (Z.max last_ m) es
    end
  end.
Section queue.
Context {hooks : Hooks} {Hh : HooksRespect (eq_on (heap_view (fun c => c)))}.
Definition run_event (ci : nat) (er : gameevent * bool) : M server unit :=
  (if er.2
   then (if event_millis er.1 is Some m then upd_ci ci {{ lastevent := m }} else ret tt) ;; process ci er.1
   else ret tt) ;;
  clearevent ci.

(** The event queue and the time of the last event. *)
Definition queue_of (c : clientinfo) := (events c, lastevent c).
Abbreviation queue_view := (heap_view queue_of).

Lemma queue_at (s : server) ci c : ci_heap s !! ci = Some c -> forall s', queue_view s' = queue_view s ->
  exists c', ci_heap s' !! ci = Some c' /\ queue_of c' = queue_of c.
Proof.
  intros Hc s' [= E _]. pose proof (f_equal (fun m => m !! ci) E) as H. cbn in H.
  rw !lookup_fmap Hc in H. destruct (ci_heap s' !! ci) as [c'|]; [|done]. exists c'.
  split; [done|]. by apply (inj Some) in H.
Qed.

(** One event that is due: the queue loses its head. *)
Lemma run_event_queue ci e last_ es (s : server) c :
  ci_heap s !! ci = Some c -> queue_of c = (e :: es, last_) ->
  forall b, exists c', ci_heap (exec (run_event ci (e, b)) s) !! ci = Some c' /\
    queue_of c' = (es, if b then default last_ (event_millis e) else last_).
Proof using Hh.
  intros Hc Hq b. unfold run_event. rw exec_bind. cbn [fst snd].
  set (mark := if event_millis e is Some m then upd_ci ci {{ lastevent := m }} else ret tt).
  assert (exists c1, ci_heap (exec mark s) !! ci = Some c1 /\
            queue_of c1 = (e :: es, default last_ (event_millis e))) as (c1&Hc1&Hq1).
  { unfold mark. injection Hq as Hq1 Hq2. destruct (event_millis e) as [m|].
    - eexists. split; [simpl; by rw lookup_alter_eq Hc|]. unfold queue_of. simpl. by rw Hq1.
    - exists c. split; [done|]. unfold queue_of. by rw Hq1 Hq2. }
  assert (exists c2, ci_heap (exec (if b then mark ;; process ci e else ret tt) s) !! ci = Some c2 /\
            queue_of c2 = (e :: es, if b then default last_ (event_millis e) else last_)) as (c2&Hc2&Hq2).
  { destruct b; [|by exists c]. rw exec_bind. rw -Hq1. apply (queue_at _ _ _ Hc1).
    symmetry. by apply (process_frame queue_of). }
  set (s2 := exec _ s) in *. eexists. split; [simpl; by rw lookup_alter_eq Hc2|].
  injection Hq2 as E1 E2. unfold queue_of. simpl. by rw E1 E2.
Qed.

(** What [flush] does with the event at the head. *)
Lemma flush_spec ci m e (s : server) :
  let last_ := lastevent (deref ci s) in
  if (if event_millis e is Some m' then m' <=? m else true)
  then exists b, schedule last_ [e] = [(e, b)] /\
    eval (flush ci m e) s = true /\
    exec (clearevent ci) (exec (flush ci m e) s) = exec (run_event ci (e, b)) s
  else eval (flush ci m e) s = false /\ exec (flush ci m e) s = s.
Proof.
  cbv zeta. unfold flush, run_event, schedule. destruct (event_millis e) as [m'|] eqn:Em.
  - rw (eval_bind get_server) (exec_bind get_server). cbn [eval exec get_server gets fst snd id].
    rw Z.leb_antisym. destruct (m <? m'); cbn [negb]; [done|].
    eexists. split; [done|]. destruct (lastevent (deref ci s) <=? m'); cbn [fst snd]; rw !exec_bind ?Em;
      (split; [by rw ?eval_bind|done]).
  - exists true. split; [done|]. cbn [fst snd]. rw ?Em !exec_bind. split; [by rw eval_bind|done].
Qed.

Lemma flushevents_loop_spec ci m : forall es fuel last_ (s : server) c,
  ci_heap s !! ci = Some c -> queue_of c = (es, last_) -> (length es <= fuel)%nat ->
  exec (flushevents_loop fuel ci m) s = exec (forM (schedule last_ (split_due m es).1) (run_event ci)) s /\
  events (deref ci (exec (flushevents_loop fuel ci m) s)) = (split_due m es).2.
Proof using Hh.
  induction es as [|e es IH]; intros fuel last_ s c Hc Hq Hf.
  { assert (events (deref ci s) = []) as E by (unfold deref; rw Hc; by injection Hq).
    assert (exec (flushevents_loop fuel ci m) s = s) as ->; [|done].
    destruct fuel; cbn [flushevents_loop]; rw (exec_bind get_server);
      cbn [eval exec get_server gets fst snd id]; by rw E. }
  destruct fuel as [|fuel]; [cbn in Hf; lia|]. apply le_S_n in Hf.
  assert (events (deref ci s) = e :: es /\ lastevent (deref ci s) = last_) as [E1 E2]
    by (unfold deref; rw Hc; by injection Hq).
  cbn [flushevents_loop]. rw (exec_bind get_server). cbn [eval exec get_server gets fst snd id].
  rw E1. cbn [split_due]. pose proof (flush_spec ci m e s) as Hfl. rw E2 in Hfl. cbv zeta in Hfl.
  rw exec_bind. destruct (if event_millis e is Some m' then m' <=? m else true).
  - destruct Hfl as (b&Eb&->&Er). rw (exec_bind (clearevent ci)) Er.
    destruct (run_event_queue ci e last_ es s c Hc Hq b) as (c'&Hc'&Hq').
    destruct (IH fuel _ _ c' Hc' Hq' Hf) as [-> ->]. destruct (split_due m es) as [du re]. cbn [fst snd].
    split; [|done]. replace (schedule last_ (e :: du))
      with ((e, b) :: schedule (if b then default last_ (event_millis e) else last_) du); [by rw /= exec_bind|].
    revert Eb. cbn [schedule]. destruct (event_millis e) as [m'|]; intros [= <-]; [|done]. f_equal. f_equal.
    destruct (Z.leb_spec last_ m'); cbn; lia.
  - destruct Hfl as [-> ->]. cbn [fst snd]. split; [done|exact E1].
Qed.
End queue.

(** * One shot *)

(** The marksmanship of a client. *)
Definition aim_of (c : clientinfo) := (shots c, hits c, misses c, lastshot c).
Abbreviation aim_view := (heap_view aim_of).
Definition add_hits (n : Z) (x : Z * Z * Z * Z) := let '(a, h, m, l) := x in (a, h + n, m, l).

Lemma alter_add_hits n n' ci (m : gmap nat (Z * Z * Z * Z)) :
  alter (add_hits n') ci (alter (add_hits n) ci m) = alter (add_hits (n + n')) ci m.
Proof.
  rw alter_alter_eq. apply alter_ext. intros [[[a h] x] l] _. unfold compose, add_hits. by rw Z.add_assoc.
Qed.
Lemma alter_add_hits_0 ci (m : gmap nat (Z * Z * Z * Z)) : alter (add_hits 0) ci m = m.
Proof. apply alter_id. intros [[[a h] x] l] _. unfold add_hits. by rw Z.add_0_r. Qed.

Section shot.
Context {hooks : Hooks} {Hh : HooksRespect (eq_on (heap_view (fun c => c)))}.

(** The rays a shot claims, as the source sums them up. *)
Definition claimed (hs : list hitinfo) : Z := foldr (fun h n => Z.max 0 (rays h) + n) 0 hs.

Lemma shot_hit_spec ci gun n h (s : server) :
  0 <= n -> n + Z.max 0 (rays h) <= INT_MAX ->
  let n' := eval (shot_hit ci gun n h) s in
  exists d, 0 <= d /\ n <= n' <= n + Z.max 0 (rays h) /\
    d <= Z.max 0 (gi_rays (guninfo_of gun) - n) - Z.max 0 (gi_rays (guninfo_of gun) - n') /\
    aim_view (exec (shot_hit ci gun n h) s) =
      (alter (add_hits d) ci (aim_of <$> ci_heap s), match_view s).
Proof using Hh.
  intros Hn Hmax. cbv zeta. unfold shot_hit. rw (eval_bind get_server) (exec_bind get_server).
  cbn [eval exec get_server gets fst snd id].
  assert (exists d, 0 <= d /\ n <= n <= n + Z.max 0 (rays h) /\
    d <= Z.max 0 (gi_rays (guninfo_of gun) - n) - Z.max 0 (gi_rays (guninfo_of gun) - n) /\
    aim_view s = (alter (add_hits d) ci (aim_of <$> ci_heap s), match_view s)) as Hstay.
  { exists 0. split_and!; try lia. by rw alter_add_hits_0. }
  destruct (hit_target h s) as [t|]; [|exact Hstay]. cbv zeta.
  destruct ((rays h <? 1) || _) eqn:Hr; [exact Hstay|]. apply orb_false_iff in Hr as [Hr%Z.ltb_ge _].
  rewrite -> to_int_id by (unfold is_int, INT_MIN; lia).
  destruct (Z.ltb_spec (gi_rays (guninfo_of gun)) (n + rays h)).
  { cbn [eval exec ret fst snd]. exists 0. split_and!; try lia. by rw alter_add_hits_0. }
  rw (eval_bind (count_hit ci t)) (exec_bind (count_hit ci t)) eval_bind exec_bind.
  cbn [eval exec ret fst snd]. exists (if (ci =? t)%nat then 0 else 1).
  split_and!; try (destruct (ci =? t)%nat; lia).
  assert (respects (eq_on aim_view) (dodamage t ci (to_int (to_int (rays h * gi_damage (guninfo_of gun)) *
    quad_factor (deref ci s))) gun (dir h))) as Hd by by apply dodamage_frame.
  rw -Hd. clear. unfold count_hit, upd_gs. by apply heap_view_upd.
Qed.

Lemma shot_hits_spec ci gun hs : forall n (s : server), 0 <= n -> n + claimed hs <= INT_MAX ->
  exists d, 0 <= d <= Z.max 0 (gi_rays (guninfo_of gun) - n) /\
    aim_view (exec (shot_hits ci gun n hs) s) =
      (alter (add_hits d) ci (aim_of <$> ci_heap s), match_view s).
Proof using Hh.
  induction hs as [|h hs IH]; intros n s Hn Hmax; cbn [shot_hits].
  { exists 0. split; [lia|]. by rw alter_add_hits_0. }
  assert (0 <= claimed hs) as Hc by (clear; unfold claimed; induction hs; cbn; lia).
  assert (claimed (h :: hs) = Z.max 0 (rays h) + claimed hs) as Ec by done.
  destruct (shot_hit_spec ci gun n h s Hn) as (d&Hd&Hn'&Hle&Hv); [lia|].
  rw exec_bind. destruct (IH (eval (shot_hit ci gun n h) s) (exec (shot_hit ci gun n h) s))
    as (d'&Hd'&Hv'); [lia..|].
  exists (d + d'). split; [lia|]. rw Hv'. injection Hv as -> E1 E2 E3 E4 E5 E6 E7.
  rw alter_add_hits. unfold match_view. congruence.
Qed.

(** [aims ci F m s]: run in [s], [m] changes the marksmanship of [ci] by [F]. *)
Definition aims {A} (ci : nat) (F : Z * Z * Z * Z -> Z * Z * Z * Z) (m : M server A) (s : server) : Prop :=
  aim_view (exec m s) = (alter F ci (aim_of <$> ci_heap s), match_view s).
Lemma aims_frame {A} ci (m : M server A) s : respects (eq_on aim_view) m -> aims ci (fun x => x) m s.
Proof. intros Hm. unfold aims. rw -Hm. unfold heap_view. f_equal. symmetry. by apply alter_id. Qed.
Lemma aims_bind {A B} ci F G (m : M server A) (n : A -> M server B) s :
  aims ci F m s -> aims ci G (n (eval m s)) (exec m s) -> aims ci (fun x => G (F x)) (bind m n) s.
Proof.
  unfold aims. intros Hm Hn. rw exec_bind Hn. injection Hm as -> E1 E2 E3 E4 E5 E6 E7.
  rw alter_alter_eq. unfold match_view. f_equal; congruence.
Qed.
Lemma aims_skip {A B} ci G (m : M server A) (n : A -> M server B) s :
  respects (eq_on aim_view) m -> aims ci G (n (eval m s)) (exec m s) -> aims ci G (bind m n) s.
Proof. intros Hm Hn. apply (aims_bind ci (fun x => x) G); [by apply aims_frame|done]. Qed.
Lemma aims_self {A} ci F (m : M server A) (s : server) c :
  ci_heap s !! ci = Some c -> aims ci F m s ->
  exists c', ci_heap (exec m s) !! ci = Some c' /\ aim_of c' = F (aim_of c).
Proof.
  intros Hc [= E _]. pose proof (f_equal (fun m => m !! ci) E) as H. cbn in H.
  rw lookup_fmap lookup_alter_eq lookup_fmap Hc in H.
  destruct (ci_heap (exec m s) !! ci) as [c'|]; [|done]. exists c'. split; [done|]. by apply (inj Some) in H.
Qed.
Lemma aims_other {A} ci F (m : M server A) (s : server) k :
  k <> ci -> aims ci F m s -> aim_of (deref k (exec m s)) = aim_of (deref k s).
Proof.
  intros Hk [= E _]. pose proof (f_equal (fun m => m !! k) E) as H. cbn in H.
  rw lookup_fmap in H. rewrite -> lookup_alter_ne in H by done. rw lookup_fmap in H.
  unfold deref. destruct (ci_heap (exec m s) !! k), (ci_heap s !! k); try done. by apply (inj Some) in H.
Qed.

Lemma aims_fire ci m id_ gun from to (s : server) :
  aims ci (fun '(a, h, x, _) => (a + 1, h, x, m)) (shot_fire ci m id_ gun from to) s.
Proof.
  unfold shot_fire, aims. rw (exec_bind get_server). cbn [eval exec get_server gets fst snd id].
  match goal with |- aim_view (exec ?p s) = _ =>
    assert (aims ci (fun x => (fun '(a, h, x, l) => (Z.succ a, h, x, l)) ((fun '(a, h, x, _) => (a, h, x, m)) x))
      p s) as Ha; [|unfold aims in Ha; rw Ha] end.
  { apply aims_skip; [apply respects_when; [apply _|]; by apply heap_view_frame|].
    apply (aims_bind ci (fun '(a, h, x, _) => (a, h, x, m)) (fun '(a, h, x, l) => (Z.succ a, h, x, l))); [unfold aims, upd_gs; by apply heap_view_upd|].
    apply aims_skip; [by apply heap_view_frame|].
    apply aims_skip; [solve_respects|].
    apply aims_skip; [by apply heap_view_frame|].
    unfold aims, upd_gs. by apply heap_view_upd. }
  f_equal. apply alter_ext. intros [[[a h] x] l] _. done.
Qed.
Lemma aims_land ci id_ gun hs (s : server) :
  0 < gi_rays (guninfo_of gun) -> claimed hs <= INT_MAX ->
  exists d, 0 <= d <= gi_rays (guninfo_of gun) /\ aims ci (add_hits d) (shot_land ci id_ gun hs) s.
Proof.
  intros Hr Hcl. unfold shot_land.
  assert (forall f, (forall c, aim_of (c <| ci_state ::= f |>) = aim_of c) -> exists d,
    0 <= d <= gi_rays (guninfo_of gun) /\ aims ci (add_hits d) (upd_gs ci f) s) as Hproj.
  { intros f Hf. exists 0. split; [lia|]. unfold aims. rw alter_add_hits_0.
    symmetry. by apply (heap_view_frame aim_of). }
  destruct (gun =? GUN_RL); [by apply Hproj|]. destruct (gun =? GUN_GL); [by apply Hproj|].
  destruct (shot_hits_spec ci gun hs 0 s) as (d&Hd&Hv); [lia|lia|]. exists d. split; [lia|exact Hv].
Qed.
Lemma aims_tally ci gun old (s : server) :
  let missed := hits (deref ci s) - old =? 0 in
  aims ci (fun '(a, h, x, l) => (a, h, x + if missed then 1 else 0, l)) (shot_tally ci gun old) s.
Proof.
  cbv zeta. pose proof (hooks_heap_view aim_of Hh) as Hooks. unfold shot_tally, aims. rw (exec_bind get_server).
  cbn [eval exec get_server gets fst snd id]. rw exec_bind.
  set (s1 := exec (upd_gs ci _) s). set (n := if _ : bool then 1 else 0).
  transitivity (aim_view s1).
  - symmetry. assert (respects (eq_on aim_view) (fire "shot" [AInt (clientnum (deref ci s)); AInt gun;
      AInt (hits (deref ci s) - old)] ;; ret tt)) as Hr by solve_respects. exact (Hr s1).
  - unfold s1, upd_gs. by apply heap_view_upd.
Qed.
End shot.

(** * Properties *)

(** C21: the queue is drained in order and terminates: [flushevents] runs exactly
    the events before the first timed event that is not yet due, in the order
    they were sent, dropping those that are older than one that already ran;
    what waits stays queued.  Running an event cannot change which of the
    others run. *)
Theorem flushevents_drains {hooks : Hooks} (ci : nat) (m : Z) (s : server) (c : clientinfo) :
  HooksRespect (eq_on (heap_view (fun c => c))) -> ci_heap s !! ci = Some c ->
  let '(due, waiting) := split_due m (events c) in
  exec (flushevents ci m) s = exec (forM (schedule (lastevent c) due) (run_event ci)) s /\
  events (deref ci (exec (flushevents ci m) s)) = waiting /\
  events c = due ++ waiting /\
  (if head waiting is Some e then if event_millis e is Some m' then m < m' else False else True).
Proof.
  intros Hh Hc. unfold flushevents. rw (exec_bind get_server). cbn [eval exec get_server gets fst snd id].
  assert (deref ci s = c) as -> by (unfold deref; by rw Hc).
  destruct (flushevents_loop_spec ci m (events c) (length (events c)) (lastevent c) s c Hc eq_refl ltac:(done))
    as [E1 E2].
  destruct (split_due m (events c)) as [due waiting] eqn:Es. split_and!; [exact E1|exact E2|..].
  - clear -Es. revert due Es. induction (events c) as [|e es IH]; intros due; [by intros [= <- <-]|].
    cbn [split_due]. destruct (if event_millis e is Some _ then _ else _); [|by intros [= <- <-]].
    destruct (split_due m es) as [du re]. intros [= <- <-]. by rw (IH du).
  - clear -Es. revert due Es. induction (events c) as [|e es IH]; intros due; [by intros [= <- <-]|].
    cbn [split_due]. destruct (event_millis e) as [m'|] eqn:Em.
    + destruct (Z.leb_spec m' m); [|intros [= <- <-]; cbn; by rw Em].
      destruct (split_due m es) as [du re]. intros [= <- <-]. by apply (IH du).
    + destruct (split_due m es) as [du re]. intros [= <- <-]. by apply (IH du).
Qed.

Lemma flushevents_drains_witness :
  let shot t := shotevent t 1 GUN_PISTOL vec0 vec0 [] in
  let s := sample_server 0 [good] <| sv_roster ::= {{ ci_heap ::= alter {{ events :=
             [suicideevent; shot 5; shot 3; shot 20; suicideevent] }} 0%nat }} |> in
  events (deref 0 (exec (flushevents (hooks := no_hooks) 0 10) s)) = [shot 20; suicideevent].
Proof.
  intros shot s.
  destruct (flushevents_drains (hooks := no_hooks) 0 10 s (deref 0 s) _ eq_refl) as (_&E&_). exact E.
Defined.

Lemma keep_loop_spec : forall fuel i keep es,
  (keep <= i)%nat -> (length es - i <= fuel)%nat ->
  keep_loop fuel i keep es = take keep es ++ filter (fun e => keepable e = true) (drop i es).
Proof.
  induction fuel as [|fuel IH]; intros i keep es Hk Hf.
  { cbn [keep_loop]. rewrite -> drop_ge by lia. by rw app_nil_r. }
  cbn [keep_loop]. destruct (es !! i) as [e|] eqn:He.
  2: { apply lookup_ge_None in He. rewrite -> drop_ge by done. by rw app_nil_r. }
  rewrite -> (drop_S _ _ _ He). rw filter_cons. pose proof (lookup_lt_Some _ _ _ He) as Hl.
  destruct (keepable e); [rewrite -> decide_True by done|rewrite -> decide_False by done; by rewrite -> IH by lia].
  destruct (Nat.ltb_spec keep i).
  - rewrite -> IH; [|lia|rw length_app length_take /= length_drop; lia].
    assert (length (take keep es) = keep) as Ht by (rw length_take; lia).
    replace (take keep es ++ e :: drop (S i) es) with ((take keep es ++ [e]) ++ drop (S i) es)
      by by rw -app_assoc.
    rewrite -> take_app_length', drop_app_length' by (rw length_app /=; lia). by rw -app_assoc.
  - replace keep with i by lia. rewrite -> IH by lia. rewrite -> (take_S_r _ _ _ He). by rw -app_assoc.
Qed.

(** Clearing the timed events keeps exactly the explosions, in their
    order, and makes the client synchronise its clock again. *)
Theorem cleartimedevents_keeps (c : clientinfo) :
  events (cleartimedevents c) = filter (fun e => keepable e = true) (events c) /\
  timesync (cleartimedevents c) = false.
Proof. split; [|done]. unfold cleartimedevents. simpl. by rewrite -> keep_loop_spec by lia. Qed.

(** The marksmanship of a player.  A shot that is refused (dead, reloading, no
    such weapon, no ammunition, out of range) changes nothing at all.  One that is
    fired counts once as a shot and starts the reload, counts as a miss exactly
    when it hit nobody, and counts as at most as many hits as the weapon has
    rays, unless the rays the client claims overflow an [int]; nobody else's
    numbers change. *)
Theorem shot_accounting {hooks : Hooks} (ci : nat) (m id_ gun : Z) (from to : vec) (hs : list hitinfo)
    (s : server) (c : clientinfo) :
  HooksRespect (eq_on (heap_view (fun c => c))) -> ci_heap s !! ci = Some c -> claimed hs <= INT_MAX ->
  let s' := exec (shot_process ci m id_ gun from to hs) s in
  if can_shoot ci m gun from to s then
    exists d, 0 <= d <= gi_rays (guninfo_of gun) /\
      aim_of (deref ci s') = (shots c + 1, hits c + d, misses c + (if d =? 0 then 1 else 0), m) /\
      forall k, k <> ci -> aim_of (deref k s') = aim_of (deref k s)
  else s' = s.
Proof.
  intros Hh Hc Hcl. cbv zeta. unfold shot_process. rw (exec_bind get_server).
  cbn [eval exec get_server gets fst snd id]. destruct (can_shoot ci m gun from to s) eqn:Hcan; [|done].
  cbn [negb]. assert (deref ci s = c) as Ed by (unfold deref; by rw Hc).
  assert (0 < gi_rays (guninfo_of gun)) as Hr.
  { unfold can_shoot in Hcan. apply andb_true_iff in Hcan as [Hcan _].
    assert (0 <= gun <= 6) as Hg by (unfold GUN_FIST, GUN_PISTOL in Hcan; lia).
    assert (gun = 0 \/ gun = 1 \/ gun = 2 \/ gun = 3 \/ gun = 4 \/ gun = 5 \/ gun = 6)
      as [->|[->|[->|[->|[->|[->| ->]]]]]] by lia; done. }
  set (s1 := exec (shot_fire ci m id_ gun from to) s).
  destruct (aims_land ci id_ gun hs s1 Hr Hcl) as (d&Hd&H2). exists d. split; [done|].
  set (s2 := exec (shot_land ci id_ gun hs) s1).
  pose proof (aims_fire ci m id_ gun from to s) as H1.
  pose proof (aims_tally ci gun (hits (deref ci s1)) s2) as H3.
  rw exec_bind. fold s1. rw (exec_bind get_server). cbn [eval exec get_server gets fst snd id].
  rw exec_bind. fold s2. cbv zeta in H3.
  destruct (aims_self ci _ _ s c Hc H1) as (c1&Hc1&E1). fold s1 in Hc1.
  destruct (aims_self ci _ _ s1 c1 Hc1 H2) as (c2&Hc2&E2). fold s2 in Hc2.
  destruct (aims_self ci _ _ s2 c2 Hc2 H3) as (c3&Hc3&E3).
  unfold aim_of in E1, E2. injection E1 as A1 A2 A3 A4. injection E2 as B1 B2 B3 B4.
  assert (deref ci s1 = c1) as D1 by (unfold deref; by rw Hc1).
  assert (deref ci s2 = c2) as D2 by (unfold deref; by rw Hc2).
  split.
  - unfold deref at 1. rw Hc3. cbn [default option_rect id]. rw E3 D1 D2. unfold aim_of. cbn.
    rw B1 B2 B3 B4 A1 A2 A3 A4. do 3 f_equal. destruct (Z.eqb_spec (hits c + d - hits c) 0), (Z.eqb_spec d 0); lia.
  - intros k Hk. rewrite -> (aims_other _ _ _ s2 k Hk H3). unfold s2. rewrite -> (aims_other _ _ _ s1 k Hk H2).
    by apply (aims_other _ _ _ s k Hk H1).
Qed.

Lemma shot_accounting_witness :
  let s := sample_server 0 [good; evil] <| sv_config ::= {{ anti_cheat_enabled := false }} |> in
  let hs := [mkhit 1 0 1 (f32_of_int 5) vec0] in
  exists d, 0 <= d <= 1 /\
    aim_of (deref 0 (exec (shot_process (hooks := no_hooks) 0 100 1 GUN_FIST vec0 vec0 hs) s)) =
      (1, d, if d =? 0 then 1 else 0, 100).
Proof.
  intros s hs. pose proof (shot_accounting (hooks := no_hooks) 0 100 1 GUN_FIST vec0 vec0 hs s
    (deref 0 s) _ eq_refl ltac:(by vm_compute)) as H.
  replace (can_shoot 0 100 GUN_FIST vec0 vec0 s) with true in H by (vm_compute; reflexivity).
  destruct H as (d&Hd&E&_). exists d. split; [exact Hd|exact E].
Defined.

(** Without the bound on the claimed rays the cap does not hold: a first hit that
    claims [INT_MAX] rays is not counted, but makes [totalrays] wrap around below
    the cap at the second, which counts with all its rays. *)
Example ray_cap_overflow :
  let s := sample_server 0 [good; evil] <| sv_config ::= {{ anti_cheat_enabled := false }} |> in
  let fist hs := exec (shot_process (hooks := no_hooks) 0 100 1 GUN_FIST vec0 vec0 hs) s in
  let hit n := mkhit 1 0 n f32_zero vec0 in
  health (deref 1 (fist [hit 100])) = 100 /\
  health (deref 1 (fist [hit INT_MAX; hit 100])) = -4900.
Proof. by vm_compute. Qed.
