(* ===== verification/Anticheat.v ===== *)
(** The cheat detector (fpsgame/anticheat.h): what it remembers of a client
    (record [anticheat] of State), the checks that end in a report, and the
    inspection of each packet before the server handles it.

    A check reads and writes the memory of one client through [upd_ac]; the
    private helpers are functions of the memory and of [totalmillis]. *)
From S2P Require Import Prelude Wire Text Float32 Game Random State Engine Roster Cheat.
From S2P Require Ctf.
From Stdlib Require Import Floats.

(** * Private helpers *)

Section private.
Variable totalmillis : Z.

Definition reset_last_action (a : anticheat) : anticheat :=
  a <| lastshoot := -1 |> <| lastjumppad := -1 |> <| lastteleport := -1 |> <| lastdamage := -1 |>
    <| ac_lastspawn := -1 |> <| lastjump := -1 |>.
Definition reset_jumphack (a : anticheat) : anticheat :=
  a <| jumphack := 0 |> <| jumppads := 0 |> <| lastjumphack_dist := f32_zero |> <| jumphack_dist := 0 |>.
Definition reset_speedhack_dist (a : anticheat) : anticheat :=
  a <| speedhack2 := 0 |> <| speedhack2_dist := f32_zero |> <| jumpdist := f32_zero |>
    <| speedhack2_strangedist_c := 0 |> <| speedhack2_strangedist := f32_zero |>
    <| speedhack2_lastdist := f32_zero |> <| was_falling := false |>
    <| speedhack2_lastreset := totalmillis |> <| ac_pos := nowhere |>.
Definition reset_speedhack_ping (a : anticheat) : anticheat :=
  a <| speedhack := 0 |> <| speedhack_updates := 0 |> <| lastpingsnapshot := 0 |>
    <| lastpingupdates := 0 |> <| pingupdates := 0 |>.
Definition reset_invisible (a : anticheat) : anticheat :=
  a <| invisiblehack_count := 0 |> <| invisible_first := -1 |> <| invisible_last := -1 |>
    <| positionhack := 0 |>.
Definition reset_lag (a : anticheat) : anticheat := a <| lagged := false |> <| ac_last_lag := 0 |>.

Definition last_player_action (a : anticheat) : Z :=
  let later x shortest := if (-1 <? x) && (shortest <? x) then x else shortest in
  let shortest := later (lastdamage a) (later (lastteleport a) (later (lastjumppad a) (lastshoot a))) in
  if -1 <? shortest then totalmillis - shortest else shortest.

(** [speed < 1.2] compares in double precision. *)
Definition f64_of_f32 (x : f32) : spec_float :=
  match x with
  | S754_finite s m e => binary_normalize 53 1024 (if s then Zneg m else Zpos m) e s
  | _ => x
  end.
Definition f64_1_2 : spec_float := binary_normalize 53 1024 5404319552844595 (-52) false.
Definition percent_speed (speed : f32) : Z := f32_to_int (fmul speed (f32_of_int 100000)).
Definition is_speedhack_dist (a : anticheat) : Z * anticheat :=
  if 30 <=? speedhack2 a then
    let speed := fdiv (fdiv (speedhack2_dist a) (f32_of_int (speedhack2 a))) (f32_of_int 4) in
    if SFltb (f64_of_f32 speed) f64_1_2 then (0, a)
    else (percent_speed speed, reset_speedhack_dist a)
  else if 10 <=? speedhack2_strangedist_c a then
    let speed := fdiv (fdiv (speedhack2_strangedist a) (f32_of_int (speedhack2_strangedist_c a))) (f32_of_int 4) in
    (percent_speed speed, a)
  else (0, a).
Definition is_jumphack (a : anticheat) : Z :=
  if jumphack a <? 2 then 0 else
  let avg := jumphack_dist a ÷ jumphack a in if 10 <=? avg then avg else 0.
Definition try_decrease_jumphack (a : anticheat) : anticheat :=
  if jumppads a =? 0 then a else
  let a := a <| jumppads ::= fun n => n - 1 |> in
  if jumphack a =? 0 then a else
  a <| jumphack ::= fun n => n - 1 |>
    <| jumphack_dist ::= fun n => n - f32_to_int (lastjumphack_dist a) |>.

(** [reset]: [cn] is the new number when it is not negative. *)
Definition ac_reset (enabled : bool) (cn : Z) (a : anticheat) : anticheat :=
  if negb enabled then a <| initialized := false |> else
  let a := if -1 <? cn then a <| ac_clientnum := cn |> else a in
  let a := a <| jumpdist := f32_zero |> <| last_fall_loc := f32_zero |> <| spawns := 0 |>
             <| jumppads := 0 |> <| lastgun := -1 |> <| exceed_position := f32_zero |>
             <| ignore_exceed := 0 |> in
  reset_lag (reset_invisible (reset_jumphack (reset_last_action (reset_speedhack_ping
    (reset_speedhack_dist a))))) <| initialized := true |>.

(** Player actions. *)
Definition ac_no_falling (a : anticheat) : anticheat := try_decrease_jumphack (a <| jumpdist := f32_zero |>).
Definition ac_shoot (a : anticheat) : anticheat := a <| lastshoot := totalmillis |>.
Definition ac_jumppad (a : anticheat) : anticheat :=
  a <| lastjumppad := totalmillis |> <| jumppads ::= Z.succ |>.
Definition ac_teleport (a : anticheat) : anticheat :=
  (if speedhack2_strangedist_c a =? 0 then a
   else a <| speedhack2_strangedist_c ::= fun n => n - 1 |>
          <| speedhack2_strangedist ::= fun d => fsub d (speedhack2_lastdist a) |>)
  <| lastteleport := totalmillis |>.
Definition ac_spawn (a : anticheat) : anticheat :=
  reset_jumphack (reset_last_action (reset_speedhack_dist (reset_invisible a)))
  <| ac_lastspawn := totalmillis |> <| spawns ::= Z.succ |>.
Definition check_lag (lag_ : Z) (a : anticheat) : anticheat :=
  if 500 <=? lag_ then a <| lagged := true |> <| ac_last_lag := totalmillis |>
  else if (0 <? ac_last_lag a) && (ac_last_lag a + 10000 <=? totalmillis) then reset_lag a else a.

(** One suspicious move of [dist]: the memory and what to report. *)
Definition count_move (dist_ : f32) (a : anticheat) : anticheat :=
  if flt dist_ (f32_of_int 50)
  then a <| speedhack2 ::= Z.succ |> <| speedhack2_dist ::= fun d => fadd d dist_ |>
         <| speedhack2_lastdist := dist_ |>
  else a <| speedhack2_strangedist ::= fun d => fadd d dist_ |> <| speedhack2_strangedist_c ::= Z.succ |>.
Definition move_dist (dist_ : f32) (a : anticheat) : Z * anticheat :=
  let '(speed, a) := is_speedhack_dist (count_move dist_ a) in
  (speed, if 45000 <=? totalmillis - speedhack2_lastreset a then reset_speedhack_dist a else a).

(** The landing of a jump that rose more than 20. *)
Definition fall_jumphack (a : anticheat) : anticheat :=
  let d := jumpdist a in
  try_decrease_jumphack (a <| jumphack ::= Z.succ |> <| lastjumphack_dist := d |>
    <| jumphack_dist ::= fun n => f32_to_int (fadd (f32_of_int n) d) |> <| jumpdist := f32_zero |>).

(** [check_ping]: the memory and the speed to report, if any. *)
Definition check_ping (a : anticheat) : option Z * anticheat :=
  let a := a <| pingupdates ::= Z.succ |> in
  if negb (Z.rem (pingupdates a) 20 =? 0) then (None, a) else
  let '(report, a) :=
    if lastpingsnapshot a =? 0 then (None, a) else
    let snapsec := (totalmillis - lastpingsnapshot a) ÷ 1000 in
    let a :=
      if negb (snapsec =? 0) then
        let updates := 20 ÷ snapsec in
        if 5 <=? updates then a <| speedhack ::= Z.succ |> <| speedhack_updates ::= fun n => n + updates |> else a
      else
        let updates := pingupdates a - lastpingupdates a in
        a <| speedhack ::= Z.succ |>
          <| speedhack_updates ::= fun n => n + if 0 <? updates then updates else 20 |> in
    let speed := fdiv (fdiv (f32_of_int (speedhack_updates a)) (f32_of_int (speedhack a))) (f32_of_int 4) in
    let '(report, a) :=
      if (20 <=? speedhack a) && fge speed (f32_lit 3 (-1))
      then (Some (percent_speed speed), reset_speedhack_ping a) else (None, a) in
    (report, a <| lastpingupdates := pingupdates a |>) in
  (report, a <| lastpingsnapshot := totalmillis |>).
End private.

(** * Checks *)
Section checks.
Context {hooks : Hooks}.

Definition ac_of (ci : nat) (s : server) : anticheat := ac (deref ci s).
(** [cheat(clientnum, ...)] of the detector of [ci]. *)
Definition report (ci : nat) (cheat_ info1 : Z) (info2 : cstring) : M server unit :=
  s <- get_server ;; cheat (ac_clientnum (ac_of ci s)) cheat_ info1 info2.
Definition update_ac (ci : nat) (f : Z -> anticheat -> anticheat) : M server unit :=
  s <- get_server ;; upd_ac ci (f (totalmillis s)).

Definition is_player_invisible (ci : nat) : M server bool :=
  s <- get_server ;;
  let a := ac_of ci s in
  if negb (initialized a) || ((-1 <? ac_lastspawn a) && (totalmillis s - ac_lastspawn a <? 2000)) then ret false else
  let is_invis := is_invisible (ac_clientnum a) s in
  (if is_invis =? 1 then
     upd_ac ci {{ invisiblehack_count ::= Z.succ }} ;;
     when (invisible_first a =? -1) (upd_ac ci {{ invisible_first := totalmillis s }}) ;;
     upd_ac ci {{ invisible_last := totalmillis s }} ;;
     s <- get_server ;;
     let a := ac_of ci s in
     when (7 <=? invisiblehack_count a)
       (let inv_time := invisible_last a - invisible_first a in
        when (2000 <=? inv_time) (report ci 9 inv_time []) ;;
        upd_ac ci reset_invisible)
   else if is_invis =? 2 then
     upd_ac ci {{ positionhack ::= Z.succ }} ;;
     when (4 <=? positionhack a + 1) (report ci 24 (-1) [])
   else ret tt) ;;
  ret (0 <? is_invis).

Definition check_speedhack_dist (ci : nat) (dist_ : f32) : M server unit :=
  s <- get_server ;;
  let a := ac_of ci s in
  if negb (initialized a) then ret tt else
  when (negb (lagged a) && fge dist_ (f32_lit 11 (-1)))
    (let '(speed, a) := move_dist (totalmillis s) dist_ a in
     upd_ac ci (fun _ => a) ;;
     when (negb (speed =? 0)) (report ci 16 speed [])).

Definition check_jumphack (ci : nat) (dist_ fall_loc : f32) : M server unit :=
  s <- get_server ;;
  let a := ac_of ci s in
  if negb (initialized a) then ret tt else
  let last_action := last_player_action (totalmillis s) a in
  if (last_action <? 1500) && negb (last_action =? -1) ||
     (-1 <? lastjump a) && (totalmillis s - lastjump a <? 500)
  then upd_ac ci {{ jumpdist := f32_zero }} else
  if fgt dist_ f32_zero then
    let d := f32_of_int (f32_to_int dist_) in
    upd_ac ci {{ jumpdist := if negb (was_falling a) then d else fadd (jumpdist a) d }}
  else
    when (fgt (jumpdist a) (f32_of_int 20))
      (upd_ac ci fall_jumphack ;;
       s <- get_server ;;
       let jdist := is_jumphack (ac_of ci s) in
       when (0 <? jdist) (report ci 17 jdist [] ;; upd_ac ci reset_jumphack) ;;
       upd_ac ci {{ last_fall_loc := fall_loc }}) ;;
    upd_ac ci {{ lastjump := totalmillis s }}.

Definition ac_check_ping (ci : nat) : M server unit :=
  s <- get_server ;;
  let '(speed, a) := check_ping (totalmillis s) (ac_of ci s) in
  upd_ac ci (fun _ => a) ;;
  match speed with Some speed => report ci 6 speed [] | None => ret tt end.

Definition edit_packet (ci : nat) (type : Z) := report ci 2 type [].
Definition modified_map_items (ci : nat) := report ci 11 0 [].
Definition modified_map_flags (ci : nat) := report ci 12 0 [].
Definition modified_capture_bases (ci : nat) := report ci 13 0 [].
Definition unknown_weapon (ci : nat) (gun : Z) := report ci 4 gun [].
Definition unknown_sound (ci : nat) (sound : Z) := report ci 8 sound [].
Definition unknown_packet (ci : nat) (type : Z) := report ci 3 type [].
Definition get_flag (ci : nat) (dist_ : f32) (score_flag flag_owned : bool) : M server unit :=
  report ci 10 (f32_to_int dist_)
    (cstr (if flag_owned then "stealflag" else if score_flag then "scoreflag" else "getflag")).
(** Alive for two seconds. *)
Definition settled (a : anticheat) (now : Z) : bool :=
  (-1 <? ac_lastspawn a) && (2000 <=? now - ac_lastspawn a).
Definition unknown_item (ci : nat) (item len_ : Z) : M server unit :=
  s <- get_server ;;
  when (initialized (ac_of ci s) && settled (ac_of ci s) (totalmillis s))
    (report ci 19 0 (cstr "TRIED ITEM: " ++ print_int item ++ cstr " ITEMLIST LENGTH: " ++ print_int len_)).
Definition item_not_spawned (ci : nat) (item spawntime_ : Z) : M server unit :=
  s <- get_server ;;
  when (initialized (ac_of ci s) && settled (ac_of ci s) (totalmillis s))
    (report ci 20 0 (cstr "TRIED ITEM: " ++ print_int item ++ cstr " SPAWNTIME: " ++ print_int spawntime_)).
Definition player_position_exceeded (ci : nat) : M server unit :=
  s <- get_server ;; report ci 23 (f32_to_int (exceed_position (ac_of ci s))) [].
(** [check_gun] is compiled to [true]. *)
Definition check_gun (gunselect_ : Z) (is_spawn : bool) : bool := true.
Definition impossible_text (c info : Z) : option cstring :=
  if (c =? 0) || (c =? 1) then
    Some (cstr "TRIED TO PICKUP ITEM IN NON INSTA MODE / OUT OF RANGE (" ++ print_int info ++ [41])
  else if c =? 2 then
    Some (cstr "TRIED TO SWITCH / SPAWN WITH A NON RIFLE / FIST GUN (" ++ print_int info ++ [41])
  else if c =? 3 then Some (cstr "TRIED TO PICK UP FLAG / SCORE IN NON FLAG MODE")
  else None.
Definition impossible (ci : nat) (c info : Z) : M server bool :=
  match impossible_text c info with
  | Some t => report ci 22 0 t ;; ret true
  | None => ret false
  end.

(** * Packets *)

Definition S_JUMP : Z := 0.
Definition S_LAND : Z := 1.
Definition S_ITEMAMMO : Z := 9.
Definition S_NOAMMO : Z := 15.

(** A coordinate of N_POS: two bytes, a third one when its flag is set, sign
    extended from 24 bits. *)
Definition read_coord (wide : bool) : M ucharbuf Z :=
  b0 <- get ;; b1 <- get ;;
  let n := Z.lor b0 (Z.shiftl b1 8) in
  if wide then
    b2 <- get ;;
    let n := Z.lor n (Z.shiftl b2 16) in
    ret (if Z.testbit n 23 then Z.lor n (Z.shiftl (-1) 24) else n)
  else ret n.
Definition read_pos : M ucharbuf (Z * vec) :=
  get ;;
  flags_ <- getuint ;;
  x <- read_coord (Z.testbit flags_ 0) ;;
  y <- read_coord (Z.testbit flags_ 1) ;;
  z <- read_coord (Z.testbit flags_ 2) ;;
  let coord n := fdiv (f32_of_int n) DMF in
  ret (flags_, mkvec (coord x) (coord y) (coord z)).
Definition read_int (p : ucharbuf) : Z := eval getint p.
Definition read_two : M ucharbuf (Z * Z) := a <- getint ;; b <- getint ;; ret (a, b).
(** [max(getint(p)/DMF, 0.0f)]. *)
Definition read_map_coord : M ucharbuf f32 :=
  n <- getint ;;
  let x := fdiv (f32_of_int n) DMF in ret (if fgt x f32_zero then x else f32_zero).
Definition read_map_ent : M ucharbuf (Z * vec) :=
  t <- getint ;; x <- read_map_coord ;; y <- read_map_coord ;; z <- read_map_coord ;; ret (t, mkvec x y z).

Definition ac_check_sender (ca ci : nat) (s : server) : bool :=
  (clientnum (deref ca s) =? clientnum (deref ci s)) || (ownernum (deref ca s) =? clientnum (deref ci s)).
Definition ac_check_invis (ca a ci : nat) : M server unit :=
  s <- get_server ;;
  if cs_eqb (state (deref ca s)) CS_ALIVE || cs_eqb (state (deref ca s)) CS_LAGGED then
    b <- is_player_invisible a ;; when b (upd_gs ci {{ state := CS_LAGGED }})
  else ret tt.

(** N_JUMPPAD and N_TELEPORT: the client is looked up again, but the detector
    stays that of [ca]. *)
Definition ac_movement (type : msg) (ci ca : nat) (p : ucharbuf) : M server unit :=
  let '(cn, n) := eval read_two p in
  s <- get_server ;;
  match getinfo cn s with
  | None => ret tt
  | Some ca' =>
    if negb (ac_check_sender ca' ci s) then ret tt else
    ac_check_invis ca' ca ci ;;
    s <- get_server ;;
    when (cs_eqb (state (deref ca' s)) CS_ALIVE)
      (update_ac ca (if bool_decide (type = N_TELEPORT) then ac_teleport else ac_jumppad))
  end.
Definition ac_pickup (ci ca : nat) (n : Z) : M server unit :=
  ac_check_invis ca ca ci ;;
  s <- get_server ;;
  match sents s .! n with
  | None => unknown_item ca n (zlength (sents s))
  | Some e =>
    when (negb (spawned e) && (1000 <=? totalmillis s - lastpickup e)) (item_not_spawned ca n (spawntime e))
  end.
(** The distance check of N_POS applies to short, regular updates on the ground. *)
Definition ac_pos_update (ca : nat) (falling : bool) (o : vec) : M server unit :=
  s <- get_server ;;
  let c := deref ca s in
  let real_lag := totalmillis s - lastposupdate c in
  when (0 <? lastposupdate c) (update_ac ca (fun now => check_lag now real_lag)) ;;
  when (negb (vec_eqb o (ac_pos (ac c))) && (0 <? last_lag c) && (0 <? real_lag) && (real_lag <=? 35) &&
        (last_lag c <=? 35) && (lag c <=? 35) && cs_eqb (state c) CS_ALIVE &&
        negb (was_falling (ac c)) && negb falling)
    (check_speedhack_dist ca (distance o (ac_pos (ac c)))) ;;
  when (negb falling) (update_ac ca (fun _ => ac_no_falling)) ;;
  upd_ac ca {{ was_falling := falling }}.
Definition ac_position (ci : nat) (p : ucharbuf) : M server unit :=
  let '((cn, (flags_, o)), _) := (cn <- getuint ;; r <- read_pos ;; ret (cn, r)) p in
  s <- get_server ;;
  match getinfo cn s with
  | None => ret tt
  | Some ca =>
    if negb (ac_check_sender ca ci s) || negb (initialized (ac_of ca s)) then ret tt else
    when (cs_eqb (state (deref ca s)) CS_ALIVE) (ac_pos_update ca (Z.testbit flags_ 4) o) ;;
    upd_ac ca {{ ac_pos := o }} ;;
    s <- get_server ;;
    when (cs_eqb (state (deref ca s)) CS_LAGGED) (upd_gs ca {{ state := CS_ALIVE }})
  end.

(** The pairs of N_ITEMLIST, up to the first index out of range. *)
Fixpoint read_itemlist (fuel : nat) : M ucharbuf (option (list (Z * Z))) :=
  match fuel with
  | O => ret None
  | S fuel =>
    n <- getint ;; b <- gets overread ;;
    if (0 <=? n) && (n <? MAXENTS) && negb b
    then type <- getint ;; l <- read_itemlist fuel ;; ret (cons (n, type) <$> l)
    else ret (Some [])
  end.
Definition itemlist_arg : M ucharbuf (option (list (Z * Z))) := fun p => read_itemlist (S (length (buf p))) p.
Definition itemlist_differs (l : list (Z * Z)) (s : server) : bool :=
  existsb (fun '(n, type) => if sents s .! n is Some e then negb (se_type e =? type) else true) l.

Definition ac_parseflags (p : ucharbuf) (commit : bool) (ci : nat) : M server unit :=
  let l := default [] (eval (getitems read_map_ent) p) in
  let l := zip (seqZ 0 (zlength l)) l in
  s <- get_server ;;
  let differs '(i, (team_, o)) :=
    if m_hold (gamemode s) then
      if holdspawns s .! i is Some h then negb (vec_equal h o) else true
    else if flags s .! i is Some f then negb (f_team f =? team_) || negb (vec_equal (spawnloc f) o) else true in
  when (negb (notgotflags s) && commit && existsb differs l) (modified_map_flags ci).
Definition ac_parsebases (p : ucharbuf) (commit : bool) (ci : nat) : M server unit :=
  let l := default [] (eval (getitems read_map_ent) p) in
  let l := zip (seqZ 0 (zlength l)) l in
  s <- get_server ;;
  if notgotbases s then ret tt else
  forM l (fun '(i, (ammotype_, o)) =>
    s <- get_server ;;
    when (if bases s .! i is Some b then negb (ammotype b =? ammotype_) || negb (vec_equal (b_o b) o) else true)
      (modified_capture_bases ci)).

(** N_TAKEFLAG.  The other flag is looked up by team number in the vector of
    flags, one past the last of two for [evil]. *)
Definition flag_is_dropped (f : flag) : bool :=
  negb (bool_decide (vx (droploc f) = S754_nan)) &&
  negb (vec_eqb (droploc f) vec0) && negb (vec_eqb (droploc f) (spawnloc f)).
Definition ac_takeflag (ci ca : nat) (i version_ : Z) : M server unit :=
  s <- get_server ;;
  if negb (bool_decide (smode s = Some ctfmode)) && settled (ac_of ca s) (totalmillis s)
  then impossible ca 3 (-1) ;; ret tt else
  is_player_invisible ca ;;
  s <- get_server ;;
  let c := deref ca s in
  let m := gamemode s in
  match flags s .! i with
  | None => ret tt
  | Some f =>
    if notgotflags s || negb (cs_eqb (state c) CS_ALIVE) || bool_decide (team c = []) ||
       negb (version f =? version_) then ret tt else
    let dropped := flag_is_dropped f in
    let at_spawn := if m_ctf m then spawnloc f else vec0 in
    let at_spawn := if m_hold m || m_protect m then default at_spawn (holdspawns s .! (spawnindex f)) else at_spawn in
    let loc := if dropped && m_ctf m then droploc f else at_spawn in
    let has_flag := existsb (fun g => f_owner g =? clientnum c) (flags s) in
    let is_team_flag := m_hold m || bool_decide (Some (team c) = Ctf.ctfflagteam (f_team f)) in
    let score_flag := is_team_flag && negb (m_hold m) in
    let other := Ctf.ctfteamflag (if bool_decide (team c = good) then evil else good) in
    let enemy_flag_dropped := if flags s .! other is Some e then flag_is_dropped e else false in
    if dropped then ret tt else
    let flag_dist := distance loc (ac_pos (ac c)) in
    let suspicious := fge flag_dist (f32_of_int 250) || negb (f_owner f =? -1) in
    if suspicious && ((m_protect m && (negb (invistime f =? 0) && negb is_team_flag)) ||
                      (negb has_flag && score_flag && negb (m_protect m))) then ret tt else
    when suspicious
      (get_flag ca flag_dist (if m_protect m then negb score_flag else score_flag) (negb (f_owner f =? -1))) ;;
    if enemy_flag_dropped then ret tt else
    when (score_flag && negb (m_protect m) && negb (m_hold m) && (i <=? 2) && (1 <=? i))
      (s <- get_server ;;
       let score := (if i =? 1 then (ctf_scores s).1 else (ctf_scores s).2) + 1 in
       when (Ctf.FLAGLIMIT <? score) (cheat (clientnum (deref ci s)) 1 score []))
  end.

(** [anti_cheat_parsepacket]: [p] is a copy of the packet after its type. *)
Definition anti_cheat_parsepacket (type : msg) (ci : nat) (cq : option nat) (p : ucharbuf) : M server unit :=
  s <- get_server ;;
  if negb (anti_cheat_enabled s) || negb (gamespeed s =? 100) then ret tt else
  let ca := default ci cq in
  let c := deref ca s in
  let may_commit := (negb (cs_eqb (state c) CS_SPECTATOR) || negb (privilege c =? 0)) &&
                    bool_decide (clientmap c = smapname s) in
  match type with
  | N_JUMPPAD | N_TELEPORT => ac_movement type ci ca p
  | N_SOUND =>
    let sound := read_int p in
    if negb (sound =? S_JUMP) && negb (sound =? S_LAND) && negb (sound =? S_NOAMMO) &&
       (if m_capture (gamemode s) then negb (sound =? S_ITEMAMMO) else true)
    then unknown_sound ca sound
    else when (sound =? S_JUMP) (ac_check_invis ca ca ci)
  | N_SHOOT => ac_check_invis ca ca ci ;; update_ac ca ac_shoot
  | N_EXPLODE => ac_check_invis ca ca ci
  | N_ITEMPICKUP => ac_pickup ci ca (read_int p)
  | N_POS => ac_position ci p
  | N_SPAWN =>
    let '(ls, gun) := eval read_two p in
    if (gun <? GUN_FIST) || (GUN_PISTOL <? gun) then unknown_weapon ca gun else
    if negb (cs_eqb (state c) CS_ALIVE) && negb (cs_eqb (state c) CS_DEAD) ||
       negb (ls =? lifesequence c) || (lastspawn c <? 0) then ret tt
    else update_ac ca ac_spawn
  | N_GUNSELECT =>
    let gun := read_int p in
    when (cs_eqb (state c) CS_ALIVE && ((gun <? GUN_FIST) || (GUN_PISTOL <? gun))) (unknown_weapon ca gun)
  | N_ITEMLIST =>
    when (negb (notgotitems s) && negb (gamemode s =? 1) &&
          itemlist_differs (default [] (eval itemlist_arg p)) s) (modified_map_items ca)
  | N_INITFLAGS => when (bool_decide (smode s = Some ctfmode)) (ac_parseflags p may_commit ca)
  | N_BASES => when (bool_decide (smode s = Some capturemode)) (ac_parsebases p may_commit ca)
  | N_TAKEFLAG => let '(i, v) := eval read_two p in ac_takeflag ci ca i v
  | N_PING => when (5000 <? gamemillis s - maploaded (deref ci s)) (ac_check_ping ca)
  | N_CLIENTPING => upd_ac ca {{ ac_ping := read_int p }}
  | N_EDITENT | N_EDITVAR | N_EDITMODE | N_COPY | N_PASTE | N_CLIPBOARD =>
    when (negb (m_edit (gamemode s))) (edit_packet ca (msg_code type))
  | _ => ret tt
  end.

(** Flag carriers nobody can see lose their flag. *)
Definition anti_cheat_serverupdate : M server unit :=
  s <- get_server ;;
  when (bool_decide (smode s = Some ctfmode) && (Z.rem (totalmillis s) 10 =? 0))
    (forM (seqZ 0 (zlength (flags s))) (fun i =>
       s <- get_server ;;
       match flags s .! i with
       | None => ret tt
       | Some f =>
         match getinfo (f_owner f) s with
         | None => ret tt
         | Some ci => when (4 <=? invisiblehack_count (ac_of ci s)) (Ctf.ctf_dropflag ci (Some ci))
         end
       end)).
End checks.

(** * No report without evidence *)

(** A run of suspicious moves, each with its time: what is reported after each. *)
Fixpoint moves (l : list (Z * f32)) (a : anticheat) : list Z :=
  match l with
  | [] => []
  | (now, d) :: l => let '(speed, a) := move_dist now d a in speed :: moves l a
  end.

(** The two counters. *)
Definition counters (a : anticheat) : Z * Z := (speedhack2 a, speedhack2_strangedist_c a).

Lemma reset_counters now a : counters (reset_speedhack_dist now a) = (0, 0).
Proof. done. Qed.
Lemma count_move_counters d a :
  counters (count_move d a) =
    if flt d (f32_of_int 50) then (speedhack2 a + 1, speedhack2_strangedist_c a)
    else (speedhack2 a, speedhack2_strangedist_c a + 1).
Proof. unfold count_move. by destruct (flt _ _). Qed.
Lemma is_speedhack_dist_spec now a :
  let '(speed, a') := is_speedhack_dist now a in
  (speed = 0 \/ 30 <= speedhack2 a \/ 10 <= speedhack2_strangedist_c a) /\
  (counters a' = (0, 0) \/ counters a' = counters a).
Proof.
  unfold is_speedhack_dist. destruct (Z.leb_spec 30 (speedhack2 a)).
  - destruct (SFltb _ _); auto.
  - destruct (Z.leb_spec 10 (speedhack2_strangedist_c a)); auto.
Qed.

Lemma move_dist_spec now d a :
  let '(speed, a') := move_dist now d a in
  let n := counters (count_move d a) in
  (speed = 0 \/ 30 <= n.1 \/ 10 <= n.2) /\ (counters a' = (0, 0) \/ counters a' = n).
Proof.
  unfold move_dist. pose proof (is_speedhack_dist_spec now (count_move d a)) as H.
  destruct (is_speedhack_dist now (count_move d a)) as [speed a']. destruct H as [H1 H2].
  split; [exact H1|]. destruct (45000 <=? _); auto.
Qed.

Lemma zlength_cons {A} (x : A) l : zlength (x :: l) = zlength l + 1.
Proof. unfold zlength. cbn [length]. lia. Qed.
Lemma moves_bound : forall l a n m, speedhack2 a <= n -> speedhack2_strangedist_c a <= m ->
  0 <= n -> 0 <= m ->
  n + zlength (filter (fun p => flt p.2 (f32_of_int 50) = true) l) < 30 ->
  m + zlength (filter (fun p => flt p.2 (f32_of_int 50) = false) l) < 10 ->
  Forall (fun speed => speed = 0) (moves l a).
Proof.
  induction l as [|[now d] l IH]; intros a n m Hn Hm Hn0 Hm0; cbn [moves]; [by intros|].
  rw !filter_cons. cbn [snd]. pose proof (move_dist_spec now d a) as Hs. rw count_move_counters in Hs.
  destruct (move_dist now d a) as [speed a'].
  pose proof (zlength_nonneg (filter (fun p => flt p.2 (f32_of_int 50) = true) l)).
  pose proof (zlength_nonneg (filter (fun p => flt p.2 (f32_of_int 50) = false) l)).
  unfold counters in Hs. destruct (flt d (f32_of_int 50)); cbn [fst snd] in Hs.
  - rewrite -> decide_True, decide_False by done. rw zlength_cons. intros H1 H2.
    destruct Hs as [Hs1 Hs2]. rw !pair_eq in Hs2.
    constructor; [lia|]. apply (IH _ (n + 1) m); lia.
  - rewrite -> decide_False, decide_True by done. rw zlength_cons. intros H1 H2.
    destruct Hs as [Hs1 Hs2]. rw !pair_eq in Hs2.
    constructor; [lia|]. apply (IH _ n (m + 1)); lia.
Qed.

(** * Properties *)

(** C22: no player is reported for moving too fast on thin evidence.  After the
    memory was reset (at every spawn), a report needs at least 30 fast moves, or
    at least 10 that are faster than 12.5 times the normal speed; with fewer of
    either, whatever the distances and the times between them, nothing is
    reported. *)
Theorem speedhack_needs_evidence (l : list (Z * f32)) (now : Z) (a : anticheat) :
  zlength (filter (fun p => flt p.2 (f32_of_int 50) = true) l) < 30 ->
  zlength (filter (fun p => flt p.2 (f32_of_int 50) = false) l) < 10 ->
  Forall (fun speed => speed = 0) (moves l (ac_spawn now a)).
Proof. intros H1 H2. by apply (moves_bound _ _ 0 0). Qed.

Lemma speedhack_needs_evidence_witness :
  Forall (fun speed => speed = 0) (moves (replicate 29 (1000, f32_of_int 6)) (ac_spawn 0 anticheat0)) /\
  last (moves (replicate 30 (1000, f32_of_int 6)) (ac_spawn 0 anticheat0)) = Some 150000.
Proof.
  split; [|by vm_compute]. apply (speedhack_needs_evidence (replicate 29 (1000, f32_of_int 6)) 0 anticheat0);
    by vm_compute.
Defined.
