(* ===== verification/Worldstate.v ===== *)
(** What clients say of themselves, relayed to everybody else
    (fpsgame/server.cpp [buildworldstate], [sendpackets]).

    Every client leaves its latest position and its messages in its record; a
    tick of the server concatenates them in one buffer and sends to each player
    the part that is not its own.  The source never copies per player: it writes
    the buffer twice in a row, so that the bytes after a player's own part and
    the bytes before it are one contiguous slice.  [wsbuild] is that buffer:
    [w_base] is the address of [wsbuf.buf] in [ws.data], and [w_slices] holds
    [wsdata] and [wslen] of the players (no entry: the null pointer).

    [relay] is the reference the buffer is measured against: a batch is the list
    of what was said and by whom, and [others] picks what is not the reader's. *)
From S2P Require Import Prelude Wire Text Game State Engine.

#[local] Open Scope list_scope.

Record wsbuild := mkws {
  w_base : Z; wsbuf : ucharbuf; w_slices : gmap nat (Z * Z); w_uses : Z
}.
#[export] Instance eta_wsbuild : Eta wsbuild := settable mkws <w_base; wsbuf; w_slices; w_uses>.

(** The slot [sendpacket] finds for a client number, and whether a peer is there. *)
Definition addressee (n : Z) (s : server) : Z := if spycn s <=? n then real_cn n s else n.
Definition reaches (n : Z) (s : server) : bool :=
  match slots s .! (addressee n s) with
  | Some sl => bool_decide (sl_type sl = ST_TCPIP)
  | None => false
  end.

(** [ci.wsdata >= wsbuf.buf]. *)
Definition own_slice (ci : nat) (w : wsbuild) : option (Z * Z) :=
  match w_slices w !! ci with
  | Some (d, l) => if w_base w <=? d then Some (d, l) else None
  | None => None
  end.
(** [data] and [size] of the packet for [ci]. *)
Definition share (ci : nat) (wslen : Z) (w : wsbuild) : Z * Z :=
  match own_slice ci w with
  | Some (d, l) => (d + l - w_base w, wslen - l)
  | None => (0, wslen)
  end.
Definition isbot (ci : nat) (s : server) : bool := negb (aitype (deref ci s) =? AI_NONE).

Definition send_share (chan wslen : Z) (ci : nat) (w : wsbuild) : M server wsbuild :=
  s <- get_server ;;
  if isbot ci s then ret w else
  let '(data, size) := share ci wslen w in
  if size <=? 0 then ret w else
  let packet := take (Z.to_nat size) (drop (Z.to_nat data) (buf (wsbuf w))) in
  sendpacket (clientnum (deref ci s)) chan [FRaw packet] (-1) ;;
  ret (if reaches (clientnum (deref ci s)) s then w <| w_uses ::= Z.succ |> else w).
(** [sendpositions] is channel 0, [sendmessages] channel 1. *)
Definition send_batch (chan : Z) (w : wsbuild) : M server wsbuild :=
  let wslen := len (wsbuf w) in
  if wslen =? 0 then ret w else
  let data := take (Z.to_nat wslen) (buf (wsbuf w)) in
  recordpacket chan [FRaw data] ;;
  let w := w <| wsbuf ::= put_all data |> in
  s <- get_server ;;
  w <- foldM (send_share chan wslen) (clients s) w ;;
  let n := len (wsbuf w) in
  ret (w <| w_base ::= Z.add n |> <| wsbuf ::= offset n |>).
Definition sendpositions : wsbuild -> M server wsbuild := send_batch 0.
Definition sendmessages : wsbuild -> M server wsbuild := send_batch 1.

(** [if(ci.wsdata < wsbuf.buf) { ci.wsdata = &wsbuf.buf[offset]; ci.wslen = len; }
     else ci.wslen += len;] *)
Definition extend_slice (ci : nat) (offset_ : Z) (w : wsbuild) : wsbuild :=
  let n := len (wsbuf w) - offset_ in
  w <| w_slices ::= insert ci
         (match own_slice ci w with
          | None => (w_base w + offset_, n)
          | Some (d, l) => (d, l + n)
          end) |>.

Definition addposition (mtu : Z) (bi ci : nat) (w : wsbuild) : M server wsbuild :=
  s <- get_server ;;
  let position := position (deref bi s) in
  if bool_decide (position = []) then ret w else
  w <- (if mtu <? len (wsbuf w) + zlength position then sendpositions w else ret w) ;;
  let offset_ := len (wsbuf w) in
  let w := w <| wsbuf ::= put_all position |> in
  upd_ci bi {{ State.position := [] }} ;;
  ret (extend_slice ci offset_ w).
Definition addmessages (mtu : Z) (bi ci : nat) (w : wsbuild) : M server wsbuild :=
  s <- get_server ;;
  let messages := messages (deref bi s) in
  if bool_decide (messages = []) then ret w else
  w <- (if mtu <? len (wsbuf w) + 10 + zlength messages then sendmessages w else ret w) ;;
  let offset_ := len (wsbuf w) in
  let w := w <| wsbuf ::= fun p =>
    put_all messages (putuint (zlength messages)
      (putint (clientnum (deref bi s)) (putint (msg_code N_CLIENT) p))) |> in
  upd_ci bi {{ State.messages := [] }} ;;
  ret (extend_slice ci offset_ w).

(** What the client and, after it, its bots have to say. *)
Definition add_client (add : nat -> nat -> wsbuild -> M server wsbuild) (ci : nat) (w : wsbuild)
    : M server wsbuild :=
  s <- get_server ;;
  if isbot ci s then ret w else
  w <- add ci ci w ;;
  s <- get_server ;;
  foldM (fun b w => add b ci w) (ci_bots (deref ci s)) w.

Definition ws_room (s : server) (ci : nat) : Z :=
  let c := deref ci s in
  zlength (position c) + (if bool_decide (messages c = []) then 0 else 10 + zlength (messages c)).
Definition wsmax (s : server) : Z := foldr (fun ci n => ws_room s ci + n) 0 (clients s).

(** [servermtu] is the answer of [getservermtu()]; [junk] what [new uchar[n]]
    leaves in the memory it hands out.  The result is [ws.uses != 0]. *)
Definition buildworldstate (junk servermtu : Z) : M server bool :=
  s <- get_server ;;
  forM (clients s) (fun ci => upd_ci ci {{ overflow := 0 }}) ;;
  let wsmax := wsmax s in
  if wsmax <=? 0 then set_game {{ reliablemessages := false }} ;; ret false else
  let n := 2 * wsmax in
  let mtu := servermtu - 100 in
  let mtu := if mtu <=? 0 then n else mtu in
  let w := mkws 0 (databuf_of (replicate (Z.to_nat n) junk) n) empty 0 in
  s <- get_server ;;
  w <- foldM (add_client (addposition mtu)) (clients s) w ;;
  w <- sendpositions w ;;
  s <- get_server ;;
  w <- foldM (add_client (addmessages mtu)) (clients s) w ;;
  w <- sendmessages w ;;
  set_game {{ reliablemessages := false }} ;;
  ret (negb (w_uses w =? 0)).

(** A client's position that does not wait for the tick. *)
Definition flushclientposition (ci : nat) : M server unit :=
  s <- get_server ;;
  let c := deref ci s in
  if bool_decide (position c = []) || negb (hasnonlocalclients s) && negb (demorecord s)
  then ret tt else
  upd_ci ci {{ State.position := [] }} ;;
  sendpacket (-1) 0 [FRaw (position c)] (ownernum c).

(** The oldest packet held back from the spectators, when it is due. *)
Definition send_delayed : M server unit :=
  s <- get_server ;;
  match delayed_sendpackets s with
  | d :: rest =>
    if ds_time d <=? totalmillis s then
      forM (clients s) (fun ci =>
        s <- get_server ;;
        let c := deref ci s in
        if negb (is_delayed_spectator s c) || (totalmillis s <? specmillis c + spectator_delay s)
        then ret tt
        else sendpacket (clientnum c) (ds_channel d) (ds_data d) (-1)) ;;
      set_demo {{ delayed_sendpackets := rest }}
    else ret tt
  | [] => ret tt
  end.
(** [now] is [enet_time_get()], [lastsend_] the static; the result is the
    answer and the new [lastsend_]. *)
Definition sendpackets (junk servermtu now lastsend_ : Z) (force : bool) : M server (bool * Z) :=
  s <- get_server ;;
  if bool_decide (clients s = []) || negb (hasnonlocalclients s) && negb (demorecord s)
  then ret (false, lastsend_) else
  send_delayed ;;
  s <- get_server ;;
  let curtime := to_uint (now - lastsend_) in
  if (curtime <? packetdelay s) && negb force then ret (false, lastsend_) else
  flush <- buildworldstate junk servermtu ;;
  s <- get_server ;;
  ret (flush, to_uint (lastsend_ + (curtime - curtime mod packetdelay s))).

(** * The reference: batches of what was said *)

(** Who said it (a player, for itself and its bots), and the bytes. *)
Definition segment : Set := nat * list Z.
Record relaying := mkrelaying { r_batch : list segment; r_uses : Z }.
#[export] Instance eta_relaying : Eta relaying := settable mkrelaying <r_batch; r_uses>.
Definition bytes_of (b : list segment) : list Z := concat (map snd b).
Definition from (ci : nat) (x : segment) : Prop := x.1 = ci.
#[global] Instance from_dec ci x : Decision (from ci x).
Proof. unfold from. apply _. Defined.

(** What came before the first word of [ci], and the rest without its words. *)
Fixpoint before (ci : nat) (b : list segment) : list segment :=
  match b with
  | [] => []
  | x :: b => if decide (from ci x) then [] else x :: before ci b
  end.
Fixpoint since (ci : nat) (b : list segment) : list segment :=
  match b with
  | [] => []
  | x :: b' => if decide (from ci x) then b else since ci b'
  end.
Definition others (ci : nat) (b : list segment) : list segment :=
  filter (fun x => ~ from ci x) (since ci b) ++ before ci b.

Definition relay_to (chan : Z) (ci : nat) (r : relaying) : M server relaying :=
  s <- get_server ;;
  if isbot ci s then ret r else
  let packet := bytes_of (others ci (r_batch r)) in
  if bool_decide (packet = []) then ret r else
  sendpacket (clientnum (deref ci s)) chan [FRaw packet] (-1) ;;
  ret (if reaches (clientnum (deref ci s)) s then r <| r_uses ::= Z.succ |> else r).
Definition relay (chan : Z) (r : relaying) : M server relaying :=
  if bool_decide (r_batch r = []) then ret r else
  recordpacket chan [FRaw (bytes_of (r_batch r))] ;;
  s <- get_server ;;
  r <- foldM (relay_to chan) (clients s) r ;;
  ret (r <| r_batch := [] |>).

Definition said_position (c : clientinfo) : list Z := position c.
Definition said_messages (c : clientinfo) : list Z :=
  if bool_decide (messages c = []) then [] else
  int_bytes (msg_code N_CLIENT) ++ int_bytes (clientnum c) ++
  uint_bytes (zlength (messages c)) ++ messages c.
(** A batch is sent when the next segment, with [room] bytes, would not fit. *)
Definition say (chan mtu : Z) (room : clientinfo -> Z) (said : clientinfo -> list Z)
    (clear : clientinfo -> clientinfo) (bi ci : nat) (r : relaying) : M server relaying :=
  s <- get_server ;;
  let c := deref bi s in
  if bool_decide (said c = []) then ret r else
  r <- (if mtu <? zlength (bytes_of (r_batch r)) + room c then relay chan r else ret r) ;;
  upd_ci bi clear ;;
  ret (r <| r_batch ::= fun b => b ++ [(ci, said c)] |>).
Definition say_position (mtu : Z) : nat -> nat -> relaying -> M server relaying :=
  say 0 mtu (fun c => zlength (position c)) said_position {{ position := [] }}.
Definition say_messages (mtu : Z) : nat -> nat -> relaying -> M server relaying :=
  say 1 mtu (fun c => 10 + zlength (messages c)) said_messages {{ messages := [] }}.
Definition say_client (say : nat -> nat -> relaying -> M server relaying) (ci : nat)
    (r : relaying) : M server relaying :=
  s <- get_server ;;
  if isbot ci s then ret r else
  r <- say ci ci r ;;
  s <- get_server ;;
  foldM (fun b r => say b ci r) (ci_bots (deref ci s)) r.

Definition relay_all (servermtu : Z) : M server bool :=
  s <- get_server ;;
  forM (clients s) (fun ci => upd_ci ci {{ overflow := 0 }}) ;;
  let total := wsmax s in
  if total <=? 0 then set_game {{ reliablemessages := false }} ;; ret false else
  let mtu := if servermtu <=? 100 then 2 * total else servermtu - 100 in
  s <- get_server ;;
  r <- foldM (say_client (say_position mtu)) (clients s) (mkrelaying [] 0) ;;
  r <- relay 0 r ;;
  s <- get_server ;;
  r <- foldM (say_client (say_messages mtu)) (clients s) r ;;
  r <- relay 1 r ;;
  set_game {{ reliablemessages := false }} ;;
  ret (negb (r_uses r =? 0)).

(** * Batches *)

#[local] Arguments bytes_of : simpl never.
#[local] Arguments zlength : simpl never.

Lemma zlength_bytes_app b b' : zlength (bytes_of (b ++ b')) = zlength (bytes_of b) + zlength (bytes_of b').
Proof. unfold bytes_of. by rw map_app concat_app zlength_app. Qed.
Lemma bytes_of_app b b' : bytes_of (b ++ b') = bytes_of b ++ bytes_of b'.
Proof. unfold bytes_of. by rw map_app concat_app. Qed.
Lemma bytes_of_one ci bs : bytes_of [(ci, bs)] = bs.
Proof. unfold bytes_of. simpl. by rw app_nil_r. Qed.
Lemma zlength_nil_iff {A} (l : list A) : zlength l = 0 <-> l = [].
Proof. unfold zlength. destruct l; simpl; split; done || lia. Qed.

Section batches.
Context (ci : nat).
#[local] Abbreviation mine := (Forall (from ci)).
#[local] Abbreviation foreign := (Forall (fun x => ~ from ci x)).

Lemma before_foreign b : foreign (before ci b).
Proof. induction b as [|x b IH]; simpl; [done|]. case_decide; by constructor. Qed.
Lemma before_since b : before ci b ++ since ci b = b.
Proof. induction b as [|x b IH]; simpl; [done|]. case_decide; [done|]. simpl. by rw IH. Qed.
Lemma others_foreign b : foreign b -> others ci b = b.
Proof.
  unfold others. intros Hb. assert (since ci b = [] /\ before ci b = b) as [-> ->]; [|done].
  induction Hb as [|x b Hx Hb [IH1 IH2]]; simpl; [done|]. rewrite -> !decide_False by done. by rw IH1 IH2.
Qed.
(** One run of words of [ci]: the reader gets the rest of the batch first. *)
Lemma others_run pre own post :
  foreign pre -> mine own -> own <> [] -> foreign post -> others ci (pre ++ own ++ post) = post ++ pre.
Proof.
  intros Hpre Hown Hne Hpost. unfold others.
  assert (since ci (pre ++ own ++ post) = own ++ post /\ before ci (pre ++ own ++ post) = pre) as [-> ->].
  { induction Hpre as [|x b Hx Hb [IH1 IH2]]; cbn [app].
    - destruct Hown as [|y own Hy Hown]; [done|]. cbn [app since before]. by rewrite -> !decide_True by done.
    - cbn [since before]. rewrite -> !decide_False by done. by rw IH1 IH2. }
  rw filter_app. assert (filter (fun x => ~ from ci x) own = []) as ->.
  { clear Hne. induction Hown as [|y own Hy _ IH]; [done|]. rw filter_cons.
    by rewrite -> decide_False by tauto. }
  assert (filter (fun x => ~ from ci x) post = post) as ->; [|done].
  induction Hpost as [|y post Hy _ IH]; [done|]. rw filter_cons. rewrite -> decide_True by done. by rw IH.
Qed.
(** In any case it gets exactly what was not its own. *)
Lemma others_perm b : others ci b ≡ₚ filter (fun x => ~ from ci x) b.
Proof.
  unfold others. rewrite <- (before_since b) at 3. rw filter_app Permutation_app_comm.
  f_equiv. pose proof (before_foreign b) as Hf. induction Hf as [|y l Hy _ IH]; [done|].
  rw filter_cons. rewrite -> decide_True by done. by constructor.
Qed.
End batches.

(** * The buffer holds the batch *)

(** The words of [ci] are one run of the batch, at [wsdata]. *)
Definition slice_of (ci : nat) (base : Z) (b : list segment) (sl : option (Z * Z)) : Prop :=
  match sl with
  | None => Forall (fun x => ~ from ci x) b
  | Some (d, l) => exists pre own post, b = pre ++ own ++ post /\ own <> [] /\
      Forall (fun x => ~ from ci x) pre /\ Forall (from ci) own /\ Forall (fun x => ~ from ci x) post /\
      d = base + zlength (bytes_of pre) /\ l = zlength (bytes_of own)
  end.
Record mirrors (w : wsbuild) (r : relaying) : Prop := {
  mi_wf : buf_wf (wsbuf w);
  mi_written : written (wsbuf w) = bytes_of (r_batch r);
  mi_full : Forall (fun x => x.2 <> []) (r_batch r);
  mi_uses : w_uses w = r_uses r;
  mi_slice ci : slice_of ci (w_base w) (r_batch r) (own_slice ci w);
  mi_below ci d l : w_slices w !! ci = Some (d, l) -> d < w_base w + len (wsbuf w)
}.

(** ** Writing to the buffer *)

Lemma zlength_written p : buf_wf p -> zlength (written p) = len p.
Proof. intros [? [? _]]. unfold written, zlength in *. rw length_take. lia. Qed.
(** What adding [bs] to a buffer does, whatever writer did it. *)
Record appended (bs : list Z) (p q : ucharbuf) : Prop := {
  ad_wf : buf_wf q;
  ad_written : written q = written p ++ bs;
  ad_room : maxlen p <= maxlen q
}.
Lemma appended_put_all bs p :
  buf_wf p -> Forall is_uchar bs -> len p + zlength bs <= maxlen p -> appended bs p (put_all bs p).
Proof.
  intros Hp Hb Hr. destruct (put_all_room p bs Hp Hb Hr) as (?&?&Hm&?&?). split; [done|done|]. by rw Hm.
Qed.
Lemma appended_emits (f : ucharbuf -> ucharbuf) bs p :
  emits f bs -> buf_wf p -> len p + zlength bs <= maxlen p -> appended bs p (f p).
Proof.
  intros Hf Hp Hr. set (n := Z.to_nat (maxlen p - len p - zlength bs)).
  destruct (Hf p n) as [[Hwf Hl] Hw].
  { split; [exact Hp|]. unfold n, zlength in *. lia. }
  split; [done|exact Hw|]. pose proof (zlength_written _ Hwf) as H1.
  pose proof (zlength_written _ Hp) as H2.
  change (written (f p) = written p ++ bs) in Hw. rw Hw zlength_app H2 in H1. unfold n in Hl.
  pose proof (zlength_nonneg bs). lia.
Qed.
Lemma appended_trans bs cs p q r : appended bs p q -> appended cs q r -> appended (bs ++ cs) p r.
Proof. intros [? E1 ?] [? E2 ?]. split; [done| |lia]. by rw E2 E1 -app_assoc. Qed.
Lemma appended_len bs p q : buf_wf p -> appended bs p q -> len q = len p + zlength bs.
Proof. intros Hp [Hq E _]. by rw -(zlength_written q) // E zlength_app (zlength_written p). Qed.

(** ** Adding a segment *)

(** The batch may be extended by [ci]: its words, if any, are the last. *)
Definition spoken (ci : nat) (b : list segment) : Prop :=
  exists pre own, b = pre ++ own /\ Forall (fun x => ~ from ci x) pre /\ Forall (from ci) own.
Lemma spoken_foreign ci b : Forall (fun x => ~ from ci x) b -> spoken ci b.
Proof. intros. exists b, []. by rw app_nil_r. Qed.
Lemma spoken_snoc ci b bs : spoken ci b -> spoken ci (b ++ [(ci, bs)]).
Proof.
  intros (pre&own&->&Hp&Ho). exists pre, (own ++ [(ci, bs)]). rw app_assoc. split_and!; [done..|].
  apply Forall_app. by split; [|constructor].
Qed.

Lemma foreign_not_mine ci (l : list segment) :
  Forall (fun x => ~ from ci x) l -> Forall (from ci) l -> l = [].
Proof. destruct l as [|x l]; [done|]. by intros [? _]%Forall_cons [? _]%Forall_cons. Qed.
Lemma run_unique ci (pre own pre' own' post' : list segment) :
  pre ++ own = pre' ++ own' ++ post' ->
  Forall (fun x => ~ from ci x) pre -> Forall (from ci) own ->
  Forall (fun x => ~ from ci x) pre' -> Forall (from ci) own' -> own' <> [] ->
  Forall (fun x => ~ from ci x) post' -> pre' = pre /\ own' = own /\ post' = [].
Proof.
  intros E Hp Ho Hp' Ho' Hne Hq. revert pre E Hp.
  induction Hp' as [|x pre' Hx Hp' IH]; intros pre E Hp.
  - destruct pre as [|y pre]; cbn [app] in E.
    + split; [done|]. subst own. apply Forall_app in Ho as [_ Ho].
      by rw (foreign_not_mine ci post' Hq Ho) app_nil_r.
    + apply Forall_cons in Hp as [Hy _]. destruct Ho' as [|z own' Hz _]; [done|].
      cbn [app] in E. injection E as -> _. done.
  - destruct pre as [|y pre]; cbn [app] in E.
    + subst own. apply Forall_cons in Ho as [Hx' _]. done.
    + injection E as -> E. apply Forall_cons in Hp as [_ Hp].
      by destruct (IH pre E Hp) as (->&->&->).
Qed.

Lemma own_slice_same ci w q n : own_slice ci (mkws (w_base w) q (w_slices w) n) = own_slice ci w.
Proof. done. Qed.

Lemma mirrors_add ci bs w r q :
  mirrors w r -> 0 <= w_base w -> spoken ci (r_batch r) -> bs <> [] ->
  appended bs (wsbuf w) q ->
  mirrors (extend_slice ci (len (wsbuf w)) (w <| wsbuf := q |>))
          (r <| r_batch ::= fun b => b ++ [(ci, bs)] |>).
Proof.
  intros [Hwf Hw Hf Hu Hs Hb] H0 Hsp Hne Had. pose proof (appended_len _ _ _ Hwf Had) as Hlen.
  destruct Had as [Hq Eq _]. pose proof (proj1 Hwf) as Hl0.
  assert (0 < zlength bs) as Hbs.
  { pose proof (zlength_nonneg bs). destruct (decide (zlength bs = 0)) as [E%zlength_nil_iff|]; [done|lia]. }
  assert (len (wsbuf w) = zlength (bytes_of (r_batch r))) as Hlb by (by rw -Hw zlength_written).
  unfold extend_slice. cbn [wsbuf update_field]. rw Hlen.
  replace (len (wsbuf w) + zlength bs - len (wsbuf w)) with (zlength bs) by lia.
  split; cbn.
  - done.
  - by rw Eq Hw bytes_of_app bytes_of_one.
  - apply Forall_app. by split; [|constructor].
  - done.
  - intros cj. destruct (decide (cj = ci)) as [->|Hci].
    + unfold own_slice at 1. cbn. rw lookup_insert_eq own_slice_same.
      specialize (Hs ci). destruct (own_slice ci w) as [[d l]|] eqn:E.
      * assert (w_base w <= d) as Hd.
        { unfold own_slice in E. destruct (w_slices w !! ci) as [[d' l']|]; [|done].
          destruct (Z.leb_spec (w_base w) d'); [|done]. by injection E as -> _. }
        rewrite -> (proj2 (Z.leb_le _ _) Hd). cbn in Hs |- *.
        destruct Hs as (pre&own&post&Eb&Hne'&Hp&Ho&Hpo&->&->).
        destruct Hsp as (pre'&own''&Eb'&Hp'&Ho'). rw Eb in Eb'. symmetry in Eb'.
        destruct (run_unique ci pre' own'' pre own post) as (->&->&->); [done..|].
        rw Eb app_nil_r. exists pre', (own'' ++ [(ci, bs)]), []. rw app_nil_r !bytes_of_app zlength_app.
        split_and!; try done.
        -- by rw app_assoc.
        -- by destruct own''.
        -- apply Forall_app. by split; [|constructor].
        -- by rw bytes_of_one.
      * rewrite -> (proj2 (Z.leb_le (w_base w) (w_base w + len (wsbuf w)))) by lia. cbn in Hs |- *.
        exists (r_batch r), [(ci, bs)], []. split_and!; try done; [by constructor|by rw Hlb|].
        by rw bytes_of_one.
    + specialize (Hs cj). unfold own_slice in Hs |- *. cbn in Hs |- *.
      rewrite -> lookup_insert_ne by done.
      assert (Forall (fun x => ~ from cj x) [(ci, bs)]) as Hcj by (constructor; [|done]; unfold from; simpl; congruence).
      destruct (w_slices w !! cj) as [[d l]|]; [|by apply Forall_app].
      destruct (w_base w <=? d); [|by apply Forall_app].
      cbn in Hs |- *. destruct Hs as (pre&own&post&->&?&?&?&?&->&->).
      exists pre, own, (post ++ [(ci, bs)]). rw -!app_assoc. split_and!; try done. by apply Forall_app.
  - intros cj d l. rw Hlen. destruct (decide (cj = ci)) as [->|Hci]; [|rewrite -> lookup_insert_ne by done].
    + rw lookup_insert_eq own_slice_same.
      unfold own_slice. intros [= E]. destruct (w_slices w !! ci) as [[d' l']|] eqn:El.
      * apply Hb in El. destruct (w_base w <=? d'); injection E as <- _; lia.
      * injection E as <- _. lia.
    + intros H. apply Hb in H. lia.
Qed.

(** ** Sending the batch *)

Lemma share_others ci w r rest :
  mirrors w r ->
  let wslen := len (wsbuf w) in
  let '(data, size) := share ci wslen w in
  size = zlength (bytes_of (others ci (r_batch r))) /\
  take (Z.to_nat size) (drop (Z.to_nat data) (bytes_of (r_batch r) ++ bytes_of (r_batch r) ++ rest)) =
  bytes_of (others ci (r_batch r)).
Proof.
  intros [Hwf Hw Hf _ Hs _]. specialize (Hs ci). cbv zeta.
  rw -(zlength_written _ Hwf) Hw. unfold share. destruct (own_slice ci w) as [[d l]|].
  - destruct Hs as (pre&own&post&->&Hne&Hp&Ho&Hq&->&->).
    rw others_run // !bytes_of_app. set (P := bytes_of pre). set (O := bytes_of own). set (Q := bytes_of post).
    rw !zlength_app. split; [lia|].
    replace (Z.to_nat (w_base w + zlength P + zlength O - w_base w)) with (length (P ++ O))
      by (rw length_app; unfold zlength; lia).
    replace (Z.to_nat (zlength P + (zlength O + zlength Q) - zlength O)) with (length (Q ++ P))
      by (rw length_app; unfold zlength; lia).
    replace ((P ++ O ++ Q) ++ (P ++ O ++ Q) ++ rest) with ((P ++ O) ++ (Q ++ P) ++ O ++ Q ++ rest)
      by by rw -!app_assoc.
    by rw drop_app_length take_app_length.
  - rw others_foreign //. split; [done|]. rw drop_0. unfold zlength. by rw Nat2Z.id take_app_length.
Qed.

(** [wsbuf.put(wsbuf.buf, wslen)] and [wsbuf.offset(wsbuf.length())]. *)
Lemma put_all_doubles p :
  buf_wf p -> 2 * len p <= maxlen p ->
  let q := put_all (written p) p in
  let o := offset (len q) q in
  exists rest, buf q = written p ++ written p ++ rest /\ len q = 2 * len p /\
    buf_wf o /\ len o = 0 /\ maxlen o = maxlen p - 2 * len p.
Proof.
  intros Hp Hr q o. pose proof (zlength_written _ Hp) as Hl. destruct Hp as (H0&Hm&Hu).
  assert (Forall is_uchar (written p)) as Hw by by apply Forall_take.
  assert (q = p <| buf := blit (buf p) (len p) (written p) |> <| len := len p + zlength (written p) |>) as ->.
  { apply put_all_fits; [done..|lia]. }
  assert (zlength (blit (buf p) (len p) (written p)) = zlength (buf p)) as Hb by (apply take_blit; lia).
  exists (drop (Z.to_nat (len p) + length (written p)) (buf p)). subst o. rw Hl. unfold offset. cbn.
  rw tmin_spec tmax_spec. rewrite -> Z.min_l by lia. split_and!; [done|lia| |lia..].
  split_and!; cbn; [lia..| |].
  - unfold zlength in *. rw length_drop. lia.
  - by apply Forall_drop, Forall_blit.
Qed.

Section sending.
Context (chan : Z).

Lemma sendpacket_roster n fs ex (s : server) : sv_roster (exec (sendpacket n chan fs ex) s) = sv_roster s.
Proof.
  symmetry. change (eq_on sv_roster s (exec (sendpacket n chan fs ex) s)). generalize s.
  change (respects (eq_on sv_roster) (sendpacket n chan fs ex)). delivers.
Qed.
Lemma recordpacket_roster fs (s : server) : sv_roster (exec (recordpacket chan fs) s) = sv_roster s.
Proof.
  symmetry. change (eq_on sv_roster s (exec (recordpacket chan fs) s)). generalize s.
  change (respects (eq_on sv_roster) (recordpacket chan fs)). delivers.
Qed.

(** One reader, from the doubled buffer and from the batch. *)
Lemma send_share_sim w r p rest ci n (s : server) :
  mirrors w r -> buf p = bytes_of (r_batch r) ++ bytes_of (r_batch r) ++ rest ->
  exists n' s',
    send_share chan (len (wsbuf w)) ci (mkws (w_base w) p (w_slices w) n) s =
      (mkws (w_base w) p (w_slices w) n', s') /\
    relay_to chan ci (mkrelaying (r_batch r) n) s = (mkrelaying (r_batch r) n', s') /\
    sv_roster s' = sv_roster s.
Proof.
  intros Hm Hp. pose proof (share_others ci w r rest Hm) as Hsh.
  unfold send_share, relay_to, bind, get_server, gets. cbn [id].
  destruct (isbot ci s); [by exists n, s|].
  change (share ci (len (wsbuf w)) (mkws (w_base w) p (w_slices w) n)) with (share ci (len (wsbuf w)) w).
  cbv zeta in Hsh. destruct (share ci (len (wsbuf w)) w) as [data size]. destruct Hsh as [-> Ht].
  cbn [r_batch wsbuf]. rw Hp Ht. pose proof (zlength_nonneg (bytes_of (others ci (r_batch r)))).
  case_bool_decide as Hnil; [rw Hnil; by exists n, s|].
  rewrite -> (proj2 (Z.leb_gt _ _)); last first.
  { destruct (decide (zlength (bytes_of (others ci (r_batch r))) = 0)) as [E%zlength_nil_iff|]; [done|lia]. }
  pose proof (sendpacket_roster (clientnum (deref ci s)) [FRaw (bytes_of (others ci (r_batch r)))] (-1) s) as Hr.
  unfold exec in Hr. destruct (sendpacket _ chan _ (-1) s) as [[] s'] eqn:E. cbn in Hr.
  destruct (reaches (clientnum (deref ci s)) s); eexists _, s'; by split_and!.
Qed.

Lemma send_batch_sim w r (s : server) :
  mirrors w r -> 0 <= w_base w -> 2 * len (wsbuf w) <= maxlen (wsbuf w) ->
  exists s' w' r', send_batch chan w s = (w', s') /\ relay chan r s = (r', s') /\
    mirrors w' r' /\ 0 <= w_base w' /\ r_batch r' = [] /\ len (wsbuf w') = 0 /\
    maxlen (wsbuf w') = maxlen (wsbuf w) - 2 * len (wsbuf w) /\ sv_roster s' = sv_roster s.
Proof.
  intros Hm Hb Hroom. pose proof Hm as [Hwf Hw Hf Hu Hs Hbelow].
  pose proof (zlength_written _ Hwf) as Hlen. rw Hw in Hlen.
  unfold send_batch, relay. cbv zeta.
  case_bool_decide as Hnil.
  { rw Hnil in Hlen. assert (len (wsbuf w) = 0) as H0 by exact (eq_sym Hlen). rw H0.
    exists s, w, r. split_and!; done || lia. }
  assert (zlength (bytes_of (r_batch r)) <> 0) as Hne.
  { rw zlength_nil_iff. destruct (r_batch r) as [|[x bs] b]; [done|]. apply Forall_cons in Hf as [Hf _].
    unfold bytes_of. cbn in *. by destruct bs. }
  pose proof (zlength_nonneg (bytes_of (r_batch r))) as Hpos.
  rewrite -> (proj2 (Z.eqb_neq (len (wsbuf w)) 0)) by lia.
  fold (written (wsbuf w)). unfold bind, get_server, gets. cbn [id].
  pose proof (recordpacket_roster [FRaw (written (wsbuf w))] s) as Hr0. unfold exec in Hr0.
  rw -Hw. destruct (recordpacket chan [FRaw (written (wsbuf w))] s) as [[] s0]. cbn [snd] in Hr0.
  destruct (put_all_doubles (wsbuf w) Hwf Hroom) as (rest&Hp&Hlp&Hwfo&Hlo&Hmo).
  set (p := put_all (written (wsbuf w)) (wsbuf w)) in *.
  destruct (foldM_sim (fun (_ : list nat) s' v u => exists n, v = mkws (w_base w) p (w_slices w) n /\
      u = mkrelaying (r_batch r) n /\ sv_roster s' = sv_roster s0)
    (send_share chan (len (wsbuf w))) (relay_to chan)) with (l := clients s0) (s := s0)
    (v := mkws (w_base w) p (w_slices w) (w_uses w)) (w := r) as (s'&v'&u'&E1&E2&n&->&->&Hr).
  - intros ci l s1 v u (n&->&->&Hs1).
    destruct (send_share_sim w r p rest ci n s1 Hm) as (n'&s2&E1&E2&Hs2); [by rw Hp Hw|].
    exists s2, (mkws (w_base w) p (w_slices w) n'), (mkrelaying (r_batch r) n').
    split_and!; [done..|]. exists n'. split_and!; [done..|]. by rw Hs2.
  - exists (w_uses w). rw Hu. split_and!; [done| |done]. by destruct r.
  - assert (0 < len (wsbuf w)) by lia. change (w <| wsbuf ::= put_all (written (wsbuf w)) |>) with (mkws (w_base w) p (w_slices w) (w_uses w)).
    rw E1 E2. clearbody p. eexists s', _, _. split_and!; [done|done| | |done|exact Hlo|exact Hmo|by rw Hr Hr0].
    + split; [exact Hwfo| |done|done|..].
      * assert (forall o, len o = 0 -> written o = []) as H0; [|by exact (H0 _ Hlo)].
        intros o Ho. unfold written. by rw Ho.
      * intros cj. unfold own_slice. cbn. specialize (Hbelow cj).
        destruct (w_slices w !! cj) as [[d l]|]; [|constructor]. specialize (Hbelow d l eq_refl).
        rewrite -> (proj2 (Z.leb_gt _ d)) by lia. constructor.
      * intros cj d l Hl. apply Hbelow in Hl. cbn in *. lia.
    + cbn. lia.
Qed.
End sending.

(** ** What changes while the batches are built *)

(** The tour through the players and their bots stays the same, and what they
    have to say is only ever taken away. *)
Record calm (s s' : server) : Prop := {
  ca_clients : clients s' = clients s;
  ca_bot ci : isbot ci s' = isbot ci s;
  ca_bots ci : ci_bots (deref ci s') = ci_bots (deref ci s);
  ca_num ci : clientnum (deref ci s') = clientnum (deref ci s);
  ca_pos ci : position (deref ci s') = position (deref ci s) \/ position (deref ci s') = [];
  ca_msg ci : messages (deref ci s') = messages (deref ci s) \/ messages (deref ci s') = []
}.
#[global] Instance calm_preorder : PreOrder calm.
Proof.
  split; [split; auto|].
  intros s t u [Hc Hb Ho Hn Hp Hm] [Hc' Hb' Ho' Hn' Hp' Hm']. split; [congruence|intros ci; congruence..| |].
  - intros ci. destruct (Hp' ci) as [->| ->]; auto.
  - intros ci. destruct (Hm' ci) as [->| ->]; auto.
Qed.
Lemma calm_roster (s s' : server) : sv_roster s' = sv_roster s -> calm s s'.
Proof. intros E. split; intros; unfold isbot, deref; rw ?E; auto. Qed.
(** An assignment to a client that leaves the tour alone. *)
Lemma calm_upd bi f (s : server) :
  (forall c, fps (ci_state (f c)) = fps (ci_state c) /\ ci_bots (f c) = ci_bots c /\ clientnum (f c) = clientnum c /\
     (position (f c) = position c \/ position (f c) = []) /\
     (messages (f c) = messages c \/ messages (f c) = [])) ->
  calm s (exec (upd_ci bi f) s).
Proof.
  intros Hf. assert (forall ci, deref ci (exec (upd_ci bi f) s) = deref ci s \/
    deref ci (exec (upd_ci bi f) s) = f (deref ci s)) as H.
  { intros ci. unfold deref. cbn. destruct (decide (ci = bi)) as [->|Hne].
    - rw lookup_alter_eq. destruct (ci_heap s !! bi) as [c|]; [by right|by left].
    - rewrite -> lookup_alter_ne by done. by left. }
  split; [done|..]; intros ci; unfold isbot; destruct (H ci) as [->| ->]; auto;
    destruct (Hf (deref ci s)) as (E1&E2&E3&E4&E5); rw ?E1; auto.
Qed.

(** The order in which clients are asked, and how much they have to say. *)
Definition turns (s : server) (l : list nat) : list nat :=
  concat (map (fun ci => if isbot ci s then [] else ci :: ci_bots (deref ci s)) l).
Lemma turns_cons s ci l :
  turns s (ci :: l) = (if isbot ci s then [] else ci :: ci_bots (deref ci s)) ++ turns s l.
Proof. done. Qed.
Lemma turns_calm s s' l : calm s s' -> turns s' l = turns s l.
Proof.
  intros H. unfold turns. f_equal. apply map_ext. intros ci. by rw (ca_bot _ _ H) (ca_bots _ _ H).
Qed.
Definition need (said : clientinfo -> list Z) (s : server) (l : list nat) : Z :=
  foldr (fun b n => zlength (said (deref b s)) + n) 0 l.
Lemma need_cons said s b l : need said s (b :: l) = zlength (said (deref b s)) + need said s l.
Proof. done. Qed.
Lemma need_nonneg said s l : 0 <= need said s l.
Proof. induction l as [|b l IH]; [done|]. rw need_cons. pose proof (zlength_nonneg (said (deref b s))). lia. Qed.
Lemma need_app said s l l' : need said s (l ++ l') = need said s l + need said s l'.
Proof. induction l as [|b l IH]; [done|]. rw -app_comm_cons !need_cons IH. lia. Qed.

(** What is said is a part of the client that calm steps keep or clear. *)
Class Said (said : clientinfo -> list Z) := said_calm s s' ci :
  calm s s' -> said (deref ci s') = said (deref ci s) \/ said (deref ci s') = [].
#[local] Instance said_position_calm : Said said_position.
Proof. intros s s' ci H. apply (ca_pos _ _ H). Qed.
#[local] Instance said_messages_calm : Said said_messages.
Proof.
  intros s s' ci H. unfold said_messages. rw (ca_num _ _ H). destruct (ca_msg _ _ H ci) as [->| ->]; auto.
Qed.

Section phase.
Context (said : clientinfo -> list Z) `{!Said said}.

Lemma need_calm s s' l : calm s s' -> need said s' l <= need said s l.
Proof using All.
  intros H. induction l as [|b l IH]; [done|]. rw !need_cons. pose proof (zlength_nonneg (said (deref b s))).
  destruct (said_calm s s' b H) as [->| ->]; [lia|].
  change (zlength (@nil Z)) with 0. lia.
Qed.
(** Everything that is said consists of bytes. *)
Definition bytes_said (s : server) : Prop := forall ci, Forall is_uchar (said (deref ci s)).
Lemma bytes_said_calm s s' : calm s s' -> bytes_said s -> bytes_said s'.
Proof using All. intros H Hs ci. by destruct (said_calm s s' ci H) as [->| ->]. Qed.

Context (chan mtu : Z) (room : clientinfo -> Z) (clear : clientinfo -> clientinfo)
  (write : clientinfo -> ucharbuf -> ucharbuf)
  (add : nat -> nat -> wsbuild -> M server wsbuild)
  (add_unfold : forall bi ci w s, add bi ci w s =
     (if bool_decide (said (deref bi s) = []) then ret w else
      w <- (if mtu <? len (wsbuf w) + room (deref bi s) then send_batch chan w else ret w) ;;
      upd_ci bi clear ;;
      ret (extend_slice ci (len (wsbuf w)) (w <| wsbuf ::= write (deref bi s) |>))) s)
  (write_appends : forall c p, buf_wf p -> Forall is_uchar (said c) ->
     len p + zlength (said c) <= maxlen p -> said c <> [] -> appended (said c) p (write c p))
  (clear_calm : forall bi s, calm s (exec (upd_ci bi clear) s)).

(** What is known of the loop: [extra] more bytes will follow it. *)
Record going (owner : nat -> Prop) (extra : Z) (w : wsbuild) (r : relaying) : Prop := {
  go_mirrors : mirrors w r;
  go_base : 0 <= w_base w;
  go_owners : Forall (fun x => owner x.1) (r_batch r);
  go_room : 2 * (len (wsbuf w) + extra) <= maxlen (wsbuf w)
}.

Lemma add_sim owner extra bi ci w r (s : server) :
  0 <= extra -> owner ci ->
  going owner (zlength (said (deref bi s)) + extra) w r -> spoken ci (r_batch r) -> bytes_said s ->
  exists s' w' r', add bi ci w s = (w', s') /\
    say chan mtu room said clear bi ci r s = (r', s') /\
    going owner extra w' r' /\ spoken ci (r_batch r') /\ calm s s'.
Proof using add_unfold write_appends clear_calm.
  intros Hex Hci [Hm Hb Ho Hr] Hsp Hs. rw add_unfold. unfold say. set (c := deref bi s) in *.
  pose proof (zlength_nonneg (said c)). pose proof (zlength_written _ (mi_wf _ _ Hm)) as Hlen.
  rw (mi_written _ _ Hm) in Hlen. unfold bind at 3, get_server, gets. cbn [id]. fold c.
  case_bool_decide as Hnil; [exists s, w, r; split_and!; [done..| |done|done]; split; [done..|lia]|].
  rw -Hlen.
  assert (exists s1 w1 r1,
    (if mtu <? zlength (bytes_of (r_batch r)) + room c then send_batch chan w else ret w) s = (w1, s1) /\
    (if mtu <? zlength (bytes_of (r_batch r)) + room c then relay chan r else ret r) s = (r1, s1) /\
    going owner (zlength (said c) + extra) w1 r1 /\ spoken ci (r_batch r1) /\ calm s s1)
    as (s1&w1&r1&E1&E2&[Hm1 Hb1 Ho1 Hr1]&Hsp1&Hc1).
  { destruct (mtu <? _); [|exists s, w, r; by split_and!].
    destruct (send_batch_sim chan w r s) as (s1&w1&r1&E1&E2&Hm1&Hb1&Hnil1&Hl1&Hmx&Hro); [done..|lia|].
    exists s1, w1, r1. split_and!; [done..| | |by apply calm_roster].
    - split; [done..| |lia]. by rw Hnil1.
    - rw Hnil1. by apply spoken_foreign. }
  unfold bind. rw E1 E2. unfold upd_ci, set_roster, modify.
  pose proof (clear_calm bi s1) as Hc2. unfold exec, upd_ci, set_roster, modify in Hc2. cbn [snd] in Hc2.
  pose proof (proj1 (mi_wf _ _ Hm1)) as Hl1.
  pose proof (write_appends c (wsbuf w1) (mi_wf _ _ Hm1) (Hs bi) ltac:(lia) Hnil) as Hw.
  eexists _, _, _. split_and!; [done|done| | |by transitivity s1].
  - pose proof (appended_len _ _ _ (mi_wf _ _ Hm1) Hw) as Hl. pose proof (ad_room _ _ _ Hw).
    split; [by apply mirrors_add|done| |cbn; lia].
    cbn. apply Forall_app. by split; [|constructor].
  - by apply spoken_snoc.
Qed.

Lemma going_owner (owner owner' : nat -> Prop) extra w r :
  (forall ci, owner ci -> owner' ci) -> going owner extra w r -> going owner' extra w r.
Proof. intros H [? ? Ho ?]. split; [done..| |done]. eapply Forall_impl; [exact Ho|]. intros x. apply H. Qed.

(** The player and then its bots. *)
Lemma add_client_sim owner extra ci w r (s : server) :
  0 <= extra -> (isbot ci s = false -> owner ci) ->
  going owner (need said s (turns s [ci]) + extra) w r ->
  Forall (fun x => ~ from ci x) (r_batch r) -> bytes_said s ->
  exists s' w' r', add_client add ci w s = (w', s') /\
    say_client (say chan mtu room said clear) ci r s = (r', s') /\
    going owner extra w' r' /\ calm s s'.
Proof using All.
  intros Hex Hci Hg Hfor Hs. unfold add_client, say_client, bind at 1 4, get_server, gets. cbn [id].
  rw turns_cons app_nil_r in Hg.
  destruct (isbot ci s) eqn:Eb; [by exists s, w, r|]. rw need_cons -Z.add_assoc in Hg.
  pose proof (need_nonneg said s (ci_bots (deref ci s))).
  destruct (add_sim owner (need said s (ci_bots (deref ci s)) + extra) ci ci w r s)
    as (s1&w1&r1&E1&E2&Hg1&Hsp1&Hc1); [lia|by apply Hci|exact Hg|by apply spoken_foreign|done|].
  unfold bind at 1. rw E1. unfold bind at 2. rw E2. unfold bind. cbn [id].
  destruct (foldM_sim (fun rest s' w r => going owner (need said s' rest + extra) w r /\
      spoken ci (r_batch r) /\ bytes_said s' /\ calm s s')
    (fun b w => add b ci w) (fun b r => say chan mtu room said clear b ci r))
    with (l := ci_bots (deref ci s1)) (s := s1) (v := w1) (w := r1)
    as (s'&w'&r'&E3&E4&Hg'&_&_&Hc').
  - intros b rest s2 w2 r2 (Hg2&Hsp2&Hs2&Hc2). rw need_cons -Z.add_assoc in Hg2.
    pose proof (need_nonneg said s2 rest).
    destruct (add_sim owner (need said s2 rest + extra) b ci w2 r2 s2) as (s3&w3&r3&E3&E4&Hg3&Hsp3&Hc3);
      [lia|by apply Hci|exact Hg2|done|done|].
    exists s3, w3, r3. split_and!; [done|done| |done|by eapply bytes_said_calm|by etransitivity].
    destruct Hg3 as [? ? ? Hr3]. split; [done..|]. pose proof (need_calm s2 s3 rest Hc3). lia.
  - rw (ca_bots _ _ Hc1). split_and!; [|done|by eapply bytes_said_calm|done].
    destruct Hg1 as [? ? ? Hr1]. split; [done..|]. pose proof (need_calm s s1 (ci_bots (deref ci s)) Hc1). lia.
  - exists s', w', r'. split_and!; done.
Qed.

(** All players in their order, and the last batch. *)
Lemma phase_sim extra w r (s : server) :
  0 <= extra -> NoDup (clients s) ->
  going (fun _ => False) (need said s (turns s (clients s)) + extra) w r -> bytes_said s ->
  exists s' w' r',
    (w <- foldM (add_client add) (clients s) w ;; send_batch chan w) s = (w', s') /\
    (r <- foldM (say_client (say chan mtu room said clear)) (clients s) r ;; relay chan r) s = (r', s') /\
    going (fun _ => False) extra w' r' /\ calm s s'.
Proof using All.
  intros Hex Hnd Hg Hs.
  destruct (foldM_sim (fun rest s' w r => NoDup rest /\
      going (fun ci => ci ∉ rest) (need said s' (turns s' rest) + extra) w r /\
      bytes_said s' /\ calm s s')
    (add_client add) (say_client (say chan mtu room said clear)))
    with (l := clients s) (s := s) (v := w) (w := r) as (s1&w1&r1&E1&E2&_&Hg1&_&Hc1).
  - intros ci rest s2 w2 r2 ([Hni Hnd2]%NoDup_cons&Hg2&Hs2&Hc2).
    pose proof (need_nonneg said s2 (turns s2 rest)).
    assert (need said s2 (turns s2 (ci :: rest)) =
            need said s2 (turns s2 [ci]) + need said s2 (turns s2 rest)) as En.
    { by rw -need_app !turns_cons app_nil_r. }
    rw En -Z.add_assoc in Hg2.
    destruct (add_client_sim (fun cj => cj ∉ rest) (need said s2 (turns s2 rest) + extra) ci w2 r2 s2)
      as (s3&w3&r3&E3&E4&Hg3&Hc3); [lia|done| | |done|].
    + eapply going_owner; [|exact Hg2]. set_solver.
    + eapply Forall_impl; [exact (go_owners _ _ _ _ Hg2)|]. intros x Hx Hfrom. unfold from in Hfrom.
      set_solver.
    + exists s3, w3, r3. split_and!; [done..| |by eapply bytes_said_calm|by etransitivity].
      destruct Hg3 as [? ? ? Hr3]. split; [done..|]. rw (turns_calm _ _ _ Hc3).
      pose proof (need_calm s2 s3 (turns s2 rest) Hc3). lia.
  - split_and!; [done| |done|done]. eapply going_owner; [|exact Hg]. done.
  - unfold bind. rw E1 E2. destruct Hg1 as [Hm1 Hb1 _ Hr1]. cbn [need turns map concat foldr] in Hr1.
    destruct (send_batch_sim chan w1 r1 s1) as (s2&w2&r2&E3&E4&Hm2&Hb2&Hnil2&Hl2&Hmx&Hro); [done..|lia|].
    exists s2, w2, r2. split_and!; [done..| |].
    + split; [done..|by rw Hnil2|lia].
    + etransitivity; [exact Hc1|by apply calm_roster].
Qed.
End phase.

(** ** The two phases *)

Lemma said_messages_nil c : said_messages c = [] <-> messages c = [].
Proof.
  unfold said_messages. case_bool_decide as H; [done|]. split; [|done].
  intros E. apply (f_equal length) in E. rw !length_app in E. by destruct (messages c); [|simpl in E; lia].
Qed.
Lemma addposition_unfold mtu bi ci w (s : server) :
  addposition mtu bi ci w s =
  (if bool_decide (said_position (deref bi s) = []) then ret w else
   w <- (if mtu <? len (wsbuf w) + zlength (position (deref bi s)) then send_batch 0 w else ret w) ;;
   upd_ci bi {{ position := [] }} ;;
   ret (extend_slice ci (len (wsbuf w)) (w <| wsbuf ::= put_all (position (deref bi s)) |>))) s.
Proof. done. Qed.
Definition write_messages (c : clientinfo) (p : ucharbuf) : ucharbuf :=
  put_all (messages c) (putuint (zlength (messages c)) (putint (clientnum c) (putint (msg_code N_CLIENT) p))).
Lemma addmessages_unfold mtu bi ci w (s : server) :
  addmessages mtu bi ci w s =
  (if bool_decide (said_messages (deref bi s) = []) then ret w else
   w <- (if mtu <? len (wsbuf w) + (10 + zlength (messages (deref bi s))) then send_batch 1 w else ret w) ;;
   upd_ci bi {{ messages := [] }} ;;
   ret (extend_slice ci (len (wsbuf w)) (w <| wsbuf ::= write_messages (deref bi s) |>))) s.
Proof.
  unfold addmessages, bind at 1, get_server, gets. cbn [id].
  rewrite -> (bool_decide_ext _ _ (said_messages_nil (deref bi s))). by rw Z.add_assoc.
Qed.
Lemma write_messages_appends c p :
  buf_wf p -> Forall is_uchar (said_messages c) -> len p + zlength (said_messages c) <= maxlen p ->
  said_messages c <> [] -> appended (said_messages c) p (write_messages c p).
Proof.
  intros Hp Hb Hr Hne. rewrite -> said_messages_nil in Hne. unfold said_messages in *. rewrite -> bool_decide_false in * by done.
  rw !Forall_app in Hb. destruct Hb as (_&_&_&Hm). rw !zlength_app in Hr.
  pose proof (zlength_nonneg (messages c)). pose proof (zlength_nonneg (int_bytes (clientnum c))).
  pose proof (zlength_nonneg (uint_bytes (zlength (messages c)))). unfold write_messages.
  assert (forall bs p q, buf_wf p -> appended bs p q -> forall n, len p + (zlength bs + n) <= maxlen p ->
    len q + n <= maxlen q) as Hroom.
  { intros bs p' q Hp' Ha n. pose proof (appended_len _ _ _ Hp' Ha). pose proof (ad_room _ _ _ Ha). lia. }
  pose proof (appended_emits _ _ p (emits_putint (msg_code N_CLIENT)) Hp ltac:(lia)) as Hw1.
  pose proof (Hroom _ _ _ Hp Hw1 _ Hr) as Hr1.
  pose proof (appended_emits _ _ _ (emits_putint (clientnum c)) (ad_wf _ _ _ Hw1) ltac:(cbn in *; lia)) as Hw2.
  pose proof (Hroom _ _ _ (ad_wf _ _ _ Hw1) Hw2 _ Hr1) as Hr2.
  pose proof (appended_emits _ _ _ (emits_putuint (zlength (messages c))) (ad_wf _ _ _ Hw2) ltac:(cbn in *; lia)) as Hw3.
  pose proof (Hroom _ _ _ (ad_wf _ _ _ Hw2) Hw3 _ Hr2) as Hr3.
  pose proof (appended_put_all _ _ (ad_wf _ _ _ Hw3) Hm Hr3) as Hw4.
  eapply appended_trans; [exact Hw1|]. eapply appended_trans; [exact Hw2|].
  eapply appended_trans; [exact Hw3|exact Hw4].
Qed.

(** Ten bytes are enough for the head of a message block. *)
Lemma said_messages_room c :
  zlength (said_messages c) <= if bool_decide (messages c = []) then 0 else 10 + zlength (messages c).
Proof.
  unfold said_messages. case_bool_decide; [done|]. rw !zlength_app.
  assert (forall n, zlength (int_bytes n) <= 5) as H5.
  { intros n. unfold int_bytes, zlength. repeat case_match; simpl; lia. }
  assert (forall n, zlength (uint_bytes n) <= 4) as H4.
  { intros n. unfold uint_bytes, zlength. repeat case_match; simpl; lia. }
  pose proof (H5 (clientnum c)). pose proof (H4 (zlength (messages c))).
  change (zlength (int_bytes (msg_code N_CLIENT))) with 1. lia.
Qed.
Lemma need_room (s : server) l :
  need said_position s l + need said_messages s l <= foldr (fun ci n => ws_room s ci + n) 0 l.
Proof.
  induction l as [|b l IH]; [done|]. rw !need_cons. cbn [foldr]. unfold ws_room at 1.
  pose proof (said_messages_room (deref b s)). unfold said_position at 1. lia.
Qed.
Lemma wsmax_room (s : server) :
  NoDup (turns s (clients s)) -> turns s (clients s) ⊆ clients s ->
  need said_position s (turns s (clients s)) + need said_messages s (turns s (clients s)) <= wsmax s.
Proof.
  intros Hnd Hsub. etransitivity; [apply need_room|]. unfold wsmax.
  destruct (submseteq_Permutation _ _ (NoDup_submseteq _ _ Hnd Hsub)) as [k Hk].
  set (f := fun ci n => ws_room s ci + n).
  assert (forall ci n, f ci n = ws_room s ci + n) as Hf by done. clearbody f.
  rewrite -> (foldr_permutation (=) f 0 _ _ (fun _ _ _ _ _ _ => ltac:(rw !Hf; lia)) Hk), foldr_app.
  assert (forall l n, foldr f n l = foldr f 0 l + n) as Hn.
  { intros l n. induction l as [|b l IH]; cbn [foldr]; [lia|]. rw !Hf. lia. }
  assert (0 <= foldr f 0 k); [|rw (Hn _ (foldr f 0 k)); lia].
  clear Hk. induction k as [|b k IH]; cbn [foldr]; [done|]. rw Hf. unfold ws_room.
  pose proof (zlength_nonneg (position (deref b s))). pose proof (zlength_nonneg (messages (deref b s))).
  case_bool_decide; lia.
Qed.

(** * Properties *)

(** Every bot has one owner, and what is said consists of bytes. *)
Record relay_wf (s : server) : Prop := {
  rw_clients : NoDup (clients s);
  rw_turns : NoDup (turns s (clients s));
  rw_known : turns s (clients s) ⊆ clients s;
  rw_positions : bytes_said said_position s;
  rw_messages : forall ci, Forall is_uchar (messages (deref ci s))
}.

Lemma bytes_said_messages (s : server) :
  (forall ci, Forall is_uchar (messages (deref ci s))) -> bytes_said said_messages s.
Proof.
  intros H ci. unfold said_messages. case_bool_decide; [done|]. rw !Forall_app. split_and!; [..|apply H];
    unfold int_bytes, uint_bytes; repeat case_match;
    repeat (apply Forall_cons; split; [apply to_uchar_range || done|]); by apply Forall_nil.
Qed.

Lemma going_start junk n extra :
  is_uchar junk -> 0 <= n -> 2 * extra <= n ->
  going (fun _ => False) extra
    (mkws 0 (databuf_of (replicate (Z.to_nat n) junk) n) empty 0) (mkrelaying [] 0).
Proof.
  intros Hj Hn He. split; [|done|by constructor|cbn; lia].
  split; try by constructor.
  - unfold buf_wf, zlength. cbn. rw length_replicate. split_and!; [lia..|by apply Forall_replicate].
  - intros ci d l E. cbn in E. by apply lookup_empty_Some in E.
Qed.
Lemma position_phase mtu extra w r (s : server) :
  0 <= extra -> NoDup (clients s) ->
  going (fun _ => False) (need said_position s (turns s (clients s)) + extra) w r ->
  bytes_said said_position s ->
  exists s' w' r',
    (w <- foldM (add_client (addposition mtu)) (clients s) w ;; sendpositions w) s = (w', s') /\
    (r <- foldM (say_client (say_position mtu)) (clients s) r ;; relay 0 r) s = (r', s') /\
    going (fun _ => False) extra w' r' /\ calm s s'.
Proof.
  apply (phase_sim said_position 0 mtu _ _ (fun c => put_all (position c)) _ (addposition_unfold mtu)).
  - intros c p Hp Hb Hl _. by apply appended_put_all.
  - intros bi s'. apply calm_upd. intros c. split_and!; auto.
Qed.
Lemma message_phase mtu w r (s : server) :
  NoDup (clients s) -> going (fun _ => False) (need said_messages s (turns s (clients s))) w r ->
  bytes_said said_messages s ->
  exists s' w' r',
    (w <- foldM (add_client (addmessages mtu)) (clients s) w ;; sendmessages w) s = (w', s') /\
    (r <- foldM (say_client (say_messages mtu)) (clients s) r ;; relay 1 r) s = (r', s') /\
    going (fun _ => False) 0 w' r' /\ calm s s'.
Proof.
  intros Hnd Hg Hb. rw -(Z.add_0_r (need _ _ _)) in Hg.
  apply (phase_sim said_messages 1 mtu _ _ write_messages _ (addmessages_unfold mtu)); try done.
  - intros c p Hp Hu Hl Hne. by apply write_messages_appends.
  - intros bi s'. apply calm_upd. intros c. split_and!; auto.
Qed.

(** C24: one buffer serves everybody.  For every server whose bots have one owner
    each, [buildworldstate] ends in the state, with the packets sent, and with the
    answer of the reference [relay_all], whatever was in the memory it was given:
    the buffer of [2*wsmax] bytes never overflows, batches are cut at the limit of
    the transfer unit, and every player receives of each batch the words of all
    the others, once each and none of its own or its bots'. *)
Theorem buildworldstate_relays (junk servermtu : Z) (s : server) :
  is_uchar junk -> relay_wf s ->
  buildworldstate junk servermtu s = relay_all servermtu s /\
  forall ci b, others ci b ≡ₚ filter (fun x => ~ from ci x) b.
Proof.
  intros Hj [Hnd Ht Hk Hp Hm]. split; [|intros; apply others_perm].
  unfold buildworldstate, relay_all, bind, get_server, gets. cbn [id].
  assert (calm s (exec (forM (clients s) (fun ci => upd_ci ci {{ overflow := 0 }})) s)) as Hc0.
  { generalize s at 1 3. change (respects calm (forM (clients s) (fun ci => upd_ci ci {{ overflow := 0 }}))).
    apply respects_forM; [apply _|]. intros ci _ s'. apply calm_upd. intros c. split_and!; auto. }
  unfold exec in Hc0. destruct (forM _ _ s) as [[] s1]. cbn [snd] in Hc0.
  destruct (Z.leb_spec (wsmax s) 0) as [H0|H0]; [done|].
  replace (if servermtu - 100 <=? 0 then 2 * wsmax s else servermtu - 100)
    with (if servermtu <=? 100 then 2 * wsmax s else servermtu - 100) by zcases.
  set (mtu := if servermtu <=? 100 then _ else _). set (w0 := mkws _ _ _ _).
  pose proof (wsmax_room s Ht Hk) as Hroom.
  pose proof (need_calm said_position s s1 (turns s (clients s)) Hc0).
  pose proof (need_calm said_messages s s1 (turns s (clients s)) Hc0).
  pose proof (need_nonneg said_messages s1 (turns s (clients s))).
  assert (turns s1 (clients s1) = turns s (clients s)) as Et
    by (by rw (ca_clients _ _ Hc0) (turns_calm _ _ _ Hc0)).
  destruct (position_phase mtu (need said_messages s1 (turns s1 (clients s1))) w0 (mkrelaying [] 0) s1)
    as (s2&w2&r2&E1&E2&Hg2&Hc2); [by rw Et|by rw (ca_clients _ _ Hc0)| |exact (bytes_said_calm _ _ _ Hc0 Hp)|].
  { apply going_start; [done|lia|rw Et; lia]. }
  unfold bind in E1, E2. unfold sendpositions, say_position in *.
  destruct (foldM _ _ w0 s1) as [wa sa]. destruct (foldM _ _ (mkrelaying [] 0) s1) as [ra ta]. rw E1 E2.
  pose proof (need_calm said_messages s1 s2 (turns s1 (clients s1)) Hc2).
  destruct (message_phase mtu w2 r2 s2) as (s3&w3&r3&E3&E4&Hg3&Hc3).
  { by rw (ca_clients _ _ Hc2) (ca_clients _ _ Hc0). }
  { destruct Hg2. split; [done..|]. rewrite -> (turns_calm s1 s2), (ca_clients _ _ Hc2) by done. lia. }
  { exact (bytes_said_calm _ _ _ Hc2 (bytes_said_calm _ _ _ Hc0 (bytes_said_messages s Hm))). }
  unfold bind in E3, E4. unfold sendmessages, say_messages in *.
  destruct (foldM _ _ w2 s2) as [wb sb]. destruct (foldM _ _ r2 s2) as [rb tb]. rw E3 E4.
  by rw (mi_uses _ _ (go_mirrors _ _ _ _ Hg3)).
Qed.

Lemma deref_all (P : clientinfo -> Prop) (s : server) :
  P clientinfo0 -> map_Forall (fun _ => P) (ci_heap s) -> forall ci, P (deref ci s).
Proof. intros H0 H ci. unfold deref. destruct (ci_heap s !! ci) as [c|] eqn:E; [exact (H _ _ E)|done]. Qed.

(** Two players and a bot of the first: the bot's words follow its owner's and
    go to the other player only. *)
Definition relay_sample : server :=
  sample_server 0 [good; good; good] <| sv_roster ::= {{ ci_heap ::= fun h =>
    alter (fun c => c <| ci_bots := [2%nat] |> <| position := [1; 2] |>) 0%nat
      (alter (fun c => c <| position := [7; 7; 7] |> <| messages := [5] |>) 1%nat
        (alter (fun c => c <| ci_state ::= {{ fps ::= {{ aitype := 1 }} }} |> <| position := [9] |>) 2%nat h))
    }} |>.

Lemma buildworldstate_relays_witness :
  relay_wf relay_sample /\
  buildworldstate 170 1500 relay_sample = relay_all 1500 relay_sample /\
  sv_out (exec (buildworldstate 170 1500) relay_sample) =
    [Deliver 0 0 [FRaw [7; 7; 7]]; Deliver 1 0 [FRaw [1; 2; 9]]; Deliver 0 1 [FRaw [88; 1; 1; 5]]].
Proof.
  assert (relay_wf relay_sample) as Hwf.
  { split; [decide_now..| |].
    - refine (deref_all (fun c => Forall is_uchar (said_position c)) _ _ _); decide_now.
    - refine (deref_all (fun c => Forall is_uchar (messages c)) _ _ _); decide_now. }
  split; [exact Hwf|]. split; [|vm_compute; reflexivity].
  apply (buildworldstate_relays 170 1500 relay_sample); [decide_now|exact Hwf].
Defined.
