(* ===== verification/Welcome.v ===== *)
(** What a newcomer is told and what the others are told of it
    (fpsgame/server.cpp [sendspawn], [welcomepacket], [sendinitclient]).

    A packet under construction is the list of its fields; [welcomepacket] also
    spawns the newcomer, so it returns the packet and leaves a new state. *)
From S2P Require Import Prelude Wire Text Float32 Game Random State Engine Intermission Servmode Roster Cheat Items.

#[local] Open Scope list_scope.

Definition ints (l : list Z) : list field := map FInt l.

(** [gs.ammo[GUN_SG .. GUN_PISTOL]]. *)
Definition spawn_ammo (gs : gamestate) : list Z := map (get_ammo gs) (seqZ GUN_SG (GUN_PISTOL - GUN_SG + 1)).
Definition sendstate (gs : gamestate) : list field :=
  ints ([lifesequence gs; health gs; maxhealth gs; armour gs; armourtype gs; gunselect gs] ++ spawn_ammo gs).

Definition spawnstate (ci : nat) : M server unit :=
  s <- get_server ;;
  let '(st, g) := fps_spawnstate (sv_spawnconf s) (gamemode s) (fps (deref ci s)) (sv_rng s) in
  modify {{ sv_rng := g }} ;;
  upd_gs ci (fun gs => gs <| fps := st |> <| lifesequence := Z.land (lifesequence gs + 1) 0x7F |>).

Definition sendspawn (ci : nat) : M server unit :=
  s <- get_server ;;
  if no_spawn (deref ci s) =? 1 then ret tt else
  spawnstate ci ;;
  s <- get_server ;;
  let c := deref ci s in
  sendf (ownernum c) 1 (message N_SPAWNSTATE (FInt (clientnum c) :: sendstate c)) ;;
  upd_gs ci {{ lastspawn := gamemillis s }}.

(** ** Introducing a client *)
Definition initai (c : clientinfo) : list field :=
  message N_INITAI [FInt (clientnum c); FInt (ownernum c); FInt (aitype c); FInt (skill c);
                    FInt (playermodel c); FStr (name c); FStr (team c)].
Definition putinitclient (c : clientinfo) : list field :=
  if negb (aitype c =? AI_NONE) then initai c
  else message N_INITCLIENT [FInt (clientnum c); FStr (name c); FStr (team c); FInt (playermodel c)].
Definition welcomeinitclient (exclude : Z) (s : server) : list field :=
  concat (map (fun ci => let c := deref ci s in
    if negb (connected c) || (clientnum c =? exclude) || spy c then [] else putinitclient c) (clients s)).
Definition sendinitclient (ci : nat) : M server unit :=
  s <- get_server ;;
  sendfx (-1) 1 (clientnum (deref ci s)) (putinitclient (deref ci s)).
Definition resume_of (c : clientinfo) : list field :=
  ints [clientnum c; cs_code (state c); frags c; flagscore c; deaths c; quadmillis c] ++ sendstate c.
Definition sendresume (ci : nat) : M server unit :=
  s <- get_server ;;
  let c := deref ci s in
  sendf (ownernum c) 1 (message N_RESUME (resume_of c ++ [FInt (-1)])).
Definition sendservinfo (ci : nat) : M server unit :=
  s <- get_server ;;
  let c := deref ci s in
  sendf (clientnum c) 1 (message N_SERVINFO [FInt (clientnum c); FInt PROTOCOL_VERSION; FInt (sessionid c);
    FInt (if bool_decide (serverpass s = []) then 0 else 1); FStr (serverdesc s); FStr (serverauth s)]).

(** ** The welcome packet *)

Definition hasmap (ci : nat) (s : server) : bool :=
  let c := deref ci s in
  (m_edit (gamemode s) && ((0 <? zlength (clients s)) || local c)) ||
  (negb (bool_decide (smapname s = [])) &&
   (negb (m_timed (gamemode s)) || (gamemillis s <? gamelimit s) ||
    (cs_eqb (state c) CS_SPECTATOR && (privilege c =? 0) && negb (local c)) ||
    negb (numclients (clientnum c) true true true s =? 0))).

Definition welcome_items (s : server) : list field :=
  if notgotitems s then [] else
  message N_ITEMLIST (concat (imap (fun i e => if spawned e then ints [Z.of_nat i; se_type e] else []) (sents s))
                      ++ [FInt (-1)]).
Definition welcome_masters (s : server) : list field :=
  let masters := filter (fun ci => PRIV_MASTER <= privilege (deref ci s)) (clients s) in
  if negb (mastermode s =? MM_OPEN) || negb (bool_decide (masters = [])) then
    message N_CURRENTMASTER (FInt (mastermode s) ::
      concat (map (fun ci => ints [clientnum (deref ci s); privilege (deref ci s)]) masters) ++ [FInt (-1)])
  else [].
Definition welcome_teams (s : server) : list field :=
  if m_teammode (gamemode s) then
    message N_TEAMINFO (concat (map (fun t => if t.2 =? 0 then [] else [FStr t.1; FInt t.2]) (teaminfos s))
                        ++ [FStr []])
  else [].
(** The match as it stands. *)
Definition welcome_match (ci : option nat) (s : server) : list field :=
  message N_WELCOME (message N_MAPCHANGE
    [FStr (smapname s); FInt (gamemode s); FInt (if notgotitems s then 1 else 0)]) ++
  (if bool_decide (ci = None) || m_timed (gamemode s) && negb (bool_decide (smapname s = []))
   then message N_TIMEUP [FInt (time_left s)] else []) ++
  welcome_items s ++ welcome_masters s ++
  (if gamepaused s then message N_PAUSEGAME [FInt 1; FInt (-1)] else []) ++
  (if negb (gamespeed s =? 100) then message N_GAMESPEED [FInt (gamespeed s); FInt (-1)] else []) ++
  welcome_teams s.
(** The others: their states, then who they are. *)
Definition welcome_others (ci : option nat) (s : server) : list field :=
  let own := match ci with Some ci => clientnum (deref ci s) | None => -1 end in
  if bool_decide (ci = None) || (1 <? zlength (clients s)) then
    message N_RESUME (concat (map (fun oi => let c := deref oi s in
      if bool_decide (ci <> None) && (clientnum c =? own) then [] else resume_of c) (clients s))
      ++ [FInt (-1)]) ++ welcomeinitclient own s
  else [].

Section welcome.
Context {hooks : Hooks}.

Definition welcome_spawn (ci : nat) : M server (list field) :=
  s <- get_server ;;
  let cn := clientnum (deref ci s) in
  if (m_demo (gamemode s) || m_mp (gamemode s)) && negb (cs_eqb (state (deref ci s)) CS_SPECTATOR) then
    if negb (canspawn ci true s) then
      upd_gs ci {{ state := CS_DEAD }} ;;
      sendfx (-1) 1 cn (message N_FORCEDEATH [FInt cn]) ;;
      ret (message N_FORCEDEATH [FInt cn])
    else
      spawnstate ci ;;
      s <- get_server ;;
      upd_gs ci {{ lastspawn := gamemillis s }} ;;
      ret (message N_SPAWNSTATE (FInt cn :: sendstate (deref ci s)))
  else ret [].
Definition welcome_self (ci : nat) : M server (list field) :=
  s <- get_server ;;
  let setteam := message N_SETTEAM [FInt (clientnum (deref ci s)); FStr (team (deref ci s)); FInt (-1)] in
  spawn <- welcome_spawn ci ;;
  s <- get_server ;;
  let cn := clientnum (deref ci s) in
  if cs_eqb (state (deref ci s)) CS_SPECTATOR then
    sendfx (-1) 1 cn (message N_SPECTATOR [FInt cn; FInt 1]) ;;
    ret (setteam ++ spawn ++ message N_SPECTATOR [FInt cn; FInt 1])
  else ret (setteam ++ spawn).

(** [ci == NULL] is the packet that opens a demo. *)
Definition welcomepacket (ci : option nat) : M server (list field) :=
  s <- get_server ;;
  let p := welcome_match ci s in
  self <- (match ci with Some ci => welcome_self ci | None => ret [] end) ;;
  s <- get_server ;;
  ret (p ++ self ++ welcome_others ci s ++
       match smode s with Some k => sm_initclient (servmode_of k) ci true s | None => [] end).
Definition sendwelcome (ci : nat) : M server unit :=
  p <- welcomepacket (Some ci) ;;
  s <- get_server ;;
  sendpacket (clientnum (deref ci s)) 1 p (-1).
End welcome.
