(* ===== verification/Ai.v ===== *)
(** Bots: who runs them, and which team they play for (fpsgame/aiman.h).

    A bot is a client of its own, in [bots] and in [clients]; the player that
    runs it has it in [ci_bots].  A [teamscore] of the source holds a [char *]
    into the record of a client or a literal: [teamref] is that pointer, read
    with [teamname] when the source compares or copies it. *)
From S2P Require Import Prelude Sort Wire Text Float32 Game Random State Engine Servmode Roster Cheat Anticheat Welcome.

#[local] Open Scope list_scope.

Definition MAXBOTS : Z := 32.

(** [strcmp]: by unsigned characters. *)
Fixpoint strlt (a b : cstring) : bool :=
  match a, b with
  | _, [] => false
  | [], _ :: _ => true
  | x :: a, y :: b => (x <? y) || ((x =? y) && strlt a b)
  end.

(** * The teams the bots are spread over *)

Inductive teamref : Set := TClient (ci : nat) | TConst (t : cstring).
Definition teamname (r : teamref) (s : server) : cstring :=
  match r with TClient ci => team (deref ci s) | TConst t => t end.
Record teamscore := mkteamscore { ts_team : teamref; ts_score : Z }.
#[export] Instance eta_teamscore : Eta teamscore := settable mkteamscore <ts_team; ts_score>.
#[global] Instance teamscore_inhabited : Inhabited teamscore := populate (mkteamscore (TConst []) 0).

Definition teamscore_compare (s : server) (x y : teamscore) : bool :=
  if ts_score y <? ts_score x then true
  else if ts_score x <? ts_score y then false
  else strlt (teamname (ts_team x) s) (teamname (ts_team y) s).
Definition names_team (t : cstring) (s : server) (x : teamscore) : Prop := teamname (ts_team x) s = t.
#[global] Instance names_team_dec t s x : Decision (names_team t s x).
Proof. unfold names_team. apply _. Defined.

Definition count_member (s : server) (teams : list teamscore) (ci : nat) : list teamscore :=
  let c := deref ci s in
  if cs_eqb (state c) CS_SPECTATOR || bool_decide (team c = []) then teams else
  match list_find (names_team (team c) s) teams with
  | Some (j, _) => alter {{ ts_score ::= Z.succ }} j teams
  | None => teams ++ [mkteamscore (TClient ci) 1]
  end.
Definition add_default (s : server) (teams : list teamscore) (t : cstring) : list teamscore :=
  match list_find (names_team t s) teams with
  | Some _ => teams
  | None => teams ++ [mkteamscore (TConst t) 0]
  end.
Definition calcteams (s : server) : list teamscore :=
  let teams := quicksort (teamscore_compare s) (fold_left (count_member s) (clients s) []) in
  if (length teams <? 2)%nat then fold_left (add_default s) [good; evil] teams else teams.

(** [for(int j = teams.length() - 2; j >= 0; j--) ...]: the entry that gained a
    bot moves up past those with fewer. *)
Fixpoint bubble (j : nat) (teams : list teamscore) : list teamscore :=
  match j with
  | O => teams
  | S j =>
    if ts_score (teams !!! S j) <=? ts_score (teams !!! j) then teams
    else bubble j (swap j (S j) teams)
  end.

Section ai.
Context {hooks : Hooks}.

(** The copy of the name of [teams.last()] to the bot: by then the entry at the
    end may be another one. *)
Definition reteam (bot : nat) (t : teamref) : M server unit :=
  s <- get_server ;;
  when (cs_eqb (state (deref bot s)) CS_ALIVE)
    (with_smode (fun m => sm_changeteam m bot (team (deref bot s)) (teamname t s))) ;;
  s <- get_server ;;
  let oldteam := copystring (team (deref bot s)) (MAXTEAMLEN + 1) in
  upd_ci bot {{ team := copystring (teamname t s) (MAXTEAMLEN + 1) }} ;;
  s <- get_server ;;
  let c := deref bot s in
  sendf (-1) 1 (message N_SETTEAM [FInt (clientnum c); FStr (team c); FInt 0]) ;;
  fire "reteam" [AInt (clientnum c); AStr (encodeutf8 oldteam); AStr (encodeutf8 (team c))] ;; ret tt.

Definition most_least (teams : list teamscore) : teamscore * teamscore :=
  (teams !!! 0%nat, teams !!! (length teams - 1)%nat).
Fixpoint balance_loop (fuel : nat) (teams : list teamscore) (reassign : list nat) : M server unit :=
  match fuel with
  | O => ret tt
  | S fuel =>
    let '(top, least) := most_least teams in
    let last := (length teams - 1)%nat in
    if bool_decide (reassign = []) || bool_decide (teams = []) || (ts_score top <=? ts_score least + 1)
    then ret tt else
    s <- get_server ;;
    match list_find (fun b => team (deref b s) = teamname (ts_team top) s) reassign with
    | Some (i, bot) =>
      let teams := alter {{ ts_score ::= Z.pred }} 0%nat teams in
      let teams := alter {{ ts_score ::= Z.succ }} last teams in
      let teams := bubble last teams in
      reteam bot (ts_team (teams !!! last)) ;;
      balance_loop fuel teams (removeunordered i reassign)
    | None => balance_loop fuel (tail teams) reassign
    end
  end.
Definition balanceteams : M server unit :=
  s <- get_server ;;
  let teams := calcteams s in
  let reassign := omap id (bots s) in
  balance_loop (S (length teams + length reassign)) teams reassign.

Definition chooseteam (s : server) : cstring :=
  match last (calcteams s) with Some t => teamname (ts_team t) s | None => [] end.

(** * Who runs a bot *)

Definition validaiclient (c : clientinfo) : bool :=
  (0 <=? clientnum c) && (aitype c =? AI_NONE) &&
  (negb (cs_eqb (state c) CS_SPECTATOR) || local c || (negb (privilege c =? 0) && negb (warned c))) &&
  negb (spy c).
Definition numbots (ci : nat) (s : server) : nat := length (ci_bots (deref ci s)).
Definition findaiclient (exclude : option nat) (s : server) : option nat :=
  fold_left (fun least ci =>
    if negb (validaiclient (deref ci s)) || bool_decide (exclude = Some ci) then least else
    match least with
    | None => Some ci
    | Some l => if (numbots ci s <? numbots l s)%nat then Some ci else least
    end) (clients s) None.

Definition set_refresh : M server unit := set_ai {{ dorefresh := true }}.
Definition removeobj (ci : nat) (l : list nat) : list nat := filter (fun x => x <> ci) l.
Definition upd_bots (ci : nat) (f : list nat -> list nat) : M server unit := upd_ci ci {{ ci_bots ::= f }}.
Definition ownernum_of (owner : option nat) (s : server) : Z :=
  match owner with Some o => clientnum (deref o s) | None => -1 end.
Definition set_bot (i : nat) (b : option nat) : M server unit := set_roster {{ bots ::= insert i b }}.

(** A bot slot nobody runs, to be used again. *)
Definition free_bot (s : server) (b : option nat) : Prop :=
  match b with Some b => ownernum (deref b s) < 0 | None => True end.
#[global] Instance free_bot_dec s b : Decision (free_bot s b).
Proof. unfold free_bot. destruct b; apply _. Defined.

Definition new_session : M server Z :=
  s <- get_server ;;
  r <- rand 0x1000000 ;;
  ret (Z.land (to_int (r * (Z.rem (totalmillis s) 10000 + 1))) 0xFFFFFF).
(** The bot in slot [cn], fresh. *)
Definition init_bot (cn : nat) (skill_ : Z) (team_ : cstring) : M server nat :=
  s <- get_server ;;
  let ci := next_ci s in
  set_roster (fun r => r <| ci_heap ::= insert ci clientinfo0 |> <| next_ci ::= S |>
                         <| bots ::= insert cn (Some ci) |>) ;;
  upd_ci ci {{ clientnum := MAXCLIENTS + Z.of_nat cn }} ;;
  upd_gs ci {{ fps ::= {{ aitype := AI_BOT }} }} ;;
  s <- get_server ;;
  let owner := findaiclient None s in
  upd_ci ci {{ ownernum := ownernum_of owner s }} ;;
  match owner with Some o => upd_bots o (fun l => l ++ [ci]) | None => ret tt end ;;
  sk <- (if skill_ <=? 0 then r <- rand 50 ;; ret (r + 51) else ret (clamp skill_ 1 101)) ;;
  upd_gs ci {{ fps ::= {{ skill := sk }} }} ;;
  set_roster {{ clients ::= fun l => l ++ [ci] }} ;;
  upd_gs ci {{ lasttimeplayed := lastmillis s }} ;;
  upd_ci ci {{ name := copystring (cstr "bot") (MAXNAMELEN + 1) }} ;;
  upd_gs ci {{ state := CS_DEAD }} ;;
  upd_ci ci {{ team := copystring team_ (MAXTEAMLEN + 1) }} ;;
  model <- rand 128 ;;
  upd_ci ci (fun c => c <| playermodel := model |> <| aireinit := 2 |> <| connected := true |>
                        <| playerid := next_botid s |>) ;;
  set_ai {{ next_botid ::= Z.pred }} ;;
  sid <- new_session ;;
  upd_ci ci (fun c => c <| sessionid := sid |> <| lastposupdate := totalmillis s |>) ;;
  upd_ac ci (ac_reset (totalmillis s) (anti_cheat_enabled s) (MAXCLIENTS + Z.of_nat cn)) ;;
  set_refresh ;;
  fire "connect" [AInt (MAXCLIENTS + Z.of_nat cn); ABool false] ;;
  ret ci.
Definition addai (skill_ limit : Z) : M server (option nat) :=
  s <- get_server ;;
  let maxai := if 0 <=? limit then tmin limit MAXBOTS else MAXBOTS in
  let numai := zlength (filter (fun b => ~ free_bot s b) (bots s)) in
  if maxai <=? numai then ret None else
  match list_find (free_bot s) (bots s) with
  | Some (_, Some ci) =>
    let owner := findaiclient None s in
    upd_ci ci (fun c => c <| ownernum := ownernum_of owner s |> <| aireinit := 2 |>) ;;
    set_refresh ;;
    ret owner
  | slot =>
    cn <- (match slot with
           | Some (cn, _) => ret cn
           | None => set_roster {{ bots ::= fun l => l ++ [None] }} ;; ret (length (bots s))
           end) ;;
    s <- get_server ;;
    ci <- init_bot cn skill_ (if m_teammode (gamemode s) then chooseteam s else []) ;;
    ret (Some ci)
  end.

Definition leaves (ci : nat) (s : server) : bool :=
  (0 <=? ownernum (deref ci s)) && (aireinit (deref ci s) =? 0).
Definition removebot (owner : option nat) (ci : nat) : M server unit :=
  match owner with Some o => upd_bots o (removeobj ci) | None => ret tt end.
Definition deleteai (ci : nat) : M server unit :=
  s <- get_server ;;
  let cn := clientnum (deref ci s) - MAXCLIENTS in
  if bool_decide (bots s .! cn = None) then ret tt else
  when (leaves ci s) (with_smode (fun m => sm_leavegame m ci true)) ;;
  sendf (-1) 1 (message N_CDIS [FInt (clientnum (deref ci s))]) ;;
  fire "botleft" [AInt (clientnum (deref ci s))] ;;
  s <- get_server ;;
  removebot (getclientinfo (ownernum (deref ci s)) s) ci ;;
  set_roster {{ clients ::= removeobj ci }} ;;
  fire "disconnect" [AInt (clientnum (deref ci s)); AStr []] ;;
  set_roster (fun r => r <| ci_heap ::= delete ci |> <| bots ::= fun l => zinsert l cn None |>) ;;
  set_refresh.
(** The last bot that somebody runs. *)
Definition deleteai_any : M server bool :=
  s <- get_server ;;
  match filter (fun b => 0 <= ownernum (deref b s)) (rev (omap id (bots s))) with
  | b :: _ => deleteai b ;; ret true
  | [] => ret false
  end.

Definition reinitai (ci : nat) : M server unit :=
  s <- get_server ;;
  let c := deref ci s in
  if ownernum c <? 0 then deleteai ci
  else if 1 <=? aireinit c then
    sendf (-1) 1 (initai c) ;;
    when (aireinit c =? 2) (
      upd_ci ci ci_reassign ;;
      s <- get_server ;;
      if cs_eqb (state (deref ci s)) CS_ALIVE then sendspawn ci else sendresume ci) ;;
    upd_ci ci {{ aireinit := 0 }}
  else ret tt.

Definition shiftai (ci : nat) (owner : option nat) : M server unit :=
  s <- get_server ;;
  when (leaves ci s) (with_smode (fun m => sm_leavegame m ci true)) ;;
  s <- get_server ;;
  removebot (getclientinfo (ownernum (deref ci s)) s) ci ;;
  match owner with
  | None => upd_ci ci (fun c => c <| aireinit := 0 |> <| ownernum := -1 |>)
  | Some o =>
    when (negb (ownernum (deref ci s) =? clientnum (deref o s))) (
      upd_ci ci (fun c => c <| aireinit := 2 |> <| ownernum := clientnum (deref o s) |>) ;;
      upd_bots o (fun l => l ++ [ci]))
  end ;;
  set_refresh.
(** [loopvrev(ci->bots)]: from the last index of the list as it was. *)
Definition removeai (ci : nat) : M server unit :=
  s <- get_server ;;
  forM (rev (seq 0 (numbots ci s))) (fun i =>
    s <- get_server ;;
    match ci_bots (deref ci s) !! i with
    | Some b => shiftai b (findaiclient (Some ci) s)
    | None => ret tt
    end).

(** The players with the most and the fewest bots. *)
Definition busiest (s : server) (acc : option (nat * nat)) (ci : nat) : option (nat * nat) :=
  if negb (validaiclient (deref ci s)) then acc else
  match acc with
  | None => Some (ci, ci)
  | Some (hi, lo) => Some (if (numbots hi s <? numbots ci s)%nat then ci else hi,
                           if (numbots ci s <? numbots lo s)%nat then ci else lo)
  end.
Definition reassignai : M server bool :=
  s <- get_server ;;
  match fold_left (busiest s) (clients s) None with
  | Some (hi, lo) =>
    if (1 <? numbots hi s - numbots lo s)%nat then
      match last (ci_bots (deref hi s)) with
      | Some b => shiftai b (Some lo) ;; ret true
      | None => ret false
      end
    else ret false
  | None => ret false
  end.
(** [while(reassignai());] *)
Fixpoint reassign_loop (fuel : nat) : M server unit :=
  match fuel with
  | O => ret tt
  | S fuel => b <- reassignai ;; if (b : bool) then reassign_loop fuel else ret tt
  end.

Definition checksetup : M server unit :=
  s <- get_server ;;
  when (m_teammode (gamemode s) && botbalance s) balanceteams ;;
  s <- get_server ;;
  forM (rev (seq 0 (length (bots s)))) (fun i =>
    s <- get_server ;;
    match bots s !! i with Some (Some b) => reinitai b | _ => ret tt end).
Definition clearai : M server unit :=
  s <- get_server ;;
  forM (rev (seq 0 (length (bots s)))) (fun i =>
    s <- get_server ;;
    match bots s !! i with Some (Some b) => deleteai b | _ => ret tt end) ;;
  set_ai {{ next_botid := -2 }}.

(** The squares of the loads: every exchange of [reassign_loop] lowers their sum. *)
Definition square (s : server) (ci : nat) : nat := (numbots ci s * numbots ci s)%nat.
Definition load (s : server) : nat := list_sum (map (square s) (clients s)).
Definition checkai : M server unit :=
  s <- get_server ;;
  if negb (dorefresh s) then ret tt else
  set_ai {{ dorefresh := false }} ;;
  if m_botmode (gamemode s) && negb (numclients (-1) false true false s =? 0)
  then checksetup ;; s <- get_server ;; reassign_loop (S (load s))
  else clearai.

(** ** What a client may ask for *)
Definition reqadd (ci : nat) (skill_ : Z) : M server unit :=
  s <- get_server ;;
  let c := deref ci s in
  if negb (local c) && (privilege c =? 0) then ret tt else
  boti <- addai skill_ (if negb (local c) && (privilege c <? PRIV_ADMIN) then botlimit s else -1) ;;
  match boti with
  | None => sendf (clientnum c) 1 (message N_SERVMSG [FStr (cstr "failed to create or assign bot")])
  | Some b =>
    s <- get_server ;;
    fire "addbot" [AInt (clientnum c); AInt skill_; AInt (clientnum (deref b s))] ;; ret tt
  end.
Definition reqdel (ci : nat) : M server unit :=
  s <- get_server ;;
  let c := deref ci s in
  if negb (local c) && (privilege c =? 0) then ret tt else
  b <- deleteai_any ;;
  if negb b then sendf (clientnum c) 1 (message N_SERVMSG [FStr (cstr "failed to remove any bots")])
  else fire "delbot" [AInt (clientnum c)] ;; ret tt.
Definition setbotlimit (ci : option nat) (limit : Z) : M server unit :=
  s <- get_server ;;
  if match ci with
     | Some ci => negb (local (deref ci s)) && (privilege (deref ci s) <? PRIV_ADMIN)
     | None => false
     end then ret tt else
  let n := clamp limit 0 MAXBOTS in
  set_ai {{ botlimit := n }} ;;
  set_refresh ;;
  sendservmsg (cstr "bot limit is now " ++ print_int n).
Definition setbotbalance (ci : option nat) (balance : bool) : M server unit :=
  s <- get_server ;;
  if match ci with
     | Some ci => negb (local (deref ci s)) && (privilege (deref ci s) =? 0)
     | None => false
     end then ret tt else
  set_ai {{ botbalance := balance }} ;;
  set_refresh ;;
  sendservmsg (cstr "bot team balancing is now " ++ (if balance then cstr "enabled" else cstr "disabled")).

Definition ai_changemap : M server unit :=
  set_refresh ;;
  s <- get_server ;;
  if existsb (fun ci => local (deref ci s) || negb (privilege (deref ci s) =? 0)) (clients s) then ret tt
  else when (negb (botbalance s)) (setbotbalance None true).
Definition ai_addclient (ci : nat) : M server unit :=
  s <- get_server ;; when (aitype (deref ci s) =? AI_NONE) set_refresh.
Definition ai_changeteam (ci : nat) : M server unit :=
  s <- get_server ;; when (aitype (deref ci s) =? AI_NONE) set_refresh.
End ai.

(** * Spreading the bots over the players *)

(** What [shiftai] and the choice of players look at. *)
Definition run_view (c : clientinfo) : list nat * Z * Z * bool :=
  (ci_bots c, ownernum c, clientnum c, validaiclient c).
Abbreviation runs := (heap_view run_view).

(** Every player is in its slot, and the bots it runs know it. *)
Record runs_wf (s : server) : Prop := {
  rw_clients : NoDup (clients s);
  rw_heap ci : ci ∈ clients s -> is_Some (ci_heap s !! ci);
  rw_slot ci : ci ∈ clients s -> validaiclient (deref ci s) = true ->
    getclientinfo (clientnum (deref ci s)) s = Some ci;
  rw_bots ci : ci ∈ clients s -> validaiclient (deref ci s) = true ->
    NoDup (ci_bots (deref ci s)) /\
    Forall (fun b => ownernum (deref b s) = clientnum (deref ci s) /\
      validaiclient (deref b s) = false /\ is_Some (ci_heap s !! b)) (ci_bots (deref ci s))
}.

(** One bot goes from [hi] to [lo]. *)
Definition exchange (hi lo b : nat) (n : Z) (m : gmap nat (list nat * Z * Z * bool)) :=
  alter (fun '(l, o, c, v) => (l ++ [b], o, c, v)) lo
    (alter (fun '(l, o, c, v) => (l, n, c, v)) b
      (alter (fun '(l, o, c, v) => (removeobj b l, o, c, v)) hi m)).

Lemma runs_frame f ci s :
  (forall c, run_view (f c) = run_view c) -> runs (exec (upd_ci ci f) s) = runs s.
Proof. intros Hf. symmetry. by apply heap_view_frame. Qed.
Lemma getclientinfo_runs n s s' : runs s' = runs s -> getclientinfo n s' = getclientinfo n s.
Proof. intros [= _ _ _ _ _ _ _ E]. unfold getclientinfo. by rw E. Qed.

Section shift.
Context {hooks : Hooks} `{!HooksRespect (eq_on (heap_view (fun c => c)))}.

Lemma shiftai_exchange hi lo b (s : server) :
  runs_wf s -> hi ∈ clients s -> lo ∈ clients s ->
  validaiclient (deref hi s) = true -> b ∈ ci_bots (deref hi s) ->
  clientnum (deref hi s) <> clientnum (deref lo s) ->
  runs (exec (shiftai b (Some lo)) s) =
  (exchange hi lo b (clientnum (deref lo s)) (run_view <$> ci_heap s), match_view s).
Proof using All.
  intros Hwf Hhi Hlo Hv Hb Hne.
  destruct (rw_bots _ Hwf hi Hhi Hv) as [_ Hall]. destruct (proj1 (list.Forall_forall _ _) Hall b Hb) as (Ho&Hbv&_).
  unfold shiftai. rw (exec_bind get_server). cbn [eval exec get_server gets fst snd id].
  assert (HooksRespect (eq_on runs)) by by apply hooks_heap_view.
  rw exec_bind. set (s1 := exec (when _ _) s).
  assert (runs s1 = runs s) as E1.
  { symmetry. assert (respects (eq_on runs) (when (leaves b s) (with_smode (fun m => sm_leavegame m b true)))) as Hr;
      [|exact (Hr s)].
    apply respects_when; [apply _|]. apply respects_with_smode; [apply _|]. intros k. by apply mr_leavegame. }
  clearbody s1. rw (exec_bind get_server). cbn [eval exec get_server gets fst snd id].
  pose proof (heap_view_deref run_view s1 s b E1) as Db. pose proof (heap_view_deref run_view s1 s lo E1) as Dl.
  injection Db as _ Ob _ _. injection Dl as _ _ Nl _.
  rw Ob Ho (getclientinfo_runs _ _ _ E1) (rw_slot _ Hwf hi Hhi Hv) Nl.
  rewrite -> (proj2 (Z.eqb_neq _ _)) by exact Hne. cbn [negb when removebot].
  rw !exec_bind. cbn [eval exec ret fst snd]. unfold set_refresh.
  set (s2 := exec (upd_bots hi (removeobj b)) s1). set (s3 := exec (upd_ci b _) s2).
  change (runs (exec (upd_bots lo (fun l => l ++ [b])) s3) =
    (exchange hi lo b (clientnum (deref lo s)) (run_view <$> ci_heap s), match_view s)).
  unfold upd_bots. rw (heap_view_upd run_view _ (fun '(l, o, c, v) => (l ++ [b], o, c, v))) //.
  assert (runs s3 = (alter (fun '(l, o, c, v) => (l, clientnum (deref lo s), c, v)) b (run_view <$> ci_heap s2),
    match_view s2)) as E3 by by apply (heap_view_upd run_view).
  assert (runs s2 = (alter (fun '(l, o, c, v) => (removeobj b l, o, c, v)) hi (run_view <$> ci_heap s1),
    match_view s1)) as E2 by by apply (heap_view_upd run_view).
  unfold heap_view in E1, E2, E3. apply pair_equal_spec in E1 as [E1 M1], E2 as [E2 M2], E3 as [E3 M3].
  rw E3 M3 E2 M2 E1 M1. done.
Qed.
End shift.

(** The view of client [ci] after the exchange. *)
Definition moved (hi lo b : nat) (n : Z) (ci : nat) (x : list nat * Z * Z * bool) : list nat * Z * Z * bool :=
  let '(l, o, c, v) := x in
  (if decide (ci = lo) then l ++ [b] else if decide (ci = hi) then removeobj b l else l,
   if decide (ci = b) then n else o, c, v).

Section exchanged.
Context (hi lo b : nat) (n : Z) (s s' : server)
  (Hhl : hi <> lo) (Hbh : b <> hi) (Hbl : b <> lo)
  (Hheap : forall ci, ci ∈ [hi; lo; b] -> is_Some (ci_heap s !! ci))
  (E : runs s' = (exchange hi lo b n (run_view <$> ci_heap s), match_view s)).

Lemma exchange_lookup ci :
  run_view <$> ci_heap s' !! ci = moved hi lo b n ci <$> (run_view <$> ci_heap s !! ci).
Proof using All.
  pose proof (f_equal (fun x => x.1 !! ci) E) as H. cbn in H. rw lookup_fmap in H. rw H.
  unfold exchange, moved. rewrite -> !lookup_alter, !lookup_fmap.
  destruct (ci_heap s !! ci) as [c|] eqn:Ec; cbn; repeat case_decide; subst; try congruence;
    by rw ?lookup_fmap ?Ec.
Qed.
Lemma exchange_heap ci : is_Some (ci_heap s' !! ci) <-> is_Some (ci_heap s !! ci).
Proof using All.
  pose proof (exchange_lookup ci) as H. destruct (ci_heap s' !! ci), (ci_heap s !! ci); cbn in H; try done;
    split; eauto.
Qed.
Lemma exchange_deref ci : run_view (deref ci s') = moved hi lo b n ci (run_view (deref ci s)).
Proof using All.
  pose proof (exchange_lookup ci) as H. unfold deref.
  destruct (ci_heap s' !! ci) as [c'|], (ci_heap s !! ci) as [c|] eqn:Es; cbn in H; try done.
  - exact (f_equal (default (run_view c)) H).
  - assert (ci ∉ [hi; lo; b]) as Hni by (intros Hin; destruct (Hheap ci Hin); congruence).
    unfold moved. cbn. rewrite -> !decide_False by set_solver. done.
Qed.
(** The bots of each player, after the exchange, still know who runs them. *)
Lemma exchange_owned ci :
  (b ∈ ci_bots (deref ci s) <-> ci = hi) -> n = clientnum (deref lo s) -> validaiclient (deref b s) = false ->
  is_Some (ci_heap s !! b) ->
  NoDup (ci_bots (deref ci s)) /\
  Forall (fun x => ownernum (deref x s) = clientnum (deref ci s) /\
    validaiclient (deref x s) = false /\ is_Some (ci_heap s !! x)) (ci_bots (deref ci s)) ->
  NoDup (ci_bots (deref ci s')) /\
  Forall (fun x => ownernum (deref x s') = clientnum (deref ci s') /\
    validaiclient (deref x s') = false /\ is_Some (ci_heap s' !! x)) (ci_bots (deref ci s')).
Proof using All.
  intros Hb Hn Vb Hsome [Nd Fa].
  pose proof exchange_deref as D. unfold run_view, moved in D.
  assert (forall x, clientnum (deref x s') = clientnum (deref x s) /\
    validaiclient (deref x s') = validaiclient (deref x s)) as Dv.
  { intros x. specialize (D x). by injection D as _ _ -> ->. }
  assert (forall x, ownernum (deref x s') = if decide (x = b) then n else ownernum (deref x s)) as Do.
  { intros x. specialize (D x). by injection D as _ -> _ _. }
  assert (forall l, b ∉ l -> (forall x, x ∈ l -> x ∈ ci_bots (deref ci s)) ->
    Forall (fun x => ownernum (deref x s') = clientnum (deref ci s') /\
      validaiclient (deref x s') = false /\ is_Some (ci_heap s' !! x)) l) as Hl.
  { intros l Hbl' Hl. apply list.Forall_forall. intros x Hx.
    destruct (proj1 (list.Forall_forall _ _) Fa x (Hl x Hx)) as (?&?&?).
    rw Do exchange_heap. destruct (Dv x) as [_ ->]. destruct (Dv ci) as [-> _].
    rewrite -> decide_False by congruence. done. }
  specialize (D ci). injection D as Db _ _ _. rw Db. case_decide; [|case_decide]; subst ci || idtac.
  - assert (b ∉ ci_bots (deref lo s)) as Hni by (rw Hb; congruence). split.
    + apply NoDup_app. split_and!; [done| |by apply NoDup_singleton]. set_solver.
    + apply Forall_app. split; [by apply Hl|]. constructor; [|done].
      rw Do exchange_heap. destruct (Dv b) as [_ ->]. destruct (Dv lo) as [-> _]. by rewrite -> decide_True by done.
  - unfold removeobj. split; [by apply list.NoDup_filter|]. apply Hl; [|intros x]; rw list_elem_of_filter; tauto.
  - split; [done|]. apply Hl; [by rw Hb|done].
Qed.
End exchanged.

(** Spread and order of the loads. *)
Lemma busiest_spec (s : server) l :
  match fold_left (busiest s) l None with
  | Some (hi, lo) => hi ∈ l /\ lo ∈ l /\ validaiclient (deref hi s) = true /\ validaiclient (deref lo s) = true /\
      forall ci, ci ∈ l -> validaiclient (deref ci s) = true -> (numbots lo s <= numbots ci s <= numbots hi s)%nat
  | None => forall ci, ci ∈ l -> validaiclient (deref ci s) = false
  end.
Proof.
  induction l as [|ci l IH] using rev_ind; [by intros ci ?%elem_of_nil|].
  rw fold_left_app. cbn [fold_left]. unfold busiest at 1.
  destruct (validaiclient (deref ci s)) eqn:Ev; cbn [negb]; destruct (fold_left (busiest s) l None) as [[hi lo]|].
  - destruct IH as (Hhi&Hlo&Vhi&Vlo&Hall).
    assert (ci ∈ l ++ [ci]) by set_solver. assert (hi ∈ l ++ [ci]) by set_solver. assert (lo ∈ l ++ [ci]) by set_solver.
    pose proof (Hall hi Hhi Vhi). pose proof (Hall lo Hlo Vlo).
    destruct (Nat.ltb_spec (numbots hi s) (numbots ci s)), (Nat.ltb_spec (numbots ci s) (numbots lo s));
      split_and!; try done; intros cj [Hj| ->%list_elem_of_singleton]%elem_of_app Hv;
      try (pose proof (Hall cj Hj Hv)); lia.
  - split_and!; try set_solver; [done..|]. intros cj [Hj| ->%list_elem_of_singleton]%elem_of_app Hv; [|lia].
    by rw IH in Hv.
  - destruct IH as (Hhi&Hlo&Vhi&Vlo&Hall). split_and!; [set_solver..|done|done|].
    intros cj [Hj| ->%list_elem_of_singleton]%elem_of_app Hv; [by apply Hall|congruence].
  - intros cj [Hj| ->%list_elem_of_singleton]%elem_of_app; auto.
Qed.

Lemma sum_exchange (f g : nat -> nat) l hi lo :
  NoDup l -> hi ∈ l -> lo ∈ l -> hi <> lo -> (forall ci, ci <> hi -> ci <> lo -> g ci = f ci) ->
  (list_sum (map g l) + f hi + f lo = list_sum (map f l) + g hi + g lo)%nat.
Proof.
  intros Hnd Hhi Hlo Hne Hg.
  destruct (elem_of_Permutation l hi) as [H1 _]. destruct (H1 Hhi) as [k Hk]. clear H1.
  assert (lo ∈ k) as Hlk by (rw Hk in Hlo; set_solver).
  destruct (elem_of_Permutation k lo) as [H1 _]. destruct (H1 Hlk) as [k' Hk']. clear H1.
  assert (forall h, list_sum (map h l) = h hi + (h lo + list_sum (map h k')))%nat as Hs.
  { intros h. rewrite -> (Permutation_map h Hk). cbn. rewrite -> (Permutation_map h Hk'). done. }
  rw !Hs. rw Hk Hk' in Hnd. apply NoDup_cons in Hnd as [Hn1 [Hn2 _]%NoDup_cons].
  rewrite -> (map_ext_in g f k'); [lia|]. intros ci Hci%list_elem_of_In. apply Hg; set_solver.
Qed.
Lemma removeobj_length b l : NoDup l -> b ∈ l -> length l = S (length (removeobj b l)).
Proof.
  unfold removeobj. induction 1 as [|x l Hx Hnd IH]; [by intros ?%elem_of_nil|]. intros Hb. rw filter_cons.
  destruct (decide (x = b)) as [->|Hne].
  - rewrite -> decide_False by tauto. cbn. f_equal. clear IH Hnd Hb. induction l as [|y l IH]; [done|].
    rw filter_cons. rewrite -> decide_True by set_solver. cbn. rewrite <- IH; [done|]. set_solver.
  - rewrite -> decide_True by done. cbn. rewrite <- IH; [done|]. set_solver.
Qed.

Section spread.
Context {hooks : Hooks} `{!HooksRespect (eq_on (heap_view (fun c => c)))}.

(** What one exchange does to a well-formed server. *)
Lemma exchange_step hi lo b (s s' : server) :
  runs_wf s -> hi ∈ clients s -> lo ∈ clients s -> b ∈ ci_bots (deref hi s) ->
  validaiclient (deref hi s) = true -> validaiclient (deref lo s) = true -> hi <> lo ->
  runs s' = (exchange hi lo b (clientnum (deref lo s)) (run_view <$> ci_heap s), match_view s) ->
  runs_wf s' /\ clients s' = clients s /\
  numbots hi s = S (numbots hi s') /\ numbots lo s' = S (numbots lo s) /\
  forall ci, validaiclient (deref ci s') = validaiclient (deref ci s) /\
             (ci <> hi -> ci <> lo -> numbots ci s' = numbots ci s).
Proof.
  intros Hwf Hhi Hlo Hb Vhi Vlo Hne E. pose proof Hwf as [Hnd Hh Hs Hbots].
  destruct (Hbots hi Hhi Vhi) as [Nhi Fhi]. destruct (proj1 (list.Forall_forall _ _) Fhi b Hb) as (Ob&Vb&Hbh).
  assert (b <> hi) as Hb1 by congruence. assert (b <> lo) as Hb2 by congruence.
  assert (forall ci, ci ∈ [hi; lo; b] -> is_Some (ci_heap s !! ci)) as Hheap.
  { intros ci Hci. set_unfold. destruct Hci as [->|[->|[->|[]]]]; auto. }
  pose proof (exchange_deref hi lo b _ s s' Hne Hb1 Hb2 Hheap E) as D. unfold run_view, moved in D.
  pose proof (exchange_heap hi lo b _ s s' Hne Hb1 Hb2 Hheap E) as H.
  pose proof (f_equal snd E) as M. injection M as _ _ Mc _ _ _ Ms.
  assert (forall ci, clientnum (deref ci s') = clientnum (deref ci s) /\
    validaiclient (deref ci s') = validaiclient (deref ci s) /\
    ci_bots (deref ci s') = if decide (ci = lo) then ci_bots (deref ci s) ++ [b]
      else if decide (ci = hi) then removeobj b (ci_bots (deref ci s)) else ci_bots (deref ci s)) as Dv.
  { intros ci. specialize (D ci). by injection D as -> _ -> ->. }
  clear D. split_and!.
  - split; rw ?Mc; [done|by intros ci Hci%Hh; apply H|..]; intros ci Hci; destruct (Dv ci) as (Dn&->&_); intros Hv.
    + rw Dn -(Hs ci Hci Hv). unfold getclientinfo. by rw Ms.
    + apply (exchange_owned hi lo b _ s s' Hne Hb1 Hb2 Hheap E); [|done..|by apply Hbots].
      split; [|by intros ->]. intros Hin. destruct (Hbots ci Hci Hv) as [_ Fci].
      destruct (proj1 (list.Forall_forall _ _) Fci b Hin) as (Ob'&_&_).
      pose proof (Hs ci Hci Hv) as E1. pose proof (Hs hi Hhi Vhi) as E2. congruence.
  - done.
  - destruct (Dv hi) as (_&_&Eb). unfold numbots. rw Eb. rewrite -> decide_False, decide_True by done.
    by apply removeobj_length.
  - destruct (Dv lo) as (_&_&Eb). unfold numbots. rw Eb. rewrite -> decide_True by done.
    rw length_app. cbn. lia.
  - intros ci. destruct (Dv ci) as (_&Ev&Eb). split; [done|]. intros H1 H2. unfold numbots. rw Eb.
    by rewrite -> !decide_False by done.
Qed.

(** The bots the players run, all together. *)
Definition player_load (s : server) (ci : nat) : nat := if validaiclient (deref ci s) then numbots ci s else O.
Definition total_bots (s : server) : nat := list_sum (map (player_load s) (clients s)).
(** No player runs two bots more than another. *)
Definition spread (s : server) : Prop :=
  forall ci cj, ci ∈ clients s -> cj ∈ clients s ->
    validaiclient (deref ci s) = true -> validaiclient (deref cj s) = true ->
    (numbots ci s <= numbots cj s + 1)%nat.

Lemma reassignai_spec (s : server) :
  runs_wf s ->
  let '(again, s') := reassignai s in
  if again : bool then
    runs_wf s' /\ clients s' = clients s /\ total_bots s' = total_bots s /\ (load s' < load s)%nat
  else s' = s /\ spread s.
Proof using All.
  intros Hwf. unfold reassignai, bind at 1, get_server, gets. cbn [id].
  pose proof (busiest_spec s (clients s)) as Hb. destruct (fold_left (busiest s) (clients s) None) as [[hi lo]|]; last first.
  { split; [done|]. intros ci cj Hci Hcj Hv. by rw (Hb ci Hci) in Hv. }
  destruct Hb as (Hhi&Hlo&Vhi&Vlo&Hall).
  destruct (Nat.ltb_spec 1 (numbots hi s - numbots lo s)) as [Hgap|Hgap]; last first.
  { split; [done|]. intros ci cj Hci Hcj Vi Vj. pose proof (Hall ci Hci Vi). pose proof (Hall cj Hcj Vj). lia. }
  destruct (last (ci_bots (deref hi s))) as [b|] eqn:El; last first.
  { apply last_None in El. unfold numbots in Hgap. rw El in Hgap. cbn in Hgap. lia. }
  apply last_Some_elem_of in El. assert (hi <> lo) as Hne by (intros ->; lia).
  assert (clientnum (deref hi s) <> clientnum (deref lo s)) as Hcn.
  { intros E. pose proof (rw_slot _ Hwf hi Hhi Vhi) as E1. pose proof (rw_slot _ Hwf lo Hlo Vlo) as E2. congruence. }
  pose proof (shiftai_exchange hi lo b s Hwf Hhi Hlo Vhi El Hcn) as E. unfold bind.
  unfold exec in E. destruct (shiftai b (Some lo) s) as [[] s']. cbn [snd] in E. cbn.
  destruct (exchange_step hi lo b s s' Hwf Hhi Hlo El Vhi Vlo Hne E) as (Hwf'&Ec&Nhi&Nlo&Hother).
  split_and!; [done|done|..].
  - unfold total_bots. rw Ec.
    pose proof (sum_exchange (player_load s) (player_load s') (clients s) hi lo (rw_clients _ Hwf) Hhi Hlo Hne) as Hs.
    assert (player_load s hi = numbots hi s /\ player_load s lo = numbots lo s /\
      player_load s' hi = numbots hi s' /\ player_load s' lo = numbots lo s') as (E1&E2&E3&E4).
    { unfold player_load. destruct (Hother hi) as [-> _]. destruct (Hother lo) as [-> _]. by rw Vhi Vlo. }
    rw E1 E2 E3 E4 in Hs. specialize (Hs ltac:(intros; unfold player_load; destruct (Hother ci) as [-> ->]; done)).
    lia.
  - unfold load. rw Ec.
    pose proof (sum_exchange (square s) (square s') (clients s) hi lo (rw_clients _ Hwf) Hhi Hlo Hne) as Hs.
    specialize (Hs ltac:(intros; unfold square; destruct (Hother ci) as [_ ->]; done)). 
    assert (forall s ci, square s ci = (numbots ci s * numbots ci s)%nat) as Hsq by done.
    rw !(Hsq _ hi) !(Hsq _ lo) Nhi Nlo in Hs. rw Nhi in Hgap. nia.
Qed.

(** C25: the bots are spread evenly.  However unevenly the bots of a server are
    run, [while(reassignai());] comes to an end: it leaves a server where no
    player runs two bots more than another, the clients are the same, as many
    bots are run as before, and whatever a base mode does when a bot changes
    hands, every player is the owner of the bots it runs. *)
Theorem reassign_spreads (s : server) :
  runs_wf s ->
  let s' := exec (reassign_loop (S (load s))) s in
  runs_wf s' /\ clients s' = clients s /\ total_bots s' = total_bots s /\ spread s' /\
  eval reassignai s' = false.
Proof using All.
  cut (forall fuel s, (load s < fuel)%nat -> runs_wf s -> let s' := exec (reassign_loop fuel) s in
    runs_wf s' /\ clients s' = clients s /\ total_bots s' = total_bots s /\ spread s' /\
    eval reassignai s' = false); [intros H Hwf; apply H; [lia|done]|].
  clear s. induction fuel as [|fuel IH]; intros s Hf Hwf; [lia|]. cbn [reassign_loop]. rw exec_bind.
  pose proof (reassignai_spec s Hwf) as Hr.
  unfold eval, exec in *. destruct (reassignai s) as [[] s'] eqn:E; cbn [fst snd].
  - destruct Hr as (Hwf'&Ec&Et&Hl). destruct (IH s' ltac:(lia) Hwf') as (H1&H2&H3&H4&H5).
    split_and!; [done|by rw H2|by rw H3|done|done].
  - destruct Hr as [-> Hs]. cbn. split_and!; try done. exact (f_equal fst E).
Qed.
End spread.

(** [runs_wf] of a concrete server. *)
Lemma runs_wf_check (s : server) :
  NoDup (clients s) ->
  Forall (fun ci => is_Some (ci_heap s !! ci) /\
    (validaiclient (deref ci s) = true ->
     getclientinfo (clientnum (deref ci s)) s = Some ci /\ NoDup (ci_bots (deref ci s)) /\
     Forall (fun b => ownernum (deref b s) = clientnum (deref ci s) /\
       validaiclient (deref b s) = false /\ is_Some (ci_heap s !! b)) (ci_bots (deref ci s)))) (clients s) ->
  runs_wf s.
Proof.
  intros Hnd Hall. rewrite -> list.Forall_forall in Hall.
  split; [done|..]; intros ci Hci; destruct (Hall ci Hci) as [? H]; [done|..]; intros Hv; by destruct (H Hv) as (?&?&?).
Qed.

(** Clients [from] and up are bots, and client 0 runs them all. *)
Definition ai_sample (mode : Z) (teams : list cstring) (from : nat) : server :=
  sample_server mode teams <| sv_roster ::= fun r =>
    r <| ci_heap ::= fun h =>
          alter {{ ci_bots := seq from (length teams - from) }} 0%nat
            (map_imap (fun ci c => Some (if (from <=? ci)%nat then
               c <| clientnum := MAXCLIENTS + Z.of_nat (ci - from) |> <| ownernum := 0 |>
                 <| ci_state ::= {{ fps ::= {{ aitype := AI_BOT }} }} |> else c)) h) |>
      <| slots ::= take from |>
      <| bots := map Some (seq from (length teams - from)) |> |>.

Lemma reassign_spreads_witness :
  let s := ai_sample 0 (replicate 8 good) 3 in
  runs_wf s /\ map (fun ci => numbots ci s) [0; 1; 2]%nat = [5; 0; 0]%nat /\
  spread (exec (reassign_loop (hooks := no_hooks) (S (load s))) s) /\
  map (fun ci => numbots ci (exec (reassign_loop (hooks := no_hooks) (S (load s))) s)) [0; 1; 2]%nat = [2; 2; 1]%nat.
Proof.
  set (s := ai_sample 0 (replicate 8 good) 3).
  assert (runs_wf s) as Hwf by (apply runs_wf_check; decide_now).
  split_and!; [exact Hwf|vm_compute; reflexivity| |vm_compute; reflexivity].
  apply (reassign_spreads (hooks := no_hooks) s Hwf).
Defined.

(** ** Two things [balanceteams] does that it should not

    How many clients play for each of the teams after a server of bots only was
    balanced. *)
Definition balanced (teams : list cstring) (all : list cstring) : list nat :=
  let s := exec (balanceteams (hooks := no_hooks)) (ai_sample 2 all 0) in
  map (fun t => length (filter (fun ci => team (deref ci s) = t) (clients s))) teams.

(** [t] is a reference to [teams.last()], read again after the table was put in
    order: with three teams the bot joins another team than the one it was
    counted for, and the third team stays behind. *)
Example balanceteams_wrong_team :
  let A := cstr "A" in let B := cstr "B" in let C := cstr "C" in
  balanced [A; B; C] [A; A; A; A; A; B; B; C; C] = [4; 3; 2]%nat.
Proof. vm_compute. reflexivity. Qed.
(** The name in [teams[0]] is the buffer of the first bot of that team: moving
    that bot renames the team in the table, no other bot is found in it, and the
    balancing stops. *)
Example balanceteams_stops_early : balanced [good; evil] [good; good; good; good; good; good] = [5; 1]%nat.
Proof. vm_compute. reflexivity. Qed.
