(* ===== verification/Demo.v ===== *)
(** Recording and playing demos (fpsgame/server.cpp 1050-1360).

    The files and the clock are the class [Files]; what a compressed file holds
    is the list of its bytes.  A demo that is recorded is the sequence of
    [Record_] outputs between the start and the end of the recording. *)
From S2P Require Import Prelude Wire Text Game State Ents Engine Roster Cheat Welcome.

#[local] Open Scope list_scope.

Definition MAXDEMOS : Z := 5.
Definition MAXDEMOSIZE : Z := 16 * 1024 * 1024.
Definition DEMO_VERSION : Z := 1.
Definition DEMO_MAGIC : list Z := cstr "SAUERBRATEN_DEMO".

(** [packet->referenceCount > 0]: the network has taken the packet, which it does
    for every connected peer. *)
Definition queued (n : Z) (s : server) : bool :=
  match slots s .! (if spycn s <=? n then real_cn n s else n) with
  | Some sl => bool_decide (sl_type sl = ST_TCPIP)
  | None => false
  end.
(** [sendfile]: whether the packet is on its way. *)
Definition sendfile (cn chan : Z) (file : list Z) (fs : list field) : M server bool :=
  s <- get_server ;;
  let len := zlength file in
  if negb ((0 <=? cn) && (cn <? zlength (slots s))) || (len <=? 0) || (Z.shiftl 16 20 <? len) then ret false else
  sendpacket cn chan (fs ++ [FRaw file]) (-1) ;;
  ret (queued cn s).

Section demo.
Context {hooks : Hooks} {files : Files}.

Definition sendservmsgf (t : cstring) : M server unit := sendservmsg (copystring t MAXSTRLEN).
Definition unknown_mode (n : Z) : cstring := default (cstr "unknown") (modename n).
(** [%.2f] of the size in megabytes or kilobytes: both quotients are exact. *)
Definition size_text (len : Z) : cstring :=
  let mb := 1024 * 1024 <? len in
  print_hundredths false (round_half_even (100 * len) (if mb then 1024 * 1024 else 1024)) ++
  (if mb then cstr "MB" else cstr "kB").

Definition enddemorecord : M server unit :=
  s <- get_server ;;
  if negb (demorecord s) then ret tt else
  let data := take (Z.to_nat MAXDEMOSIZE) (recorded s) in
  let info := copystring (ctime_text ++ cstr ": " ++ unknown_mode (gamemode s) ++ cstr ", " ++
                smapname s ++ cstr ", " ++ size_text (zlength data)) MAXSTRLEN in
  set_demo (fun d => d <| demorecord := false |>
    <| demos ::= fun l => (if MAXDEMOS <=? zlength l then tail l else l) ++ [(info, data)] |>) ;;
  sendservmsgf (cstr "demo " ++ [34] ++ info ++ [34] ++ cstr " recorded") ;;
  fire "endrecord" [AInt (demo_id s); AInt (zlength data)] ;;
  ret tt.

(** [filename] is empty for the default name. *)
Definition setupdemorecord (broadcast : bool) (filename : cstring) : M server unit :=
  s <- get_server ;;
  if negb (m_mp (gamemode s)) || m_edit (gamemode s) then ret tt else
  let filename :=
    if bool_decide (filename = [])
    then copystring (cstr "log/demo/" ++ strftime_text ++ cstr "_" ++ smapname s ++ cstr ".dmo") MAXSTRLEN
    else filename in
  if negb (opens_for_writing filename) then ret tt else
  when broadcast (sendservmsg (cstr "recording demo")) ;;
  set_demo {{ demorecord := true }} ;;
  p <- welcomepacket None ;;
  writedemo 1 p ;;
  fire "beginrecord" [AInt 0; AStr filename] ;;
  ret tt.

Definition listdemos (cn : Z) : M server unit :=
  s <- get_server ;;
  sendpacket cn 1 (message N_SENDDEMOLIST (FInt (zlength (demos s)) :: map (fun d => FStr d.1) (demos s))) (-1).
Definition cleardemos (n : Z) : M server unit :=
  s <- get_server ;;
  if demorecord s then ret tt
  else if n =? 0 then
    set_demo {{ demos := [] }} ;; sendservmsg (cstr "cleared all demos")
  else match demos s .! (n - 1) with
  | Some _ =>
    set_demo {{ demos ::= fun l => delete (Z.to_nat (n - 1)) l }} ;;
    sendservmsgf (cstr "cleared demo " ++ print_int n)
  | None => ret tt
  end.
(** [getdemo] holds the packet until the network has delivered it. *)
Definition senddemo (ci : nat) (num tag : Z) : M server unit :=
  s <- get_server ;;
  let c := deref ci s in
  if getdemo c then ret tt else
  let num := if num =? 0 then zlength (demos s) else num in
  match demos s .! (num - 1) with
  | Some d =>
    sendf (clientnum c) 2 (message N_SENDDEMO [FInt tag; FInt (zlength d.2); FRaw d.2]) ;;
    upd_ci ci {{ getdemo := queued (clientnum c) s }}
  | None => ret tt
  end.
Definition freegetdemo (ci : nat) : M server unit := upd_ci ci {{ getdemo := false }}.
Definition freegetmap (ci : nat) : M server unit := upd_ci ci {{ getmap := false }}.

(** ** Playing *)

Definition enddemoplayback : M server unit :=
  s <- get_server ;;
  match demoplayback s with
  | None => ret tt
  | Some _ =>
    set_demo {{ demoplayback := None }} ;;
    forM (clients s) (fun ci =>
      s <- get_server ;;
      let cn := clientnum (deref ci s) in
      sendf cn 1 (message N_DEMOPLAYBACK [FInt 0; FInt cn])) ;;
    sendservmsg (cstr "demo playback finished") ;;
    forM (clients s) sendwelcome
  end.

(** Reading from the stream: all the bytes asked for, or nothing. *)
Definition demo_read (n : Z) : M server (option (list Z)) :=
  s <- get_server ;;
  match demoplayback s with
  | Some data =>
    if (0 <=? n) && (n <=? zlength data)
    then set_demo {{ demoplayback := Some (drop (Z.to_nat n) data) }} ;; ret (Some (take (Z.to_nat n) data))
    else set_demo {{ demoplayback := Some [] }} ;; ret None
  | None => ret None
  end.
(** Four bytes, the low one first, as an [int]. *)
Definition int_of_bytes (l : list Z) : Z :=
  to_int (foldr (fun b n => b + 256 * n) 0 l).
Definition demo_read_int : M server (option Z) :=
  l <- demo_read 4 ;; ret (int_of_bytes <$> l).
(** [lower] is [strcasecmp] on the suffix. *)
Definition lower (c : Z) : Z := if (65 <=? c) && (c <=? 90) then c + 32 else c.
Definition demo_file_name (s : server) : cstring :=
  let file := copystring (smapname s) MAXSTRLEN in
  let len := length file in
  if (len <? 4)%nat || negb (bool_decide (map lower (drop (len - 4) file) = cstr ".dmo"))
  then copystring (file ++ cstr ".dmo") MAXSTRLEN else file.
Definition getdemofile (file : cstring) (s : server) : option cstring :=
  let dir := demodir s in
  if bool_decide (dir = []) then None else
  let slash := match last dir with Some c => negb (c =? 47) && negb (c =? 92) | None => false end in
  let dir := if slash && (zlength dir + 1 <? MAXSTRLEN) then dir ++ [47] else dir in
  Some (copystring (dir ++ file) MAXSTRLEN).
Definition demo_error (file : cstring) (data : option (list Z)) : option cstring :=
  match data with
  | None => Some (cstr "could not read demo " ++ [34] ++ file ++ [34])
  | Some data =>
    if (length data <? 24)%nat || negb (bool_decide (take 16 data = DEMO_MAGIC))
    then Some ([34] ++ file ++ [34] ++ cstr " is not a demo file")
    else
      let hdr_version := int_of_bytes (take 4 (drop 16 data)) in
      let hdr_protocol := int_of_bytes (take 4 (drop 20 data)) in
      let requires older := Some (cstr "demo " ++ [34] ++ file ++ [34] ++ cstr " requires an " ++
            (if older : bool then cstr "older" else cstr "newer") ++ cstr " version of Cube 2: Sauerbraten") in
      if negb (hdr_version =? DEMO_VERSION) then requires (hdr_version <? DEMO_VERSION)
      else if negb (hdr_protocol =? PROTOCOL_VERSION) then requires (hdr_protocol <? PROTOCOL_VERSION)
      else None
  end.
Definition setupdemoplayback : M server unit :=
  s <- get_server ;;
  if bool_decide (is_Some (demoplayback s)) then ret tt else
  let file := demo_file_name s in
  let data :=
    match getdemofile file s ≫= gzfile with
    | Some data => Some data
    | None => gzfile file
    end in
  match demo_error file data with
  | Some msg => sendservmsgf msg
  | None =>
    set_demo {{ demoplayback := drop 24 <$> data }} ;;
    sendservmsgf (cstr "playing demo " ++ [34] ++ file ++ [34]) ;;
    sendf (-1) 1 (message N_DEMOPLAYBACK [FInt 1; FInt (-1)]) ;;
    next <- demo_read_int ;;
    match next with
    | Some n => set_demo {{ nextplayback := n }}
    | None => enddemoplayback
    end
  end.

(** [while(gamemillis>=nextplayback)]: every round takes eight bytes at least. *)
Fixpoint readdemo_loop (fuel : nat) : M server unit :=
  match fuel with
  | O => ret tt
  | S fuel =>
    s <- get_server ;;
    if gamemillis s <? nextplayback s then ret tt else
    chan <- demo_read_int ;;
    len <- (match chan with Some _ => demo_read_int | None => ret None end) ;;
    data <- (match len with Some len => demo_read len | None => ret None end) ;;
    match chan, data with
    | Some chan, Some data =>
      sendpacket (-1) chan [FRaw (msg_code N_DEMOPACKET :: data)] (-1) ;;
      next <- demo_read_int ;;
      match next with
      | Some n => set_demo {{ nextplayback := n }} ;; readdemo_loop fuel
      | None => enddemoplayback
      end
    | _, _ => enddemoplayback
    end
  end.
Definition readdemo : M server unit :=
  s <- get_server ;;
  match demoplayback s with
  | Some data => readdemo_loop (S (length data))
  | None => ret tt
  end.
Definition timeupdate (secs : Z) : M server unit :=
  s <- get_server ;;
  match demoplayback s with
  | None => ret tt
  | Some _ =>
    if secs <=? 0 then set_game {{ interm := -1 }}
    else set_game {{ gamelimit ::= fun l => tmax l (nextplayback s + secs * 1000) }}
  end.
Definition stopdemo : M server unit :=
  s <- get_server ;; if m_demo (gamemode s) then enddemoplayback else enddemorecord.

(** ** Seeking *)

(** [strtoul] in base ten, for an [unsigned long] of 64 bits. *)
Definition ULONG_MAX : Z := 2 ^ 64 - 1.
Definition is_digit (c : Z) : bool := (48 <=? c) && (c <=? 57).
Fixpoint skip_blank (t : cstring) : cstring :=
  match t with c :: u => if (c =? 32) || (9 <=? c) && (c <=? 13) then skip_blank u else t | [] => [] end.
Fixpoint read_digits (n : Z) (t : cstring) : Z * cstring :=
  match t with c :: u => if is_digit c then read_digits (10 * n + (c - 48)) u else (n, t) | [] => (n, []) end.
Definition strtoul (t : cstring) : Z * cstring :=
  let '(neg, u) := match skip_blank t with 45 :: u => (true, u) | 43 :: u => (false, u) | u => (false, u) end in
  match u with
  | c :: _ =>
    if is_digit c then
      let '(n, rest) := read_digits 0 u in
      (if ULONG_MAX <? n then ULONG_MAX else if (neg : bool) then (- n) mod 2 ^ 64 else n, rest)
    else (0, t)
  | [] => (0, t)
  end.
(** "minutes:seconds.milliseconds", or the seconds alone. *)
Definition seek_offset (t : cstring) : Z :=
  let '(n, t) := strtoul t in
  let '(mins, secs, t) :=
    match t with 58 :: u => let '(k, t) := strtoul u in (to_int n, to_int k, t) | _ => (0, to_int n, t) end in
  let millis := match t with 46 :: u => to_int (strtoul u).1 | _ => 0 end in
  tmax (to_int (millis + (mins * 60 + secs) * 1000)) 0.
(** [while(gamelimit - offset > gamemillis)]: the body makes them equal and reading does not
    move the limit (Lemma [seek_back_once]). *)
Fixpoint seek_back (fuel : nat) (offset : Z) : M server unit :=
  match fuel with
  | O => ret tt
  | S fuel =>
    s <- get_server ;;
    if gamelimit s - offset <=? gamemillis s then ret tt else
    set_game {{ gamemillis := gamelimit s - offset }} ;; readdemo ;; seek_back fuel offset
  end.
Definition seek_to (offset : Z) : M server unit :=
  s <- get_server ;;
  when (gamemillis s <? offset) (set_game {{ gamemillis := offset }} ;; readdemo).
Definition seekdemo (t : cstring) : M server unit :=
  s <- get_server ;;
  match demoplayback s with
  | None => ret tt
  | Some _ =>
    match t with 45 :: t => seek_back 2 (seek_offset t) | _ => seek_to (seek_offset t) end ;;
    s' <- get_server ;;
    when ((gamemillis s <? gamemillis s') && (interm s' =? 0))
      (sendf (-1) 1 (message N_TIMEUP [FInt (tmax ((gamelimit s' - gamemillis s') ÷ 1000) 1)]))
  end.

End demo.

(** * Seeking backwards ends at once *)
Section seeking.
Context {hooks : Hooks} {files : Files}.
Abbreviation time_view := (fun s : server => (gamelimit s, gamemillis s)).
Context `{!HooksRespect (eq_on time_view)}.

Lemma readdemo_time : respects (eq_on time_view) readdemo.
Proof using All.
  assert (forall n, respects (eq_on time_view) (readdemo_loop n)) as Hl
    by (intros n; induction n; cbn [readdemo_loop]; open_respects).
  unfold readdemo. open_respects.
Qed.
(** One round is enough, and brings the time to [offset] before the limit. *)
Lemma seek_back_once n offset s :
  let s' := exec (seek_back (S (S n)) offset) s in
  (gamelimit s' - offset <= gamemillis s') /\ s' = exec (seek_back 1 offset) s.
Proof using All.
  assert (forall n (t : server), gamelimit t - offset <= gamemillis t -> exec (seek_back n offset) t = t) as Hstop.
  { intros [|k] t Ht; cbn [seek_back]; [done|]. rewrite -> exec_bind. cbn [eval get_server gets fst id].
    by rewrite -> (proj2 (Z.leb_le _ _) Ht). }
  cbn zeta. cbn [seek_back]. rewrite -> !exec_bind. cbn [eval exec get_server gets fst snd id].
  destruct (Z.leb_spec (gamelimit s - offset) (gamemillis s)) as [Hle|Hgt]; [done|].
  rewrite -> !exec_bind. set (s1 := exec (set_game _) s). pose proof (readdemo_time s1) as [= E1 E2].
  set (s2 := exec readdemo s1) in *.
  assert (gamelimit s2 - offset <= gamemillis s2) as H2 by (rewrite <- E1, <- E2; cbn; lia).
  cbn [eval exec get_server gets fst snd id]. by rewrite -> (proj2 (Z.leb_le _ _) H2).
Qed.
End seeking.
Example seeks : map seek_offset [cstr "1:30"; cstr "90.250"; cstr "x"; cstr "-1"] = [90000; 90250; 0; 0].
Proof. vm_compute. done. Qed.

