(* ===== verification/Clients.v ===== *)
(** Clients coming and going (engine/server.cpp [addclient] to [disconnect_client],
    fpsgame/server.cpp [set_spy], [clientconnect], [clientdisconnect],
    [allowconnect], [setspectator], the master commands and what they touch).

    A client lives in the heap from [addclient] to [delclient]; the slot of the
    engine owns it, and every other vector only points to it.  [disconnect_client]
    is the whole way out: the network, the game, the memory. *)
From S2P Require Import Tiger Prelude Wire Text Float32 Game Random State Ents Engine Intermission Servmode Roster Items Cheat Combat Events Anticheat Worldstate Welcome Ai Demo.

#[local] Open Scope list_scope.

(** What [flushserver] needs of the machine: fresh memory, the room of a packet. *)
Class Host := { host_junk : Z; host_mtu : Z }.
Definition no_host : Host := {| host_junk := 0; host_mtu := 1400 |}.

(** ** Small parts *)

Definition disconnect_reasons : list cstring := map cstr
  ["normal"; "end of packet"; "client num"; "kicked/banned"; "tag type"; "ip is banned";
   "server is in private mode"; "server FULL (maxclients)"; "connection timed out"; "overflow"]%string.
Definition disconnect_reason (code : Z) : cstring :=
  if code <? 0 then [] else default [] (disconnect_reasons .! (code mod 10)).
Definition DISC_NONE : Z := 0.
Definition DISC_EOP : Z := 1.
Definition DISC_KICK : Z := 3.
Definition DISC_MSGERR : Z := 4.
Definition DISC_IPBAN : Z := 5.
Definition DISC_PRIVATE : Z := 6.
Definition DISC_MAXCLIENTS : Z := 7.
Definition DISC_TIMEOUT : Z := 8.
Definition DISC_OVERFLOW : Z := 9.
Definition DISC_PASSWORD : Z := 10.

Definition RED : cstring := [12; 51].
Definition MAXSPIES : Z := 5.
Definition MM_AUTOAPPROVE : Z := 0x1000.
(** [vector::remove(i)] does not check its index: past the end it drops the last. *)
Definition vec_remove {A} (i : Z) (l : list A) : list A :=
  if (0 <=? i) && (i <? zlength l) then delete (Z.to_nat i) l else removelast l.
Definition isxdigit (c : Z) : bool :=
  ((48 <=? c) && (c <=? 57)) || ((97 <=? c) && (c <=? 102)) || ((65 <=? c) && (c <=? 70)).
Fixpoint xdigits (s : cstring) : cstring :=
  match s with c :: s => if isxdigit c then c :: xdigits s else [] | [] => [] end.
(** The bits of [mastermask] for the modes a master may set. *)
Definition set_bit (b : bool) (n m : Z) : Z := Z.lor m (Z.shiftl (b2z b) n).
Definition mastermask_of (c : config) (m : Z) : Z :=
  let cleared := Z.ldiff m (Z.lor (Z.shiftl 1 MM_VETO) (Z.lor (Z.shiftl 1 MM_LOCKED)
                   (Z.lor (Z.shiftl 1 MM_PRIVATE) MM_AUTOAPPROVE))) in
  let m' := set_bit (allow_mm_private c) MM_PRIVATE
              (set_bit (allow_mm_locked c) MM_LOCKED (set_bit (allow_mm_veto c) MM_VETO cleared)) in
  if negb (Z.land m MM_AUTOAPPROVE =? 0) then Z.lor m' MM_AUTOAPPROVE else m'.
Definition update_mastermask : M server unit :=
  s <- get_server ;; set_game {{ mastermask ::= mastermask_of s }}.

(** ** Passwords *)

Definition hashpassword (cn session : Z) (pwd : cstring) (maxlen : Z) : cstring :=
  let buf := copystring (print_int cn ++ [32] ++ print_int session ++ [32] ++ pwd) (2 * MAXSTRLEN) in
  default [] (hashstring buf maxlen).
Definition checkpassword (ci : nat) (wanted given : cstring) (s : server) : bool :=
  let c := deref ci s in
  bool_decide (hashpassword (clientnum c) (sessionid c) wanted MAXSTRLEN = given).

Section clients.
Context {hooks : Hooks} {files : Files} {host : Host}.

Definition run_sendpackets (force : bool) : M server bool :=
  s <- get_server ;;
  r <- sendpackets host_junk host_mtu (enet_time s) (lastsend s) force ;;
  modify {{ sv_clock ::= {{ lastsend := snd r }} }} ;;
  ret (fst r).

(** [message::limit]: unsigned 64-bit milliseconds. *)
Definition limit (ci : nat) (get : resends -> Z) (set : Z -> resends -> resends) (resend_time : Z)
    (message_type : cstring) : M server bool :=
  s <- get_server ;;
  let c := deref ci s in
  if privilege c =? PRIV_ADMIN then ret false else
  let wait := (getmilliseconds s - get (ci_resends c)) mod 2 ^ 64 in
  if resend_time <=? wait then upd_ci ci {{ ci_resends ::= set (getmilliseconds s) }} ;; ret false
  else
    sendprivtext ci (copystring (RED ++ cstr "Rejected " ++ message_type ++ cstr " message (wait " ++
      print_int (to_int ((resend_time - wait + 999) / 1000)) ++ cstr " seconds before resending)!") MAXSTRLEN) ;;
    ret true.

(** ** Pausing, speed *)

Definition pausegame (val : bool) (ci : option nat) : M server unit :=
  set_game {{ pausegame_owner := -1 }} ;;
  s <- get_server ;;
  if Bool.eqb (gamepaused s) val then ret tt else
  set_game {{ gamepaused := val }} ;;
  sendf (-1) 1 (message N_PAUSEGAME [FInt (b2z val);
    FInt (match ci with Some ci => clientnum (deref ci s) | None => -1 end)]) ;;
  fire (if val then "gamepaused" else "gameresumed") [] ;;
  ret tt.
Definition checkpausegame : M server unit :=
  s <- get_server ;;
  if negb (gamepaused s) then ret tt else
  let priv := if restrictpausegame s then PRIV_ADMIN else PRIV_MASTER in
  when (negb (existsb (fun ci => (priv <=? privilege (deref ci s)) || local (deref ci s)) (clients s)))
    (pausegame false None).
Definition changegamespeed (val : Z) (ci : option nat) : M server unit :=
  s <- get_server ;;
  let val := clamp val 10 1000 in
  if gamespeed s =? val then ret tt else
  set_game {{ gamespeed := val }} ;;
  sendf (-1) 1 (message N_GAMESPEED [FInt val;
    FInt (match ci with Some ci => clientnum (deref ci s) | None => -1 end)]).
Definition scaletime (t : Z) (s : server) : Z := to_int (t * gamespeed s).

(** ** Spectators *)

Definition setspectator (ci : nat) (val broadcast : bool) : M server unit :=
  s <- get_server ;;
  let c := deref ci s in
  let spec := cs_eqb (state c) CS_SPECTATOR in
  if negb (connected c) || (if spec then val else negb val) || negb (aitype c =? AI_NONE) || spy c
  then ret tt else
  (if val then
     with_smode (fun m => sm_leavegame m ci false) ;;
     upd_gs ci {{ state := CS_SPECTATOR }} ;;
     upd_ci ci {{ specmillis := totalmillis s }} ;;
     upd_gs ci (fun gs => gs <| timeplayed ::= Z.add (lastmillis s - lasttimeplayed gs) |>) ;;
     s <- get_server ;;
     when (negb (local (deref ci s)) && (privilege (deref ci s) =? PRIV_NONE)) (removeai ci)
   else
     upd_gs ci {{ state := CS_DEAD }} ;;
     upd_gs ci respawn ;;
     upd_gs ci {{ lasttimeplayed := lastmillis s }} ;;
     ai_addclient ci) ;;
  s <- get_server ;;
  let cn := clientnum (deref ci s) in
  sendf (if broadcast then -1 else cn) 1 (message N_SPECTATOR [FInt cn; FInt (b2z val)]) ;;
  when (negb (spectator_delay s =? 0)) (
    sendf cn 1 (message N_SPECTATOR [FInt cn; FInt (b2z val)]) ;;
    sendf cn 1 (message N_TIMEUP [FInt ((gamelimit s - gamemillis s + spectator_delay s) ÷ 1000)])) ;;
  fire "spectator" [AInt cn; ABool val] ;;
  ret tt.

(** ** Masters and kicks *)

Definition revokemaster (ci : nat) : M server unit :=
  upd_ci ci {{ privilege := PRIV_NONE }} ;;
  s <- get_server ;;
  when (cs_eqb (state (deref ci s)) CS_SPECTATOR && negb (local (deref ci s))) (removeai ci).
Definition setmaster (ci : nat) (request : bool) (hashed_password : cstring) : M server bool :=
  update_mastermask ;;
  s <- get_server ;;
  fire "setmaster" [AInt (clientnum (deref ci s)); AStr hashed_password; ABool request] ;;
  s <- get_server ;;
  when (reset_mm s) checkpausegame ;;
  ret true.

(** [None] is the null pointer of a string argument. *)
Definition trykick (ci : nat) (victim : Z) (reason authname_ authdesc_ : option cstring) (authpriv : Z)
    (trial : bool) : M server bool :=
  s <- get_server ;;
  let c := deref ci s in
  let '(authname_, authdesc_) :=
    if (authpriv <=? privilege c) || local c then (None, None) else (authname_, authdesc_) in
  match getclientinfo victim s with
  | None => ret false
  | Some vinfo =>
    let v := deref vinfo s in
    if (privilege c =? PRIV_NONE) || bool_decide (vinfo = ci) || spy v || (PRIV_ADMIN <=? privilege v)
    then ret false else
    if trial then ret true else
    limited <- (if privilege c <? PRIV_ADMIN
                then limit ci n_kick_millis (fun t => {{ n_kick_millis := t }}) (resend_kick s) (cstr "kick")
                else ret false) ;;
    if (limited : bool) then ret false else
    let who := colorname ci (name c) s in
    let kicker := copystring (match authname_ with
      | Some a => who ++ cstr " as '" ++ [12; 115; 12; 53] ++ a ++ [12; 114] ++ cstr "'" ++
          match authdesc_ with
          | Some d => if bool_decide (d = []) then [] else cstr " [" ++ [12; 115; 12; 48] ++ d ++ [12; 114] ++ cstr "]"
          | None => []
          end
      | None => who
      end) MAXSTRLEN in
    let text := default [] reason in
    sendservmsgf (kicker ++ cstr " kicked " ++ colorname vinfo (name v) s ++
      (if bool_decide (text = []) then [] else cstr " because: " ++ text)) ;;
    fire "kick_request" [AInt (clientnum c); AStr (encodeutf8 (name c)); AInt 14400; AInt victim;
                         AStr (encodeutf8 text)] ;;
    ret false
  end.

Definition tryauth (ci : nat) (user domain : cstring) (kickcn : Z) : M server bool :=
  s <- get_server ;;
  fire "authreq" [AInt (clientnum (deref ci s)); AStr (encodeutf8 user); AStr domain; AInt kickcn] ;;
  ret true.
Definition ci_answerchallenge (ci : nat) (id : Z) (val : cstring) : M server unit :=
  s <- get_server ;;
  fire "authrep" [AInt (clientnum (deref ci s)); AInt id; AStr (xdigits val)] ;;
  s <- get_server ;;
  let c := deref ci s in
  when ((PRIV_AUTH <=? privilege c) && (0 <=? authkickvictim c))
    (trykick ci (authkickvictim c) (authkickreason c) (Some (authname c)) (Some (authdesc c)) (privilege c) false ;;
     ret tt).

(** ** Leaving *)

Definition noclients : M server unit :=
  fire "clearbans_request" [AInt (-1)] ;; clearai.

(** [disc_record[ip].put(totalmillis)]: the number of times recorded for [ip]. *)
Fixpoint record_disc (ip t : Z) (l : list (Z * list Z)) : list (Z * list Z) * Z :=
  match l with
  | [] => ([(ip, [t])], 1)
  | (i, ts) :: l =>
    if i =? ip then ((i, ts ++ [t]) :: l, zlength ts + 1)
    else let '(l, n) := record_disc ip t l in ((i, ts) :: l, n)
  end.
(** The text for the script, and the message to everybody. *)
Definition disc_message (ci : nat) (n reason : Z) : M server cstring :=
  s <- get_server ;;
  let c := deref ci s in
  if (reason =? DISC_NONE) && bool_decide (disconnect_msg c = []) then ret (cstr "normal") else
  let msg := if bool_decide (disconnect_msg c = []) then disconnect_reason reason else disconnect_msg c in
  let text := copystring (cstr "client (" ++ hostname ci s ++ cstr ") disconnected because: " ++ decodeutf8 msg)
                MAXSTRLEN in
  when (negb (spy c)) (
    if (0 <? disc_window s) && (0 <? disc_msgs s) then
      let '(l, k) := record_disc (getclientip n s) (totalmillis s) (disc_record s) in
      set_roster {{ disc_record := l }} ;;
      when (k <=? disc_msgs s) (sendservmsg text)
    else sendservmsg text) ;;
  ret msg.
(** The slot of a reserved place is given back. *)
Definition free_slot (c : clientinfo) (r : roster) : roster :=
  let used := b2z (0 <? reservedslots_use r) in
  r <| maxclients ::= fun n => n - used |> <| reservedslots_use ::= fun n => n - used |>
    <| reservedslots ::= Z.add (b2z (using_reservedslot c)) |>.
Definition client_left (ci : nat) (n : Z) (msg : cstring) : M server unit :=
  s <- get_server ;;
  when (negb (privilege (deref ci s) =? PRIV_NONE)) (setmaster ci false [] ;; ret tt) ;;
  with_smode (fun m => sm_leavegame m ci true) ;;
  s <- get_server ;;
  upd_gs ci (fun gs => gs <| timeplayed ::= Z.add (lastmillis s - lasttimeplayed gs) |>
                          <| disconnecttime := totalmillis s |>) ;;
  savescore ci ;;
  when (negb (spy (deref ci s))) (sendf (-1) 1 (message N_CDIS [FInt n])) ;;
  set_roster {{ clients ::= removeobj ci }} ;;
  removeai ci ;;
  s <- get_server ;;
  set_roster (free_slot (deref ci s)) ;;
  fire "disconnect" [AInt n; AStr msg] ;;
  s <- get_server ;;
  (if bool_decide (clients s = []) then noclients else set_refresh) ;;
  s <- get_server ;;
  when (reset_mm s) checkpausegame.
Definition clientdisconnect (n reason : Z) : M server unit :=
  s <- get_server ;;
  match getinfo n s with
  | None => ret tt
  | Some ci =>
    when (spy (deref ci s)) (set_roster {{ spies ::= vec_remove (clientnum (deref ci s) - spycn s) }}) ;;
    msg <- disc_message ci n reason ;;
    s <- get_server ;;
    if connected (deref ci s) then client_left ci n msg
    else
      fire "failedconnect" [AStr (hostname ci s); AStr msg] ;;
      set_roster {{ connects ::= removeobj ci }}
  end.

(** ** The engine's table *)

Definition slot_at (n : Z) (s : server) : slot := default (mkslot ST_EMPTY None 0 0) (slots s .! n).
Definition count_slot (t : slottype) (d : Z) (r : roster) : roster :=
  match t with
  | ST_TCPIP => r <| nonlocalclients ::= Z.add d |>
  | ST_LOCAL => r <| localclients ::= Z.add d |>
  | ST_EMPTY => r
  end.
(** The first empty slot, or a new one: its number. *)
Definition addclient (type : slottype) : M server Z :=
  s <- get_server ;;
  let ci := next_ci s in
  let sl := mkslot type (Some ci) 0 0 in
  set_roster (fun r => count_slot type 1 (r <| ci_heap ::= insert ci clientinfo0 |> <| next_ci ::= S |>)) ;;
  match list_find (fun sl => sl_type sl = ST_EMPTY) (slots s) with
  | Some (i, _) => set_roster {{ slots ::= insert i sl }} ;; ret (Z.of_nat i)
  | None => set_roster {{ slots ::= fun l => l ++ [sl] }} ;; ret (zlength (slots s))
  end.
Definition delclient (n : Z) : M server unit :=
  s <- get_server ;;
  let sl := slot_at n s in
  if bool_decide (sl_type sl = ST_EMPTY) then ret tt else
  set_roster (fun r => count_slot (sl_type sl) (-1)
    (r <| slots ::= zalter (fun sl => sl <| sl_type := ST_EMPTY |> <| sl_info := None |>) n |>
       <| ci_heap ::= match sl_info sl with Some ci => delete ci | None => id end |>)).
Definition delclients : M server unit :=
  s <- get_server ;; forM (seqZ 0 (zlength (slots s))) delclient.
Definition is_remote (n : Z) (s : server) : bool := bool_decide (sl_type (slot_at n s) = ST_TCPIP).
Definition disconnect_client (n reason : Z) : M server unit :=
  s <- get_server ;;
  if negb (is_remote n s) then ret tt else
  emit (PeerDisconnect n reason) ;; clientdisconnect n reason ;; delclient n.
Definition kicknonlocalclients (reason : Z) : M server unit :=
  s <- get_server ;;
  forM (seqZ 0 (zlength (slots s))) (fun i => disconnect_client i reason).

(** ** Arriving *)

Definition clientconnect (n : Z) : M server Z :=
  s <- get_server ;;
  match getinfo n s with
  | None => ret DISC_NONE
  | Some ci =>
    upd_ci ci (fun c => c <| ci_n := n |> <| ownernum := n |> <| clientnum := n |>
                          <| connectmillis := totalmillis s |>) ;;
    sid <- new_session ;;
    upd_ci ci {{ sessionid := sid }} ;;
    set_roster {{ connects ::= fun l => l ++ [ci] }} ;;
    if negb (m_mp (gamemode s)) then ret DISC_PRIVATE else
    sendservinfo ci ;; ret DISC_NONE
  end.
Definition localconnect (n : Z) : M server unit :=
  s <- get_server ;;
  match getinfo n s with
  | None => ret tt
  | Some ci =>
    upd_ci ci (fun c => c <| ownernum := n |> <| clientnum := n |> <| connectmillis := totalmillis s |>) ;;
    sid <- new_session ;;
    upd_ci ci (fun c => c <| sessionid := sid |> <| local := true |>) ;;
    set_roster {{ connects ::= fun l => l ++ [ci] }} ;;
    sendservinfo ci
  end.
Definition localdisconnect (n : Z) : M server unit :=
  s <- get_server ;;
  when (m_demo (gamemode s)) enddemoplayback ;;
  clientdisconnect n DISC_NONE.
Definition allowconnect (ci : nat) (pwd : cstring) : M server Z :=
  s <- get_server ;;
  let c := deref ci s in
  if local c then ret DISC_NONE else
  if negb (m_mp (gamemode s)) then ret DISC_PRIVATE else
  let clientcount := numclients (-1) false true false s in
  let is_reserved := negb (bool_decide (slotpass s = [])) && checkpassword ci (slotpass s) pwd s in
  upd_ci ci {{ spy := false }} ;;
  banned <- fire "connecting" [AInt (clientnum c); AStr (hostname ci s); AStr (encodeutf8 (name c)); AStr pwd;
                               ABool is_reserved] ;;
  if (banned : bool) then ret DISC_IPBAN else
  s <- get_server ;;
  let is_admin := privilege (deref ci s) =? PRIV_ADMIN in
  if (is_admin || is_reserved) && (0 <? reservedslots s) then
    let full := b2z (maxclients s <=? clientcount) in
    set_roster (fun r => r <| reservedslots_use ::= Z.add full |> <| maxclients ::= Z.add full |>
                           <| reservedslots ::= Z.pred |>) ;;
    upd_ci ci {{ using_reservedslot := true }} ;;
    ret DISC_NONE
  else
  let spy_count := zlength (spies s) + b2z (spy (deref ci s)) in
  let maxclients_ := maxclients s + (if spec_slots s then spec_count s else 0) in
  if maxclients_ + spy_count <=? clientcount then ret DISC_MAXCLIENTS else
  if negb (bool_decide (serverpass s = []))
  then ret (if checkpassword ci (serverpass s) pwd s then DISC_NONE else DISC_PRIVATE)
  else
  let ip := getclientip (clientnum (deref ci s)) s in
  ret (if (MM_PRIVATE <=? mastermode s) && negb (existsb (Z.eqb ip) (allowedips s)) then DISC_PRIVATE else DISC_NONE).

(** ** Spies *)

(** Names of client numbers a spy may take. *)
Definition tell_admins (ci : nat) (text : cstring) : M server unit :=
  s <- get_server ;;
  forM (clients s) (fun i =>
    s <- get_server ;;
    when (negb (bool_decide (i = ci)) && (PRIV_ADMIN <=? privilege (deref i s))) (sendprivtext i text)).
Definition admin_info (ci : nat) (text : cstring) (s : server) : cstring :=
  copystring (RED ++ cstr "ADMIN-INFO: " ++ name (deref ci s) ++ text) MAXSTRLEN.
Definition enter_spy (cn : Z) (ci : nat) : M server unit :=
  s <- get_server ;;
  if MAXSPIES <=? zlength (spies s) then
    sendprivtext ci (RED ++ cstr "You can't enter the spy-mode at this time, limit of maximum spies reached.") ;;
    s <- get_server ;;
    when (negb (connected (deref ci s))) (disconnect_client cn DISC_MAXCLIENTS)
  else
    upd_ci ci {{ messages := [] }} ;;
    when (connected (deref ci s)) (
      setspectator ci true false ;;
      sendf (-1) 1 (message N_CDIS [FInt cn]) ;;
      sendprivtext ci (RED ++ cstr "You've entered the spy-mode.")) ;;
    s <- get_server ;;
    tell_admins ci (admin_info ci (cstr " joined the spy-mode.") s) ;;
    s <- get_server ;;
    upd_ci ci (fun c => c <| spy := true |> <| privilege := PRIV_ADMIN |> <| hide_privilege := true |>
                          <| clientnum := spycn s + zlength (spies s) |>) ;;
    set_roster {{ spies ::= fun l => l ++ [ci] }} ;;
    sendservinfo ci.
Definition leave_spy (cn : Z) (ci : nat) : M server unit :=
  upd_ci ci (fun c => c <| messages := [] |> <| spy := false |> <| hide_privilege := false |>) ;;
  set_roster {{ spies ::= removeobj ci }} ;;
  upd_ci ci (fun c => c <| clientnum := ci_n c |>) ;;
  sendservinfo ci ;;
  sendinitclient ci ;;
  restored <- restorescore ci ;;
  when restored (sendresume ci) ;;
  s <- get_server ;;
  fire "connect" [AInt (clientnum (deref ci s)); ABool (spy (deref ci s))] ;;
  upd_ci ci {{ connectmillis := totalmillis s }} ;;
  sendprivtext ci (RED ++ cstr "You've left the spy-mode.") ;;
  s <- get_server ;;
  (if mastermode s <=? 1 then setspectator ci false true
   else sendf (-1) 1 (message N_SPECTATOR [FInt (clientnum (deref ci s)); FInt 1])) ;;
  s <- get_server ;;
  sendf (-1) 1 (message N_SETTEAM [FInt cn; FStr (team (deref ci s)); FInt (-1)]) ;;
  s <- get_server ;;
  tell_admins ci (admin_info ci (cstr " left the spy-mode.") s).
Definition set_spy (cn : Z) (val : bool) : M server unit :=
  s <- get_server ;;
  match getinfo cn s with
  | Some ci =>
    if Bool.eqb (spy (deref ci s)) val then ret tt
    else if val then enter_spy cn ci else leave_spy cn ci
  | None => ret tt
  end.
(** -1 for a client that is not a spy. *)
Definition spy_cn (ci : option nat) (s : server) : Z :=
  match ci with
  | Some ci => if spy (deref ci s) then clientnum (deref ci s) else -1
  | None => -1
  end.

(** ** Maps and clipboards of the edit mode *)

Definition receivefile (sender : Z) (data : list Z) : M server unit :=
  s <- get_server ;;
  if negb (m_edit (gamemode s)) || (zlength data <=? 0) || (4 * 1024 * 1024 <? zlength data) then ret tt else
  match getinfo sender s with
  | None => ret tt
  | Some ci =>
    let c := deref ci s in
    if cs_eqb (state c) CS_SPECTATOR && (privilege c =? PRIV_NONE) && negb (local c) then ret tt else
    veto <- fire "editpacket" [AInt (clientnum c)] ;;
    if (veto : bool) then ret tt else
    set_items {{ mapdata := None }} ;;
    if negb tempfile then sendf sender 1 (message N_SERVMSG [FStr (cstr "failed to open temporary file for map")]) else
    set_items {{ mapdata := Some data }} ;;
    s <- get_server ;;
    sendservmsgf (cstr "[" ++ colorname ci (name (deref ci s)) s ++ cstr " sent a map to server, " ++ [34] ++
                  cstr "/getmap" ++ [34] ++ cstr " to receive it]")
  end.
Definition sendclipboard (ci : nat) : M server unit :=
  s <- get_server ;;
  match clipboard (deref ci s) with
  | Some clip =>
    if lastclipboard (deref ci s) =? 0 then ret tt else
    veto <- fire "editpacket" [AInt (clientnum (deref ci s))] ;;
    if (veto : bool) then ret tt else
    s <- get_server ;;
    foldM (fun e (flushed : bool) =>
      s <- get_server ;;
      let c := deref ci s in
      if negb (clientnum (deref e s) =? clientnum c) &&
         (0 <=? to_int (needclipboard (deref e s) - lastclipboard c))
      then
        when (negb flushed) (run_sendpackets true ;; ret tt) ;;
        sendpacket (clientnum (deref e s)) 1 clip (-1) ;;
        ret true
      else ret flushed) (clients s) false ;;
    ret tt
  | None => ret tt
  end.
End clients.

(** * A client that is disconnected is forgotten *)

(** The vectors a client can be found in. *)
Definition holders (s : server) := (clients s, connects s, spies s, bots s, slots s).
(** They lose clients only, and the engine's slots stay as they are. *)
Record only_lose (s s' : server) : Prop := {
  ol_clients : clients s' ⊆ clients s;
  ol_connects : connects s' ⊆ connects s;
  ol_spies : spies s' ⊆ spies s;
  ol_bots : forall b, Some b ∈ bots s' -> Some b ∈ bots s;
  ol_slots : slots s' = slots s
}.
#[global] Instance only_lose_preorder : PreOrder only_lose.
Proof.
  split; [by intros s; split|]. intros s1 s2 s3 [A1 A2 A3 A4 A5] [B1 B2 B3 B4 B5].
  split; [set_solver..|auto|congruence].
Qed.
#[global] Instance only_lose_framed : FramedBy only_lose holders.
Proof. intros s s' [= E1 E2 E3 E4 E5]. split; rw -?E1 -?E2 -?E3 -?E4 -?E5; done. Qed.

Section only_lose.
Context {hooks : Hooks} `{!HooksRespect only_lose}.

Lemma removeobj_subseteq ci l : removeobj ci l ⊆ l.
Proof. intros x [_ Hx]%list_elem_of_filter. done. Qed.
Lemma lose_clients ci : respects only_lose (set_roster {{ clients ::= removeobj ci }}).
Proof. intros s. split; cbn; try done. apply removeobj_subseteq. Qed.
Lemma lose_connects ci : respects only_lose (set_roster {{ connects ::= removeobj ci }}).
Proof. intros s. split; cbn; try done. apply removeobj_subseteq. Qed.
Lemma lose_bot ci cn : respects only_lose
  (set_roster (fun r => r <| ci_heap ::= delete ci |> <| bots ::= fun l => zinsert l cn None |>)).
Proof.
  intros s. split; cbn; try done. intros b Hb. by apply elem_of_zinsert in Hb as [|?].
Qed.
#[local] Hint Resolve lose_clients lose_connects lose_bot : respects.
Lemma lose_leavegame ci d : respects only_lose (with_smode (fun m => sm_leavegame m ci d)).
Proof using All. apply respects_with_smode; [apply _|]. intros k. apply mr_leavegame. Qed.
#[local] Hint Resolve lose_leavegame : respects.
Lemma lose_shiftai b o : respects only_lose (shiftai b o).
Proof using All. unfold shiftai, removebot, upd_bots, set_refresh. solve_respects. Qed.
#[local] Hint Resolve lose_shiftai : respects.
Lemma lose_removeai ci : respects only_lose (removeai ci).
Proof using All. unfold removeai. solve_respects. Qed.
Lemma lose_deleteai b : respects only_lose (deleteai b).
Proof using All. unfold deleteai, removebot, upd_bots, set_refresh. cbv zeta. solve_respects. Qed.
#[local] Hint Resolve lose_removeai lose_deleteai : respects.
Lemma lose_checkpausegame : respects only_lose checkpausegame.
Proof using All. unfold checkpausegame, pausegame. cbv zeta. solve_respects. Qed.
#[local] Hint Resolve lose_checkpausegame : respects.
Lemma lose_setmaster ci r p : respects only_lose (setmaster ci r p).
Proof using All. unfold setmaster, update_mastermask. solve_respects. Qed.
Lemma lose_noclients : respects only_lose noclients.
Proof using All. unfold noclients, clearai. solve_respects. Qed.
Lemma lose_savescore ci : respects only_lose (savescore ci).
Proof using All. unfold savescore. cbv zeta. solve_respects. Qed.
#[local] Hint Resolve lose_setmaster lose_noclients lose_savescore : respects.
Lemma lose_disc_message ci n r : respects only_lose (disc_message ci n r).
Proof using All. unfold disc_message. cbv zeta. solve_respects. Qed.
#[local] Hint Resolve lose_disc_message : respects.

(** Once [ci] is out of a vector it stays out. *)
Lemma stays_out {A} (l : server -> list nat) ci (m : M server A) s :
  (forall s1 s2, only_lose s1 s2 -> l s2 ⊆ l s1) -> respects only_lose m -> ci ∉ l s -> ci ∉ l (exec m s).
Proof. intros Hl Hm Hs Hin. exact (Hs (Hl _ _ (Hm s) ci Hin)). Qed.
Lemma client_left_loses ci n msg : respects only_lose (client_left ci n msg).
Proof using All. unfold client_left, set_refresh. solve_respects. Qed.
(** What the rest of a program establishes from any state, the program does. *)
Lemma later {A B} (Q : server -> Prop) (m : M server A) (k : A -> M server B) s :
  (forall a s', Q (exec (k a) s')) -> Q (exec (bind m k) s).
Proof. intros Hk. rw exec_bind. apply Hk. Qed.
Lemma client_left_out ci n msg s : ci ∉ clients (exec (client_left ci n msg) s).
Proof using All.
  unfold client_left, set_refresh. do 7 (apply (later (fun s => ci ∉ clients s)); intros ? ?).
  rw exec_bind. apply (stays_out (fun s => clients s)); [by intros ?? []|solve_respects|].
  cbn. by intros [? _]%list_elem_of_filter.
Qed.

(** [ci] is the client of slot [n] and no bot, on one side of the door: it connects or it
    plays.  A spy still has the place in [spies] that its number says. *)
Record occupies (n : Z) (ci : nat) (s : server) : Prop := {
  oc_slot : exists sl, slots s .! n = Some sl /\ sl_type sl = ST_TCPIP /\ sl_info sl = Some ci;
  oc_only : forall j sl, slots s .! j = Some sl -> sl_info sl = Some ci -> j = n;
  oc_found : getinfo n s = Some ci;
  oc_spy : if spy (deref ci s) then NoDup (spies s) /\ spies s .! (clientnum (deref ci s) - spycn s) = Some ci
           else ci ∉ spies s;
  oc_bot : Some ci ∉ bots s;
  oc_side : if connected (deref ci s) then (ci ∉ connects s) else (ci ∉ clients s)
}.
(** No vector of the server points to [ci]. *)
Record forgotten (ci : nat) (s : server) : Prop := {
  fg_clients : ci ∉ clients s; fg_connects : ci ∉ connects s; fg_spies : ci ∉ spies s;
  fg_bots : Some ci ∉ bots s; fg_slots : forall j sl, slots s .! j = Some sl -> sl_info sl <> Some ci
}.
Lemma vec_remove_out i (x : nat) l : NoDup l -> l .! i = Some x -> x ∉ vec_remove i l.
Proof.
  intros Hnd Hi. pose proof (zlookup_Some_range _ _ _ Hi) as Hr. unfold vec_remove, zlookup in *.
  rewrite -> (proj2 (Z.leb_le 0 i)) in Hi by lia.
  rewrite -> (proj2 (Z.leb_le 0 i)), (proj2 (Z.ltb_lt i _)) by lia. cbn [andb].
  rw delete_take_drop. rw -(take_drop_middle l _ x Hi) in Hnd.
  apply NoDup_app in Hnd as (_ & Hd & [Hn _]%NoDup_cons).
  intros [Hin|Hin]%elem_of_app; [|done]. apply (Hd x Hin). set_solver.
Qed.
Lemma vec_remove_subseteq i (l : list nat) : vec_remove i l ⊆ l.
Proof.
  unfold vec_remove. destruct (_ && _).
  - rw delete_take_drop. intros x [Hx|Hx]%elem_of_app; [by apply subseteq_take in Hx|by apply subseteq_drop in Hx].
  - intros x. rw removelast_firstn_len. apply subseteq_take.
Qed.
(** The first step: a spy is taken out of its vector. *)
Lemma despied n ci s : occupies n ci s ->
  let s' := exec (when (spy (deref ci s)) (set_roster {{ spies ::= vec_remove (clientnum (deref ci s) - spycn s) }})) s in
  only_lose s s' /\ (ci ∉ spies s') /\ (ci_heap s', connects s', clients s') = (ci_heap s, connects s, clients s).
Proof.
  intros [_ _ _ Hspy _ _]. destruct (spy (deref ci s)); cbn [when]; [|by split_and!].
  destruct Hspy as [Hnd Hi]. split_and!; [|by apply vec_remove_out|done].
  split; cbn; try done. apply vec_remove_subseteq.
Qed.
Lemma clientdisconnect_out n reason ci s : occupies n ci s ->
  let s' := exec (clientdisconnect n reason) s in
  only_lose s s' /\ (ci ∉ clients s') /\ (ci ∉ connects s') /\ (ci ∉ spies s').
Proof using All.
  intros Ho. pose proof (despied n ci s Ho) as (Hl0&Hsp0&E0). destruct Ho as [_ _ Hf _ _ Hside].
  unfold clientdisconnect. rw exec_bind.
  cbn [eval exec get_server gets fst snd id]. rw Hf. rw exec_bind.
  set (s0 := exec (when _ _) s) in *. clearbody s0. injection E0 as Eh0 Ec0 El0. rw exec_bind.
  assert (respects (eq_on (fun s => (ci_heap s, connects s, clients s))) (disc_message ci n reason)) as Hm.
  { unfold disc_message. cbv zeta. solve_respects. }
  specialize (Hm s0). injection Hm as Eh Ec El. pose proof (lose_disc_message ci n reason s0) as Hl.
  set (s1 := exec (disc_message ci n reason) s0) in *. set (msg := eval (disc_message ci n reason) s0).
  clearbody s1 msg. rw exec_bind. cbn [eval exec get_server gets fst snd id].
  assert (connected (deref ci s1) = connected (deref ci s)) as -> by (unfold deref; by rw -Eh Eh0).
  assert (only_lose s s1) as Hl1 by (by etransitivity).
  assert (forall s', only_lose s1 s' -> ci ∉ spies s') as Hsp.
  { intros s' H' Hin. by apply Hsp0, (ol_spies _ _ Hl), (ol_spies _ _ H'). }
  destruct (connected (deref ci s)).
  - pose proof (client_left_loses ci n msg s1) as Hl2. split_and!; [by etransitivity|apply client_left_out| |by apply Hsp].
    intros Hin. apply Hside. rw -Ec0 Ec. by apply (ol_connects _ _ Hl2).
  - rw exec_bind. set (s2 := exec (fire _ _) s1).
    assert (only_lose s1 s2) as Hl2 by (unfold s2; apply (hooks_respect (R := only_lose))).
    assert (only_lose s2 (exec (set_roster {{ connects ::= removeobj ci }}) s2)) as Hl3 by apply lose_connects.
    assert (only_lose s1 (exec (set_roster {{ connects ::= removeobj ci }}) s2)) as Hl4 by (by etransitivity).
    split_and!; [by etransitivity| |cbn; by intros [? _]%list_elem_of_filter|by apply Hsp].
    intros Hin. apply Hside. rw -El0 El. by apply (ol_clients _ _ Hl4).
Qed.
End only_lose.

(** C28: a client that is disconnected leaves no pointer behind, whatever the reason,
    provided it is entered once: it is in one slot of the engine, no bot, and either
    among those who connect or among the players, not on both lists; and when it is a
    spy, its number still says its place in [spies].  The listeners may do what they want
    but add a client to a list or change the slots.  Then after [disconnect_client] neither
    the players nor the connecting clients, the spies, the bots or the slots of the engine
    hold it, and its record is freed.  (Without these conditions pointers do stay:
    [spy_dangles] below and [connects_dangles] of Service.) *)
Theorem disconnect_forgets {hooks : Hooks} `{!HooksRespect only_lose} n reason ci s :
  occupies n ci s ->
  let s' := exec (disconnect_client n reason) s in
  forgotten ci s' /\ ci_heap s' !! ci = None /\ sl_type (slot_at n s') = ST_EMPTY.
Proof.
  intros Ho. destruct (oc_slot _ _ _ Ho) as (sl&Hsl&Ht&Hi). unfold disconnect_client, is_remote, slot_at.
  rw exec_bind. cbn [eval exec get_server gets fst snd id]. rw Hsl. cbn [default]. rw Ht. cbn [bool_decide negb].
  do 2 rw exec_bind. set (s0 := exec (emit _) s).
  assert (occupies n ci s0) as Ho0 by (by destruct Ho; split).
  destruct (clientdisconnect_out n reason ci s0 Ho0) as (Hl&Hc&Hn&Hsp).
  set (s1 := exec (clientdisconnect n reason) s0) in *.
  assert (slots s1 = slots s) as Hs1 by apply (ol_slots _ _ Hl).
  unfold delclient, slot_at. rw exec_bind. cbn [eval exec get_server gets fst snd id]. rw Hs1 Hsl.
  cbn [default]. rewrite -> bool_decide_eq_false_2 by (by rw Ht). rw Hi Ht.
  destruct Ho0 as [_ Honly _ _ Hbot _]. cbn. split_and!; [|by rw lookup_delete_eq|].
  - split; cbn; [done|done| | |].
    + done.
    + intros Hin. by apply Hbot, (ol_bots _ _ Hl).
    + rw Hs1. intros j sl' Hj Hi'. destruct (decide (j = n)) as [->|Hne].
      * rw zlookup_zalter_eq Hsl in Hj. injection Hj as <-. done.
      * rewrite -> zlookup_zalter_ne in Hj by done. by apply Hne, (Honly j sl').
  - rw Hs1 zlookup_zalter_eq Hsl. done.
Qed.
Lemma disconnect_forgets_witness :
  let s := sample_server 0 [good; evil; good] in
  forgotten 1 (exec (disconnect_client (hooks := no_hooks) 1 DISC_KICK) s) /\
  clients (exec (disconnect_client (hooks := no_hooks) 1 DISC_KICK) s) = [0%nat; 2%nat].
Proof.
  intros s. split; [|by vm_compute].
  apply (disconnect_forgets (hooks := no_hooks) 1 DISC_KICK 1 s). split.
  - exists (mkslot ST_TCPIP (Some 1%nat) 16777344 50). by vm_compute.
  - intros j sl Hj Hi. pose proof (zlookup_Some_range _ _ _ Hj) as Hr. cbn in Hr.
    assert (j = 0 \/ j = 1 \/ j = 2) as [->|[->| ->]] by (unfold zlength in Hr; cbn in Hr; lia);
      vm_compute in Hj; injection Hj as <-; done.
  - by vm_compute.
  - change (spy (deref 1 s)) with false. by apply not_elem_of_nil.
  - by apply not_elem_of_nil.
  - change (connected (deref 1 s)) with true. by apply not_elem_of_nil.
Defined.

(** A spy is different: its number is its index when it came, and the index is not
    kept when an earlier spy leaves.  Of the spies 0, 1 and 2 the first leaves; when
    the second disconnects, the third is taken out of [spies] and the freed record
    of the second stays in. *)
Definition spies_after : server :=
  let no := no_hooks in
  let s := sample_server 0 [good; evil; good] in
  let s := exec (set_spy (hooks := no) 0 true) s in
  let s := exec (set_spy (hooks := no) 1 true) s in
  let s := exec (set_spy (hooks := no) 2 true) s in
  let s := exec (set_spy (hooks := no) 1000000 false) s in
  exec (disconnect_client (hooks := no) 1 DISC_NONE) s.
Example spy_dangles : spies spies_after = [1%nat] /\ ci_heap spies_after !! 1%nat = None.
Proof. by split; vm_compute. Qed.
