(* ===== verification/Match.v ===== *)
(** The course of matches (fpsgame/server.cpp [changemap], [rotatemap],
    [checkvotes], [vote], [checkovertime], [connected], [serverupdate];
    engine/server.cpp [update_time]).

    A vote of the source points to the map name in the record of the client that
    made it; the names are read when the votes are counted. *)
From S2P Require Import Prelude Wire Text Float32 Game Random State Ents Engine Intermission Servmode Roster Items Cheat Combat Events Anticheat Worldstate Welcome Ai Demo Clients.

#[local] Open Scope list_scope.

(** ** Votes *)

Record votecount := mkvote { vc_map : cstring; vc_mode : Z; vc_count : Z }.
#[export] Instance eta_votecount : Eta votecount := settable mkvote <vc_map; vc_mode; vc_count>.
#[global] Instance votecount_eq_dec : EqDecision votecount.
Proof. solve_decision. Defined.
Definition may_vote (s : server) (ci : nat) : bool :=
  let c := deref ci s in
  negb (cs_eqb (state c) CS_SPECTATOR && (privilege c =? PRIV_NONE) && negb (local c)) &&
  (aitype c =? AI_NONE).
Definition is_vote (map_ : cstring) (mode : Z) (v : votecount) : bool :=
  bool_decide (map_ = vc_map v) && (mode =? vc_mode v).
Fixpoint add_vote (map_ : cstring) (mode : Z) (votes : list votecount) : list votecount :=
  match votes with
  | [] => [mkvote map_ mode 1]
  | v :: votes =>
    if is_vote map_ mode v then v <| vc_count ::= Z.succ |> :: votes
    else v :: add_vote map_ mode votes
  end.
Definition count_votes (s : server) : list votecount :=
  fold_left (fun votes ci => let c := deref ci s in
      if m_valid (modevote c) then add_vote (mapvote c) (modevote c) votes else votes)
    (filter (fun ci => may_vote s ci = true) (clients s)) [].
Definition maxvotes (s : server) : Z := zlength (filter (fun ci => may_vote s ci = true) (clients s)).
(** A draw is decided by the toss of a coin. *)
Definition better (best : option votecount) (v : votecount) : M server (option votecount) :=
  match best with
  | None => ret (Some v)
  | Some b =>
    if vc_count b <? vc_count v then ret (Some v)
    else if vc_count v =? vc_count b then
      r <- rand 2 ;; ret (if r =? 0 then Some b else Some v)
    else ret (Some b)
  end.
Definition best_vote (votes : list votecount) : M server (option votecount) :=
  foldM (fun v best => better best v) votes None.

(** ** Overtime *)

(** The best score so far, who has it, and whether another has it too. *)
Definition topscore : Type := option cstring * Z * bool.
Definition top_team (t : topscore) (ts : cstring * Z) : topscore :=
  let '(topteam, top, tied) := t in
  let '(team_, score) := ts in
  match topteam with
  | None => (Some team_, score, false)
  | Some t1 =>
    if top <? score then (Some team_, score, false)
    else if (score =? top) && negb (bool_decide (team_ = t1)) then (topteam, top, true)
    else t
  end.
Definition top_player (t : Z * bool) (score : Z) : Z * bool :=
  let '(top, tied) := t in
  if top <? score then (score, false) else if score =? top then (top, true) else t.

Section match_.
Context {hooks : Hooks} {files : Files} {host : Host}.

Definition team_score (t : cstring) (s : server) : Z :=
  if hidefrags s then
    match smode s with
    | Some k => default 0 (snd <$> head (filter (fun e => e.1 = t) (sm_getteamscores (servmode_of k) s)))
    | None => 0
    end
  else default 0 (access_teaminfo t s).
Definition in_match (s : server) (ci : nat) : bool := negb (cs_eqb (state (deref ci s)) CS_SPECTATOR).
Definition tied (s : server) : bool :=
  if m_teammode (gamemode s) then
    let members := filter (fun ci => in_match s ci && negb (bool_decide (team (deref ci s) = [])) = true) (clients s) in
    (fold_left top_team (map (fun ci => (team (deref ci s), team_score (team (deref ci s)) s)) members)
       (None, - 2147483648, false)).2
  else
    (fold_left top_player (map (fun ci => frags (deref ci s)) (filter (fun ci => in_match s ci = true) (clients s)))
       (- 2147483648, false)).2.
Definition checkovertime : M server bool :=
  s <- get_server ;;
  if negb (m_timed (gamemode s)) || negb (overtime s) then ret false
  else if negb (tied s) then ret false
  else
    sendservmsg (cstr "the game is tied with overtime") ;;
    set_game {{ gamelimit := tmax (gamemillis s) (gamelimit s) + 2 * 60000 }} ;;
    s <- get_server ;;
    sendf (-1) 1 (message N_TIMEUP [FInt (tmax ((gamelimit s - gamemillis s) ÷ 1000) 1)]) ;;
    ret true.
Definition checkintermission : M server unit := checkintermission_with checkovertime false.

(** ** Maps *)

Definition mode_of (mode : Z) : option smode_kind :=
  if m_capture mode then Some capturemode
  else if m_ctf mode then Some ctfmode
  else if m_collect mode then Some collectmode
  else None.
(** Everything up to the new map: the old match is closed. *)
Definition close_match : M server unit :=
  calc_player_ranks ;;
  fire "finishedgame" [] ;;
  stopdemo ;;
  pausegame false None ;;
  changegamespeed 100 None ;;
  with_smode sm_cleanup ;;
  clearai.
Definition open_map (map_ : cstring) (mode mins : Z) : M server unit :=
  set_game (fun g => g <| mapreload := false |> <| gamemode := mode |> <| gamemillis := 0 |>
    <| gamelimit := to_int ((if mins =? -1 then 10 else mins) * 60000) |> <| interm := 0 |>
    <| nextexceeded := 0 |> <| smapname := copystring map_ MAXSTRLEN |>) ;;
  loaditems loadents ;;
  set_roster {{ scores := [] }} ;;
  s <- get_server ;;
  forM (clients s) (fun ci =>
    upd_gs ci (fun gs => gs <| timeplayed ::= Z.add (lastmillis s - lasttimeplayed gs) |>)).
Definition time_left_seconds (s : server) : Z :=
  if (gamemillis s <? gamelimit s) && (interm s =? 0)
  then tmax ((gamelimit s - gamemillis s) ÷ 1000) 1 else 0.
Definition enter_map (ci : nat) : M server unit :=
  upd_ci ci ci_mapchange ;;
  s <- get_server ;;
  upd_gs ci {{ lasttimeplayed := lastmillis s }} ;;
  when (m_mp (gamemode s) && negb (cs_eqb (state (deref ci s)) CS_SPECTATOR)) (sendspawn ci).
Definition changemap (map_ : cstring) (mode mins : Z) : M server unit :=
  close_match ;;
  open_map map_ mode mins ;;
  when (negb (m_mp mode)) (kicknonlocalclients DISC_PRIVATE) ;;
  s <- get_server ;;
  sendf (-1) 1 (message N_MAPCHANGE [FStr (smapname s); FInt (gamemode s); FInt 1]) ;;
  set_game {{ smode := mode_of (gamemode s) }} ;;
  clearteaminfo ;;
  when (m_teammode (gamemode s)) autoteam ;;
  s <- get_server ;;
  when (m_timed (gamemode s) && negb (bool_decide (smapname s = [])))
    (sendf (-1) 1 (message N_TIMEUP [FInt (time_left_seconds s)])) ;;
  forM (clients s) enter_map ;;
  ai_changemap ;;
  s <- get_server ;;
  (if m_demo (gamemode s) then when (negb (bool_decide (clients s = []))) setupdemoplayback
   else
     when (demonextmatch s) (setupdemorecord true []) ;;
     set_demo {{ demonextmatch := autorecorddemo s }}) ;;
  with_smode sm_setup ;;
  s <- get_server ;;
  forM (clients s) (fun ci => upd_ac ci (ac_reset (totalmillis s) (anti_cheat_enabled s) (-1))) ;;
  fire "mapchange" [AStr (encodeutf8 (smapname s)); AStr (unknown_mode (gamemode s))] ;;
  set_game {{ next_timeupdate := 0 }}.

(** The script names the next game. *)
Definition rotatemap : M server bool :=
  fire "setnextgame" [] ;;
  s <- get_server ;;
  if bool_decide (next_gamemode s = []) || bool_decide (next_mapname s = []) then ret false else
  let code := modecode (next_gamemode s) in
  when (m_mp code) (
    set_game {{ mapreload := false }} ;;
    changemap (next_mapname s) code (next_gametime s) ;;
    set_game (fun g => g <| next_gamemode := [] |> <| next_mapname := [] |> <| next_gametime := -1 |>)) ;;
  ret true.

Definition checkvotes (force : bool) : M server unit :=
  s <- get_server ;;
  let max := maxvotes s in
  best <- best_vote (count_votes s) ;;
  let passes n := match best with Some v => n <? vc_count v | None => false end in
  if force || passes (max ÷ 2) then
    run_sendpackets true ;;
    enddemorecord ;;
    match best with
    | Some v =>
      if passes (if force then 1 else max ÷ 2) then
        sendservmsg (if force then cstr "vote passed by default" else cstr "vote passed by majority") ;;
        fire "votepassed" [AStr (encodeutf8 (vc_map v)); AStr (unknown_mode (vc_mode v))] ;;
        changemap (vc_map v) (vc_mode v) (-1)
      else rotatemap ;; ret tt
    | None => rotatemap ;; ret tt
    end
  else ret tt.

Definition forcemap (map_ : cstring) (mode : Z) : M server unit :=
  stopdemo ;;
  s <- get_server ;;
  map_ <- (if bool_decide (map_ = []) && negb (m_check mode M_EDIT) then
             if negb (bool_decide (smapname s = [])) then ret (smapname s) else rotatemap ;; ret map_
           else ret map_) ;;
  s <- get_server ;;
  when (hasnonlocalclients s)
    (sendservmsgf (cstr "local player forced " ++ unknown_mode mode ++ cstr " on map " ++
                   (if bool_decide (map_ = []) then cstr "[new map]" else map_))) ;;
  changemap map_ mode (-1).

(** [strncpy(ci->mapvote, map, 64)]; the byte after the first 64 is taken to be NUL. *)
Definition vote (map_ : cstring) (reqmode sender : Z) : M server unit :=
  s <- get_server ;;
  match getinfo sender s with
  | None => ret tt
  | Some ci =>
    let c := deref ci s in
    if cs_eqb (state c) CS_SPECTATOR && (privilege c =? PRIV_NONE) && negb (local c) ||
       negb (local c) && negb (m_mp reqmode) then ret tt else
    let mv := take 64 map_ in
    upd_ci ci (fun c => c <| mapvote := mv |> <| modevote := reqmode |>) ;;
    if bool_decide (mv = []) then ret tt else
    let master := negb (privilege c =? PRIV_NONE) && (MM_VETO <=? mastermode s) in
    if local c || mapreload s || master then
      run_sendpackets true ;;
      enddemorecord ;;
      s <- get_server ;;
      when ((negb (local c) || hasnonlocalclients s) && negb (mapreload s) && negb (spy c))
        (sendservmsgf ((if master then privname (privilege c) else cstr "local player") ++ [32] ++
           colorname ci (name c) s ++ cstr " forced " ++ unknown_mode reqmode ++ cstr " on map " ++ mv)) ;;
      changemap mv reqmode (-1)
    else
      when (negb (spy c))
        (sendservmsgf (colorname ci (name c) s ++ cstr " suggests " ++ unknown_mode reqmode ++ cstr " on map " ++
           map_ ++ cstr " (select map to vote)")) ;;
      checkvotes false
  end.

(** ** Joining *)
Definition connected_ (ci : nat) : M server unit :=
  s <- get_server ;;
  when (m_demo (gamemode s)) enddemoplayback ;;
  set_roster (fun r => r <| connects ::= removeobj ci |> <| clients ::= fun l => l ++ [ci] |>) ;;
  upd_ci ci (fun c => c <| connected := true |>
    <| needclipboard := if totalmillis s =? 0 then 1 else totalmillis s |>) ;;
  when (MM_LOCKED <=? mastermode s) (upd_gs ci {{ state := CS_SPECTATOR }}) ;;
  upd_gs ci {{ lasttimeplayed := lastmillis s }} ;;
  worst <- (if m_teammode (gamemode s) then chooseworstteam (Some ci) else ret good) ;;
  upd_ci ci {{ team := copystring worst (MAXTEAMLEN + 1) }} ;;
  let first := s <- get_server ;;
               when ((zlength (clients s) =? 1) && mapreload s) (rotatemap ;; ret tt) in
  first ;;
  sendwelcome ci ;;
  restored <- restorescore ci ;;
  when restored (sendresume ci) ;;
  sendinitclient ci ;;
  ai_addclient ci ;;
  s <- get_server ;;
  when (m_demo (gamemode s)) setupdemoplayback ;;
  first ;;
  s <- get_server ;;
  fire "connect" [AInt (clientnum (deref ci s)); ABool (spy (deref ci s))] ;;
  ret tt.

(** ** The tick *)

(** [loopv(connects)]: the index goes on although the list has shrunk. *)
Fixpoint timeout_loop (fuel i : nat) : M server unit :=
  match fuel with
  | O => ret tt
  | S fuel =>
    s <- get_server ;;
    match connects s !! i with
    | None => ret tt
    | Some ci =>
      when (15000 <? totalmillis s - connectmillis (deref ci s))
        (disconnect_client (clientnum (deref ci s)) DISC_TIMEOUT) ;;
      timeout_loop fuel (S i)
    end
  end.
Definition check_timeouts : M server unit :=
  s <- get_server ;; timeout_loop (S (length (connects s))) 0.
Definition exceeded_step (ci : nat) : M server unit :=
  s <- get_server ;;
  let c := deref ci s in
  if negb (aitype c =? AI_NONE) then ret tt
  else if checkexceeded ci s then
    if anti_cheat_enabled s then
      when ((ignore_exceed (ac c) =? 0) || (ignore_exceed (ac c) <? totalmillis s)) (
        player_position_exceeded ci ;;
        s <- get_server ;;
        upd_ac ci {{ ignore_exceed := totalmillis s + 2500 }})
    else disconnect_client (clientnum c) DISC_MSGERR
  else scheduleexceeded ci.
Definition update_exceeded : M server unit :=
  s <- get_server ;;
  when (negb (nextexceeded s =? 0) && (nextexceeded s <? gamemillis s) &&
        (negb (m_timed (gamemode s)) || (gamemillis s <? gamelimit s))) (
    set_game {{ nextexceeded := 0 }} ;;
    forM (rev (seq 0 (length (clients s)))) (fun i =>
      s <- get_server ;;
      match clients s !! i with Some ci => exceeded_step ci | None => ret tt end)).
Definition run_match : M server unit :=
  s <- get_server ;;
  set_game {{ gamemillis ::= Z.add (curtime s) }} ;;
  s <- get_server ;;
  if m_demo (gamemode s) then readdemo
  else when (negb (m_timed (gamemode s)) || (gamemillis s <? gamelimit s)) (
    processevents ;;
    update_items ;;
    checkai ;;
    with_smode sm_update).
(** The index of the first recent time; 0 when there is none. *)
Definition first_recent (now window : Z) (ts : list Z) : nat :=
  match list_find (fun t => now - t < window) ts with Some (i, _) => i | None => O end.
Definition purge_entry (now window : Z) (e : Z * list Z) : option (Z * list Z) :=
  let toremove := first_recent now window e.2 in
  if (toremove =? 0)%nat then Some e else
  let ts := drop toremove e.2 in
  if bool_decide (ts = []) then None else Some (e.1, ts).
Definition purge_disc_record (now window : Z) : list (Z * list Z) -> list (Z * list Z) :=
  omap (purge_entry now window).
Definition serverupdate : M server unit :=
  s <- get_server ;;
  when (shouldstep s && negb (gamepaused s)) run_match ;;
  check_timeouts ;;
  update_exceeded ;;
  s <- get_server ;;
  when (next_timeupdate s <? gamemillis s) (
    fire "timeupdate" [AInt (get_minutes_left s); AInt (get_seconds_left s)] ;;
    s <- get_server ;;
    set_game {{ next_timeupdate := gamemillis s + 60000 }}) ;;
  s <- get_server ;;
  when (shouldstep s && negb (gamepaused s)) (
    when (m_timed (gamemode s) && negb (bool_decide (smapname s = [])) && (0 <? gamemillis s - curtime s))
      checkintermission ;;
    s <- get_server ;;
    when ((0 <? interm s) && (interm s + spectator_delay s <? gamemillis s) &&
          bool_decide (zlength (delayed_sendpackets s) = 0)) (
      set_game {{ spectator_delay := 0 }} ;;
      enddemorecord ;;
      set_game {{ interm := -1 }} ;;
      checkvotes true)) ;;
  anti_cheat_serverupdate ;;
  s <- get_server ;;
  set_game {{ shouldstep := negb (bool_decide (clients s = [])) }} ;;
  set_roster {{ disc_record ::= purge_disc_record (totalmillis s) (disc_window s) }}.

(** [update_time]: [millis] is the system clock, [timeerr] the static. *)
Definition update_time (millis timeerr : Z) : M server Z :=
  s <- get_server ;;
  let elapsedtime := millis - totalmillis s in
  let scaledtime := scaletime elapsedtime s + timeerr in
  let cur := if gamepaused s then 0 else scaledtime ÷ 100 in
  modify {{ sv_clock ::= fun c => c <| curtime := cur |> <| lastmillis ::= Z.add cur |> <| totalmillis := millis |> }} ;;
  ret (Z.rem scaledtime 100).
End match_.

(** * Overtime is for ties *)

Lemma top_team_spec L a :
  match fold_left top_team (a :: L) (None, - 2147483648, false) with
  | (Some t, top, b) =>
    (t, top) ∈ a :: L /\ (forall e, e ∈ a :: L -> e.2 <= top) /\
    (b = true <-> exists e, (e ∈ a :: L) /\ e.1 <> t /\ e.2 = top)
  | (None, _, _) => False
  end.
Proof.
  induction L as [|e L IH] using rev_ind.
  { destruct a as [t n]. cbn. split; [set_solver|]. split; [intros e ->%list_elem_of_singleton; done|].
    split; [done|]. intros (e&->%list_elem_of_singleton&Hne&_). done. }
  rw app_comm_cons fold_left_app. destruct (fold_left top_team (a :: L) _) as [[[t|] top] b]; [|done].
  destruct IH as (Hin&Hmax&Hb). destruct e as [t' n]. cbn [fold_left top_team].
  assert (forall e, e ∈ (a :: L) ++ [(t', n)] <-> e ∈ a :: L \/ e = (t', n)) as Hel.
  { intros e. rw elem_of_app list_elem_of_singleton. done. }
  destruct (Z.ltb_spec top n) as [Hlt|Hge].
  - split; [apply Hel; by right|]. split; [intros e [He| ->]%Hel; [specialize (Hmax e He); lia|done]|].
    split; [done|]. intros (e&[He| ->]%Hel&Hne&E); [specialize (Hmax e He); lia|done].
  - assert (forall e, e ∈ (a :: L) ++ [(t', n)] -> e.2 <= top) as Hm.
    { intros e [He| ->]%Hel; [by apply Hmax|done]. }
    destruct (Z.eqb_spec n top) as [->|Hne]; cbn [andb].
    + case_bool_decide as Et; cbn [negb]; (split; [apply Hel; by left|]; split; [done|]).
      * subst. rw Hb. split; intros (e&He&?&?); [exists e; split; [apply Hel; by left|done]|].
        apply Hel in He as [He| ->]; [by exists e|done].
      * split; [|done]. intros _. exists (t', top). split; [apply Hel; by right|done].
    + split; [apply Hel; by left|]. split; [done|]. rw Hb.
      split; intros (e&He&?&?); [exists e; split; [apply Hel; by left|done]|].
      apply Hel in He as [He| ->]; [by exists e|cbn in *; lia].
Qed.
Lemma top_player_spec (l : list Z) :
  Forall (fun n => - 2147483648 < n) l ->
  let '(top, b) := fold_left top_player l (- 2147483648, false) in
  (forall n, n ∈ l -> n <= top) /\ (l <> [] -> top ∈ l) /\
  (b = true <-> exists i j, i <> j /\ l !! i = Some top /\ l !! j = Some top).
Proof.
  induction l as [|n l IH] using rev_ind; intros Hl.
  { cbn. split; [set_solver|]. split; [done|]. split; [done|]. intros (i&j&_&Hi&_). done. }
  apply Forall_app in Hl as [Hl Hn]. apply (Forall_inv (l := [])) in Hn. cbv beta in Hn. specialize (IH Hl). rw fold_left_app. cbn [fold_left].
  assert (l = [] -> (fold_left top_player l (- 2147483648, false)) = (- 2147483648, false)) as Hnil by (by intros ->).
  destruct (fold_left top_player l _) as [top b]. destruct IH as (Hmax&Hin&Hb). cbn [top_player].
  assert (forall m, m ∈ l ++ [n] <-> m ∈ l \/ m = n) as Hel by (intros m; by rw elem_of_app list_elem_of_singleton).
  assert (forall i m, (l ++ [n]) !! i = Some m <-> l !! i = Some m \/ i = length l /\ m = n) as Hlk.
  { intros i m. rw lookup_snoc_Some. split; [intros [[? ?]|[? ?]]; auto|].
    intros [Hi|[-> ->]]; [left; split; [by eapply lookup_lt_Some|done]|by right]. }
  assert (forall i m, l !! i = Some m -> m <= top /\ (i < length l)%nat) as Hi.
  { intros i m H. split; [apply Hmax; by eapply list_elem_of_lookup_2|by eapply lookup_lt_Some]. }
  destruct (Z.ltb_spec top n) as [Hlt|Hge]; [|destruct (Z.eqb_spec n top) as [->|Hne]].
  - split; [intros m [Hm| ->]%Hel; [specialize (Hmax m Hm); lia|done]|]. split; [intros _; apply Hel; by right|].
    split; [done|]. intros (i&j&Hij&Hi1&Hj1). apply Hlk in Hi1 as [Hi1%Hi|[-> _]]; [lia|].
    apply Hlk in Hj1 as [Hj1%Hi|[-> _]]; [lia|done].
  - split; [intros m [Hm| ->]%Hel; [by apply Hmax|done]|]. split; [intros _; apply Hel; by right|].
    split; [intros _|done]. destruct l as [|x l]; [specialize (Hnil eq_refl); assert (top = - 2147483648) as E by exact (f_equal fst Hnil); lia|].
    specialize (Hin ltac:(done)). apply list_elem_of_lookup in Hin as [i Hi1].
    exists i, (length (x :: l)). split; [apply lookup_lt_Some in Hi1; lia|]. split; apply Hlk; auto.
  - split; [intros m [Hm| ->]%Hel; [by apply Hmax|done]|]. split.
    { intros _. apply Hel. destruct l as [|x l]; [specialize (Hnil eq_refl); assert (top = - 2147483648) as E by exact (f_equal fst Hnil); lia|].
      left. by apply Hin. }
    rw Hb. split; intros (i&j&Hij&Hi1&Hj1).
    + exists i, j. split; [done|]. split; apply Hlk; by left.
    + exists i, j. split; [done|]. apply Hlk in Hi1 as [Hi1|[_ ->]]; [|done]. by apply Hlk in Hj1 as [Hj1|[_ ->]].
Qed.

(** ** What a tie is *)
Section overtime.
Context {hooks : Hooks}.
Definition in_contention (s : server) (ci : nat) : bool :=
  in_match s ci && (negb (m_teammode (gamemode s)) || negb (bool_decide (team (deref ci s) = []))).
Definition score_of (s : server) (ci : nat) : Z :=
  if m_teammode (gamemode s) then team_score (team (deref ci s)) s else frags (deref ci s).
Definition rivals (s : server) (i j : nat) : Prop :=
  if m_teammode (gamemode s) then team (deref i s) <> team (deref j s) else i <> j.
(** Two rivals are in the lead together. *)
Definition deadlocked (s : server) : Prop := exists i j,
  (i ∈ clients s) /\ (j ∈ clients s) /\ in_contention s i = true /\ in_contention s j = true /\
  rivals s i j /\ score_of s i = score_of s j /\
  forall k, k ∈ clients s -> in_contention s k = true -> score_of s k <= score_of s i.

Lemma tied_teams (f : nat -> cstring) (sc : cstring -> Z) (l : list nat) :
  (fold_left top_team (map (fun ci => (f ci, sc (f ci))) l) (None, - 2147483648, false)).2 = true <->
  exists i j, (i ∈ l) /\ (j ∈ l) /\ f i <> f j /\ sc (f i) = sc (f j) /\
    forall k, k ∈ l -> sc (f k) <= sc (f i).
Proof.
  destruct l as [|a l]; [cbn; split; [done|intros (i&?&Hi%elem_of_nil&_); done]|].
  set (g ci := (f ci, sc (f ci))).
  assert (forall e, e ∈ map g (a :: l) <-> exists ci, e = g ci /\ (ci ∈ a :: l)) as Hel
    by (intros e; apply list_elem_of_fmap).
  pose proof (top_team_spec (map g l) (g a)) as Ht. change (g a :: map g l) with (map g (a :: l)) in Ht.
  destruct (fold_left top_team _ _) as [[[t|] top] b]; [|done]. destruct Ht as (Hin&Hmax&Hb).
  apply Hel in Hin as (i&[= -> Ei]&Hi). cbn. rw Hb. split.
  - intros (e&He&Hne&Htop). apply Hel in He as (j&->&Hj). exists i, j. cbn in *.
    split_and!; [done|done|congruence|congruence|]. intros k Hk. rw -Ei.
    apply (Hmax (g k)). apply Hel. by exists k.
  - intros (x&y&Hx&Hy&Hne&Heq&Hxm). subst top.
    assert (sc (f x) = sc (f i)) as Exi.
    { apply Z.le_antisymm; [apply (Hmax (g x)); apply Hel; by exists x|by apply Hxm]. }
    destruct (decide (f x = f i)) as [E|E].
    + exists (g y). cbn. split; [apply Hel; by exists y|]. split; congruence.
    + exists (g x). cbn. split; [apply Hel; by exists x|]. split; congruence.
Qed.
Lemma tied_players (sc : nat -> Z) (l : list nat) :
  NoDup l -> Forall (fun ci => - 2147483648 < sc ci) l ->
  (fold_left top_player (map sc l) (- 2147483648, false)).2 = true <->
  exists i j, (i ∈ l) /\ (j ∈ l) /\ i <> j /\ sc i = sc j /\ forall k, k ∈ l -> sc k <= sc i.
Proof.
  intros Hd Hl. pose proof (top_player_spec (map sc l) (proj2 (Forall_map _ _ _) Hl)) as Ht.
  destruct (fold_left top_player _ _) as [top b]. destruct Ht as (Hmax&Hin&Hb). cbn. rw Hb.
  assert (forall i m, map sc l !! i = Some m <-> exists ci, m = sc ci /\ l !! i = Some ci) as Hlk.
  { intros i m. rw list_lookup_fmap_Some. naive_solver. }
  split.
  - intros (x&y&Hxy&Hx&Hy). apply Hlk in Hx as (i&->&Hi). apply Hlk in Hy as (j&E&Hj). exists i, j.
    split_and!; [by eapply list_elem_of_lookup_2|by eapply list_elem_of_lookup_2| |done|].
    + intros ->. by apply Hxy, (NoDup_lookup l _ _ j).
    + intros k Hk. apply Hmax, list_elem_of_fmap. by exists k.
  - intros (i&j&Hi&Hj&Hij&Heq&Hm).
    assert (top = sc i) as ->.
    { assert (map sc l <> []) as Hne by (destruct l; [by apply elem_of_nil in Hi|done]).
      apply Hin in Hne. apply list_elem_of_fmap in Hne as (k&->&Hk). apply Z.le_antisymm; [by apply Hm|].
      apply Hmax, list_elem_of_fmap. by exists i. }
    apply list_elem_of_lookup in Hi as [x Hx]. apply list_elem_of_lookup in Hj as [y Hy].
    exists x, y. split; [intros ->; congruence|]. split; apply Hlk; [by exists i|by exists j].
Qed.
Lemma tied_spec (s : server) :
  NoDup (clients s) -> (forall ci, ci ∈ clients s -> - 2147483648 < frags (deref ci s)) ->
  tied s = true <-> deadlocked s.
Proof.
  intros Hd Hf. unfold tied, deadlocked, rivals, score_of, in_contention.
  destruct (m_teammode (gamemode s)).
  - rewrite -> (tied_teams (fun ci => team (deref ci s)) (fun t => team_score t s)). cbn [negb orb]. split.
    + intros (i&j&Hi&Hj&H1&H2&H3). rw !list_elem_of_filter in Hi Hj. destruct Hi as [Ei Hi], Hj as [Ej Hj].
      exists i, j. split_and!; try done. intros k Hk Hc. apply H3. rw list_elem_of_filter. done.
    + intros (i&j&Hi&Hj&H1&H2&H3&H4&H5). exists i, j. rw !list_elem_of_filter.
      split_and!; try done. intros k [Hc Hk]%list_elem_of_filter. by apply H5.
  - rewrite -> (tied_players (fun ci => frags (deref ci s))).
    + split.
      * intros (i&j&Hi&Hj&H1&H2&H3). rw !list_elem_of_filter in Hi Hj. destruct Hi as [Ei Hi], Hj as [Ej Hj].
        exists i, j. rw Ei Ej. split_and!; try done. intros k Hk Hc. apply H3. rw list_elem_of_filter.
        by rw andb_true_r in Hc.
      * intros (i&j&Hi&Hj&H1&H2&H3&H4&H5). rw !andb_true_r in H1 H2. exists i, j. rw !list_elem_of_filter.
        split_and!; try done. intros k [Hk Hc]%list_elem_of_filter. apply H5; [done|]. by rw Hk.
    + by apply NoDup_filter.
    + apply list.Forall_forall. intros k [_ Hk]%list_elem_of_filter. by apply Hf.
Qed.
End overtime.

Section overtime_rule.
Context {hooks : Hooks}.

(** A match is prolonged exactly when it is timed, overtime is switched on and
    two rivals lead together: two players with the highest score or, in the team
    modes, members of two teams with the highest score; spectators do not count.  It
    then ends two minutes after its limit, or after now when that is past, and
    nothing else of the game changes; otherwise nothing at all changes. *)
Theorem overtime_for_ties (s : server) :
  NoDup (clients s) -> (forall ci, ci ∈ clients s -> - 2147483648 < frags (deref ci s)) ->
  (eval checkovertime s = true <->
   m_timed (gamemode s) = true /\ overtime s = true /\ deadlocked s) /\
  (if eval checkovertime s
   then sv_game (exec checkovertime s) =
        sv_game s <| gamelimit := Z.max (gamemillis s) (gamelimit s) + 120000 |>
   else exec checkovertime s = s).
Proof.
  intros Hd Hf. pose proof (tied_spec s Hd Hf) as Ht. unfold checkovertime. rw exec_bind eval_bind.
  cbn [eval exec get_server gets fst snd id].
  destruct (m_timed (gamemode s)); cbn [negb orb]; [|split; [|done]; cbn; naive_solver].
  destruct (overtime s); cbn [negb]; [|split; [|done]; cbn; naive_solver].
  destruct (tied s); cbn [negb]; [|split; [|done]; cbn; naive_solver].
  assert (forall fs s, sv_game (exec (sendf (-1) 1 fs) s) = sv_game s) as Hg.
  { intros fs s1. assert (respects (eq_on sv_game) (sendf (-1) 1 fs)) as Hs by solve_respects. symmetry. exact (Hs s1). }
  split; [rw !eval_bind; cbn; naive_solver|]. rw !eval_bind. cbn [eval ret fst].
  do 4 rw exec_bind. unfold sendservmsg. set (s1 := exec (sendf _ _ _) s). change (sv_game (exec (ret true) ?t)) with (sv_game t).
  rw Hg. cbn. unfold s1. rw Hg. assert (forall a b, tmax a b = Z.max a b) as -> by (intros a b; unfold tmax; rw Z.gtb_ltb; zcases).
  reflexivity.
Qed.
End overtime_rule.

(** * The majority decides *)

Definition ballots (s : server) : list (cstring * Z) :=
  map (fun ci => (mapvote (deref ci s), modevote (deref ci s)))
    (filter (fun ci => m_valid (modevote (deref ci s)) = true) (filter (fun ci => may_vote s ci = true) (clients s))).
(** The clients that want this mode on this map. *)
Definition support (k : cstring * Z) (s : server) : Z := zlength (filter (eq k) (ballots s)).
Definition key (v : votecount) : cstring * Z := (vc_map v, vc_mode v).
Definition cast (votes : list votecount) (k : cstring * Z) : list votecount := add_vote k.1 k.2 votes.

Lemma is_vote_spec k v : is_vote k.1 k.2 v = true <-> k = key v.
Proof.
  destruct k as [m n], v as [m' n' c]. unfold is_vote, key. cbn. rw andb_true_iff bool_decide_eq_true Z.eqb_eq.
  naive_solver.
Qed.
(** A new ballot adds one to its own entry and leaves the others. *)
Lemma cast_spec votes k :
  NoDup (map key votes) ->
  NoDup (map key (cast votes k)) /\
  (forall v, (v ∈ cast votes k) <->
     if decide (k = key v) then exists n, vc_count v = n + 1 /\
       ((exists w, (w ∈ votes) /\ key w = k /\ vc_count w = n) \/ n = 0 /\ (k ∉ map key votes))
     else v ∈ votes).
Proof.
  unfold cast. induction votes as [|w votes IH]; cbn [add_vote map].
  { intros _. split; [apply NoDup_singleton|]. intros v. rw list_elem_of_singleton. destruct v as [m' n' c].
    destruct k as [m n]. unfold key. cbn. case_decide as E.
    - injection E as <- <-. split; [intros [= ->]; exists 0; split; [done|]; right; split; [done|apply not_elem_of_nil]|].
      intros (x&->&[(?&?%elem_of_nil&_)|[-> _]]); done.
    - split; [intros [= -> -> ->]; done|intros ?%elem_of_nil; done]. }
  intros [Hw Hnd]%NoDup_cons. specialize (IH Hnd). pose proof (is_vote_spec k w) as Hk.
  destruct (is_vote k.1 k.2 w).
  - pose proof (proj1 Hk eq_refl) as E. clear IH. cbn [map]. change (key (w <| vc_count ::= Z.succ |>)) with (key w).
    split; [by apply NoDup_cons|]. intros v. rw elem_of_cons. case_decide as Ev.
    + split.
      * intros [->|Hv]; [exists (vc_count w); split; [by destruct w|]; left; exists w; by rw elem_of_cons; auto|].
        destruct Hw. rw -E Ev. apply list_elem_of_fmap. by exists v.
      * intros (x&Hx&[(u&Hu&Eu&<-)|[_ Hnot]]); [|destruct Hnot; rw E; apply elem_of_cons; by left]. left.
        apply elem_of_cons in Hu as [->|Hu].
        -- destruct v as [m1 n1 c1], w as [m2 n2 c2]. unfold key in *. cbn in *.
           assert ((m1, n1) = (m2, n2)) as [= -> ->] by congruence. by rw Hx.
        -- destruct Hw. rw -E -Eu. apply list_elem_of_fmap. by exists u.
    + rw elem_of_cons. split; intros [->|Hv]; auto; by rw E in Ev.
  - assert (k <> key w) as Hne by (intros E; by apply Hk in E). destruct IH as [IH1 IH2]. cbn [map]. split.
    + apply NoDup_cons. split; [|done]. intros Hin. apply list_elem_of_fmap in Hin as (v&Ev&Hv).
      apply IH2 in Hv. case_decide as E; [congruence|]. apply Hw. rw Ev. apply list_elem_of_fmap. by exists v.
    + intros v. rw elem_of_cons IH2. case_decide as Ev.
      * split.
        -- intros [->|(x&Hx&[(u&Hu&Eu&Ec)|[-> Hnot]])]; [done| |].
           ++ exists x. split; [done|]. left. exists u. rw elem_of_cons. auto.
           ++ exists 0. split; [done|]. right. split; [done|]. by rw not_elem_of_cons.
        -- intros (x&Hx&[(u&Hu&Eu&Ec)|[Hx0 Hnot]]); right; exists x; (split; [done|]).
           ++ left. exists u. apply elem_of_cons in Hu as [->|Hu]; [congruence|done].
           ++ right. split; [done|]. by apply not_elem_of_cons in Hnot as [_ ?].
      * by rw elem_of_cons.
Qed.
Lemma tally_spec (l : list (cstring * Z)) :
  let votes := fold_left cast l [] in
  NoDup (map key votes) /\
  forall v, (v ∈ votes) <-> 0 < vc_count v /\ vc_count v = zlength (filter (eq (key v)) l).
Proof.
  induction l as [|k l IH] using rev_ind; cbn zeta in *.
  { cbn. split; [constructor|]. intros v. split; [intros ?%elem_of_nil; done|]. unfold zlength. cbn. lia. }
  rw fold_left_app. cbn [fold_left]. destruct IH as [Hnd Hv]. destruct (cast_spec _ k Hnd) as [Hnd' Hc].
  split; [done|]. intros v. rw Hc filter_app zlength_app. cbn [filter list_filter]. case_decide as E.
  - rewrite -> decide_True by done. change (zlength [k]) with 1. rw -E. split.
    + intros (n&->&[(w&Hw&Ew&<-)|[-> Hnot]]).
      * apply Hv in Hw as [H1 H2]. rw Ew in H2. lia.
      * split; [done|]. destruct (filter (eq k) l) as [|k' l'] eqn:El; [done|].
        destruct Hnot.
        apply list_elem_of_fmap. exists (mkvote k.1 k.2 (zlength (filter (eq k) l))). split; [by destruct k|].
        apply Hv. unfold key. cbn. rw -surjective_pairing El. unfold zlength. cbn. split; [lia|done].
    + intros [H1 H2]. set (n := zlength (filter (eq k) l)) in *. exists n. split; [done|].
      destruct (decide (n = 0)) as [E0|E0].
      * right. split; [done|]. intros Hin. apply list_elem_of_fmap in Hin as (w&Ew&Hw).
        apply Hv in Hw as [H3 H4]. rw -Ew in H4. lia.
      * left. exists (mkvote k.1 k.2 n). split; [|by destruct k]. apply Hv. unfold key. cbn. rw -surjective_pairing.
        split; [unfold n, zlength in *; lia|done].
  - rewrite -> decide_False by congruence. rw Hv. unfold zlength. cbn. by rw Z.add_0_r.
Qed.

Lemma count_votes_cast s : count_votes s = fold_left cast (ballots s) [].
Proof.
  unfold count_votes, ballots. generalize (@nil votecount) as votes.
  induction (filter (fun ci => may_vote s ci = true) (clients s)) as [|ci l IH]; intros votes; [done|].
  cbn [fold_left filter list_filter]. rw IH. case_decide as E; [by rw E|]. by destruct (m_valid _).
Qed.
Lemma ballots_le s : zlength (ballots s) <= maxvotes s.
Proof. unfold ballots, maxvotes, zlength. rw length_fmap. apply inj_le, length_filter. Qed.
Lemma support_pair k k' s : k <> k' -> support k s + support k' s <= maxvotes s.
Proof.
  intros Hne. apply Z.le_trans with (2 := ballots_le s). unfold support.
  induction (ballots s) as [|b l IH]; [done|]. unfold zlength in *. rw !filter_cons.
  repeat case_decide; cbn [length]; try congruence; lia.
Qed.
(** The most votes win, whatever the coin says. *)
Lemma best_vote_leads v (votes : list votecount) best s :
  (forall w, w ∈ votes -> w = v \/ vc_count w < vc_count v) ->
  best = Some v \/ (v ∈ votes) /\ (forall b, best = Some b -> b = v \/ vc_count b < vc_count v) ->
  eval (foldM (fun v best => better best v) votes best) s = Some v.
Proof.
  revert best s. induction votes as [|w votes IH]; intros best s Hw Hbest.
  { cbn. by destruct Hbest as [|[?%elem_of_nil _]]. }
  cbn [foldM]. rw eval_bind. apply IH; [intros u Hu; apply Hw, elem_of_cons; by right|].
  specialize (Hw w ltac:(apply elem_of_cons; by left)). unfold better. destruct Hbest as [->|[Hv Hb]].
  - left. destruct Hw as [->|Hw].
    + rw Z.ltb_irrefl Z.eqb_refl. rw eval_bind. by destruct (_ =? 0).
    + destruct (Z.ltb_spec (vc_count v) (vc_count w)); [lia|]. by destruct (Z.eqb_spec (vc_count w) (vc_count v)); [lia|].
  - apply elem_of_cons in Hv as [<-|Hv].
    + left. destruct best as [b|]; [|done]. destruct (Hb b eq_refl) as [->|Hlt].
      * rw Z.ltb_irrefl Z.eqb_refl. rw eval_bind. by destruct (_ =? 0).
      * by destruct (Z.ltb_spec (vc_count b) (vc_count v)); [|lia].
    + right. split; [done|]. intros b'. destruct best as [b|]; [|intros [= <-]; done].
      specialize (Hb b eq_refl). destruct (_ <? _); [intros [= <-]; done|].
      destruct (_ =? _); [|intros [= <-]; done]. rw eval_bind. destruct (_ =? 0); intros [= <-]; done.
Qed.
Lemma best_vote_in (votes : list votecount) best s v :
  eval (foldM (fun v best => better best v) votes best) s = Some v -> best = Some v \/ v ∈ votes.
Proof.
  revert best s. induction votes as [|w votes IH]; intros best s; cbn [foldM]; [by left|].
  rw eval_bind. intros [E|Hv]%IH; [|right; apply elem_of_cons; by right]. rw elem_of_cons.
  unfold better in E. destruct best as [b|]; [|injection E as <-; auto].
  destruct (_ <? _); [injection E as <-; auto|]. destruct (_ =? _); [|injection E as <-; auto].
  rw eval_bind in E. destruct (_ =? 0); injection E as <-; auto.
Qed.

Definition but_rng (s s' : server) : Prop := exists g, s' = s <| sv_rng := g |>.
#[export] Instance but_rng_preorder : PreOrder but_rng.
Proof. split; [intros s; exists (sv_rng s); by destruct s|intros s1 s2 s3 [g ->] [g' ->]; by exists g']. Qed.
Lemma best_vote_rng votes : respects but_rng (best_vote votes).
Proof.
  unfold best_vote, better. solve_respects. intros s. unfold exec, rand. destruct (rnd 2 (sv_rng s)) as [r g]. by exists g.
Qed.

Section majority.
Context {hooks : Hooks} {files : Files} {host : Host}.

(** C29: a vote is decided by absolute majority.  As soon as more than half of those
    who may vote (the bots and the plain spectators may not) want the same mode on
    the same map, [checkvotes] announces it and changes to that map and mode, and no
    other can have as many; as long as nobody has that many, [checkvotes] does nothing
    but draw random numbers. *)
Theorem majority_decides (s : server) :
  (forall k, maxvotes s ÷ 2 < support k s ->
     exists s1, but_rng s s1 /\
       exec (checkvotes false) s =
       exec (run_sendpackets true ;; enddemorecord ;; sendservmsg (cstr "vote passed by majority") ;;
             fire "votepassed" [AStr (encodeutf8 k.1); AStr (unknown_mode k.2)] ;;
             changemap k.1 k.2 (-1)) s1 /\
       forall k', maxvotes s ÷ 2 < support k' s -> k' = k) /\
  ((forall k, support k s <= maxvotes s ÷ 2) -> but_rng s (exec (checkvotes false) s)).
Proof.
  pose proof (tally_spec (ballots s)) as [_ Hv]. rw -count_votes_cast in Hv.
  assert (0 <= maxvotes s) as H0 by apply Nat2Z.is_nonneg.
  assert (forall k k', maxvotes s ÷ 2 < support k s -> k' <> k -> support k' s < support k s /\ support k' s <= maxvotes s ÷ 2) as Hu.
  { intros k k' Hk Hne. pose proof (support_pair k' k s Hne). rewrite -> Z.quot_div_nonneg in * by lia.
    pose proof (Z.div_mod (maxvotes s) 2 ltac:(lia)). pose proof (Z.mod_pos_bound (maxvotes s) 2 ltac:(lia)). lia. }
  assert (forall v, v ∈ count_votes s -> vc_count v = support (key v) s) as Hs by (intros v Hin; by apply Hv).
  unfold checkvotes. rw !exec_bind. cbn [eval exec get_server gets fst snd id]. split.
  - intros k Hk. set (v := mkvote k.1 k.2 (support k s)).
    assert (key v = k) as Ek by (by destruct k).
    assert (eval (best_vote (count_votes s)) s = Some v) as ->.
    { apply best_vote_leads.
      - intros w Hw. pose proof (Hs w Hw) as Ew. destruct (decide (key w = k)) as [E|E].
        + left. destruct w as [m n c]. unfold v. rw E in Ew. cbn in Ew. rw Ew. by destruct k; injection E as -> ->.
        + right. rw Ew. by apply Hu.
      - right. split; [|done]. apply Hv. rw Ek. split; [|done]. cbn. pose proof (Z.quot_pos (maxvotes s) 2 H0 ltac:(lia)). lia. }
    exists (exec (best_vote (count_votes s)) s). split; [apply best_vote_rng|]. cbn [orb vc_count v].
    rewrite -> (proj2 (Z.ltb_lt _ _) Hk). split; [done|].
    intros k' Hk'. destruct (decide (k' = k)) as [|Hne]; [done|]. destruct (Hu k k' Hk Hne). lia.
  - intros Hno. destruct (eval (best_vote (count_votes s)) s) as [v|] eqn:Ev; cbn [orb].
    + apply best_vote_in in Ev as [?|Hin]; [done|]. pose proof (Hno (key v)). rewrite <- (Hs v Hin) in *.
      destruct (Z.ltb_spec (maxvotes s ÷ 2) (vc_count v)); [lia|]. apply best_vote_rng.
    + apply best_vote_rng.
Qed.
End majority.

(** The scaled time is not lost: what is not given to the game is kept as the error. *)
Lemma update_time_conserves (millis timeerr : Z) (s : server) :
  gamepaused s = false ->
  100 * curtime (exec (update_time millis timeerr) s) + eval (update_time millis timeerr) s =
  scaletime (millis - totalmillis s) s + timeerr.
Proof.
  intros Hp. unfold update_time. rw !exec_bind !eval_bind. cbn -[scaletime Z.quot Z.rem]. rw Hp.
  symmetry. apply Z.quot_rem'.
Qed.

(** ** A tie and a vote *)
#[local] Existing Instances no_hooks no_files no_host.
Definition tie_sample : server :=
  sample_server 0 [good; evil; good] <| sv_config ::= {{ overtime := true }} |>.
Lemma overtime_for_ties_witness :
  deadlocked tie_sample /\
  gamelimit (exec (checkovertime) tie_sample) = gamelimit tie_sample + 120000.
Proof.
  destruct (overtime_for_ties tie_sample) as [[H _] Hl].
  - change (clients tie_sample) with [0%nat; 1%nat; 2%nat]. decide_now.
  - change (clients tie_sample) with [0%nat; 1%nat; 2%nat]. apply list.Forall_forall. decide_now.
  - assert (eval (checkovertime) tie_sample = true) as E by by vm_compute.
    split; [by apply H|]. rw E in Hl. rw Hl. by vm_compute.
Defined.
Definition vote_sample : server :=
  exec (upd_ci 2 (fun c => c <| mapvote := cstr "reissen" |> <| modevote := 11 |>) ;;
        upd_ci 0 (fun c => c <| mapvote := cstr "reissen" |> <| modevote := 11 |>))
    (sample_server 0 [good; evil; good]).
Lemma majority_decides_witness :
  let k := (cstr "reissen", 11) in
  support k vote_sample = 2 /\
  exists s1, but_rng vote_sample s1 /\
    exec (checkvotes false) vote_sample =
    exec (run_sendpackets true ;; enddemorecord ;; sendservmsg (cstr "vote passed by majority") ;;
          fire "votepassed" [AStr (encodeutf8 k.1); AStr (unknown_mode k.2)] ;;
          changemap k.1 k.2 (-1)) s1.
Proof.
  intros k. assert (support k vote_sample = 2) as E by by vm_compute. split; [exact E|].
  destruct (majority_decides vote_sample) as [H _].
  assert (maxvotes vote_sample ÷ 2 < support k vote_sample) as Hk by (rw E; by vm_compute).
  destruct (H k Hk) as (s1&Hr&Hex&_). exists s1. exact (conj Hr Hex).
Defined.
Example votes_counted : count_votes vote_sample = [mkvote (cstr "reissen") 11 2] /\ maxvotes vote_sample = 3.
Proof. by vm_compute. Qed.

(** The loop over the joining clients goes on by index: when both have waited too
    long, one of them is not looked at in this round. *)
Definition late_sample : server :=
  sample_server 0 [good; evil; good] <| sv_clock ::= {{ totalmillis := 20000 }} |>
    <| sv_roster ::= fun r => r <| clients := [2%nat] |> <| connects := [0%nat; 1%nat] |>
       <| ci_heap ::= fun h => alter {{ connected := false }} 0%nat (alter {{ connected := false }} 1%nat h) |> |>.
Example timeout_skips : connects (exec (check_timeouts) late_sample) = [1%nat].
Proof. by vm_compute. Qed.
