(* ===== verification/Api.v ===== *)
(** What the scripts may ask of the server (hopmod/server_functions.cpp).

    A function that names an unknown client raises an error in the script:
    its answer is then [None] and nothing has changed.  The values that go to Lua are
    the results of the definitions; what a script asks for that must wait for the
    event loop is added to [sv_tasks] and done by [run_task]. *)
From S2P Require Import Prelude Wire Text Float32 Stream Game Random State Ents Engine Intermission Servmode Roster Items Cheat Combat Events Worldstate Welcome Ai Demo Clients Match.
From Stdlib Require Import Floats.

#[local] Open Scope list_scope.

(** ** Looking a client up *)

(** [getinfo], and [get_ci], which raises the error "invalid cn". *)
Definition get_client (cn : Z) (s : server) : option clientinfo := (fun ci => deref ci s) <$> getinfo cn s.
Definition of_client {A} (f : clientinfo -> A) (cn : Z) (s : server) : option A := f <$> get_client cn s.
Definition get_ci {A} (cn : Z) (k : nat -> M server A) : M server (option A) :=
  s <- get_server ;;
  match getinfo cn s with
  | None => ret None
  | Some ci => a <- k ci ;; ret (Some a)
  end.

(** ** Reading *)

Definition bswap32 (n : Z) : Z := le_value (rev (put_n 4 n)).
Definition player_id (cn : Z) (s : server) : option (list Z) :=
  of_client (fun c : clientinfo =>
       if aitype c =? AI_NONE then put_n 4 (getclientip (clientnum c) s) ++ encodeutf8 (name c)
        else cstr "bot" ++ put_n 4 (sessionid c)) cn s.
Definition player_sessionid (cn : Z) (s : server) : Z := default (-1) (of_client sessionid cn s).
Definition player_ownernum : Z -> server -> option Z := of_client ownernum.
Definition player_name : Z -> server -> option (list Z) := of_client (fun c : clientinfo => encodeutf8 (name c)).
Definition player_displayname (cn : Z) (s : server) : option (list Z) :=
  of_client (fun c : clientinfo =>
  let is_bot := negb (aitype c =? AI_NONE) in
  let duplicate := negb is_bot &&
    existsb (fun ci => let o := deref ci s in negb (clientnum o =? cn) && bool_decide (name o = name c)) (clients s) in
  let brackets := if is_bot then (91, 93) else (40, 41) in
  encodeutf8 (name c) ++
        if is_bot || duplicate
        then [12; 115; 12; 53; 32; brackets.1] ++ print_int cn ++ [brackets.2; 12; 114] else []) cn s.
Definition player_team (cn : Z) (s : server) : option (list Z) :=
  if negb (m_teammode (gamemode s)) then Some [] else of_client (fun c : clientinfo => encodeutf8 (team c)) cn s.
Definition player_ip (cn : Z) (s : server) : option cstring := (fun ci => hostname ci s) <$> getinfo cn s.
Definition player_iplong (cn : Z) (s : server) : option Z :=
  of_client (fun c : clientinfo => bswap32 (getclientip (clientnum c) s)) cn s.
Definition player_status_code : Z -> server -> option Z := of_client (fun c : clientinfo => cs_code (state c)).
Definition player_ping : Z -> server -> option Z := of_client ping.
Definition player_ping_update : Z -> server -> option Z := of_client lastpingupdate.
Definition player_lag : Z -> server -> option Z := of_client lag.
Definition player_real_lag (cn : Z) (s : server) : option Z :=
  of_client (fun c : clientinfo => totalmillis s - lastposupdate c) cn s.
Definition player_maploaded : Z -> server -> option Z := of_client maploaded.
Definition player_deathmillis : Z -> server -> option Z := of_client (fun c : clientinfo => lastdeath c).
Definition player_frags : Z -> server -> option Z := of_client (fun c : clientinfo => frags c + suicides c + teamkills c).
Definition player_score : Z -> server -> option Z := of_client (fun c : clientinfo => frags c).
Definition player_deaths : Z -> server -> option Z := of_client (fun c : clientinfo => deaths c).
Definition player_suicides : Z -> server -> option Z := of_client (fun c : clientinfo => suicides c).
Definition player_teamkills : Z -> server -> option Z := of_client (fun c : clientinfo => teamkills c).
Definition player_damage : Z -> server -> option Z := of_client (fun c : clientinfo => damage c).
Definition player_damagewasted : Z -> server -> option Z :=
  of_client (fun c : clientinfo => explosivedamage c + shotdamage c - damage c).
Definition player_maxhealth : Z -> server -> option Z := of_client (fun c : clientinfo => maxhealth c).
Definition player_health : Z -> server -> option Z := of_client (fun c : clientinfo => health c).
Definition player_armour : Z -> server -> option Z := of_client (fun c : clientinfo => armour c).
Definition player_armour_type : Z -> server -> option Z := of_client (fun c : clientinfo => armourtype c).
Definition player_gun : Z -> server -> option Z := of_client (fun c : clientinfo => gunselect c).
Definition player_hits : Z -> server -> option Z := of_client (fun c : clientinfo => hits c).
Definition player_misses : Z -> server -> option Z := of_client (fun c : clientinfo => misses c).
Definition player_shots : Z -> server -> option Z := of_client (fun c : clientinfo => shots c).
(** [roundf], halves away from zero. *)
Definition froundf (x : f32) : Z :=
  match x with
  | S754_finite sign m e =>
    let v := if 0 <=? e then Zpos m * 2 ^ e else (Zpos m + 2 ^ (- e - 1)) / 2 ^ (- e) in
    if sign then - v else v
  | _ => 0
  end.
Definition accuracy_of (c : clientinfo) : Z :=
  let hits_ := shots c - misses c in
  froundf (fmul (fdiv (f32_of_int hits_) (f32_of_int (Z.max (shots c) 1))) (f32_of_int 100)).
Definition player_accuracy : Z -> server -> option Z := of_client accuracy_of.
Definition player_accuracy2 : Z -> server -> option Z :=
  of_client (fun c : clientinfo => froundf (f32_of_int (to_int (damage c * 100) ÷ tmax (shotdamage c) 1))).
Definition player_is_spy : Z -> server -> option bool := of_client spy.
Definition player_clientmillis : Z -> server -> option Z := of_client clientmillis.
Definition player_timetrial : Z -> server -> option Z :=
  of_client (fun c : clientinfo => if 0 <=? timetrial c then timetrial c else -1).
Definition player_privilege_code : Z -> server -> option Z := of_client privilege.
Definition player_privilege : Z -> server -> option cstring := of_client (fun c : clientinfo => privname (privilege c)).
Definition player_status : Z -> server -> option cstring :=
  of_client (fun c : clientinfo => cstr match state c with
    | CS_ALIVE => "alive" | CS_DEAD => "dead" | CS_SPAWNING => "spawning"
    | CS_LAGGED => "lagged" | CS_SPECTATOR => "spectator" | CS_EDITING => "editing"
    end).
Definition player_connection_time (cn : Z) (s : server) : option Z :=
  of_client (fun c : clientinfo => (totalmillis s - connectmillis c) ÷ 1000) cn s.
Definition player_timeplayed (cn : Z) (s : server) : option Z :=
  of_client (fun c : clientinfo => (timeplayed c +
    (if cs_eqb (state c) CS_SPECTATOR then 0 else lastmillis s - lasttimeplayed c)) ÷ 1000) cn s.
Definition player_rank : Z -> server -> option Z := of_client rank.
Definition player_isbot : Z -> server -> option bool := of_client (fun c : clientinfo => negb (aitype c =? AI_NONE)).
Definition player_has_joined_game : Z -> server -> option bool := of_client connected.
Definition player_bots : Z -> server -> option Z := of_client (fun c : clientinfo => zlength (ci_bots c)).
Definition player_pos : Z -> server -> option vec := of_client (fun c : clientinfo => pos c).

Definition getplayercount (s : server) : Z := numclients (-1) false true false s.
Definition getbotcount (s : server) : Z := numclients (-1) true false false s - numclients (-1) true true false s.
Definition getspeccount (s : server) : Z := getplayercount s - numclients (-1) true true false s.

Definition is_player (c : clientinfo) : bool := negb (cs_eqb (state c) CS_SPECTATOR) && (aitype c =? AI_NONE).
Definition is_spectator (c : clientinfo) : bool := cs_eqb (state c) CS_SPECTATOR.
Definition is_bot (c : clientinfo) : bool := negb (aitype c =? AI_NONE).
Definition is_any (c : clientinfo) : bool := true.
Definition make_client_list (clienttype : clientinfo -> bool) (s : server) : list Z :=
  map (fun ci => clientnum (deref ci s)) (filter (fun ci => clienttype (deref ci s) = true) (clients s)).
Definition lua_player_list : server -> list Z := make_client_list is_player.
Definition lua_spec_list : server -> list Z := make_client_list is_spectator.
Definition lua_bot_list : server -> list Z := make_client_list is_bot.
Definition lua_client_list : server -> list Z := make_client_list is_any.

Definition gamemodename (s : server) : cstring := unknown_mode (gamemode s).
Definition get_mastermode (s : server) : Z := mastermode s.
Definition compare_admin_password (x : cstring) (s : server) : bool := bool_decide (x = adminpass s).
Definition get_autorecorddemo (s : server) : bool := autorecorddemo s.
(** The table of a mode, by name or the current one; an unknown name is taken for
    the mode of number 0. *)
Definition lua_gamemodeinfo (name_ : option cstring) (s : server) : list (string * bool) :=
  let mode := match name_ with Some n => modecode n | None => gamemode s end in
  [("noitems", m_check mode M_NOITEMS); ("noammo", m_check mode (Z.lor M_NOAMMO M_NOITEMS));
   ("insta", m_check mode M_INSTA); ("tactics", m_check mode M_TACTICS);
   ("efficiency", m_check mode M_EFFICIENCY); ("capture", m_check mode M_CAPTURE);
   ("regencapture", m_check mode (Z.lor M_CAPTURE M_REGEN)); ("ctf", m_check mode M_CTF);
   ("protect", m_checkall mode (Z.lor M_CTF M_PROTECT)); ("hold", m_checkall mode (Z.lor M_CTF M_HOLD));
   ("teams", m_check mode M_TEAM); ("timed", m_checknot mode (Z.lor M_DEMO (Z.lor M_EDIT M_LOCAL)))]%string.

(** The kinds of variables of the console (shared/command.h). *)
Definition ID_VAR : Z := 0.
Definition ID_FVAR : Z := 1.
Definition ID_SVAR : Z := 2.

Section api.
Context {hooks : Hooks} {files : Files} {host : Host}.

(** ** Messages *)

Definition player_msg (cn : Z) (text : list Z) : M server (option unit) :=
  get_ci cn (fun ci => sendprivtext ci (decodeutf8 text)).
Definition server_msg (text : list Z) : M server unit := sendservmsg (decodeutf8 text).
Definition team_msg (team_ msg : list Z) : M server unit :=
  s <- get_server ;;
  when (m_teammode (gamemode s)) (forM (clients s) (fun ci =>
    s <- get_server ;;
    let c := deref ci s in
    when (is_player c && bool_decide (team c = decodeutf8 team_)) (sendprivtext ci (decodeutf8 msg)))).

(** ** Names and teams *)

(** Nobody else is told the new name of a client with a number above 127. *)
Definition player_rename (cn : Z) (newname : list Z) (public_rename : bool) : M server (option unit) :=
  get_ci cn (fun ci =>
    let safe := filtertext false true MAXNAMELEN (decodeutf8 newname) in
    let safe := if bool_decide (safe = []) then copystring (cstr "unnamed") (MAXNAMELEN + 1) else safe in
    if 128 <=? cn then ret tt else
    let msg := uint_bytes (msg_code N_SWITCHNAME) ++ string_bytes safe in
    upd_ci ci {{ messages ::= fun m => m ++ msg }} ;;
    s <- get_server ;;
    let c := deref ci s in
    sendpacket (clientnum c) 1
      [FRaw (uint_bytes (msg_code N_CLIENT)); FInt (clientnum c); FInt (zlength msg); FRaw msg]
      (if public_rename then -1 else clientnum c) ;;
    let oldname := copystring (name c) (MAXNAMELEN + 1) in
    upd_ci ci {{ name := copystring safe (MAXNAMELEN + 1) }} ;;
    if public_rename then
      fire "renaming" [AInt (clientnum c); AInt 0] ;;
      s <- get_server ;;
      fire "rename" [AInt (clientnum c); AStr (encodeutf8 oldname); AStr (encodeutf8 (name (deref ci s)))] ;; ret tt
    else ret tt).
(** The message lacks the reason that ends N_SETTEAM. *)
Definition player_changeteam (cn : Z) (newteam : list Z) (dosuicide : bool) : M server (option bool) :=
  get_ci cn (fun ci =>
    s <- get_server ;;
    let c := deref ci s in
    let newteam_ := decodeutf8 newteam in
    let old := encodeutf8 (team c) in
    if negb (m_teammode (gamemode s)) || negb (canchangeteam ci (team c) newteam_ s) then ret false else
    veto <- fire "chteamrequest" [AInt cn; AStr old; AStr newteam; AInt (-1)] ;;
    if (veto : bool) then ret false else
    added <- addteaminfo newteam_ ;;
    if negb added then ret false else
    s <- get_server ;;
    when (dosuicide && (bool_decide (smode s <> None) || cs_eqb (state (deref ci s)) CS_ALIVE)) (suicide ci) ;;
    s <- get_server ;;
    fire "reteam" [AInt (clientnum (deref ci s)); AStr old; AStr newteam] ;;
    upd_ci ci {{ team := copystring newteam_ (MAXTEAMLEN + 1) }} ;;
    sendf (-1) 1 (message N_SETTEAM [FInt cn; FStr newteam_]) ;;
    s <- get_server ;;
    when (aitype (deref ci s) =? AI_NONE) set_refresh ;;
    ret true).

(** ** Winning *)

(** The score of the team of a name, as the mode keeps it. *)
Definition get_team_score (t : cstring) (s : server) : Z :=
  match smode s with
  | Some k => sm_getteamscore (servmode_of k) t s
  | None => default 0 (access_teaminfo t s)
  end.
Definition get_team_players (t : list Z) (s : server) : list Z :=
  make_client_list (fun c => is_player c && bool_decide (team c = decodeutf8 t)) s.
Definition team_size_of (t : list Z) (s : server) : Z :=
  zlength (filter (fun ci => team (deref ci s) = decodeutf8 t) (clients s)).
Definition team_win (t : list Z) (s : server) : bool :=
  forallb (fun u => bool_decide (u = t) || negb (get_team_score t s <? get_team_score u s)) (get_teams s).
Definition team_draw (t : list Z) (s : server) : bool :=
  forallb (fun u => bool_decide (u = t) || (get_team_score u s =? get_team_score t s)) (get_teams s).
(** [a] is ahead of [b]: by frags, deaths, accuracy, ping. *)
Definition ahead (a b : clientinfo) : bool :=
  (frags b <? frags a) ||
  (frags a =? frags b) && (deaths a <? deaths b) ||
  (frags a =? frags b) && (deaths a =? deaths b) && (accuracy_of b <? accuracy_of a) ||
  (frags a =? frags b) && (deaths a =? deaths b) && (accuracy_of a =? accuracy_of b) && (ping a <? ping b).
Definition player_win (cn : Z) (s : server) : option bool :=
  (fun ci =>
     if m_teammode (gamemode s) then team_win (team (deref ci s)) s
     else forallb (fun cj =>
       bool_decide (cj = ci) || cs_eqb (state (deref cj s)) CS_SPECTATOR || negb (ahead (deref cj s) (deref ci s)))
       (clients s)) <$> getinfo cn s.

(** ** Spectators, frags, joining *)

Definition player_slay (cn : Z) : M server (option unit) :=
  get_ci cn (fun ci =>
    s <- get_server ;;
    if negb (cs_eqb (state (deref ci s)) CS_ALIVE) then ret tt else
    upd_gs ci {{ state := CS_DEAD }} ;;
    sendf (-1) 1 (message N_FORCEDEATH [FInt cn])).
Definition player_force_spec (cn : Z) : M server (option unit) :=
  get_ci cn (fun ci => upd_ci ci {{ allow_self_unspec := false }} ;; setspectator ci true true).
Definition player_unforce_spec (cn : Z) : M server (option unit) :=
  get_ci cn (fun ci => upd_ci ci {{ allow_self_unspec := true }} ;; setspectator ci false true).
Definition player_spec (cn : Z) : M server (option unit) :=
  get_ci cn (fun ci => upd_ci ci {{ allow_self_unspec := true }} ;; setspectator ci true true).
Definition player_unspec (cn : Z) : M server (option unit) :=
  get_ci cn (fun ci => setspectator ci false true).
Definition spec_all : M server unit :=
  s <- get_server ;;
  forM (clients s) (fun ci =>
    s <- get_server ;;
    let c := deref ci s in
    when (is_player c) (player_spec (clientnum c) ;; ret tt)).
Definition player_forgive_tk (cn : Z) : M server (option unit) :=
  get_ci cn (fun ci => upd_gs ci (fun gs => gs <| frags ::= Z.succ |> <| teamkills ::= Z.pred |>)).
Definition player_suicide (cn : Z) : M server (option unit) := get_ci cn suicide.
Definition player_join_game (cn : Z) : M server (option unit) :=
  get_ci cn (fun ci => s <- get_server ;; when (negb (connected (deref ci s))) (connected_ ci)).
Definition player_reject_join_game (cn : Z) : M server (option unit) :=
  get_ci cn (fun ci =>
    s <- get_server ;;
    when (negb (connected (deref ci s))) (disconnect_client cn (connectauth (deref ci s)))).
Definition changemap_named (map_ : list Z) (mode_ : cstring) (mins : Z) : M server unit :=
  s <- get_server ;;
  let gmode := if bool_decide (mode_ = []) then gamemode s else modecode mode_ in
  changemap (decodeutf8 map_) (if m_mp gmode then gmode else gamemode s) mins.
Definition recorddemo (filename : cstring) : M server unit :=
  s <- get_server ;; if demorecord s then ret tt else setupdemorecord false filename.
Definition set_autorecorddemo (val : bool) : M server unit :=
  modify {{ sv_config ::= {{ autorecorddemo := val }} }} ;;
  set_demo {{ demonextmatch := val }}.

(** ** Privileges *)

Definition hasmaster (s : server) : bool := existsb (fun ci => PRIV_MASTER <=? privilege (deref ci s)) (clients s).
Definition cleanup_masterstate : M server unit :=
  s <- get_server ;;
  if reset_mm s && negb (hasmaster s) then
    set_game {{ mastermode := if display_open s then MM_OPEN else MM_AUTH }} ;;
    set_roster {{ allowedips := [] }} ;;
    s <- get_server ;;
    when (gamepaused s) (pausegame false None)
  else ret tt.
Definition cleanup_masterstate_of (master : nat) : M server unit :=
  cleanup_masterstate ;;
  s <- get_server ;;
  when (cs_eqb (state (deref master s)) CS_SPECTATOR) (removeai master).
Definition send_currentmaster : M server unit :=
  s <- get_server ;;
  let shown := filter (fun ci => (PRIV_MASTER <=? privilege (deref ci s)) && negb (hide_privilege (deref ci s)) = true)
                 (clients s) in
  sendpacket (-1) 1
    (message N_CURRENTMASTER (FInt (mastermode s) ::
       concat (map (fun ci => [FInt (clientnum (deref ci s)); FInt (privilege (deref ci s))]) shown) ++ [FInt (-1)])) (-1).
Definition revoke_master (ci : nat) : M server unit :=
  s <- get_server ;;
  if negb (privilege (deref ci s) =? PRIV_MASTER) then ret tt else
  sendprivtext ci (cstr "The server has revoked your master privilege.") ;;
  upd_ci ci {{ privilege := PRIV_NONE }} ;;
  s <- get_server ;;
  fire "privilege" [AInt (clientnum (deref ci s)); AInt PRIV_MASTER; AInt PRIV_NONE] ;; ret tt.
Definition unsetmaster : M server unit :=
  s <- get_server ;;
  forM (clients s) revoke_master ;;
  cleanup_masterstate ;;
  send_currentmaster.
Definition unset_privilege (cn : Z) (ci : nat) : M server unit :=
  s <- get_server ;;
  let old_priv := privilege (deref ci s) in
  if old_priv =? PRIV_NONE then ret tt else
  upd_ci ci {{ privilege := PRIV_NONE }} ;;
  cleanup_masterstate_of ci ;;
  send_currentmaster ;;
  fire "privilege" [AInt cn; AInt old_priv; AInt PRIV_NONE] ;; ret tt.
Definition unset_player_privilege (cn : Z) : M server (option unit) := get_ci cn (unset_privilege cn).
(** The text of the message is a setting; each [%s] takes the next argument. *)
Fixpoint format_s (fmt : cstring) (args : list cstring) : cstring :=
  match fmt with
  | 37 :: 115 :: fmt => match args with a :: args => a ++ format_s fmt args | [] => format_s fmt [] end
  | 37 :: 37 :: fmt => 37 :: format_s fmt args
  | c :: fmt => c :: format_s fmt args
  | [] => []
  end.
Definition coloured (c : Z) (t : cstring) : cstring := [12; 115; 12; c] ++ t ++ [12; 114].
(** A privilege that is taken away is announced twice: the function goes on. *)
Definition set_privilege (cn priv_code : Z) (public_priv : bool) (ci : nat) : M server unit :=
  s <- get_server ;;
  let c := deref ci s in
  if (privilege c =? priv_code) && negb (Bool.eqb (hide_privilege c) public_priv) then ret tt else
  let public_priv := negb (spy c) && public_priv in
  when (priv_code =? PRIV_NONE) (unset_privilege cn ci) ;;
  s <- get_server ;;
  let old_priv := privilege (deref ci s) in
  upd_ci ci (fun c => c <| privilege := priv_code |> <| hide_privilege := negb public_priv |>) ;;
  let change := if old_priv =? priv_code then coloured 50 (cstr "changed")
                else if old_priv <? priv_code then coloured 50 (cstr "raised") else coloured 48 (cstr "lowered") in
  sendprivtext ci (copystring (format_s (privilege_format s)
    [change; (if public_priv then [] else coloured 52 (cstr "invisible") ++ [32]); privname priv_code]) MAXSTRLEN) ;;
  send_currentmaster ;;
  fire "privilege" [AInt cn; AInt old_priv; AInt priv_code] ;; ret tt.
Definition set_player_privilege (cn priv_code : Z) (public_priv : bool) : M server (option unit) :=
  get_ci cn (set_privilege cn priv_code public_priv).
Definition set_player_master (cn : Z) : M server (option unit) := set_player_privilege cn PRIV_MASTER true.
Definition set_player_auth (cn : Z) : M server (option unit) := set_player_privilege cn PRIV_AUTH true.
Definition set_player_admin (cn : Z) : M server (option unit) := set_player_privilege cn PRIV_ADMIN true.
Definition set_player_private_admin (cn : Z) : M server (option unit) := set_player_privilege cn PRIV_ADMIN false.
Definition set_player_private_master (cn : Z) : M server (option unit) := set_player_privilege cn PRIV_MASTER false.
Definition set_mastermode_cn (value cn : Z) : M server unit :=
  s <- get_server ;;
  if value =? mastermode s then ret tt else
  let prev := mastermode s in
  set_game {{ mastermode := value }} ;;
  set_roster {{ allowedips := if allow_mm_private_reconnect s && (MM_PRIVATE <=? value)
                              then map (fun ci => getclientip (clientnum (deref ci s)) s) (clients s) else [] }} ;;
  let text n := AStr (default (cstr "unknown") (mastermodename n)) in
  fire "setmastermode" [AInt cn; text prev; text value] ;;
  s <- get_server ;;
  sendf (-1) 1 (message N_MASTERMODE [FInt (mastermode s)]).
Definition set_mastermode (value : Z) : M server unit := set_mastermode_cn value (-1).
(** The address the resolver found, if it did. *)
Definition add_allowed_ip (addr : option Z) : M server (option unit) :=
  match addr with
  | None => ret None
  | Some a => set_roster {{ allowedips ::= fun l => l ++ [a] }} ;; ret (Some tt)
  end.

(** ** Later *)

Definition add_task (t : task) : M server unit := modify {{ sv_tasks ::= fun l => l ++ [t] }}.
Definition disconnect (cn code : Z) (reason : cstring) : M server (option unit) :=
  get_ci cn (fun ci => s <- get_server ;; add_task (TDisconnect cn code (sessionid (deref ci s)) reason)).
Definition addbot (skill_ : Z) : M server unit := add_task (TAddbot skill_).
Definition deletebot (cn : Z) : M server (option unit) :=
  s <- get_server ;;
  match getinfo cn s with
  | Some ci => if aitype (deref ci s) =? AI_NONE then ret None else add_task (TDeletebot cn) ;; ret (Some tt)
  | None => ret None
  end.
Definition execute_disconnect (cn code session : Z) (reason : cstring) : M server unit :=
  s <- get_server ;;
  match getinfo cn s with
  | Some ci =>
    if negb (sessionid (deref ci s) =? session) then ret tt else
    upd_ci ci {{ disconnect_msg := reason }} ;;
    disconnect_client cn code
  | None => ret tt
  end.
Definition execute_addbot (skill_ : Z) : M server unit :=
  owner <- addai skill_ (-1) ;;
  match owner with
  | Some o => s <- get_server ;; fire "addbot" [AInt (-1); AInt skill_; AInt (clientnum (deref o s))] ;; ret tt
  | None => ret tt
  end.
Definition execute_deletebot (cn : Z) : M server unit :=
  s <- get_server ;; match getinfo cn s with Some ci => deleteai ci | None => ret tt end.

(** [try_respawn(ci, cq)]: [ci] asks for [cq], which is [ci] or one of its bots. *)
Definition try_respawn (ci cq : option nat) : M server unit :=
  s <- get_server ;;
  match ci, cq with
  | Some ci, Some cq =>
    let q := deref cq s in
    if negb (cs_eqb (state q) CS_DEAD) || (0 <=? lastspawn q) || negb (canspawn cq false s) then ret tt else
    let c := deref ci s in
    let unknown := bool_decide (clientmap c = []) && (mapcrc c =? 0) in
    when unknown (upd_ci ci {{ mapcrc := -1 }}) ;;
    if unknown && negb (bool_decide (ci = cq)) && negb (ownernum q =? clientnum c) then ret tt else
    veto <- (if deadflush q =? 0 then ret false
             else veto <- fire "respawnrequest" [AInt (clientnum q); AInt (lastdeath q)] ;;
                  if (veto : bool) then ret true
                  else s <- get_server ;; flushevents cq (deadflush (deref cq s)) ;; upd_gs cq respawn ;; ret false) ;;
    if (veto : bool) then ret tt else
    upd_ci cq cleartimedevents ;;
    sendspawn cq
  | _, _ => ret tt
  end.
Definition player_respawn (cn : Z) : M server unit :=
  s <- get_server ;; try_respawn (getinfo cn s) (getinfo cn s).
Definition deferred_respawn_request (cn session : Z) : M server unit :=
  s <- get_server ;;
  match getinfo cn s with
  | Some ci => when (sessionid (deref ci s) =? session) (try_respawn (Some ci) (Some ci))
  | None => ret tt
  end.
Definition run_task (t : task) : M server unit :=
  match t with
  | TDisconnect cn code session reason => execute_disconnect cn code session reason
  | TAddbot skill_ => execute_addbot skill_
  | TDeletebot cn => execute_deletebot cn
  | TRespawn cn session => deferred_respawn_request cn session
  | TReload => ret tt (* the scripts are not part of the model *)
  end.
(** The event loop runs what was asked for, in order; what that asks for waits. *)
Definition run_tasks : M server unit :=
  s <- get_server ;;
  modify {{ sv_tasks := [] }} ;;
  forM (sv_tasks s) run_task.

(** ** Items, ammunition, damage *)

(** [sents_type_index] is an array of zeros at first. *)
Definition send_item (type recipient : Z) : M server bool :=
  s <- get_server ;;
  let i := default 0 (sents_type_index s !! type) in
  match sents s .! i with
  | None => ret false
  | Some e =>
    if 0 <? interm s then ret false else
    match getinfo recipient s with
    | None => ret false
    | Some ci =>
      let c := deref ci s in
      if negb (local c) && negb (canpickup (se_type e) c) then ret false else
      sendf (-1) 1 (message N_ITEMACC [FInt i; FInt recipient]) ;;
      upd_gs ci {{ fps ::= pickup_item (se_type e) }} ;;
      ret true
    end
  end.
(** The ammunition a weapon starts with is looked up in the table of the items,
    whose first row is that of the shotgun, not of the fist. *)
Definition player_change_ammo (cn gun num : Z) : M server unit :=
  s <- get_server ;;
  match getinfo cn s with
  | None => ret tt
  | Some ci =>
    let num := if num <? 0 then is_add (itemstat_of gun) else num in
    upd_gs ci {{ fps ::= set_ammo gun num }} ;;
    s <- get_server ;;
    let gs : gamestate := deref ci s in
    sendpacket (-1) 1 (message N_SPAWNSTATE (FInt cn ::
      ints ([lifesequence gs; health gs; maxhealth gs; armour gs; armourtype gs; gunselect gs] ++ spawn_ammo gs))) (-1)
  end.
Definition lua_hitpush (target_ actor damage_ gun : Z) (push : vec) : M server unit :=
  s <- get_server ;;
  match getinfo target_ s with
  | None => ret tt
  | Some ci =>
    let c := deref ci s in
    if target_ =? actor then setpushed ci
    else if vec_iszero push then ret tt
    else
      let '(x, y, z) := ivec_of (vec_rescale push DNF) in
      sendf (if health c <=? 0 then -1 else ownernum c) 1
        (message N_HITPUSH (ints [target_; gun; damage_; x; y; z])) ;;
      setpushed ci
  end.
Definition player_dodamage (target_ actor damage_ gun : Z) (push : vec) : M server unit :=
  s <- get_server ;;
  match getinfo actor s, getinfo target_ s with
  | Some a, Some t => dodamage t a damage_ gun push
  | _, _ => ret tt
  end.

(** ** Messages made up for one client *)

Definition player_freeze (cn : Z) : M server (option unit) :=
  get_ci cn (fun ci => s <- get_server ;; sendf (clientnum (deref ci s)) 1 (message N_PAUSEGAME [FInt 1])).
Definition player_unfreeze (cn : Z) : M server (option unit) :=
  get_ci cn (fun ci => s <- get_server ;; sendf (clientnum (deref ci s)) 1 (message N_PAUSEGAME [FInt 0])).
Definition send_auth_challenge (cn id : Z) (domain challenge_ : cstring) : M server (option unit) :=
  get_ci cn (fun ci => s <- get_server ;;
    sendf (clientnum (deref ci s)) 1 (message N_AUTHCHAL [FStr domain; FInt id; FStr challenge_])).
Definition send_auth_request (cn : Z) (domain : cstring) : M server (option unit) :=
  get_ci cn (fun ci => s <- get_server ;;
    sendf (clientnum (deref ci s)) 1 (message N_REQAUTH [FStr domain])).
Definition player_servcmd (cn : Z) (text : cstring) : M server (option unit) :=
  s <- get_server ;;
  if negb (cn =? -1) && bool_decide (getinfo cn s = None) then ret None
  else sendfd cn 1 (message N_SERVCMD [FStr text]) ;; ret (Some tt).
Definition player_nospawn (cn no_spawn_ : Z) : M server unit :=
  s <- get_server ;;
  match getinfo cn s with Some ci => upd_ci ci {{ no_spawn := no_spawn_ }} | None => ret tt end.
Definition updateservinfo (cn : Z) (servername : cstring) : M server unit :=
  s <- get_server ;;
  match getinfo cn s with
  | Some ci =>
    let c := deref ci s in
    sendf (clientnum c) 1 (message N_SERVINFO [FInt (clientnum c); FInt PROTOCOL_VERSION; FInt (sessionid c);
      FInt 0; FStr servername])
  | None => ret tt
  end.
Definition editvar (cn : Z) (var : cstring) (value : Z) : M server unit :=
  s <- get_server ;;
  match getinfo cn s with
  | Some _ => sendf cn 1 (message N_CLIENT [FInt cn; FInt 100; FInt (msg_code N_EDITVAR); FInt ID_VAR; FStr var; FInt value])
  | None => ret tt
  end.
(** [getmap] is set while the map is on its way to the client. *)
Definition send_map (complain : Z) (ci : nat) : M server unit :=
  s <- get_server ;;
  let c := deref ci s in
  match mapdata s with
  | None => sendf complain 1 (message N_SERVMSG [FStr (cstr "no map to send")])
  | Some data =>
    if getmap c then sendf complain 1 (message N_SERVMSG [FStr (cstr "already sending map")])
    else
      sendservmsgf (cstr "[" ++ colorname ci (name c) s ++ cstr " is getting the map]") ;;
      sent <- sendfile (clientnum c) 2 data (message N_SENDMAP []) ;;
      upd_ci ci (fun c => c <| getmap := sent |>
        <| needclipboard := if totalmillis s =? 0 then 1 else totalmillis s |>)
  end.
Definition sendmap (acn tcn : Z) : M server unit :=
  s <- get_server ;;
  match getinfo tcn s with Some ci => send_map acn ci | None => ret tt end.
End api.
