(* ===== verification/Filter.v ===== *)
(** Which messages a client may send (fpsgame/server.cpp [msgfilter],
    [connectfilter], [checktype]).

    The tables are built from the same argument lists as in the source: a negative
    argument is the class of the messages that follow it, and a later class
    overwrites an earlier one. *)
From S2P Require Import Prelude Wire Text Game Random State Engine Anticheat.

#[local] Open Scope list_scope.

(** The constructor of [msgfilter]. *)
Definition filter_step (st : Z * list Z) (msg_ : Z) : Z * list Z :=
  let '(val, mask) := st in
  if msg_ <? 0 then (to_uchar (- msg_), mask) else (val, zinsert mask msg_ val).
Definition filter_of (args : list Z) : list Z :=
  snd (fold_left filter_step args (1, replicate (Z.to_nat NUMMSG) 0)).
(** [operator[]]. *)
Definition mask_of (mask : list Z) (msg_ : Z) : Z :=
  if (0 <=? msg_) && (msg_ <? NUMMSG) then default 0 (mask .! msg_) else 0.

Definition server_messages : list msg :=
  [N_CONNECT; N_SERVINFO; N_INITCLIENT; N_WELCOME; N_MAPCHANGE; N_SERVMSG; N_DAMAGE; N_HITPUSH;
   N_SHOTFX; N_EXPLODEFX; N_DIED; N_SPAWNSTATE; N_FORCEDEATH; N_TEAMINFO; N_ITEMACC; N_ITEMSPAWN;
   N_TIMEUP; N_CDIS; N_CURRENTMASTER; N_PONG; N_RESUME; N_BASESCORE; N_BASEINFO; N_BASEREGEN;
   N_ANNOUNCE; N_SENDDEMOLIST; N_SENDDEMO; N_DEMOPLAYBACK; N_SENDMAP; N_DROPFLAG; N_SCOREFLAG;
   N_RETURNFLAG; N_RESETFLAG; N_INVISFLAG; N_CLIENT; N_AUTHCHAL; N_INITAI; N_EXPIRETOKENS;
   N_DROPTOKENS; N_STEALTOKENS; N_DEMOPACKET].
Definition coopedit_messages : list msg := [N_REMIP; N_NEWMAP; N_GETMAP; N_SENDMAP; N_CLIPBOARD].
Definition edit_messages : list msg :=
  [N_EDITENT; N_EDITF; N_EDITT; N_EDITM; N_FLIP; N_COPY; N_PASTE; N_ROTATE; N_REPLACE; N_DELCUBE;
   N_EDITVAR; N_EDITVSLOT; N_UNDO; N_REDO].
Definition msgfilter : list Z := Eval vm_compute in
  filter_of (-1 :: map msg_code server_messages ++ -2 :: map msg_code coopedit_messages ++
             -3 :: map msg_code edit_messages ++ [-4; msg_code N_POS]).
Definition connectfilter : list Z := Eval vm_compute in
  filter_of [-1; msg_code N_CONNECT; -2; msg_code N_AUTHANS; -3; msg_code N_PING].

Section filter.
Context {hooks : Hooks}.

(** The overflow counter stops being looked at for the classes 3 and 4. *)
Definition count_overflow (type : Z) (ci : option nat) : M server Z :=
  match ci with
  | None => ret type
  | Some ci =>
    upd_ci ci {{ overflow ::= Z.succ }} ;;
    s <- get_server ;;
    ret (if 200 <=? overflow (deref ci s) then -2 else type)
  end.
Definition filter_message (type : Z) (ci : option nat) : M server Z :=
  s <- get_server ;;
  let class := mask_of msgfilter type in
  if class =? 1 then ret (if ci is Some _ then -1 else type)
  else if class =? 2 then (if m_edit (gamemode s) then count_overflow type ci else ret (-1))
  else if class =? 3 then ret (if m_edit (gamemode s) then type else -1)
  else if class =? 4 then ret type
  else count_overflow type ci.
Definition filter_joining (type : Z) (c : clientinfo) : Z :=
  let class := mask_of connectfilter type in
  if class =? 1 then (if connectauth c =? 0 then type else -1)
  else if class =? 2 then (if connectauth c =? 0 then -1 else type)
  else if class =? 3 then type else -1.
Definition checktype (type : Z) (ci cq : option nat) (p : ucharbuf) : M server Z :=
  match ci with
  | None => filter_message type None
  | Some c =>
    match msg_of_code type with Some m => anti_cheat_parsepacket m c cq p | None => ret tt end ;;
    s <- get_server ;;
    if negb (connected (deref c s)) then ret (filter_joining type (deref c s))
    else if local (deref c s) then ret type
    else filter_message type (Some c)
  end.
End filter.

(** * The verdict on a message *)

(** By message, without the tables: what a client that has joined may send. *)
Definition refused (edit : bool) (m : msg) : bool :=
  if bool_decide (m ∈ edit_messages) || bool_decide (m ∈ coopedit_messages) then negb edit
  else bool_decide (m ∈ server_messages).
Definition unlimited (m : msg) : bool := bool_decide (m ∈ edit_messages) || bool_decide (m = N_POS).
Definition joined_verdict (edit : bool) (c : clientinfo) (type : Z) : Z :=
  let counted := if 200 <=? overflow c + 1 then -2 else type in
  match msg_of_code type with
  | None => counted
  | Some m => if refused edit m then -1 else if unlimited m then type else counted
  end.
(** Before that: to introduce itself once, then to answer the challenge. *)
Definition joining_verdict (c : clientinfo) (type : Z) : Z :=
  match msg_of_code type with
  | Some N_CONNECT => if connectauth c =? 0 then type else -1
  | Some N_AUTHANS => if connectauth c =? 0 then -1 else type
  | Some N_PING => type
  | _ => -1
  end.
Definition verdict (edit : bool) (c : clientinfo) (type : Z) : Z :=
  if negb (connected c) then joining_verdict c type
  else if local c then type else joined_verdict edit c type.

Lemma mask_of_msg mask type :
  mask_of mask type = match msg_of_code type with Some m => default 0 (mask .! (msg_code m)) | None => 0 end.
Proof.
  unfold mask_of, msg_of_code. destruct (all_msgs .! type) as [m|] eqn:E.
  - pose proof (zlookup_Some_range _ _ _ E) as Hr. change (zlength all_msgs) with NUMMSG in Hr.
    assert (type = msg_code m) as ->.
    { destruct (decide (type = msg_code m)) as [|Hne]; [done|]. exfalso.
      assert (Forall (fun i => forall m, all_msgs .! i = Some m -> i = msg_code m) (seqZ 0 NUMMSG)) as Hall.
      { repeat constructor; intros m' [= <-]; reflexivity. }
      rewrite -> list.Forall_forall in Hall. apply Hne, Hall; [apply elem_of_seqZ; lia|done]. }
    destruct (Z.leb_spec 0 (msg_code m)); [|lia]. by destruct (Z.ltb_spec (msg_code m) NUMMSG); [|lia].
  - apply zlookup_None in E. change (zlength all_msgs) with NUMMSG in E.
    destruct (Z.leb_spec 0 type); [|done]. destruct (Z.ltb_spec type NUMMSG); [lia|done].
Qed.
Lemma msgfilter_class (m : msg) (edit : bool) :
  refused edit m = (let k := default 0 (msgfilter .! (msg_code m)) in
                    (k =? 1) || ((k =? 2) || (k =? 3)) && negb edit) /\
  unlimited m = (let k := default 0 (msgfilter .! (msg_code m)) in (k =? 3) || (k =? 4)).
Proof. destruct m, edit; split; vm_compute; reflexivity. Qed.

Section verdict.
Context {hooks : Hooks}.

Lemma count_overflow_eval type c s :
  eval (count_overflow type (Some c)) s = (if 200 <=? overflow (deref c s) + 1 then -2 else type).
Proof.
  unfold count_overflow. rw eval_bind. rw eval_bind. cbn [eval ret fst].
  assert (overflow (deref c (exec (upd_ci c {{ overflow ::= Z.succ }}) s)) = overflow (deref c s) + 1 \/
          overflow (deref c (exec (upd_ci c {{ overflow ::= Z.succ }}) s)) = 0 /\ overflow (deref c s) = 0)
    as [Hc|[Hc Hc']].
  { unfold deref. simpl. rw lookup_alter_eq. destruct (ci_heap s !! c); simpl; [left; lia|by right]. }
  - cbn [exec get_server gets snd] in Hc |- *. by rw Hc.
  - cbn [exec get_server gets snd] in Hc |- *. by rw Hc Hc'.
Qed.

(** C31: the whole of [checktype].  After the cheat detector has seen the packet, the
    answer is the type itself, or one of two errors: -1 for a message that is not for
    the client to send (before it has joined anything but the introduction, the answer
    to a challenge and pings; later the messages of the server, and those of map editing
    outside of coop edit), -2 when 200 limited messages have come.  A local client is
    not restricted. *)
Theorem checktype_verdict type c cq p s :
  let s' := exec (match msg_of_code type with Some m => anti_cheat_parsepacket m c cq p | None => ret tt end) s in
  eval (checktype type (Some c) cq p) s = verdict (m_edit (gamemode s')) (deref c s') type.
Proof.
  cbn zeta. unfold checktype. rw eval_bind. set (s' := exec _ s). rw eval_bind. cbn [eval exec get_server gets fst snd id].
  unfold verdict. destruct (connected (deref c s')); cbn [negb].
  2:{ unfold filter_joining, joining_verdict. rw mask_of_msg. cbn [eval ret fst].
      destruct (msg_of_code type) as [m|]; [|done]. by destruct m. }
  destruct (local (deref c s')) eqn:El; [done|]. unfold filter_message, joined_verdict. rw eval_bind.
  cbn [eval exec get_server gets fst snd id]. rw mask_of_msg.
  destruct (msg_of_code type) as [m|]; [|apply count_overflow_eval].
  destruct (msgfilter_class m (m_edit (gamemode s'))) as [-> ->]. cbn zeta.
  assert (forall v, (if 200 <=? overflow (deref c s') + 1 then -2 else type) = v ->
                    eval (count_overflow type (Some c)) s' = v) as Hc
    by (intros v <-; apply count_overflow_eval).
  set (counted := count_overflow type (Some c)) in *.
  repeat case_match; try done; simpl in *; try lia; by apply Hc.
Qed.
End verdict.
