(* ===== verification/Packet.v ===== *)
(** The messages of clients (fpsgame/server.cpp [parsepacket], engine/server.cpp [process]).

    A packet is parsed in a state of its own: the server, the buffer with its read
    index, the client [cq] a bot's owner speaks for, and the start [curmsg] of the message
    that is being read.  A case of the switch is a program whose answer tells whether it
    returns from [parsepacket] ([true]) or breaks out of the switch ([false]). *)
From S2P Require Import Prelude Wire Text Float32 Game Random State Ents Engine Intermission Servmode Roster Items Cheat Combat Events Anticheat Worldstate Welcome Ai Demo Clients Match Api Filter.
From Stdlib Require Import SpecFloat.
From S2P Require Ctf Capture Collect.

#[local] Open Scope list_scope.

(** [ps_starved] is no part of the program: it tells that the fuel of a reading loop ran
    out, where the source would read on (never: Theorem [packet_parsed]). *)
Record parsing := mkparsing {
  ps_server : server; ps_p : ucharbuf; ps_cq : option nat; ps_cur : Z; ps_starved : bool
}.
#[export] Instance eta_parsing : Eta parsing := settable mkparsing <ps_server; ps_p; ps_cq; ps_cur; ps_starved>.

(** The sine and cosine of the C library on floats: only a reported speed depends on them. *)
Class Libm := { sinf : f32 -> f32; cosf : f32 -> f32 }.

Definition onserver {A} (m : M server A) : M parsing A := fun ps =>
  let '(a, s) := m (ps_server ps) in (a, ps <| ps_server := s |>).
Definition onpacket {A} (m : M ucharbuf A) : M parsing A := fun ps =>
  let '(a, p) := m (ps_p ps) in (a, ps <| ps_p := p |>).
(** A loop over the packet; [d] stands for what it would read without end. *)
Definition onloop {A} (d : A) (m : M ucharbuf (option A)) : M parsing A :=
  r <- onpacket m ;;
  match r with Some a => ret a | None => modify {{ ps_starved := true }} ;; ret d end.
Definition server_now : M parsing server := gets ps_server.
Definition brk : M parsing bool := ret false.
Definition stop : M parsing bool := ret true.

(** ** Reading *)
Definition int_arg : M parsing Z := onpacket getint.
Definition raw_text : M parsing cstring := onpacket (getstring MAXTRANS).
Definition text_arg (whitespace forcespace : bool) : M parsing cstring :=
  t <- raw_text ;; ret (filtertext whitespace forcespace (MAXTRANS - 1) t).
Definition name_arg (len : Z) : M parsing cstring :=
  t <- raw_text ;; ret (filtertext false false len t).
Definition string_arg : M parsing cstring := onpacket (getstring MAXSTRLEN).
Definition to_ushort (n : Z) : Z := n mod 65536.
Fixpoint skip_ints (n : nat) : M ucharbuf unit :=
  match n with O => ret tt | S n => getint ;; skip_ints n end.

Definition PI : f32 := f32_lit 13176795 (-22).
Definition RAD : f32 := fdiv PI (f32_of_int 180).
Definition DVELF : f32 := f32_of_int 1.
Record movement := mkmovement { mv_cn : Z; mv_flags : Z; mv_pos : vec; mv_cam : vec; mv_vel : vec }.

Section movement.
Context {libm : Libm}.
Definition vec_dir (yaw pitch : f32) : vec :=
  mkvec (fmul (SFopp (sinf yaw)) (cosf pitch)) (fmul (cosf yaw) (cosf pitch)) (sinf pitch).
Definition velocity (dir mag : Z) : vec :=
  vec_mul (vec_dir (fmul (f32_of_int (Z.rem dir 360)) RAD)
                   (fmul (f32_of_int (clamp (dir ÷ 360) 0 180 - 90)) RAD)) (fdiv (f32_of_int mag) DVELF).
(** N_POS after its type; the bytes of the camera are taken in the order of the packet. *)
Definition read_movement : M ucharbuf movement :=
  cn <- getuint ;;
  r <- read_pos ;;
  let '(flags_, o) := r in
  cx <- get ;; cy <- get ;; cz <- get ;;
  mag <- get ;;
  mag <- (if Z.testbit flags_ 3 then b <- get ;; ret (Z.lor mag (Z.shiftl b 8)) else ret mag) ;;
  d0 <- get ;; d1 <- get ;;
  let dir := Z.lor d0 (Z.shiftl d1 8) in
  (if Z.testbit flags_ 4 then
     get ;; (if Z.testbit flags_ 5 then get ;; ret tt else ret tt) ;;
     (if Z.testbit flags_ 6 then get ;; get ;; ret tt else ret tt)
   else ret tt) ;;
  ret (mkmovement cn flags_ o (mkvec (f32_of_int cx) (f32_of_int cy) (f32_of_int cz)) (velocity dir mag)).
End movement.
Definition horizontal_speed (v : vec) : f32 := fsqrt (fadd (fmul (vx v) (vx v)) (fmul (vy v) (vy v))).
Definition fmax (a b : f32) : f32 := if fgt a b then a else b.

(** The hits of a shot or an explosion, up to the first that finds the buffer over-read. *)
Fixpoint read_hits (fuel : nat) (hits_ : Z) : M ucharbuf (option (list hitinfo)) :=
  match fuel with
  | O => ret None
  | S fuel =>
    b <- gets overread ;;
    if (hits_ <=? 0) || b then ret (Some []) else
    target_ <- getint ;; ls <- getint ;; d <- getint ;; rays_ <- getint ;;
    x <- getint ;; y <- getint ;; z <- getint ;;
    let dir_ k := fdiv (f32_of_int k) DNF in
    rest <- read_hits fuel (hits_ - 1) ;;
    ret (cons (mkhit target_ ls rays_ (fdiv (f32_of_int d) DMF) (mkvec (dir_ x) (dir_ y) (dir_ z))) <$> rest)
  end.
Definition hits_arg : M ucharbuf (option (list hitinfo)) :=
  n <- getint ;; fun p => read_hits (S (S (length (buf p)))) n p.
Definition vec_arg : M ucharbuf vec :=
  x <- getint ;; y <- getint ;; z <- getint ;;
  let coord k := fdiv (f32_of_int k) DMF in ret (mkvec (coord x) (coord y) (coord z)).
(** The list of items nobody wants. *)
Fixpoint skip_itemlist (fuel : nat) : M ucharbuf (option unit) :=
  match fuel with
  | O => ret None
  | S fuel =>
    n <- getint ;; b <- gets overread ;;
    if (0 <=? n) && negb b then getint ;; skip_itemlist fuel else ret (Some tt)
  end.
Definition no_itemlist : M ucharbuf (option unit) := fun p => skip_itemlist (S (length (buf p))) p.

Section parsepacket.
Context {hooks : Hooks} {files : Files} {host : Host} {libm : Libm}.
(** [sender] and its record; every slot the engine passes on holds one, so that [ci] is
    not null. *)
Variables (sender : Z) (ci : nat).

(** ** What is passed on to the others *)
Definition queue_open (cm : nat) (s : server) : bool :=
  negb (local (deref cm s)) || demorecord s || hasnonlocalclients s.
Definition since_cur (ps : parsing) : list Z :=
  take (Z.to_nat (len (ps_p ps) - ps_cur ps)) (drop (Z.to_nat (ps_cur ps)) (buf (ps_p ps))).
Definition queue_msg (cm : option nat) : M parsing unit :=
  ps <- gets id ;;
  match cm with
  | Some c =>
    when (queue_open c (ps_server ps)) (
      onserver (upd_ci c {{ messages ::= fun m => m ++ since_cur ps }}) ;;
      modify {{ ps_cur := tmax (ps_cur ps) (len (ps_p ps)) }})
  | None => ret tt
  end.
Definition queue_buf (cm : option nat) (fs : list field) : M parsing unit :=
  ps <- gets id ;;
  match cm with
  | Some c =>
    when (queue_open c (ps_server ps)) (
      modify {{ ps_cur := len (ps_p ps) }} ;;
      onserver (upd_ci c {{ messages ::= put_fields fs }}))
  | None => ret tt
  end.

(** ** Packets that are refused *)
Definition bad_packet (type : Z) : M parsing bool :=
  s <- server_now ;;
  onserver (if anti_cheat_enabled s then unknown_packet ci type else disconnect_client sender DISC_MSGERR) ;;
  stop.
Definition edit_vetoed : M parsing bool :=
  onserver (s <- get_server ;; fire "editpacket" [AInt (clientnum (deref ci s))]).
Definition is_spec (c : clientinfo) : bool := cs_eqb (state c) CS_SPECTATOR.
(** Spectators without privilege have no say. *)
Definition may_act (c : clientinfo) : bool := negb (is_spec c) || local c || negb (privilege c =? PRIV_NONE).
(** [getinfo(cn)] for the sender itself and its bots. *)
Definition own_client (cn : Z) (s : server) : option nat :=
  match getinfo cn s with
  | Some c => if (cn =? sender) || (ownernum (deref c s) =? sender) then Some c else None
  | None => None
  end.
Definition in_world (c : clientinfo) : bool := cs_eqb (state c) CS_ALIVE || cs_eqb (state c) CS_EDITING.

(** ** Positions *)

(** A claimed speed over the limit; [cq] may be null when the client has just named a
    bot that is not its own. *)
Definition check_speed (cp : nat) (vel : vec) : M parsing unit :=
  s <- server_now ;; ps <- gets id ;;
  let pos_z := fmax (horizontal_speed vel) (fabs (vz vel)) in
  when (negb (local (deref ci s)) && negb (m_edit (gamemode s)) && fge pos_z (f32_of_int 180)) (
    onserver (setexceeded cp ;;
      match ps_cq ps with
      | Some q => when (anti_cheat_enabled s) (upd_ac q {{ exceed_position := pos_z }})
      | None => ret tt
      end)).
Definition relay_position (cp : nat) (mv : movement) : M parsing unit :=
  s <- server_now ;;
  when (queue_open ci s && in_world (deref cp s)) (
    check_speed cp (mv_vel mv) ;;
    ps <- gets id ;;
    onserver (upd_ci cp {{ position := since_cur ps }}) ;;
    modify {{ ps_cur := tmax (ps_cur ps) (len (ps_p ps)) }}).
Definition note_position (cp : nat) (mv : movement) : M server unit :=
  s <- get_server ;;
  let c := deref cp s in
  let clip := Z.testbit (mv_flags mv) 7 in
  when (cs_eqb (state c) CS_ALIVE)
    (with_smode (fun m => sm_moved m cp (State.pos c) (gameclip c) (mv_pos mv) clip)) ;;
  upd_gs cp (fun gs => gs <| State.pos := mv_pos mv |> <| State.cam := mv_cam mv |>) ;;
  upd_ci cp {{ gameclip := clip }} ;;
  s <- get_server ;;
  let c := deref cp s in
  when (cs_eqb (state c) CS_ALIVE && (maploaded c =? 0) && (aitype c =? AI_NONE)) (
    upd_ci cp (fun c => c <| lastposupdate := totalmillis s - 30 |> <| maploaded := gamemillis s |>) ;;
    fire "maploaded" [AInt (clientnum c)] ;; ret tt) ;;
  s <- get_server ;;
  when (negb (maploaded (deref ci s) =? 0)) (
    upd_ci cp (fun c => c <| lag := (tmax 30 (lag c) * 10 + (totalmillis s - lastposupdate c)) ÷ 12 |>
                          <| last_lag := totalmillis s - lastposupdate c |> <| lastposupdate := totalmillis s |>)).
Definition on_pos : M parsing bool :=
  mv <- onpacket read_movement ;;
  s <- server_now ;;
  match own_client (mv_cn mv) s with
  | None => brk
  | Some cp => relay_position cp mv ;; onserver (note_position cp mv) ;; brk
  end.
(** The guard of N_TELEPORT and N_JUMPPAD. *)
Definition mover (pcn : Z) (ps : parsing) : option nat :=
  let s := ps_server ps in
  match ps_cq ps, own_client pcn s with
  | Some _, Some cp => if queue_open ci s && in_world (deref cp s) then Some cp else None
  | _, _ => None
  end.
Definition on_teleport : M parsing bool :=
  pcn <- int_arg ;; teleport <- int_arg ;; teledest <- int_arg ;;
  ps <- gets id ;;
  match mover pcn ps with
  | None => brk
  | Some cp =>
    onserver (flushclientposition cp ;;
      s <- get_server ;;
      sendfx (-1) 0 (ownernum (deref cp s)) (message N_TELEPORT [FInt pcn; FInt teleport; FInt teledest])) ;;
    brk
  end.
Definition on_jumppad : M parsing bool :=
  pcn <- int_arg ;; jumppad <- int_arg ;;
  ps <- gets id ;;
  match mover pcn ps with
  | None => brk
  | Some cp =>
    onserver (setpushed cp ;; flushclientposition cp ;;
      s <- get_server ;;
      sendfx (-1) 0 (ownernum (deref cp s)) (message N_JUMPPAD [FInt pcn; FInt jumppad])) ;;
    brk
  end.
Definition on_fromai : M parsing bool :=
  qcn <- int_arg ;;
  s <- server_now ;;
  modify {{ ps_cq := if qcn <? 0 then Some ci else own_client qcn s }} ;;
  brk.

(** ** The state of the player *)

(** From [state] the client may enter the edit mode ([val]) or leave it. *)
Definition may_editmode (val : bool) (c : clientinfo) : bool :=
  if val then cs_eqb (state c) CS_ALIVE || cs_eqb (state c) CS_DEAD else cs_eqb (state c) CS_EDITING.
Definition on_editmode : M parsing bool :=
  val <- int_arg ;;
  s <- server_now ;;
  let c := deref ci s in
  let enter := negb (val =? 0) in
  if negb (local c) && negb (m_edit (gamemode s)) || negb (may_editmode enter c) then brk else
  onserver (
    with_smode (fun m => if enter then sm_leavegame m ci false else sm_entergame m ci) ;;
    s <- get_server ;;
    (if enter then
       upd_gs ci (fun gs => gs <| editstate := state gs |> <| state := CS_EDITING |>) ;;
       upd_ci ci {{ events := [] }} ;;
       upd_gs ci (fun gs => gs <| rockets := [] |> <| grenades := [] |>)
     else upd_gs ci (fun gs => gs <| state := editstate gs |>)) ;;
    fire "editmode" [AInt (clientnum c); AInt val]) ;;
  queue_msg (Some ci) ;;
  brk.
Definition modmap (c : clientinfo) : M server unit :=
  fire "modmap" [AInt (clientnum c); AStr (encodeutf8 (clientmap c)); AInt (mapcrc c)] ;; ret tt.
Definition other_crc (s : server) (crc : Z) : bool := negb (mcrc s =? 0) && negb (to_uint (mcrc s) =? to_uint crc).
Definition set_mapcrc (text : cstring) (crc : Z) : M server unit :=
  s <- get_server ;;
  let c := deref ci s in
  if negb (bool_decide (text = smapname s)) then
    if negb (bool_decide (clientmap c = [])) then upd_ci ci (fun c => c <| clientmap := [] |> <| mapcrc := 0 |>)
    else when (0 <? mapcrc c) (upd_ci ci {{ mapcrc := 0 }})
  else
    upd_ci ci (fun c => c <| clientmap := copystring text MAXSTRLEN |>
                          <| mapcrc := if bool_decide (text = []) then 1 else crc |>) ;;
    s <- get_server ;;
    when (negb (m_edit (gamemode s)) && other_crc s (mapcrc (deref ci s))) (modmap (deref ci s)).
Definition on_mapcrc : M parsing bool :=
  text <- raw_text ;; crc <- int_arg ;;
  onserver (set_mapcrc text crc) ;; brk.
Definition check_maps : M server unit :=
  s <- get_server ;;
  when (negb (mcrc s =? 0)) (
    forM (clients s) (fun i =>
      s <- get_server ;;
      when (negb (mapcrc (deref i s) =? 0) && other_crc s (mapcrc (deref i s))) (modmap (deref i s)))).
Definition on_checkmaps : M parsing bool := onserver check_maps ;; brk.
Definition on_tryspawn : M parsing bool :=
  ps <- gets id ;; onserver (try_respawn (Some ci) (ps_cq ps)) ;; brk.
Definition is_gun (gun : Z) : bool := (GUN_FIST <=? gun) && (gun <=? GUN_PISTOL).
Definition on_gunselect : M parsing bool :=
  gun <- int_arg ;;
  ps <- gets id ;;
  match ps_cq ps with
  | Some q =>
    if negb (cs_eqb (state (deref q (ps_server ps))) CS_ALIVE) || negb (is_gun gun) then brk else
    onserver (upd_gs q {{ fps ::= {{ gunselect := gun }} }}) ;;
    queue_msg (Some q) ;;
    brk
  | None => brk
  end.
(** The spawn the server has asked for with this sequence number. *)
Definition may_spawn (ls : Z) (c : clientinfo) : bool :=
  (in_world c || cs_eqb (state c) CS_DEAD) && (ls =? lifesequence c) && (0 <=? lastspawn c).
Definition spawn_as_spy : M server unit :=
  upd_ci ci {{ spy := false }} ;;
  upd_gs ci {{ state := CS_DEAD }} ;;
  setspectator ci true false ;;
  upd_ci ci {{ spy := true }} ;;
  sendprivtext ci (RED ++ cstr "You've entered the spy-mode.").
Definition check_spawn_map (q : nat) : M server unit :=
  s <- get_server ;;
  let c := deref q s in
  when ((mapcrc c =? 0) && (aitype c =? AI_NONE)) (
    fire "modmap" [AInt (clientnum c); AStr (encodeutf8 (clientmap (deref ci s))); AInt (mapcrc c)] ;;
    upd_ci q {{ mapcrc := 1 }}).
Definition spawn_client (q : nat) (gun : Z) : M server unit :=
  upd_gs q (fun gs => gs <| lastspawn := -1 |> <| state := CS_ALIVE |> <| fps ::= {{ gunselect := gun }} |>) ;;
  upd_ci q (fun c => c <| exceeded := 0 |> <| lastposupdate := 0 |>) ;;
  with_smode (fun m => sm_spawned m q).
Definition on_spawn : M parsing bool :=
  ls <- int_arg ;; gun <- int_arg ;;
  ps <- gets id ;;
  match ps_cq ps with
  | None => brk
  | Some q =>
    if negb (is_gun gun) || negb (may_spawn ls (deref q (ps_server ps))) then brk else
    onserver (check_spawn_map q) ;;
    s <- server_now ;;
    if spy (deref ci s) then onserver spawn_as_spy ;; brk else
    onserver (spawn_client q gun) ;;
    s <- server_now ;;
    queue_buf (Some q) (message N_SPAWN (sendstate (deref q s))) ;;
    onserver (fire "spawn" [AInt (clientnum (deref q s))] ;; upd_gs q {{ lastdeath := 0 }}) ;;
    brk
  end.

(** ** Events *)
Definition add_event (e : gameevent) : M parsing unit :=
  ps <- gets id ;;
  match ps_cq ps with Some q => onserver (upd_ci q (addevent e)) | None => ret tt end.
(** [geteventmillis] of [cq]. *)
Definition event_time (cmillis : Z) : M parsing Z :=
  ps <- gets id ;;
  match ps_cq ps with
  | Some q =>
    let s := ps_server ps in
    let '(millis, c) := geteventmillis (gamemillis s) cmillis (deref q s) in
    onserver (set_ci q c) ;; ret millis
  | None => ret 0
  end.
Definition on_shoot : M parsing bool :=
  id_ <- int_arg ;;
  millis <- event_time id_ ;;
  gun <- int_arg ;; from_ <- onpacket vec_arg ;; to_ <- onpacket vec_arg ;; hs <- onloop [] hits_arg ;;
  add_event (shotevent millis id_ gun from_ to_ hs) ;;
  ps <- gets id ;;
  match ps_cq ps with Some q => onserver (setpushed q) | None => ret tt end ;;
  brk.
Definition on_explode : M parsing bool :=
  cmillis <- int_arg ;;
  millis <- event_time cmillis ;;
  gun <- int_arg ;; id_ <- int_arg ;; hs <- onloop [] hits_arg ;;
  add_event (explodeevent millis id_ gun hs) ;;
  brk.
Definition on_suicide : M parsing bool := add_event suicideevent ;; brk.
Definition on_itempickup : M parsing bool := n <- int_arg ;; add_event (pickupevent n) ;; brk.

(** ** Talking *)
Definition say_text (text : cstring) : M parsing unit :=
  veto <- onserver (s <- get_server ;; fire "text" [AInt (clientnum (deref ci s)); AStr (encodeutf8 text)]) ;;
  ps <- gets id ;;
  let s := ps_server ps in
  when (negb veto && negb (is_delayed_spectator s (deref ci s)))
    (queue_buf (ps_cq ps) [FInt (msg_code N_TEXT)] ;; queue_buf (ps_cq ps) [FStr text]).
Definition on_text : M parsing bool :=
  text <- text_arg true true ;;
  s <- server_now ;;
  let c := deref ci s in
  limited <- (if privilege c =? PRIV_ADMIN then ret false
              else onserver (limit ci n_text_millis (fun t => {{ n_text_millis := t }}) (resend_text s) (cstr "text"))) ;;
  if (limited : bool) then brk else
  let is_command := bool_decide (head text = Some 35) in
  if is_command && bool_decide (tail text = cstr "reload") && (privilege c =? PRIV_ADMIN)
  then onserver (add_task TReload) ;; brk
  else if spy c && negb is_command then
    onserver (sendservmsgf ([12; 51] ++ cstr "REMOTE ADMIN " ++ [12; 48; 40; 12; 56] ++ name c ++
                            [12; 48; 41; 12; 51] ++ cstr ": " ++ [12; 56] ++ text)) ;; brk
  else say_text text ;; brk.
(** The human members of [q]'s team, [q] aside. *)
Definition hears (q t : nat) (s : server) : bool :=
  let d := deref t s in
  negb (bool_decide (t = q)) && negb (is_spec d) && (aitype d =? AI_NONE) &&
  bool_decide (team (deref q s) = team d).
Definition say_team (q : nat) (text : cstring) : M server unit :=
  s <- get_server ;;
  veto <- fire "sayteam" [AInt (clientnum (deref ci s)); AStr (encodeutf8 text)] ;;
  when (negb veto) (
    s <- get_server ;;
    forM (clients s) (fun t =>
      s <- get_server ;;
      when (hears q t s)
        (sendf (clientnum (deref t s)) 1 (message N_SAYTEAM [FInt (clientnum (deref ci s)); FStr text])))).
Definition on_sayteam : M parsing bool :=
  text <- text_arg true true ;;
  ps <- gets id ;;
  let s := ps_server ps in
  let c := deref ci s in
  match ps_cq ps with
  | None => brk
  | Some q =>
    if is_spec c && (privilege c =? PRIV_NONE) || negb (m_teammode (gamemode s)) ||
       bool_decide (team (deref q s) = []) then brk else
    limited <- onserver (limit ci n_sayteam_millis (fun t => {{ n_sayteam_millis := t }}) (resend_sayteam s)
                               (cstr "team chat")) ;;
    s <- server_now ;;
    if (limited : bool) || spy (deref ci s) then brk else
    onserver (say_team q (filtertext true true (MAXTRANS - 1) text)) ;;
    brk
  end.

(** ** Names and models *)
Definition allow_rename (text : cstring) : M server bool :=
  s <- get_server ;;
  let c := deref ci s in
  if spy c || bool_decide (name c = text) then ret false else
  limited <- limit ci n_switchname_millis (fun t => {{ n_switchname_millis := t }}) (resend_switchname s)
               (cstr "name change") ;;
  if (limited : bool) then ret false else
  veto <- fire "allow_rename" [AInt (clientnum c); AStr (encodeutf8 text)] ;; ret (negb veto).
Definition unnamed (text : cstring) : cstring := if bool_decide (text = []) then cstr "unnamed" else text.
Definition rename_client (text : cstring) : M server unit :=
  s <- get_server ;;
  let c := deref ci s in
  upd_ci ci {{ name := copystring text MAXSTRLEN }} ;;
  fire "renaming" [AInt (clientnum c); AInt 0] ;;
  fire "rename" [AInt (clientnum c); AStr (encodeutf8 (name c)); AStr (encodeutf8 text)] ;; ret tt.
Definition on_switchname : M parsing bool :=
  text <- name_arg MAXNAMELEN ;;
  let text := unnamed text in
  s <- server_now ;;
  let c := deref ci s in
  allowed <- onserver (allow_rename text) ;;
  (if (allowed : bool) then
     onserver (rename_client text) ;;
     s <- server_now ;;
     queue_buf (Some ci) [FInt (msg_code N_SWITCHNAME)] ;;
     queue_buf (Some ci) [FStr (name (deref ci s))]
   else
     s <- server_now ;;
     when (negb (bool_decide (name (deref ci s) = text)))
       (onserver (player_rename (clientnum (deref ci s)) (name c) false ;; ret tt))) ;;
  brk.
Definition on_switchmodel : M parsing bool :=
  model <- int_arg ;;
  if (model <? 0) || (4 <? model) then brk else
  onserver (upd_ci ci {{ playermodel := model }}) ;;
  s <- server_now ;;
  when (negb (spy (deref ci s))) (queue_msg (Some ci)) ;;
  brk.

(** ** Maps *)
Definition on_mapvote : M parsing bool :=
  text <- text_arg false false ;; reqmode <- int_arg ;;
  s <- server_now ;;
  let c := deref ci s in
  let reqmode := if negb (local c) && negb (m_mp reqmode) then 0 else reqmode in
  onserver (
    limited <- limit ci n_mapvote_millis (fun t => {{ n_mapvote_millis := t }}) (resend_mapvote s) (cstr "mapvote") ;;
    if (limited : bool) then ret tt else
    veto <- fire "mapvote" [AInt (clientnum c); AStr (encodeutf8 text); AStr (unknown_mode reqmode)] ;;
    when (negb veto) (vote text reqmode sender)) ;;
  brk.
Definition on_mapchange : M parsing bool :=
  text <- text_arg false false ;;
  reqmode <- int_arg ;;
  s <- server_now ;;
  let text := fixmapname text in
  if negb (mapreload s) then brk else
  let reqmode := if negb (local (deref ci s)) && negb (m_mp reqmode) then 0 else reqmode in
  onserver (vote text reqmode sender) ;;
  brk.

(** ** Teams *)
Definition chteamrequest (c : clientinfo) (text : cstring) : M server bool :=
  fire "chteamrequest" [AInt (clientnum c); AStr (encodeutf8 (team c)); AStr (encodeutf8 text); AInt sender].
Definition allow_switch (text : cstring) : M server bool :=
  s <- get_server ;;
  let c := deref ci s in
  if negb (m_teammode (gamemode s)) || bool_decide (text = []) || bool_decide (team c = text) ||
     negb (canchangeteam ci (team c) text s) then ret false else
  limited <- limit ci n_switchteam_millis (fun t => {{ n_switchteam_millis := t }}) (resend_switchteam s)
               (cstr "team change") ;;
  if (limited : bool) then ret false else
  veto <- chteamrequest c text ;; ret (negb veto).
Definition switch_team (text : cstring) : M server unit :=
  s <- get_server ;;
  let c := deref ci s in
  allow <- allow_switch text ;;
  added <- (if (allow : bool) then addteaminfo text else ret false) ;;
  if negb added then ret tt else
  s <- get_server ;;
  when (cs_eqb (state (deref ci s)) CS_ALIVE) (suicide ci) ;;
  upd_ci ci {{ team := copystring text MAXSTRLEN }} ;;
  ai_changeteam ci ;;
  fire "reteam" [AInt (clientnum c); AStr (encodeutf8 (team c)); AStr (encodeutf8 text)] ;;
  s <- get_server ;;
  let c := deref ci s in
  when (negb (spy c))
    (sendf (-1) 1 (message N_SETTEAM [FInt sender; FStr (team c); FInt (if is_spec c then -1 else 0)])).
Definition on_switchteam : M parsing bool :=
  text <- name_arg MAXTEAMLEN ;; onserver (switch_team text) ;; brk.
(** The team of another client [wi] is set: its reteam is reported before it changes. *)
Definition set_team (wi : nat) (text : cstring) : M server unit :=
  s <- get_server ;;
  let w := deref wi s in
  if negb (canchangeteam wi (team w) text s) then ret tt else
  limited <- limit ci n_switchname_millis (fun t => {{ n_switchname_millis := t }}) (resend_switchteam s)
               (cstr "N_SWITCHTEAM") ;;
  veto <- (if (limited : bool) then ret true else chteamrequest w text) ;;
  added <- (if (veto : bool) then ret false else addteaminfo text) ;;
  if negb added then ret tt else
  s <- get_server ;;
  when (negb (bool_decide (smode s = None)) && cs_eqb (state (deref wi s)) CS_ALIVE) (suicide wi) ;;
  fire "reteam" [AInt (clientnum w); AStr (encodeutf8 (team w)); AStr (encodeutf8 text)] ;;
  upd_ci wi {{ team := copystring text (MAXTEAMLEN + 1) }}.
Definition on_setteam : M parsing bool :=
  who <- int_arg ;; text <- name_arg MAXTEAMLEN ;;
  s <- server_now ;;
  let c := deref ci s in
  if (privilege c =? PRIV_NONE) && negb (local c) then brk else
  match getinfo who s with
  | None => brk
  | Some wi =>
    let w := deref wi s in
    if negb (m_teammode (gamemode s)) || bool_decide (text = []) || negb (connected w) ||
       bool_decide (team w = text) then brk else
    onserver (
      set_team wi text ;;
      ai_changeteam wi ;;
      s <- get_server ;;
      sendf (-1) 1 (message N_SETTEAM [FInt who; FStr (team (deref wi s)); FInt 1])) ;;
    brk
  end.

(** ** Items and editing *)
Definition on_itemlist : M parsing bool :=
  s <- server_now ;;
  let c := deref ci s in
  if negb (may_act c) || negb (notgotitems s) || negb (bool_decide (clientmap c = smapname s))
  then onloop tt no_itemlist ;; brk
  else items <- onloop [] itemlist_arg ;; onserver (commit_itemlist items) ;; brk.
Definition on_editent : M parsing bool :=
  i <- int_arg ;; onpacket (skip_ints 3) ;; type <- int_arg ;; onpacket (skip_ints 5) ;;
  s <- server_now ;;
  if is_spec (deref ci s) then brk else
  veto <- edit_vetoed ;;
  if (veto : bool) then stop else
  queue_msg (Some ci) ;;
  onserver (commit_editent i type) ;;
  brk.
(** An edit that is not vetoed is passed on unless the client is a spectator. *)
Definition pass_edit : M parsing bool :=
  s <- server_now ;;
  when (negb (is_spec (deref ci s))) (queue_msg (Some ci)) ;; brk.
Definition on_editvar : M parsing bool :=
  type <- int_arg ;; raw_text ;;
  (if type =? ID_VAR then int_arg ;; ret tt
   else if type =? ID_FVAR then onpacket (get_all 4) ;; ret tt
   else if type =? ID_SVAR then raw_text ;; ret tt
   else ret tt) ;;
  veto <- edit_vetoed ;;
  if (veto : bool) then stop else pass_edit.
(** The messages of the size the table gives for their type. *)
Definition sized (type : Z) (k : M parsing bool) : M parsing bool :=
  let size := msgsizelookup type in
  if size <=? 0 then bad_packet type else onpacket (skip_ints (Z.to_nat (size - 1))) ;; k.
(** The rest of the generic case: what is passed on, and in whose name. *)
Definition pass_on (type : Z) : M parsing bool :=
  ps <- gets id ;;
  let spec := is_spec (deref ci (ps_server ps)) in
  let class := mask_of msgfilter type in
  if (class =? 2) || (class =? 3) then when (negb spec) (queue_msg (Some ci)) ;; brk
  else match ps_cq ps with
       | Some q => when (negb (bool_decide (ci = q)) || negb spec) (queue_msg (Some q)) ;; brk
       | None => brk
       end.
Definition genericmsg (type : Z) : M parsing bool := sized type (pass_on type).
Definition on_edit (type : Z) : M parsing bool :=
  sized type (veto <- edit_vetoed ;; if (veto : bool) then stop else pass_on type).
(** An edit with a blob behind it, its length in two bytes. *)
Definition on_edit_extra (type : Z) : M parsing bool :=
  sized type (
    veto <- edit_vetoed ;;
    if (veto : bool) then stop else
    p <- gets ps_p ;;
    if remaining p <? 2 then bad_packet type else
    b <- onpacket (pad 2) ;;
    let extra := to_ushort (Z.lor (nth 0 b 0) (Z.shiftl (nth 1 b 0) 8)) in
    p <- gets ps_p ;;
    if remaining p <? extra then bad_packet type else
    onpacket (pad extra) ;; pass_edit).
(** A blob that is not wanted, and the limits of one that is. *)
Definition skip_blob (packlen : Z) : M parsing unit :=
  if 0 <? packlen then onpacket (subbuf packlen) ;; ret tt else ret tt.
Definition bad_lengths (unpacklen packlen : Z) : bool :=
  (packlen <=? 0) || (Z.shiftl 1 16 <? packlen) || (unpacklen <=? 0).
(** The packed bytes; what the packet does not hold stays what it was in memory. *)
Definition read_blob (packlen : Z) : M parsing (list Z) :=
  bs <- onpacket (get_all packlen) ;;
  ret (bs ++ replicate (Z.to_nat packlen - length bs) host_junk).
Definition on_clipboard : M parsing bool :=
  unpacklen <- int_arg ;; packlen <- int_arg ;;
  onserver (upd_ci ci (cleanclipboard false)) ;;
  s <- server_now ;;
  let c := deref ci s in
  if is_spec c then skip_blob packlen ;; brk else
  let bad := bad_lengths unpacklen packlen in
  (if bad then skip_blob packlen else ret tt) ;;
  bs <- (if bad then ret [] else read_blob packlen) ;;
  let '(unpacklen, packlen) := if bad then (0, 0) else (unpacklen, packlen) in
  onserver (upd_ci ci {{ clipboard :=
    Some (message N_CLIPBOARD [FInt (clientnum c); FInt unpacklen; FInt packlen; FRaw bs]) }}) ;;
  brk.
Definition on_undo (type : Z) : M parsing bool :=
  unpacklen <- int_arg ;; packlen <- int_arg ;;
  s <- server_now ;;
  if is_spec (deref ci s) || bad_lengths unpacklen packlen then skip_blob packlen ;; brk else
  p <- gets ps_p ;;
  if remaining p <? packlen then bad_packet type else
  veto <- edit_vetoed ;;
  if (veto : bool) then stop else
  bs <- read_blob packlen ;;
  s <- server_now ;;
  let cn := clientnum (deref ci s) in
  onserver (sendpacket (-1) 1 [FInt type; FInt cn; FInt unpacklen; FInt packlen; FRaw bs] cn) ;;
  brk.
Definition on_copy : M parsing bool :=
  s <- server_now ;;
  onserver (upd_ci ci (fun c => cleanclipboard true c
    <| lastclipboard := if totalmillis s =? 0 then 1 else totalmillis s |>)) ;;
  genericmsg (msg_code N_COPY).
Definition on_paste : M parsing bool :=
  s <- server_now ;;
  onserver (when (negb (is_spec (deref ci s))) (sendclipboard ci)) ;;
  genericmsg (msg_code N_PASTE).
Definition on_newmap : M parsing bool :=
  size <- int_arg ;;
  s <- server_now ;;
  if negb (may_act (deref ci s)) then brk else
  limited <- onserver (limit ci n_newmap_millis (fun t => {{ n_newmap_millis := t }}) (resend_newmap s)
                             (cstr "map change")) ;;
  if (limited : bool) then brk else
  veto <- edit_vetoed ;;
  if (veto : bool) then stop else
  onserver (when (0 <=? size) (
    set_game {{ smapname := [] }} ;;
    resetitems ;;
    set_game {{ notgotitems := false }} ;;
    with_smode sm_newmap)) ;;
  queue_msg (Some ci) ;;
  brk.
(** The map goes to the sender, who is also told why not. *)
Definition on_getmap : M parsing bool :=
  onserver (
    s <- get_server ;;
    match mapdata s with
    | None => sendf sender 1 (message N_SERVMSG [FStr (cstr "no map to send")])
    | Some data =>
      let c := deref ci s in
      if getmap c then sendf sender 1 (message N_SERVMSG [FStr (cstr "already sending map")]) else
      sendservmsgf (cstr "[" ++ colorname ci (name c) s ++ cstr " is getting the map]") ;;
      sent <- sendfile sender 2 data (message N_SENDMAP []) ;;
      upd_ci ci (fun c => c <| getmap := sent |>
        <| needclipboard := if totalmillis s =? 0 then 1 else totalmillis s |>)
    end) ;;
  brk.

(** ** Pings *)
Definition on_ping : M parsing bool :=
  cmillis <- int_arg ;;
  onserver (
    s <- get_server ;;
    let c := deref ci s in
    when ((maploaded c =? 0) && (2000 <? totalmillis s - connectmillis c)) (
      upd_ci ci {{ maploaded := gamemillis s }} ;;
      fire "maploaded" [AInt (clientnum c)] ;; ret tt) ;;
    upd_ci ci (fun c => c <| lastpingupdate := totalmillis s |> <| clientmillis := cmillis |>) ;;
    sendf sender 1 (message N_PONG [FInt cmillis])) ;;
  brk.
Definition on_clientping : M parsing bool :=
  ping_ <- int_arg ;;
  if (ping_ <=? 0) || (15000 <=? ping_) then brk else
  onserver (
    upd_ac ci {{ ac_ping := ping_ }} ;;
    upd_ci ci {{ ping := ping_ }} ;;
    s <- get_server ;;
    forM (ci_bots (deref ci s)) (fun b => upd_ci b {{ ping := ping_ }})) ;;
  s <- server_now ;;
  when (negb (spy (deref ci s))) (queue_msg (Some ci)) ;;
  brk.

(** ** Running the match *)

(** What takes a privilege, [local] clients aside. *)
Definition entitled (priv : Z) (c : clientinfo) : bool := (priv <=? privilege c) || local c.
Definition mastermode_request (mm : Z) : M server unit :=
  s <- get_server ;;
  let c := deref ci s in
  let name_of n := AStr (default [] (mastermodename n)) in
  if ((privilege c =? PRIV_NONE) && negb (local c)) || (mm <? MM_OPEN) || (MM_PRIVATE <? mm) then ret tt
  else if entitled PRIV_ADMIN c || Z.testbit (mastermask s) mm then
    veto <- fire "setmastermode_request" [AInt (clientnum c); name_of (mastermode s); name_of mm] ;;
    when (negb veto) (set_mastermode_cn mm (clientnum c))
  else sendf sender 1 (message N_SERVMSG
         [FStr (copystring (cstr "mastermode " ++ print_int mm ++ cstr " is disabled on this server") MAXSTRLEN)]).
Definition on_mastermode : M parsing bool :=
  onserver update_mastermask ;;
  mm <- int_arg ;;
  onserver (mastermode_request mm) ;; brk.
Definition on_clearbans : M parsing bool :=
  onserver (
    s <- get_server ;;
    let c := deref ci s in
    when (negb (privilege c =? PRIV_NONE)) (fire "clearbans_request" [AInt (clientnum c)] ;; ret tt)) ;;
  brk.
Definition on_kick : M parsing bool :=
  victim <- int_arg ;; text <- text_arg false false ;;
  onserver (trykick ci victim (Some text) None None PRIV_NONE false) ;; brk.
(** Without privilege a client may only make a spectator of itself, or of itself a player
    again when the mode of the server allows it. *)
Definition spectate_refused (self val : bool) : M server bool :=
  s <- get_server ;;
  let c := deref ci s in
  if negb (privilege c =? PRIV_NONE) then ret false
  else if negb self || is_spec c && (MM_LOCKED <=? mastermode s) ||
          is_spec c && negb val && negb (allow_self_unspec c) then ret true
  else limit ci n_spec_millis (fun t => {{ n_spec_millis := t }}) (resend_spec s) (cstr "spectator status change").
Definition spectator_request (spectator : Z) (val : bool) : M server unit :=
  let self := spectator =? sender in
  refused <- spectate_refused self val ;;
  if (refused : bool) then ret tt else
  s <- get_server ;;
  let c := deref ci s in
  match getclientinfo spectator s with
  | None => ret tt
  | Some sp =>
    let other := negb (bool_decide (sp = ci)) in
    if other && spy (deref sp s) then ret tt
    else if val && other && negb (privilege (deref sp s) =? PRIV_NONE) && (privilege c <? PRIV_ADMIN)
    then sendprivtext ci (RED ++ cstr "You cannot spec that player because they have an above normal privilege.")
    else upd_ci sp {{ allow_self_unspec := self && val }} ;; setspectator sp val true
  end.
Definition on_spectator : M parsing bool :=
  spectator <- int_arg ;; val <- int_arg ;;
  onserver (spectator_request spectator (negb (val =? 0))) ;; brk.
Definition on_forceintermission : M parsing bool :=
  s <- server_now ;;
  onserver (when (local (deref ci s) && negb (hasnonlocalclients s)) startintermission) ;; brk.
Definition on_setmaster : M parsing bool :=
  mn <- int_arg ;; val <- int_arg ;; text <- raw_text ;;
  s <- server_now ;;
  let c := deref ci s in
  if mn =? clientnum c then onserver (setmaster ci (negb (val =? 0)) text) ;; brk else
  if (privilege c =? PRIV_NONE) && negb (local c) then brk else
  match getclientinfo mn s with
  | None => brk
  | Some mi =>
    let m := deref mi s in
    if negb (connected m) || negb (local c) && (privilege c <=? privilege m) ||
       negb (val =? 0) && negb (privilege m =? PRIV_NONE)
    then brk else onserver (set_player_master mn) ;; brk
  end.
Definition on_addbot : M parsing bool := n <- int_arg ;; onserver (reqadd ci n) ;; brk.
Definition on_delbot : M parsing bool := onserver (reqdel ci) ;; brk.
Definition on_botlimit : M parsing bool := n <- int_arg ;; onserver (setbotlimit (Some ci) n) ;; brk.
Definition on_botbalance : M parsing bool :=
  n <- int_arg ;; onserver (setbotbalance (Some ci) (negb (n =? 0))) ;; brk.
Definition on_authtry : M parsing bool :=
  desc <- string_arg ;; user <- string_arg ;;
  onserver (tryauth ci user desc (-1)) ;; brk.
Definition on_authkick : M parsing bool :=
  desc <- string_arg ;; user <- string_arg ;; victim <- int_arg ;; text_arg false false ;;
  onserver (tryauth ci user desc victim) ;; brk.
Definition on_authans : M parsing bool :=
  string_arg ;; id_ <- int_arg ;; ans <- string_arg ;;
  onserver (ci_answerchallenge ci (to_uint id_) ans) ;; brk.
Definition on_pausegame : M parsing bool :=
  val <- int_arg ;;
  s <- server_now ;;
  let c := deref ci s in
  if negb (entitled (if restrictpausegame s then PRIV_ADMIN else PRIV_MASTER) c) then brk else
  onserver (
    pausegame (0 <? val) (Some ci) ;;
    s <- get_server ;;
    set_game {{ pausegame_owner := clientnum (deref ci s) }}) ;;
  brk.
Definition on_gamespeed : M parsing bool :=
  val <- int_arg ;;
  s <- server_now ;;
  if negb (entitled (if restrictgamespeed s then PRIV_ADMIN else PRIV_MASTER) (deref ci s)) then brk else
  onserver (changegamespeed val (Some ci)) ;; brk.

(** ** Demos *)
Definition as_admin (m : M server unit) : M parsing bool :=
  s <- server_now ;;
  onserver (when (entitled PRIV_ADMIN (deref ci s)) m) ;; brk.
Definition on_recorddemo : M parsing bool :=
  val <- int_arg ;;
  as_admin (
    set_demo {{ demonextmatch := negb (val =? 0) }} ;;
    sendservmsgf (cstr "demo recording is " ++ cstr (if val =? 0 then "disabled" else "enabled") ++ cstr " for next match")).
Definition on_stopdemo : M parsing bool := as_admin stopdemo.
Definition on_cleardemos : M parsing bool := n <- int_arg ;; as_admin (cleardemos n).
Definition if_may_act (m : M server unit) : M parsing bool :=
  s <- server_now ;;
  onserver (when (may_act (deref ci s)) m) ;; brk.
Definition on_listdemos : M parsing bool := if_may_act (listdemos sender).
Definition on_getdemo : M parsing bool := n <- int_arg ;; tag <- int_arg ;; if_may_act (senddemo ci n tag).
Definition on_servcmd : M parsing bool :=
  text <- raw_text ;;
  onserver (s <- get_server ;; fire "servcmd" [AInt (clientnum (deref ci s)); AStr (encodeutf8 text)]) ;; brk.
(** A second introduction is read and ignored. *)
Definition on_connect_again : M parsing bool := raw_text ;; raw_text ;; int_arg ;; brk.

(** ** The base modes *)
Definition smode_is (k : smode_kind) (s : server) : bool := bool_decide (smode s = Some k).
(** For [cq], in the mode the message belongs to. *)
Definition in_mode (k : smode_kind) (m : nat -> M server unit) : M parsing bool :=
  ps <- gets id ;;
  let s := ps_server ps in
  match ps_cq ps with
  | Some q => onserver (when (may_act (deref ci s) && smode_is k s) (m q)) ;; brk
  | None => brk
  end.
Definition may_commit (s : server) : bool := may_act (deref ci s) && bool_decide (clientmap (deref ci s) = smapname s).
(** The list of places is read in its mode only. *)
Definition map_places (k : smode_kind) (commit : list (Z * vec) -> M server unit) : M parsing bool :=
  s <- server_now ;;
  if smode_is k s then
    items <- onloop [] (getitems Ctf.getteampos) ;;
    onserver (when (may_commit s) (commit items)) ;; brk
  else brk.
Definition on_bases : M parsing bool := map_places capturemode Capture.commit_bases.
Definition on_repammo : M parsing bool := in_mode capturemode Capture.replenishammo.
Definition on_trydropflag : M parsing bool := in_mode ctfmode (fun q => Ctf.ctf_dropflag q None).
Definition on_takeflag : M parsing bool :=
  i <- int_arg ;; version_ <- int_arg ;; in_mode ctfmode (fun q => Ctf.takeflag q i version_).
Definition on_initflags : M parsing bool := map_places ctfmode Ctf.commit_flags.
Definition on_inittokens : M parsing bool := map_places collectmode Collect.commit_tokenbases.
Definition on_taketoken : M parsing bool := i <- int_arg ;; in_mode collectmode (fun q => Collect.taketoken q i).
Definition on_deposittokens : M parsing bool :=
  i <- int_arg ;; in_mode collectmode (fun q => Collect.deposittokens q i).

(** ** The switch *)
Definition parse_case (m : msg) : M parsing bool :=
  let type := msg_code m in
  match m with
  | N_POS => on_pos
  | N_TELEPORT => on_teleport
  | N_JUMPPAD => on_jumppad
  | N_FROMAI => on_fromai
  | N_EDITMODE => on_editmode
  | N_MAPCRC => on_mapcrc
  | N_CHECKMAPS => on_checkmaps
  | N_TRYSPAWN => on_tryspawn
  | N_GUNSELECT => on_gunselect
  | N_SPAWN => on_spawn
  | N_SUICIDE => on_suicide
  | N_SHOOT => on_shoot
  | N_EXPLODE => on_explode
  | N_ITEMPICKUP => on_itempickup
  | N_TEXT => on_text
  | N_SAYTEAM => on_sayteam
  | N_SWITCHNAME => on_switchname
  | N_SWITCHMODEL => on_switchmodel
  | N_MAPVOTE => on_mapvote
  | N_SWITCHTEAM => on_switchteam
  | N_MAPCHANGE => on_mapchange
  | N_ITEMLIST => on_itemlist
  | N_EDITENT => on_editent
  | N_EDITVAR => on_editvar
  | N_PING => on_ping
  | N_CLIENTPING => on_clientping
  | N_MASTERMODE => on_mastermode
  | N_CLEARBANS => on_clearbans
  | N_KICK => on_kick
  | N_SPECTATOR => on_spectator
  | N_SETTEAM => on_setteam
  | N_FORCEINTERMISSION => on_forceintermission
  | N_RECORDDEMO => on_recorddemo
  | N_STOPDEMO => on_stopdemo
  | N_CLEARDEMOS => on_cleardemos
  | N_LISTDEMOS => on_listdemos
  | N_GETDEMO => on_getdemo
  | N_GETMAP => on_getmap
  | N_NEWMAP => on_newmap
  | N_SETMASTER => on_setmaster
  | N_ADDBOT => on_addbot
  | N_DELBOT => on_delbot
  | N_BOTLIMIT => on_botlimit
  | N_BOTBALANCE => on_botbalance
  | N_AUTHTRY => on_authtry
  | N_AUTHKICK => on_authkick
  | N_AUTHANS => on_authans
  | N_PAUSEGAME => on_pausegame
  | N_GAMESPEED => on_gamespeed
  | N_COPY => on_copy
  | N_PASTE => on_paste
  | N_CLIPBOARD => on_clipboard
  | N_EDITT | N_REPLACE | N_EDITVSLOT => on_edit_extra type
  | N_UNDO | N_REDO => on_undo type
  | N_SERVCMD => on_servcmd
  | N_CONNECT => on_connect_again
  | N_REMIP | N_EDITF | N_EDITM | N_FLIP | N_ROTATE | N_DELCUBE => on_edit type
  | N_BASES => on_bases
  | N_REPAMMO => on_repammo
  | N_TRYDROPFLAG => on_trydropflag
  | N_TAKEFLAG => on_takeflag
  | N_INITFLAGS => on_initflags
  | N_INITTOKENS => on_inittokens
  | N_TAKETOKEN => on_taketoken
  | N_DEPOSITTOKENS => on_deposittokens
  | _ => genericmsg type
  end.
(** [type] is the answer of [checktype]. *)
Definition parse_type (type : Z) : M parsing bool :=
  if type =? -1 then bad_packet (-1)
  else if type =? -2 then onserver (disconnect_client sender DISC_OVERFLOW) ;; stop
  else match msg_of_code type with Some m => parse_case m | None => genericmsg type end.
Definition next_type (cq : option nat) : M parsing Z :=
  type <- int_arg ;;
  p <- gets ps_p ;;
  onserver (checktype type (Some ci) cq p).
Definition parse_message : M parsing bool :=
  ps <- gets id ;;
  type <- next_type (ps_cq ps) ;;
  parse_type type.

(** ** Before the client has joined *)
Definition on_connect : M parsing bool :=
  text <- name_arg MAXNAMELEN ;;
  model <- int_arg ;;
  onserver (
    s <- get_server ;;
    upd_ci ci (fun c => c <| name := copystring (unnamed text) (MAXNAMELEN + 1) |> <| playermodel := model |>) ;;
    upd_ac ci (ac_reset (totalmillis s) (anti_cheat_enabled s) sender) ;;
    upd_gs ci {{ lastdeath := -5000 }}) ;;
  password <- string_arg ;; authdesc_ <- string_arg ;; authname_ <- string_arg ;;
  disc <- onserver (allowconnect ci password) ;;
  if disc =? DISC_NONE then onserver (connected_ ci) ;; brk else
  s <- server_now ;;
  ok <- (if bool_decide (serverauth s = []) || negb (bool_decide (serverauth s = authdesc_)) then ret false
         else onserver (tryauth ci authname_ authdesc_ (-1))) ;;
  if (ok : bool) then onserver (upd_ci ci {{ connectauth := disc }}) ;; brk
  else onserver (disconnect_client sender disc) ;; stop.
Definition join_message : M parsing bool :=
  type <- next_type None ;;
  match msg_of_code type with
  | Some N_CONNECT => on_connect
  | Some N_AUTHANS => on_authans
  | Some N_PING => int_arg ;; brk
  | _ => onserver (disconnect_client sender DISC_MSGERR) ;; stop
  end.

(** ** The loop over the messages of a packet

    [None]: out of fuel.  Each message takes at least a byte (Theorem [packet_parsed]). *)
Fixpoint parse_loop (fuel : nat) (message_ : M parsing bool) : M parsing (option bool) :=
  match fuel with
  | O => ret None
  | S fuel =>
    modify (fun ps => ps <| ps_cur := len (ps_p ps) |>) ;;
    ps <- gets id ;;
    if maxlen (ps_p ps) <=? len (ps_p ps) then ret (Some false) else
    stopped <- message_ ;;
    if (stopped : bool) then ret (Some true) else parse_loop fuel message_
  end.
Definition packet_fuel (p : ucharbuf) : nat := S (Z.to_nat (remaining p)).
Definition parse_buffer : M parsing (option bool) :=
  ps <- gets id ;;
  if negb (connected (deref ci (ps_server ps))) then parse_loop (packet_fuel (ps_p ps)) join_message
  else parse_loop (packet_fuel (ps_p ps)) parse_message.
End parsepacket.

Section process.
Context {hooks : Hooks} {files : Files} {host : Host} {libm : Libm}.

(** The packet as ENet hands it over. *)
Record packet := mkpacket { pk_unsequenced : bool; pk_reliable : bool; pk_data : list Z }.
Definition packet_buf (pk : packet) : ucharbuf := databuf_of (pk_data pk) (zlength (pk_data pk)).
(** The answer is what is left of the packet. *)
Definition parsepacket (sender chan : Z) (pk : packet) : M server ucharbuf := fun s =>
  let p := packet_buf pk in
  if (sender <? 0) || pk_unsequenced pk || (2 <? chan) then (p, s) else
  match getinfo sender s with
  | None => (p, s)
  | Some ci =>
    let joined := connected (deref ci s) in
    if negb joined && (chan =? 0) then (p, s)
    else if negb joined && negb (chan =? 1) then (p, exec (disconnect_client sender DISC_MSGERR) s)
    else if chan =? 2 then (p, exec (receivefile sender (pk_data pk)) s)
    else
      let s := if joined && pk_reliable pk then exec (set_game {{ reliablemessages := true }}) s else s in
      let ps := exec (parse_buffer sender ci) (mkparsing s p (Some ci) 0 false) in
      (ps_p ps, ps_server ps)
  end.
Definition process_packet (sender chan : Z) (pk : packet) : M server unit :=
  p <- parsepacket sender chan pk ;;
  when (overread p) (disconnect_client sender DISC_EOP).
End process.

(** * Every packet is parsed to its end *)

(** A program that only moves the read index forward, and whose loops end by themselves. *)
Definition moves_on (ps ps' : parsing) : Prop :=
  read_step (ps_p ps) (ps_p ps') /\ (buf_wf (ps_p ps) -> ps_starved ps' = ps_starved ps).
#[export] Instance moves_on_preorder : PreOrder moves_on.
Proof.
  split; unfold moves_on; [by intros ps|]. intros p q r [A1 A2] [B1 B2]. split; [by etransitivity|].
  intros Hwf. destruct A1 as (_&_&A1). destruct (A1 Hwf) as [Hwf' _]. by rewrite -> B2, A2.
Qed.

Lemma onserver_moves {A} (m : M server A) : respects moves_on (onserver m).
Proof. intros ps. unfold exec, onserver, moves_on. by destruct (m (ps_server ps)). Qed.
Lemma onpacket_moves {A} (m : M ucharbuf A) : respects read_step m -> respects moves_on (onpacket m).
Proof.
  intros Hm ps. unfold exec, onpacket, moves_on. specialize (Hm (ps_p ps)). unfold exec in Hm.
  destruct (m (ps_p ps)). by split.
Qed.
(** A loop that ends on any buffer. *)
Record loops {A} (m : M ucharbuf (option A)) : Prop := {
  loops_reads : respects read_step m;
  loops_ends p : buf_wf p -> eval m p <> None
}.
Lemma onloop_moves {A} d (m : M ucharbuf (option A)) : loops m -> respects moves_on (onloop d m).
Proof.
  intros [Hr He] ps. unfold onloop. rw exec_bind. pose proof (onpacket_moves m Hr ps) as Hm.
  assert (eval (onpacket m) ps = eval m (ps_p ps)) as -> by (unfold eval, onpacket; by destruct (m (ps_p ps))).
  set (ps1 := exec _ ps) in *. destruct (eval m (ps_p ps)) eqn:E; [exact Hm|].
  destruct Hm as [Hm _]. split; [exact Hm|]. intros Hwf. by destruct (He _ Hwf).
Qed.
Lemma set_cq_moves q : respects moves_on (modify {{ ps_cq := q }}).
Proof. by intros ps. Qed.
Lemma set_cur_moves n : respects moves_on (modify {{ ps_cur := n }}).
Proof. by intros ps. Qed.
#[export] Hint Resolve onserver_moves onpacket_moves set_cq_moves set_cur_moves : respects.

Lemma getuint_reads : respects read_step getuint.
Proof. unfold getuint. solve_respects. Qed.
Lemma advance_reads p p' : buf p' = buf p -> maxlen p' = maxlen p ->
  (buf_wf p -> len p <= len p' <= maxlen p) -> read_step p p'.
Proof.
  intros Hb Hm Hl. unfold read_step. split_and!; try done. intros Hwf. specialize (Hl Hwf).
  destruct Hwf as ([? ?]&?&?). unfold buf_wf. rw Hb Hm. split_and!; try done; lia.
Qed.
Lemma get_all_reads n : 0 <= n -> respects read_step (get_all n).
Proof.
  intros Hn p. unfold exec, get_all. rw tmin_spec. cbn [snd].
  apply advance_reads; [by case_match|by case_match|]. intros ([? ?]&?&?). simpl. lia.
Qed.
Lemma pad_reads n : 0 <= n -> respects read_step (pad n).
Proof. intros Hn p. apply advance_reads; try done. intros ([? ?]&?&?). simpl. rw tmin_spec. lia. Qed.
Lemma subbuf_reads n : respects read_step (subbuf n).
Proof.
  intros p. apply advance_reads; try done. intros ([? ?]&?&?). simpl. unfold clamp. rw tmax_spec tmin_spec. lia.
Qed.
Lemma skip_ints_reads n : respects read_step (skip_ints n).
Proof. induction n; simpl; solve_respects. Qed.
#[export] Hint Resolve getuint_reads subbuf_reads skip_ints_reads : respects.

(** ** The loops inside messages end *)
Lemma read_less p p' : read_step p p' -> buf_wf p -> buf_wf p' /\ 0 <= remaining p' <= remaining p.
Proof.
  intros (_&Hm&Hs) Hwf. destruct (Hs Hwf) as [Hwf' Hl]. split; [done|]. destruct Hwf' as ([? ?]&_).
  unfold remaining in *. lia.
Qed.
(** After [getint] a round is over, or there is less left. *)
Lemma after_getint p : buf_wf p ->
  let p' := exec getint p in buf_wf p' /\ 0 <= remaining p' /\ (overread p' = false -> remaining p' < remaining p).
Proof.
  intros Hwf. cbv zeta. destruct (progress_getint p Hwf) as (Hs&_&Hp). destruct (read_less _ _ Hs Hwf) as [? [? ?]].
  split_and!; [done|done|]. intros Ho. destruct Hp as [Hp|Hp]; [by rw Ho in Hp|done].
Qed.
Lemma skip_itemlist_ends fuel : forall p,
  buf_wf p -> (Z.to_nat (remaining p) < fuel)%nat -> eval (skip_itemlist fuel) p <> None.
Proof.
  induction fuel as [|fuel IH]; intros p Hwf Hf; [lia|]. cbn [skip_itemlist]. rw eval_bind.
  destruct (after_getint p Hwf) as (Hwf1&Hr&Hp). set (p1 := exec getint p) in *. clearbody p1.
  rw eval_bind. cbn [eval exec gets fst snd]. destruct (0 <=? _); cbn [andb]; [|done].
  destruct (overread p1); cbn [negb]; [done|]. specialize (Hp eq_refl).
  rw eval_bind. destruct (read_less _ _ (respects_getint p1) Hwf1). apply IH; [done|lia].
Qed.
Lemma read_itemlist_ends fuel : forall p,
  buf_wf p -> (Z.to_nat (remaining p) < fuel)%nat -> eval (read_itemlist fuel) p <> None.
Proof.
  induction fuel as [|fuel IH]; intros p Hwf Hf; [lia|]. cbn [read_itemlist]. rw eval_bind.
  destruct (after_getint p Hwf) as (Hwf1&Hr&Hp). set (p1 := exec getint p) in *. clearbody p1.
  rw eval_bind. cbn [eval exec gets fst snd]. destruct (overread p1); cbn [negb].
  { by rw andb_false_r. }
  specialize (Hp eq_refl). rw andb_true_r. destruct (_ && _); [|done]. do 2 rw eval_bind. destruct (read_less _ _ (respects_getint p1) Hwf1) as [Hwf2 ?]. set (p2 := exec getint p1) in *.
  specialize (IH p2 Hwf2 ltac:(lia)). by destruct (eval (read_itemlist fuel) p2).
Qed.
Lemma read_hits_ends fuel : forall n p,
  buf_wf p -> (if overread p then 0 < fuel else Z.to_nat (remaining p) + 1 < fuel)%nat -> eval (read_hits fuel n) p <> None.
Proof.
  induction fuel as [|fuel IH]; intros n p Hwf Hf; [by destruct (overread p); lia|]. cbn [read_hits]. rw eval_bind.
  cbn [eval exec gets fst snd]. destruct (overread p); [by rw orb_true_r|]. rw orb_false_r. destruct (n <=? 0); [done|].
  destruct (after_getint p Hwf) as (Hwf1&Hr1&Hp). rw eval_bind. set (p1 := exec getint p) in *. clearbody p1.
  match goal with |- eval ?m p1 <> None => assert (forall p6, buf_wf p6 -> 0 <= remaining p6 <= remaining p1 ->
    (overread p1 = true -> overread p6 = true) -> eval (read_hits fuel (n - 1)) p6 <> None) as Hk end.
  { intros p6 Hwf6 Hr6 Ho. apply IH; [done|]. destruct (overread p1), (overread p6); try lia; specialize (Hp eq_refl); lia. }
  clear IH Hp Hf. do 6 (rw eval_bind;
    match goal with |- context [exec getint ?q] =>
      destruct (read_less q _ (respects_getint q) ltac:(done)) as [? ?]; pose proof (marked_getint q);
      let q' := fresh "q" in set (q' := exec getint q) in *; clearbody q' end).
  rw eval_bind. match goal with |- context [exec (read_hits _ _) ?q] =>
    specialize (Hk q ltac:(done) ltac:(lia) ltac:(unfold marked in *; auto 10)); by destruct (eval (read_hits fuel (n - 1)) q) end.
Qed.
(** A loop whose fuel is the buffer it reads. *)
Lemma own_fuel {A} (f : nat -> M ucharbuf A) :
  (forall n, respects read_step (f n)) -> respects read_step (fun p => f (S (length (buf p))) p).
Proof. intros Hf p. exact (Hf _ p). Qed.
Lemma no_itemlist_loops : loops no_itemlist.
Proof.
  split; [|intros p Hwf; apply skip_itemlist_ends; [done|by apply remaining_fuel]].
  apply (own_fuel skip_itemlist). intros n. induction n; simpl; solve_respects.
Qed.
Lemma itemlist_loops : loops itemlist_arg.
Proof.
  split; [|intros p Hwf; apply read_itemlist_ends; [done|by apply remaining_fuel]].
  apply (own_fuel read_itemlist). intros n. induction n; simpl; solve_respects.
Qed.
Lemma read_hits_reads n k : respects read_step (read_hits n k).
Proof. revert k. induction n; intros k; simpl; solve_respects. Qed.
Lemma hits_loops : loops hits_arg.
Proof.
  split.
  - unfold hits_arg. apply respects_bind; [apply _|solve_respects|]. intros n p. apply read_hits_reads.
  - intros p Hwf. unfold hits_arg. rw eval_bind. destruct (after_getint p Hwf) as (Hwf1&_&_).
    apply read_hits_ends; [done|]. pose proof (remaining_fuel _ Hwf1). destruct (overread _); lia.
Qed.
Lemma getlist_reads {A} n k (item : M ucharbuf A) : respects read_step item -> respects read_step (getlist n k item).
Proof. intros Hi. revert k. induction n; intros k; simpl; solve_respects. Qed.
Lemma getitems_loops {A} (item : M ucharbuf A) : respects read_step item -> progress item -> loops (getitems item).
Proof.
  intros Hi Hp. split; [|by intros p; apply getitems_ends].
  unfold getitems. apply respects_bind; [apply _|solve_respects|]. intros n p. by apply getlist_reads.
Qed.
Lemma teampos_loops : loops (getitems Ctf.getteampos).
Proof.
  unfold Ctf.getteampos, Ctf.getcoord. apply getitems_loops; [solve_respects|].
  apply progress_then; [apply progress_getint|intros; solve_respects..].
Qed.
Lemma map_ent_loops : loops (getitems read_map_ent).
Proof.
  unfold read_map_ent, read_map_coord. apply getitems_loops; [solve_respects|].
  apply progress_then; [apply progress_getint|intros; solve_respects..].
Qed.
Lemma onloop_hits : respects moves_on (onloop [] hits_arg).
Proof. apply onloop_moves, hits_loops. Qed.
Lemma onloop_none : respects moves_on (onloop tt no_itemlist).
Proof. apply onloop_moves, no_itemlist_loops. Qed.
Lemma onloop_items : respects moves_on (onloop [] itemlist_arg).
Proof. apply onloop_moves, itemlist_loops. Qed.
Lemma onloop_places : respects moves_on (onloop [] (getitems Ctf.getteampos)).
Proof. apply onloop_moves, teampos_loops. Qed.
#[export] Hint Resolve onloop_hits onloop_none onloop_items onloop_places : respects.

Lemma string_reads n : respects read_step (getstring n).
Proof. apply respects_getstring. Qed.
Lemma vec_arg_reads : respects read_step vec_arg.
Proof. unfold vec_arg. solve_respects. Qed.
Lemma read_movement_reads {libm : Libm} : respects read_step read_movement.
Proof. unfold read_movement, read_pos, read_coord. solve_respects. Qed.
#[export] Hint Resolve string_reads vec_arg_reads read_movement_reads : respects.

Section ends.
Context {hooks : Hooks} {files : Files} {host : Host} {libm : Libm}.
Variables (sender : Z) (ci : nat).

Lemma queue_msg_moves cm : respects moves_on (queue_msg cm).
Proof. unfold queue_msg. solve_respects. Qed.
Lemma queue_buf_moves cm fs : respects moves_on (queue_buf cm fs).
Proof. unfold queue_buf. solve_respects. Qed.
Lemma bad_packet_moves type : respects moves_on (bad_packet sender ci type).
Proof. unfold bad_packet, stop, server_now. solve_respects. Qed.
Lemma read_blob_moves n : 0 <= n -> respects moves_on (read_blob n).
Proof. intros Hn. unfold read_blob. pose proof (get_all_reads n Hn). solve_respects. Qed.
Lemma skip_blob_moves n : respects moves_on (skip_blob n).
Proof. unfold skip_blob. solve_respects. Qed.
#[local] Hint Resolve queue_msg_moves queue_buf_moves bad_packet_moves skip_blob_moves : respects.

Lemma sized_moves type k : respects moves_on k -> respects moves_on (sized sender ci type k).
Proof. intros. unfold sized. solve_respects. Qed.
Lemma pass_on_moves type : respects moves_on (pass_on ci type).
Proof. unfold pass_on, brk. solve_respects. Qed.
Lemma pass_edit_moves : respects moves_on (pass_edit ci).
Proof. unfold pass_edit, server_now, brk. solve_respects. Qed.
#[local] Hint Resolve pass_on_moves pass_edit_moves : respects.
Lemma edit_extra_moves type : respects moves_on (on_edit_extra sender ci type).
Proof.
  apply sized_moves. unfold edit_vetoed, stop. pose proof (pad_reads 2 ltac:(lia)).
  solve_respects. apply onpacket_moves, pad_reads. by apply Z.mod_pos_bound.
Qed.
Lemma good_length unpacklen packlen : bad_lengths unpacklen packlen = false -> 0 <= packlen.
Proof. unfold bad_lengths. lia. Qed.
Lemma clipboard_moves : respects moves_on (on_clipboard ci).
Proof.
  unfold on_clipboard, int_arg, server_now, brk. do 4 (respects_step; [solve_respects|]). cbv zeta.
  destruct (bad_lengths _ _) eqn:E; [solve_respects|].
  pose proof (read_blob_moves _ (good_length _ _ E)). solve_respects.
Qed.
Lemma undo_moves type : respects moves_on (on_undo sender ci type).
Proof.
  unfold on_undo, int_arg, edit_vetoed, server_now, brk, stop. do 3 (respects_step; [solve_respects|]).
  destruct (is_spec _ || bad_lengths _ _) eqn:E; [solve_respects|].
  apply orb_false_elim in E as [_ E]. pose proof (read_blob_moves _ (good_length _ _ E)). solve_respects.
Qed.
#[local] Hint Resolve edit_extra_moves clipboard_moves undo_moves : respects.

Lemma map_places_moves k commit : respects moves_on (map_places ci k commit).
Proof. unfold map_places, server_now, brk. solve_respects. Qed.
Lemma in_mode_moves k m : respects moves_on (in_mode ci k m).
Proof. unfold in_mode, brk. solve_respects. Qed.
#[local] Hint Resolve map_places_moves in_mode_moves : respects.
Lemma genericmsg_moves type : respects moves_on (genericmsg sender ci type).
Proof. apply sized_moves, pass_on_moves. Qed.
Lemma on_edit_moves type : respects moves_on (on_edit sender ci type).
Proof. apply sized_moves. unfold edit_vetoed, stop. solve_respects. Qed.
Lemma copy_moves : respects moves_on (on_copy sender ci).
Proof. unfold on_copy, server_now. repeat respects_step; eauto using genericmsg_moves with respects. Qed.
Lemma paste_moves : respects moves_on (on_paste sender ci).
Proof. unfold on_paste, server_now. repeat respects_step; eauto using genericmsg_moves with respects. Qed.
Create HintDb parse_case.
#[local] Hint Unfold on_addbot on_authans on_authkick on_authtry on_bases on_botbalance on_botlimit
  on_checkmaps on_clearbans on_cleardemos on_clientping on_connect_again on_delbot on_deposittokens on_editent
  on_editmode on_editvar on_explode on_forceintermission on_fromai on_gamespeed on_getdemo on_getmap
  on_gunselect on_initflags on_inittokens on_itemlist on_itempickup on_jumppad on_kick on_listdemos
  on_mapchange on_mapcrc on_mapvote on_mastermode on_newmap on_pausegame on_ping on_pos on_recorddemo
  on_repammo on_sayteam on_servcmd on_setmaster on_setteam on_shoot on_spawn on_spectator on_stopdemo
  on_suicide on_switchmodel on_switchname on_switchteam on_takeflag on_taketoken on_teleport on_text
  on_trydropflag on_tryspawn brk stop int_arg raw_text text_arg name_arg string_arg server_now edit_vetoed
  relay_position check_speed add_event event_time say_text as_admin if_may_act : parse_case.
(** [solve_respects] for programs whose steps are all known. *)
Ltac moves_step :=
  match goal with
  | |- respects _ (onserver _) => apply onserver_moves
  | |- respects _ (onpacket _) => apply onpacket_moves; solve_respects
  | |- respects _ (onloop _ _) => progress eauto with respects
  | |- respects _ (queue_msg _) => apply queue_msg_moves
  | |- respects _ (queue_buf _ _) => apply queue_buf_moves
  | |- respects _ (pass_edit _) => apply pass_edit_moves
  | |- respects _ (in_mode _ _ _) => apply in_mode_moves
  | |- respects _ (map_places _ _ _) => apply map_places_moves
  | |- respects _ (modify (update_field ps_cur _)) => apply set_cur_moves
  | |- respects _ (modify (update_field ps_cq _)) => apply set_cq_moves
  end.
Ltac moves := repeat (respects_step || moves_step).
(** Every case of the switch only moves forward. *)
Lemma parse_case_moves m : respects moves_on (parse_case sender ci m).
Proof.
  pose proof (get_all_reads 4 ltac:(lia)).
  destruct m; cbn [parse_case];
    lazymatch goal with
    | |- respects _ (genericmsg _ _ _) => apply genericmsg_moves
    | |- respects _ (on_edit _ _ _) => apply on_edit_moves
    | |- respects _ (on_edit_extra _ _ _) => apply edit_extra_moves
    | |- respects _ (on_clipboard _) => apply clipboard_moves
    | |- respects _ (on_undo _ _ _) => apply undo_moves
    | |- respects _ (on_copy _ _) => apply copy_moves
    | |- respects _ (on_paste _ _) => apply paste_moves
    | |- _ => autounfold with parse_case; moves
    end.
Qed.
Lemma parse_type_moves type : respects moves_on (parse_type sender ci type).
Proof.
  unfold parse_type. destruct (type =? -1); [apply bad_packet_moves|].
  destruct (type =? -2); [unfold stop; moves|].
  destruct (msg_of_code type); [apply parse_case_moves|apply genericmsg_moves].
Qed.
Lemma on_connect_moves : respects moves_on (on_connect sender ci).
Proof. unfold on_connect. autounfold with parse_case. moves. Qed.

(** A message that begins with its type takes at least a byte of what is left. *)
Definition advances {A} (m : M parsing A) : Prop := forall ps,
  buf_wf (ps_p ps) -> len (ps_p ps) < maxlen (ps_p ps) ->
  moves_on ps (exec m ps) /\ len (ps_p ps) < len (ps_p (exec m ps)).
Lemma advances_after_int {A} (k : Z -> M parsing A) :
  (forall n, respects moves_on (k n)) -> advances (bind int_arg k).
Proof.
  intros Hk ps Hwf Hr.
  assert (ps_p (exec int_arg ps) = exec getint (ps_p ps)) as Hp
    by (unfold exec, int_arg, onpacket; by destruct (getint (ps_p ps))).
  pose proof (getint_advances _ Hwf ltac:(unfold remaining; lia)) as Ha.
  pose proof (onpacket_moves _ respects_getint ps) as Hm. change (onpacket getint) with int_arg in Hm.
  rw exec_bind. set (n := eval int_arg ps). specialize (Hk n (exec int_arg ps)).
  split; [by etransitivity|]. destruct Hm as [(_&_&Hm) _], Hk as [(_&_&Hk) _].
  destruct (Hm Hwf) as [Hwf' _]. destruct (Hk Hwf') as [_ Hle]. rw Hp in Hle. lia.
Qed.
Lemma advances_read {A B} (f : parsing -> B) (k : B -> M parsing A) :
  (forall b, advances (k b)) -> advances (bind (gets f) k).
Proof. intros Hk ps. rw exec_bind. apply Hk. Qed.
Lemma bind_assoc {S A B C} (m : M S A) (k : A -> M S B) (l : B -> M S C) s :
  bind (bind m k) l s = bind m (fun a => bind (k a) l) s.
Proof. unfold bind. by destruct (m s). Qed.
Lemma advances_assoc {A B C} (m : M parsing A) (k : A -> M parsing B) (l : B -> M parsing C) :
  advances (bind m (fun a => bind (k a) l)) -> advances (bind (bind m k) l).
Proof. intros Hm ps. unfold exec. rw bind_assoc. apply Hm. Qed.
Lemma message_advances cq (k : Z -> M parsing bool) :
  (forall type, respects moves_on (k type)) -> advances (bind (next_type ci cq) k).
Proof. intros Hk. apply advances_assoc, advances_after_int. intros n. moves. apply Hk. Qed.
Lemma parse_message_advances : advances (parse_message sender ci).
Proof. apply advances_read. intros ps. apply message_advances, parse_type_moves. Qed.
Lemma join_message_advances : advances (join_message sender ci).
Proof.
  apply message_advances. intros type. destruct (msg_of_code type) as [m|].
  - destruct m; try apply on_connect_moves; autounfold with parse_case; moves.
  - autounfold with parse_case. moves.
Qed.

Definition parse_round (fuel : nat) (message_ : M parsing bool) (ps : parsing) : M parsing (option bool) :=
  if maxlen (ps_p ps) <=? len (ps_p ps) then ret (Some false) else
  stopped <- message_ ;; if (stopped : bool) then ret (Some true) else parse_loop fuel message_.
Lemma parse_loop_ends message_ : advances message_ -> forall fuel ps,
  buf_wf (ps_p ps) -> (Z.to_nat (remaining (ps_p ps)) < fuel)%nat ->
  let ps' := exec (parse_loop fuel message_) ps in
  exists stopped, eval (parse_loop fuel message_) ps = Some stopped /\ moves_on ps ps' /\
                  (stopped = false -> remaining (ps_p ps') = 0).
Proof.
  intros Ha. induction fuel as [|fuel IH]; intros ps Hwf Hf; [lia|]. cbn zeta.
  set (ps0 := ps <| ps_cur := len (ps_p ps) |>).
  change (eval (parse_loop (S fuel) message_) ps) with (eval (parse_round fuel message_ ps0) ps0).
  change (exec (parse_loop (S fuel) message_) ps) with (exec (parse_round fuel message_ ps0) ps0).
  unfold parse_round. destruct (Z.leb_spec (maxlen (ps_p ps0)) (len (ps_p ps0))) as [Hend|Hmore].
  { exists false. split_and!; [done|exact (set_cur_moves (len (ps_p ps)) ps)|]. intros _. unfold remaining. simpl in *.
    destruct Hwf as ([? ?]&?&?). lia. }
  destruct (Ha ps0 Hwf Hmore) as [Hm Hlt]. rw eval_bind exec_bind.
  set (ps1 := exec message_ ps0) in *. destruct (eval message_ ps0); [by exists true|].
  pose proof Hm as [(Hb&Hmx&Hw) _]. destruct (Hw Hwf) as [Hwf1 _].
  destruct (IH ps1 Hwf1) as (st&Hst&Hon&Hl); [unfold remaining in *; simpl in *; lia|].
  exists st. split_and!; [done| |done]. etransitivity; [|exact Hon]. done.
Qed.

(** C32: no sequence of bytes keeps the server busy: the loop over the messages of a packet
    ends, for clients that play and for clients that are still joining, whatever the packet
    holds and whatever the scripts do, and so do all loops inside it that read lists of the
    length the client names (hits, items, flags, bases, tokens) by their own conditions:
    [ps_starved] stays as it is, so no loop needed more rounds than its fuel; the loops of
    the cheat detector over its copy of the packet end as well.  The parser only moves
    forward inside the packet, and unless a message makes it return, it stops at the very
    end. *)
Theorem packet_parsed ps :
  buf_wf (ps_p ps) ->
  let ps' := exec (parse_buffer sender ci) ps in
  (exists stopped, eval (parse_buffer sender ci) ps = Some stopped /\
                   (stopped = false -> remaining (ps_p ps') = 0)) /\
  ps_starved ps' = ps_starved ps /\ read_step (ps_p ps) (ps_p ps') /\
  eval itemlist_arg (ps_p ps) <> None /\ eval (getitems read_map_ent) (ps_p ps) <> None.
Proof.
  intros Hwf. cbv zeta.
  assert (exists stopped, eval (parse_buffer sender ci) ps = Some stopped /\ moves_on ps (exec (parse_buffer sender ci) ps) /\
    (stopped = false -> remaining (ps_p (exec (parse_buffer sender ci) ps)) = 0)) as (st&E&[Hr Hs]&Hl).
  { unfold parse_buffer. cbn zeta. rw eval_bind exec_bind. cbn [eval exec gets fst snd id].
    destruct (negb _); (eapply parse_loop_ends; [|done|unfold packet_fuel; lia]).
    - apply join_message_advances.
    - apply parse_message_advances. }
  split_and!; [by exists st|by apply Hs|done|by apply itemlist_loops|by apply map_ent_loops].
Qed.
End ends.

(** * Names stay names *)

Definition name_ok (t : cstring) : Prop := t <> [] /\ zlength t <= MAXNAMELEN /\ Forall (passes false false) t.
Definition names (s : server) : gmap nat cstring := name <$> ci_heap s.
#[export] Instance name_ok_dec t : Decision (name_ok t).
Proof. unfold name_ok, passes. apply _. Defined.
Definition names_ok : gmap nat cstring -> Prop := map_Forall (fun _ => name_ok).

#[export] Instance names_ok_dec m : Decision (names_ok m).
Proof. unfold names_ok. apply _. Defined.

Lemma passes_no_space c : passes false true c -> passes false false c.
Proof. intros (?&?&[?|[? _]]); [|done]. unfold passes. auto. Qed.
Lemma filtered_name_ok fs t : Forall is_cchar t -> name_ok (unnamed (filtertext false fs MAXNAMELEN t)).
Proof.
  intros Ht. destruct (filtertext_ok false fs t MAXNAMELEN ltac:(unfold MAXNAMELEN; lia) Ht) as [Hp Hl].
  unfold unnamed. case_bool_decide as E.
  - apply (bool_decide_unpack _). vm_compute. exact I.
  - split_and!; [done|done|]. destruct fs; [|done]. eapply Forall_impl; [exact Hp|]. apply passes_no_space.
Qed.
Section names.
Context {hooks : Hooks} {files : Files} {host : Host} {libm : Libm}.
#[local] Abbreviation R := (inv_on names names_ok).
Context `{!HooksRespect R}.
Variables (sender : Z) (ci : nat).

Lemma name_kept i f : (forall c, name (f c) = name c) -> respects R (upd_ci i f).
Proof.
  intros Hf. apply (respects_frame _ names). intros s. unfold names. simpl. by apply fmap_alter_id.
Qed.
Lemma name_set i t : name_ok t -> respects R (upd_ci i {{ name := t }}).
Proof.
  intros Ht. apply (respects_inv_on names). intros s Hs j x. unfold names. simpl. rw lookup_fmap.
  destruct (decide (i = j)) as [<-|Hne].
  - rw lookup_alter_eq. destruct (ci_heap s !! i); simpl; [by intros [= <-]|done].
  - rewrite -> lookup_alter_ne by done. intros Hj. apply (Hs j). unfold names. by rw lookup_fmap.
Qed.
#[local] Hint Extern 1 (respects _ (upd_ci _ _)) => by apply name_kept : respects.
#[local] Hint Extern 1 (respects _ (fire _ _)) => apply hooks_respect : respects.
Lemma limit_names i get set t m : respects R (limit i get set t m).
Proof. unfold limit. solve_respects. Qed.
#[local] Hint Resolve limit_names : respects.
Lemma allow_rename_names text : respects R (allow_rename ci text).
Proof. unfold allow_rename. solve_respects. Qed.
Lemma name_ok_copied t n : name_ok t -> MAXNAMELEN < n -> copystring t n = t.
Proof. intros (_&Hl&_) Hn. apply copystring_id. lia. Qed.
Lemma rename_client_names text : name_ok text -> respects R (rename_client ci text).
Proof.
  intros Ht. unfold rename_client. rewrite -> (name_ok_copied text MAXSTRLEN Ht) by done.
  pose proof (name_set ci text Ht). solve_respects.
Qed.
Lemma player_rename_names cn newname public_rename :
  Forall is_cchar newname -> respects R (player_rename cn newname public_rename).
Proof.
  intros Hn. unfold player_rename, get_ci.
  pose proof (filtered_name_ok true _ (decodeutf8_cchar _ Hn)) as Hok. unfold unnamed in Hok.
  change (copystring (cstr "unnamed") (MAXNAMELEN + 1)) with (cstr "unnamed"). cbv zeta.
  set (safe := if bool_decide _ then _ else _) in *. clearbody safe.
  rewrite -> (name_ok_copied safe (MAXNAMELEN + 1) Hok) by done.
  pose proof (fun i => name_set i safe Hok). solve_respects.
Qed.

(** On the server inside a packet that is parsed. *)
Definition on_server (ps ps' : parsing) : Prop := R (ps_server ps) (ps_server ps').
#[local] Instance on_server_preorder : PreOrder on_server.
Proof.
  split; unfold on_server; [intros ps; reflexivity|]. intros p q r Hpq Hqr. exact (transitivity Hpq Hqr).
Qed.
Lemma onserver_names {A} (m : M server A) : respects R m -> respects on_server (onserver m).
Proof.
  intros Hm ps. unfold exec, onserver, on_server. specialize (Hm (ps_server ps)). unfold exec in Hm.
  by destruct (m (ps_server ps)).
Qed.
Lemma onpacket_server {A} (m : M ucharbuf A) ps : ps_server (exec (onpacket m) ps) = ps_server ps.
Proof. unfold exec, onpacket. by destruct (m (ps_p ps)). Qed.
Lemma queue_buf_names cm fs : respects on_server (queue_buf cm fs).
Proof.
  unfold queue_buf. repeat respects_step; [intros s; unfold on_server; simpl; reflexivity|].
  apply onserver_names. solve_respects.
Qed.

Lemma raw_text_cchar ps : buf_wf (ps_p ps) -> Forall is_cchar (eval raw_text ps).
Proof.
  intros Hwf. pose proof (getstring_loop_ok (Z.to_nat (MAXTRANS - 1)) [] (ps_p ps) (Forall_nil_2 _) Hwf) as [Ht _].
  replace (S (Z.to_nat (MAXTRANS - 1))) with (Z.to_nat MAXTRANS) in Ht by (unfold MAXTRANS; lia).
  unfold raw_text, onpacket, eval, getstring in *. by destruct (getstring_loop (Z.to_nat MAXTRANS) [] (ps_p ps)).
Qed.
Lemma name_of_ok s : names_ok (names s) -> Forall is_cchar (name (deref ci s)).
Proof.
  intros Hok. unfold deref. destruct (ci_heap s !! ci) as [c|] eqn:E; simpl; [|by constructor].
  assert (name_ok (name c)) as (_&_&Hp) by (apply (Hok ci); unfold names; by rw lookup_fmap E).
  eapply Forall_impl; [exact Hp|]. by intros x (?&_).
Qed.

Lemma name_arg_eval n ps : eval (name_arg n) ps = filtertext false false n (eval raw_text ps).
Proof. unfold name_arg. by rw eval_bind. Qed.
Lemma name_arg_server n ps : ps_server (exec (name_arg n) ps) = ps_server ps.
Proof. unfold name_arg. rw exec_bind. apply onpacket_server. Qed.

(** C33: the names of clients stay well-formed when one of them is changed: whatever
    bytes a client sends as its new name, whether it is accepted or refused, every name
    on the server afterwards is what every name was before: not empty, at most
    MAXNAMELEN characters, printable ones only.  The scripts are assumed to set no
    other names. *)
Theorem switchname_keeps_names ps :
  buf_wf (ps_p ps) -> names_ok (names (ps_server ps)) ->
  names_ok (names (ps_server (exec (on_switchname ci) ps))).
Proof.
  intros Hwf Hok. pose proof (filtered_name_ok false _ (raw_text_cchar ps Hwf)) as Ht.
  pose proof (name_of_ok _ Hok) as Hold. unfold on_switchname. rw exec_bind name_arg_eval. cbv zeta.
  set (text := unnamed _) in *. clearbody text. set (ps1 := exec (name_arg MAXNAMELEN) ps).
  assert (ps_server ps1 = ps_server ps) as E by apply name_arg_server.
  rewrite <- E in Hold, Hok. rw exec_bind. change (eval server_now ps1) with (ps_server ps1).
  change (exec server_now ps1) with ps1. refine (respects_bind on_server _ _ _ _ ps1 Hok).
  { apply onserver_names, allow_rename_names. }
  intros allowed. unfold server_now. apply respects_bind; [apply _| |intros _; apply respects_ret; apply _]. destruct allowed.
  - repeat respects_step; [by apply onserver_names, rename_client_names|apply queue_buf_names..].
  - repeat respects_step. apply onserver_names. apply respects_bind; [apply _| |intros _; apply respects_ret; apply _].
    by apply player_rename_names.
Qed.
End names.

(** ** Packets *)
#[local] Existing Instances no_hooks no_files no_host.
Definition flat_libm : Libm := {| sinf := fun _ => f32_zero; cosf := fun _ => f32_one |}.
#[local] Existing Instance flat_libm.
Definition packet_of (fs : list field) : packet := mkpacket false true (encode fs).
Definition sample_parsing (fs : list field) (s : server) : parsing := mkparsing s (packet_buf (packet_of fs)) (Some 0%nat) 0 false.
Definition quiet (s : server) : server := s <| sv_config ::= {{ anti_cheat_enabled := false }} |>.

Definition chat : list field :=
  message N_TEXT [FStr (cstr "hi")] ++ message N_CLIENTPING [FInt 40] ++ message N_SUICIDE [].
Lemma packet_parsed_witness :
  let ps := sample_parsing chat (sample_server 0 [good; evil]) in
  (exists stopped, eval (parse_buffer 0 0) ps = Some stopped /\
                   (stopped = false -> remaining (ps_p (exec (parse_buffer 0 0) ps)) = 0)) /\
  ps_starved (exec (parse_buffer 0 0) ps) = false.
Proof.
  destruct (packet_parsed 0 0 (sample_parsing chat (sample_server 0 [good; evil]))) as (H1&H2&_).
  { apply (bool_decide_unpack _). vm_compute. exact I. }
  exact (conj H1 H2).
Defined.
(** A list of items that claims to go on is read to the end of the packet. *)
Example endless_list :
  let ps := sample_parsing (message N_ITEMLIST (replicate 9 (FInt 1))) (sample_server 0 [good; evil]) in
  let ps' := exec (parse_buffer 0 0) ps in
  ps_starved ps' = false /\ overread (ps_p ps') = true.
Proof. vm_compute. done. Qed.

Definition rename : list field := message N_SWITCHNAME [FStr (cstr "a name that is too long" ++ [7; 200])].
Lemma switchname_keeps_names_witness :
  let ps := sample_parsing rename (sample_server 0 [good; evil]) in
  names_ok (names (ps_server (exec (on_switchname 0) ps))).
Proof.
  apply switchname_keeps_names.
  - apply (bool_decide_unpack _). vm_compute. exact I.
  - apply (bool_decide_unpack _). vm_compute. exact I.
Defined.

Example rename_is_cut :
  name (deref 0 (exec (process_packet 0 1 (packet_of rename)) (sample_server 0 [good; evil]))) = cstr "anamethatistool".
Proof. vm_compute. done. Qed.

(** What is said and the ping are passed on; the suicide waits in the queue. *)
Example chat_is_relayed :
  let s := exec (process_packet 0 1 (packet_of chat)) (sample_server 0 [good; evil]) in
  messages (deref 0 s) = encode (message N_TEXT [FStr (cstr "hi")] ++ message N_CLIENTPING [FInt 40]) /\
  ping (deref 0 s) = 40 /\ events (deref 0 s) = [suicideevent].
Proof. vm_compute. done. Qed.
(** The places of flags are not read in another mode: their bytes are taken for
    messages, and the honest client, here of a match that is no longer ctf, is thrown out. *)
Example flags_misread :
  let ps := sample_parsing (message N_INITFLAGS [FInt 0]) (quiet (sample_server 0 [good; evil])) in
  eval (parse_buffer 0 0) ps = Some true /\ clients (ps_server (exec (parse_buffer 0 0) ps)) = [1%nat] /\
  let ctf := sample_parsing (message N_INITFLAGS [FInt 0])
               (quiet (sample_server 11 [good; evil]) <| sv_game ::= {{ smode := Some ctfmode }} |>) in
  eval (parse_buffer 0 0) ctf = Some false.
Proof. vm_compute. done. Qed.
(** A packet that is cut is noticed after it has been acted upon. *)
Example cut_packet :
  clients (exec (process_packet 0 1 (mkpacket false true [msg_code N_CLIENTPING])) (quiet (sample_server 0 [good; evil])))
  = [1%nat].
Proof. vm_compute. done. Qed.
