(* ===== verification/Service.v ===== *)
(** The event loop (engine/server.cpp [serverhost_process_event], [serverhost_service],
    [serverhost_receive], [update_server], [main_io_service]).

    What ENet answers is a list: one entry for each call of [enet_host_service], until
    nothing more waits.  The peer of an event carries a pointer to its client, cleared by
    [delclient]: an event for slot [n] finds a client when the slot holds a peer.  A client
    that connects has the whole server updated before it is introduced, and that update
    serves the network again: the loop is inside itself. *)
From S2P Require Import Prelude Wire Text Game State Ents Engine Worldstate Clients Match Api Packet.

#[local] Open Scope list_scope.

Inductive enet_event :=
| Connected (host rtt : Z)
| Received (n chan : Z) (pk : packet)
| Disconnected (n : Z).
(** The answer 1 with an event, 0, and -1. *)
Inductive enet_result := Happened (e : enet_event) | Idle | Failed.
(** What becomes of a turn of the loop: its answer, a null pointer that is followed, or
    the fuel of the model has run out. *)
Inductive outcome := Served (ok : bool) | Crashed | OutOfFuel.

(** The clocks of the machine, by the number of times they have been looked at. *)
Class Clocks := { ms_clock : nat -> Z; enet_clock : nat -> Z }.

(** [hs_handled] is no part of the program: it notes the events whose handler was entered. *)
Record hosting := mkhosting {
  hs_server : server; hs_results : list enet_result; hs_reads : nat; hs_timeerr : Z; hs_listening : bool;
  hs_handled : list enet_event
}.
#[export] Instance eta_hosting : Eta hosting :=
  settable mkhosting <hs_server; hs_results; hs_reads; hs_timeerr; hs_listening; hs_handled>.

Definition ongame {A} (m : M server A) : M hosting A := fun h =>
  let '(a, s) := m (hs_server h) in (a, h <| hs_server := s |>).
Definition game_now : M hosting server := gets hs_server.
Definition enet_host_service : M hosting enet_result := fun h =>
  match hs_results h with
  | r :: rs => (r, h <| hs_results := rs |>)
  | [] => (Idle, h)
  end.

Section service.
Context {hooks : Hooks} {files : Files} {host : Host} {libm : Libm} {clocks : Clocks}.

Definition read_clocks : M hosting Z := fun h =>
  let n := hs_reads h in
  (ms_clock n, h <| hs_reads := S n |>
                 <| hs_server ::= {{ sv_clock ::= fun c => c <| getmilliseconds := ms_clock n |> <| enet_time := enet_clock n |> }} |>).
Definition update_time : M hosting unit :=
  millis <- read_clocks ;;
  err <- gets hs_timeerr ;;
  err <- ongame (Match.update_time millis err) ;;
  modify {{ hs_timeerr := err }}.
(** [service] is [serverhost_service]. *)
Definition update_server (service : M hosting outcome) : M hosting outcome :=
  update_time ;; ongame serverupdate ;; service.

(** [c.peer] is null when the client has gone while the server was updated. *)
Definition introduce (n : Z) : M hosting outcome :=
  s <- game_now ;;
  if negb (is_remote n s) then ret Crashed else
  ongame (reason <- clientconnect n ;; when (negb (reason =? 0)) (disconnect_client n reason)) ;;
  ret (Served true).
Definition peer_connected (service : M hosting outcome) (host rtt : Z) : M hosting outcome :=
  n <- ongame (addclient ST_TCPIP) ;;
  ongame (set_roster {{ slots ::= zalter (fun sl => sl <| sl_host := host |> <| sl_rtt := rtt |>) n }}) ;;
  o <- update_server service ;;
  match o with Served _ => introduce n | _ => ret o end.
Definition peer_received (n chan : Z) (pk : packet) : M server unit :=
  s <- get_server ;; when (is_remote n s) (process_packet n chan pk).
Definition peer_disconnected (n : Z) : M server unit :=
  s <- get_server ;; when (is_remote n s) (clientdisconnect n DISC_NONE ;; delclient n).
Definition note (e : enet_event) : M hosting unit := modify {{ hs_handled ::= fun es => es ++ [e] }}.
Definition serverhost_process_event (service : M hosting outcome) (e : enet_event) : M hosting outcome :=
  note e ;;
  match e with
  | Connected host rtt => peer_connected service host rtt
  | Received n chan pk => ongame (peer_received n chan pk) ;; ret (Served true)
  | Disconnected n => ongame (peer_disconnected n) ;; ret (Served true)
  end.

(** The answers that are left bound the loop and the loops inside it (Theorem [service_ends]). *)
Fixpoint serverhost_service (fuel : nat) : M hosting outcome :=
  match fuel with
  | O => ret OutOfFuel
  | S fuel =>
    r <- enet_host_service ;;
    match r with
    | Failed => ret (Served false)
    | Idle => read_clocks ;; ongame (run_sendpackets false) ;; ret (Served true)
    | Happened e =>
      o <- serverhost_process_event (serverhost_service fuel) e ;;
      match o with Served _ => serverhost_service fuel | _ => ret o end
    end
  end.
Definition service_fuel (h : hosting) : nat := S (length (hs_results h)).
Definition serve_network : M hosting outcome := n <- gets service_fuel ;; serverhost_service n.

(** The socket of the host is not listened to again after a failure. *)
Definition serverhost_receive : M hosting outcome :=
  listening <- gets hs_listening ;;
  if negb listening then ret (Served false) else
  o <- serve_network ;;
  match o with
  | Served ok => modify {{ hs_listening := ok }} ;; ret o
  | _ => ret o
  end.
(** What wakes the program: its timer, its socket, what the scripts have put off. *)
Inductive wakeup := Timer | Socket | Tasks.
Definition callback (w : wakeup) : M hosting outcome :=
  match w with
  | Timer => update_server serve_network
  | Socket => serverhost_receive
  | Tasks => ongame run_tasks ;; ret (Served true)
  end.
(** Whether the program is still there when nothing wakes it any more. *)
Fixpoint main_io_service (ws : list wakeup) : M hosting bool :=
  match ws with
  | [] => ret true
  | w :: ws =>
    o <- callback w ;;
    match o with Served _ => main_io_service ws | _ => ret false end
  end.
End service.

(** * The loop ends *)

(** The answers [took] are consumed, and their events are handled in their order. *)
Definition happened (r : enet_result) : option enet_event :=
  match r with Happened e => Some e | _ => None end.
Definition accounts (took : list enet_result) (h h' : hosting) : Prop :=
  hs_results h = took ++ hs_results h' /\ hs_handled h' = hs_handled h ++ omap happened took.
(** What a turn leaves behind: it served until nothing more waited, or until a failure. *)
Definition closed (o : outcome) (took : list enet_result) (h' : hosting) : Prop :=
  match o with
  | Served true => hs_results h' = [] \/ last took = Some Idle
  | Served false => last took = Some Failed
  | Crashed => True
  | OutOfFuel => False
  end.

Definition kept (h h' : hosting) : Prop := hs_results h' = hs_results h /\ hs_handled h' = hs_handled h.
#[export] Instance kept_preorder : PreOrder kept.
Proof. split; unfold kept; repeat intro; intuition congruence. Qed.
Lemma kept_ongame {A} (m : M server A) : respects kept (ongame m).
Proof. intros h. unfold exec, ongame, kept. by destruct (m (hs_server h)). Qed.
Lemma kept_modify f : (forall h, kept h (f h)) -> respects kept (modify f).
Proof. intros Hf h. apply Hf. Qed.
#[export] Hint Resolve kept_ongame : respects.
#[export] Hint Extern 1 (respects kept (modify _)) => by apply kept_modify : respects.
Lemma accounts_kept h h' : kept h h' -> accounts [] h h'.
Proof. intros [H1 H2]. split; [by rw H1|by rw H2 app_nil_r]. Qed.
Lemma accounts_trans t1 t2 h1 h2 h3 : accounts t1 h1 h2 -> accounts t2 h2 h3 -> accounts (t1 ++ t2) h1 h3.
Proof.
  intros [H1 H2] [H3 H4]. split; [by rw H1 H3 app_assoc|]. by rw H4 H2 omap_app app_assoc.
Qed.
Lemma accounts_fewer took h h' : accounts took h h' -> (length (hs_results h') <= length (hs_results h))%nat.
Proof. intros [-> _]. rw length_app. lia. Qed.
Lemma closed_after o t1 t2 h' : closed o t2 h' -> closed o (t1 ++ t2) h'.
Proof.
  assert (forall r, last t2 = Some r -> last (t1 ++ t2) = Some r) as Hl by (intros r E; by rw last_app E).
  destruct o as [[]| |]; cbn; [|by auto..]. intros [?|?]; auto.
Qed.

Section ends.
Context {hooks : Hooks} {files : Files} {host : Host} {libm : Libm} {clocks : Clocks}.

Lemma kept_clocks : respects kept read_clocks.
Proof. intros h. by unfold exec, read_clocks, kept. Qed.
#[local] Hint Resolve kept_clocks : respects.
Lemma kept_update_time : respects kept update_time.
Proof. unfold update_time. solve_respects. Qed.
#[local] Hint Resolve kept_update_time : respects.
(** A run that accounts for what it takes and whose outcome is as [Q] says. *)
Definition runs (Q : outcome -> list enet_result -> hosting -> Prop) (m : M hosting outcome) (h : hosting) : Prop :=
  exists took, accounts took h (exec m h) /\ Q (eval m h) took (exec m h).
Definition ended (o : outcome) (took : list enet_result) (h' : hosting) : Prop := o <> OutOfFuel.
Lemma closed_ended m h : runs closed m h -> runs ended m h.
Proof. intros (took & Ha & Hc). exists took. split; [done|]. intros E. by rw E in Hc. Qed.
Lemma runs_kept {A} Q (m : M hosting A) (k : A -> M hosting outcome) h :
  respects kept m -> (forall a h', kept h h' -> runs Q (k a) h') -> runs Q (bind m k) h.
Proof.
  intros Hm Hk. unfold runs. rewrite -> eval_bind, exec_bind.
  destruct (Hk (eval m h) (exec m h) (Hm h)) as (took & H1 & H2). exists took. split; [|done].
  rw -(app_nil_l took). eapply accounts_trans; [|done]. apply accounts_kept, Hm.
Qed.
Lemma ended_served b h : runs ended (ret (Served b)) h.
Proof. exists []. split; [by apply accounts_kept|done]. Qed.
(** An outcome is passed on, or a run follows. *)
Lemma runs_then Q m k h :
  (forall o took h', ended o took h' -> (forall b, o <> Served b) -> Q o took h') ->
  (forall o t1 t2 h', Q o t2 h' -> Q o (t1 ++ t2) h') ->
  runs ended m h -> (forall took h', accounts took h h' -> runs Q k h') ->
  runs Q (o <- m ;; match o with Served _ => k | o => ret o end) h.
Proof.
  intros Hstop Happ (t1 & Ha & Hm) Hk. unfold runs. rewrite -> eval_bind, exec_bind.
  destruct (eval m h) as [b| |] eqn:E; [|by exists t1; split; [|apply Hstop]..].
  destruct (Hk _ _ Ha) as (t2 & H1 & H2). exists (t1 ++ t2). split; [by eapply accounts_trans|by apply Happ].
Qed.
Lemma introduce_ends n h : runs ended (introduce n) h.
Proof.
  apply runs_kept; [solve_respects|]. intros s h1 H1.
  destruct (negb _); [by exists []; split; [apply accounts_kept|]|].
  apply runs_kept; [solve_respects|]. intros _ h2 H2. apply ended_served.
Qed.
(** The handler of an event, from where it is noted. *)
Lemma event_ends m e h :
  (forall took h', accounts took (exec (note e) h) h' -> runs ended m h') ->
  exists took, accounts took (exec (note e) h) (exec (serverhost_process_event m e) h) /\
    eval (serverhost_process_event m e) h <> OutOfFuel.
Proof.
  intros Hm. unfold serverhost_process_event. rewrite -> exec_bind, eval_bind.
  set (h0 := exec (note e) h) in *. clearbody h0. destruct e as [host' rtt|n chan pk|n];
    [|apply (runs_kept ended); [solve_respects|intros; apply ended_served]..].
  apply (runs_kept ended); [solve_respects|]. intros n h1 H1.
  apply runs_kept; [solve_respects|]. intros _ h2 H2.
  apply runs_then; [done|done| |intros; apply introduce_ends].
  apply runs_kept; [solve_respects|]. intros _ h3 H3.
  apply runs_kept; [solve_respects|]. intros _ h4 H4.
  apply (Hm []). apply accounts_kept. by do 3 (etransitivity; [eassumption|]).
Qed.
(** An answer is taken from the list; there is none when the list is empty. *)
Lemma service_answer h :
  let r := eval enet_host_service h in let h1 := exec enet_host_service h in
  (hs_results h = [] /\ r = Idle /\ h1 = h) \/
  (hs_results h = r :: hs_results h1 /\ hs_handled h1 = hs_handled h).
Proof.
  unfold eval, exec, enet_host_service. destruct (hs_results h) as [|r rs] eqn:E; cbn; [by left|by right].
Qed.
Lemma idle_keeps h : kept h (exec (read_clocks ;; ongame (run_sendpackets false) ;; ret (Served true)) h).
Proof. revert h. change (respects kept (read_clocks ;; ongame (run_sendpackets false) ;; ret (Served true))). solve_respects. Qed.
Lemma idle_served h : eval (read_clocks ;; ongame (run_sendpackets false) ;; ret (Served true)) h = Served true.
Proof. by rewrite -> !eval_bind. Qed.
Lemma serverhost_service_closes fuel : forall h,
  (length (hs_results h) < fuel)%nat -> runs closed (serverhost_service fuel) h.
Proof.
  induction fuel as [|fuel IH]; intros h Hf; [lia|]. cbn [serverhost_service]. unfold runs.
  rewrite -> exec_bind, eval_bind. pose proof (service_answer h) as Ha. cbv zeta in Ha.
  set (r := eval enet_host_service h) in *. set (h1 := exec enet_host_service h) in *. clearbody r h1.
  destruct Ha as [(E&->&->)|(E&Eh)].
  { exists []. rw idle_served. pose proof (idle_keeps h) as Hk. split; [by apply accounts_kept|].
    left. by rw (proj1 Hk). }
  destruct r as [e| |].
  2: { exists [Idle]. rw idle_served. destruct (idle_keeps h1) as [H1 H2]. split; [|by right].
       split; [by rw H1|by rw H2 Eh app_nil_r]. }
  2: { exists [Failed]. split; [by split; [|rw Eh app_nil_r]|done]. }
  assert (forall took h0 h', hs_results h0 = hs_results h1 -> accounts took h0 h' ->
    runs closed (serverhost_service fuel) h') as Hs.
  { intros took h0 h' E0 H'%accounts_fewer. apply IH. rewrite -> E0 in H'. rewrite -> E in Hf. cbn in Hf. lia. }
  destruct (event_ends (serverhost_service fuel) e h1) as (t1 & H1 & Ho).
  { intros took h' H'. apply closed_ended. exact (Hs took (exec (note e) h1) h' eq_refl H'). }
  assert (accounts (Happened e :: t1) h (exec (serverhost_process_event (serverhost_service fuel) e) h1)) as Ht.
  { destruct H1 as [H1 H2]. split; [rw E; cbn [app]; f_equal; exact H1|]. rw H2 -Eh. cbn. by rw -app_assoc. }
  rewrite -> exec_bind, eval_bind.
  destruct (eval (serverhost_process_event _ e) h1) as [b| |]; [|by exists (Happened e :: t1)|done].
  destruct (Hs t1 (exec (note e) h1) _ eq_refl H1) as (t2 & H2 & H3). exists ((Happened e :: t1) ++ t2).
  split; [by eapply accounts_trans|by apply closed_after].
Qed.

(** ** A batch in which nobody connects *)
Definition quiet (e : enet_event) : Prop := match e with Connected _ _ => False | _ => True end.
Lemma quiet_event m m' e : quiet e -> serverhost_process_event m e = serverhost_process_event m' e.
Proof. by destruct e. Qed.
Lemma quiet_served m e h : quiet e -> eval (serverhost_process_event m e) h = Served true.
Proof. unfold serverhost_process_event. rewrite -> eval_bind. destruct e; [done|by rewrite -> eval_bind..]. Qed.
Lemma ongame_queue {A} (m : M server A) rs h :
  exec (ongame m) (h <| hs_results := rs |>) = exec (ongame m) h <| hs_results := rs |>.
Proof. unfold exec, ongame. cbn. by destruct (m (hs_server h)). Qed.
(** The queue of answers does not matter to what handles a quiet event. *)
Lemma quiet_queue m e rs h : quiet e ->
  exec (serverhost_process_event m e) (h <| hs_results := rs |>) =
  exec (serverhost_process_event m e) h <| hs_results := rs |>.
Proof.
  intros He. unfold serverhost_process_event. rewrite -> !exec_bind.
  change (exec (note e) (h <| hs_results := rs |>)) with (exec (note e) h <| hs_results := rs |>).
  generalize (exec (note e) h). intros h0. destruct e; [done| |]; rewrite -> !exec_bind; apply ongame_queue.
Qed.
(** One event after another, and what is to be sent is sent once. *)
Definition one_by_one (es : list enet_event) : M hosting unit :=
  forM es (fun e => serverhost_process_event (ret (Served true)) e ;; ret tt) ;;
  read_clocks ;; ongame (run_sendpackets false) ;; ret tt.
Lemma service_one_by_one fuel es : forall h,
  hs_results h = map Happened es -> Forall quiet es -> (length es < fuel)%nat ->
  exec (serverhost_service fuel) h = exec (one_by_one es) (h <| hs_results := [] |>).
Proof.
  revert es. induction fuel as [|fuel IH]; intros es h E Hq Hf; [lia|]. cbn [serverhost_service].
  rewrite -> exec_bind. unfold eval at 1, exec at 2, enet_host_service. rw E.
  destruct Hq as [|e es He Hq]; cbn [map fst snd].
  { unfold one_by_one. cbn [forM]. rewrite -> !exec_bind. cbn. do 2 f_equal. by destruct h; cbn in *; subst. }
  rewrite -> exec_bind, quiet_served by done. rewrite -> quiet_queue by done.
  rewrite -> (IH es); [|done|done|cbn in Hf; lia].
  unfold one_by_one. cbn [forM]. rewrite -> !exec_bind, (quiet_queue _ _ [] h He).
  by rewrite -> (quiet_event _ (ret (Served true)) e He).
Qed.

(** C2: serving the network comes to an end, and every event is handled once, in its turn.
    Whatever peers connect, send and disconnect, and although every connection serves the
    network again from within, the answers of ENet that a turn consumes are a beginning of
    those that wait, and the events handled are the events among them, each once and in
    their order; the turn stops when nothing more waits (answering true) or at a failure
    (answering false), unless a client that is not there any more has stopped the program.
    When nobody connects, the server is left as by handling one event after another and
    then sending once what is to be sent. *)
Theorem service_ends h :
  let o := eval serve_network h in let h' := exec serve_network h in
  (exists took, hs_results h = took ++ hs_results h' /\
    hs_handled h' = hs_handled h ++ omap happened took /\
    match o with
    | Served true => hs_results h' = [] \/ last took = Some Idle
    | Served false => last took = Some Failed
    | Crashed => True
    | OutOfFuel => False
    end) /\
  (forall es, hs_results h = map Happened es -> Forall quiet es ->
    h' = exec (one_by_one es) (h <| hs_results := [] |>)).
Proof.
  split.
  - destruct (serverhost_service_closes (service_fuel h) h) as (took & [H1 H2] & H3); [unfold service_fuel; lia|].
    by exists took.
  - intros es E Hq. apply service_one_by_one; [done|done|]. unfold service_fuel. rw E length_map. lia.
Qed.
End ends.

(** * A connection in company *)
#[local] Existing Instances no_hooks no_files no_host flat_libm.
Definition no_clocks : Clocks := {| ms_clock := fun n => Z.of_nat n; enet_clock := fun n => Z.of_nat n |}.
#[local] Existing Instance no_clocks.
Definition hosting_of (s : server) (rs : list enet_result) : hosting := mkhosting s rs 0 0 true [].
Definition arrives (s : server) (es : list enet_event) : outcome * hosting := serve_network (hosting_of s (map Happened es)).

(** A client leaves, and another one that is gone already sends something. *)
Definition leaving : list enet_event := [Disconnected 1; Received 1 1 (packet_of [])].
Lemma service_ends_witness :
  let h := hosting_of (sample_server 0 [good; evil]) (map Happened leaving) in
  exec serve_network h = exec (one_by_one leaving) (h <| hs_results := [] |>) /\
  clients (hs_server (exec serve_network h)) = [0%nat].
Proof. split; [apply (proj2 (service_ends _) leaving); [done|by repeat constructor]|vm_compute; done]. Defined.

(** A client that connects and is alone in its batch is introduced. *)
Example connects_alone :
  let '(o, h) := arrives (sample_server 0 [good]) [Connected 16777343 30] in
  o = Served true /\ connects (hs_server h) = [1%nat] /\ connectmillis (deref 1 (hs_server h)) = 0.
Proof. vm_compute. done. Qed.
(** One that is gone again in the same batch takes the server with it: [c.peer] is null
    when its address is asked for. *)
Example connects_and_leaves :
  (arrives (sample_server 0 [good]) [Connected 16777343 30; Disconnected 1]).1 = Crashed.
Proof. vm_compute. done. Qed.
(** So does one that sends a packet the server refuses before it is introduced. *)
Example connects_and_misbehaves :
  (arrives (sample_server 0 [good]) [Connected 16777343 30; Received 1 1 (packet_of (message N_TEXT [FStr []]))]).1 = Crashed.
Proof. vm_compute. done. Qed.
(** Of two clients that connect together the second is introduced first. *)
Example connects_together :
  connects (hs_server (arrives (sample_server 0 [good]) [Connected 16777343 30; Connected 16777344 30]).2) = [2%nat; 1%nat].
Proof. vm_compute. done. Qed.
(** One that sends its introduction at once joins before the server has made its
    acquaintance; it is then entered among those still connecting, and when it leaves the
    pointer stays there. *)
Definition greeting : packet :=
  packet_of (message N_CONNECT [FStr (cstr "me"); FInt 0; FStr []; FStr []; FStr []]).
Definition joined_early : hosting :=
  (arrives (sample_server 0 [good]) [Connected 16777343 30; Received 1 1 greeting]).2.
Example connects_twice :
  clients (hs_server joined_early) = [0%nat; 1%nat] /\ connects (hs_server joined_early) = [1%nat].
Proof. vm_compute. done. Qed.
Example connects_dangles :
  let s := hs_server (arrives (hs_server joined_early) [Disconnected 1]).2 in
  connects s = [1%nat] /\ ci_heap s !! 1%nat = None.
Proof. vm_compute. done. Qed.
