(* ===== verification/Access.v ===== *)
(** Who holds a privilege, and how it was come by (the whole server).

    The relation [no_usurper] between two states of the server: every client has the
    privilege it had, none, or that of a master, the last only if somebody had a privilege
    before.  It is shown to be respected by everything the server does on its own: every
    message of a client (fpsgame/server.cpp [parsepacket]), the update of the match
    ([serverupdate]), clients coming and going, and the event loop around them
    (engine/server.cpp [main_io_service]).  What grants privileges is the scripts. *)
From S2P Require Import Prelude Wire Text Float32 Game Random State Ents Engine Intermission Servmode Roster Items Cheat Combat Events Anticheat Worldstate Welcome Ai Demo Clients Match Api Filter Packet Service.
From S2P Require Ctf Capture Collect.
#[local] Open Scope list_scope.

Definition standing (c : clientinfo) : Z * bool := (privilege c, local c).
Definition standings (s : server) : gmap nat (Z * bool) := standing <$> ci_heap s.
Definition powerful (c : clientinfo) : Prop := privilege c <> PRIV_NONE \/ local c = true.
Definition powered (s : server) : Prop := exists i, powerful (deref i s).
Record no_usurper_at (i : nat) (s s' : server) : Prop := {
  nu_local : local (deref i s') = true -> local (deref i s) = true;
  nu_privilege : privilege (deref i s') = privilege (deref i s) \/ privilege (deref i s') = PRIV_NONE \/
                 (privilege (deref i s') = PRIV_MASTER /\ powered s)
}.
Definition no_usurper (s s' : server) : Prop := forall i, no_usurper_at i s s'.

Lemma no_usurper_powered s s' : no_usurper s s' -> powered s' -> powered s.
Proof.
  intros H [i Hi]. destruct (H i) as [Hl Hp]. destruct Hi as [Hi|Hi].
  - destruct Hp as [E|[E|[_ ?]]]; [|done|done]. exists i. left. congruence.
  - exists i. right. auto.
Qed.
#[export] Instance no_usurper_preorder : PreOrder no_usurper.
Proof.
  split; [intros s i; split; auto|]. intros s1 s2 s3 H12 H23 i. destruct (H12 i) as [L1 P1], (H23 i) as [L2 P2].
  split; [auto|]. destruct P2 as [E|[E|[E Hp]]]; [|auto|].
  - rw E. exact P1.
  - right. right. split; [done|]. by apply (no_usurper_powered s1 s2).
Qed.
Lemma deref_standing i s : standing (deref i s) = default (PRIV_NONE, false) (standings s !! i).
Proof. unfold deref, standings. rw lookup_fmap. by destruct (ci_heap s !! i). Qed.
#[export] Instance no_usurper_framed : FramedBy no_usurper standings.
Proof.
  intros s s' E i. assert (standing (deref i s) = standing (deref i s')) as [= E1 E2] by (rw !deref_standing E //).
  split; [congruence|auto].
Qed.
#[export] Instance standings_mode : ModeFrame standings.
Proof.
  split; [apply _|intros; reflexivity..|]. intros s ci f Hf. unfold standings. simpl. apply fmap_alter_id.
  intros c. specialize (Hf c). unfold standing. injection Hf. congruence.
Qed.
(** Clients whose standing is kept, and clients that are left without privilege. *)
Definition outcast : Z * bool := (PRIV_NONE, false).
Lemma lowered (s s' : server) :
  (forall i, standings s' !! i = standings s !! i \/
     (default outcast (standings s' !! i)).1 = PRIV_NONE /\
     ((default outcast (standings s' !! i)).2 = true -> (default outcast (standings s !! i)).2 = true)) ->
  no_usurper s s'.
Proof.
  intros H i. pose proof (deref_standing i s) as E. pose proof (deref_standing i s') as E'.
  change (PRIV_NONE, false) with outcast in E, E'. destruct (H i) as [Hi|[Hp Hl]].
  - rw Hi -E in E'. injection E' as E1 E2. split; [congruence|auto].
  - rw -E -E' in Hl. rw -E' in Hp. split; [exact Hl|auto].
Qed.

Section access.
Context {hooks : Hooks} {files : Files} {host : Host} {libm : Libm}.
#[local] Abbreviation R := no_usurper.
Context `{Hh : !HooksRespect R}.

Lemma keep_ci i f : (forall c, standing (f c) = standing c) -> respects R (upd_ci i f).
Proof. intros Hf. apply (respects_frame _ standings). intros s. unfold standings. simpl. by apply fmap_alter_id. Qed.
Lemma demote_ci i f : (forall c, standing (f c) = (PRIV_NONE, local c)) -> respects R (upd_ci i f).
Proof.
  intros Hf s. apply lowered. intros j. unfold standings. simpl. rw !lookup_fmap.
  destruct (decide (i = j)) as [<-|Hne]; [right|left; by rewrite -> lookup_alter_ne by done].
  rw lookup_alter_eq. destruct (ci_heap s !! i) as [c|]; simpl; [|done]. by injection (Hf c) as -> ->.
Qed.
Lemma newborn f j :
  (forall r, ci_heap (f r) = <[j := clientinfo0]> (ci_heap r) \/ ci_heap (f r) = delete j (ci_heap r) \/ ci_heap (f r) = ci_heap r) ->
  respects R (set_roster f).
Proof.
  intros Hf s. apply lowered. intros i. unfold standings. simpl. rw !lookup_fmap.
  destruct (decide (i = j)) as [->|Hne]; destruct (Hf (sv_roster s)) as [E|[E|E]]; rw E; auto.
  - right. by rw lookup_insert_eq.
  - right. by rw lookup_delete_eq.
  - left. by rewrite -> lookup_insert_ne by done.
  - left. by rewrite -> lookup_delete_ne by done.
Qed.
End access.

(** [harmless] proves that a handler keeps everybody's standing: it opens calls until only
    updates that do not touch it are left. *)
Ltac harmless_step :=
  first [ respects_step
        | lazymatch goal with
          | |- respects _ (with_smode _) => apply respects_with_smode; [apply _|intros ?]
          | |- respects _ (set_roster _) =>
            first [ frame | eapply newborn; intros; cbn; first [left; reflexivity | right; left; reflexivity] ]
          | |- respects _ (sm_entergame _ _) => apply mr_entergame
          | |- respects _ (sm_leavegame _ _ _) => apply mr_leavegame
          | |- respects _ (sm_moved _ _ _ _ _ _) => apply mr_moved
          | |- respects _ (sm_spawned _ _) => apply mr_spawned
          | |- respects _ (sm_died _ _ _) => apply mr_died
          | |- respects _ (sm_changeteam _ _ _ _) => apply mr_changeteam
          | |- respects _ (sm_update _) => apply mr_update
          | |- respects _ (sm_cleanup _) => apply mr_cleanup
          | |- respects _ (sm_setup _) => apply mr_setup
          | |- respects _ (sm_newmap _) => apply mr_newmap
          end
        | progress eauto with respects
        | lazymatch goal with |- respects _ ?m => open_call m; cbv beta zeta end ].
Ltac harmless := repeat harmless_step.
#[export] Hint Extern 1 (respects no_usurper (upd_ci _ _)) => first [by apply keep_ci | by apply demote_ci] : respects.
#[export] Hint Extern 1 (respects no_usurper (upd_gs _ _)) => by apply keep_ci : respects.

Section handlers.
Context {hooks : Hooks} {files : Files} {host : Host} {libm : Libm}.
#[local] Abbreviation R := no_usurper.
Context `{Hh : !HooksRespect R}.

(** ** The recursive handlers *)
Lemma access_team_round n a b c d : respects R (team_round n a b c d).
Proof using All. revert a b c d. induction n; intros; cbn [team_round]; harmless. Qed.
#[local] Hint Resolve access_team_round : respects.
Lemma access_team_rounds n a b c : respects R (team_rounds n a b c).
Proof using All. revert a b c. induction n; intros; cbn [team_rounds]; harmless. Qed.
Lemma access_explode_hits ci g e l : respects R (explode_hits ci g e l).
Proof using All. revert e. induction l; intros; cbn [explode_hits]; harmless. Qed.
Lemma access_shot_hits ci g n l : respects R (shot_hits ci g n l).
Proof using All. revert n. induction l; intros; cbn [shot_hits]; harmless. Qed.
#[local] Hint Resolve access_explode_hits access_shot_hits : respects.
Lemma access_flushevents_loop n ci m : respects R (flushevents_loop n ci m).
Proof using All. induction n; intros; cbn [flushevents_loop]; harmless. Qed.
#[local] Hint Resolve access_flushevents_loop access_team_rounds : respects.
Lemma access_reassign_loop n : respects R (reassign_loop n).
Proof using All. induction n; intros; cbn [reassign_loop]; harmless. Qed.
Lemma access_balance_loop n l m : respects R (balance_loop n l m).
Proof using All. revert l m. induction n; intros; cbn [balance_loop]; harmless. Qed.
Lemma access_readdemo_loop n : respects R (readdemo_loop n).
Proof using All. induction n; intros; cbn [readdemo_loop]; harmless. Qed.
#[local] Hint Resolve access_reassign_loop access_balance_loop access_readdemo_loop : respects.
Lemma access_delclient n : respects R (delclient n).
Proof using All.
  unfold delclient. harmless_step; [harmless|]. cbv zeta. harmless_step; [harmless|].
  apply (newborn _ (default O (sl_info (slot_at n a)))). intros r.
  assert (forall t d r, ci_heap (count_slot t d r) = ci_heap r) as E by (by intros []).
  rw E. cbn. destruct (sl_info (slot_at n a)); auto.
Qed.
Lemma access_addclient t : respects R (addclient t).
Proof using All.
  unfold addclient. harmless_step; [harmless|]. cbv zeta. harmless_step; [|intros; harmless].
  apply (newborn _ (next_ci a)). intros r.
  assert (forall t d r, ci_heap (count_slot t d r) = ci_heap r) as E by (by intros []).
  rw E. auto.
Qed.
#[local] Hint Resolve access_delclient access_addclient : respects.
Lemma access_timeout_loop n i : respects R (timeout_loop n i).
Proof using All. revert i. induction n; intros; cbn [timeout_loop]; harmless. Qed.
#[local] Hint Resolve access_timeout_loop : respects.
Lemma access_replenish_from ci l : respects R (Capture.replenish_from ci l).
Proof using All. induction l; intros; cbn [Capture.replenish_from]; harmless. Qed.
Lemma access_draw_spawn n k p l : respects R (Ctf.draw_spawn n k p l).
Proof using All. revert l. induction n; intros; cbn [Ctf.draw_spawn]; harmless. Qed.
#[local] Hint Resolve access_draw_spawn : respects.
Lemma access_fill_holdflags n : respects R (Ctf.fill_holdflags n).
Proof using All. induction n; intros; cbn [Ctf.fill_holdflags]; harmless. Qed.

(** ** What the others call *)
Lemma access_setspectator ci a b : respects R (setspectator ci a b).
Proof using All. harmless. Qed.
Lemma access_disconnect_client n r : respects R (disconnect_client n r).
Proof using All. harmless. Qed.
#[local] Hint Resolve access_setspectator access_disconnect_client : respects.
Lemma access_connected ci : respects R (connected_ ci).
Proof using All. harmless. Qed.
Lemma access_suicide ci : respects R (suicide ci).
Proof using All. harmless. Qed.
Lemma access_changemap f m n : respects R (changemap f m n).
Proof using All. harmless. Qed.
Lemma access_run_sendpackets b : respects R (run_sendpackets b).
Proof using All. harmless. Qed.
#[local] Hint Resolve access_connected access_suicide access_changemap access_run_sendpackets : respects.
Lemma access_checktype t c q p : respects R (checktype t c q p).
Proof using All. harmless. Qed.
Lemma access_player_rename a b c : respects R (player_rename a b c).
Proof using All. harmless. Qed.
Lemma access_clientconnect n : respects R (clientconnect n).
Proof using All. harmless. Qed.
Lemma access_serverupdate : respects R serverupdate.
Proof using All. harmless. Qed.
Lemma access_clientdisconnect n r : respects R (clientdisconnect n r).
Proof using All. harmless. Qed.
Lemma access_allowconnect n r : respects R (allowconnect n r).
Proof using All. harmless. Qed.
Lemma access_receivefile n d : respects R (receivefile n d).
Proof using All. harmless. Qed.
Lemma access_run_tasks : respects R run_tasks.
Proof using All. harmless. Qed.
End handlers.

(** * Packets *)

(** The server inside a packet that is parsed. *)
Definition inside (R : relation server) : relation parsing := fun ps ps' => R (ps_server ps) (ps_server ps').
#[export] Instance inside_preorder (R : relation server) `{!PreOrder R} : PreOrder (inside R).
Proof. split; unfold inside; [intros ps; reflexivity|]. intros p q r Hpq Hqr. exact (transitivity Hpq Hqr). Qed.
Lemma inside_onserver {A} R (m : M server A) : respects R m -> respects (inside R) (onserver m).
Proof.
  intros Hm ps. unfold exec, onserver, inside. specialize (Hm (ps_server ps)). unfold exec in Hm.
  by destruct (m (ps_server ps)).
Qed.
Lemma inside_onpacket {A} (R : relation server) `{!PreOrder R} (m : M ucharbuf A) : respects (inside R) (onpacket m).
Proof. intros ps. unfold exec, onpacket, inside. destruct (m (ps_p ps)). reflexivity. Qed.
Lemma inside_modify (R : relation server) `{!PreOrder R} f :
  (forall ps, ps_server (f ps) = ps_server ps) -> respects (inside R) (modify f).
Proof. intros Hf ps. unfold inside. cbn. rw Hf. reflexivity. Qed.

Section packets.
Context {hooks : Hooks} {files : Files} {host : Host} {libm : Libm}.
#[local] Abbreviation R := no_usurper.
Context `{Hh : !HooksRespect R}.
Variables (sender : Z) (ci : nat).
#[local] Hint Resolve access_setspectator access_disconnect_client access_connected access_suicide access_changemap
  access_run_sendpackets access_checktype access_player_rename access_allowconnect access_flushevents_loop access_replenish_from
  access_draw_spawn access_fill_holdflags : respects.

Ltac parsing_step :=
  first [ respects_step
        | lazymatch goal with
          | |- respects (inside _) (onserver _) => apply inside_onserver
          | |- respects (inside _) (onpacket _) => apply inside_onpacket; apply _
          | |- respects (inside _) (modify _) => apply inside_modify; [apply _|done]
          | |- respects no_usurper _ => solve [harmless]
          end
        | progress eauto with respects
        | lazymatch goal with |- respects (inside _) ?m => open_call m; cbv beta zeta end ].
Ltac parsing := repeat parsing_step.
Lemma inside_at {A} (m : M server A) ps :
  R (ps_server ps) (exec m (ps_server ps)) -> inside R ps (exec (onserver m) ps).
Proof. unfold exec, onserver, inside. by destruct (m (ps_server ps)). Qed.
Lemma access_add_event e : respects (inside R) (add_event e).
Proof using All.
  unfold add_event. parsing. apply keep_ci. intros c. unfold addevent. by case_match.
Qed.
Lemma access_event_time n : respects (inside R) (event_time n).
Proof using All.
  unfold event_time. apply respects_read. intros ps. cbn [id]. destruct (ps_cq ps) as [q|]; [|reflexivity]. cbv zeta.
  destruct (geteventmillis _ _ _) as [t c] eqn:E. apply (respects_bind_at (inside R)); [|intros _; parsing].
  apply inside_at, framed_by. unfold standings. simpl. symmetry. apply map_eq. intros i.
  rw !lookup_fmap. destruct (decide (q = i)) as [<-|Hne]; [|by rewrite -> lookup_alter_ne by done].
  rw lookup_alter_eq. unfold deref in E. destruct (ci_heap (ps_server ps) !! q) as [c0|]; [|done]. simpl in *.
  unfold geteventmillis in E. repeat case_match; by simplify_eq.
Qed.
(** The one way to a privilege that is not the script's: somebody who has power makes a
    master of somebody else. *)
Lemma access_set_player_master n s : powered s -> R s (exec (set_player_master n) s).
Proof using All.
  intros Hs. unfold set_player_master, set_player_privilege, get_ci.
  rewrite -> exec_bind. change (eval get_server s) with s. change (exec get_server s) with s.
  destruct (getinfo n s) as [i|]; [|reflexivity]. unfold set_privilege.
  apply (respects_bind_at R); [|intros ?; parsing].
  rewrite -> exec_bind. change (eval get_server s) with s. change (exec get_server s) with s. cbv zeta.
  destruct (_ && _); [reflexivity|]. change (PRIV_MASTER =? PRIV_NONE) with false. cbn [when].
  do 2 (rewrite -> exec_bind; cbn [eval exec ret get_server gets fst snd id]).
  apply (respects_bind_at R); [|intros ?; parsing].
  set (f := fun c : clientinfo => _). set (s' := exec (upd_ci i f) s). intros j.
  assert (deref j s' = deref j s \/ local (deref j s') = local (deref j s) /\ privilege (deref j s') = PRIV_MASTER)
    as [E|[E1 E2]]; [|split; rw E; auto|split; [by rw E1|auto]].
  unfold deref, s'. simpl. destruct (decide (i = j)) as [<-|Hne]; [|by rewrite -> lookup_alter_ne by done; left].
  rw lookup_alter_eq. destruct (ci_heap s !! i); [by right|by left].
Qed.
Lemma access_on_setmaster : respects (inside R) (on_setmaster ci).
Proof using All.
  unfold on_setmaster, int_arg, raw_text, server_now. do 3 (parsing_step; [parsing|]).
  apply respects_read. intros ps. cbv zeta. set (s := ps_server ps).
  destruct (_ =? _); [apply (respects_bind (inside R)); [|intros ?]; parsing|].
  destruct ((privilege (deref ci s) =? PRIV_NONE) && negb (local (deref ci s))) eqn:E; [reflexivity|].
  destruct (getclientinfo a s) as [mi|]; [|reflexivity]. destruct (_ || _); [reflexivity|].
  apply (respects_bind_at (inside R)); [|intros ?; parsing]. apply inside_at, access_set_player_master.
  exists ci. unfold powerful. change (ps_server ps) with s. destruct (local (deref ci s)); [auto|lia].
Qed.
#[local] Hint Resolve access_add_event access_event_time access_on_setmaster : respects.
Lemma access_parse_case m : respects (inside R) (parse_case sender ci m).
Proof using All. destruct m; cbn [parse_case]; parsing. Qed.
#[local] Hint Resolve access_parse_case : respects.
Lemma access_parse_message : respects (inside R) (parse_message sender ci).
Proof using All. parsing. Qed.
Lemma access_join_message : respects (inside R) (join_message sender ci).
Proof using All. parsing. Qed.
#[local] Hint Resolve access_parse_message access_join_message : respects.
Lemma access_parse_loop n m : respects (inside R) m -> respects (inside R) (parse_loop n m).
Proof using All. intros Hm. induction n; cbn [parse_loop]; parsing. Qed.
#[local] Hint Resolve access_parse_loop : respects.
Lemma access_parse_buffer : respects (inside R) (parse_buffer sender ci).
Proof using All. parsing. Qed.
End packets.

(** * The whole server *)

Lemma access_parsepacket {hooks : Hooks} {files : Files} {host : Host} {libm : Libm} `{!HooksRespect no_usurper}
    sender chan pk : respects no_usurper (parsepacket sender chan pk).
Proof.
  intros s. unfold parsepacket, exec. destruct (_ || _); [reflexivity|].
  destruct (getinfo sender s) as [ci|]; [|reflexivity]. destruct (_ && _); [reflexivity|].
  destruct (_ && _); [apply access_disconnect_client|].
  destruct (chan =? 2); [exact (access_receivefile sender (pk_data pk) s)|].
  cbn [snd]. match goal with |- context [mkparsing ?x _ _ _ _] => set (s1 := x) end.
  assert (no_usurper s s1) as H1.
  { unfold s1. destruct (_ && _); [|reflexivity]. apply framed_by. done. }
  etransitivity; [exact H1|].
  exact (access_parse_buffer sender ci (mkparsing s1 (packet_buf pk) (Some ci) 0 false)).
Qed.

Definition hosted (R : relation server) : relation hosting := fun h h' => R (hs_server h) (hs_server h').
#[export] Instance hosted_preorder (R : relation server) `{!PreOrder R} : PreOrder (hosted R).
Proof. split; unfold hosted; [intros h; reflexivity|]. intros g h k Hgh Hhk. exact (transitivity Hgh Hhk). Qed.
Lemma hosted_ongame {A} (R : relation server) (m : M server A) : respects R m -> respects (hosted R) (ongame m).
Proof.
  intros Hm h. unfold exec, ongame, hosted. specialize (Hm (hs_server h)). unfold exec in Hm.
  by destruct (m (hs_server h)).
Qed.
Lemma hosted_modify (R : relation server) `{!PreOrder R} f :
  (forall h, hs_server (f h) = hs_server h) -> respects (hosted R) (modify f).
Proof. intros Hf h. unfold hosted. cbn. rw Hf. reflexivity. Qed.
Lemma hosted_answer (R : relation server) `{!PreOrder R} : respects (hosted R) enet_host_service.
Proof. intros h. unfold hosted, exec, enet_host_service. destruct (hs_results h); reflexivity. Qed.

Section whole.
Context {hooks : Hooks} {files : Files} {host : Host} {libm : Libm} {clocks : Clocks}.
#[local] Abbreviation R := no_usurper.
Context `{Hh : !HooksRespect R}.

Lemma hosted_clocks : respects (hosted R) read_clocks.
Proof. intros h. unfold hosted, exec, read_clocks. by apply framed_by. Qed.
#[local] Hint Resolve access_disconnect_client access_connected access_clientconnect access_serverupdate
  access_clientdisconnect access_run_tasks access_run_sendpackets access_parsepacket access_delclient
  access_addclient hosted_clocks : respects.
Ltac hosting_step :=
  first [ respects_step
        | lazymatch goal with
          | |- respects (hosted _) (ongame _) => apply hosted_ongame
          | |- respects (hosted _) enet_host_service => apply hosted_answer; apply _
          | |- respects (hosted _) (modify _) => apply hosted_modify; [apply _|done]
          | |- respects no_usurper _ => solve [harmless]
          end
        | progress eauto with respects
        | lazymatch goal with |- respects (hosted _) ?m => open_call m; cbv beta zeta end ].
Ltac hosted_ := repeat hosting_step.

Lemma access_serverhost_service fuel : respects (hosted R) (serverhost_service fuel).
Proof using All. induction fuel; cbn [serverhost_service]; hosted_. Qed.
#[local] Hint Resolve access_serverhost_service : respects.
Lemma access_main_io_service ws : respects (hosted R) (main_io_service ws).
Proof using All. induction ws; cbn [main_io_service]; hosted_. Qed.

(** C1: privileges are not for the taking.  Whatever clients connect, whatever packets they
    send, however long the server runs, with whatever timers and disconnections in between:
    afterwards every client has the privilege it had at first, or none, or it is a master;
    and nobody has any power, or is made a master, unless somebody had power at first.  The
    listeners of the scripts are assumed to hand out nothing themselves. *)
Theorem privilege_is_granted ws h i :
  let s := hs_server h in
  let s' := hs_server (exec (main_io_service ws) h) in
  (privilege (deref i s') = privilege (deref i s) \/ privilege (deref i s') = PRIV_NONE \/
   (privilege (deref i s') = PRIV_MASTER /\ powered s)) /\
  (powerful (deref i s') -> powered s).
Proof using All.
  cbn zeta. pose proof (access_main_io_service ws h) as H. unfold hosted in H. split; [apply H|].
  intros Hi. eapply no_usurper_powered; [exact H|]. by exists i.
Qed.
End whole.

(** * At work *)
#[local] Existing Instances no_hooks no_files no_host flat_libm no_clocks.
(** A client without privilege asks for power for itself and for another; both go without. *)
Definition grabs : list enet_event :=
  [Received 0 1 (packet_of (message N_SETMASTER [FInt 0; FInt 1; FStr []]));
   Received 0 1 (packet_of (message N_SETMASTER [FInt 1; FInt 1; FStr []]))].
Definition grabbing : hosting := hosting_of (sample_server 0 [good; evil]) (map Happened grabs).
Lemma privilege_is_granted_witness :
  let s := hs_server grabbing in
  let s' := hs_server (exec (main_io_service [Socket; Timer]) grabbing) in
  (privilege (deref 1 s') = privilege (deref 1 s) \/ privilege (deref 1 s') = PRIV_NONE \/
   (privilege (deref 1 s') = PRIV_MASTER /\ powered s)) /\
  (powerful (deref 1 s') -> powered s).
Proof. exact (privilege_is_granted [Socket; Timer] grabbing 1). Defined.

(** A master may share its power.  It may not take it back: N_SETMASTER with the value 0
    for somebody else, who has no privilege, makes a master too. *)
Definition master_server : server :=
  sample_server 0 [good; evil] <| sv_roster ::= {{ ci_heap ::= alter {{ privilege := PRIV_MASTER }} 0%nat }} |>.
Definition asked (val : Z) : server :=
  exec (process_packet 0 1 (packet_of (message N_SETMASTER [FInt 1; FInt val; FStr []]))) master_server.
Example master_is_shared : privilege (deref 1 (asked 1)) = PRIV_MASTER.
Proof. vm_compute. done. Qed.
Example revoking_promotes : privilege (deref 1 (asked 0)) = PRIV_MASTER.
Proof. vm_compute. done. Qed.
