(* ===== verification/Prefix.v ===== *)
(** Networks: addresses, masks and prefixes (hopmod/net/address.cpp, address_mask.cpp,
    address_prefix.cpp) and the tree of prefixes the scripts index by address
    (hopmod/net/prefix_tree.hpp, hopmod/lua/modules/net/ipmask.cpp).

    An address is an [unsigned long] of 64 bits of which 32 are used; a mask is kept as
    the number whose top bits are set.  A node of the tree holds the bits that lead to it
    from its parent; [Null] is the null pointer. *)
From S2P Require Import Prelude Text.

#[local] Open Scope list_scope.

Definition UPPER_LIMIT : Z := 0xFFFFFFFF.

(** ** Addresses and masks *)
Definition address_shl (a n : Z) : Z := Z.land (Z.shiftl a n) UPPER_LIMIT.
Definition address_shr (a n : Z) : Z := Z.shiftr a n.
Definition first_bit (a : Z) : bool := Z.testbit a 31.
Definition address_mask (bits : Z) : Z := Z.shiftl (2 ^ bits - 1) (32 - bits).
Definition mask_bits (m : Z) : Z := zlength (filter (fun i => Z.testbit m i = true) (seqZ 0 32)).
Definition mask_shl (m n : Z) : Z := Z.land (Z.shiftl m n) UPPER_LIMIT.

(** ** Prefixes *)
Record address_prefix := mkprefix { m_addr_prefix : Z; m_mask : Z }.
Definition prefix0 : address_prefix := mkprefix 0 0.
Definition masked (p : address_prefix) (mask : Z) : address_prefix := mkprefix (Z.land (m_addr_prefix p) mask) mask.
(** The first number of bits in which two addresses differ, less one. *)
Definition common_bits (a b n : Z) : Z :=
  match find (fun i => negb (Z.land a (address_mask i) =? Z.land b (address_mask i))) (seqZ 1 n) with
  | Some i => i - 1
  | None => n
  end.
Definition common_prefix (p q : address_prefix) : address_prefix :=
  masked p (address_mask (common_bits (m_addr_prefix p) (m_addr_prefix q)
                            (Z.min (mask_bits (m_mask p)) (mask_bits (m_mask q))))).
Definition prefix_shl (p : address_prefix) (mask : Z) : address_prefix :=
  mkprefix (address_shl (m_addr_prefix p) (mask_bits mask)) (mask_shl (m_mask p) (mask_bits mask)).
(** [operator==] compares under the shorter mask. *)
Definition prefix_eqb (p q : address_prefix) : bool :=
  let mask := Z.min (m_mask q) (m_mask p) in
  Z.land (m_addr_prefix p) mask =? Z.land (m_addr_prefix q) mask.

(** ** The tree *)
Inductive ptree : Set := Null | Node (c0 c1 : ptree) (m_value : Z) (m_prefix : address_prefix).

Section tree.
(** [default_value]: the number of no entry. *)
Variable default_value : Z.

Definition empty_tree : ptree := Node Null Null default_value prefix0.
Definition child (b : bool) (t : ptree) : ptree :=
  match t with Null => Null | Node c0 c1 _ _ => if b then c1 else c0 end.
Definition set_child (b : bool) (c t : ptree) : ptree :=
  match t with Null => Null | Node c0 c1 v p => if b then Node c0 c v p else Node c c1 v p end.
Definition value_of (t : ptree) : Z := match t with Null => default_value | Node _ _ v _ => v end.

(** The node whose bits part from the new prefix is cut in two. *)
Definition split (common : address_prefix) (t : ptree) : ptree :=
  match t with
  | Null => Null
  | Node c0 c1 v p =>
    if m_mask common <? m_mask p then
      let below := prefix_shl p (m_mask common) in
      set_child (first_bit (m_addr_prefix below)) (Node c0 c1 v below) (Node Null Null default_value common)
    else Node c0 c1 v common
  end.
(** [fuel] bounds the depth: a call on a child has fewer bits left, the root aside. *)
Fixpoint insert_at (fuel : nat) (prefix_ : address_prefix) (value : Z) (t : ptree) : ptree :=
  match fuel, t with
  | O, _ | _, Null => t
  | S fuel, Node _ _ _ p =>
    let common := common_prefix p prefix_ in
    let t := split common t in
    let rest := prefix_shl prefix_ (m_mask common) in
    if m_mask rest =? 0 then
      match t with Node c0 c1 _ p => Node c0 c1 value p | Null => Null end
    else
      let b := first_bit (m_addr_prefix rest) in
      match child b t with
      | Null => set_child b (Node Null Null value rest) t
      | c => set_child b (insert_at fuel rest value c) t
      end
  end.
Definition insert (prefix_ : address_prefix) (value : Z) (t : ptree) : ptree := insert_at 34 prefix_ value t.

(** The next node with a value on the way along [prefix_], what is left of it there, and
    the way. *)
Fixpoint next_match (t : ptree) (prefix_ : address_prefix) : option (ptree * address_prefix * list bool) :=
  match t with
  | Null => None
  | Node c0 c1 _ _ =>
    let b := first_bit (m_addr_prefix prefix_) in
    let c := if b then c1 else c0 in
    match c with
    | Null => None
    | Node _ _ v p =>
      let common := common_prefix p prefix_ in
      if m_mask common =? m_mask p then
        let rest := prefix_shl prefix_ (m_mask common) in
        if negb (v =? default_value) then Some (c, rest, [b])
        else '(c, rest, way) ← next_match c rest; Some (c, rest, b :: way)
      else None
    end
  end.
(** [ipmask_table[key]]: the values found on the way, the shortest prefix first. *)
Fixpoint lookups (fuel : nat) (t : ptree) (key : address_prefix) : list Z :=
  match fuel with
  | O => []
  | S fuel =>
    match next_match t key with
    | None => []
    | Some (c, rest, _) => value_of c :: lookups fuel c rest
    end
  end.
Definition table_index (t : ptree) (key : address_prefix) : list Z := lookups 33 t key.

(** [erase]: the way to the last match, where the node goes or takes its child in. *)
Fixpoint last_match (fuel : nat) (t : ptree) (prefix_ : address_prefix) (way : list bool) : list bool :=
  match fuel with
  | O => way
  | S fuel =>
    match next_match t prefix_ with
    | None => way
    | Some (c, rest, w) => last_match fuel c rest (way ++ w)
    end
  end.
Fixpoint update_at (way : list bool) (f : ptree -> ptree) (t : ptree) : ptree :=
  match way with
  | [] => f t
  | b :: way => set_child b (update_at way f (child b t)) t
  end.
Definition erase_node (t : ptree) : ptree :=
  match t with
  | Null | Node Null Null _ _ => Null
  | Node c0 c1 _ p =>
    match (match c0 with Null => c1 | _ => c0 end) with
    | Null => Null
    | Node d0 d1 v q =>
      Node d0 d1 v (mkprefix (Z.lor (m_addr_prefix p) (address_shr (m_addr_prefix q) (mask_bits (m_mask p))))
                             (address_mask (mask_bits (m_mask p) + mask_bits (m_mask q))))
    end
  end.
Definition erase (prefix_ : address_prefix) (t : ptree) : ptree :=
  match last_match 33 t prefix_ [] with
  | [] => t
  | way => update_at way erase_node t
  end.
End tree.

(** * A prefix is the list of its bits *)

Definition abits (a k : Z) : list bool := map (fun i => Z.testbit a (31 - i)) (seqZ 0 k).
Definition pbits (p : address_prefix) : list bool := abits (m_addr_prefix p) (mask_bits (m_mask p)).
Definition valid (p : address_prefix) : Prop := exists k, 0 <= k <= 32 /\ m_mask p = address_mask k.

Lemma mask_testbit k i : 0 <= k <= 32 -> Z.testbit (address_mask k) i = (32 - k <=? i) && (i <? 32).
Proof.
  intros Hk. unfold address_mask. replace (2 ^ k - 1) with (Z.ones k) by (rewrite -> Z.ones_equiv; lia).
  destruct (Z.lt_ge_cases i 0); [rewrite -> Z.testbit_neg_r by lia; lia|].
  rewrite -> Z.shiftl_spec by lia. destruct (Z.lt_ge_cases i (32 - k)).
  - rewrite -> Z.testbit_neg_r by lia. lia.
  - rewrite -> Z.testbit_ones by lia. lia.
Qed.
Lemma mask_bits_mask k : 0 <= k <= 32 -> mask_bits (address_mask k) = k.
Proof.
  intros Hk. assert (Forall (fun k => mask_bits (address_mask k) = k) (seqZ 0 33)) as H by decide_now.
  rewrite -> list.Forall_forall in H. apply H, elem_of_seqZ. lia.
Qed.
Lemma mask_shl_mask k n : 0 <= n <= k -> k <= 32 -> mask_shl (address_mask k) n = address_mask (k - n).
Proof.
  intros Hn Hk. apply Z.bits_inj'. intros i Hi. unfold mask_shl, UPPER_LIMIT.
  rewrite -> Z.land_spec, Z.shiftl_spec, (mask_testbit (k - n)) by lia.
  change 0xFFFFFFFF with (Z.ones 32). rewrite -> Z.testbit_ones by lia.
  destruct (Z.lt_ge_cases (i - n) 0); [rewrite -> Z.testbit_neg_r by lia; lia|].
  rewrite -> mask_testbit by lia. lia.
Qed.
Lemma mask_lt j k : 0 <= j <= 32 -> 0 <= k <= 32 -> (address_mask j <? address_mask k) = (j <? k).
Proof.
  intros Hj Hk. assert (Forall (fun j => Forall (fun k => (address_mask j <? address_mask k) = (j <? k)) (seqZ 0 33))
                               (seqZ 0 33)) as H by decide_now.
  rewrite -> list.Forall_forall in H. specialize (H j). rewrite -> elem_of_seqZ, list.Forall_forall in H.
  apply H; [lia|apply elem_of_seqZ; lia].
Qed.

Lemma abits_length a k : 0 <= k -> length (abits a k) = Z.to_nat k.
Proof. intros. unfold abits. rewrite -> length_map, length_seqZ. done. Qed.
Lemma abits_lookup a k i : 0 <= i < k -> abits a k !! Z.to_nat i = Some (Z.testbit a (31 - i)).
Proof.
  intros Hi. unfold abits. rewrite -> list_lookup_fmap, lookup_seqZ_lt by lia. simpl. do 2 f_equal. lia.
Qed.
Lemma abits_app a n k : 0 <= n <= k -> abits a k = abits a n ++ map (fun i => Z.testbit a (31 - i)) (seqZ n (k - n)).
Proof.
  intros Hn. unfold abits. rewrite <- map_app. f_equal. replace k with (n + (k - n)) at 1 by lia.
  rewrite -> seqZ_app by lia. done.
Qed.
Lemma take_abits a n k : 0 <= n <= k -> take (Z.to_nat n) (abits a k) = abits a n.
Proof. intros Hn. rewrite -> (abits_app a n k Hn). apply take_app_length'. symmetry. apply abits_length. lia. Qed.
Lemma drop_abits a n k : 0 <= n <= k -> k <= 32 -> drop (Z.to_nat n) (abits a k) = abits (address_shl a n) (k - n).
Proof.
  intros Hn Hk. rewrite -> (abits_app a n k Hn), drop_app_length' by (symmetry; apply abits_length; lia).
  unfold abits. replace n with (n + 0) at 1 by lia. rewrite <- fmap_add_seqZ. rewrite -> map_map.
  apply map_ext_in. intros i Hi%list_elem_of_In%elem_of_seqZ. unfold address_shl, UPPER_LIMIT.
  rewrite -> Z.land_spec, Z.shiftl_spec by lia. change 0xFFFFFFFF with (Z.ones 32).
  rewrite -> Z.testbit_ones by lia. replace (31 - (n + i)) with (31 - i - n) by lia.
  destruct (Z.testbit a _); simpl; lia.
Qed.
Lemma masked_abits a j k : 0 <= k <= j -> j <= 32 -> abits (Z.land a (address_mask j)) k = abits a k.
Proof.
  intros Hk Hj. unfold abits. apply map_ext_in. intros i Hi%list_elem_of_In%elem_of_seqZ.
  rewrite -> Z.land_spec, mask_testbit by lia. destruct (Z.testbit a _); simpl; lia.
Qed.
Lemma mask_agree a b k : 0 <= k <= 32 ->
  Z.land a (address_mask k) = Z.land b (address_mask k) <-> abits a k = abits b k.
Proof.
  intros Hk. split; intros H.
  - rewrite <- (masked_abits a k k), <- (masked_abits b k k) by lia. by rewrite -> H.
  - apply Z.bits_inj'. intros i Hi. rewrite -> !Z.land_spec, mask_testbit by lia.
    destruct ((32 - k <=? i) && (i <? 32)) eqn:E; [|by rewrite -> !andb_false_r].
    rewrite -> !andb_true_r. assert (forall x, abits x k !! Z.to_nat (31 - i) = Some (Z.testbit x i)) as Hl.
    { intros x. rewrite -> abits_lookup by lia. do 2 f_equal. lia. }
    pose proof (Hl a) as Ha. rewrite -> H, Hl in Ha. by injection Ha.
Qed.

Lemma find_seqZ (f : Z -> bool) k : forall m,
  match find f (seqZ m (Z.of_nat k)) with
  | Some i => m <= i < m + Z.of_nat k /\ f i = true /\ forall j, m <= j < i -> f j = false
  | None => forall j, m <= j < m + Z.of_nat k -> f j = false
  end.
Proof.
  induction k as [|k IH]; intros m; [simpl; intros j Hj; lia|].
  rewrite -> (seqZ_cons m (Z.of_nat (S k))) by lia. replace (Z.pred (Z.of_nat (S k))) with (Z.of_nat k) by lia. cbn [find].
  destruct (f m) eqn:Em; [split_and!; [lia|lia|done|intros j Hj; lia]|].
  specialize (IH (Z.succ m)). destruct (find f _) as [i|].
  - destruct IH as (Hi&Hf&Hj). split_and!; [lia|lia|done|]. intros j ?. destruct (decide (j = m)) as [->|]; [done|].
    apply Hj. lia.
  - intros j ?. destruct (decide (j = m)) as [->|]; [done|]. apply IH. lia.
Qed.
Lemma abits_snoc a i : 0 <= i -> abits a (i + 1) = abits a i ++ [Z.testbit a (31 - i)].
Proof.
  intros Hi. rewrite -> (abits_app a i (i + 1)) by lia. do 2 f_equal. by replace (i + 1 - i) with 1 by lia.
Qed.
(** The common prefix is where the two lists part. *)
Lemma common_bits_spec a b n : 0 <= n <= 32 ->
  let c := common_bits a b n in
  0 <= c <= n /\ abits a c = abits b c /\ (c < n -> Z.testbit a (31 - c) <> Z.testbit b (31 - c)).
Proof.
  intros Hn. cbn zeta. unfold common_bits.
  pose proof (find_seqZ (fun i => negb (Z.land a (address_mask i) =? Z.land b (address_mask i))) (Z.to_nat n) 1) as H.
  rewrite -> Z2Nat.id in H by lia.
  assert (forall j, 0 <= j <= 32 -> negb (Z.land a (address_mask j) =? Z.land b (address_mask j)) = false <->
                    abits a j = abits b j) as Hag.
  { intros j Hj. rewrite <- (mask_agree a b j Hj). rewrite -> negb_false_iff. apply Z.eqb_eq. }
  destruct (find _ _) as [i|].
  - destruct H as (Hi&Hd&Hj).
    assert (abits a (i - 1) = abits b (i - 1)) as He.
    { destruct (decide (i = 1)) as [->|]; [done|]. apply Hag; [lia|]. apply Hj. lia. }
    split_and!; [lia|lia|done|]. intros _ Heq. assert (abits a i = abits b i) as Hi'.
    { replace i with (i - 1 + 1) by lia. rewrite -> !abits_snoc by lia. congruence. }
    apply Hag in Hi'; [congruence|lia].
  - split_and!; [lia|lia| |lia]. destruct (decide (n = 0)) as [->|]; [done|]. apply Hag; [lia|]. apply H. lia.
Qed.

Lemma valid_mask p : valid p -> 0 <= zlength (pbits p) <= 32 /\ m_mask p = address_mask (zlength (pbits p)) /\
  pbits p = abits (m_addr_prefix p) (zlength (pbits p)) /\ mask_bits (m_mask p) = zlength (pbits p).
Proof.
  intros (k&Hk&Hm). assert (zlength (pbits p) = k) as ->.
  { unfold pbits, zlength. rewrite -> Hm, mask_bits_mask, abits_length by lia. lia. }
  unfold pbits. rewrite -> Hm, mask_bits_mask by lia. split_and!; lia || done.
Qed.
Lemma pbits_prefix a k : 0 <= k <= 32 ->
  valid (mkprefix a (address_mask k)) /\ pbits (mkprefix a (address_mask k)) = abits a k.
Proof. intros Hk. split; [by exists k|]. unfold pbits. simpl. by rewrite -> mask_bits_mask by lia. Qed.
Lemma mask_ltb p q : valid p -> valid q -> (m_mask p <? m_mask q) = (zlength (pbits p) <? zlength (pbits q)).
Proof.
  intros Hp%valid_mask Hq%valid_mask. destruct Hp as (?&->&_), Hq as (?&->&_). by apply mask_lt.
Qed.
Lemma mask_eqb p q : valid p -> valid q -> (m_mask p =? m_mask q) = (zlength (pbits p) =? zlength (pbits q)).
Proof.
  intros Hp Hq. pose proof (mask_ltb p q Hp Hq). pose proof (mask_ltb q p Hq Hp). lia.
Qed.
Lemma mask_eq0 p : valid p -> (m_mask p =? 0) = bool_decide (pbits p = []).
Proof.
  intros Hp. change 0 with (m_mask prefix0). assert (valid prefix0) as H0 by (exists 0; split; [lia|reflexivity]).
  rewrite -> (mask_eqb p prefix0 Hp H0). change (zlength (pbits prefix0)) with 0. unfold zlength.
  destruct (pbits p); [done|]. case_bool_decide; [done|]. simpl. lia.
Qed.
Lemma first_bit_head p b l : valid p -> pbits p = b :: l -> first_bit (m_addr_prefix p) = b.
Proof.
  intros Hp Hb. destruct (valid_mask p Hp) as (Hl&_&He&_). assert (0 < zlength (pbits p)) by (rewrite -> Hb; unfold zlength; simpl; lia).
  pose proof (abits_lookup (m_addr_prefix p) (zlength (pbits p)) 0 ltac:(lia)) as H0. rewrite <- He, Hb in H0.
  change (Some b = Some (first_bit (m_addr_prefix p))) in H0. congruence.
Qed.
Lemma prefix_shl_spec p u l m : valid p -> pbits p = u ++ l -> m = address_mask (zlength u) ->
  valid (prefix_shl p m) /\ pbits (prefix_shl p m) = l.
Proof.
  intros Hp Hb ->. destruct (valid_mask p Hp) as (Hl&Hm&He&_).
  assert (zlength (pbits p) = zlength u + zlength l) as Hz by (rewrite -> Hb; unfold zlength; rewrite -> length_app; lia).
  assert (0 <= zlength u /\ 0 <= zlength l) by (unfold zlength; lia).
  unfold prefix_shl. rewrite -> Hm, mask_bits_mask, mask_shl_mask by lia.
  destruct (pbits_prefix (address_shl (m_addr_prefix p) (zlength u)) (zlength (pbits p) - zlength u)) as [Hv Hpb]; [lia|].
  split; [done|]. rewrite -> Hpb, <- drop_abits, <- He, Hb by lia. unfold zlength. by rewrite -> Nat2Z.id, drop_app_length.
Qed.
Definition parts (lp lq : list bool) : Prop := lp = [] \/ lq = [] \/ head lp <> head lq.
Lemma common_prefix_spec p q : valid p -> valid q ->
  let r := common_prefix p q in
  valid r /\ m_mask r = address_mask (zlength (pbits r)) /\
  exists lp lq, pbits p = pbits r ++ lp /\ pbits q = pbits r ++ lq /\ parts lp lq.
Proof.
  intros Hp Hq. cbn zeta. destruct (valid_mask p Hp) as (Hlp&_&Hep&Hmp), (valid_mask q Hq) as (Hlq&_&Heq&Hmq).
  unfold common_prefix, masked. rewrite -> Hmp, Hmq.
  set (a := m_addr_prefix p) in *. set (b := m_addr_prefix q) in *. set (n := Z.min _ _).
  destruct (common_bits_spec a b n) as (Hc&Hcab&Hd); [lia|]. set (c := common_bits a b n) in *.
  destruct (pbits_prefix (Z.land a (address_mask c)) c) as [Hv Hpb]; [lia|]. rewrite -> masked_abits in Hpb by lia.
  split; [done|]. rewrite -> Hpb. split; [unfold zlength; rewrite -> abits_length by lia; simpl; f_equal; lia|].
  eexists _, _. split; [rewrite -> Hep; apply abits_app; lia|].
  split; [rewrite -> Heq, (abits_app b c) by lia; by rewrite -> Hcab|]. unfold parts.
  destruct (decide (c < n)) as [Hlt|Hge].
  - right. right. rewrite -> !(seqZ_cons c) by lia. cbn [map head]. intros [= H]. by apply Hd.
  - assert (c = zlength (pbits p) \/ c = zlength (pbits q)) as [->| ->] by lia; [left|right; left];
      by replace (_ - _) with 0 by lia.
Qed.

(** * The tree is a table from lists of bits *)

Fixpoint strip (u l : list bool) : option (list bool) :=
  match u, l with
  | [], _ => Some l
  | b :: u, c :: l => if Bool.eqb b c then strip u l else None
  | _ :: _, [] => None
  end.
Lemma strip_app u l : strip u (u ++ l) = Some l.
Proof. induction u as [|b u IH]; simpl; [done|]. by rewrite -> eqb_reflx. Qed.
Lemma strip_Some u l r : strip u l = Some r -> l = u ++ r.
Proof.
  revert l. induction u as [|b u IH]; intros [|c l]; simpl; try congruence.
  destruct (Bool.eqb b c) eqn:E; [|done]. apply eqb_prop in E as ->. intros H. by rewrite <- (IH l H).
Qed.
Lemma strip_app_l u v l : strip (u ++ v) (u ++ l) = strip v l.
Proof. induction u as [|b u IH]; simpl; [done|]. by rewrite -> eqb_reflx. Qed.
Lemma strip_through u v l : strip (u ++ v) l = (r ← strip u l; strip v r).
Proof.
  revert l. induction u as [|b u IH]; intros [|c l]; simpl; try done. by destruct (Bool.eqb b c).
Qed.

Section table.
Variable default_value : Z.

(** The value stored for the bits [l], the bits of the node itself left out ([get]) or
    not ([below]). *)
Fixpoint get (t : ptree) (l : list bool) : Z :=
  match t with
  | Null => default_value
  | Node c0 c1 v _ =>
    match l with
    | [] => v
    | b :: _ =>
      let c := if b then c1 else c0 in
      match c with
      | Null => default_value
      | Node _ _ _ q =>
        match strip (pbits q) l with Some r => get c r | None => default_value end
      end
    end
  end.
Definition below (t : ptree) (l : list bool) : Z :=
  match t with
  | Null => default_value
  | Node _ _ _ q => match strip (pbits q) l with Some r => get t r | None => default_value end
  end.
Lemma get_below t l : get t l = match l with [] => value_of default_value t | b :: _ => below (child b t) l end.
Proof. by destruct t, l. Qed.

Definition tree_bits (t : ptree) : list bool := match t with Null => [] | Node _ _ _ p => pbits p end.
(** Prefixes are well-formed, and every child hangs on the side of its first bit. *)
Fixpoint tree_wf (t : ptree) : Prop :=
  match t with
  | Null => True
  | Node c0 c1 _ p =>
    valid p /\ tree_wf c0 /\ tree_wf c1 /\
    (c0 <> Null -> head (tree_bits c0) = Some false) /\ (c1 <> Null -> head (tree_bits c1) = Some true)
  end.
Lemma wf_child b t : tree_wf t -> child b t <> Null -> tree_wf (child b t) /\ head (tree_bits (child b t)) = Some b.
Proof. destruct t; [done|]. intros (?&?&?&?&?). destruct b; simpl; auto. Qed.
(** Bits that do not begin like a node are not below it. *)
Lemma below_other b c t l : head (tree_bits t) = Some b -> b <> c -> below t (c :: l) = default_value.
Proof.
  destruct t as [|c0 c1 v p]; [done|]. cbn [tree_bits below]. destruct (pbits p) as [|d u]; [done|].
  intros [= ->] Hne. simpl. by destruct b, c.
Qed.
Lemma get_set_child b c t l :
  t <> Null -> tree_wf t -> (c <> Null -> head (tree_bits c) = Some b) ->
  get (set_child b c t) l =
  match l with [] => value_of default_value t | d :: _ => if Bool.eqb d b then below c l else below (child d t) l end.
Proof.
  intros Ht Hwf Hc. rewrite -> get_below. destruct t as [|c0 c1 v p]; [done|]. destruct l as [|d l]; [by destruct b|].
  by destruct b, d.
Qed.
Lemma wf_set_child b c t :
  tree_wf t -> tree_wf c -> (c <> Null -> head (tree_bits c) = Some b) -> tree_wf (set_child b c t).
Proof. destruct t as [|c0 c1 v p]; [done|]. intros (?&?&?&?&?) ? ?. by destruct b. Qed.

Definition node_spec (t : ptree) (bits : list bool) : Prop :=
  t <> Null /\ tree_wf t /\ tree_bits t = bits.

(** Cutting a node in two changes no entry. *)
Lemma split_spec common c0 c1 v p u (t := Node c0 c1 v p) :
  tree_wf t -> valid common -> m_mask common = address_mask (zlength (pbits common)) -> pbits p = pbits common ++ u ->
  node_spec (split default_value common t) (pbits common) /\
  forall l, below (split default_value common t) l = below t l.
Proof.
  intros (Hv&H0&H1&Hh0&Hh1) Hc Hm Hu. unfold t, split. rewrite -> mask_ltb by done.
  destruct u as [|b u].
  { rewrite -> app_nil_r in Hu. rewrite -> Hu, Z.ltb_irrefl. split; [by split_and!|].
    intros l. cbn [below]. by rewrite -> Hu. }
  replace (zlength (pbits common) <? zlength (pbits p)) with true
    by (symmetry; apply Z.ltb_lt; rewrite -> Hu; unfold zlength; rewrite -> length_app; cbn [length]; lia).
  destruct (prefix_shl_spec p (pbits common) (b :: u) (m_mask common)) as [Hsv Hsb]; [done|done|done|].
  rewrite -> (first_bit_head _ b u) by done. set (s := Node c0 c1 v _).
  assert (tree_wf s) as Hs by done.
  assert (head (tree_bits s) = Some b) as Hsh by (unfold s; cbn [tree_bits]; by rewrite -> Hsb).
  split; [split_and!; [by destruct b|apply wf_set_child; done|by destruct b]|].
  intros l. assert (below (set_child b s (Node Null Null default_value common)) l =
    match strip (pbits common) l with
    | Some r => get (set_child b s (Node Null Null default_value common)) r | None => default_value end) as ->
    by by destruct b.
  cbn [below]. rewrite -> Hu, strip_through. destruct (strip (pbits common) l) as [r|]; [|done]. cbn [mbind option_bind].
  rewrite -> get_set_child by done. destruct r as [|d r]; [done|].
  destruct b, d; try done; cbn [Bool.eqb below s]; unfold s; cbn [below]; by rewrite -> Hsb.
Qed.

(** A node whose bits are [u]: what is below it. *)
Lemma below_spec t u l : t <> Null -> tree_bits t = u ->
  below t l = match strip u l with Some r => get t r | None => default_value end.
Proof. by destruct t; [|intros _ <-]. Qed.
Lemma strip_eq u l : strip u l = Some [] <-> l = u.
Proof.
  split; [intros H%strip_Some; by rewrite -> app_nil_r in H|intros ->].
  rewrite <- (app_nil_r u) at 2. apply strip_app.
Qed.

(** Inserting sets the entry of the prefix and no other. *)
Record inserted (pre : address_prefix) (v : Z) (t t' : ptree) : Prop := {
  ins_node : t' <> Null;
  ins_wf : tree_wf t';
  ins_root : tree_bits t = [] -> tree_bits t' = [];
  ins_head : head (tree_bits t) = head (pbits pre) -> head (tree_bits t') = head (tree_bits t);
  ins_below l : below t' l = if decide (l = pbits pre) then v else below t l
}.

Lemma insert_here common pre v t t' w p :
  t' = Node (child false t') (child true t') w p -> tree_wf t' -> tree_bits t' = pbits common ->
  (forall l, below t' l = below t l) -> pbits pre = pbits common ->
  (tree_bits t = [] -> pbits common = []) ->
  (head (tree_bits t) = head (pbits pre) -> head (pbits common) = head (tree_bits t)) ->
  inserted pre v t (Node (child false t') (child true t') v p).
Proof.
  intros He Hwf Hb Hbe Hpre Hr Hh. rewrite -> He in Hwf, Hb.
  split; [done|exact Hwf|by rewrite <- Hb in Hr|by rewrite <- Hb in Hh|].
  intros l. rewrite <- Hbe, (below_spec _ (pbits common)), (below_spec t' (pbits common)) by (by rewrite -> He).
  rewrite -> Hpre. destruct (strip (pbits common) l) as [r|] eqn:Es.
  - apply strip_Some in Es as ->. destruct r as [|d r].
    + by rewrite -> app_nil_r, decide_True by done.
    + rewrite -> decide_False; [by rewrite -> He at 3|]. intros H. apply (f_equal length) in H.
      rewrite -> length_app in H. simpl in H. lia.
  - by rewrite -> decide_False by (intros ->; pose proof (proj2 (strip_eq (pbits common) _) eq_refl); congruence).
Qed.
Lemma insert_below common pre v t t' b c c' rest :
  t' <> Null -> tree_wf t' -> tree_bits t' = pbits common -> (forall l, below t' l = below t l) ->
  pbits pre = pbits common ++ pbits rest -> head (pbits rest) = Some b -> child b t' = c ->
  tree_wf c' -> c' <> Null -> head (tree_bits c') = Some b ->
  (forall l, below c' l = if decide (l = pbits rest) then v else below c l) ->
  (tree_bits t = [] -> pbits common = []) ->
  (head (tree_bits t) = head (pbits pre) -> head (pbits common) = head (tree_bits t)) ->
  inserted pre v t (set_child b c' t').
Proof.
  intros Ht Hwf Hb Hbe Hpre Hrest Hc Hwf' Hc' Hh' Hbe' Hr Hh.
  assert (tree_bits (set_child b c' t') = pbits common) as Hb' by (rewrite <- Hb; by destruct t', b).
  assert (set_child b c' t' <> Null) as Hne by (by destruct t', b).
  split; [done|by apply wf_set_child|by rewrite -> Hb'|by rewrite -> Hb'|]. intros l.
  rewrite <- Hbe, (below_spec _ _ l Hne Hb'), (below_spec _ _ l Ht Hb), Hpre.
  destruct (strip (pbits common) l) as [r|] eqn:Es.
  - apply strip_Some in Es as ->. rewrite -> get_set_child, get_below by done.
    assert (pbits common ++ r = pbits common ++ pbits rest <-> r = pbits rest) as Hiff
      by (split; [apply app_inv_head|by intros ->]).
    destruct r as [|d r].
    + rewrite -> decide_False; [done|]. rewrite -> Hiff. intros H. by rewrite <- H in Hrest.
    + destruct (Bool.eqb d b) eqn:Ed.
      * apply eqb_prop in Ed as ->. rewrite -> Hbe', Hc. by apply decide_ext.
      * rewrite -> decide_False; [done|]. rewrite -> Hiff. intros H. rewrite <- H in Hrest. injection Hrest as ->.
        by rewrite -> eqb_reflx in Ed.
  - rewrite -> decide_False; [done|]. intros ->. by rewrite -> strip_app in Es.
Qed.
Lemma parts_head lp lq : parts lp lq -> lp <> [] -> head lp = head lq -> False.
Proof. intros [->|[->|H]] Hne He; [done| |done]. by destruct lp. Qed.

(** One level of [insert_at], given what it does one level down. *)
Lemma insert_step fuel t pre v :
  t <> Null -> tree_wf t -> valid pre ->
  (forall c rest, c <> Null -> tree_wf c -> valid rest -> head (tree_bits c) = head (pbits rest) ->
    pbits rest <> [] -> (length (pbits rest) <= length (pbits pre))%nat ->
    (head (tree_bits t) = head (pbits pre) -> pbits pre <> [] -> (length (pbits rest) < length (pbits pre))%nat) ->
    inserted rest v c (insert_at default_value fuel rest v c)) ->
  inserted pre v t (insert_at default_value (S fuel) pre v t).
Proof.
  intros Ht Hwf Hpre Hrec. destruct t as [|c0 c1 w p]; [done|]. cbn [insert_at].
  assert (valid p) as Hp by apply Hwf.
  destruct (common_prefix_spec p pre Hp Hpre) as (Hc&Hm&lp&lq&Hlp&Hlq&Hparts). set (common := common_prefix p pre) in *.
  destruct (split_spec common c0 c1 w p lp Hwf Hc Hm Hlp) as [(Hn1&Hwf1&Hb1) Hbe].
  set (t1 := split default_value common (Node c0 c1 w p)) in *.
  destruct (prefix_shl_spec pre (pbits common) lq (m_mask common) Hpre Hlq Hm) as [Hrv Hrb].
  set (rest := prefix_shl pre (m_mask common)) in *.
  assert (head (pbits p) = head (pbits pre) -> pbits pre <> [] -> pbits common <> []) as Hcommon.
  { intros He Hne E. rewrite -> E in Hlp, Hlq. simpl in Hlp, Hlq. subst lp lq.
    apply (parts_head _ _ Hparts); [|done]. intros E'. rewrite -> E' in He. by destruct (pbits pre). }
  assert (tree_bits (Node c0 c1 w p) = [] -> pbits common = []) as Hroot
    by (cbn [tree_bits]; rewrite -> Hlp; by intros [? _]%app_eq_nil).
  assert (head (tree_bits (Node c0 c1 w p)) = head (pbits pre) -> head (pbits common) = head (pbits p)) as Hh.
  { cbn [tree_bits]. intros He. destruct (pbits pre) eqn:E; [by destruct (pbits common); [rewrite -> He|simplify_eq]|].
    rewrite -> Hlp. destruct (pbits common); [by destruct Hcommon|done]. }
  clearbody t1 rest common. rewrite -> (mask_eq0 rest Hrv), Hrb. case_bool_decide as E.
  { destruct t1 as [|d0 d1 w1 p1] eqn:E1; [done|]. rewrite -> E, app_nil_r in Hlq.
    by apply (insert_here common pre v _ (Node d0 d1 w1 p1) w1 p1). }
  destruct lq as [|b lq]; [done|]. rewrite -> (first_bit_head rest b lq Hrv Hrb).
  destruct (child b t1) as [|d0 d1 w1 p1] eqn:E1.
  - assert (head (pbits rest) = Some b) as Hr by (rewrite -> Hrb; reflexivity). rewrite <- Hrb in Hlq.
    apply (insert_below common pre v _ t1 b Null (Node Null Null v rest) rest Hn1 Hwf1 Hb1 Hbe Hlq Hr E1);
      [by split_and!|discriminate|exact Hr| |exact Hroot|exact Hh].
    intros l. cbn [below]. destruct (strip (pbits rest) l) as [r|] eqn:Es.
    + apply strip_Some in Es as ->. destruct r as [|b0 r]; [rewrite -> app_nil_r, decide_True by reflexivity; reflexivity|].
      rewrite -> decide_False; [destruct b0; reflexivity|]. intros H. apply (f_equal length) in H.
      rewrite -> length_app in H. simpl in H. lia.
    + rewrite -> decide_False; [reflexivity|]. intros ->. pose proof (proj2 (strip_eq (pbits rest) _) eq_refl). congruence.
  - destruct (wf_child b t1 Hwf1) as [Hcw Hch]; [by rewrite -> E1|]. rewrite -> E1 in Hcw, Hch.
    assert (zlength (pbits pre) = zlength (pbits common) + zlength (pbits rest)) as Hlen
      by (rewrite -> Hrb, Hlq; unfold zlength; rewrite -> length_app; lia).
    assert (inserted rest v (Node d0 d1 w1 p1) (insert_at default_value fuel rest v (Node d0 d1 w1 p1))) as [Hin Hiw _ Hih Hib].
    { apply Hrec; try done; [by rewrite -> Hch, Hrb|by rewrite -> Hrb|unfold zlength in Hlen; lia|].
      intros He Hne. specialize (Hcommon He Hne). destruct (pbits common); [done|]. unfold zlength in Hlen. simpl in Hlen. lia. }
    assert (head (pbits rest) = Some b) as Hr by (rewrite -> Hrb; reflexivity). rewrite <- Hrb in Hlq.
    apply (insert_below common pre v _ t1 b _ _ rest Hn1 Hwf1 Hb1 Hbe Hlq Hr E1 Hiw Hin); [|exact Hib|exact Hroot|exact Hh].
    rewrite -> Hih; [exact Hch|]. by rewrite -> Hch, Hr.
Qed.
Lemma insert_at_ok fuel : forall t pre v,
  t <> Null -> tree_wf t -> valid pre -> head (tree_bits t) = head (pbits pre) -> pbits pre <> [] ->
  (length (pbits pre) <= fuel)%nat -> inserted pre v t (insert_at default_value fuel pre v t).
Proof.
  induction fuel as [|fuel IH]; intros t pre v Ht Hwf Hpre Hh Hne Hl; [by destruct (pbits pre); [|simpl in Hl; lia]|].
  apply insert_step; try done. intros c rest ? ? ? ? ? _ Hlt. apply IH; try done. specialize (Hlt Hh Hne). lia.
Qed.
Lemma insert_ok t pre v :
  t <> Null -> tree_wf t -> tree_bits t = [] -> valid pre ->
  let t' := insert default_value pre v t in
  t' <> Null /\ tree_wf t' /\ tree_bits t' = [] /\
  forall l, get t' l = if decide (l = pbits pre) then v else get t l.
Proof.
  intros Ht Hwf Hroot Hpre. destruct (insert_step 33 t pre v Ht Hwf Hpre) as [Hn Hw Hr _ Hb].
  { intros c rest ? ? ? ? ? Hl _. apply insert_at_ok; try done.
    destruct (valid_mask pre Hpre) as ([_ H32]&_). unfold zlength in H32. lia. }
  cbn zeta. unfold insert. revert Hn Hw Hr Hb. generalize (insert_at default_value 34 pre v t). intros t' Hn Hw Hr Hb.
  specialize (Hr Hroot). split_and!; [exact Hn|exact Hw|exact Hr|]. intros l. specialize (Hb l).
  rewrite -> (below_spec _ [] l Hn Hr), (below_spec t [] l Ht Hroot) in Hb. exact Hb.
Qed.

(** ** Looking up *)

(** The beginnings of a list of bits, the shortest first. *)
Definition prefixes (l : list bool) : list (list bool) := map (fun n => take n l) (seq 1 (length l)).
Lemma prefixes_app u r : prefixes (u ++ r) = prefixes u ++ map (app u) (prefixes r).
Proof.
  unfold prefixes. rewrite -> length_app, seq_app, map_app, map_map. f_equal.
  - apply map_ext_in. intros n Hn%in_seq. rewrite -> take_app_le by lia. done.
  - rewrite -> (Nat.add_comm 1 (length u)), <- (fmap_add_seq (length u) 1). rewrite -> map_map. apply map_ext. intros n.
    by rewrite -> take_app_add.
Qed.
Lemma strip_short u n : (n < length u)%nat -> strip u (take n u) = None.
Proof.
  intros Hn. destruct (strip u (take n u)) as [r|] eqn:E; [|done]. apply strip_Some, (f_equal length) in E.
  rewrite -> length_app, length_take in E. lia.
Qed.
Lemma strip_parts u lp lq n : lp <> [] -> parts lp lq -> strip (u ++ lp) (take n (u ++ lq)) = None.
Proof.
  intros Hne Hp. destruct (strip _ _) as [r|] eqn:E; [|done]. exfalso. apply strip_Some in E.
  assert (take (length (u ++ lp)) (u ++ lq) = u ++ lp) as E2.
  { assert (take n (u ++ lq) ++ drop n (u ++ lq) = u ++ lq) as <- by apply take_drop. rewrite -> E.
    rewrite <- !app_assoc. rewrite -> app_assoc. apply take_app_length. }
  rewrite -> length_app, take_app_add in E2. apply app_inv_head in E2.
  destruct lp as [|b lp]; [done|]. destruct Hp as [?|[->|Hp]]; [done|by rewrite -> take_nil in E2|].
  destruct lq as [|c lq]; [done|]. simpl in E2, Hp. congruence.
Qed.

(** Between [t] and the node [c] that answers, [u] is taken off the key and nothing is stored. *)
Record matched (t : ptree) (key : address_prefix) (c : ptree) (rest : address_prefix) (u : list bool) : Prop := {
  mt_ne : u <> [];
  mt_key : pbits key = u ++ pbits rest;
  mt_rest : valid rest;
  mt_node : c <> Null;
  mt_wf : tree_wf c;
  mt_value : value_of default_value c <> default_value;
  mt_between n : (1 <= n < length u)%nat -> get t (take n (pbits key)) = default_value;
  mt_below r : get t (u ++ r) = get c r
}.
Lemma get_child t c0 c1 v p d l c w q :
  t = Node c0 c1 v p -> (if d : bool then c1 else c0) = c -> c = Node (child false c) (child true c) w q ->
  get t (d :: l) = match strip (pbits q) (d :: l) with Some r => get c r | None => default_value end.
Proof. intros -> Hc Hq. simpl. rewrite -> Hc. rewrite -> Hq at 1. done. Qed.

Definition match_spec (t : ptree) (key : address_prefix) (res : option (ptree * address_prefix * list bool)) : Prop :=
  match res with
  | None => forall n, (1 <= n <= length (pbits key))%nat -> get t (take n (pbits key)) = default_value
  | Some (c, rest, _) => exists u, matched t key c rest u
  end.

(** The child's bits are all there: it answers, or what is below it does. *)
Lemma match_below t c rest key b q w :
  c <> Null -> tree_wf c -> value_of default_value c = w -> valid rest -> head (pbits q) = Some b ->
  (forall l, head l = Some b -> get t l = match strip (pbits q) l with Some r => get c r | None => default_value end) ->
  pbits key = pbits q ++ pbits rest -> match_spec c rest (next_match default_value c rest) ->
  match_spec t key
    (if negb (w =? default_value) then Some (c, rest, [b])
     else '(c', rest, way) ← next_match default_value c rest; Some (c', rest, b :: way)).
Proof.
  intros Hc Hcw Hv Hr Hq Hget Hkey IH.
  assert (pbits q <> []) as Hne by (intros E; by rewrite -> E in Hq).
  assert (forall r, get t (pbits q ++ r) = get c r) as Hbelow.
  { intros r. rewrite -> Hget, strip_app; [done|]. by destruct (pbits q). }
  assert (forall n, (1 <= n < length (pbits q))%nat -> get t (take n (pbits key)) = default_value) as Hshort.
  { intros n Hn. rewrite -> Hkey, take_app_le by lia. rewrite -> Hget, strip_short by (lia || (destruct (pbits q), n; simpl in *; lia || done)).
    done. }
  assert (forall k, (k <= length (pbits rest))%nat ->
    take (length (pbits q) + k) (pbits key) = pbits q ++ take k (pbits rest)) as Htake
    by (intros k _; by rewrite -> Hkey, take_app_add).
  destruct (Z.eqb_spec w default_value) as [Hw|Hw]; cbn [negb].
  - assert (forall n m, (forall k, (1 <= k < m)%nat -> get c (take k (pbits rest)) = default_value) ->
      (m <= S (length (pbits rest)))%nat -> (1 <= n < length (pbits q) + m)%nat -> get t (take n (pbits key)) = default_value) as Hlong.
    { intros n m Hm Hml Hn. destruct (decide (n < length (pbits q))%nat) as [?|Hge]; [apply Hshort; lia|].
      replace n with (length (pbits q) + (n - length (pbits q)))%nat by lia. rewrite -> Htake, Hbelow by lia.
      destruct (n - length (pbits q))%nat as [|k] eqn:Ek; [cbn [take]; by rewrite -> get_below, Hv|]. apply Hm. lia. }
    destruct (next_match default_value c rest) as [[[c' rest'] way]|]; cbn [mbind option_bind].
    + destruct IH as (u&[Hu Huk Hur Huc Huw Huv Hub Hul]). exists (pbits q ++ u). split; try done.
      * by destruct (pbits q).
      * by rewrite -> Hkey, Huk, <- app_assoc.
      * intros n Hn. rewrite -> length_app in Hn. apply (Hlong n (length u) Hub); [|done].
        rewrite -> Huk, length_app. lia.
      * intros r. by rewrite <- app_assoc, Hbelow.
    + intros n Hn. apply (Hlong n (S (length (pbits rest)))); [intros k ?; apply IH; lia|done|].
      rewrite -> Hkey, length_app in Hn. lia.
  - exists (pbits q). split; [exact Hne|exact Hkey|exact Hr|exact Hc|exact Hcw|by rewrite -> Hv|exact Hshort|exact Hbelow].
Qed.

(** One level: the child [c] on the side of the key. *)
Lemma next_match_step t c d0 d1 w q key :
  t <> Null -> tree_wf t -> valid key ->
  child (first_bit (m_addr_prefix key)) t = c -> c = Node d0 d1 w q ->
  (forall rest, valid rest -> match_spec c rest (next_match default_value c rest)) ->
  match_spec t key (next_match default_value t key).
Proof.
  intros Ht Hwf Hkey Hc Eq IH. set (b := first_bit (m_addr_prefix key)) in *.
  destruct (wf_child b t Hwf) as [Hcw Hch]; [by rewrite -> Hc, Eq|]. rewrite -> Hc in Hcw, Hch.
  assert (valid q) as Hq by (rewrite -> Eq in Hcw; apply Hcw).
  assert (head (pbits q) = Some b) as Hqb by (rewrite -> Eq in Hch; exact Hch).
  assert (forall l, head l = Some b -> get t l = match strip (pbits q) l with Some r => get c r | None => default_value end)
    as Hget.
  { intros [|d l] [= ->]. rewrite -> get_below, Hc. apply (below_spec c (pbits q)); rewrite -> Eq; done. }
  assert (next_match default_value t key =
    let common := common_prefix q key in
    if m_mask common =? m_mask q then
      let rest := prefix_shl key (m_mask common) in
      if negb (w =? default_value) then Some (c, rest, [b])
      else '(c', rest, way) ← next_match default_value c rest; Some (c', rest, b :: way)
    else None) as ->.
  { destruct t as [|c0 c1 v p]; [done|]. cbn [next_match]. fold b. cbn [child] in Hc. rewrite -> Hc, Eq. done. }
  destruct (common_prefix_spec q key Hq Hkey) as (Hcv&Hm&lp&lq&Hlp&Hlq&Hparts). cbn zeta.
  destruct (prefix_shl_spec key _ lq (m_mask (common_prefix q key)) Hkey Hlq Hm) as [Hrv Hrb].
  set (rest := prefix_shl key _) in *. set (common := common_prefix q key) in *. clearbody rest common.
  rewrite -> (mask_eqb common q Hcv Hq).
  assert (forall n, (1 <= n <= length (pbits key))%nat -> head (take n (pbits key)) = Some b) as Hhead.
  { intros n Hn. unfold b. destruct (pbits key) as [|d l] eqn:E; [simpl in Hn; lia|].
    rewrite -> (first_bit_head key d l Hkey E). by destruct n; [lia|]. }
  destruct (decide (lp = [])) as [->|Hne].
  - rewrite -> app_nil_r in Hlp. rewrite <- Hlp, Z.eqb_refl in *. rewrite <- Hrb in Hlq.
    apply (match_below t c rest key b q w); [by rewrite -> Eq|exact Hcw|by rewrite -> Eq|exact Hrv|exact Hqb|exact Hget|exact Hlq|by apply IH].
  - replace (zlength (pbits common) =? zlength (pbits q)) with false.
    + intros n Hn. rewrite -> Hget, Hlp, Hlq by auto. by rewrite -> strip_parts.
    + symmetry. apply Z.eqb_neq. rewrite -> Hlp. unfold zlength. rewrite -> length_app.
      destruct lp; [done|]. cbn [length]. lia.
Qed.
Lemma next_match_spec t : forall key, t <> Null -> tree_wf t -> valid key ->
  match_spec t key (next_match default_value t key).
Proof.
  induction t as [|c0 IH0 c1 IH1 v p]; intros key Ht Hwf Hkey; [done|].
  destruct (child (first_bit (m_addr_prefix key)) (Node c0 c1 v p)) as [|d0 d1 w q] eqn:E.
  - cbn [next_match]. cbn [child] in E. rewrite -> E. intros n Hn. destruct (pbits key) as [|d l] eqn:Ek; [simpl in Hn; lia|].
    rewrite -> (first_bit_head key d l Hkey Ek) in E. destruct n; [lia|]. rewrite -> get_below. cbn [take].
    cbn [child]. by rewrite -> E.
  - destruct (wf_child _ _ Hwf ltac:(by rewrite -> E)) as [Hcw _]. rewrite -> E in Hcw.
    eapply next_match_step; [done|done|done|exact E|done|]. intros rest Hr. rewrite <- E in Hcw |- *.
    cbn [child] in *. destruct (first_bit _); [apply IH1|apply IH0]; try done; by rewrite -> E.
Qed.

(** What is stored for the beginnings of the key. *)
Definition entries_on (f : list bool -> Z) (l : list bool) : list Z :=
  filter (fun v => v <> default_value) (map f (prefixes l)).
Lemma entries_on_none f l : (forall n, (1 <= n <= length l)%nat -> f (take n l) = default_value) -> entries_on f l = [].
Proof.
  intros Hf. unfold entries_on. assert (Forall (fun v => ~ v <> default_value) (map f (prefixes l))) as H.
  { apply Forall_map. unfold prefixes. apply Forall_map, list.Forall_forall. intros n Hn%elem_of_seq. simpl.
    rewrite -> Hf by lia. by intros ?. }
  induction H as [|v vs Hv _ IH]; [done|]. by rewrite -> filter_cons_False.
Qed.
Lemma entries_on_app f u r : entries_on f (u ++ r) = entries_on f u ++ entries_on (fun l => f (u ++ l)) r.
Proof. unfold entries_on. rewrite -> prefixes_app, map_app, filter_app. by rewrite -> map_map. Qed.
Lemma entries_on_last f u :
  u <> [] -> f u <> default_value -> (forall n, (1 <= n < length u)%nat -> f (take n u) = default_value) ->
  entries_on f u = [f u].
Proof.
  intros Hu Hv Hn. destruct (exists_last Hu) as (u'&b&->). rewrite -> length_app in Hn. simpl in Hn.
  rewrite -> entries_on_app, entries_on_none.
  - unfold entries_on, prefixes. cbn [length seq map take]. by rewrite -> filter_cons_True.
  - intros n Hle. rewrite <- (Hn n) by lia. by rewrite -> take_app_le by lia.
Qed.
Lemma lookups_spec fuel : forall t key, t <> Null -> tree_wf t -> valid key -> (length (pbits key) < fuel)%nat ->
  lookups default_value fuel t key = entries_on (get t) (pbits key).
Proof.
  induction fuel as [|fuel IH]; intros t key Ht Hwf Hkey Hf; [lia|]. cbn [lookups].
  pose proof (next_match_spec t key Ht Hwf Hkey) as Hm.
  destruct (next_match default_value t key) as [[[c rest] way]|]; [|by rewrite -> entries_on_none].
  destruct Hm as (u&[Hu Hk Hr Hc Hcw Hv Hb Hbel]). rewrite -> Hk, length_app in Hf.
  assert (get t u = value_of default_value c) as Hgu.
  { rewrite <- (app_nil_r u), Hbel. apply get_below. }
  assert (length (pbits rest) < fuel)%nat as Hf' by (destruct u; [done|simpl in Hf; lia]).
  rewrite -> (IH c rest Hc Hcw Hr Hf'). rewrite -> Hk, entries_on_app, (entries_on_last _ u).
  - rewrite -> Hgu. unfold entries_on. simpl. do 2 f_equal. apply map_ext. intros l. by rewrite -> Hbel.
  - done.
  - by rewrite -> Hgu.
  - intros n Hn. rewrite <- (Hb n Hn), Hk. by rewrite -> take_app_le by lia.
Qed.
End table.

(** ** The table of the scripts *)

(** The entries in the order they were made: the last one for a prefix counts. *)
Definition table_of (default_value : Z) (entries : list (address_prefix * Z)) : ptree :=
  fold_left (fun t e => insert default_value e.1 e.2 t) entries (empty_tree default_value).
Definition entry_for (default_value : Z) (entries : list (address_prefix * Z)) (l : list bool) : Z :=
  fold_left (fun v e => if decide (l = pbits e.1) then e.2 else v) entries default_value.

(** C34: the table of addresses answers with exactly the entries whose networks contain
    the address or network asked for, the widest first: after any sequence of insertions,
    in any order and with overlapping networks, looking a key up gives the value last
    stored for each beginning of the key's bits, and nothing else. *)
Theorem table_matches (default_value : Z) (entries : list (address_prefix * Z)) (key : address_prefix) :
  Forall (fun e => valid e.1) entries -> valid key ->
  table_index default_value (table_of default_value entries) key =
  filter (fun v => v <> default_value) (map (entry_for default_value entries) (prefixes (pbits key))).
Proof.
  intros He Hkey.
  assert (let t := table_of default_value entries in
    t <> Null /\ tree_wf t /\ tree_bits t = [] /\ forall l, get default_value t l = entry_for default_value entries l) as (Ht&Hwf&_&Hget).
  { induction entries as [|[p v] entries IH] using rev_ind.
    - split; [done|]. split; [split; [exists 0; split; [lia|reflexivity]|done]|]. split; [reflexivity|].
      intros [|b l]; [reflexivity|by destruct b].
    - apply Forall_app in He as [He Hv]. apply Forall_cons in Hv as [Hv _]. destruct (IH He) as (Ht&Hwf&Hr&Hg).
      unfold table_of, entry_for. rewrite -> fold_left_app. cbn [fold_left fst snd].
      destruct (insert_ok default_value _ p v Ht Hwf Hr Hv) as (?&?&?&Hi). split_and!; try done.
      intros l. rewrite -> Hi, fold_left_app. cbn [fold_left fst snd]. case_decide; [done|apply Hg]. }
  destruct (valid_mask key Hkey) as ([_ Hl]&_). unfold zlength in Hl.
  unfold table_index. rewrite -> lookups_spec by (done || lia). unfold entries_on. f_equal. by apply map_ext.
Qed.

(** ** Examples *)
Definition network (a b c d bits : Z) : address_prefix :=
  mkprefix (Z.shiftl a 24 + Z.shiftl b 16 + Z.shiftl c 8 + d) (address_mask bits).
Definition sample_entries : list (address_prefix * Z) :=
  [(network 127 0 0 0 8, 2); (network 127 0 0 1 32, 1); (network 240 0 0 1 32, 3); (network 127 1 0 1 32, 4)].
Lemma table_matches_witness :
  let key := network 127 1 0 1 32 in
  table_index (-1) (table_of (-1) sample_entries) key =
  filter (fun v => v <> -1) (map (entry_for (-1) sample_entries) (prefixes (pbits key))).
Proof.
  apply table_matches.
  - repeat constructor; simpl; eexists; (split; [|reflexivity]); lia.
  - eexists; (split; [|reflexivity]); lia.
Defined.
(** The tests of hopmod/net/test.cpp. *)
Example lookup_tests :
  let t := table_of 0 sample_entries in
  table_index 0 t (network 127 0 0 1 32) = [2; 1] /\ table_index 0 t (network 127 1 0 1 32) = [2; 4] /\
  table_index 0 (erase 0 (network 127 0 0 0 8) t) (network 127 1 0 1 32) = [4] /\
  table_index 0 (erase 0 (network 240 0 0 1 32) t) (network 127 1 0 1 32) = [2; 4] /\
  table_index 0 (erase 0 (network 127 0 0 1 32) t) (network 127 1 0 1 32) = [2; 4] /\
  table_index 0 (erase 0 (network 127 0 0 1 32) (erase 0 (network 127 0 0 0 8) t)) (network 127 1 0 1 32) = [4].
Proof. vm_compute. by split_and!. Qed.
(** Erasing a network that has entries on both sides below it forgets one side. *)
Example erase_forgets :
  let t := table_of 0 [(network 10 0 0 0 8, 1); (network 10 0 0 1 32, 2); (network 10 128 0 1 32, 3)] in
  table_index 0 t (network 10 128 0 1 32) = [1; 3] /\
  table_index 0 (erase 0 (network 10 0 0 0 8) t) (network 10 128 0 1 32) = [].
Proof. vm_compute. by split_and!. Qed.
(** Erasing an address that is not there takes away the network around it. *)
Example erase_takes_another :
  let t := table_of 0 [(network 127 0 0 0 8, 1)] in
  table_index 0 (erase 0 (network 127 0 0 1 32) t) (network 127 0 0 2 32) = [].
Proof. vm_compute. done. Qed.
