(* ===== verification/Netbans.v ===== *)
(** Bans of networks (hopmod/netbans.cpp) and the text of prefixes
    (hopmod/net/address_prefix.cpp [parse], [to_string]).

    What is printed to the log is left out.  The file of bans holds the records as they
    lie in memory on a 64-bit little-endian machine. *)
From S2P Require Import Prelude Text Float32 Stream Game Random State Engine Servmode Roster Prefix.

#[local] Open Scope list_scope.

(** ** Text *)

(** What [parse] does: a prefix, [std::bad_cast], a write behind the array [tokens], or
    the failed assertion of [address_mask]. *)
Inductive parse_result : Set := Parsed (p : address_prefix) | Bad_cast | Overrun | Assertion.

(** [tokens]: the texts the pointers stand for; [None] is the null pointer. *)
Definition tokens0 : list (option cstring) := [Some []; Some (cstr "0"); Some (cstr "0"); Some (cstr "0"); None].
(** [atoi] of digits: 18 of them fit a [long], which is then cut to an [int]. *)
Definition atoi (t : cstring) : Z := to_int (fold_left (fun n c => 10 * n + (c - 48)) t 0).
(** As an [unsigned long]. *)
Definition no_octet (n : Z) : bool := (n <? 0) || (255 <? n).
Definition finish_parse (tokens : list (option cstring)) : parse_result :=
  let part i := atoi (default [] (default None (tokens !! i))) in
  let a := part 0%nat in let b := part 1%nat in let c := part 2%nat in let d := part 3%nat in
  if no_octet a || no_octet b || no_octet c || no_octet d then Bad_cast else
  let prefix := Z.lor (Z.lor (Z.lor (Z.shiftl a 24) (Z.shiftl b 16)) (Z.shiftl c 8)) d in
  let maskbits := match default None (tokens !! 4%nat) with Some t => atoi t | None => 32 end in
  if (32 <? maskbits) || (maskbits =? 0) then Bad_cast
  else if maskbits <? 0 then Assertion
  else Parsed (mkprefix prefix (address_mask maskbits)).
(** The token a separator begins: a dot counts on, a slash goes to the mask. *)
Definition next_token (c : Z) (i cur : nat) : option nat :=
  if c =? 46 then (if (cur =? 3)%nat then None else Some (S cur))
  else if (cur =? 0)%nat && (i =? 0)%nat || (cur =? 4)%nat then None else Some 4%nat.
(** [i] characters of the 18 that fit have been taken. *)
Fixpoint parse_from (i cur : nat) (tokens : list (option cstring)) (str : cstring) : parse_result :=
  match str with
  | [] => finish_parse tokens
  | c :: rest =>
    if (18 <=? i)%nat then Bad_cast
    else if (c =? 46) || (c =? 47) then
      match next_token c i cur with
      | None => Bad_cast
      | Some cur =>
        if bool_decide (rest = []) then Bad_cast
        else if (5 <=? cur)%nat then Overrun
        else parse_from (S i) cur (<[cur := Some []]> tokens) rest
      end
    else if (c <? 48) || (57 <? c) then Bad_cast
    else parse_from (S i) cur (alter (fmap (fun t => t ++ [c])) cur tokens) rest
  end.
Definition parse (str : cstring) : parse_result := parse_from 0 0 tokens0 str.

Definition octet (a k : Z) : Z := Z.land (Z.shiftr a (8 * k)) 255.
Definition address_text (a : Z) : cstring :=
  print_int (octet a 3) ++ [46] ++ print_int (octet a 2) ++ [46] ++ print_int (octet a 1) ++ [46] ++ print_int (octet a 0).
Definition prefix_text (p : address_prefix) : cstring :=
  let bits := mask_bits (m_mask p) in
  take 18 (address_text (m_addr_prefix p) ++ if bits <? 32 then 47 :: print_int bits else []).

(** ** Bans *)
Record netban := mknetban {
  nb_ip : Z; nb_mask : Z; nb_persist : Z; nb_reason : cstring; nb_hits : Z; nb_lasthit : Z
}.
#[export] Instance eta_netban : Eta netban := settable mknetban <nb_ip; nb_mask; nb_persist; nb_reason; nb_hits; nb_lasthit>.
Definition MINBANMASK : Z := 16.

(** [stack] is a queue: what was pushed first is at its front. *)
Record netbans := mknetbans { nb_bans : list netban; nb_stack : list (list netban) }.
#[export] Instance eta_netbans : Eta netbans := settable mknetbans <nb_bans; nb_stack>.

Definition netban_of (addr : cstring) (persist : bool) : netban :=
  let p := match parse addr with Parsed p => p | _ => prefix0 end in
  mknetban (m_addr_prefix p) (m_mask p) (if persist then 1 else 0) [] 0 0.
Definition is_valid (b : netban) : bool :=
  negb (nb_ip b =? 0) && negb (nb_mask b =? 0) && (MINBANMASK <=? mask_bits (nb_mask b)).
Definition same_ban (a b : netban) : bool := (nb_ip a =? nb_ip b) && (nb_mask a =? nb_mask b).
(** Does a ban hold for the address? *)
Definition holds_for (ip : Z) (b : netban) : bool := Z.land ip (nb_mask b) =? Z.land (nb_ip b) (nb_mask b).
(** The first ban that holds counts the hit; [now] is [std::time]. *)
Fixpoint hit (ip now : Z) (l : list netban) : bool * list netban :=
  match l with
  | [] => (false, [])
  | b :: l =>
    if holds_for ip b then (true, b <| nb_hits := to_uint (nb_hits b + 1) |> <| nb_lasthit := now |> :: l)
    else let '(r, l) := hit ip now l in (r, b :: l)
  end.
(** [ntohl] on a little-endian machine. *)
Definition ntohl (n : Z) : Z := le_value (rev (put_n 4 n)).
Definition check_ban (ip now : Z) : M netbans bool := fun st =>
  let '(r, l) := hit (ntohl ip) now (nb_bans st) in (r, st <| nb_bans := l |>).
Definition find_ban (b : netban) (l : list netban) : option nat :=
  if is_valid b then fst <$> list_find (fun x => same_ban x b = true) l else None.
Definition push_bans : M netbans unit :=
  modify (fun st => st <| nb_stack ::= fun s => s ++ [nb_bans st] |> <| nb_bans := [] |>).
(** The pushed bans come back, and stay on the stack. *)
Definition pop_bans : M netbans unit :=
  modify (fun st => match nb_stack st with [] => st | l :: _ => st <| nb_bans := l |> end).
(** From the last pushed ban to the first: one that was added again takes its hits along,
    one that persists is added.  The vector that is gone through backwards is a copy; what
    is left of it is seen in the log only. *)
Definition merge_one (l : list netban) (old : netban) : list netban :=
  match find_ban old l with
  | Some i => <[i := old]> l
  | None => if negb (nb_persist old =? 0) then l ++ [old] else l
  end.
Definition merges (l : list netban) (old : netban) : bool :=
  bool_decide (find_ban old l <> None) || negb (nb_persist old =? 0).
(** [None]: what is erased is the element after the one meant, and there is none after
    the last. *)
Definition merge_pushed_bans (st : netbans) : option netbans :=
  match nb_stack st with
  | [] => Some st
  | old :: _ =>
    if default false (merges (nb_bans st) <$> last old) then None
    else Some (st <| nb_bans := fold_left merge_one (rev old) (nb_bans st) |>)
  end.
Definition set_reason (reason : cstring) (b : netban) : netban := b <| nb_reason := take 63 reason |>.
Definition add_ban (addr : cstring) (persist : bool) (reason : cstring) : M netbans unit :=
  modify (fun st =>
    let b := netban_of addr persist in
    if negb (is_valid b) then st else
    match find_ban b (nb_bans st) with
    | Some _ => st
    | None => st <| nb_bans ::= fun l => l ++ [set_reason reason b] |>
    end).
Definition del_ban (addr : cstring) : M netbans unit :=
  modify (fun st => match find_ban (netban_of addr false) (nb_bans st) with
                    | Some i => st <| nb_bans ::= delete i |>
                    | None => st
                    end).
Definition clear_bans : M netbans unit := modify (fun st => st <| nb_bans := [] |>).

(** ** The file of bans *)
Definition RECORD : nat := 96.
(** The text up to its NUL, with [null_terminate_reason]. *)
Fixpoint cut_nul (n : nat) (l : bytes) : cstring :=
  match n, l with
  | S n, c :: l => if c =? 0 then [] else c :: cut_nul n l
  | _, _ => []
  end.
Definition record_bytes (b : netban) : bytes :=
  put_n 8 (nb_ip b) ++ put_n 8 (nb_mask b) ++ put_n 4 (nb_persist b) ++
  (nb_reason b ++ replicate (64 - length (nb_reason b)) 0) ++ put_n 4 (nb_hits b) ++ put_n 8 (nb_lasthit b).
Definition to_time (v : Z) : Z := if v <? 2 ^ 63 then v else v - 2 ^ 64.
Definition read_record : M bytes netban :=
  ip <- get_n 8 ;; mask <- get_n 8 ;; persist <- get_int ;; reason <- read 64 ;; hits_ <- get_n 4 ;; last_ <- get_n 8 ;;
  ret (mknetban ip mask persist (cut_nul 63 reason) hits_ (to_time last_)).
Fixpoint read_records (n : nat) : M bytes (list netban) :=
  match n with
  | O => ret []
  | S n => b <- read_record ;; l <- read_records n ;; ret (if is_valid b then b :: l else l)
  end.
(** [init]: a file whose size does not fit is removed. *)
Definition init_bans (file : option bytes) : M netbans unit :=
  match file with
  | None => ret tt
  | Some data =>
    if negb (length data mod RECORD =? 0)%nat then ret tt
    else modify {{ nb_bans ::= fun l => l ++ eval (read_records (length data / RECORD)) data }}
  end.
(** [shutdown] writes the file. *)
Definition bans_file (st : netbans) : bytes := concat (map record_bytes (nb_bans st)).

(** * The text of a prefix is parsed back *)

Definition digit_text (t : cstring) : Prop := Forall (fun c => 48 <= c <= 57) t.
Lemma alter_insert {A} (f : A -> A) (i : nat) (l : list A) x : l !! i = Some x -> alter f i l = <[i := f x]> l.
Proof. revert i. induction l as [|y l IH]; intros [|i] H; try done; cbn in *; [congruence|]. by rewrite -> (IH i H). Qed.
Lemma parse_digits t : forall i cur tokens u rest, digit_text t -> (i + length t <= 18)%nat ->
  tokens !! cur = Some (Some u) ->
  parse_from i cur tokens (t ++ rest) = parse_from (i + length t) cur (<[cur := Some (u ++ t)]> tokens) rest.
Proof.
  induction t as [|c t IH]; intros i cur tokens u rest Ht Hi Hu.
  - rewrite -> app_nil_r, list_insert_id by done. by rewrite -> Nat.add_0_r.
  - apply Forall_cons in Ht as [Hc Ht]. simpl in Hi. cbn [app parse_from].
    replace (18 <=? i)%nat with false by (symmetry; apply Nat.leb_gt; lia).
    replace ((c =? 46) || (c =? 47)) with false by lia. replace ((c <? 48) || (57 <? c)) with false by lia.
    rewrite -> (alter_insert _ _ _ _ Hu). cbn [fmap option_fmap option_map].
    rewrite -> (IH (S i) cur _ (u ++ [c])); try done; [|lia|].
    + rewrite -> list_insert_insert_eq, <- app_assoc. cbn [length app]. f_equal. lia.
    + apply list_lookup_insert_eq. by eapply lookup_lt_Some.
Qed.
Definition small (n : Z) : Prop := digit_text (print_int n) /\ (1 <= length (print_int n) <= 3)%nat /\ atoi (print_int n) = n.
#[local] Instance small_dec n : Decision (small n).
Proof. unfold small, digit_text. apply _. Defined.
Lemma small_octet n : 0 <= n <= 255 -> small n.
Proof.
  intros Hn. assert (Forall small (seqZ 0 256)) as H by decide_now. rewrite -> list.Forall_forall in H.
  apply H, elem_of_seqZ. lia.
Qed.
Lemma parse_sep c i cur cur' tokens rest : (i < 18)%nat -> c = 46 \/ c = 47 -> next_token c i cur = Some cur' ->
  rest <> [] -> (cur' < 5)%nat ->
  parse_from i cur tokens (c :: rest) = parse_from (S i) cur' (<[cur' := Some []]> tokens) rest.
Proof.
  intros Hi Hc Hn Hr Hcur. cbn [parse_from].
  replace (18 <=? i)%nat with false by (symmetry; apply Nat.leb_gt; lia).
  replace ((c =? 46) || (c =? 47)) with true by lia. rewrite -> Hn, bool_decide_false by done.
  by replace (5 <=? cur')%nat with false by (symmetry; apply Nat.leb_gt; lia).
Qed.
Lemma octet_range a k : 0 <= octet a k <= 255.
Proof. unfold octet. change 255 with (Z.ones 8). rewrite -> Z.land_ones by lia. change (2 ^ 8) with 256. change (Z.ones 8) with 255. pose proof (Z.mod_pos_bound (Z.shiftr a (8 * k)) 256). lia. Qed.
Lemma octet_bit a k i : 0 <= k -> 0 <= i ->
  Z.testbit (Z.shiftl (octet a k) (8 * k)) i = Z.testbit a i && ((8 * k <=? i) && (i <? 8 * k + 8)).
Proof.
  intros Hk Hi. unfold octet. change 255 with (Z.ones 8). rewrite -> Z.shiftl_spec, Z.land_spec by lia.
  destruct (Z.leb_spec (8 * k) i) as [H|H].
  - rewrite -> Z.shiftr_spec, Z.testbit_ones by lia. f_equal; [f_equal; lia|]. lia.
  - rewrite -> (Z.testbit_neg_r (Z.ones 8)) by lia. by rewrite -> !andb_false_r.
Qed.
Lemma octets_value a : 0 <= a < 2 ^ 32 ->
  Z.lor (Z.lor (Z.lor (Z.shiftl (octet a 3) 24) (Z.shiftl (octet a 2) 16)) (Z.shiftl (octet a 1) 8)) (octet a 0) = a.
Proof.
  intros Ha. apply Z.bits_inj_iff'. intros i Hi. rewrite <- (Z.shiftl_0_r (octet a 0)).
  rewrite -> !Z.lor_spec. pose proof (octet_bit a 3 i) as H3. pose proof (octet_bit a 2 i) as H2.
  pose proof (octet_bit a 1 i) as H1. pose proof (octet_bit a 0 i) as H0.
  change (8 * 3) with 24 in H3. change (8 * 2) with 16 in H2. change (8 * 1) with 8 in H1. change (8 * 0) with 0 in H0.
  rewrite -> H3, H2, H1, H0 by lia. destruct (Z.testbit a i) eqn:E; [|done].
  assert (i < 32); [|lia]. apply Z.lt_nge. intros H. rewrite <- (Z.mod_small a (2 ^ 32)), Z.mod_pow2_bits_high in E by lia. done.
Qed.

Lemma parse_piece c t i cur cur' tokens rest : digit_text t -> (1 <= length t)%nat -> (S i + length t <= 18)%nat ->
  c = 46 \/ c = 47 -> next_token c i cur = Some cur' -> (cur' < 5)%nat -> length tokens = 5%nat ->
  parse_from i cur tokens (c :: t ++ rest) = parse_from (S i + length t) cur' (<[cur' := Some t]> tokens) rest.
Proof.
  intros Ht Hl Hi Hc Hn Hcur Hk.
  rewrite -> (parse_sep c i cur cur' tokens (t ++ rest)) by (done || lia || (destruct t; simpl in *; [lia|done])).
  rewrite -> (parse_digits t (S i) cur' (<[cur' := Some []]> tokens) [] rest);
    [|done|lia|by apply list_lookup_insert_eq; change (cur' < @length (option cstring) tokens)%nat; rewrite -> Hk].
  by rewrite -> list_insert_insert_eq.
Qed.
Definition wellformed (p : address_prefix) : Prop :=
  0 <= m_addr_prefix p < 2 ^ 32 /\ exists n, 1 <= n <= 32 /\ m_mask p = address_mask n.
Lemma finish_parse_spec a n t : 0 <= a < 2 ^ 32 -> 1 <= n <= 32 ->
  match t with Some t => atoi t | None => 32 end = n ->
  finish_parse [Some (print_int (octet a 3)); Some (print_int (octet a 2)); Some (print_int (octet a 1));
                Some (print_int (octet a 0)); t] = Parsed (mkprefix a (address_mask n)).
Proof.
  intros Ha Hn Hm. unfold finish_parse. cbn [lookup list_lookup default from_option id]. rewrite -> Hm.
  assert (forall k, atoi (print_int (octet a k)) = octet a k) as E by (intros k; apply small_octet, octet_range).
  assert (forall k, no_octet (octet a k) = false) as F by (intros k; pose proof (octet_range a k); unfold no_octet; lia).
  rewrite -> !E, !F. cbn [orb]. rewrite -> (octets_value a Ha).
  replace ((32 <? n) || (n =? 0)) with false by lia. by replace (n <? 0) with false by lia.
Qed.
(** The text [to_string] writes for a network is read back by [parse] as the same
    network. *)
Theorem parse_prefix_text p : wellformed p -> parse (prefix_text p) = Parsed p.
Proof.
  destruct p as [a m]. intros [Ha (n & Hn & Hm)]. cbn in Ha, Hm. subst m.
  assert (forall k, small (octet a k)) as Hs by (intros k; apply small_octet, octet_range).
  destruct (Hs 3) as (D3 & L3 & _). destruct (Hs 2) as (D2 & L2 & _). destruct (Hs 1) as (D1 & L1 & _).
  destruct (Hs 0) as (D0 & L0 & _).
  assert (small n) as (Dn & Ln & An) by (apply small_octet; lia).
  assert (length (print_int n) <= 2)%nat as Ln2.
  { assert (Forall (fun n => length (print_int n) <= 2)%nat (seqZ 0 33)) as H by decide_now.
    rewrite -> list.Forall_forall in H. apply H, elem_of_seqZ. lia. }
  unfold parse, prefix_text, address_text. cbn [m_addr_prefix m_mask]. rewrite -> mask_bits_mask by lia.
  rewrite -> take_ge by (destruct (n <? 32); rewrite -> ?length_app; cbn; lia).
  rewrite <- !app_assoc. unfold tokens0.
  rewrite -> (parse_digits _ _ _ _ [] _ D3) by (done || lia).
  cbn [app]. rewrite -> (parse_piece 46 _ _ 0 1) by (done || lia || auto).
  rewrite -> (parse_piece 46 _ _ 1 2) by (done || lia || auto).
  rewrite -> (parse_piece 46 _ _ 2 3) by (done || lia || auto).
  destruct (Z.ltb_spec n 32) as [H|H].
  - rewrite <- (app_nil_r (print_int n)). rewrite -> (parse_piece 47 _ _ 3 4) by (done || lia || auto).
    by apply (finish_parse_spec a n (Some (print_int n))).
  - apply (finish_parse_spec a n None); lia.
Qed.
Lemma parse_prefix_text_witness :
  wellformed (mkprefix 3232235776 (address_mask 24)) /\
  parse (prefix_text (mkprefix 3232235776 (address_mask 24))) = Parsed (mkprefix 3232235776 (address_mask 24)).
Proof.
  assert (wellformed (mkprefix 3232235776 (address_mask 24))) as H by (split; [cbn; lia|exists 24; split; [lia|done]]).
  split; [exact H|]. by apply (parse_prefix_text _ H).
Defined.
(** The texts "4294967297.2.3.4" (an octet wraps around), "1/2.3" (a dot behind the slash)
    and "1/2147483648" (a negative mask). *)
Example odd_texts :
  parse (cstr "4294967297.2.3.4") = parse (cstr "1.2.3.4") /\ parse (cstr "1/2.3") = Overrun /\
  parse (cstr "1/2147483648") = Assertion /\ parse (cstr "1.2.3.4/33") = Bad_cast.
Proof. split_and!; reflexivity. Qed.

(** * The bans survive a restart *)

(** What [add_ban] and [check_ban] make of a ban. *)
Definition good_ban (b : netban) : Prop :=
  0 <= nb_ip b < 2 ^ 32 /\ 0 <= nb_mask b < 2 ^ 32 /\ (nb_persist b = 0 \/ nb_persist b = 1) /\
  (length (nb_reason b) <= 63)%nat /\ Forall (fun c => c <> 0) (nb_reason b) /\
  0 <= nb_hits b < 2 ^ 32 /\ 0 <= nb_lasthit b < 2 ^ 63 /\ is_valid b = true.
Lemma cut_nul_reason t n k : (length t <= n)%nat -> Forall (fun c => c <> 0) t -> cut_nul n (t ++ replicate k 0) = t.
Proof.
  revert n. induction t as [|c t IH]; intros n Hn Ht.
  - destruct n, k; done.
  - destruct n as [|n]; [simpl in Hn; lia|]. apply Forall_cons in Ht as [Hc Ht]. cbn [app cut_nul].
    replace (c =? 0) with false by lia. rewrite -> IH; [done|simpl in Hn; lia|done].
Qed.
Lemma bind_run {S A B} (m : M S A) (k : A -> M S B) s a s' : m s = (a, s') -> bind m k s = k a s'.
Proof. intros H. unfold bind. by rewrite -> H. Qed.
Lemma read_app l n r : length l = n -> read n (l ++ r) = (l, r).
Proof. intros H. unfold read. by rewrite -> take_app_length', drop_app_length' by done. Qed.
Lemma get_int_wraps v l : get_int (put_n 4 v ++ l) = (to_int (v mod 2 ^ 32), l).
Proof. unfold get_int. by rewrite -> (bind_run _ _ _ _ _ (get_put _ _ _)). Qed.
Lemma read_record_bytes b l : good_ban b -> read_record (record_bytes b ++ l) = (b, l).
Proof.
  destruct b as [ip mask persist reason hits last_]. intros (H1 & H2 & H3 & H4 & H5 & H6 & H7 & _).
  cbn [nb_ip nb_mask nb_persist nb_reason nb_hits nb_lasthit] in H1, H2, H3, H4, H5, H6, H7.
  assert (length (reason ++ replicate (64 - length reason) 0) = 64%nat) as H8 by (rewrite -> length_app, length_replicate; lia).
  unfold read_record, record_bytes. cbn [nb_ip nb_mask nb_persist nb_reason nb_hits nb_lasthit].
  rewrite <- !(app_assoc (put_n _ _)), <- (app_assoc (reason ++ _)), <- (app_assoc (put_n 4 hits)).
  do 2 rewrite -> (bind_run _ _ _ _ _ (get_put _ _ _)). rewrite -> (bind_run _ _ _ _ _ (get_int_wraps _ _)).
  rewrite -> (bind_run _ _ _ _ _ (read_app _ 64 _ H8)).
  do 2 rewrite -> (bind_run _ _ _ _ _ (get_put _ _ _)). unfold ret, to_time.
  rewrite -> cut_nul_reason by done. rewrite -> !Z.mod_small by (cbn; lia).
  replace (last_ <? 2 ^ 63) with true by lia.
  do 2 f_equal. destruct H3 as [->| ->]; reflexivity.
Qed.
Lemma read_records_bytes l : Forall good_ban l -> forall r, read_records (length l) (concat (map record_bytes l) ++ r) = (l, r).
Proof.
  induction 1 as [|b l Hb Hl IH]; intros r; [done|]. cbn [length map concat read_records].
  rewrite <- app_assoc, (bind_run _ _ _ _ _ (read_record_bytes _ _ Hb)), (bind_run _ _ _ _ _ (IH r)).
  destruct Hb as (_ & _ & _ & _ & _ & _ & _ & Hv). by rewrite -> Hv.
Qed.
Lemma length_records l : Forall good_ban l -> length (concat (map record_bytes l)) = (length l * RECORD)%nat.
Proof.
  induction 1 as [|b l Hb Hl IH]; [done|]. cbn [map concat length]. rewrite -> length_app, IH.
  unfold record_bytes. rewrite -> !length_app, !length_put, length_replicate. destruct Hb as (_ & _ & _ & Hr & _).
  unfold RECORD. lia.
Qed.
(** The bans [shutdown] writes to the file are those [init] finds there, in order and
    with their hits. *)
Theorem bans_survive st s : Forall good_ban (nb_bans st) ->
  exec (init_bans (Some (bans_file st))) (mknetbans [] s) = mknetbans (nb_bans st) s.
Proof.
  intros H. unfold bans_file, init_bans. rewrite -> length_records by done.
  rewrite -> Nat.Div0.mod_mul, Nat.div_mul by done. cbn [Nat.eqb negb].
  unfold exec, modify, eval. cbn [nb_bans nb_stack fst snd app].
  pose proof (read_records_bytes _ H []) as Hr. rewrite -> app_nil_r in Hr. by rewrite -> Hr.
Qed.
Definition sample_bans : netbans :=
  mknetbans [mknetban 3232235776 (address_mask 24) 1 (cstr "proxies") 7 1400000000; mknetban 167772160 (address_mask 16) 0 [] 0 0] [].
Lemma bans_survive_witness :
  Forall good_ban (nb_bans sample_bans) /\ exec (init_bans (Some (bans_file sample_bans))) (mknetbans [] []) = sample_bans.
Proof.
  assert (Forall good_ban (nb_bans sample_bans)) as H
    by (repeat constructor; cbn; try lia; try done; repeat constructor; lia).
  split; [exact H|]. by apply (bans_survive sample_bans []).
Defined.
