(* ===== verification/Extinfo.v ===== *)
(** Answers to queries of the server browser (fpsgame/extinfo.h, fpsgame/server.cpp
    [serverinforeply], engine/server.cpp [serverinfo_input]).

    The queries read the state of the server and change nothing in it.  What they keep of
    their own is [ext]: the request that is read, the two static flags, the datagrams sent.
    The reply is written behind the request in the same buffer, so the two do not overlap. *)
From S2P Require Import Prelude Wire Text Stream Game Random State Engine Servmode Roster Prefix Netbans.

#[local] Open Scope list_scope.

Definition EXT_ACK : Z := -1.
Definition EXT_VERSION : Z := 105.
Definition EXT_NO_ERROR : Z := 0.
Definition EXT_ERROR : Z := 1.
Definition EXT_PLAYERSTATS_RESP_IDS : Z := -10.
Definition EXT_PLAYERSTATS_RESP_STATS : Z := -11.
Definition EXT_UPTIME : Z := 0.
Definition EXT_PLAYERSTATS : Z := 1.
Definition EXT_TEAMSCORE : Z := 2.
Definition EXT_SUCKERSERV : Z := -5.
Definition EXT_SUCKERSERV_VERSION : Z := 2.

Record ext := mkext {
  req : ucharbuf; ext_admin_client : bool; ext_hopmod_request : bool; replies : list bytes;
  tx_info_bytes : Z; rx_info_bytes : Z; info_queries : Z
}.
#[export] Instance eta_ext : Eta ext :=
  settable mkext <req; ext_admin_client; ext_hopmod_request; replies; tx_info_bytes; rx_info_bytes; info_queries>.

Definition to_size (n : Z) : Z := n mod 2 ^ 64.
(** [sendserverinforeply] *)
Definition sendserverinforeply (p : ucharbuf) : M ext unit :=
  modify {{ tx_info_bytes ::= fun n => to_size (n + len p) }} ;;
  modify {{ replies ::= fun l => l ++ [written p] }}.
(** A reader works on the request. *)
Definition onreq {A} (m : M ucharbuf A) : M ext A := fun x => (eval m (req x), x <| req := exec m (req x) |>).
Definition req_left : M ext Z := gets (fun x => remaining (req x)).

(** What the build fixes: the number of the revision, date and time. *)
Record build := mkbuild { revision : Z; build_date : cstring; build_time : cstring }.

Section extinfo.
Context {hooks : Hooks}.
(** The variables [extinfoip] and [ext_admin_pass], the clock of [getnanoseconds] when the
    server started and now. *)
Variables (the_build : build) (extinfoip : bool) (ext_admin_pass : cstring) (startup now : Z).
Variable s : server.

Definition buildtime : cstring := take 259 (build_date the_build ++ [32] ++ build_time the_build).
Definition getuptime : Z := to_int (to_size (now - startup) / 1000000000).

(** The statistics of one client. *)
Definition player_ip (admin : bool) (c : clientinfo) : Z :=
  if extinfoip || admin then getclientip (clientnum c) s else 0.
Definition player_fields (admin hopmod : bool) (c : clientinfo) : list field :=
  let ip := player_ip admin c in
  [FInt EXT_PLAYERSTATS_RESP_STATS; FInt (clientnum c); FInt (ping c); FStr (name c); FStr (team c);
   FInt (frags c); FInt (flagscore c); FInt (deaths c); FInt (teamkills c);
   FInt (Z.quot (to_int (damage c * 100)) (Z.max (shotdamage c) 1));
   FInt (health c); FInt (armour c); FInt (gunselect c); FInt (privilege c); FInt (cs_code (state c));
   FRaw (take 3 (put_n 4 ip))] ++
  (if admin || hopmod then [FInt (if admin then Z.land (Z.shiftr ip 24) 0xFF else -1)] else []) ++
  (if hopmod
   then [FInt EXT_SUCKERSERV; FInt (suicides c); FInt (shotdamage c); FInt (damage c);
         FInt (explosivedamage c); FInt (hits c); FInt (misses c); FInt (shots c)] ++
        (if admin
         then [FInt (Z.quot (to_int (totalmillis s - connectmillis c)) 1000);
               FRaw [if mcrc s =? to_uint (mapcrc c) then 0 else 1];
               FRaw [if spy c then 1 else 0]]
         else [])
   else []).
Definition extinfoplayer (p : ucharbuf) (ci : nat) : M ext unit :=
  x <- gets id ;;
  sendserverinforeply (put_fields (player_fields (ext_admin_client x) (ext_hopmod_request x) (deref ci s)) p).

Definition extinfoteamscore (t : cstring) (score : Z) : list field :=
  [FStr t; FInt score] ++
  match (k ← smode s; sm_extinfoteam (servmode_of k) t s) with
  | Some bases_ => bases_
  | None => [FInt (-1)]
  end.
(** Each team of a player that has no entry yet. *)
Definition add_score (scores : list (cstring * Z)) (ci : nat) : list (cstring * Z) :=
  let c := deref ci s in
  if negb (cs_eqb (state c) CS_SPECTATOR) && negb (bool_decide (team c = [])) &&
     negb (existsb (fun e => bool_decide (e.1 = team c)) scores)
  then scores ++ [(team c, if hidefrags s then 0 else default 0 (access_teaminfo (team c) s))]
  else scores.
Definition team_scores : list (cstring * Z) :=
  let start := match smode s with
               | Some k => if sm_hidefrags (servmode_of k) then sm_getteamscores (servmode_of k) s else []
               | None => []
               end in
  fold_left add_score (clients s) start.
Definition seconds_left : Z := Z.max (Z.quot (to_int (gamelimit s - gamemillis s)) 1000) 0.
Definition extinfoteams : list field :=
  [FInt (if m_teammode (gamemode s) then 0 else 1); FInt (gamemode s); FInt seconds_left] ++
  if negb (m_teammode (gamemode s)) then []
  else concat (map (fun e => extinfoteamscore e.1 e.2) team_scores).

(** A spy is shown to the administrator only. *)
Definition shown (admin : bool) (ci : nat) : bool := negb (spy (deref ci s)) || spy (deref ci s) && admin.
Definition with_number (cn : Z) (ci : nat) : bool := clientnum (deref ci s) =? cn.
Definition find_client (cn : Z) : option nat := head (filter (fun ci => with_number cn ci = true) (clients s)).
Definition clear_request : M ext unit := modify {{ ext_admin_client := false }} ;; modify {{ ext_hopmod_request := false }}.
Definition read_extension : M ext unit :=
  n <- req_left ;;
  if n <=? 0 then ret tt else
  v <- onreq getint ;;
  modify {{ ext_hopmod_request := 0 <? v }} ;;
  n <- req_left ;;
  if bool_decide (ext_admin_pass = []) || (n <=? 0) then ret tt else
  t <- onreq (getstring MAXSTRLEN) ;;
  modify {{ ext_admin_client := bool_decide (ext_admin_pass = t) }}.
Definition playerstats (p : ucharbuf) : M ext unit :=
  cn <- onreq getint ;;
  read_extension ;;
  admin <- gets ext_admin_client ;;
  let ci := if 0 <=? cn then find_client cn else None in
  if (0 <=? cn) && match ci with Some ci => spy (deref ci s) && negb admin | None => true end then
    sendserverinforeply (putint EXT_ERROR p) ;; clear_request
  else
    let p := putint EXT_NO_ERROR p in
    let all := filter (fun ci => shown admin ci = true) (clients s) in
    let asked := match ci with Some ci => [ci] | None => all end in
    sendserverinforeply (put_fields (FInt EXT_PLAYERSTATS_RESP_IDS :: map (fun ci => FInt (clientnum (deref ci s))) asked) p) ;;
    forM asked (extinfoplayer p) ;;
    clear_request.
Definition extserverinforeply (p : ucharbuf) : M ext unit :=
  extcmd <- onreq getint ;;
  let p := putint EXT_VERSION (putint EXT_ACK p) in
  if extcmd =? EXT_UPTIME then
    let p := putint getuptime p in
    n <- req_left ;;
    more <- (if n <=? 0 then ret false else v <- onreq Wire.get ;; ret (0 <? v)) ;;
    sendserverinforeply
      (if more then put_fields [FInt EXT_SUCKERSERV; FInt EXT_SUCKERSERV_VERSION; FInt (revision the_build); FStr buildtime] p else p)
  else if extcmd =? EXT_SUCKERSERV then
    sendserverinforeply (put_fields [FInt EXT_NO_ERROR; FInt (revision the_build); FStr buildtime] p)
  else if extcmd =? EXT_PLAYERSTATS then playerstats p
  else if extcmd =? EXT_TEAMSCORE then sendserverinforeply (put_fields extinfoteams p)
  else sendserverinforeply (putint EXT_ERROR p).

(** What the browser shows of a server. *)
Definition browser_mastermode : Z :=
  if negb (bool_decide (serverpass s = [])) then MM_PASSWORD
  else if negb (m_mp (gamemode s)) then MM_PRIVATE
  else if negb (mastermode s =? 0) || display_open s then mastermode s
  else MM_AUTH.
Definition serverinfo_fields : list field :=
  let clients_ := numclients (-1) false true false s in
  let maxclients_ := maxclients s + (if spec_slots s then spec_count s else 0) in
  let paused := gamepaused s || negb (gamespeed s =? 100) in
  [FInt clients_; FInt (if paused then 7 else 5); FInt PROTOCOL_VERSION; FInt (gamemode s);
   FInt (if m_timed (gamemode s) then seconds_left else 0);
   FInt (if clients_ <=? maxclients_ then maxclients_ else clients_); FInt browser_mastermode] ++
  (if paused then [FInt (if gamepaused s then 1 else 0); FInt (gamespeed s)] else []) ++
  [FStr (smapname s); FStr (serverdesc s)].
Definition serverinforeply (p : ucharbuf) : M ext unit :=
  n <- req_left ;;
  extended <- (if n <=? 0 then ret false else v <- onreq getint ;; ret (v =? 0)) ;;
  if extended then (if enable_extinfo s then extserverinforeply p else ret tt)
  else sendserverinforeply (put_fields serverinfo_fields p).

(** A datagram of at most [MAXTRANS] bytes from [host]; [junk] fills the rest of the
    buffer.  A banned sender gets no answer. *)
Definition serverinfo_input (host time : Z) (data junk : bytes) (bans : netbans) (x : ext) : netbans * ext :=
  let x := x <| info_queries ::= fun n => to_size (n + 1) |>
             <| rx_info_bytes ::= fun n => to_size (n + zlength data) |> in
  let banned := eval (check_ban host time) bans in
  let bans := exec (check_ban host time) bans in
  if banned then (bans, x) else
  let pong := data ++ take (Z.to_nat MAXTRANS - length data) junk in
  let x := x <| req := databuf_of pong (zlength data) |> in
  let p := databuf_of pong MAXTRANS <| len := zlength data |> in
  (bans, exec (serverinforeply p) x).
End extinfo.

(** * What is hidden *)

Section hidden.
Context {hooks : Hooks}.
Variables (ext_admin_pass : cstring).

Definition public (s : server) : list clientinfo :=
  map (fun ci => deref ci s) (filter (fun ci => shown s false ci = true) (clients s)).
(** The password of the administrator stands in the request: after the number of the client
    and the number that asks for the extension. *)
Definition holds_password (r : ucharbuf) : bool :=
  let r1 := exec getint r in
  let r2 := exec getint r1 in
  negb (bool_decide (ext_admin_pass = [])) && (0 <? remaining r1) && (0 <? remaining r2) &&
  bool_decide (ext_admin_pass = eval (getstring MAXSTRLEN) r2).
(** The request is read with the flag down. *)
Definition unprivileged (x : ext) : Prop := ext_admin_client x = false /\ holds_password (req x) = false.
Lemma read_unprivileged x : unprivileged x ->
  ext_admin_client (exec (read_extension ext_admin_pass) (exec (onreq getint) x)) = false.
Proof.
  intros [Hx Hp]. set (x1 := exec (onreq getint) x).
  assert (ext_admin_client x1 = false) as Hx1 by done. assert (req x1 = exec getint (req x)) as Hr1 by done.
  unfold holds_password in Hp. rw -Hr1 in Hp. clearbody x1. clear Hx Hr1. unfold read_extension.
  rw exec_bind. change (eval req_left x1) with (remaining (req x1)). change (exec req_left x1) with x1.
  destruct (Z.leb_spec (remaining (req x1)) 0) as [|Hr]; [exact Hx1|].
  do 3 rw exec_bind. set (x2 := exec (modify _) _).
  assert (ext_admin_client x2 = false) as Hx2 by exact Hx1. assert (req x2 = exec getint (req x1)) as Hr2 by done.
  rw -Hr2 in Hp. clearbody x2. change (eval req_left x2) with (remaining (req x2)). change (exec req_left x2) with x2.
  destruct (bool_decide (ext_admin_pass = [])); [exact Hx2|].
  destruct (Z.leb_spec (remaining (req x2)) 0) as [|Hr']; [exact Hx2|]. cbn [orb]. rw exec_bind.
  rewrite -> (proj2 (Z.ltb_lt 0 (remaining (req x1)))) in Hp by done. rewrite -> (proj2 (Z.ltb_lt 0 (remaining (req x2)))) in Hp by done.
  exact Hp.
Qed.

Lemma shown_spec s ci : shown s false ci = negb (spy (deref ci s)).
Proof. unfold shown. by destruct (spy (deref ci s)). Qed.

Lemma player_fields_public s s' hopmod c :
  player_fields false s false hopmod c = player_fields false s' false hopmod c.
Proof. reflexivity. Qed.
Lemma reply_players s s' l l' p x : ext_admin_client x = false ->
  map (fun ci => deref ci s) l = map (fun ci => deref ci s') l' ->
  exec (forM l (extinfoplayer false s p)) x = exec (forM l' (extinfoplayer false s' p)) x.
Proof.
  revert l' x. induction l as [|ci l IH]; intros [|ci' l'] x Hx Hl; try done.
  cbn [map] in Hl. apply (inj2 cons) in Hl as [Hc Hl]. cbn [forM]. rewrite -> !exec_bind.
  assert (exec (extinfoplayer false s p ci) x = exec (extinfoplayer false s' p ci') x) as ->.
  { unfold extinfoplayer. rewrite -> !exec_bind. change (eval (gets id) x) with x. change (exec (gets id) x) with x.
    by rewrite -> Hx, Hc. }
  apply IH; done.
Qed.
Lemma find_nothing {A} (f : A -> bool) l : (forall x, x ∈ l -> f x = false) -> find f l = None.
Proof.
  induction l as [|x l IH]; intros H; [done|]. cbn [find]. rewrite -> H by left. apply IH. intros y Hy. apply H. by right.
Qed.
Definition public_client (cn : Z) (s : server) : option clientinfo :=
  match find_client s cn with
  | Some ci => if spy (deref ci s) then None else Some (deref ci s)
  | None => None
  end.
(** No spy has the number of a client that is not one. *)
Definition spies_apart (s : server) : Prop := forall ci cj,
  ci ∈ clients s -> cj ∈ clients s -> spy (deref ci s) = true -> spy (deref cj s) = false ->
  clientnum (deref ci s) <> clientnum (deref cj s).
Lemma find_public s cn : spies_apart s -> public_client cn s = find (fun c => clientnum c =? cn) (public s).
Proof.
  unfold public_client, find_client, public, spies_apart. induction (clients s) as [|ci l IH]; intros Hap; [done|].
  assert (forall ci cj, ci ∈ l -> cj ∈ l -> spy (deref ci s) = true -> spy (deref cj s) = false ->
    clientnum (deref ci s) <> clientnum (deref cj s)) as Hl by (intros; apply Hap; [by right..|done|done]).
  specialize (IH Hl). rewrite -> !filter_cons, shown_spec.
  destruct (Z.eqb_spec (clientnum (deref ci s)) cn) as [Hc|Hc].
  - rewrite -> decide_True by (unfold with_number; lia). cbn [head].
    destruct (spy (deref ci s)) eqn:Hspy; cbn [negb].
    + rewrite -> decide_False by done. symmetry. apply find_nothing. intros c Hin.
      apply list_elem_of_fmap in Hin as (cj & -> & Hj). apply list_elem_of_filter in Hj as [Hsh Hj].
      rw shown_spec in Hsh. apply Z.eqb_neq. intros E. rw -E in Hc. revert Hc.
      apply Hap; [left|by right|done|by apply negb_true_iff].
    + rewrite -> decide_True by done. cbn [map find]. by rewrite -> (proj2 (Z.eqb_eq _ _) Hc).
  - rewrite -> decide_False by (unfold with_number; lia). rewrite -> IH. destruct (spy (deref ci s)); cbn [negb].
    + by rewrite -> decide_False.
    + rewrite -> decide_True by done. cbn [map find]. by rewrite -> (proj2 (Z.eqb_neq _ _) Hc).
Qed.
Definition answer (s : server) (p : ucharbuf) (asked : list nat) : M ext unit :=
  sendserverinforeply (put_fields (FInt EXT_PLAYERSTATS_RESP_IDS :: map (fun ci => FInt (clientnum (deref ci s))) asked) p) ;;
  forM asked (extinfoplayer false s p) ;;
  clear_request.
Lemma answer_public s s' l l' p x : ext_admin_client x = false ->
  map (fun ci => deref ci s) l = map (fun ci => deref ci s') l' ->
  exec (answer s p l) x = exec (answer s' p l') x.
Proof.
  intros Hx Hl. unfold answer. rewrite -> !exec_bind.
  assert (map (fun ci => FInt (clientnum (deref ci s))) l = map (fun ci => FInt (clientnum (deref ci s'))) l') as ->.
  { pose proof (f_equal (map (fun c => FInt (clientnum c))) Hl) as H. by rewrite -> !map_map in H. }
  by rewrite -> (reply_players s s' l l').
Qed.
Lemma playerstats_unfold s p x : unprivileged x ->
  let cn := eval (onreq getint) x in
  let x' := exec (read_extension ext_admin_pass) (exec (onreq getint) x) in
  exec (playerstats false ext_admin_pass s p) x =
  if 0 <=? cn then
    match find_client s cn with
    | Some ci => if spy (deref ci s) then exec (sendserverinforeply (putint EXT_ERROR p) ;; clear_request) x'
                 else exec (answer s (putint EXT_NO_ERROR p) [ci]) x'
    | None => exec (sendserverinforeply (putint EXT_ERROR p) ;; clear_request) x'
    end
  else exec (answer s (putint EXT_NO_ERROR p) (filter (fun ci => shown s false ci = true) (clients s))) x'.
Proof.
  intros Hx cn x'. unfold playerstats. rewrite -> !exec_bind. fold cn x'.
  change (eval (gets ext_admin_client) x') with (ext_admin_client x'). change (exec (gets ext_admin_client) x') with x'.
  apply read_unprivileged in Hx. fold x' in Hx. rewrite -> Hx. cbv zeta.
  destruct (0 <=? cn); cbn [andb]; [|reflexivity].
  destruct (find_client s cn) as [ci|]; [|reflexivity]. by destruct (spy (deref ci s)).
Qed.
Lemma playerstats_hidden s s' p x :
  spies_apart s -> spies_apart s' -> public s = public s' -> unprivileged x ->
  exec (playerstats false ext_admin_pass s p) x = exec (playerstats false ext_admin_pass s' p) x.
Proof.
  intros Hs Hs' Hp Hx. rewrite -> !playerstats_unfold by done. cbv zeta.
  set (cn := eval (onreq getint) x). apply read_unprivileged in Hx.
  pose proof (find_public s cn Hs) as F. rewrite -> Hp, <- (find_public s' cn Hs') in F. unfold public_client in F.
  destruct (0 <=? cn); [|by apply answer_public].
  destruct (find_client s cn) as [ci|], (find_client s' cn) as [cj|]; try destruct (spy (deref ci s));
    try destruct (spy (deref cj s')); try done.
  apply answer_public; [done|]. apply (inj Some) in F. cbn [map]. by rewrite -> F.
Qed.

(** ** One query after another *)
Variables (the_build : build) (startup now : Z).
(** A datagram with the request [r], answered in the state [s] behind [p]. *)
Record query := mkquery { q_server : server; q_request : ucharbuf; q_reply : ucharbuf }.
Definition reply_to (q : query) : M ext unit :=
  modify {{ req := q_request q }} ;;
  serverinforeply the_build false ext_admin_pass startup now (q_server q) (q_reply q).
Definition flag_down (x : ext) : Prop := ext_admin_client x = false.
Lemma down_onreq {A} (m : M ucharbuf A) : respects (inv_rel flag_down) (onreq m).
Proof. intros x. exact id. Qed.
Lemma down_req r : respects (inv_rel flag_down) (modify {{ req := r }}).
Proof. intros x. exact id. Qed.
Lemma down_send p : respects (inv_rel flag_down) (sendserverinforeply p).
Proof. unfold sendserverinforeply. apply respects_bind; [apply _|intros x; exact id|intros _ x; exact id]. Qed.
Lemma down_cleared {A} (m : M ext A) : respects (inv_rel flag_down) (m ;; clear_request).
Proof. intros x _. unfold flag_down, clear_request. by rw !exec_bind. Qed.
#[local] Hint Resolve down_onreq down_req down_send down_cleared : respects.
Lemma down_playerstats s p : respects (inv_rel flag_down) (playerstats false ext_admin_pass s p).
Proof.
  intros x _. unfold flag_down, playerstats. do 3 rw exec_bind. set (x1 := exec (gets _) _). clearbody x1.
  cbv zeta. destruct (_ && _); unfold clear_request; rw !exec_bind; done.
Qed.
#[local] Hint Resolve down_playerstats : respects.
Lemma down_reply q : respects (inv_rel flag_down) (reply_to q).
Proof.
  unfold reply_to, serverinforeply, extserverinforeply, req_left. cbv zeta. solve_respects.
Qed.
(** C35: Without the password of the administrator, and with addresses not shown, the answer
    to a question for the statistics of players depends on nothing but the records of the
    clients that are not spies: two servers that agree on those give the same datagrams,
    whatever spies they have and whatever the addresses of their clients are, as long as
    no spy has the number of a client that is not one.  This holds for a request that does
    not name the password after any queries before it, with the password or without:
    what they were granted is gone. *)
Theorem spies_hidden s s' p r earlier x :
  spies_apart s -> spies_apart s' -> public s = public s' ->
  flag_down x -> holds_password r = false ->
  let x1 := exec (forM earlier reply_to) x in
  exec (modify {{ req := r }} ;; playerstats false ext_admin_pass s p) x1 =
  exec (modify {{ req := r }} ;; playerstats false ext_admin_pass s' p) x1.
Proof.
  intros Hs Hs' Hp Hx Hr. assert (flag_down (exec (forM earlier reply_to) x)) as H1.
  { revert Hx. apply (respects_forM (inv_rel flag_down)). intros q _. apply down_reply. }
  cbv zeta. set (x1 := exec _ x) in *. clearbody x1.
  set (x2 := x1 <| req := r |>).
  change (exec (playerstats false ext_admin_pass s p) x2 = exec (playerstats false ext_admin_pass s' p) x2).
  by apply playerstats_hidden.
Qed.
End hidden.

(** ** Examples *)
#[local] Existing Instances no_hooks.
(** A player, a spy, and the same server without the spy. *)
Definition with_spy (spies_ : bool) : server :=
  let player := clientinfo0 <| clientnum := 3 |> <| name := cstr "player" |> in
  let hidden := clientinfo0 <| clientnum := 128 |> <| name := cstr "hidden" |> <| spy := true |> in
  server0 <| sv_roster ::= fun r => r <| ci_heap := <[1%nat := player]> (<[2%nat := hidden]> (ci_heap r)) |>
                                      <| clients := if spies_ then [2%nat; 1%nat] else [1%nat] |> |>.
Definition request (l : bytes) : ext := mkext (databuf_of l (zlength l)) false false [] 0 0 0.
Definition request_of (l : bytes) : ucharbuf := databuf_of l (zlength l).
(** Somebody has asked with the password before. *)
Definition asked_before : query :=
  mkquery (with_spy true) (request_of [0; 1; 0xFF; 1; 112; 119; 0]) (databuf_of (replicate 200 0) 200).
Lemma spies_hidden_witness :
  let x1 := exec (forM [asked_before] (reply_to (cstr "pw") (mkbuild 1 [] []) 0 0)) (request []) in
  exec (modify {{ req := request_of [0xFF; 1] }} ;; playerstats false (cstr "pw") (with_spy true) (databuf_of (replicate 100 0) 100)) x1 =
  exec (modify {{ req := request_of [0xFF; 1] }} ;; playerstats false (cstr "pw") (with_spy false) (databuf_of (replicate 100 0) 100)) x1.
Proof.
  apply (spies_hidden (cstr "pw") (mkbuild 1 [] []) 0 0 (with_spy true) (with_spy false)); [| |vm_compute; reflexivity..].
  all: intros ci cj Hi%list_elem_of_In Hj%list_elem_of_In.
  - destruct Hi as [<-|[<-|[]]], Hj as [<-|[<-|[]]]; vm_compute; congruence.
  - destruct Hi as [<-|[]], Hj as [<-|[]]; vm_compute; congruence.
Defined.
(** A spy that has the number of a player gives itself away: the question for the player is
    answered with an error. *)
Definition with_double (spies_ : bool) : server :=
  with_spy spies_ <| sv_roster ::= {{ ci_heap ::= alter {{ clientnum := 3 }} 2%nat }} |>.
Example spy_shows :
  let ask b := replies (exec (playerstats false (cstr "pw") (with_double b) (databuf_of (replicate 100 0) 100)) (request [3])) in
  ask true = [[1]] /\ length (ask false) = 2%nat.
Proof. vm_compute. done. Qed.
(** All players, without and with the password, and the number of the spy. *)
Example replies_of_stats :
  let ask l := replies (exec (serverinforeply (mkbuild 1 [] []) false (cstr "pw") 0 0 (with_spy true) (databuf_of (replicate 200 0) 200)) (request l)) in
  map (take 5) (ask [0; 1; 0xFF]) = [[0xFF; 105; 0; 0xF6; 3]; [0xFF; 105; 0; 0xF5; 3]] /\
  length (ask [0; 1; 0xFF; 1; 112; 119; 0]) = 3%nat /\ ask [0; 1; 0x80; 128; 0] = [[0xFF; 105; 1]].
Proof. vm_compute. by split_and!. Qed.
