(* ===== verification/Authserver.v ===== *)
(** The server of global accounts (authserver/authserver.cpp).

    Game servers connect to it by TCP, ask for challenges with lines of text and hand the
    answers of their players on.  Sockets are numbers; what select, accept, send and
    receive give is the argument of a round.  Lines printed to the terminal, the start,
    the signals and the reload of the scripts are left out, and so are the fields of a
    client that nothing reads.  [input] holds the [inputpos] characters that wait. *)
From stdpp Require Import gmap.
From S2P Require Import Prelude Text Bigint Gfield Tiger Curve Float32 Stream Game Random State Engine Servmode Roster Table.

#[local] Open Scope list_scope.

Definition INPUT_LIMIT : Z := 4096.
Definition OUTPUT_LIMIT : Z := 64 * 1024.
Definition CLIENT_TIME : Z := 3 * 60 * 1000.
Definition AUTH_TIME : Z := 30 * 1000.
Definition AUTH_LIMIT : Z := 100.
Definition AUTH_THROTTLE : Z := 1000.
Definition CLIENT_LIMIT : Z := 4096.
Definition DUP_LIMIT : Z := 16.

(** enet/include/enet/time.h *)
Definition ENET_TIME_OVERFLOW : Z := 86400000.
Definition ENET_TIME_DIFFERENCE (a b : Z) : Z :=
  if ENET_TIME_OVERFLOW <=? to_uint (a - b) then to_uint (b - a) else to_uint (a - b).

(** ** Accounts *)
Record userinfo := mkuser { u_name : cstring; u_desc : cstring; u_pubkey : cstring; u_privilege : cstring }.
(** The hash looks at the name only. *)
#[export] Instance user_hashed : Hashed (cstring * cstring) userinfo :=
  {| hthash := fun k => hthash_string k.1; getkey := fun u => (u_name u, u_desc u) |}.

Record authreq := mkauthreq { reqtime : Z; req_id : Z; req_answer : gfield }.
Record account_client := mkaclient {
  host : Z; socket : Z; input : bytes; out : bytes; outputpos : Z;
  connecttime : Z; lastinput : Z; lastauth : Z; authreqs : list authreq
}.
#[export] Instance eta_aclient : Eta account_client :=
  settable mkaclient <host; socket; input; out; outputpos; connecttime; lastinput; lastauth; authreqs>.
Definition aclient0 (host socket now : Z) : account_client := mkaclient host socket [] [] 0 now now 0 [].

(** What all clients share; a [size_t] has 64 bits. *)
Record shared := mkshared {
  users : @hashbase userinfo; starttime : Z; servtime : Z; rng : mtstate;
  tx_packets : Z; tx_bytes : Z; rx_packets : Z; rx_bytes : Z
}.
#[export] Instance eta_shared : Eta shared :=
  settable mkshared <users; starttime; servtime; rng; tx_packets; tx_bytes; rx_packets; rx_bytes>.
Record authserver := mkauthserver { sh : shared; aclients : list account_client }.
#[export] Instance eta_authserver : Eta authserver := settable mkauthserver <sh; aclients>.

Section accounts.
(** [event_adduser], [event_deleteuser] and [event_clearusers] run scripts. *)
Variable auth_event : string -> list cstring -> M authserver unit.
Definition set_users (f : @hashbase userinfo -> @hashbase userinfo) : M authserver unit :=
  modify {{ sh ::= fun g => g <| users ::= f |> }}.
(** What an account has already stays. *)
Definition adduser (name desc pubkey priv : cstring) : M authserver unit :=
  set_users (fun t => (access_or (name, desc) (mkuser name desc pubkey priv) t).2) ;;
  auth_event "adduser" [name; desc; pubkey; priv].
Definition deleteuser (name desc : cstring) : M authserver unit :=
  st <- gets id ;;
  let '(found, t) := remove (name, desc) (users (sh st)) in
  set_users (fun _ => t) ;;
  if found then auth_event "deleteuser" [name; desc] else ret tt.
Definition clearusers : M authserver unit := set_users clear ;; auth_event "clearusers" [].
(** authserver_functions.cpp [lua_user_list] *)
Definition user_list (desc : cstring) (st : authserver) : list (cstring * cstring * cstring) :=
  map (fun u => (u_name u, u_pubkey u, u_privilege u))
    (filter (fun u => u_desc u = desc) (elements (users (sh st)))).
End accounts.

(** ** One client

    A handler works on a client and on what is shared. *)
Record conn := mkconn { cl : account_client; glob : shared }.
#[export] Instance eta_conn : Eta conn := settable mkconn <cl; glob>.
Definition upd_cl (f : account_client -> account_client) : M conn unit := modify {{ cl ::= f }}.
Definition now : M conn Z := gets (fun x => servtime (glob x)).

Inductive reply : Set :=
| Failauth (id : Z) | Chalauth (id : Z) (challenge : cstring) | Succauth (id : Z)
| NotFound (id : Z) | FoundId (id : Z) (privilege : cstring).
Definition reply_text (r : reply) : cstring :=
  match r with
  | Failauth id => cstr "failauth " ++ print_int id
  | Chalauth id challenge => cstr "chalauth " ++ print_int id ++ [32] ++ challenge
  | Succauth id => cstr "succauth " ++ print_int id
  | NotFound id => cstr "NotFound " ++ print_int id
  | FoundId id privilege => cstr "FoundId " ++ print_int id ++ [32] ++ privilege
  end ++ [10].
(** The text is formatted into a [string]. *)
Definition reply_line (r : reply) : cstring := take (Z.to_nat MAXSTRLEN - 1) (reply_text r).
Definition outputf (r : reply) : M conn unit := upd_cl {{ out ::= fun l => l ++ reply_line r }}.

(** The expired requests at the front. *)
Fixpoint expired_ids (now : Z) (l : list authreq) : list Z :=
  match l with
  | [] => []
  | a :: l => if AUTH_TIME <=? ENET_TIME_DIFFERENCE now (reqtime a) then req_id a :: expired_ids now l else []
  end.
Definition purgeauths : M conn unit :=
  t <- now ;;
  x <- gets id ;;
  let ids := expired_ids t (authreqs (cl x)) in
  forM ids (fun id => outputf (Failauth id)) ;;
  upd_cl {{ authreqs ::= drop (length ids) }}.
(** The three words of the seed, as they lie in memory. *)
Definition challenge_seed (start now r : Z) : list Z := put_n 4 (to_uint start) ++ put_n 4 now ++ put_n 4 r.
Definition draw : M conn Z := fun x =>
  let '(r, g) := randomMT (rng (glob x)) in (r, x <| glob ::= fun s => s <| rng := g |> |>).
Definition reqauth (id : Z) (name domain : cstring) : M conn unit :=
  t <- now ;;
  x <- gets Datatypes.id ;;
  if ENET_TIME_DIFFERENCE t (lastauth (cl x)) <? AUTH_THROTTLE then ret tt else
  upd_cl {{ lastauth := t }} ;;
  purgeauths ;;
  x <- gets Datatypes.id ;;
  match access (name, domain) (users (glob x)) with
  | None => outputf (Failauth id)
  | Some u =>
    match authreqs (cl x) with
    | a :: _ =>
      when (AUTH_LIMIT <=? zlength (authreqs (cl x)))
        (outputf (Failauth (req_id a)) ;; upd_cl {{ authreqs ::= drop 1 }})
    | [] => ret tt
    end ;;
    r <- draw ;;
    let '(answer, challenge) := genchallenge (ec_parse [] (u_pubkey u)) (challenge_seed (starttime (glob x)) t r) in
    upd_cl {{ authreqs ::= fun l => l ++ [mkauthreq t id answer] }} ;;
    outputf (Chalauth id challenge)
  end.
Definition has_id (id : Z) (a : authreq) : bool := req_id a =? id.
Definition confauth (id : Z) (val : cstring) : M conn unit :=
  purgeauths ;;
  x <- gets Datatypes.id ;;
  match list_find (fun a => has_id id a = true) (authreqs (cl x)) with
  | Some (i, a) =>
    outputf (if checkchallenge val (req_answer a) then Succauth id else Failauth id) ;;
    upd_cl {{ authreqs ::= delete i }}
  | None => outputf (Failauth id)
  end.
Definition queryid (id : Z) (name domain : cstring) : M conn unit :=
  x <- gets Datatypes.id ;;
  match access (name, domain) (users (glob x)) with
  | None => outputf (NotFound id)
  | Some u => outputf (FoundId id (u_privilege u))
  end.

(** ** [sscanf] of the C library, for the formats in use *)
Inductive directive : Set := Literal (t : cstring) | Blank | Unsigned | Word (n : nat).
Inductive conversion : Set := CUnsigned (n : Z) | CWord (t : cstring).
Definition isspace (c : Z) : bool := (c =? 32) || (9 <=? c) && (c <=? 13).
Definition isdigit (c : Z) : bool := (48 <=? c) && (c <=? 57).
Fixpoint skip_space (s : cstring) : cstring :=
  match s with c :: r => if isspace c then skip_space r else s | [] => [] end.
(** The longest prefix a test holds for, of at most [n] characters, and the rest. *)
Fixpoint span (n : nat) (p : Z -> bool) (s : cstring) : cstring * cstring :=
  match n, s with
  | S n, c :: r => if p c then let '(w, r) := span n p r in (c :: w, r) else ([], s)
  | _, _ => ([], s)
  end.
Fixpoint match_literal (t s : cstring) : option cstring :=
  match t, s with
  | [], _ => Some s
  | c :: t, d :: s => if c =? d then match_literal t s else None
  | _ :: _, [] => None
  end.
(** [strtoul] into an [unsigned int]: what does not fit 64 bits is cut to the largest
    number of 64 bits, then the low 32 bits are kept. *)
Definition scan_unsigned (s : cstring) : option (Z * cstring) :=
  let s := skip_space s in
  let '(neg, s) := match s with
                   | c :: r => if c =? 45 then (true, r) else if c =? 43 then (false, r) else (false, s)
                   | [] => (false, [])
                   end in
  let '(digits, rest) := span (length s) isdigit s in
  if bool_decide (digits = []) then None else
  let v := fold_left (fun n c => 10 * n + (c - 48)) digits 0 in
  Some (to_uint (if 2 ^ 64 <=? v then -1 else if neg then - v else v), rest).
Fixpoint sscanf (format : list directive) (s : cstring) : list conversion :=
  match format with
  | [] => []
  | Literal t :: format => match match_literal t s with Some s => sscanf format s | None => [] end
  | Blank :: format => sscanf format (skip_space s)
  | Unsigned :: format =>
    match scan_unsigned s with Some (n, s) => CUnsigned n :: sscanf format s | None => [] end
  | Word n :: format =>
    let '(w, s) := span n (fun c => negb (isspace c)) (skip_space s) in
    if bool_decide (w = []) then [] else CWord w :: sscanf format s
  end.
Definition reqauth_format : list directive := [Literal (cstr "reqauth"); Blank; Unsigned; Blank; Word 100; Blank; Word 100].
Definition confauth_format : list directive := [Literal (cstr "confauth"); Blank; Unsigned; Blank; Word 100].
Definition query_format : list directive := [Literal (cstr "QueryId"); Blank; Unsigned; Blank; Word 100; Blank; Word 100].

(** One line, without its newline. *)
Inductive command : Set :=
| Reqauth (id : Z) (user domain : cstring) | Confauth (id : Z) (val : cstring)
| Query (id : Z) (user domain : cstring) | Unknown.
Definition command_of (line : cstring) : command :=
  match sscanf reqauth_format line with
  | [CUnsigned id; CWord user; CWord domain] => Reqauth id user domain
  | [CUnsigned id; CWord user] => Reqauth id user []
  | _ =>
    match sscanf confauth_format line with
    | [CUnsigned id; CWord val] => Confauth id val
    | _ =>
      match sscanf query_format line with
      | [CUnsigned id; CWord user; CWord domain] => Query id user domain
      | _ => Unknown
      end
    end
  end.
Definition run_command (c : command) : M conn unit :=
  match c with
  | Reqauth id user domain => reqauth id user domain
  | Confauth id val => confauth id val
  | Query id user domain => queryid id user domain
  | Unknown => ret tt
  end.
(** The text of a line ends at its first NUL. *)
Definition line_text (line : bytes) : cstring := (span (length line) (fun c => negb (c =? 0)) line).1.
(** [checkclientinput]: line after line is cut off; [line] is what came since the last
    newline. *)
Fixpoint run_input (line rest : bytes) : M conn unit :=
  match rest with
  | [] => upd_cl {{ input := line }}
  | c :: rest =>
    if c =? 10 then
      t <- now ;;
      upd_cl {{ lastinput := t }} ;;
      run_command (command_of (line_text line)) ;;
      run_input [] rest
    else run_input (line ++ [c]) rest
  end.
Definition checkclientinput : M conn bool :=
  x <- gets id ;;
  run_input [] (input (cl x)) ;;
  x <- gets id ;;
  ret (zlength (input (cl x)) <? INPUT_LIMIT).

(** ** A round of the loop

    What the system answers: the sockets select reports, a connection that waits, how much
    of a text a socket takes, what there is to read. *)
Record answers := mkanswers {
  selected : bool; connection : option (Z * Z); at_server : bool;
  writable : Z -> bool; readable : Z -> bool;
  sent : Z -> Z -> Z; received : Z -> Z -> option bytes
}.

Definition oldest_of (h : Z) (l : list account_client) : option nat :=
  fold_left (fun best e =>
    if host e.2 =? h then
      match best with
      | Some (i, t) => if connecttime e.2 <? t then Some (e.1, connecttime e.2) else best
      | None => Some (e.1, connecttime e.2)
      end
    else best) (zip (seq 0 (length l)) l) (None : option (nat * Z)) ≫= fun b => Some b.1.
Definition dups_of (h : Z) (l : list account_client) : Z := zlength (filter (fun c => host c = h) l).
Definition purgeclient (n : nat) (l : list account_client) : list account_client := delete n l.
Definition make_room (h : Z) (l : list account_client) : list account_client :=
  if DUP_LIMIT <=? dups_of h l then
    match oldest_of h l with Some i => purgeclient i l | None => l end
  else l.
Definition accept (w : answers) (t : Z) (l : list account_client) : list account_client :=
  if negb (at_server w) then l else
  if CLIENT_LIMIT <=? zlength l then l else
  match connection w with
  | None => l
  | Some (h, sock) => make_room h l ++ [aclient0 h sock t]
  end.
(** The text that waits goes out. *)
Definition has_output (c : account_client) : bool := outputpos c <? zlength (out c).
Definition flush_output (w : answers) : M conn bool :=
  x <- gets id ;;
  let c := cl x in
  let n := zlength (out c) - outputpos c in
  modify {{ glob ::= fun g => g <| tx_bytes ::= fun b => (b + n) mod 2 ^ 64 |> <| tx_packets ::= fun b => (b + 1) mod 2 ^ 64 |> }} ;;
  let res := Z.min (sent w (socket c) n) n in
  if res <? 0 then ret false else
  (if zlength (out c) <=? outputpos c + res then upd_cl {{ out := [] }} ;; upd_cl {{ outputpos := 0 }}
   else upd_cl {{ outputpos ::= Z.add res }}) ;;
  ret true.
(** What was received is put behind what waits; the NUL behind it falls on the last
    character when the buffer is full. *)
Definition append_input (data : bytes) (c : account_client) : account_client :=
  let l := input c ++ data in
  c <| input := if zlength l =? INPUT_LIMIT then <[Z.to_nat (INPUT_LIMIT - 1) := 0]> l else l |>.
Definition receive (w : answers) : M conn bool :=
  x <- gets id ;;
  let c := cl x in
  let room := INPUT_LIMIT - zlength (input c) in
  modify {{ glob ::= fun g => g <| rx_bytes ::= fun b => (b + room) mod 2 ^ 64 |> <| rx_packets ::= fun b => (b + 1) mod 2 ^ 64 |> }} ;;
  match take (Z.to_nat room) <$> received w (socket c) room with
  | None | Some [] => ret false
  | Some data => upd_cl (append_input data) ;; checkclientinput
  end.
(** Does the client stay?  [wait_write]: it had output when the sockets were selected. *)
Definition serve (w : answers) (wait_write wait_read : bool) : M conn bool :=
  x <- gets id ;;
  ok <- (if has_output (cl x) && wait_write && writable w (socket (cl x)) then flush_output w else ret true) ;;
  if negb ok then ret false else
  x <- gets id ;;
  ok <- (if wait_read && readable w (socket (cl x)) then receive w else ret true) ;;
  if negb ok then ret false else
  x <- gets id ;;
  ret (negb (OUTPUT_LIMIT <? zlength (out (cl x))) &&
       negb (CLIENT_TIME <=? ENET_TIME_DIFFERENCE (servtime (glob x)) (lastinput (cl x)))).
Fixpoint serve_all (w : answers) (writers readers : Z -> bool) (l : list account_client) (g : shared) : shared * list account_client :=
  match l with
  | [] => (g, [])
  | c :: l =>
    let '(stays, x) := serve w (writers (socket c)) (readers (socket c)) (mkconn c g) in
    let '(g, l) := serve_all w writers readers l (glob x) in
    (g, if stays then cl x :: l else l)
  end.
Definition has_socket (n : Z) (l : list account_client) : bool := existsb (fun c => socket c =? n) l.
Definition checkclients (w : answers) (st : authserver) : authserver :=
  let writers n := has_socket n (filter (fun c => has_output c = true) (aclients st)) in
  let readers n := has_socket n (filter (fun c => has_output c = false) (aclients st)) in
  if negb (selected w) then st else
  let l := accept w (servtime (sh st)) (aclients st) in
  let '(g, l) := serve_all w writers readers l (sh st) in
  mkauthserver g l.
(** [update_server] *)
Definition update_server (w : answers) (time : Z) (st : authserver) : authserver :=
  checkclients w (st <| sh ::= fun g => g <| servtime := to_uint time |> |>).

(** * What a connection is told *)

Definition lines (l : list reply) : bytes := concat (map reply_line l).
Definition expired (x : conn) : list Z := expired_ids (servtime (glob x)) (authreqs (cl x)).

Lemma exec_outputs ids x :
  exec (forM ids (fun id => outputf (Failauth id))) x =
  x <| cl ::= fun c => c <| out ::= fun l => l ++ lines (map Failauth ids) |> |>.
Proof.
  revert x. induction ids as [|i ids IH]; intros [c g].
  - cbn. unfold lines. cbn. rewrite -> app_nil_r. by destruct c.
  - cbn [forM]. rewrite -> exec_bind, IH. unfold lines. cbn. by rewrite <- app_assoc.
Qed.
Lemma exec_purgeauths x :
  exec purgeauths x =
  x <| cl ::= fun c => c <| out ::= fun l => l ++ lines (map Failauth (expired x)) |>
                         <| authreqs ::= drop (length (expired x)) |> |>.
Proof.
  destruct x as [c g]. unfold purgeauths. rewrite -> !exec_bind.
  change (eval now _) with (servtime g). change (exec now _) with (mkconn c g).
  change (eval (gets id) (mkconn c g)) with (mkconn c g). change (exec (gets id) (mkconn c g)) with (mkconn c g).
  rewrite -> exec_outputs. reflexivity.
Qed.
Lemma expired_ids_pending now l : expired_ids now l = map req_id (take (length (expired_ids now l)) l).
Proof. induction l as [|a l IH]; [done|]. cbn. case_match; [|done]. cbn. by f_equal. Qed.

(** How often an id waits, and what a log has for it. *)
Definition pending (id : Z) (l : list authreq) : Z := zlength (filter (fun a => req_id a = id) l).
Definition is_challenge (id : Z) (r : reply) : bool := match r with Chalauth i _ => i =? id | _ => false end.
Definition is_success (id : Z) (r : reply) : bool := match r with Succauth i => i =? id | _ => false end.
Definition is_failure (id : Z) (r : reply) : bool := match r with Failauth i => i =? id | _ => false end.
Definition tally {A} (p : A -> bool) (l : list A) : Z := zlength (filter (fun x => p x = true) l).
Definition challenges (id : Z) : list reply -> Z := tally (is_challenge id).
Definition successes (id : Z) : list reply -> Z := tally (is_success id).
Definition failures (id : Z) : list reply -> Z := tally (is_failure id).

Lemma tally_app {A} (p : A -> bool) l l' : tally p (l ++ l') = tally p l + tally p l'.
Proof. unfold tally, zlength. rewrite -> filter_app, length_app. lia. Qed.
Lemma tally_cons {A} (p : A -> bool) x l : tally p (x :: l) = Z.b2z (p x) + tally p l.
Proof. unfold tally, zlength. rewrite -> filter_cons. case_decide; destruct (p x); cbn [length Z.b2z]; done || lia. Qed.
Lemma tally_nonneg {A} (p : A -> bool) l : 0 <= tally p l.
Proof. unfold tally, zlength. lia. Qed.
Lemma tally_none {A} (p : A -> bool) l : (forall x, x ∈ l -> p x = false) -> tally p l = 0.
Proof.
  induction l as [|x l IH]; intros H; [done|]. rewrite -> tally_cons, (H x), IH by (constructor || (intros; apply H; by constructor)). done.
Qed.
Lemma pending_app id l l' : pending id (l ++ l') = pending id l + pending id l'.
Proof. unfold pending, zlength. rewrite -> filter_app, length_app. lia. Qed.
Lemma pending_cons id a l : pending id (a :: l) = Z.b2z (req_id a =? id) + pending id l.
Proof. unfold pending, zlength. rewrite -> filter_cons. case_decide; destruct (Z.eqb_spec (req_id a) id); cbn [length Z.b2z]; done || lia. Qed.
Lemma pending_nonneg id l : 0 <= pending id l.
Proof. unfold pending, zlength. lia. Qed.
Lemma failures_of id l : failures id (map Failauth (map req_id l)) = pending id l.
Proof. induction l as [|a l IH]; [done|]. rewrite -> pending_cons, <- IH. exact (tally_cons _ _ _). Qed.
Lemma only_failures id l : challenges id (map Failauth l) = 0 /\ successes id (map Failauth l) = 0.
Proof. by split; apply tally_none; intros r (i & -> & _)%list_elem_of_fmap. Qed.
Lemma lines_app l l' : lines (l ++ l') = lines l ++ lines l'.
Proof. unfold lines. by rewrite -> map_app, concat_app. Qed.
Lemma lines_one r : lines [r] = reply_line r.
Proof. apply app_nil_r. Qed.
Lemma pending_delete l i a : l !! i = Some a ->
  forall id, pending id l = pending id (delete i l) + Z.b2z (req_id a =? id).
Proof.
  revert i. induction l as [|b l IH]; intros [|i] Hi id; try done.
  - cbn in Hi. apply (inj Some) in Hi as ->. change (delete 0%nat (a :: l)) with l. rewrite -> pending_cons. lia.
  - cbn in Hi. change (delete (S i) (b :: l)) with (b :: delete i l). rewrite -> !pending_cons, (IH i Hi id). lia.
Qed.
Lemma pending_zero id l : pending id l = 0 -> forall i b, l !! i = Some b -> req_id b <> id.
Proof.
  intros Hl i b Hi He. rewrite -> (pending_delete _ _ _ Hi id), He, Z.eqb_refl in Hl. cbn in Hl. pose proof (pending_nonneg id (delete i l)). lia.
Qed.
Lemma pending_none id l : list_find (fun a => has_id id a = true) l = None -> pending id l = 0.
Proof.
  intros H. apply list_find_None in H. induction H as [|a l Ha Hl IH]; [done|].
  rewrite -> pending_cons, IH. unfold has_id in Ha. by destruct (req_id a =? id).
Qed.
Lemma pending_drop id n l : pending id l = 0 -> pending id (drop n l) = 0.
Proof.
  intros H. rewrite <- (take_drop n l), pending_app in H. pose proof (pending_nonneg id (take n l)). pose proof (pending_nonneg id (drop n l)). lia.
Qed.

(** What is left of the requests after the purge. *)
Definition fresh (x : conn) : list authreq := drop (length (expired x)) (authreqs (cl x)).
Lemma purge_balance x id :
  pending id (authreqs (cl x)) = pending id (fresh x) + failures id (map Failauth (expired x)).
Proof.
  unfold expired at 1. rewrite -> expired_ids_pending, failures_of. unfold fresh, expired.
  rewrite <- (take_drop (length (expired_ids (servtime (glob x)) (authreqs (cl x)))) (authreqs (cl x))) at 1.
  rewrite -> pending_app. lia.
Qed.
Definition throttled (x : conn) : bool := ENET_TIME_DIFFERENCE (servtime (glob x)) (lastauth (cl x)) <? AUTH_THROTTLE.
(** The answer and the challenge [reqauth] makes for a known player. *)
Definition question (u : userinfo) (x : conn) : gfield * cstring :=
  genchallenge (ec_parse [] (u_pubkey u)) (challenge_seed (starttime (glob x)) (servtime (glob x)) (randomMT (rng (glob x))).1).

(** ** Each command, line by line

    [says x log l x']: the lines of [log] are added to the output, and [l] waits then. *)
Definition says (x : conn) (log : list reply) (l : list authreq) (x' : conn) : Prop :=
  out (cl x') = out (cl x) ++ lines log /\ authreqs (cl x') = l.
(** The oldest request makes room where there are too many. *)
Definition evicted (l : list authreq) : nat := if AUTH_LIMIT <=? zlength l then 1%nat else 0%nat.
Lemma confauth_says id val x :
  says x (map Failauth (expired x) ++
          [match list_find (fun a => has_id id a = true) (fresh x) with
           | Some (_, a) => if checkchallenge val (req_answer a) then Succauth id else Failauth id
           | None => Failauth id
           end])
    (match list_find (fun a => has_id id a = true) (fresh x) with Some (i, _) => delete i (fresh x) | None => fresh x end)
    (exec (confauth id val) x).
Proof.
  unfold says, confauth. rewrite -> exec_bind, exec_purgeauths. set (x1 := x <| cl ::= _ |>).
  assert (authreqs (cl x1) = fresh x) as Hf by done.
  assert (out (cl x1) = out (cl x) ++ lines (map Failauth (expired x))) as Ho by done. clearbody x1.
  rewrite -> exec_bind. change (eval (gets Datatypes.id) x1) with x1. change (exec (gets Datatypes.id) x1) with x1.
  rewrite -> Hf, lines_app, app_assoc, <- Ho, lines_one. destruct (list_find _ _) as [[i a]|]; [|by rewrite <- Hf].
  rewrite -> exec_bind. split; [done|]. change (delete i (authreqs (cl x1)) = delete i (fresh x)). by rewrite -> Hf.
Qed.
Lemma reqauth_throttled id name domain x : throttled x = true -> exec (reqauth id name domain) x = x.
Proof.
  intros Ht. unfold reqauth. rewrite -> !exec_bind.
  change (eval now x) with (servtime (glob x)). change (exec now x) with x.
  change (eval (gets Datatypes.id) x) with x. change (exec (gets Datatypes.id) x) with x.
  fold (throttled x). by rewrite -> Ht.
Qed.
Lemma reqauth_says id name domain x : throttled x = false ->
  match access (name, domain) (users (glob x)) with
  | None => says x (map Failauth (expired x) ++ [Failauth id]) (fresh x) (exec (reqauth id name domain) x)
  | Some u =>
    says x (map Failauth (expired x) ++ map Failauth (map req_id (take (evicted (fresh x)) (fresh x))) ++ [Chalauth id (question u x).2])
      (drop (evicted (fresh x)) (fresh x) ++ [mkauthreq (servtime (glob x)) id (question u x).1]) (exec (reqauth id name domain) x)
  end.
Proof.
  intros Ht. unfold says, reqauth. rewrite -> !exec_bind.
  change (eval now x) with (servtime (glob x)). change (exec now x) with x.
  change (eval (gets Datatypes.id) x) with x. change (exec (gets Datatypes.id) x) with x.
  fold (throttled x). rewrite -> Ht, !exec_bind. set (x0 := exec (upd_cl _) x).
  rewrite -> exec_purgeauths. set (x1 := x0 <| cl ::= _ |>).
  change (eval (gets Datatypes.id) x1) with x1. change (exec (gets Datatypes.id) x1) with x1.
  change (users (glob x1)) with (users (glob x)).
  assert (out (cl x1) = out (cl x) ++ lines (map Failauth (expired x))) as Ho by done.
  assert (authreqs (cl x1) = fresh x) as Hf by done.
  assert (glob x1 = glob x) as Hg by done. clearbody x1.
  destruct (access _ _) as [u|]; rewrite -> !lines_app, !app_assoc, <- Ho; [|rewrite -> lines_one; by split].
  rewrite -> exec_bind. set (x2 := exec _ x1).
  assert (out (cl x2) = out (cl x1) ++ lines (map Failauth (map req_id (take (evicted (fresh x)) (fresh x)))) /\
          authreqs (cl x2) = drop (evicted (fresh x)) (fresh x) /\ glob x2 = glob x) as (Ho2 & Hf2 & Hg2).
  { unfold x2. clear x2. rewrite <- Hf. unfold evicted. destruct (authreqs (cl x1)) as [|a l] eqn:Hl.
    - change (exec (ret tt) x1) with x1. by rewrite -> Hl, drop_nil, take_nil, app_nil_r.
    - unfold when. case_match; [|change (exec (ret tt) x1) with x1; rewrite -> Hl; by rewrite -> app_nil_r].
      rewrite -> exec_bind. cbn [take map]. rewrite -> lines_one. split_and!; [done| |done].
      change (drop 1 (authreqs (cl x1)) = drop 1 (a :: l)). by rewrite -> Hl. }
  clearbody x2. rewrite -> exec_bind, Hg, <- Ho2.
  assert (eval draw x2 = (randomMT (rng (glob x))).1 /\ cl (exec draw x2) = cl x2) as [Hd Hc]
    by (unfold draw, eval, exec; rewrite -> Hg2; by destruct (randomMT _)).
  rewrite -> Hd. fold (question u x). destruct (question u x) as [answer challenge]. cbn [fst snd].
  rewrite -> exec_bind, lines_one, <- Hf2, <- Hc. done.
Qed.
Lemma queryid_says id name domain x :
  says x [match access (name, domain) (users (glob x)) with None => NotFound id | Some u => FoundId id (u_privilege u) end]
    (authreqs (cl x)) (exec (queryid id name domain) x).
Proof.
  unfold says, queryid. rewrite -> exec_bind, lines_one. change (eval (gets Datatypes.id) x) with x. change (exec (gets Datatypes.id) x) with x.
  by destruct (access _ _).
Qed.

(** ** A whole conversation

    Between two commands everything the clients share may change: time passes, other
    clients draw numbers, accounts come and go. *)
Definition turn : Type := shared * command.
Definition at_turn (g : shared) (x : conn) : conn := x <| glob := g |>.
Definition converse (turns : list turn) : M conn unit :=
  forM turns (fun '(g, c) => modify (at_turn g) ;; run_command c).
Lemma converse_cons g c turns x : exec (converse ((g, c) :: turns)) x = exec (converse turns) (exec (run_command c) (at_turn g x)).
Proof. unfold converse. cbn [forM]. by rewrite -> !exec_bind. Qed.

(** What a question and an answer are told when they come: a throttled question is left
    without a word, any other one gets a challenge or is refused on the spot, an answer is
    judged on the spot.  The lines before are for requests that expired or had to go. *)
Definition heard (c : command) (x : conn) (log : list reply) : Prop :=
  match c with
  | Reqauth id name domain =>
    if throttled x then log = [] else
    exists ids, log = map Failauth ids ++ [match access (name, domain) (users (glob x)) with
                                           | Some u => Chalauth id (question u x).2
                                           | None => Failauth id
                                           end]
  | Confauth id val => exists ids r, log = map Failauth ids ++ [r] /\ (r = Failauth id \/ r = Succauth id)
  | Query id name domain => exists r, log = [r] /\ (r = NotFound id \/ exists p, r = FoundId id p)
  | Unknown => log = []
  end.
(** A success is earned: the command brings an answer that passes for a request that waits
    under its id and has not expired. *)
Definition earned (c : command) (x : conn) (r : reply) : Prop :=
  match r with
  | Succauth id => exists val a, c = Confauth id val /\ a ∈ fresh x /\ req_id a = id /\
      checkchallenge val (req_answer a) = true
  | _ => True
  end.
Fixpoint is_told (turns : list turn) (x : conn) (logs : list (list reply)) : Prop :=
  match turns, logs with
  | [], [] => True
  | (g, c) :: turns, log :: logs =>
    let x1 := at_turn g x in
    let x2 := exec (run_command c) x1 in
    out (cl x2) = out (cl x1) ++ lines log /\ heard c x1 log /\ Forall (earned c x1) log /\ is_told turns x2 logs
  | _, _ => False
  end.
(** The commands that speak of an id. *)
Definition speaks (id : Z) (t : turn) : bool :=
  match t.2 with Reqauth i _ _ | Confauth i _ => i =? id | _ => false end.

(** The account of an id over some commands: [n] of them speak of it. *)
Definition settled (id : Z) (l : list authreq) (n : Z) (log : list reply) (l' : list authreq) : Prop :=
  pending id l + challenges id log <= pending id l' + successes id log + failures id log /\
  pending id l' + successes id log <= pending id l + challenges id log /\
  pending id l' + successes id log + failures id log <= pending id l + n.
Lemma settled_trans id l l1 l2 n n' log log' :
  settled id l n log l1 -> settled id l1 n' log' l2 -> settled id l (n + n') (log ++ log') l2.
Proof. unfold settled, challenges, successes, failures. rewrite -> !tally_app. lia. Qed.
Lemma settled_purge id x : settled id (authreqs (cl x)) 0 (map Failauth (expired x)) (fresh x).
Proof. destruct (only_failures id (expired x)). unfold settled. pose proof (purge_balance x id).
  pose proof (tally_nonneg (is_failure id) (map Failauth (expired x))). unfold failures in *. lia. Qed.
Lemma settled_nothing id l : settled id l 0 [] l.
Proof. unfold settled, challenges, successes, failures. change (tally _ []) with 0. lia. Qed.
Lemma settled_line id l n r l' :
  pending id l' + Z.b2z (is_success id r) + Z.b2z (is_failure id r) <= pending id l + n ->
  pending id l + Z.b2z (is_challenge id r) <= pending id l' + Z.b2z (is_success id r) + Z.b2z (is_failure id r) ->
  pending id l' + Z.b2z (is_success id r) <= pending id l + Z.b2z (is_challenge id r) ->
  settled id l n [r] l'.
Proof. unfold settled, challenges, successes, failures. rewrite -> !tally_cons. change (tally _ []) with 0. lia. Qed.
Lemma settled_evict id l : settled id l 0 (map Failauth (map req_id (take (evicted l) l))) (drop (evicted l) l).
Proof.
  destruct (only_failures id (map req_id (take (evicted l) l))). unfold settled. rewrite -> failures_of.
  pose proof (take_drop (evicted l) l) as H1. apply (f_equal (pending id)) in H1. rewrite -> pending_app in H1. pose proof (pending_nonneg id (take (evicted l) l)). lia.
Qed.
Lemma reply_judged val a id : exists r, (if checkchallenge val (req_answer a) then Succauth id else Failauth id) = r /\ (r = Failauth id \/ r = Succauth id).
Proof. case_match; eauto. Qed.
Lemma earned_failures c x ids : Forall (earned c x) (map Failauth ids).
Proof. apply list.Forall_forall. by intros r (i & -> & _)%list_elem_of_fmap. Qed.
Lemma command_heard c x : exists log,
  out (cl (exec (run_command c) x)) = out (cl x) ++ lines log /\ heard c x log /\ Forall (earned c x) log /\
  forall id, settled id (authreqs (cl x)) (Z.b2z (speaks id (glob x, c))) log (authreqs (cl (exec (run_command c) x))).
Proof.
  destruct c as [i user domain|i val|i user domain|]; cbn [run_command].
  - destruct (throttled x) eqn:Ht.
    { exists []. rewrite -> reqauth_throttled by done. cbn [heard]. rewrite -> Ht. split_and!; [by rewrite -> app_nil_r|done|constructor|].
      intros id. pose proof (settled_nothing id (authreqs (cl x))). unfold settled in *. cbn [speaks snd]. destruct (i =? id); cbn [Z.b2z]; lia. }
    pose proof (reqauth_says i user domain x Ht) as Hs. destruct (access _ _) as [u|] eqn:Hu; destruct Hs as [Ho Hl].
    + eexists. split; [exact Ho|]. cbn [heard]. rewrite -> Ht, Hu. split_and!.
      * exists (expired x ++ map req_id (take (evicted (fresh x)) (fresh x))). by rewrite -> map_app, app_assoc.
      * apply Forall_app; split; [apply earned_failures|]. apply Forall_app; split; [apply earned_failures|by repeat constructor].
      * intros id. rewrite -> Hl. eapply (settled_trans _ _ _ _ 0); [apply settled_purge|].
        eapply (settled_trans _ _ _ _ 0); [apply settled_evict|]. apply settled_line; rewrite -> pending_app, pending_cons; change (pending id []) with 0; cbn [req_id is_success is_failure is_challenge speaks snd]; destruct (i =? id); cbn [Z.b2z]; lia.
    + eexists. split; [exact Ho|]. cbn [heard]. rewrite -> Ht, Hu. split_and!.
      * by exists (expired x).
      * apply Forall_app; split; [apply earned_failures|by repeat constructor].
      * intros id. rewrite -> Hl. eapply (settled_trans _ _ _ _ 0); [apply settled_purge|]. apply settled_line; cbn [is_success is_failure is_challenge speaks snd]; try destruct (i =? id); cbn [Z.b2z]; lia.
  - destruct (confauth_says i val x) as [Ho Hl]. eexists. split; [exact Ho|].
    destruct (list_find _ _) as [[n a]|] eqn:Hf.
    + apply list_find_Some in Hf as (Hi & Ha & _). unfold has_id in Ha. apply Z.eqb_eq in Ha.
      pose proof (pending_delete _ _ _ Hi) as Hd. split_and!.
      * destruct (reply_judged val a i) as (r & <- & Hr). by exists (expired x), (if checkchallenge val (req_answer a) then Succauth i else Failauth i).
      * apply Forall_app; split; [apply earned_failures|]. apply Forall_cons; split; [|constructor].
        case_match eqn:Hv; [|done]. exists val, a. split_and!; [done| |done|done]. by eapply list_elem_of_lookup_2.
      * intros id. rewrite -> Hl. eapply (settled_trans _ _ _ _ 0); [apply settled_purge|]. specialize (Hd id). rewrite -> Ha in Hd.
        case_match; apply settled_line; cbn [is_success is_failure is_challenge speaks snd]; destruct (i =? id); cbn [Z.b2z] in *; lia.
    + split_and!.
      * exists (expired x), (Failauth i). by split; [|left].
      * apply Forall_app; split; [apply earned_failures|by repeat constructor].
      * intros id. rewrite -> Hl. eapply (settled_trans _ _ _ _ 0); [apply settled_purge|]. apply settled_line; cbn [is_success is_failure is_challenge speaks snd]; try destruct (i =? id); cbn [Z.b2z]; lia.
  - destruct (queryid_says i user domain x) as [Ho Hl]. eexists. split; [exact Ho|]. rewrite -> Hl. split_and!.
    + eexists. split; [done|]. destruct (access _ _) as [u|]; eauto.
    + apply Forall_cons; split; [|constructor]. by destruct (access _ _).
    + intros id. destruct (access _ _); apply settled_line; cbn [is_success is_failure is_challenge speaks snd]; try destruct (i =? id); cbn [Z.b2z]; lia.
  - exists []. split_and!; [symmetry; apply app_nil_r|done|constructor|]. intros id. apply settled_nothing.
Qed.
Lemma converse_settles turns : forall x, exists logs,
  is_told turns x logs /\ out (cl (exec (converse turns) x)) = out (cl x) ++ lines (concat logs) /\
  forall id, settled id (authreqs (cl x)) (tally (speaks id) turns) (concat logs) (authreqs (cl (exec (converse turns) x))).
Proof.
  induction turns as [|[g c] turns IH]; intros x.
  - exists []. split_and!; [done|symmetry; apply app_nil_r|]. intros id. apply settled_nothing.
  - rewrite -> converse_cons. destruct (command_heard c (at_turn g x)) as (log & Ho & Hh & He & Hs).
    destruct (IH (exec (run_command c) (at_turn g x))) as (logs & Hl & Hos & Hss).
    exists (log :: logs). split_and!; [by cbn [is_told]| |].
    + cbn [concat]. by rewrite -> Hos, Ho, lines_app, app_assoc.
    + intros id. rewrite -> tally_cons. exact (settled_trans _ _ _ _ _ _ _ _ (Hs id) (Hss id)).
Qed.
(** C38: The books of a connection, over any commands it sends and whatever changes between
    them.  Every command but a throttled question is told at once how it ends (a challenge
    or a refusal for a question, a verdict for an answer), and a success is sent only for
    a correct answer to a challenge that waits.  For each id: a challenge that no longer
    waits was given its verdict; no challenge brings more than one success, so an answer
    sent again is worth nothing; and there are never more verdicts than commands that speak
    of the id and requests that waited.  (It is not one verdict to a question: a
    throttled question has none, and one that expired may have two, when the purge and the
    late answer are both told [failauth].) *)
Theorem verdicts_balance turns x : exists logs,
  is_told turns x logs /\ out (cl (exec (converse turns) x)) = out (cl x) ++ lines (concat logs) /\
  forall id,
    let log := concat logs in
    let waited := pending id (authreqs (cl x)) in
    let waits := pending id (authreqs (cl (exec (converse turns) x))) in
    waited + challenges id log <= waits + successes id log + failures id log /\
    waits + successes id log <= waited + challenges id log /\
    waits + successes id log + failures id log <= waited + tally (speaks id) turns.
Proof. apply converse_settles. Qed.

(** * A player who knows the answer is let in *)

(** The number the hexadecimal digits at the start of a text stand for. *)
Definition hex_number (s : cstring) : Z := fold_left (fun n v => 16 * n + v) (hexprefix s) 0.
(** Does a text name the point?  More than 52 digits name zero. *)
Definition names (s : cstring) (answer : gfield) : Prop :=
  bi_wf answer /\ Bigint.val answer = if 52 <? zlength (hexprefix s) then 0 else hex_number s.
Definition nibble (v : Z) : Prop := 0 <= v < 16.
Lemma hexprefix_nibbles s : Forall nibble (hexprefix s).
Proof.
  induction s as [|c s IH]; [constructor|]. cbn [hexprefix]. destruct (hexval c) as [v|] eqn:Hv; [|constructor].
  constructor; [|done]. unfold hexval, nibble in *. repeat (case_match; [|]); simplify_eq; lia.
Qed.
Fixpoint low_first (l : list Z) : Z := match l with v :: l => v + 16 * low_first l | [] => 0 end.
Lemma hex_low_first l : fold_left (fun n v => 16 * n + v) l 0 = low_first (rev l).
Proof.
  induction l as [|v l IH] using rev_ind; [done|]. rewrite -> fold_left_app, rev_app_distr. cbn [fold_left rev app low_first]. lia.
Qed.
Lemma lor_shift a b k : 0 <= k -> 0 <= a < 2 ^ k -> Z.lor a (Z.shiftl b k) = a + 2 ^ k * b.
Proof. intros Hk Ha. rewrite -> Z.lor_comm, lor_fields by done. lia. Qed.
Lemma lor_hex a b : nibble a -> Z.lor a (16 * b) = a + 16 * b.
Proof. intros Ha. pose proof (lor_shift a b 4 ltac:(lia) Ha) as H. rewrite -> Z.shiftl_mul_pow2 in H by lia. by rewrite <- (Z.mul_comm (2 ^ 4) b) in H. Qed.
Lemma pack_spec n : forall l, (length l <= n)%nat -> Forall nibble l ->
  Forall is_digit (pack l) /\ Bigint.val (pack l) = low_first l /\ (4 * length (pack l) < length l + 4)%nat /\ (length l <= 4 * length (pack l))%nat.
Proof.
  assert (forall c, Z.shiftl c 8 = 16 * (16 * c)) as E8 by (intros c; rewrite -> Z.shiftl_mul_pow2 by lia; lia).
  assert (forall c, Z.shiftl c 12 = 16 * (16 * (16 * c))) as E12 by (intros c; rewrite -> Z.shiftl_mul_pow2 by lia; lia).
  assert (forall c, Z.shiftl c 4 = 16 * c) as E4 by (intros c; rewrite -> Z.shiftl_mul_pow2 by lia; lia).
  assert (forall a b, Z.lor (16 * a) (16 * b) = 16 * Z.lor a b) as El.
  { intros a b. rewrite <- !E4. by rewrite -> Z.shiftl_lor. }
  induction n as [|n IH]; intros l Hn Hl; [by destruct l as [|]; [repeat constructor|cbn in Hn; lia]|].
  destruct l as [|a [|b [|c [|d l]]]].
  5:{ repeat (apply Forall_cons in Hl as [? Hl]). destruct (IH l ltac:(cbn in Hn; lia) Hl) as (P1 & P2 & P3 & P4).
      cbn [pack Bigint.val low_first length]. rewrite -> E4, E8, E12, !El, !lor_hex, P2 by done. unfold nibble, is_digit in *.
      split_and!; [constructor; [unfold is_digit; lia|done]|lia|lia|lia]. }
  all: repeat (apply Forall_cons in Hl as [? Hl]); cbn [pack Bigint.val low_first length]; rewrite -> ?E4, ?E8, ?El, ?lor_hex by done; unfold nibble in *;
    (split_and!; [repeat constructor; unfold is_digit; lia|lia|lia|lia]).
Qed.
Lemma checkchallenge_spec s answer : checkchallenge s answer = true <-> names s answer.
Proof.
  unfold checkchallenge, names, equal, parse, hex_number. rewrite -> bool_decide_eq_true, hex_low_first.
  pose proof (pack_spec _ (rev (hexprefix s)) (Nat.le_refl _)) as (Hd & Hv & H3 & H4).
  { apply Forall_rev, hexprefix_nibbles. }
  rewrite -> length_rev in H3, H4. unfold gf_room, zlength.
  destruct (Nat.ltb_spec 13 (length (pack (rev (hexprefix s))))) as [Hlt|Hle].
  - replace (52 <? Z.of_nat (length (hexprefix s))) with true by lia. split.
    + intros <-. split; [apply bi_wf_nil|done].
    + intros [Hw H0]. symmetry. by apply val_inj; [|apply bi_wf_nil|].
  - replace (52 <? Z.of_nat (length (hexprefix s))) with false by lia. rewrite <- Hv, <- (shrink_val (pack _)). split.
    + intros <-. split; [by apply shrink_wf|done].
    + intros [Hw H0]. symmetry. apply val_inj; [done|by apply shrink_wf|done].
Qed.

(** ** A request waits *)
Definition in_time (a : authreq) (g : shared) : Prop := ENET_TIME_DIFFERENCE (servtime g) (reqtime a) < AUTH_TIME.
(** The request waits with at most [k] younger ones. *)
Definition waiting (a : authreq) (k : Z) (l : list authreq) : Prop := exists l1 l2, l = l1 ++ a :: l2 /\ zlength l2 <= k.
Definition asks (t : turn) : bool := match t.2 with Reqauth _ _ _ => true | _ => false end.
Lemma expired_around now a l1 l2 : ENET_TIME_DIFFERENCE now (reqtime a) < AUTH_TIME ->
  (length (expired_ids now (l1 ++ a :: l2)) <= length l1)%nat.
Proof.
  intros Ha. induction l1 as [|b l1 IH]; cbn [app expired_ids].
  - by replace (AUTH_TIME <=? ENET_TIME_DIFFERENCE now (reqtime a)) with false by lia.
  - case_match; cbn [length]; lia.
Qed.
Lemma waiting_fresh a k x : in_time a (glob x) -> waiting a k (authreqs (cl x)) -> waiting a k (fresh x).
Proof.
  intros Ha (l1 & l2 & Hl & Hk). exists (drop (length (expired x)) l1), l2. split; [|done]. unfold fresh.
  rewrite -> Hl at 1. apply drop_app_le. unfold expired. rewrite -> Hl. by apply expired_around.
Qed.
Lemma waiting_delete a k n b l : l !! n = Some b -> req_id b <> req_id a -> waiting a k l -> waiting a k (delete n l).
Proof.
  intros Hn Hb (l1 & l2 & -> & Hk). destruct (decide (n < length l1)%nat) as [Hlt|Hge].
  - exists (delete n l1), l2. split; [|done]. clear -Hlt. revert n Hlt.
    induction l1 as [|c l1 IH]; intros [|n] Hlt; cbn in Hlt; [lia|lia|done|]. cbn. f_equal. apply IH. lia.
  - rewrite -> lookup_app_r in Hn by lia. destruct (n - length l1)%nat as [|i] eqn:Hi; [cbn in Hn; congruence|].
    exists l1, (delete i l2). split.
    + assert (n = length l1 + S i)%nat as -> by lia. clear. induction l1 as [|c l1 IH]; [done|]. cbn. by f_equal.
    + pose proof (sublist_length _ _ (sublist_delete l2 i)). unfold zlength in *. lia.
Qed.
Lemma waiting_evict a k l : k + 1 < AUTH_LIMIT -> waiting a k l -> waiting a k (drop (evicted l) l).
Proof.
  intros Hk (l1 & l2 & -> & Hl). unfold evicted. destruct (Z.leb_spec AUTH_LIMIT (zlength (l1 ++ a :: l2))) as [Hle|]; [|by exists l1, l2].
  destruct l1 as [|b l1]; [unfold zlength in *; cbn [app length] in Hle; lia|]. by exists l1, l2.
Qed.
Lemma waiting_snoc a k l b : waiting a k l -> waiting a (k + 1) (l ++ [b]).
Proof.
  intros (l1 & l2 & -> & Hk). exists l1, (l2 ++ [b]). rewrite <- app_assoc. split; [done|]. unfold zlength in *. rewrite -> length_app. cbn. lia.
Qed.
Lemma waiting_more a k k' l : k <= k' -> waiting a k l -> waiting a k' l.
Proof. intros Hk (l1 & l2 & Hl & H). exists l1, l2. split; [done|lia]. Qed.
(** A command that speaks of another id leaves the request where it is. *)
Lemma command_waits a k c x : in_time a (glob x) -> speaks (req_id a) (glob x, c) = false ->
  k + Z.b2z (asks (glob x, c)) < AUTH_LIMIT -> waiting a k (authreqs (cl x)) ->
  waiting a (k + Z.b2z (asks (glob x, c))) (authreqs (cl (exec (run_command c) x))).
Proof.
  intros Ha Hs Hk Hw. pose proof (waiting_fresh a k x Ha Hw) as Hf.
  destruct c as [i user domain|i val|i user domain|]; cbn [speaks asks snd run_command Z.b2z] in *.
  - destruct (throttled x) eqn:Ht; [rewrite -> reqauth_throttled by done; by eapply waiting_more; [|exact Hw]; lia|].
    pose proof (reqauth_says i user domain x Ht) as H. destruct (access _ _) as [u|]; destruct H as [_ ->].
    + apply waiting_snoc. by apply waiting_evict.
    + eapply waiting_more; [|exact Hf]. lia.
  - destruct (confauth_says i val x) as [_ ->]. rewrite -> Z.add_0_r. destruct (list_find _ _) as [[n b]|] eqn:Hl; [|done].
    apply list_find_Some in Hl as (Hn & Hb & _). unfold has_id in Hb. eapply waiting_delete; [exact Hn| |done]. lia.
  - destruct (queryid_says i user domain x) as [_ ->]. by rewrite -> Z.add_0_r.
  - by rewrite -> Z.add_0_r.
Qed.
Lemma converse_waits a turns : forall k x,
  Forall (fun t => speaks (req_id a) t = false /\ in_time a t.1) turns -> k + tally asks turns < AUTH_LIMIT ->
  waiting a k (authreqs (cl x)) -> waiting a (k + tally asks turns) (authreqs (cl (exec (converse turns) x))).
Proof.
  induction turns as [|[g c] turns IH]; intros k x Ht Hk Hw; [by eapply waiting_more; [|exact Hw]; change (tally asks []) with 0; lia|].
  apply Forall_cons in Ht as [[Hs Ha] Ht]. rewrite -> converse_cons. rewrite -> tally_cons in *. rewrite -> Z.add_assoc in *.
  pose proof (tally_nonneg asks turns). apply IH; [done|done|]. apply (command_waits a k c (at_turn g x)); [done|done| |done].
  change (asks (glob (at_turn g x), c)) with (asks (g, c)). lia.
Qed.
Lemma waiting_pending a k l : waiting a k l -> 1 <= pending (req_id a) l.
Proof.
  intros (l1 & l2 & -> & _). rewrite -> pending_app, pending_cons, Z.eqb_refl. cbn [Z.b2z].
  pose proof (pending_nonneg (req_id a) l1). pose proof (pending_nonneg (req_id a) l2). lia.
Qed.
Lemma waiting_found a k l : waiting a k l -> pending (req_id a) l = 1 ->
  exists n, list_find (fun b => has_id (req_id a) b = true) l = Some (n, a).
Proof.
  intros (l1 & l2 & -> & _) Hp. exists (length l1). rewrite -> pending_app, pending_cons, Z.eqb_refl in Hp. cbn [Z.b2z] in Hp.
  pose proof (pending_nonneg (req_id a) l1). pose proof (pending_nonneg (req_id a) l2).
  apply list_find_Some. unfold has_id. split_and!; [by rewrite -> list_lookup_middle|lia|].
  intros j b Hj Hlt Hb. rewrite -> lookup_app_l in Hj by done. apply (pending_zero (req_id a) l1 ltac:(lia) j b Hj). lia.
Qed.
(** A log that has nothing for an id. *)
Definition untold (id : Z) (log : list reply) : Prop := challenges id log = 0 /\ successes id log = 0 /\ failures id log = 0.
Lemma settled_untold id l l' log : settled id l 0 log l' -> pending id l = pending id l' -> untold id log.
Proof.
  unfold settled, untold. intros H Hp. pose proof (tally_nonneg (is_success id) log). pose proof (tally_nonneg (is_failure id) log).
  pose proof (tally_nonneg (is_challenge id) log). unfold successes, failures, challenges in *. lia.
Qed.
Lemma untold_app id log log' : untold id log -> untold id log' -> untold id (log ++ log').
Proof. unfold untold, challenges, successes, failures. rewrite -> !tally_app. lia. Qed.
Lemma reqauth_asks id name domain u x : throttled x = false ->
  access (name, domain) (users (glob x)) = Some u -> pending id (authreqs (cl x)) = 0 ->
  exists log, out (cl (exec (reqauth id name domain) x)) = out (cl x) ++ lines (log ++ [Chalauth id (question u x).2]) /\ untold id log /\
    let a := mkauthreq (servtime (glob x)) id (question u x).1 in
    waiting a 0 (authreqs (cl (exec (reqauth id name domain) x))) /\ pending id (authreqs (cl (exec (reqauth id name domain) x))) = 1.
Proof.
  intros Ht Hu Hp. pose proof (reqauth_says id name domain x Ht) as H. rewrite -> Hu in H. destruct H as [Ho Hl].
  assert (pending id (fresh x) = 0) as Hf by by apply pending_drop.
  eexists. split; [rewrite -> app_assoc in Ho; exact Ho|]. rewrite -> Hl. split_and!.
  - apply untold_app.
    + eapply settled_untold; [apply settled_purge|]. congruence.
    + eapply settled_untold; [apply settled_evict|]. by rewrite -> Hf, pending_drop.
  - intros a. split; [by exists (drop (evicted (fresh x)) (fresh x)), []|].
    rewrite -> pending_app, pending_cons, pending_drop by done. cbn [req_id]. by rewrite -> Z.eqb_refl.
Qed.
Lemma confauth_answers a k val x : in_time a (glob x) -> waiting a k (authreqs (cl x)) -> pending (req_id a) (authreqs (cl x)) = 1 ->
  exists log, out (cl (exec (confauth (req_id a) val) x)) =
      out (cl x) ++ lines (log ++ [if checkchallenge val (req_answer a) then Succauth (req_id a) else Failauth (req_id a)]) /\
    untold (req_id a) log /\ pending (req_id a) (authreqs (cl (exec (confauth (req_id a) val) x))) = 0.
Proof.
  intros Ha Hw Hp. pose proof (waiting_fresh a k x Ha Hw) as Hf. pose proof (settled_purge (req_id a) x) as Hs.
  assert (pending (req_id a) (fresh x) = 1) as Hp1.
  { pose proof (waiting_pending a k _ Hf). pose proof (purge_balance x (req_id a)).
    pose proof (tally_nonneg (is_failure (req_id a)) (map Failauth (expired x))). unfold failures in *. lia. }
  destruct (confauth_says (req_id a) val x) as [Ho Hl]. destruct (waiting_found a k _ Hf Hp1) as [n Hn].
  rewrite -> Hn in Ho, Hl. eexists. split; [exact Ho|]. split.
  - eapply settled_untold; [exact Hs|]. congruence.
  - rewrite -> Hl. apply list_find_Some in Hn as (Hn & _). pose proof (pending_delete _ _ _ Hn (req_id a)) as Hd.
    rewrite -> Z.eqb_refl in Hd. cbn [Z.b2z] in Hd. lia.
Qed.
Lemma converse_untold id turns x : tally (speaks id) turns = 0 ->
  pending id (authreqs (cl x)) = 1 -> 1 <= pending id (authreqs (cl (exec (converse turns) x))) ->
  exists log, out (cl (exec (converse turns) x)) = out (cl x) ++ lines log /\ untold id log /\
    pending id (authreqs (cl (exec (converse turns) x))) = 1.
Proof.
  intros Hc Hp Hp'. destruct (converse_settles turns x) as (logs & _ & Ho & Hs). specialize (Hs id). rewrite -> Hc in Hs.
  assert (pending id (authreqs (cl (exec (converse turns) x))) = 1) as H1.
  { unfold settled in Hs. pose proof (tally_nonneg (is_success id) (concat logs)). pose proof (tally_nonneg (is_failure id) (concat logs)).
    unfold successes, failures in *. lia. }
  exists (concat logs). split_and!; [done| |done]. eapply settled_untold; [exact Hs|congruence].
Qed.
Lemma first_answer a val turns g y : Forall (fun t => speaks (req_id a) t = false /\ in_time a t.1) turns ->
  tally asks turns < AUTH_LIMIT -> in_time a g -> waiting a 0 (authreqs (cl y)) -> pending (req_id a) (authreqs (cl y)) = 1 ->
  let answered := exec (run_command (Confauth (req_id a) val)) (at_turn g (exec (converse turns) y)) in
  exists between verdict, out (cl answered) = out (cl y) ++ lines (between ++ [verdict]) /\ untold (req_id a) between /\
    (verdict = Succauth (req_id a) \/ verdict = Failauth (req_id a)) /\ (verdict = Succauth (req_id a) <-> names val (req_answer a)) /\
    pending (req_id a) (authreqs (cl answered)) = 0.
Proof.
  intros Hturns Hfew Hg Hw Hp1. pose proof (converse_waits a turns 0 y Hturns Hfew Hw) as Hw2.
  destruct (converse_untold (req_id a) turns y) as (log & Ho2 & Hb2 & Hp2); [|done|exact (waiting_pending a _ _ Hw2)|].
  { apply tally_none. intros t Hin. by destruct (proj1 (list.Forall_forall _ _) Hturns t Hin). }
  set (y2 := exec (converse turns) y) in *. clearbody y2.
  destruct (confauth_answers a _ val (at_turn g y2) Hg Hw2 Hp2) as (log' & Ho3 & Hb3 & Hp3).
  change (out (cl (at_turn g y2))) with (out (cl y2)) in Ho3. rewrite -> Ho2 in Ho3. cbn [run_command].
  pose proof (checkchallenge_spec val (req_answer a)) as Hv. revert Ho3 Hp3. generalize (exec (confauth (req_id a) val) (at_turn g y2)).
  intros z Ho3 Hp3. exists (log ++ log'). eexists. split; [rewrite -> Ho3, <- app_assoc, <- lines_app, app_assoc; reflexivity|].
  split; [by apply untold_app|]. destruct (checkchallenge _ _); split_and!; auto; rewrite <- Hv; done.
Qed.
(** C39: A known player that is not throttled, and has no request under the same id, is asked
    a challenge, made with its public key and a fresh number.  Other commands may come on
    the connection before the answer, with fewer than [AUTH_LIMIT] questions among them, and
    anything the clients share may change.  If none of them speaks of the id and the time
    is not over, the first answer decides: the only verdict for the id is the line told
    then, [succauth] exactly when the text names the point that belongs to the challenge
    and [failauth] otherwise, and the request is closed. *)
Theorem login_decided id name domain val u turns g x :
  let a := mkauthreq (servtime (glob x)) id (question u x).1 in
  throttled x = false -> access (name, domain) (users (glob x)) = Some u -> pending id (authreqs (cl x)) = 0 ->
  Forall (fun t => speaks id t = false /\ in_time a t.1) turns -> tally asks turns < AUTH_LIMIT -> in_time a g ->
  let asked := exec (run_command (Reqauth id name domain)) x in
  let answered := exec (run_command (Confauth id val)) (at_turn g (exec (converse turns) asked)) in
  exists before between verdict,
    out (cl asked) = out (cl x) ++ lines (before ++ [Chalauth id (question u x).2]) /\ untold id before /\
    out (cl answered) = out (cl asked) ++ lines (between ++ [verdict]) /\ untold id between /\
    (verdict = Succauth id \/ verdict = Failauth id) /\ (verdict = Succauth id <-> names val (question u x).1) /\
    pending id (authreqs (cl answered)) = 0.
Proof.
  intros a Ht Hu Hp Hturns Hfew Hg asked answered.
  destruct (reqauth_asks id name domain u x Ht Hu Hp) as (before & Ho & Hb & Hw & Hp1).
  cbn [run_command] in asked. cbv zeta in Hw. fold asked in Ho, Hw, Hp1. fold a in Hw.
  assert (req_id a = id) as Hid by reflexivity. assert (req_answer a = (question u x).1) as Ha by reflexivity.
  rewrite <- Ha. clearbody a asked. subst id.
  destruct (first_answer a val turns g asked Hturns Hfew Hg Hw Hp1) as (between & verdict & H).
  exists before, between, verdict. split; [exact Ho|]. split; [exact Hb|exact H].
Qed.

(** * The limits hold after every round *)

Definition few (c : account_client) : Prop := zlength (authreqs c) <= AUTH_LIMIT.
(** Handlers leave the address of the client alone and its requests few. *)
Definition calm (x x' : conn) : Prop := host (cl x') = host (cl x) /\ (few (cl x) -> few (cl x')).
#[local] Instance calm_preorder : PreOrder calm.
Proof. split; unfold calm; [intros ?; done|]. intros x y z [H1 F1] [H2 F2]. split; [congruence|auto]. Qed.

Lemma calm_client f : (forall c, host (f c) = host c) -> (forall c, zlength (authreqs (f c)) <= zlength (authreqs c)) ->
  respects calm (upd_cl f).
Proof. intros Hh Hf x. split; [apply Hh|]. unfold few. intros H. specialize (Hf (cl x)). cbn. lia. Qed.
Lemma calm_output r : respects calm (outputf r).
Proof. apply calm_client; intros c; cbn; lia || done. Qed.
Lemma calm_requests n : respects calm (upd_cl {{ authreqs ::= drop n }}).
Proof. apply calm_client; intros c; [done|]. unfold zlength. cbn. rewrite -> length_drop. lia. Qed.
Lemma calm_draw : respects calm draw.
Proof. intros x. unfold draw, exec. by destruct (randomMT _). Qed.
Lemma calm_purge : respects calm purgeauths.
Proof. intros x. rewrite -> exec_purgeauths. split; [done|]. unfold few, zlength. cbn. rewrite -> length_drop. lia. Qed.
#[local] Hint Resolve calm_output calm_requests calm_draw calm_purge calm_preorder : respects.
Lemma calm_query id user domain : respects calm (queryid id user domain).
Proof. unfold queryid. solve_respects. Qed.
Lemma calm_confauth id val : respects calm (confauth id val).
Proof.
  unfold confauth. solve_respects. apply calm_client; intros c; [done|]. unfold zlength. cbn.
  pose proof (sublist_length _ _ (sublist_delete (authreqs c) n)). lia.
Qed.
Lemma calm_reqauth id user domain : respects calm (reqauth id user domain).
Proof.
  unfold reqauth. apply respects_bind; [apply _|apply respects_gets; apply _|]. intros t.
  apply respects_bind; [apply _|apply respects_gets; apply _|]. intros x. case_match; [apply respects_ret; apply _|].
  apply respects_bind; [apply _|apply calm_client; intros c; [done|cbn; lia]|]. intros _.
  apply respects_bind; [apply _|apply calm_purge|]. intros _.
  apply respects_read. intros x1. change (Datatypes.id x1) with x1. case_match; [|apply calm_output].
  rewrite -> exec_bind. set (x2 := exec _ x1).
  assert (host (cl x2) = host (cl x1) /\ (few (cl x1) -> zlength (authreqs (cl x2)) < AUTH_LIMIT)) as [Hh Hf].
  { unfold x2. destruct (authreqs (cl x1)) as [|a l] eqn:Hl.
    - split; [reflexivity|]. intros _. change (exec (ret tt) x1) with x1. by rewrite -> Hl.
    - unfold when. case_match eqn:Hn.
      + split; [done|]. unfold few. rewrite -> Hl. change (authreqs (cl _)) with (drop 1 (authreqs (cl x1))).
        rewrite -> Hl. unfold zlength. cbn [drop length]. rewrite -> drop_0. lia.
      + split; [done|]. intros _. change (exec (ret tt) x1) with x1. rewrite -> Hl. lia. }
  clearbody x2. rewrite -> exec_bind. assert (cl (exec draw x2) = cl x2) as Hc by (unfold draw, exec; by destruct (randomMT _)).
  destruct (genchallenge _ _) as [answer challenge]. set (x3 := exec draw x2) in *. rewrite <- Hc in Hh, Hf. clearbody x3.
  rewrite -> exec_bind. split; [done|]. intros Hx1. specialize (Hf Hx1). unfold few.
  change (authreqs (cl _)) with (authreqs (cl x3) ++ [mkauthreq t id answer]). unfold zlength in *. rewrite -> length_app. cbn. lia.
Qed.
#[local] Hint Resolve calm_query calm_confauth calm_reqauth : respects.
Lemma calm_run_input line rest : respects calm (run_input line rest).
Proof.
  revert line. induction rest as [|c rest IH]; intros line; cbn [run_input].
  - apply calm_client; intros ?; cbn; lia || done.
  - case_match; [|apply IH]. apply respects_bind; [apply _|apply respects_gets; apply _|]. intros t.
    apply respects_bind; [apply _|apply calm_client; intros ?; cbn; lia || done|]. intros _.
    apply respects_bind; [apply _| |intros _; apply IH].
    destruct (command_of _); cbn [run_command]; solve_respects.
Qed.
Lemma calm_flush w : respects calm (flush_output w).
Proof.
  unfold flush_output. solve_respects.
  all: try (apply calm_client; intros ?; cbn; lia || done).
  apply respects_modify. by intros s.
Qed.
Lemma calm_check : respects calm checkclientinput.
Proof. unfold checkclientinput. pose proof calm_run_input. solve_respects. Qed.
Lemma calm_receive w : respects calm (receive w).
Proof.
  unfold receive. pose proof calm_check. solve_respects.
  - apply respects_modify. by intros s.
  - by apply calm_client.
Qed.
Lemma calm_serve w a b : respects calm (serve w a b).
Proof. unfold serve. pose proof calm_flush. pose proof calm_receive. solve_respects. Qed.

Lemma flush_input w x : input (cl (exec (flush_output w) x)) = input (cl x).
Proof.
  unfold flush_output. rewrite -> !exec_bind. set (x1 := exec (modify _) _).
  assert (cl x1 = cl x) as H1 by done. case_match; [by rewrite <- H1|]. rewrite -> exec_bind.
  case_match; (rewrite <- H1; reflexivity).
Qed.
Lemma check_input x : eval checkclientinput x = (zlength (input (cl (exec checkclientinput x))) <? INPUT_LIMIT).
Proof. unfold checkclientinput. rewrite -> !eval_bind, !exec_bind. reflexivity. Qed.
Lemma receive_input w x : eval (receive w) x = true -> zlength (input (cl (exec (receive w) x))) < INPUT_LIMIT.
Proof.
  unfold receive. rewrite -> !eval_bind, !exec_bind. set (x1 := exec (modify _) _).
  destruct (_ <$> _) as [[|c data]|]; try done. rewrite -> eval_bind, exec_bind, check_input. lia.
Qed.
(** A client that stays has room for input and not too much output. *)
Lemma serve_stays w a b x : eval (serve w a b) x = true -> zlength (input (cl x)) < INPUT_LIMIT ->
  zlength (input (cl (exec (serve w a b) x))) < INPUT_LIMIT /\ zlength (out (cl (exec (serve w a b) x))) <= OUTPUT_LIMIT.
Proof.
  unfold serve. intros He Hi. rewrite -> eval_bind in He. rewrite -> exec_bind.
  change (eval (gets id) x) with x in *. change (exec (gets id) x) with x in *.
  rewrite -> eval_bind in He. rewrite -> exec_bind.
  set (m1 := if has_output _ && _ && _ then _ else _) in *.
  assert (input (cl (exec m1 x)) = input (cl x)) as H1 by (unfold m1; destruct (has_output (cl x) && a && writable w (socket (cl x))); [apply flush_input|done]).
  rewrite <- H1 in Hi. destruct (eval m1 x); [|done]. set (x1 := exec m1 x) in *. clearbody x1. cbn [negb] in *.
  rewrite -> eval_bind in He. rewrite -> exec_bind.
  change (eval (gets id) x1) with x1 in *. change (exec (gets id) x1) with x1 in *.
  rewrite -> eval_bind in He. rewrite -> exec_bind.
  set (m2 := if b && _ then _ else _) in *.
  assert (eval m2 x1 = true -> zlength (input (cl (exec m2 x1))) < INPUT_LIMIT) as H2
    by (unfold m2; destruct (b && readable w (socket (cl x1))); [apply receive_input|done]).
  destruct (eval m2 x1); [|done]. specialize (H2 eq_refl). set (x2 := exec m2 x1) in *. clearbody x2. cbn [negb] in *.
  rewrite -> eval_bind in He. cbn -[OUTPUT_LIMIT CLIENT_TIME INPUT_LIMIT ENET_TIME_DIFFERENCE] in He |- *.
  apply andb_true_iff in He as [He _]. lia.
Qed.
Definition client_ok (c : account_client) : Prop :=
  zlength (input c) < INPUT_LIMIT /\ zlength (out c) <= OUTPUT_LIMIT /\ few c.
Lemma serve_all_ok w wr rd l : forall g, Forall client_ok l ->
  map host (serve_all w wr rd l g).2 `sublist_of` map host l /\ Forall client_ok (serve_all w wr rd l g).2.
Proof.
  induction l as [|c l IH]; intros g Hl; [by repeat constructor|]. apply Forall_cons in Hl as [(Hi & _ & Hf) Hl].
  cbn [serve_all]. pose proof (calm_serve w (wr (socket c)) (rd (socket c)) (mkconn c g)) as [Hh Hf'].
  pose proof (serve_stays w (wr (socket c)) (rd (socket c)) (mkconn c g)) as Hs.
  unfold eval, exec in *. destruct (serve _ _ _ _) as [stays x]. cbn [fst snd cl] in *.
  destruct (IH (glob x) Hl) as [H1 H2]. destruct (serve_all _ _ _ l _) as [g' l']. cbn [snd] in *.
  destruct stays; [|split; [by constructor|done]]. destruct (Hs eq_refl Hi) as [Hi' Ho'].
  split; [cbn [map]; rewrite -> Hh; by constructor|]. constructor; [|done]. split_and!; auto.
Qed.

Record limits (l : list account_client) : Prop := {
  lim_clients : zlength l <= CLIENT_LIMIT;
  lim_dups : forall h, dups_of h l <= DUP_LIMIT;
  lim_ok : Forall client_ok l
}.
Definition host_count (h : Z) (l : list Z) : Z := zlength (filter (fun x => x = h) l).
Lemma dups_hosts h l : dups_of h l = host_count h (map host l).
Proof. unfold dups_of, host_count, zlength. induction l as [|c l IH]; [done|]. cbn [map]. rewrite -> !filter_cons. case_decide; cbn [length]; lia. Qed.
Lemma host_count_sublist h l l' : l `sublist_of` l' -> host_count h l <= host_count h l'.
Proof.
  unfold host_count, zlength. induction 1 as [|x l l' _ IH|x l l' _ IH]; [done| |]; rewrite -> !filter_cons; case_decide; cbn [length]; lia.
Qed.
Lemma host_count_cons h x l : host_count h (x :: l) = (if decide (x = h) then 1 else 0) + host_count h l.
Proof. unfold host_count, zlength. rewrite -> filter_cons. case_decide; cbn [length]; lia. Qed.
Lemma host_count_delete h i l : l !! i = Some h -> host_count h l = host_count h (delete i l) + 1.
Proof.
  revert i. induction l as [|x l IH]; intros [|i] Hi; try done.
  - cbn in Hi. apply (inj Some) in Hi as ->. change (delete 0%nat (h :: l)) with l. rewrite -> host_count_cons, decide_True by done. lia.
  - cbn in Hi. change (delete (S i) (x :: l)) with (x :: delete i l). rewrite -> !host_count_cons, (IH i Hi). lia.
Qed.
(** The oldest client of an address is one of that address. *)
Lemma oldest_spec h l : match oldest_of h l with
                        | Some i => (fun c => host c) <$> l !! i = Some h
                        | None => dups_of h l = 0
                        end.
Proof.
  unfold oldest_of. set (step := fun best e => _).
  assert (forall l0 l1 best, l = l0 ++ l1 ->
    match best with Some b => (fun c => host c) <$> l !! b.1 = Some h | None => dups_of h l0 = 0 end ->
    match fold_left step (zip (seq (length l0) (length l1)) l1) best with
    | Some b => (fun c => host c) <$> l !! b.1 = Some h
    | None => dups_of h l = 0
    end) as H; [|specialize (H [] l None eq_refl eq_refl); cbn [length] in H; by destruct (fold_left step _ None) as [[i t]|]].
  intros l0 l1. revert l0. induction l1 as [|c l1 IH]; intros l0 best Hl Hb; [rewrite -> app_nil_r in Hl; subst l0; exact Hb|].
  cbn [length seq zip zip_with fold_left].
  specialize (IH (l0 ++ [c]) (step best (length l0, c))). rewrite -> length_app, Nat.add_1_r in IH. apply IH; [by rewrite <- app_assoc|].
  unfold step. cbn [fst snd]. destruct (Z.eqb_spec (host c) h) as [Hc|Hc].
  - assert ((fun c => host c) <$> l !! length l0 = Some h) as Hn by (rewrite -> Hl, list_lookup_middle by done; by rewrite <- Hc).
    destruct best as [[i t]|]; [destruct (connecttime c <? t)|]; (exact Hn || exact Hb).
  - destruct best as [[i t]|]; [done|]. unfold dups_of, zlength in *. rewrite -> filter_app, length_app, filter_cons, decide_False by done. cbn. lia.
Qed.
Lemma make_room_spec h l : limits l ->
  make_room h l `sublist_of` l /\ dups_of h (make_room h l) < DUP_LIMIT.
Proof.
  intros [_ Hd _]. unfold make_room. destruct (Z.leb_spec DUP_LIMIT (dups_of h l)) as [Hle|Hlt]; [|done].
  pose proof (oldest_spec h l) as Hold. destruct (oldest_of h l) as [i|]; [|by rewrite -> Hold in Hle].
  split; [apply sublist_delete|]. rewrite <- list_lookup_fmap in Hold. specialize (Hd h). unfold purgeclient.
  rewrite -> dups_hosts in *. change (map host l) with ((fun c : account_client => host c) <$> l) in Hd.
  rewrite -> (host_count_delete _ _ _ Hold) in Hd. change ((fun c : account_client => host c) <$> l) with (map host l) in Hd.
  assert (map host (delete i l) = delete i (map host l)) as ->; [|lia].
  clear. revert i. induction l as [|c l IH]; intros [|i]; try done. cbn. f_equal. apply IH.
Qed.
Lemma accept_limits w t l : limits l ->
  zlength (accept w t l) <= CLIENT_LIMIT /\ (forall h, dups_of h (accept w t l) <= DUP_LIMIT) /\ Forall client_ok (accept w t l).
Proof.
  intros Hl. pose proof Hl as [Hc Hd Ho]. unfold accept. destruct (at_server w); cbn [negb]; [|done].
  destruct (Z.leb_spec CLIENT_LIMIT (zlength l)) as [|Hlt]; [done|]. destruct (connection w) as [[h sock]|]; [|done].
  destruct (make_room_spec h l Hl) as [Hs Hh]. split_and!.
  - apply sublist_length in Hs. unfold zlength in *. rewrite -> length_app. cbn [length]. lia.
  - intros h'. rewrite -> dups_hosts, map_app. unfold host_count, zlength. rewrite -> filter_app, length_app.
    assert (map host (make_room h l) `sublist_of` map host l) as Hs' by (clear -Hs; induction Hs; by constructor).
    pose proof (host_count_sublist h' _ _ Hs') as Hle. specialize (Hd h'). rewrite -> dups_hosts in Hd, Hh.
    unfold host_count, zlength in *. cbn [map host aclient0]. rewrite -> filter_cons. case_decide; cbn [length filter list_filter]; [subst h'|]; lia.
  - apply Forall_app. split; [apply list.Forall_forall; intros c Hin; rewrite -> list.Forall_forall in Ho; apply Ho; by eapply elem_of_sublist|]. apply Forall_cons; split; [split_and!; by vm_compute|constructor].
Qed.
(** C40: No round of the server, whatever the network does, leaves more than [CLIENT_LIMIT]
    clients, more than [DUP_LIMIT] from one address, a client whose buffers are over their
    limits or one with more than [AUTH_LIMIT] requests. *)
Theorem limits_hold w time st : limits (aclients st) -> limits (aclients (update_server w time st)).
Proof.
  intros Hl. unfold update_server, checkclients. set (st' := st <| sh ::= _ |>).
  change (aclients st') with (aclients st). destruct (selected w); [|done]. cbn [negb].
  destruct (accept_limits w (servtime (sh st')) (aclients st) Hl) as (Hc & Hd & Ho).
  set (wr := fun n => _). set (rd := fun n => has_socket n _).
  destruct (serve_all_ok w wr rd _ (sh st') Ho) as [Hs Ho'].
  destruct (serve_all _ _ _ _ _) as [g l]. cbn [snd aclients] in *. split.
  - apply sublist_length in Hs. rewrite -> !length_map in Hs. unfold zlength in *. lia.
  - intros h. rewrite -> dups_hosts. eapply Z.le_trans; [by apply host_count_sublist|]. rewrite <- dups_hosts. apply Hd.
  - done.
Qed.

(** ** Examples *)
Definition no_scripts : string -> list cstring -> M authserver unit := fun _ _ => ret tt.
Definition sample_auth : authserver :=
  exec (adduser no_scripts (cstr "rob") [] (cstr "+1f") (cstr "m"))
    (mkauthserver (mkshared (hash_new DEFAULTSIZE) 1400000000 5000 (seedMT 5489 (mt_initial 0)) 0 0 0 0)
       [aclient0 16777343 7 4000; aclient0 16777343 8 4500]).
Definition sample_user : userinfo := mkuser (cstr "rob") [] (cstr "+1f") (cstr "m").
Definition sample_conn : conn := mkconn (aclient0 16777343 7 4000) (sh sample_auth).
(** The player answers 15 seconds later; before that another question and a wrong answer for
    it come on the connection. *)
Definition world_at (t : Z) : shared := sh sample_auth <| servtime := t |>.
Definition sample_turns : list turn :=
  [(world_at 7000, Reqauth 2 (cstr "rob") []); (world_at 9000, Confauth 2 (cstr "0"))].
Lemma login_decided_witness : exists before between verdict,
  let asked := exec (run_command (Reqauth 1 (cstr "rob") [])) sample_conn in
  let answered := exec (run_command (Confauth 1 (cstr "5"))) (at_turn (world_at 20000) (exec (converse sample_turns) asked)) in
  out (cl answered) = out (cl asked) ++ lines (between ++ [verdict]) /\ untold 1 before /\ untold 1 between /\
  (verdict = Succauth 1 <-> names (cstr "5") (question sample_user sample_conn).1).
Proof.
  destruct (login_decided 1 (cstr "rob") [] (cstr "5") sample_user sample_turns (world_at 20000) sample_conn)
    as (before & between & verdict & _ & Hb & Ho & Hbt & _ & Hv & _); [reflexivity..| |reflexivity|reflexivity|].
  - repeat constructor.
  - exists before, between, verdict. exact (conj Ho (conj Hb (conj Hbt Hv))).
Defined.
(** What the text of the verdicts leaves open, seen in the lines: a throttled question is not
    answered, and a late answer is told twice that its question failed. *)
Example throttled_silence : exec (run_command (Reqauth 2 (cstr "rob") [])) (exec (run_command (Reqauth 1 (cstr "rob") [])) sample_conn)
  = exec (run_command (Reqauth 1 (cstr "rob") [])) sample_conn.
Proof. vm_compute. reflexivity. Qed.
Example late_answer :
  let asked := exec (run_command (Reqauth 1 (cstr "rob") [])) sample_conn in
  out (cl (exec (run_command (Confauth 1 (cstr "5"))) (at_turn (world_at 40000) asked))) = out (cl asked) ++ lines [Failauth 1; Failauth 1].
Proof. vm_compute. reflexivity. Qed.
(** A round: a third client connects, the first sends lines, of which one is cut. *)
Definition sample_answers : answers := mkanswers true (Some (16777343, 9)) true
  (fun _ => true) (fun n => n =? 7) (fun _ n => n)
  (fun _ _ => Some (cstr "QueryId 3 rob x" ++ [10] ++ cstr "confauth 4294967297 ab" ++ [10] ++ cstr "reqa")).
Lemma limits_hold_witness :
  limits (aclients sample_auth) /\ limits (aclients (update_server sample_answers 6000 sample_auth)).
Proof.
  assert (limits (aclients sample_auth)) as H.
  { split; [by vm_compute| |repeat (apply Forall_cons; split; [split_and!; by vm_compute|]); constructor].
    intros h. change (aclients sample_auth) with [aclient0 16777343 7 4000; aclient0 16777343 8 4500].
    unfold dups_of. rewrite -> !filter_cons. repeat case_decide; by vm_compute. }
  split; [exact H|]. by apply limits_hold.
Defined.
Example sample_round :
  map (fun c => (out c, input c)) (aclients (update_server sample_answers 6000 sample_auth)) =
  [(cstr "NotFound 3" ++ [10] ++ cstr "failauth 1" ++ [10], cstr "reqa"); ([], []); ([], [])].
Proof. reflexivity. Qed.
