(* ===== verification/Enet.v ===== *)
(** ENet: its numbers, its clock and the commands of its protocol (enet/include/enet/time.h,
    enet/include/enet/protocol.h, enet/protocol.c [commandSizes], enet/packet.c).

    A command is a header of four bytes and the fields of its kind, in network order.  The
    identifier of a connection is never converted by the source: here it is the number its
    four bytes stand for in network order, and only ever compared. *)
From S2P Require Import Prelude.

#[local] Open Scope list_scope.

Definition u8 (n : Z) : Z := n mod 2 ^ 8.
Definition u16 (n : Z) : Z := n mod 2 ^ 16.
Definition u32 (n : Z) : Z := n mod 2 ^ 32.

(** * The clock, in milliseconds, which wraps around *)

Definition ENET_TIME_OVERFLOW : Z := 86400000.
Definition ENET_TIME_LESS (a b : Z) : bool := ENET_TIME_OVERFLOW <=? u32 (a - b).
Definition ENET_TIME_GREATER (a b : Z) : bool := ENET_TIME_OVERFLOW <=? u32 (b - a).
Definition ENET_TIME_LESS_EQUAL (a b : Z) : bool := negb (ENET_TIME_GREATER a b).
Definition ENET_TIME_GREATER_EQUAL (a b : Z) : bool := negb (ENET_TIME_LESS a b).
Definition ENET_TIME_DIFFERENCE (a b : Z) : Z :=
  if ENET_TIME_OVERFLOW <=? u32 (a - b) then u32 (b - a) else u32 (a - b).

(** * Numbers of the protocol *)

Definition ENET_PROTOCOL_MINIMUM_MTU : Z := 576.
Definition ENET_PROTOCOL_MAXIMUM_MTU : Z := 4096.
Definition ENET_PROTOCOL_MAXIMUM_PACKET_COMMANDS : Z := 32.
Definition ENET_BUFFER_MAXIMUM : Z := 1 + 2 * ENET_PROTOCOL_MAXIMUM_PACKET_COMMANDS.
Definition ENET_PROTOCOL_MINIMUM_WINDOW_SIZE : Z := 4096.
Definition ENET_PROTOCOL_MAXIMUM_WINDOW_SIZE : Z := 65536.
Definition ENET_PROTOCOL_MINIMUM_CHANNEL_COUNT : Z := 1.
Definition ENET_PROTOCOL_MAXIMUM_CHANNEL_COUNT : Z := 255.
Definition ENET_PROTOCOL_MAXIMUM_PEER_ID : Z := 0xFFF.
Definition ENET_PROTOCOL_MAXIMUM_FRAGMENT_COUNT : Z := 1024 * 1024.
Definition COMMAND_NONE : Z := 0.
Definition COMMAND_ACKNOWLEDGE : Z := 1.
Definition COMMAND_CONNECT : Z := 2.
Definition COMMAND_VERIFY_CONNECT : Z := 3.
Definition COMMAND_DISCONNECT : Z := 4.
Definition COMMAND_PING : Z := 5.
Definition COMMAND_SEND_RELIABLE : Z := 6.
Definition COMMAND_SEND_UNRELIABLE : Z := 7.
Definition COMMAND_SEND_FRAGMENT : Z := 8.
Definition COMMAND_SEND_UNSEQUENCED : Z := 9.
Definition COMMAND_BANDWIDTH_LIMIT : Z := 10.
Definition COMMAND_THROTTLE_CONFIGURE : Z := 11.
Definition COMMAND_SEND_UNRELIABLE_FRAGMENT : Z := 12.
Definition COMMAND_COUNT : Z := 13.
Definition COMMAND_MASK : Z := 0x0F.
Definition FLAG_ACKNOWLEDGE : Z := Z.shiftl 1 7.
Definition FLAG_UNSEQUENCED : Z := Z.shiftl 1 6.
Definition HEADER_FLAG_COMPRESSED : Z := Z.shiftl 1 14.
Definition HEADER_FLAG_SENT_TIME : Z := Z.shiftl 1 15.
Definition HEADER_FLAG_MASK : Z := Z.lor HEADER_FLAG_COMPRESSED HEADER_FLAG_SENT_TIME.
Definition HEADER_SESSION_MASK : Z := Z.shiftl 3 12.
Definition HEADER_SESSION_SHIFT : Z := 12.

Definition ENET_HOST_BANDWIDTH_THROTTLE_INTERVAL : Z := 1000.
Definition ENET_HOST_DEFAULT_MTU : Z := 1400.
Definition ENET_HOST_DEFAULT_MAXIMUM_PACKET_SIZE : Z := 32 * 1024 * 1024.
Definition ENET_HOST_DEFAULT_MAXIMUM_WAITING_DATA : Z := 32 * 1024 * 1024.
Definition ENET_PEER_DEFAULT_ROUND_TRIP_TIME : Z := 500.
Definition ENET_PEER_DEFAULT_PACKET_THROTTLE : Z := 32.
Definition ENET_PEER_PACKET_THROTTLE_SCALE : Z := 32.
Definition ENET_PEER_PACKET_THROTTLE_COUNTER : Z := 7.
Definition ENET_PEER_PACKET_THROTTLE_ACCELERATION : Z := 2.
Definition ENET_PEER_PACKET_THROTTLE_DECELERATION : Z := 2.
Definition ENET_PEER_PACKET_THROTTLE_INTERVAL : Z := 5000.
Definition ENET_PEER_PACKET_LOSS_SCALE : Z := Z.shiftl 1 16.
Definition ENET_PEER_PACKET_LOSS_INTERVAL : Z := 10000.
Definition ENET_PEER_WINDOW_SIZE_SCALE : Z := 64 * 1024.
Definition ENET_PEER_TIMEOUT_LIMIT : Z := 32.
Definition ENET_PEER_TIMEOUT_MINIMUM : Z := 5000.
Definition ENET_PEER_TIMEOUT_MAXIMUM : Z := 30000.
Definition ENET_PEER_PING_INTERVAL : Z := 500.
Definition ENET_PEER_UNSEQUENCED_WINDOW_SIZE : Z := 1024.
Definition ENET_PEER_FREE_UNSEQUENCED_WINDOWS : Z := 32.
Definition ENET_PEER_RELIABLE_WINDOWS : Z := 16.
Definition ENET_PEER_RELIABLE_WINDOW_SIZE : Z := 0x1000.
Definition ENET_PEER_FREE_RELIABLE_WINDOWS : Z := 8.

(** * Commands *)

Record connecting := mkconnecting {
  c_outgoingPeerID : Z; c_incomingSessionID : Z; c_outgoingSessionID : Z; c_mtu : Z; c_windowSize : Z;
  c_channelCount : Z; c_incomingBandwidth : Z; c_outgoingBandwidth : Z; c_packetThrottleInterval : Z;
  c_packetThrottleAcceleration : Z; c_packetThrottleDeceleration : Z; c_connectID : Z
}.
Record fragment := mkfragment {
  f_startSequenceNumber : Z; f_dataLength : Z; f_fragmentCount : Z; f_fragmentNumber : Z;
  f_totalLength : Z; f_fragmentOffset : Z
}.
(** What follows the header, by the kind of the command. *)
Inductive command_body :=
| Acknowledge (receivedReliableSequenceNumber receivedSentTime : Z)
| Connect (c : connecting) (data : Z)
| VerifyConnect (c : connecting)
| Disconnect (data : Z)
| Ping
| SendReliable (dataLength : Z)
| SendUnreliable (unreliableSequenceNumber dataLength : Z)
| SendFragment (f : fragment)
| SendUnsequenced (unsequencedGroup dataLength : Z)
| BandwidthLimit (incomingBandwidth outgoingBandwidth : Z)
| ThrottleConfigure (interval acceleration deceleration : Z)
| SendUnreliableFragment (f : fragment).
Record protocol := mkprotocol {
  h_command : Z; h_channelID : Z; h_reliableSequenceNumber : Z; p_body : command_body
}.
#[export] Instance eta_protocol : Eta protocol :=
  settable mkprotocol <h_command; h_channelID; h_reliableSequenceNumber; p_body>.

Definition body_number (b : command_body) : Z :=
  match b with
  | Acknowledge _ _ => COMMAND_ACKNOWLEDGE
  | Connect _ _ => COMMAND_CONNECT
  | VerifyConnect _ => COMMAND_VERIFY_CONNECT
  | Disconnect _ => COMMAND_DISCONNECT
  | Ping => COMMAND_PING
  | SendReliable _ => COMMAND_SEND_RELIABLE
  | SendUnreliable _ _ => COMMAND_SEND_UNRELIABLE
  | SendFragment _ => COMMAND_SEND_FRAGMENT
  | SendUnsequenced _ _ => COMMAND_SEND_UNSEQUENCED
  | BandwidthLimit _ _ => COMMAND_BANDWIDTH_LIMIT
  | ThrottleConfigure _ _ _ => COMMAND_THROTTLE_CONFIGURE
  | SendUnreliableFragment _ => COMMAND_SEND_UNRELIABLE_FRAGMENT
  end.
Definition command_number (c : protocol) : Z := Z.land (h_command c) COMMAND_MASK.
Definition acknowledged (c : protocol) : bool := Z.testbit (h_command c) 7.
Definition unsequenced (c : protocol) : bool := Z.testbit (h_command c) 6.

Definition commandSizes : list Z := [0; 8; 48; 44; 8; 4; 6; 8; 24; 8; 12; 16; 24].
Definition enet_protocol_command_size (commandNumber : Z) : Z :=
  default 0 (commandSizes .! (Z.land commandNumber COMMAND_MASK)).

(** ** On the wire *)

(** [n] bytes, the high one first. *)
Fixpoint put_be (n : nat) (v : Z) : list Z :=
  match n with O => [] | S n => v / 256 ^ Z.of_nat n mod 256 :: put_be n v end.
Definition get_be (l : list Z) : Z := fold_left (fun v b => 256 * v + b) l 0.
(** A field of [n] bytes, and the rest. *)
Definition field (n : nat) (l : list Z) : Z * list Z := (get_be (take n l), drop n l).

Definition put_connecting (c : connecting) : list Z :=
  put_be 2 (c_outgoingPeerID c) ++ put_be 1 (c_incomingSessionID c) ++ put_be 1 (c_outgoingSessionID c) ++
  put_be 4 (c_mtu c) ++ put_be 4 (c_windowSize c) ++ put_be 4 (c_channelCount c) ++
  put_be 4 (c_incomingBandwidth c) ++ put_be 4 (c_outgoingBandwidth c) ++
  put_be 4 (c_packetThrottleInterval c) ++ put_be 4 (c_packetThrottleAcceleration c) ++
  put_be 4 (c_packetThrottleDeceleration c) ++ put_be 4 (c_connectID c).
Definition put_fragment (f : fragment) : list Z :=
  put_be 2 (f_startSequenceNumber f) ++ put_be 2 (f_dataLength f) ++ put_be 4 (f_fragmentCount f) ++
  put_be 4 (f_fragmentNumber f) ++ put_be 4 (f_totalLength f) ++ put_be 4 (f_fragmentOffset f).
Definition put_body (b : command_body) : list Z :=
  match b with
  | Acknowledge n t => put_be 2 n ++ put_be 2 t
  | Connect c data => put_connecting c ++ put_be 4 data
  | VerifyConnect c => put_connecting c
  | Disconnect data => put_be 4 data
  | Ping => []
  | SendReliable n => put_be 2 n
  | SendUnreliable u n => put_be 2 u ++ put_be 2 n
  | SendFragment f | SendUnreliableFragment f => put_fragment f
  | SendUnsequenced g n => put_be 2 g ++ put_be 2 n
  | BandwidthLimit i o => put_be 4 i ++ put_be 4 o
  | ThrottleConfigure i a d => put_be 4 i ++ put_be 4 a ++ put_be 4 d
  end.
Definition put_protocol (c : protocol) : list Z :=
  put_be 1 (h_command c) ++ put_be 1 (h_channelID c) ++ put_be 2 (h_reliableSequenceNumber c) ++ put_body (p_body c).

Definition get_connecting (l : list Z) : connecting * list Z :=
  let '(a, l) := field 2 l in let '(b, l) := field 1 l in let '(c, l) := field 1 l in
  let '(d, l) := field 4 l in let '(e, l) := field 4 l in let '(f, l) := field 4 l in
  let '(g, l) := field 4 l in let '(h, l) := field 4 l in let '(i, l) := field 4 l in
  let '(j, l) := field 4 l in let '(k, l) := field 4 l in let '(m, l) := field 4 l in
  (mkconnecting a b c d e f g h i j k m, l).
Definition get_fragment (l : list Z) : fragment :=
  let '(a, l) := field 2 l in let '(b, l) := field 2 l in let '(c, l) := field 4 l in
  let '(d, l) := field 4 l in let '(e, l) := field 4 l in let '(f, _) := field 4 l in
  mkfragment a b c d e f.
Definition get_two (n : nat) (l : list Z) : Z * Z :=
  let '(a, l) := field n l in let '(b, _) := field n l in (a, b).
Definition get_body (number : Z) (l : list Z) : option command_body :=
  match number with
  | 1 => let '(n, t) := get_two 2 l in Some (Acknowledge n t)
  | 2 => let '(c, l) := get_connecting l in Some (Connect c (field 4 l).1)
  | 3 => Some (VerifyConnect (get_connecting l).1)
  | 4 => Some (Disconnect (field 4 l).1)
  | 5 => Some Ping
  | 6 => Some (SendReliable (field 2 l).1)
  | 7 => let '(u, n) := get_two 2 l in Some (SendUnreliable u n)
  | 8 => Some (SendFragment (get_fragment l))
  | 9 => let '(g, n) := get_two 2 l in Some (SendUnsequenced g n)
  | 10 => let '(i, o) := get_two 4 l in Some (BandwidthLimit i o)
  | 11 => let '(i, l) := field 4 l in let '(a, d) := get_two 4 l in Some (ThrottleConfigure i a d)
  | 12 => Some (SendUnreliableFragment (get_fragment l))
  | _ => None
  end.
(** The command at the beginning of [l], when all of it is there; its size. *)
Definition read_command (l : list Z) : option (protocol * Z) :=
  if zlength l <? 4 then None else
  let '(command, rest) := field 1 l in
  let '(channel, rest) := field 1 rest in
  let '(number, rest) := field 2 rest in
  let size := enet_protocol_command_size command in
  if (size =? 0) || (zlength l <? size) then None else
  b ← get_body (Z.land command COMMAND_MASK) rest;
  Some (mkprotocol command channel number b, size).

(** * Packets *)

Definition ENET_PACKET_FLAG_RELIABLE : Z := 1.
Definition ENET_PACKET_FLAG_UNSEQUENCED : Z := 2.
Definition ENET_PACKET_FLAG_UNRELIABLE_FRAGMENT : Z := 8.
Definition ENET_PACKET_FLAG_SENT : Z := Z.shiftl 1 8.
(** [dataLength] is the length of the list. *)
Record packet := mkpacket { pk_flags : Z; pk_data : list Z }.
#[export] Instance eta_packet : Eta packet := settable mkpacket <pk_flags; pk_data>.
Definition pk_length (p : packet) : Z := zlength (pk_data p).
(** Without data the memory of the packet is what it was.  The data of a packet that is not allocated are those of
    the caller; the model does not tell the two apart. *)
Definition enet_packet_create (junk : Z) (data : option (list Z)) (dataLength flags : Z) : packet :=
  mkpacket flags match data with
    | Some d => take (Z.to_nat dataLength) d
    | None => replicate (Z.to_nat dataLength) junk
    end.
Definition enet_packet_resize (junk : Z) (p : packet) (dataLength : Z) : packet :=
  if dataLength <=? pk_length p then p <| pk_data ::= take (Z.to_nat dataLength) |>
  else p <| pk_data ::= fun d => d ++ replicate (Z.to_nat (dataLength - pk_length p)) junk |>.

(** * The cyclic redundancy check *)

Fixpoint reflect_loop (n : nat) (bit bits val result : Z) : Z :=
  match n with
  | O => result
  | S n => reflect_loop n (bit + 1) bits (Z.shiftr val 1)
             (if Z.testbit val 0 then Z.lor result (Z.shiftl 1 (bits - 1 - bit)) else result)
  end.
Definition reflect_crc (val bits : Z) : Z := reflect_loop (Z.to_nat bits) 0 bits val 0.
Definition crc_step (crc : Z) : Z :=
  if negb (Z.land crc 0x80000000 =? 0) then Z.lxor (u32 (Z.shiftl crc 1)) 0x04c11db7 else u32 (Z.shiftl crc 1).
Definition crc_entry (byte : Z) : Z :=
  reflect_crc (Nat.iter 8 crc_step (u32 (Z.shiftl (reflect_crc byte 8) 24))) 32.
Definition crcTable : list Z := map crc_entry (seqZ 0 256).
Definition crc_byte (table : list Z) (crc data : Z) : Z :=
  Z.lxor (Z.shiftr crc 8) (default 0 (table .! (Z.lxor (Z.land crc 0xFF) data))).
(** Before it is put in network order. *)
Definition enet_crc32 (table : list Z) (buffers : list (list Z)) : Z :=
  Z.lxor (fold_left (crc_byte table) (concat buffers) 0xFFFFFFFF) 0xFFFFFFFF.
Example crc32_check : enet_crc32 crcTable [map Z.of_nat [49; 50; 51; 52]; map Z.of_nat [53; 54; 55; 56; 57]]%nat = 0xCBF43926.
Proof. vm_compute. done. Qed.

(** * A command is read back as it was written *)

Definition sized (n : nat) (v : Z) : Prop := 0 <= v < 256 ^ Z.of_nat n.
Definition connecting_fits (c : connecting) : Prop :=
  sized 2 (c_outgoingPeerID c) /\ sized 1 (c_incomingSessionID c) /\ sized 1 (c_outgoingSessionID c) /\
  Forall (sized 4) [c_mtu c; c_windowSize c; c_channelCount c; c_incomingBandwidth c; c_outgoingBandwidth c;
    c_packetThrottleInterval c; c_packetThrottleAcceleration c; c_packetThrottleDeceleration c; c_connectID c].
Definition fragment_fits (f : fragment) : Prop :=
  Forall (sized 2) [f_startSequenceNumber f; f_dataLength f] /\
  Forall (sized 4) [f_fragmentCount f; f_fragmentNumber f; f_totalLength f; f_fragmentOffset f].
(** The fields of a command are within the widths of its structure. *)
Definition body_fits (b : command_body) : Prop :=
  match b with
  | Acknowledge n t => sized 2 n /\ sized 2 t
  | Connect c data => connecting_fits c /\ sized 4 data
  | VerifyConnect c => connecting_fits c
  | Disconnect data => sized 4 data
  | Ping => True
  | SendReliable n => sized 2 n
  | SendUnreliable u n => sized 2 u /\ sized 2 n
  | SendFragment f | SendUnreliableFragment f => fragment_fits f
  | SendUnsequenced g n => sized 2 g /\ sized 2 n
  | BandwidthLimit i o => sized 4 i /\ sized 4 o
  | ThrottleConfigure i a d => sized 4 i /\ sized 4 a /\ sized 4 d
  end.
Definition protocol_fits (c : protocol) : Prop :=
  sized 1 (h_command c) /\ sized 1 (h_channelID c) /\ sized 2 (h_reliableSequenceNumber c) /\
  command_number c = body_number (p_body c) /\ body_fits (p_body c).

Lemma length_put_be n v : length (put_be n v) = n.
Proof. induction n as [|n IH]; simpl; [done|by rw IH]. Qed.
Lemma put_be_value n v acc :
  0 <= v -> fold_left (fun v b => 256 * v + b) (put_be n v) acc = acc * 256 ^ Z.of_nat n + v mod 256 ^ Z.of_nat n.
Proof.
  intros Hv. revert acc. induction n as [|n IH]; intros acc; cbn [put_be fold_left].
  { rw Z.mod_1_r. lia. }
  rw IH. rw Nat2Z.inj_succ. rewrite -> Z.pow_succ_r by lia.
  set (b := 256 ^ Z.of_nat n). assert (0 < b) by (subst b; lia).
  rewrite -> (Z.mul_comm 256 b), (Z.rem_mul_r v b 256) by lia. lia.
Qed.
Lemma field_put n v l : sized n v -> field n (put_be n v ++ l) = (v, l).
Proof.
  intros [Hlo Hhi]. unfold field, get_be.
  rw (take_app_length' (put_be n v) l n (eq_sym (length_put_be n v))) (drop_app_length' (put_be n v) l n (eq_sym (length_put_be n v))).
  rw put_be_value //. rw Z.mod_small //.
Qed.

Lemma get_connecting_put c l : connecting_fits c -> get_connecting (put_connecting c ++ l) = (c, l).
Proof.
  intros (H1 & H2 & H3 & H). rw !Forall_cons in H. destruct H as (?&?&?&?&?&?&?&?&?&_).
  unfold get_connecting, put_connecting. rewrite <- !app_assoc. rw !field_put //. by destruct c.
Qed.
Lemma get_fragment_put f l : fragment_fits f -> get_fragment (put_fragment f ++ l) = f.
Proof.
  intros (H1 & H2). rw !Forall_cons in H1 H2. destruct H1 as (?&?&_), H2 as (?&?&?&?&_).
  unfold get_fragment, put_fragment. rewrite <- !app_assoc. rw !field_put //. by destruct f.
Qed.
Lemma get_two_put n a b l : sized n a -> sized n b -> get_two n (put_be n a ++ put_be n b ++ l) = (a, b).
Proof. intros. unfold get_two. by rw !field_put. Qed.
Lemma get_body_put b l : body_fits b -> get_body (body_number b) (put_body b ++ l) = Some b.
Proof.
  destruct b; cbn [body_number put_body body_fits]; intros Hf; cbn [get_body];
    rewrite <- ?app_assoc; destruct_and?;
    match goal with |- get_body ?n _ = _ => unfold n end; cbn [get_body];
    rw ?get_connecting_put ?get_fragment_put ?get_two_put ?field_put ?get_two_put //.
Qed.
Lemma length_put_body b : 4 + zlength (put_body b) = enet_protocol_command_size (body_number b).
Proof.
  destruct b; cbn [put_body body_number]; unfold zlength, put_connecting, put_fragment;
    rw ?length_app ?length_put_be //.
Qed.
Lemma command_size_number c :
  command_number c = body_number (p_body c) ->
  enet_protocol_command_size (h_command c) = 4 + zlength (put_body (p_body c)).
Proof.
  intros E. rw length_put_body -E /command_number /enet_protocol_command_size -Z.land_assoc. done.
Qed.

(** A command whose fields fit their widths, written on the wire before anything else, is read back as it
    was, and its size is the entry of the table of sizes for its kind, which is the number of bytes written. *)
Theorem command_read_back c l :
  protocol_fits c ->
  read_command (put_protocol c ++ l) = Some (c, enet_protocol_command_size (h_command c)) /\
  zlength (put_protocol c) = enet_protocol_command_size (h_command c).
Proof.
  intros (H1 & H2 & H3 & Hn & Hb).
  assert (zlength (put_protocol c) = enet_protocol_command_size (h_command c)) as Hs.
  { rw command_size_number // /put_protocol /zlength !length_app !length_put_be. lia. }
  split; [|done]. pose proof (zlength_nonneg l). pose proof (zlength_nonneg (put_body (p_body c))).
  pose proof (command_size_number c Hn) as Hsz.
  unfold read_command. rw zlength_app Hs.
  rewrite -> (proj2 (Z.ltb_ge (_ + _) 4)) by lia.
  unfold put_protocol. rewrite <- !app_assoc. rw !field_put //. cbv beta iota.
  rewrite -> (proj2 (Z.eqb_neq (enet_protocol_command_size (h_command c)) 0)) by lia.
  rewrite -> (proj2 (Z.ltb_ge _ _)) by lia. cbn [orb].
  change (Z.land (h_command c) COMMAND_MASK) with (command_number c). rw Hn get_body_put //.
  cbn. by destruct c.
Qed.
Lemma command_read_back_witness :
  read_command (put_protocol (mkprotocol 134 1 7 (SendReliable 300)) ++ [1; 2]) =
    Some (mkprotocol 134 1 7 (SendReliable 300), 6) /\
  zlength (put_protocol (mkprotocol 134 1 7 (SendReliable 300))) = 6.
Proof.
  apply (command_read_back (mkprotocol 134 1 7 (SendReliable 300)) [1; 2]).
  unfold protocol_fits, sized; cbn. split_and!; done || lia.
Defined.
