(* ===== verification/Peer.v ===== *)
(** ENet: the peers of a host (enet/include/enet/enet.h, enet/peer.c).

    An operation on a peer is a program over the host, given the number of the peer.  The
    commands of a queue are in the order of the list of the source.  A command that came in
    has a number of its own, which stands for its address.  Memory is never short (the
    callbacks of the server end the process); packets are values, so that their reference
    counts, which only decide when memory is given back, are not kept. *)
From S2P Require Import Prelude Enet.

#[local] Open Scope list_scope.

(** * Data *)

Inductive ENetPeerState :=
  DISCONNECTED | CONNECTING | ACKNOWLEDGING_CONNECT | CONNECTION_PENDING | CONNECTION_SUCCEEDED |
  CONNECTED | DISCONNECT_LATER | DISCONNECTING | ACKNOWLEDGING_DISCONNECT | ZOMBIE.
#[export] Instance ENetPeerState_eq_dec : EqDecision ENetPeerState.
Proof. solve_decision. Defined.
Definition state_number (s : ENetPeerState) : Z :=
  match s with
  | DISCONNECTED => 0 | CONNECTING => 1 | ACKNOWLEDGING_CONNECT => 2 | CONNECTION_PENDING => 3
  | CONNECTION_SUCCEEDED => 4 | CONNECTED => 5 | DISCONNECT_LATER => 6 | DISCONNECTING => 7
  | ACKNOWLEDGING_DISCONNECT => 8 | ZOMBIE => 9
  end.

Record acknowledgement := mkacknowledgement { ack_sentTime : Z; ack_command : protocol }.

Record outgoing := mkoutgoing {
  out_reliable : Z; out_unreliable : Z; out_sentTime : Z; out_roundTripTimeout : Z;
  out_roundTripTimeoutLimit : Z; out_fragmentOffset : Z; out_fragmentLength : Z; out_sendAttempts : Z;
  out_command : protocol; out_packet : option packet
}.
#[export] Instance eta_outgoing : Eta outgoing :=
  settable mkoutgoing <out_reliable; out_unreliable; out_sentTime; out_roundTripTimeout;
    out_roundTripTimeoutLimit; out_fragmentOffset; out_fragmentLength; out_sendAttempts; out_command; out_packet>.

(** [in_fragments]: the fragments that are there, of [in_fragmentCount]. *)
Record incoming := mkincoming {
  in_id : Z; in_reliable : Z; in_unreliable : Z; in_command : protocol; in_fragmentCount : Z;
  in_fragmentsRemaining : Z; in_fragments : gset Z; in_packet : packet
}.
#[export] Instance eta_incoming : Eta incoming :=
  settable mkincoming <in_id; in_reliable; in_unreliable; in_command; in_fragmentCount; in_fragmentsRemaining;
    in_fragments; in_packet>.

Record channel := mkchannel {
  ch_outgoingReliable : Z; ch_outgoingUnreliable : Z; ch_usedReliableWindows : Z; ch_reliableWindows : list Z;
  ch_incomingReliable : Z; ch_incomingUnreliable : Z; ch_reliableCommands : list incoming;
  ch_unreliableCommands : list incoming
}.
#[export] Instance eta_channel : Eta channel :=
  settable mkchannel <ch_outgoingReliable; ch_outgoingUnreliable; ch_usedReliableWindows; ch_reliableWindows;
    ch_incomingReliable; ch_incomingUnreliable; ch_reliableCommands; ch_unreliableCommands>.
Definition empty_channel : channel := mkchannel 0 0 0 (replicate 16 0) 0 0 [] [].

(** [channelCount] is the length of the list of channels, except that a connection verified with fewer
    channels leaves the others unused.  [flags] has one bit, [pe_needsDispatch]. *)
Record peer := mkpeer {
  pe_outgoingPeerID : Z; pe_incomingPeerID : Z; pe_connectID : Z; pe_outgoingSessionID : Z; pe_incomingSessionID : Z;
  pe_address : Z * Z; pe_state : ENetPeerState; pe_channels : list channel; pe_channelCount : Z;
  pe_incomingBandwidth : Z; pe_outgoingBandwidth : Z; pe_incomingBandwidthThrottleEpoch : Z;
  pe_outgoingBandwidthThrottleEpoch : Z; pe_incomingDataTotal : Z; pe_outgoingDataTotal : Z; pe_lastSendTime : Z;
  pe_lastReceiveTime : Z; pe_nextTimeout : Z; pe_earliestTimeout : Z; pe_packetLossEpoch : Z; pe_packetsSent : Z;
  pe_packetsLost : Z; pe_packetLoss : Z; pe_packetLossVariance : Z; pe_packetThrottle : Z; pe_packetThrottleLimit : Z;
  pe_packetThrottleCounter : Z; pe_packetThrottleEpoch : Z; pe_packetThrottleAcceleration : Z;
  pe_packetThrottleDeceleration : Z; pe_packetThrottleInterval : Z; pe_pingInterval : Z; pe_timeoutLimit : Z;
  pe_timeoutMinimum : Z; pe_timeoutMaximum : Z; pe_lastRoundTripTime : Z; pe_lowestRoundTripTime : Z;
  pe_lastRoundTripTimeVariance : Z; pe_highestRoundTripTimeVariance : Z; pe_roundTripTime : Z;
  pe_roundTripTimeVariance : Z; pe_mtu : Z; pe_windowSize : Z; pe_reliableDataInTransit : Z;
  pe_outgoingReliable : Z; pe_acknowledgements : list acknowledgement; pe_sentReliable : list outgoing;
  pe_sentUnreliable : list outgoing; pe_outgoing : list outgoing; pe_dispatched : list incoming;
  pe_needsDispatch : bool; pe_incomingUnsequencedGroup : Z; pe_outgoingUnsequencedGroup : Z;
  pe_unsequencedWindow : gset Z; pe_eventData : Z; pe_totalWaitingData : Z
}.
#[export] Instance eta_peer : Eta peer :=
  settable mkpeer <pe_outgoingPeerID; pe_incomingPeerID; pe_connectID; pe_outgoingSessionID; pe_incomingSessionID;
    pe_address; pe_state; pe_channels; pe_channelCount; pe_incomingBandwidth; pe_outgoingBandwidth;
    pe_incomingBandwidthThrottleEpoch; pe_outgoingBandwidthThrottleEpoch; pe_incomingDataTotal; pe_outgoingDataTotal;
    pe_lastSendTime; pe_lastReceiveTime; pe_nextTimeout; pe_earliestTimeout; pe_packetLossEpoch; pe_packetsSent;
    pe_packetsLost; pe_packetLoss; pe_packetLossVariance; pe_packetThrottle; pe_packetThrottleLimit;
    pe_packetThrottleCounter; pe_packetThrottleEpoch; pe_packetThrottleAcceleration; pe_packetThrottleDeceleration;
    pe_packetThrottleInterval; pe_pingInterval; pe_timeoutLimit; pe_timeoutMinimum; pe_timeoutMaximum;
    pe_lastRoundTripTime; pe_lowestRoundTripTime; pe_lastRoundTripTimeVariance; pe_highestRoundTripTimeVariance;
    pe_roundTripTime; pe_roundTripTimeVariance; pe_mtu; pe_windowSize; pe_reliableDataInTransit; pe_outgoingReliable;
    pe_acknowledgements; pe_sentReliable; pe_sentUnreliable; pe_outgoing; pe_dispatched; pe_needsDispatch;
    pe_incomingUnsequencedGroup; pe_outgoingUnsequencedGroup; pe_unsequencedWindow; pe_eventData; pe_totalWaitingData>.

(** An event; peers are named by their number. *)
Inductive event :=
| NoEvent
| EventConnect (peer data : Z)
| EventDisconnect (peer data : Z)
| EventReceive (peer channelID : Z) (p : packet).

(** What the socket gives: an error, or a datagram and where it is from. *)
Inductive reception := ReceiveError | Received (from : Z * Z) (data : list Z).

(** A host.  [eh_event] is the event structure of the caller.  The rest of the world: the times the clock will
    show, what the socket will receive, what it will answer to a datagram (its length when the list is over), and
    the datagrams sent so far.  [eh_intercept] is the callback for datagrams, which sees who sent them. *)
Record enet_host := mkenet_host {
  eh_incomingBandwidth : Z; eh_outgoingBandwidth : Z; eh_bandwidthThrottleEpoch : Z; eh_mtu : Z; eh_randomSeed : Z;
  eh_recalculate : bool; eh_peers : list peer; eh_channelLimit : Z; eh_serviceTime : Z; eh_dispatchQueue : list Z;
  eh_continueSending : bool; eh_packetSize : Z; eh_headerFlags : Z; eh_commandCount : Z; eh_buffers : list (list Z);
  eh_receivedAddress : Z * Z; eh_totalSentData : Z; eh_totalSentPackets : Z; eh_totalReceivedData : Z;
  eh_totalReceivedPackets : Z; eh_connectedPeers : Z; eh_bandwidthLimitedPeers : Z; eh_duplicatePeers : Z;
  eh_intercept : option (Z * Z -> Z); eh_maximumPacketSize : Z; eh_maximumWaitingData : Z; eh_event : event; eh_nextID : Z;
  eh_clock : list Z; eh_inbox : list reception; eh_answers : list Z; eh_sent : list ((Z * Z) * list Z)
}.
#[export] Instance eta_enet_host : Eta enet_host :=
  settable mkenet_host <eh_incomingBandwidth; eh_outgoingBandwidth; eh_bandwidthThrottleEpoch; eh_mtu; eh_randomSeed;
    eh_recalculate; eh_peers; eh_channelLimit; eh_serviceTime; eh_dispatchQueue; eh_continueSending; eh_packetSize;
    eh_headerFlags; eh_commandCount; eh_buffers; eh_receivedAddress; eh_totalSentData; eh_totalSentPackets;
    eh_totalReceivedData; eh_totalReceivedPackets; eh_connectedPeers; eh_bandwidthLimitedPeers; eh_duplicatePeers;
    eh_intercept; eh_maximumPacketSize; eh_maximumWaitingData; eh_event; eh_nextID; eh_clock; eh_inbox; eh_answers; eh_sent>.

Definition reset_peer (mtu : Z) (p : peer) : peer :=
  p <| pe_outgoingPeerID := ENET_PROTOCOL_MAXIMUM_PEER_ID |> <| pe_connectID := 0 |> <| pe_state := DISCONNECTED |>
    <| pe_incomingBandwidth := 0 |> <| pe_outgoingBandwidth := 0 |> <| pe_incomingBandwidthThrottleEpoch := 0 |>
    <| pe_outgoingBandwidthThrottleEpoch := 0 |> <| pe_incomingDataTotal := 0 |> <| pe_outgoingDataTotal := 0 |>
    <| pe_lastSendTime := 0 |> <| pe_lastReceiveTime := 0 |> <| pe_nextTimeout := 0 |> <| pe_earliestTimeout := 0 |>
    <| pe_packetLossEpoch := 0 |> <| pe_packetsSent := 0 |> <| pe_packetsLost := 0 |> <| pe_packetLoss := 0 |>
    <| pe_packetLossVariance := 0 |> <| pe_packetThrottle := ENET_PEER_DEFAULT_PACKET_THROTTLE |>
    <| pe_packetThrottleLimit := ENET_PEER_PACKET_THROTTLE_SCALE |> <| pe_packetThrottleCounter := 0 |>
    <| pe_packetThrottleEpoch := 0 |> <| pe_packetThrottleAcceleration := ENET_PEER_PACKET_THROTTLE_ACCELERATION |>
    <| pe_packetThrottleDeceleration := ENET_PEER_PACKET_THROTTLE_DECELERATION |>
    <| pe_packetThrottleInterval := ENET_PEER_PACKET_THROTTLE_INTERVAL |> <| pe_pingInterval := ENET_PEER_PING_INTERVAL |>
    <| pe_timeoutLimit := ENET_PEER_TIMEOUT_LIMIT |> <| pe_timeoutMinimum := ENET_PEER_TIMEOUT_MINIMUM |>
    <| pe_timeoutMaximum := ENET_PEER_TIMEOUT_MAXIMUM |> <| pe_lastRoundTripTime := ENET_PEER_DEFAULT_ROUND_TRIP_TIME |>
    <| pe_lowestRoundTripTime := ENET_PEER_DEFAULT_ROUND_TRIP_TIME |> <| pe_lastRoundTripTimeVariance := 0 |>
    <| pe_highestRoundTripTimeVariance := 0 |> <| pe_roundTripTime := ENET_PEER_DEFAULT_ROUND_TRIP_TIME |>
    <| pe_roundTripTimeVariance := 0 |> <| pe_mtu := mtu |> <| pe_reliableDataInTransit := 0 |>
    <| pe_outgoingReliable := 0 |> <| pe_windowSize := ENET_PROTOCOL_MAXIMUM_WINDOW_SIZE |>
    <| pe_incomingUnsequencedGroup := 0 |> <| pe_outgoingUnsequencedGroup := 0 |> <| pe_eventData := 0 |>
    <| pe_totalWaitingData := 0 |> <| pe_unsequencedWindow := ∅ |>.

(** * Reading and writing the peers of a host *)

Definition no_peer : peer :=
  mkpeer 0 0 0 0xFF 0xFF (0, 0) DISCONNECTED [] 0 0 0 0 0 0 0 0 0 0 0 0 0 0 0 0 0 0 0 0 0 0 0 0 0 0 0 0 0 0 0 0 0 0 0 0 0
    [] [] [] [] [] false 0 0 ∅ 0 0.
Definition peer_of (h : enet_host) (i : Z) : peer := default no_peer (eh_peers h .! i).
Definition the_peer (i : Z) : M enet_host peer := gets (fun h => peer_of h i).
Definition on_peer (i : Z) (f : peer -> peer) : M enet_host unit := modify (fun h => h <| eh_peers ::= zalter f i |>).
Lemma peer_of_on_peer i f h :
  0 <= i < zlength (eh_peers h) -> peer_of (exec (on_peer i f) h) i = f (peer_of h i).
Proof. intros [p Hp]%zlookup_is_Some. unfold peer_of. cbn. by rw zlookup_zalter_eq Hp. Qed.
Definition channel_of (p : peer) (id : Z) : channel := default empty_channel (pe_channels p .! id).
Definition on_channel (id : Z) (f : channel -> channel) (p : peer) : peer := p <| pe_channels ::= zalter f id |>.

(** * The throttle *)

Definition enet_peer_throttle (rtt : Z) (p : peer) : peer :=
  if pe_lastRoundTripTime p <=? pe_lastRoundTripTimeVariance p then
    p <| pe_packetThrottle := pe_packetThrottleLimit p |>
  else if rtt <=? pe_lastRoundTripTime p then
    let t := u32 (pe_packetThrottle p + pe_packetThrottleAcceleration p) in
    p <| pe_packetThrottle := if t >? pe_packetThrottleLimit p then pe_packetThrottleLimit p else t |>
  else if rtt >? u32 (pe_lastRoundTripTime p + 2 * pe_lastRoundTripTimeVariance p) then
    p <| pe_packetThrottle ::= fun t =>
      if t >? pe_packetThrottleDeceleration p then t - pe_packetThrottleDeceleration p else 0 |>
  else p.
(** What it returns. *)
Definition throttle_answer (rtt : Z) (p : peer) : Z :=
  if pe_lastRoundTripTime p <=? pe_lastRoundTripTimeVariance p then 0
  else if rtt <=? pe_lastRoundTripTime p then 1
  else if rtt >? u32 (pe_lastRoundTripTime p + 2 * pe_lastRoundTripTimeVariance p) then -1 else 0.

(** * Queues of a peer *)

Definition needs_dispatch (i : Z) : M enet_host unit :=
  p <- the_peer i ;;
  when (negb (pe_needsDispatch p))
    (modify (fun h => h <| eh_dispatchQueue ::= fun q => q ++ [i] |>) ;;
     on_peer i (fun p => p <| pe_needsDispatch := true |>)).

Definition enet_peer_reset_queues (i : Z) : M enet_host unit :=
  p <- the_peer i ;;
  when (pe_needsDispatch p)
    (modify (fun h => h <| eh_dispatchQueue ::= filter (.≠ i) |>) ;;
     on_peer i (fun p => p <| pe_needsDispatch := false |>)) ;;
  on_peer i (fun p => p <| pe_acknowledgements := [] |> <| pe_sentReliable := [] |> <| pe_sentUnreliable := [] |>
    <| pe_outgoing := [] |> <| pe_dispatched := [] |> <| pe_channels := [] |> <| pe_channelCount := 0 |>).

Definition is_connected (s : ENetPeerState) : bool :=
  match s with CONNECTED | DISCONNECT_LATER => true | _ => false end.
(** The counters of peers are of type [size_t]. *)
Definition size_t (n : Z) : Z := n mod 2 ^ 64.
Definition enet_peer_on_connect (i : Z) : M enet_host unit :=
  p <- the_peer i ;;
  when (negb (is_connected (pe_state p)))
    (when (negb (pe_incomingBandwidth p =? 0)) (modify (fun h => h <| eh_bandwidthLimitedPeers ::= fun n => size_t (n + 1) |>)) ;;
     modify (fun h => h <| eh_connectedPeers ::= fun n => size_t (n + 1) |>)).
Definition enet_peer_on_disconnect (i : Z) : M enet_host unit :=
  p <- the_peer i ;;
  when (is_connected (pe_state p))
    (when (negb (pe_incomingBandwidth p =? 0)) (modify (fun h => h <| eh_bandwidthLimitedPeers ::= fun n => size_t (n - 1) |>)) ;;
     modify (fun h => h <| eh_connectedPeers ::= fun n => size_t (n - 1) |>)).
(** [reset_queues] looks at [flags], which are cleared before it runs: a peer that waits to be dispatched stays in
    the queue of the host. *)
Definition enet_peer_reset (i : Z) : M enet_host unit :=
  enet_peer_on_disconnect i ;;
  mtu <- gets eh_mtu ;;
  on_peer i (reset_peer mtu) ;;
  on_peer i (fun p => p <| pe_needsDispatch := false |>) ;;
  enet_peer_reset_queues i.

(** * Sending *)

(** The fields [setup] fills in the command for the wire. *)
Definition numbered (u group : Z) (b : command_body) : command_body :=
  match b with
  | SendUnreliable _ n => SendUnreliable u n
  | SendUnsequenced _ n => SendUnsequenced group n
  | b => b
  end.
Definition enet_peer_setup_outgoing_command (o : outgoing) (p : peer) : peer :=
  let c := out_command o in let id := h_channelID c in
  let p := p <| pe_outgoingDataTotal ::= fun n =>
    u32 (n + (enet_protocol_command_size (h_command c) + out_fragmentLength o)) |> in
  let '(r, u, p) :=
    if id =? 0xFF then
      let p := p <| pe_outgoingReliable ::= fun n => u16 (n + 1) |> in (pe_outgoingReliable p, 0, p)
    else if acknowledged c then
      let p := on_channel id (fun ch => ch <| ch_outgoingReliable ::= fun n => u16 (n + 1) |>
        <| ch_outgoingUnreliable := 0 |>) p in
      (ch_outgoingReliable (channel_of p id), 0, p)
    else if unsequenced c then (0, 0, p <| pe_outgoingUnsequencedGroup ::= fun n => u16 (n + 1) |>)
    else
      let p := if out_fragmentOffset o =? 0
               then on_channel id (fun ch => ch <| ch_outgoingUnreliable ::= fun n => u16 (n + 1) |>) p else p in
      (ch_outgoingReliable (channel_of p id), ch_outgoingUnreliable (channel_of p id), p) in
  let o := o <| out_reliable := r |> <| out_unreliable := u |> <| out_sendAttempts := 0 |> <| out_sentTime := 0 |>
    <| out_roundTripTimeout := 0 |> <| out_roundTripTimeoutLimit := 0 |>
    <| out_command := mkprotocol (h_command c) id r (numbered u (pe_outgoingUnsequencedGroup p) (p_body c)) |> in
  p <| pe_outgoing ::= fun q => q ++ [o] |>.
(** [length] is a number of two bytes. *)
Definition enet_peer_queue_outgoing_command (c : protocol) (pk : option packet) (offset length : Z) : peer -> peer :=
  enet_peer_setup_outgoing_command (mkoutgoing 0 0 0 0 0 offset (u16 length) 0 c pk).

Definition enet_peer_throttle_configure (interval acceleration deceleration : Z) (p : peer) : peer :=
  enet_peer_queue_outgoing_command
    (mkprotocol (Z.lor COMMAND_THROTTLE_CONFIGURE FLAG_ACKNOWLEDGE) 0xFF 0 (ThrottleConfigure interval acceleration deceleration))
    None 0 0
    (p <| pe_packetThrottleInterval := interval |> <| pe_packetThrottleAcceleration := acceleration |>
       <| pe_packetThrottleDeceleration := deceleration |>).

(** The fragments of a packet: each has [step] bytes, the last one what is left. *)
Fixpoint fragment_list (fuel : nat) (number offset step total : Z) : list (Z * Z * Z) :=
  match fuel with
  | O => []
  | S fuel =>
    if offset <? total then
      let step := if total - offset <? step then total - offset else step in
      (number, offset, step) :: fragment_list fuel (number + 1) (offset + step) step total
    else []
  end.
Definition fragments_of (step total : Z) : list (Z * Z * Z) :=
  fragment_list (Z.to_nat ((total + step - 1) / step)) 0 0 step total.
(** [true] for an answer of 0, [false] for -1. *)
Definition enet_peer_send (maximumPacketSize : Z) (channelID : Z) (pk : packet) (p : peer) : bool * peer :=
  let ch := channel_of p channelID in
  if negb (bool_decide (pe_state p = CONNECTED)) || (pe_channelCount p <=? channelID) || (pk_length pk >? maximumPacketSize)
  then (false, p) else
  let fragmentLength := pe_mtu p - 4 - 24 in
  if pk_length pk >? fragmentLength then
    let fragmentCount := u32 ((pk_length pk + fragmentLength - 1) / fragmentLength) in
    if fragmentCount >? ENET_PROTOCOL_MAXIMUM_FRAGMENT_COUNT then (false, p) else
    let unreliably := (Z.land (pk_flags pk) (Z.lor ENET_PACKET_FLAG_RELIABLE ENET_PACKET_FLAG_UNRELIABLE_FRAGMENT)
                       =? ENET_PACKET_FLAG_UNRELIABLE_FRAGMENT) && (ch_outgoingUnreliable ch <? 0xFFFF) in
    let start := u16 ((if unreliably then ch_outgoingUnreliable ch else ch_outgoingReliable ch) + 1) in
    let fragment '(number, offset, step) := mkoutgoing 0 0 0 0 0 offset (u16 step) 0
      (let f := mkfragment start (u16 step) fragmentCount number (pk_length pk) offset in
       if unreliably then mkprotocol COMMAND_SEND_UNRELIABLE_FRAGMENT channelID 0 (SendUnreliableFragment f)
       else mkprotocol (Z.lor COMMAND_SEND_FRAGMENT FLAG_ACKNOWLEDGE) channelID 0 (SendFragment f)) (Some pk) in
    (true, fold_left (fun p o => enet_peer_setup_outgoing_command o p)
             (map fragment (fragments_of fragmentLength (pk_length pk))) p)
  else
    let c :=
      if Z.land (pk_flags pk) (Z.lor ENET_PACKET_FLAG_RELIABLE ENET_PACKET_FLAG_UNSEQUENCED) =? ENET_PACKET_FLAG_UNSEQUENCED
      then mkprotocol (Z.lor COMMAND_SEND_UNSEQUENCED FLAG_UNSEQUENCED) channelID 0 (SendUnsequenced 0 (pk_length pk))
      else if Z.testbit (pk_flags pk) 0 || (ch_outgoingUnreliable ch >=? 0xFFFF)
      then mkprotocol (Z.lor COMMAND_SEND_RELIABLE FLAG_ACKNOWLEDGE) channelID 0 (SendReliable (pk_length pk))
      else mkprotocol COMMAND_SEND_UNRELIABLE channelID 0 (SendUnreliable 0 (pk_length pk)) in
    (true, enet_peer_queue_outgoing_command c (Some pk) 0 (pk_length pk) p).

Definition enet_peer_ping (p : peer) : peer :=
  if bool_decide (pe_state p = CONNECTED) then
    enet_peer_queue_outgoing_command (mkprotocol (Z.lor COMMAND_PING FLAG_ACKNOWLEDGE) 0xFF 0 Ping) None 0 0 p
  else p.
Definition enet_peer_ping_interval (n : Z) (p : peer) : peer :=
  p <| pe_pingInterval := if n =? 0 then ENET_PEER_PING_INTERVAL else n |>.
Definition enet_peer_timeout (limit minimum maximum : Z) (p : peer) : peer :=
  p <| pe_timeoutLimit := if limit =? 0 then ENET_PEER_TIMEOUT_LIMIT else limit |>
    <| pe_timeoutMinimum := if minimum =? 0 then ENET_PEER_TIMEOUT_MINIMUM else minimum |>
    <| pe_timeoutMaximum := if maximum =? 0 then ENET_PEER_TIMEOUT_MAXIMUM else maximum |>.

(** The window of a number, taken to be ahead of [now]. *)
Definition window_ahead (n now : Z) : Z :=
  n / ENET_PEER_RELIABLE_WINDOW_SIZE + (if n <? now then ENET_PEER_RELIABLE_WINDOWS else 0).
Definition current_window (now : Z) : Z := now / ENET_PEER_RELIABLE_WINDOW_SIZE.
Definition enet_peer_queue_acknowledgement (c : protocol) (sentTime : Z) (p : peer) : peer :=
  let now := ch_incomingReliable (channel_of p (h_channelID c)) in
  let w := window_ahead (h_reliableSequenceNumber c) now in
  if (h_channelID c <? pe_channelCount p) &&
     ((current_window now + ENET_PEER_FREE_RELIABLE_WINDOWS - 1 <=? w) && (w <=? current_window now + ENET_PEER_FREE_RELIABLE_WINDOWS))
  then p
  else p <| pe_outgoingDataTotal ::= fun n => u32 (n + 8) |>
         <| pe_acknowledgements ::= fun q => q ++ [mkacknowledgement sentTime c] |>.

(** * Receiving *)

(** The packets of a peer in the order in which they are given to the program; the number of the channel is that
    of the command that brought it. *)
Definition enet_peer_receive (i : Z) : M enet_host (option (Z * packet)) :=
  p <- the_peer i ;;
  match pe_dispatched p with
  | [] => ret None
  | c :: rest =>
    on_peer i (fun p => p <| pe_dispatched := rest |>
      <| pe_totalWaitingData ::= fun n => size_t (n - pk_length (in_packet c)) |>) ;;
    ret (Some (h_channelID (in_command c), in_packet c))
  end.

(** ** Handing over the reliable commands *)

(** From the front of the queue, as long as the next number is complete: the last number handed over, the commands
    handed over, and the others. *)
Fixpoint reliable_run (n : Z) (l : list incoming) : Z * list incoming * list incoming :=
  match l with
  | [] => (n, [], [])
  | c :: rest =>
    if (0 <? in_fragmentsRemaining c) || negb (in_reliable c =? u16 (n + 1)) then (n, [], l)
    else
      let n := if 0 <? in_fragmentCount c then u16 (in_reliable c + (in_fragmentCount c - 1)) else in_reliable c in
      let '(n, run, rest) := reliable_run n rest in (n, c :: run, rest)
  end.

(** ** Handing over the unreliable commands *)

(** Whether a command with the number [r] waits for reliable ones to come, when [n] was the last of them. *)
Definition waits_for (r n : Z) : bool :=
  (current_window n <=? window_ahead r n) && (window_ahead r n <? current_window n + ENET_PEER_FREE_RELIABLE_WINDOWS - 1).
(** The loop over the queue: [kept] are the commands before the next one to be handed over, in reverse, [pending]
    those to be handed over with the next incomplete one or the end; [dropped] is how many of the commands that
    stay lie before the iterator [droppedCommand]; [u] is the last unreliable number.  The answer: the commands
    that stay, how many of them lie before [droppedCommand], the commands handed over and the number. *)
Fixpoint unreliable_run (n u : Z) (l kept pending : list incoming) (dropped : nat) (moved : list incoming)
    : list incoming * nat * list incoming * Z :=
  let finish := match pending with
    | [] => (rev kept ++ l, dropped, moved, u)
    | _ => (rev kept ++ l, length kept, moved ++ pending, u)
    end in
  match l with
  | [] => finish
  | c :: rest =>
    if command_number (in_command c) =? COMMAND_SEND_UNSEQUENCED then
      unreliable_run n u rest kept (pending ++ [c]) dropped moved
    else if in_reliable c =? n then
      if in_fragmentsRemaining c <=? 0 then unreliable_run n (in_unreliable c) rest kept (pending ++ [c]) dropped moved
      else
        let dropped := match pending with
          | [] => if Nat.eqb dropped (length kept) then dropped else (length kept - 1)%nat
          | _ => length kept
          end in
        unreliable_run n u rest (c :: kept) [] dropped (moved ++ pending)
    else if waits_for (in_reliable c) n then finish
    else unreliable_run n u rest (c :: kept) [] (S (length kept)) (moved ++ pending)
  end.
(** [exclude] is the number of [excludeCommand].  The data of a removed packet stays in [totalWaitingData]. *)
Definition enet_peer_remove_incoming_commands (count : nat) (exclude : option Z) (l : list incoming) : list incoming :=
  filter (fun c => Some (in_id c) = exclude) (take count l) ++ drop count l.

Definition hand_over (i : Z) (l : list incoming) : M enet_host unit :=
  match l with
  | [] => ret tt
  | _ => on_peer i (fun p => p <| pe_dispatched ::= fun q => q ++ l |>) ;; needs_dispatch i
  end.
Definition enet_peer_dispatch_incoming_unreliable_commands (i id : Z) (queued : option Z) : M enet_host unit :=
  p <- the_peer i ;;
  let ch := channel_of p id in
  let '(l, dropped, moved, u) :=
    unreliable_run (ch_incomingReliable ch) (ch_incomingUnreliable ch) (ch_unreliableCommands ch) [] [] 0 [] in
  on_peer i (on_channel id (fun ch => ch <| ch_incomingUnreliable := u |> <| ch_unreliableCommands := l |>)) ;;
  hand_over i moved ;;
  on_peer i (on_channel id (fun ch => ch <| ch_unreliableCommands ::= enet_peer_remove_incoming_commands dropped queued |>)).
Definition enet_peer_dispatch_incoming_reliable_commands (i id : Z) (queued : option Z) : M enet_host unit :=
  p <- the_peer i ;;
  let ch := channel_of p id in
  let '(n, run, rest) := reliable_run (ch_incomingReliable ch) (ch_reliableCommands ch) in
  match run with
  | [] => ret tt
  | _ =>
    on_peer i (on_channel id (fun ch => ch <| ch_incomingReliable := n |> <| ch_incomingUnreliable := 0 |>
      <| ch_reliableCommands := rest |>)) ;;
    hand_over i run ;;
    when (match ch_unreliableCommands ch with [] => false | _ => true end)
      (enet_peer_dispatch_incoming_unreliable_commands i id queued)
  end.

(** ** The place of a command in its queue *)

(** What the search, which goes backwards, does at a command. *)
Inductive verdict := Skip | Before | Same.
(** The place of the command: after the first part, or one that has its number. *)
Inductive place := Place (before after : list incoming) | Taken (c : incoming).
Fixpoint search_back (v : incoming -> verdict) (reversed after : list incoming) : place :=
  match reversed with
  | [] => Place [] after
  | c :: l =>
    match v c with
    | Skip => search_back v l (c :: after)
    | Before => Place (rev reversed) after
    | Same => Taken c
    end
  end.
Definition place_of (v : incoming -> verdict) (l : list incoming) : place := search_back v (rev l) [].
(** [r]: the number looked for; [n]: the last reliable one handed over. *)
Definition reliable_verdict (n r : Z) (c : incoming) : verdict :=
  let compare := if in_reliable c <=? r then (if in_reliable c <? r then Before else Same) else Skip in
  if n <=? r then (if in_reliable c <? n then Skip else compare)
  else if n <=? in_reliable c then Before else compare.
Definition unreliable_verdict (n r u : Z) (c : incoming) : verdict :=
  let compare :=
    if in_reliable c <? r then Before else if in_reliable c >? r then Skip
    else if in_unreliable c <=? u then (if in_unreliable c <? u then Before else Same) else Skip in
  if n <=? r then (if in_reliable c <? n then Skip else compare)
  else if n <=? in_reliable c then Before else compare.
(** The field at the place of [unreliableSequenceNumber]. *)
Definition unreliable_number (b : command_body) : Z :=
  match b with
  | SendUnreliable u _ => u
  | SendUnreliableFragment f | SendFragment f => f_startSequenceNumber f
  | SendReliable n => n
  | _ => 0
  end.
Definition is_reliable_command (number : Z) : bool := (number =? COMMAND_SEND_FRAGMENT) || (number =? COMMAND_SEND_RELIABLE).
Definition is_unreliable_command (number : Z) : bool :=
  (number =? COMMAND_SEND_UNRELIABLE) || (number =? COMMAND_SEND_UNRELIABLE_FRAGMENT).
(** Where a command goes in the queue of its kind; [None]: it is discarded. *)
Definition queue_place (ch : channel) (c : protocol) : option (list incoming * list incoming) :=
  let n := ch_incomingReliable ch in let r := h_reliableSequenceNumber c in
  let of_place x := match x with Place before after => Some (before, after) | Taken _ => None end in
  if negb (command_number c =? COMMAND_SEND_UNSEQUENCED) && negb (waits_for r n) then None
  else if is_reliable_command (command_number c) then
    if r =? n then None else of_place (place_of (reliable_verdict n r) (ch_reliableCommands ch))
  else if is_unreliable_command (command_number c) then
    let u := unreliable_number (p_body c) in
    if (r =? n) && (u <=? ch_incomingUnreliable ch) then None
    else of_place (place_of (unreliable_verdict n r u) (ch_unreliableCommands ch))
  else if command_number c =? COMMAND_SEND_UNSEQUENCED then Some ([], ch_unreliableCommands ch)
  else None.

(** What [enet_peer_queue_incoming_command] returns: nothing, the dummy, or the command in the queue. *)
Inductive queued := NotQueued | Dummy | Queued (id : Z).

(** [data] is [None] for the packet of a fragment, whose bytes are [junk] at first. *)
Definition enet_peer_queue_incoming_command (junk i : Z) (c : protocol) (data : option (list Z))
    (dataLength flags fragmentCount : Z) : M enet_host queued :=
  p <- the_peer i ;;
  h <- gets id ;;
  let id := h_channelID c in let ch := channel_of p id in
  let discarded := ret (if 0 <? fragmentCount then NotQueued else Dummy) in
  if bool_decide (pe_state p = DISCONNECT_LATER) then discarded else
  match queue_place ch c with
  | None => discarded
  | Some (before, after) =>
    if eh_maximumWaitingData h <=? pe_totalWaitingData p then ret NotQueued else
    if fragmentCount >? ENET_PROTOCOL_MAXIMUM_FRAGMENT_COUNT then ret NotQueued else
    let u := if is_unreliable_command (command_number c) then unreliable_number (p_body c) else 0 in
    let packet := enet_packet_create junk data dataLength flags in
    let command := mkincoming (eh_nextID h) (h_reliableSequenceNumber c) (u16 u) c fragmentCount fragmentCount ∅ packet in
    modify (fun h => h <| eh_nextID ::= Z.succ |>) ;;
    on_peer i (fun p => p <| pe_totalWaitingData ::= fun n => size_t (n + pk_length packet) |>) ;;
    (if is_reliable_command (command_number c) then
      on_peer i (on_channel id (fun ch => ch <| ch_reliableCommands := before ++ command :: after |>)) ;;
      enet_peer_dispatch_incoming_reliable_commands i id (Some (in_id command))
    else
      on_peer i (on_channel id (fun ch => ch <| ch_unreliableCommands := before ++ command :: after |>)) ;;
      enet_peer_dispatch_incoming_unreliable_commands i id (Some (in_id command))) ;;
    ret (Queued (in_id command))
  end.
