(* ===== verification/Protocol.v ===== *)
(** ENet: the protocol (enet/protocol.c, enet/host.c).

    What the host does with the commands of a datagram, what it sends to its peers, and the loop of
    [enet_host_service] with a timeout of zero, the only one the server uses.  The server installs neither a
    checksum nor a compressor; its callback for datagrams, [check_net_bans], takes no event.  [ev] says whether the
    caller gave an event structure. *)
From S2P Require Import Prelude Enet Peer.

#[local] Open Scope list_scope.

Definition no_event (e : event) : bool := match e with NoEvent => true | _ => false end.
Definition on_host (f : enet_host -> enet_host) : M enet_host unit := modify f.
Definition the_state (i : Z) : M enet_host ENetPeerState := gets (fun h => pe_state (peer_of h i)).

(** * States and events *)

Definition enet_protocol_change_state (i : Z) (s : ENetPeerState) : M enet_host unit :=
  (if is_connected s then enet_peer_on_connect i else enet_peer_on_disconnect i) ;;
  on_peer i (fun p => p <| pe_state := s |>).
Definition enet_protocol_dispatch_state (i : Z) (s : ENetPeerState) : M enet_host unit :=
  enet_protocol_change_state i s ;; needs_dispatch i.

(** One turn of the loop, for the peer at the front of the queue: [true] when there is an event. *)
Definition dispatch_peer (i : Z) : M enet_host bool :=
  on_host (fun h => h <| eh_dispatchQueue ::= tail |>) ;;
  on_peer i (fun p => p <| pe_needsDispatch := false |>) ;;
  p <- the_peer i ;;
  match pe_state p with
  | CONNECTION_PENDING | CONNECTION_SUCCEEDED =>
    enet_protocol_change_state i CONNECTED ;;
    on_host (fun h => h <| eh_event := EventConnect i (pe_eventData p) |>) ;;
    ret true
  | ZOMBIE =>
    on_host (fun h => h <| eh_recalculate := true |> <| eh_event := EventDisconnect i (pe_eventData p) |>) ;;
    enet_peer_reset i ;;
    ret true
  | CONNECTED =>
    r <- enet_peer_receive i ;;
    match r with
    | None => ret false
    | Some (channelID, packet) =>
      on_host (fun h => h <| eh_event := EventReceive i channelID packet |>) ;;
      p <- the_peer i ;;
      match pe_dispatched p with
      | [] => ret tt
      | _ => on_peer i (fun p => p <| pe_needsDispatch := true |>) ;;
             on_host (fun h => h <| eh_dispatchQueue ::= fun q => q ++ [i] |>)
      end ;;
      ret true
    end
  | _ => ret false
  end.
(** Every turn takes a peer from the queue, and the loop ends when one is put back. *)
Fixpoint dispatch_loop (fuel : nat) : M enet_host bool :=
  match fuel with
  | O => ret false
  | S fuel =>
    q <- gets eh_dispatchQueue ;;
    match q with
    | [] => ret false
    | i :: _ => e <- dispatch_peer i ;; if e then ret true else dispatch_loop fuel
    end
  end.
Definition enet_protocol_dispatch_incoming_commands : M enet_host bool :=
  q <- gets eh_dispatchQueue ;; dispatch_loop (length q).

Definition enet_protocol_notify_connect (ev : bool) (i : Z) : M enet_host unit :=
  on_host (fun h => h <| eh_recalculate := true |>) ;;
  if ev then
    enet_protocol_change_state i CONNECTED ;;
    p <- the_peer i ;;
    on_host (fun h => h <| eh_event := EventConnect i (pe_eventData p) |>)
  else
    s <- the_state i ;;
    enet_protocol_dispatch_state i (if bool_decide (s = CONNECTING) then CONNECTION_SUCCEEDED else CONNECTION_PENDING).
Definition enet_protocol_notify_disconnect (ev : bool) (i : Z) : M enet_host unit :=
  s <- the_state i ;;
  when (state_number CONNECTION_PENDING <=? state_number s) (on_host (fun h => h <| eh_recalculate := true |>)) ;;
  if negb (bool_decide (s = CONNECTING)) && (state_number s <? state_number CONNECTION_SUCCEEDED) then enet_peer_reset i
  else if ev then
    on_host (fun h => h <| eh_event := EventDisconnect i 0 |>) ;; enet_peer_reset i
  else
    on_peer i (fun p => p <| pe_eventData := 0 |>) ;; enet_protocol_dispatch_state i ZOMBIE.

(** * The commands that were sent *)

(** Takes the first element that [f] accepts out of a list. *)
Fixpoint take_first {A} (f : A -> bool) (l : list A) : option (A * list A) :=
  match l with
  | [] => None
  | x :: l => if f x then Some (x, l) else '(y, l) ← take_first f l; Some (y, x :: l)
  end.
Definition is_command (number channelID : Z) (o : outgoing) : bool :=
  (out_reliable o =? number) && (h_channelID (out_command o) =? channelID).
(** In the queue of what is to be sent, only commands that were sent before; the first reliable one that was not
    ends the search. *)
Fixpoint take_resent (number channelID : Z) (l : list outgoing) : option (outgoing * list outgoing) :=
  match l with
  | [] => None
  | o :: l =>
    if negb (acknowledged (out_command o)) then '(y, l) ← take_resent number channelID l; Some (y, o :: l)
    else if out_sendAttempts o <? 1 then None
    else if is_command number channelID o then Some (o, l)
    else '(y, l) ← take_resent number channelID l; Some (y, o :: l)
  end.
Definition release_window (w : Z) (ch : channel) : channel :=
  let n := default 0 (ch_reliableWindows ch .! w) in
  if n >? 0 then
    let ch := ch <| ch_reliableWindows := zinsert (ch_reliableWindows ch) w (n - 1) |> in
    if n - 1 =? 0 then ch <| ch_usedReliableWindows ::= fun b => Z.ldiff b (Z.shiftl 1 w) |> else ch
  else ch.
(** The kind of the command, and the peer. *)
Definition enet_protocol_remove_sent_reliable_command (number channelID : Z) (p : peer) : Z * peer :=
  let found :=
    match take_first (is_command number channelID) (pe_sentReliable p) with
    | Some (o, l) => Some (o, true, p <| pe_sentReliable := l |>)
    | None => '(o, l) ← take_resent number channelID (pe_outgoing p); Some (o, false, p <| pe_outgoing := l |>)
    end in
  match found with
  | None => (COMMAND_NONE, p)
  | Some (o, wasSent, p) =>
    let p := if channelID <? pe_channelCount p then on_channel channelID (release_window (current_window number)) p else p in
    let p := if wasSent && (match out_packet o with Some _ => true | None => false end)
             then p <| pe_reliableDataInTransit ::= fun n => u32 (n - out_fragmentLength o) |> else p in
    (command_number (out_command o),
     match pe_sentReliable p with
     | [] => p
     | front :: _ => p <| pe_nextTimeout := u32 (out_sentTime front + out_roundTripTimeout front) |>
     end)
  end.

(** * Disconnecting *)

Definition disconnect_command (flag data : Z) : protocol :=
  mkprotocol (Z.lor COMMAND_DISCONNECT flag) 0xFF 0 (Disconnect data).
(** [flush] is [enet_host_flush], which only peers that are not connected need. *)
Definition disconnect_with (flush : M enet_host unit) (i data : Z) : M enet_host unit :=
  p <- the_peer i ;;
  match pe_state p with
  | DISCONNECTING | DISCONNECTED | ACKNOWLEDGING_DISCONNECT | ZOMBIE => ret tt
  | s =>
    enet_peer_reset_queues i ;;
    on_peer i (enet_peer_queue_outgoing_command
      (disconnect_command (if is_connected s then FLAG_ACKNOWLEDGE else FLAG_UNSEQUENCED) data) None 0 0) ;;
    if is_connected s then
      enet_peer_on_disconnect i ;; on_peer i (fun p => p <| pe_state := DISCONNECTING |>)
    else flush ;; enet_peer_reset i
  end.
(** The peer leaves once everything was sent, if it is to leave later. *)
Definition disconnect_when_sent (i : Z) (sent : peer -> bool) : M enet_host unit :=
  p <- the_peer i ;;
  when (bool_decide (pe_state p = DISCONNECT_LATER) && sent p) (disconnect_with (ret tt) i (pe_eventData p)).
Definition is_empty {A} (l : list A) : bool := match l with [] => true | _ => false end.
Definition all_acknowledged (p : peer) : bool := is_empty (pe_outgoing p) && is_empty (pe_sentReliable p).
Definition enet_protocol_remove_sent_unreliable_commands (i : Z) : M enet_host unit :=
  p <- the_peer i ;;
  when (negb (is_empty (pe_sentUnreliable p)))
    (on_peer i (fun p => p <| pe_sentUnreliable := [] |>) ;; disconnect_when_sent i all_acknowledged).

(** * Sending *)

(** What a datagram holds; [ENET_BUFFER_MAXIMUM] counts the buffer of the header. *)
Definition room (h : enet_host) (p : peer) : Z := size_t (pe_mtu p - eh_packetSize h).
Definition commands_full (h : enet_host) : bool := ENET_PROTOCOL_MAXIMUM_PACKET_COMMANDS <=? eh_commandCount h.
Definition buffers_full (spare : Z) (h : enet_host) : bool := ENET_BUFFER_MAXIMUM <=? 1 + zlength (eh_buffers h) + spare.
Definition put_buffer (l : list Z) (h : enet_host) : enet_host :=
  h <| eh_buffers ::= fun b => b ++ [l] |> <| eh_packetSize ::= fun n => n + zlength l |>.
Definition put_command (c : protocol) (h : enet_host) : enet_host :=
  put_buffer (put_protocol c) (h <| eh_commandCount ::= Z.succ |>).

Fixpoint send_acknowledgements (i : Z) (l : list acknowledgement) : M enet_host unit :=
  match l with
  | [] => ret tt
  | a :: l =>
    h <- gets id ;;
    p <- the_peer i ;;
    if commands_full h || buffers_full 0 h || (room h p <? 8) then on_host (fun h => h <| eh_continueSending := true |>)
    else
      let number := h_reliableSequenceNumber (ack_command a) in
      on_host (put_command (mkprotocol COMMAND_ACKNOWLEDGE (h_channelID (ack_command a)) number
        (Acknowledge number (u16 (ack_sentTime a))))) ;;
      when (command_number (ack_command a) =? COMMAND_DISCONNECT) (enet_protocol_dispatch_state i ZOMBIE) ;;
      on_peer i (fun p => p <| pe_acknowledgements := l |>) ;;
      send_acknowledgements i l
  end.
Definition enet_protocol_send_acknowledgements (i : Z) : M enet_host unit :=
  p <- the_peer i ;; send_acknowledgements i (pe_acknowledgements p).

(** The loop over the commands that wait for their acknowledgement: [kept] stay (in reverse), [moved] are to be sent
    again, before the [waiting] ones; [true] when the peer has timed out. *)
Fixpoint timeouts (now : Z) (l kept moved waiting : list outgoing) (p : peer) : bool * peer :=
  let queues := p <| pe_sentReliable := rev kept ++ l |> <| pe_outgoing := moved ++ waiting |> in
  match l with
  | [] => (false, queues)
  | o :: l =>
    if ENET_TIME_DIFFERENCE now (out_sentTime o) <? out_roundTripTimeout o then timeouts now l (o :: kept) moved waiting p
    else
      let earliest := if (pe_earliestTimeout p =? 0) || ENET_TIME_LESS (out_sentTime o) (pe_earliestTimeout p)
                      then out_sentTime o else pe_earliestTimeout p in
      if negb (earliest =? 0) &&
         ((pe_timeoutMaximum p <=? ENET_TIME_DIFFERENCE now earliest) ||
          ((out_roundTripTimeoutLimit o <=? out_roundTripTimeout o) &&
           (pe_timeoutMinimum p <=? ENET_TIME_DIFFERENCE now earliest)))
      then (true, queues <| pe_earliestTimeout := earliest |>)
      else
        let p := p <| pe_earliestTimeout := earliest |> <| pe_packetsLost ::= fun n => u32 (n + 1) |> in
        let p := match out_packet o with
          | Some _ => p <| pe_reliableDataInTransit ::= fun n => u32 (n - out_fragmentLength o) |>
          | None => p
          end in
        let p := match kept, l with
          | [], next :: _ => p <| pe_nextTimeout := u32 (out_sentTime next + out_roundTripTimeout next) |>
          | _, _ => p
          end in
        timeouts now l kept (moved ++ [o <| out_roundTripTimeout ::= fun n => u32 (2 * n) |>]) waiting p
  end.
Definition enet_protocol_check_timeouts (ev : bool) (i : Z) : M enet_host bool :=
  now <- gets eh_serviceTime ;;
  p <- the_peer i ;;
  let '(late, p) := timeouts now (pe_sentReliable p) [] [] (pe_outgoing p) p in
  on_peer i (fun _ => p) ;;
  when late (enet_protocol_notify_disconnect ev i) ;;
  ret late.

(** Whether the window of a command, the first of its window, is still in use. *)
Definition window_blocked (w : Z) (ch : channel) : bool :=
  (ENET_PEER_RELIABLE_WINDOW_SIZE <=? default 0 (ch_reliableWindows ch .! ((w + ENET_PEER_RELIABLE_WINDOWS - 1) mod ENET_PEER_RELIABLE_WINDOWS)))
  || negb (Z.land (ch_usedReliableWindows ch)
             (let ones := Z.shiftl 1 (ENET_PEER_FREE_RELIABLE_WINDOWS + 2) - 1 in
              Z.lor (Z.shiftl ones w) (Z.shiftr ones (ENET_PEER_RELIABLE_WINDOWS - w))) =? 0).
Definition use_window (w : Z) (ch : channel) : channel :=
  ch <| ch_usedReliableWindows ::= fun b => Z.lor b (Z.shiftl 1 w) |>
     <| ch_reliableWindows ::= zalter (fun n => u16 (n + 1)) w |>.
Definition packet_bytes (o : outgoing) : option (list Z) :=
  pk ← out_packet o; Some (take (Z.to_nat (out_fragmentLength o)) (drop (Z.to_nat (out_fragmentOffset o)) (pk_data pk))).

(** The flags of the loop. *)
Record sending := mksending { windowExceeded : bool; windowWrap : bool; canPing : bool }.
(** A reliable command may have to wait for its window, the later ones too. *)
Definition reliable_waits (p : peer) (o : outgoing) (f : sending) : bool * sending :=
  let w := current_window (out_reliable o) in let id := h_channelID (out_command o) in
  let wrap := windowWrap f ||
    ((id <? pe_channelCount p) && (out_sendAttempts o <? 1) && (out_reliable o mod ENET_PEER_RELIABLE_WINDOW_SIZE =? 0) &&
     window_blocked w (channel_of p id)) in
  let f := mksending (windowExceeded f) wrap (canPing f) in
  if (id <? pe_channelCount p) && wrap then (true, f) else
  match out_packet o with
  | Some _ =>
    let windowSize := u32 (pe_packetThrottle p * pe_windowSize p) / ENET_PEER_PACKET_THROTTLE_SCALE in
    let exceeded := windowExceeded f ||
      (u32 (pe_reliableDataInTransit p + out_fragmentLength o) >? Z.max windowSize (pe_mtu p)) in
    (exceeded, mksending exceeded wrap (exceeded && canPing f))
  | None => (false, mksending (windowExceeded f) wrap false)
  end.
(** A reliable command goes to the queue of those that wait for their acknowledgement. *)
Definition send_reliably (now : Z) (o : outgoing) (p : peer) : peer :=
  let id := h_channelID (out_command o) in
  let p := if (id <? pe_channelCount p) && (out_sendAttempts o <? 1)
           then on_channel id (use_window (current_window (out_reliable o))) p else p in
  let o := o <| out_sendAttempts ::= fun n => u16 (n + 1) |> in
  let t := u32 (pe_roundTripTime p + 4 * pe_roundTripTimeVariance p) in
  let o := if out_roundTripTimeout o =? 0
           then o <| out_roundTripTimeout := t |> <| out_roundTripTimeoutLimit := u32 (pe_timeoutLimit p * t) |> else o in
  let p := if is_empty (pe_sentReliable p) then p <| pe_nextTimeout := u32 (now + out_roundTripTimeout o) |> else p in
  p <| pe_sentReliable ::= fun l => l ++ [o <| out_sentTime := now |>] |>
    <| pe_reliableDataInTransit ::= fun n => u32 (n + out_fragmentLength o) |>.
Definition does_not_fit (h : enet_host) (p : peer) (o : outgoing) : bool :=
  let size := enet_protocol_command_size (h_command (out_command o)) in
  commands_full h || buffers_full 1 h || (room h p <? size) ||
  match out_packet o with
  | Some _ => u16 (pe_mtu p - eh_packetSize h) <? u16 (size + out_fragmentLength o)
  | None => false
  end.
(** The loop over the queue: [kept] stay where they are (in reverse); after an unreliable packet that the throttle
    drops, those with its numbers, [dropping], go as well. *)
Fixpoint send_loop (i : Z) (l kept : list outgoing) (dropping : option (Z * Z)) (f : sending) : M enet_host bool :=
  match l with
  | [] => on_peer i (fun p => p <| pe_outgoing := rev kept |>) ;; ret (canPing f)
  | o :: l' =>
    if bool_decide (dropping = Some (out_reliable o, out_unreliable o)) then send_loop i l' kept dropping f else
    h <- gets id ;;
    p <- the_peer i ;;
    let '(waits, f) := if acknowledged (out_command o) then reliable_waits p o f else (false, f) in
    if waits then send_loop i l' (o :: kept) None f else
    if does_not_fit h p o then
      on_host (fun h => h <| eh_continueSending := true |>) ;;
      on_peer i (fun p => p <| pe_outgoing := rev kept ++ l |>) ;; ret (canPing f)
    else
      let counts := match out_packet o with Some _ => out_fragmentOffset o =? 0 | None => false end in
      let counter := (pe_packetThrottleCounter p + ENET_PEER_PACKET_THROTTLE_COUNTER) mod ENET_PEER_PACKET_THROTTLE_SCALE in
      (if acknowledged (out_command o) then
        on_peer i (send_reliably (eh_serviceTime h) o) ;;
        on_host (fun h => h <| eh_headerFlags ::= Z.lor HEADER_FLAG_SENT_TIME |>)
      else when counts (on_peer i (fun p => p <| pe_packetThrottleCounter := counter |>))) ;;
      if negb (acknowledged (out_command o)) && counts && (counter >? pe_packetThrottle p) then
        send_loop i l' kept (Some (out_reliable o, out_unreliable o)) f
      else
        when (negb (acknowledged (out_command o)) && match out_packet o with Some _ => true | None => false end)
          (on_peer i (fun p => p <| pe_sentUnreliable ::= fun s => s ++ [o] |>)) ;;
        on_host (put_command (out_command o)) ;;
        match packet_bytes o with Some b => on_host (put_buffer b) | None => ret tt end ;;
        on_peer i (fun p => p <| pe_packetsSent ::= fun n => u32 (n + 1) |>) ;;
        send_loop i l' kept None f
  end.
Definition enet_protocol_check_outgoing_commands (i : Z) : M enet_host bool :=
  p <- the_peer i ;;
  ping <- send_loop i (pe_outgoing p) [] None (mksending false false true) ;;
  disconnect_when_sent i (fun p => all_acknowledged p && is_empty (pe_sentUnreliable p)) ;;
  ret ping.

Definition count_losses (now : Z) (p : peer) : peer :=
  if pe_packetLossEpoch p =? 0 then p <| pe_packetLossEpoch := now |>
  else if (ENET_PEER_PACKET_LOSS_INTERVAL <=? ENET_TIME_DIFFERENCE now (pe_packetLossEpoch p)) && (0 <? pe_packetsSent p) then
    let loss := u32 (pe_packetsLost p * ENET_PEER_PACKET_LOSS_SCALE) / pe_packetsSent p in
    p <| pe_packetLossVariance := u32 (u32 (pe_packetLossVariance p * 3) + Z.abs (loss - pe_packetLoss p)) / 4 |>
      <| pe_packetLoss := u32 (u32 (pe_packetLoss p * 7) + loss) / 8 |>
      <| pe_packetLossEpoch := now |> <| pe_packetsSent := 0 |> <| pe_packetsLost := 0 |>
  else p.

(** What the system call answers. *)
Definition enet_socket_send (to : Z * Z) (data : list Z) : M enet_host Z :=
  answers <- gets eh_answers ;;
  on_host (fun h => h <| eh_answers ::= tail |> <| eh_sent ::= fun l => l ++ [(to, data)] |>) ;;
  ret (default (zlength data) (head answers)).
Definition enet_time_get : M enet_host Z :=
  h <- gets id ;;
  on_host (fun h => h <| eh_clock ::= tail |>) ;;
  ret (default (eh_serviceTime h) (head (eh_clock h))).

(** How the turn of a peer ends: the loop goes on, or the function returns 1 or -1. *)
Inductive turn := NextPeer | ReturnEvent | ReturnError.
Definition send_datagram (i : Z) : M enet_host turn :=
  h <- gets id ;;
  on_peer i (count_losses (eh_serviceTime h)) ;;
  p <- the_peer i ;;
  let flags := if pe_outgoingPeerID p <? ENET_PROTOCOL_MAXIMUM_PEER_ID
               then u16 (Z.lor (eh_headerFlags h) (Z.shiftl (pe_outgoingSessionID p) HEADER_SESSION_SHIFT))
               else eh_headerFlags h in
  let header := put_be 2 (Z.lor (pe_outgoingPeerID p) flags) ++
    (if Z.testbit (eh_headerFlags h) 15 then put_be 2 (u16 (eh_serviceTime h)) else []) in
  on_host (fun h => h <| eh_headerFlags := flags |>) ;;
  on_peer i (fun p => p <| pe_lastSendTime := eh_serviceTime h |>) ;;
  n <- enet_socket_send (pe_address p) (header ++ concat (eh_buffers h)) ;;
  enet_protocol_remove_sent_unreliable_commands i ;;
  if n <? 0 then ret ReturnError
  else
    on_host (fun h => h <| eh_totalSentData ::= fun t => u32 (t + n) |> <| eh_totalSentPackets ::= fun t => u32 (t + 1) |>) ;;
    ret NextPeer.
(** What is in the queue, and a ping for a peer that has been silent. *)
Definition send_commands (i : Z) : M enet_host turn :=
  p <- the_peer i ;;
  ping <- (if is_empty (pe_outgoing p) then ret true else enet_protocol_check_outgoing_commands i) ;;
  h <- gets id ;;
  p <- the_peer i ;;
  when (ping && is_empty (pe_sentReliable p) &&
        (pe_pingInterval p <=? ENET_TIME_DIFFERENCE (eh_serviceTime h) (pe_lastReceiveTime p)) && (4 <=? room h p))
    (on_peer i enet_peer_ping ;; enet_protocol_check_outgoing_commands i ;; ret tt) ;;
  h <- gets id ;;
  if eh_commandCount h =? 0 then ret NextPeer else send_datagram i.
Definition send_to_peer (ev checkForTimeouts : bool) (i : Z) : M enet_host turn :=
  s <- the_state i ;;
  if bool_decide (s = DISCONNECTED) || bool_decide (s = ZOMBIE) then ret NextPeer else
  on_host (fun h => h <| eh_headerFlags := 0 |> <| eh_commandCount := 0 |> <| eh_buffers := [] |> <| eh_packetSize := 4 |>) ;;
  enet_protocol_send_acknowledgements i ;;
  h <- gets id ;;
  p <- the_peer i ;;
  late <- (if checkForTimeouts && negb (is_empty (pe_sentReliable p)) &&
              ENET_TIME_GREATER_EQUAL (eh_serviceTime h) (pe_nextTimeout p)
           then enet_protocol_check_timeouts ev i else ret false) ;;
  if late : bool then
    e <- gets eh_event ;; ret (if ev && negb (no_event e) then ReturnEvent else NextPeer)
  else
    send_commands i.
Fixpoint send_round (ev checkForTimeouts : bool) (l : list Z) : M enet_host turn :=
  match l with
  | [] => ret NextPeer
  | i :: l =>
    t <- send_to_peer ev checkForTimeouts i ;;
    match t with NextPeer => send_round ev checkForTimeouts l | t => ret t end
  end.
Definition peer_numbers (h : enet_host) : list Z := seqZ 0 (zlength (eh_peers h)).
(** [while (continueSending)], for [fuel] rounds. *)
Fixpoint send_rounds (fuel : nat) (ev checkForTimeouts : bool) : M enet_host turn :=
  match fuel with
  | O => ret NextPeer
  | S fuel =>
    h <- gets id ;;
    if eh_continueSending h then
      on_host (fun h => h <| eh_continueSending := false |>) ;;
      t <- send_round ev checkForTimeouts (peer_numbers h) ;;
      match t with NextPeer => send_rounds fuel ev checkForTimeouts | t => ret t end
    else ret NextPeer
  end.
(** More rounds than one call can need: every round that asks for another sends or drops something, at the price of at
    most one ping (Sending.v). *)
Definition backlog (p : peer) : nat :=
  2 * length (pe_acknowledgements p) + 2 * length (pe_outgoing p) + length (pe_sentReliable p) + 5.
Definition send_fuel (h : enet_host) : nat := S (sum_list_with backlog (eh_peers h)).
Definition enet_protocol_send_outgoing_commands (ev checkForTimeouts : bool) : M enet_host turn :=
  on_host (fun h => h <| eh_continueSending := true |>) ;;
  h <- gets id ;;
  send_rounds (send_fuel h) ev checkForTimeouts.
Definition enet_host_flush : M enet_host unit :=
  now <- enet_time_get ;;
  on_host (fun h => h <| eh_serviceTime := now |>) ;;
  enet_protocol_send_outgoing_commands false false ;;
  ret tt.

Definition enet_peer_disconnect : Z -> Z -> M enet_host unit := disconnect_with enet_host_flush.
Definition enet_peer_disconnect_later (i data : Z) : M enet_host unit :=
  p <- the_peer i ;;
  if is_connected (pe_state p) && negb (all_acknowledged p) then
    on_peer i (fun p => p <| pe_state := DISCONNECT_LATER |> <| pe_eventData := data |>)
  else enet_peer_disconnect i data.
Definition enet_peer_disconnect_now (i data : Z) : M enet_host unit :=
  p <- the_peer i ;;
  match pe_state p with
  | DISCONNECTED => ret tt
  | ZOMBIE | DISCONNECTING => enet_peer_reset i
  | _ =>
    enet_peer_reset_queues i ;;
    on_peer i (enet_peer_queue_outgoing_command (disconnect_command FLAG_UNSEQUENCED data) None 0 0) ;;
    enet_host_flush ;;
    enet_peer_reset i
  end.

(** * Commands from a peer

    A handler answers whether the rest of the datagram is looked at.  [data] are the bytes that follow the command;
    a handler of a packet says how many of them it used. *)

(** ** A connection *)

Definition clamp_mtu (n : Z) : Z :=
  if n <? ENET_PROTOCOL_MINIMUM_MTU then ENET_PROTOCOL_MINIMUM_MTU
  else if n >? ENET_PROTOCOL_MAXIMUM_MTU then ENET_PROTOCOL_MAXIMUM_MTU else n.
Definition clamp_window (n : Z) : Z :=
  if n <? ENET_PROTOCOL_MINIMUM_WINDOW_SIZE then ENET_PROTOCOL_MINIMUM_WINDOW_SIZE
  else if n >? ENET_PROTOCOL_MAXIMUM_WINDOW_SIZE then ENET_PROTOCOL_MAXIMUM_WINDOW_SIZE else n.
Definition scaled_window (bandwidth : Z) : Z :=
  u32 (bandwidth / ENET_PEER_WINDOW_SIZE_SCALE * ENET_PROTOCOL_MINIMUM_WINDOW_SIZE).
(** The window for what is sent, from the bandwidths of the two sides, 0 being no limit. *)
Definition sending_window (ours theirs : Z) : Z :=
  clamp_window (
    if (ours =? 0) && (theirs =? 0) then ENET_PROTOCOL_MAXIMUM_WINDOW_SIZE
    else if (ours =? 0) || (theirs =? 0) then scaled_window (Z.max ours theirs)
    else scaled_window (Z.min ours theirs)).
Definition receiving_window (ours offered : Z) : Z :=
  let w := if ours =? 0 then ENET_PROTOCOL_MAXIMUM_WINDOW_SIZE else scaled_window ours in
  clamp_window (if w >? offered then offered else w).
(** The next number of a session, and the one after it when the peer has it now. *)
Definition next_session (asked current : Z) : Z :=
  let n := Z.land ((if asked =? 0xFF then current else asked) + 1) (Z.shiftr HEADER_SESSION_MASK HEADER_SESSION_SHIFT) in
  if n =? current then Z.land (n + 1) (Z.shiftr HEADER_SESSION_MASK HEADER_SESSION_SHIFT) else n.

(** The first peer that is free, and how many others are of the address [from]; [None] when the connection is there
    already. *)
Fixpoint find_free (from : Z * Z) (connectID : Z) (l : list peer) (i : Z) (free : option Z) (duplicates : Z)
    : option (option Z * Z) :=
  match l with
  | [] => Some (free, duplicates)
  | p :: l =>
    match pe_state p with
    | DISCONNECTED => find_free from connectID l (i + 1) (match free with None => Some i | f => f end) duplicates
    | CONNECTING => find_free from connectID l (i + 1) free duplicates
    | _ =>
      if (pe_address p).1 =? from.1 then
        if ((pe_address p).2 =? from.2) && (pe_connectID p =? connectID) then None
        else find_free from connectID l (i + 1) free (duplicates + 1)
      else find_free from connectID l (i + 1) free duplicates
    end
  end.
Definition enet_protocol_handle_connect (c : connecting) (data : Z) : M enet_host (option Z) :=
  h <- gets id ;;
  if (c_channelCount c <? ENET_PROTOCOL_MINIMUM_CHANNEL_COUNT) || (c_channelCount c >? ENET_PROTOCOL_MAXIMUM_CHANNEL_COUNT)
  then ret None else
  match find_free (eh_receivedAddress h) (c_connectID c) (eh_peers h) 0 None 0 with
  | Some (Some i, duplicates) =>
    if eh_duplicatePeers h <=? duplicates then ret None else
    p <- the_peer i ;;
    let channelCount := if c_channelCount c >? eh_channelLimit h then eh_channelLimit h else c_channelCount c in
    let incomingSessionID := next_session (c_incomingSessionID c) (pe_outgoingSessionID p) in
    let outgoingSessionID := next_session (c_outgoingSessionID c) (pe_incomingSessionID p) in
    let mtu := clamp_mtu (c_mtu c) in
    on_peer i (fun p => p <| pe_channels := replicate (Z.to_nat channelCount) empty_channel |>
      <| pe_channelCount := channelCount |> <| pe_state := ACKNOWLEDGING_CONNECT |> <| pe_connectID := c_connectID c |>
      <| pe_address := eh_receivedAddress h |> <| pe_outgoingPeerID := c_outgoingPeerID c |>
      <| pe_incomingBandwidth := c_incomingBandwidth c |> <| pe_outgoingBandwidth := c_outgoingBandwidth c |>
      <| pe_packetThrottleInterval := c_packetThrottleInterval c |>
      <| pe_packetThrottleAcceleration := c_packetThrottleAcceleration c |>
      <| pe_packetThrottleDeceleration := c_packetThrottleDeceleration c |> <| pe_eventData := data |>
      <| pe_outgoingSessionID := incomingSessionID |> <| pe_incomingSessionID := outgoingSessionID |>
      <| pe_mtu := mtu |> <| pe_windowSize := sending_window (eh_outgoingBandwidth h) (c_incomingBandwidth c) |>) ;;
    on_peer i (enet_peer_queue_outgoing_command
      (mkprotocol (Z.lor COMMAND_VERIFY_CONNECT FLAG_ACKNOWLEDGE) 0xFF 0 (VerifyConnect
        (mkconnecting (pe_incomingPeerID p) incomingSessionID outgoingSessionID mtu
          (receiving_window (eh_incomingBandwidth h) (c_windowSize c)) channelCount (eh_incomingBandwidth h)
          (eh_outgoingBandwidth h) (c_packetThrottleInterval c) (c_packetThrottleAcceleration c)
          (c_packetThrottleDeceleration c) (c_connectID c)))) None 0 0) ;;
    ret (Some i)
  | _ => ret None
  end.

Definition enet_protocol_handle_verify_connect (ev : bool) (i : Z) (c : connecting) : M enet_host bool :=
  p <- the_peer i ;;
  if negb (bool_decide (pe_state p = CONNECTING)) then ret true else
  if (c_channelCount c <? ENET_PROTOCOL_MINIMUM_CHANNEL_COUNT) || (c_channelCount c >? ENET_PROTOCOL_MAXIMUM_CHANNEL_COUNT)
     || negb (c_packetThrottleInterval c =? pe_packetThrottleInterval p)
     || negb (c_packetThrottleAcceleration c =? pe_packetThrottleAcceleration p)
     || negb (c_packetThrottleDeceleration c =? pe_packetThrottleDeceleration p)
     || negb (c_connectID c =? pe_connectID p)
  then
    on_peer i (fun p => p <| pe_eventData := 0 |>) ;; enet_protocol_dispatch_state i ZOMBIE ;; ret false
  else
    on_peer i (fun p => (enet_protocol_remove_sent_reliable_command 1 0xFF p).2) ;;
    on_peer i (fun p =>
      let w := clamp_window (c_windowSize c) in let mtu := clamp_mtu (c_mtu c) in
      p <| pe_channelCount ::= Z.min (c_channelCount c) |> <| pe_outgoingPeerID := c_outgoingPeerID c |>
        <| pe_incomingSessionID := c_incomingSessionID c |> <| pe_outgoingSessionID := c_outgoingSessionID c |>
        <| pe_mtu ::= Z.min mtu |> <| pe_windowSize ::= Z.min w |>
        <| pe_incomingBandwidth := c_incomingBandwidth c |> <| pe_outgoingBandwidth := c_outgoingBandwidth c |>) ;;
    enet_protocol_notify_connect ev i ;;
    ret true.

(** ** Packets *)

Definition may_receive (p : peer) (channelID : Z) : bool := (channelID <? pe_channelCount p) && is_connected (pe_state p).
(** The bytes of a packet of [n] bytes, if the datagram has them all. *)
Definition packet_data (h : enet_host) (n : Z) (data : list Z) : option (list Z) :=
  if (n >? eh_maximumPacketSize h) || (n >? zlength data) then None else Some (take (Z.to_nat n) data).
Definition was_queued (q : queued) : bool := match q with NotQueued => false | _ => true end.
Definition enet_protocol_handle_send_reliable (junk i : Z) (c : protocol) (n : Z) (data : list Z) : M enet_host bool :=
  h <- gets id ;; p <- the_peer i ;;
  if negb (may_receive p (h_channelID c)) then ret false else
  match packet_data h n data with
  | None => ret false
  | Some d => q <- enet_peer_queue_incoming_command junk i c (Some d) n ENET_PACKET_FLAG_RELIABLE 0 ;; ret (was_queued q)
  end.
Definition enet_protocol_handle_send_unreliable (junk i : Z) (c : protocol) (n : Z) (data : list Z) : M enet_host bool :=
  h <- gets id ;; p <- the_peer i ;;
  if negb (may_receive p (h_channelID c)) then ret false else
  match packet_data h n data with
  | None => ret false
  | Some d => q <- enet_peer_queue_incoming_command junk i c (Some d) n 0 0 ;; ret (was_queued q)
  end.
Definition enet_protocol_handle_send_unsequenced (junk i : Z) (c : protocol) (group n : Z) (data : list Z) : M enet_host bool :=
  h <- gets id ;; p <- the_peer i ;;
  if negb (may_receive p (h_channelID c)) then ret false else
  match packet_data h n data with
  | None => ret false
  | Some d =>
    let index := group mod ENET_PEER_UNSEQUENCED_WINDOW_SIZE in
    let ahead := if group <? pe_incomingUnsequencedGroup p then group + 0x10000 else group in
    if pe_incomingUnsequencedGroup p + ENET_PEER_FREE_UNSEQUENCED_WINDOWS * ENET_PEER_UNSEQUENCED_WINDOW_SIZE <=? ahead
    then ret true else
    let first := Z.land ahead 0xFFFF - index in
    let moved := negb (first =? pe_incomingUnsequencedGroup p) in
    if negb moved && bool_decide (index ∈ pe_unsequencedWindow p) then ret true else
    when moved (on_peer i (fun p => p <| pe_incomingUnsequencedGroup := first |> <| pe_unsequencedWindow := ∅ |>)) ;;
    q <- enet_peer_queue_incoming_command junk i c (Some d) n ENET_PACKET_FLAG_UNSEQUENCED 0 ;;
    if was_queued q then on_peer i (fun p => p <| pe_unsequencedWindow ::= fun w => {[index]} ∪ w |>) ;; ret true
    else ret false
  end.

(** ** Fragments *)

Definition overwrite (offset : Z) (d data : list Z) : list Z :=
  take (Z.to_nat offset) data ++ d ++ drop (Z.to_nat offset + length d) data.
(** A fragment that is not there yet is copied to its place. *)
Definition add_fragment (f : fragment) (d : list Z) (c : incoming) : incoming :=
  let d := if f_fragmentOffset f + zlength d >? pk_length (in_packet c)
           then take (Z.to_nat (pk_length (in_packet c) - f_fragmentOffset f)) d else d in
  c <| in_fragmentsRemaining ::= fun n => u32 (n - 1) |> <| in_fragments ::= fun s => {[f_fragmentNumber f]} ∪ s |>
    <| in_packet ::= fun p => p <| pk_data ::= overwrite (f_fragmentOffset f) d |> |>.
Definition command_of (id : Z) (l : list incoming) : option incoming :=
  head (filter (fun c => in_id c = id) l).
Definition on_command (id : Z) (f : incoming -> incoming) : list incoming -> list incoming :=
  map (fun c => if in_id c =? id then f c else c).
Definition bad_fragment (h : enet_host) (f : fragment) : bool :=
  (f_fragmentCount f >? ENET_PROTOCOL_MAXIMUM_FRAGMENT_COUNT) || (f_fragmentCount f <=? f_fragmentNumber f) ||
  (f_totalLength f >? eh_maximumPacketSize h) || (f_totalLength f <=? f_fragmentOffset f) ||
  (f_dataLength f >? f_totalLength f - f_fragmentOffset f).
(** The command that collects the fragments, if it is there: the same kind of command, with as many fragments of a
    packet of the same length. *)
Definition collects (number : Z) (f : fragment) (c : incoming) : bool :=
  (command_number (in_command c) =? number) && (f_totalLength f =? pk_length (in_packet c)) &&
  (f_fragmentCount f =? in_fragmentCount c).
Definition enet_protocol_handle_send_fragment (junk i : Z) (c : protocol) (f : fragment) (data : list Z) : M enet_host bool :=
  h <- gets id ;; p <- the_peer i ;;
  let id := h_channelID c in
  if negb (may_receive p id) then ret false else
  match packet_data h (f_dataLength f) data with
  | None => ret false
  | Some d =>
    let ch := channel_of p id in let n := ch_incomingReliable ch in let r := f_startSequenceNumber f in
    if negb (waits_for r n) then ret true else
    if bad_fragment h f then ret false else
    start <- match place_of (reliable_verdict n r) (ch_reliableCommands ch) with
      | Taken s => ret (if collects COMMAND_SEND_FRAGMENT f s then Queued (in_id s) else NotQueued)
      | Place _ _ =>
        enet_peer_queue_incoming_command junk i (c <| h_reliableSequenceNumber := r |>) None (f_totalLength f)
          ENET_PACKET_FLAG_RELIABLE (f_fragmentCount f)
      end ;;
    match start with
    | Queued k =>
      p <- the_peer i ;;
      match command_of k (ch_reliableCommands (channel_of p id)) with
      | Some s =>
        if bool_decide (f_fragmentNumber f ∈ in_fragments s) then ret true else
        on_peer i (on_channel id (fun ch => ch <| ch_reliableCommands ::= on_command k (add_fragment f d) |>)) ;;
        when (in_fragmentsRemaining (add_fragment f d s) <=? 0) (enet_peer_dispatch_incoming_reliable_commands i id None) ;;
        ret true
      | None => ret false
      end
    | _ => ret false
    end
  end.
Definition enet_protocol_handle_send_unreliable_fragment (junk i : Z) (c : protocol) (f : fragment) (data : list Z)
    : M enet_host bool :=
  h <- gets id ;; p <- the_peer i ;;
  let id := h_channelID c in
  if negb (may_receive p id) then ret false else
  match packet_data h (f_dataLength f) data with
  | None => ret false
  | Some d =>
    let ch := channel_of p id in let n := ch_incomingReliable ch in
    let r := h_reliableSequenceNumber c in let u := f_startSequenceNumber f in
    if negb (waits_for r n) then ret true else
    if (r =? n) && (u <=? ch_incomingUnreliable ch) then ret true else
    if bad_fragment h f then ret false else
    start <- match place_of (unreliable_verdict n r u) (ch_unreliableCommands ch) with
      | Taken s => ret (if collects COMMAND_SEND_UNRELIABLE_FRAGMENT f s then Queued (in_id s) else NotQueued)
      | Place _ _ =>
        enet_peer_queue_incoming_command junk i c None (f_totalLength f) ENET_PACKET_FLAG_UNRELIABLE_FRAGMENT (f_fragmentCount f)
      end ;;
    match start with
    | Queued k =>
      p <- the_peer i ;;
      match command_of k (ch_unreliableCommands (channel_of p id)) with
      | Some s =>
        if bool_decide (f_fragmentNumber f ∈ in_fragments s) then ret true else
        on_peer i (on_channel id (fun ch => ch <| ch_unreliableCommands ::= on_command k (add_fragment f d) |>)) ;;
        when (in_fragmentsRemaining (add_fragment f d s) <=? 0) (enet_peer_dispatch_incoming_unreliable_commands i id None) ;;
        ret true
      | None => ret false
      end
    | _ => ret false
    end
  end.

(** ** The other commands *)

Definition enet_protocol_handle_ping (i : Z) : M enet_host bool := s <- the_state i ;; ret (is_connected s).
Definition enet_protocol_handle_bandwidth_limit (i incoming outgoing : Z) : M enet_host bool :=
  p <- the_peer i ;;
  if negb (is_connected (pe_state p)) then ret false else
  when (negb (pe_incomingBandwidth p =? 0)) (on_host (fun h => h <| eh_bandwidthLimitedPeers ::= fun n => size_t (n - 1) |>)) ;;
  when (negb (incoming =? 0)) (on_host (fun h => h <| eh_bandwidthLimitedPeers ::= fun n => size_t (n + 1) |>)) ;;
  h <- gets id ;;
  on_peer i (fun p => p <| pe_incomingBandwidth := incoming |> <| pe_outgoingBandwidth := outgoing |>
    <| pe_windowSize := sending_window (eh_outgoingBandwidth h) incoming |>) ;;
  ret true.
Definition enet_protocol_handle_throttle_configure (i interval acceleration deceleration : Z) : M enet_host bool :=
  s <- the_state i ;;
  if negb (is_connected s) then ret false else
  on_peer i (fun p => p <| pe_packetThrottleInterval := interval |> <| pe_packetThrottleAcceleration := acceleration |>
    <| pe_packetThrottleDeceleration := deceleration |>) ;;
  ret true.
Definition enet_protocol_handle_disconnect (i : Z) (c : protocol) (data : Z) : M enet_host unit :=
  s <- the_state i ;;
  match s with
  | DISCONNECTED | ZOMBIE | ACKNOWLEDGING_DISCONNECT => ret tt
  | _ =>
    enet_peer_reset_queues i ;;
    match s with
    | CONNECTION_SUCCEEDED | DISCONNECTING | CONNECTING => enet_protocol_dispatch_state i ZOMBIE
    | CONNECTED | DISCONNECT_LATER =>
      if acknowledged c then enet_protocol_change_state i ACKNOWLEDGING_DISCONNECT else enet_protocol_dispatch_state i ZOMBIE
    | _ =>
      when (bool_decide (s = CONNECTION_PENDING)) (on_host (fun h => h <| eh_recalculate := true |>)) ;;
      enet_peer_reset i
    end ;;
    s <- the_state i ;;
    when (negb (bool_decide (s = DISCONNECTED))) (on_peer i (fun p => p <| pe_eventData := data |>))
  end.

(** The round trip times after an answer that took [t]. *)
Definition measure (t : Z) (p : peer) : peer :=
  let p :=
    if pe_lastReceiveTime p >? 0 then
      let p := enet_peer_throttle t p in
      let v := pe_roundTripTimeVariance p - pe_roundTripTimeVariance p / 4 in
      if pe_roundTripTime p <=? t then
        let d := t - pe_roundTripTime p in
        p <| pe_roundTripTimeVariance := u32 (v + d / 4) |> <| pe_roundTripTime ::= fun r => u32 (r + d / 8) |>
      else
        let d := pe_roundTripTime p - t in
        p <| pe_roundTripTimeVariance := u32 (v + d / 4) |> <| pe_roundTripTime ::= fun r => r - d / 8 |>
    else p <| pe_roundTripTime := t |> <| pe_roundTripTimeVariance := u32 (t + 1) / 2 |> in
  p <| pe_lowestRoundTripTime ::= Z.min (pe_roundTripTime p) |>
    <| pe_highestRoundTripTimeVariance ::= Z.max (pe_roundTripTimeVariance p) |>.
Definition throttle_epoch (now : Z) (p : peer) : peer :=
  if (pe_packetThrottleEpoch p =? 0) || (pe_packetThrottleInterval p <=? ENET_TIME_DIFFERENCE now (pe_packetThrottleEpoch p)) then
    p <| pe_lastRoundTripTime := pe_lowestRoundTripTime p |>
      <| pe_lastRoundTripTimeVariance := Z.max (pe_highestRoundTripTimeVariance p) 1 |>
      <| pe_lowestRoundTripTime := pe_roundTripTime p |>
      <| pe_highestRoundTripTimeVariance := pe_roundTripTimeVariance p |>
      <| pe_packetThrottleEpoch := now |>
  else p.
(** The time of which an acknowledgement carries the low 16 bits, near [now]. *)
Definition full_time (now low : Z) : Z :=
  let t := Z.lor low (Z.land now 0xFFFF0000) in
  if Z.land t 0x8000 >? Z.land now 0x8000 then u32 (t - 0x10000) else t.
Definition enet_protocol_handle_acknowledge (ev : bool) (i : Z) (c : protocol) (number sentTime : Z) : M enet_host bool :=
  h <- gets id ;;
  s <- the_state i ;;
  if bool_decide (s = DISCONNECTED) || bool_decide (s = ZOMBIE) then ret true else
  let now := eh_serviceTime h in let sent := full_time now sentTime in
  if ENET_TIME_LESS now sent then ret true else
  on_peer i (fun p =>
    throttle_epoch now (measure (Z.max (ENET_TIME_DIFFERENCE now sent) 1) p)
      <| pe_lastReceiveTime := Z.max now 1 |> <| pe_earliestTimeout := 0 |>) ;;
  p <- the_peer i ;;
  let '(kind, p) := enet_protocol_remove_sent_reliable_command number (h_channelID c) p in
  on_peer i (fun _ => p) ;;
  match s with
  | ACKNOWLEDGING_CONNECT =>
    if kind =? COMMAND_VERIFY_CONNECT then enet_protocol_notify_connect ev i ;; ret true else ret false
  | DISCONNECTING =>
    if kind =? COMMAND_DISCONNECT then enet_protocol_notify_disconnect ev i ;; ret true else ret false
  | _ => disconnect_when_sent i all_acknowledged ;; ret true
  end.

(** * Datagrams *)

(** A command with the bytes that follow it: whether the loop goes on, and how many of them it used. *)
Definition handle_command (junk : Z) (ev : bool) (i : Z) (c : protocol) (data : list Z) : M enet_host (bool * Z) :=
  let plain (m : M enet_host bool) := ok <- m ;; ret (ok, 0) in
  match p_body c with
  | Acknowledge n t => plain (enet_protocol_handle_acknowledge ev i c n t)
  | Connect _ _ => ret (false, 0)
  | VerifyConnect v => plain (enet_protocol_handle_verify_connect ev i v)
  | Disconnect d => plain (enet_protocol_handle_disconnect i c d ;; ret true)
  | Ping => plain (enet_protocol_handle_ping i)
  | SendReliable n => ok <- enet_protocol_handle_send_reliable junk i c n data ;; ret (ok, n)
  | SendUnreliable _ n => ok <- enet_protocol_handle_send_unreliable junk i c n data ;; ret (ok, n)
  | SendUnsequenced g n => ok <- enet_protocol_handle_send_unsequenced junk i c g n data ;; ret (ok, n)
  | SendFragment f => ok <- enet_protocol_handle_send_fragment junk i c f data ;; ret (ok, f_dataLength f)
  | BandwidthLimit n o => plain (enet_protocol_handle_bandwidth_limit i n o)
  | ThrottleConfigure n a d => plain (enet_protocol_handle_throttle_configure i n a d)
  | SendUnreliableFragment f =>
    ok <- enet_protocol_handle_send_unreliable_fragment junk i c f data ;; ret (ok, f_dataLength f)
  end.
(** Whether a command whose sender wants it acknowledged is; [sentTime] is that of the header, if it has one. *)
Definition acknowledge (i : Z) (c : protocol) (sentTime : option Z) : M enet_host bool :=
  if acknowledged c then
    match sentTime with
    | None => ret false
    | Some t =>
      s <- the_state i ;;
      match s with
      | DISCONNECTING | ACKNOWLEDGING_CONNECT | DISCONNECTED | ZOMBIE => ret tt
      | ACKNOWLEDGING_DISCONNECT =>
        when (command_number c =? COMMAND_DISCONNECT) (on_peer i (enet_peer_queue_acknowledgement c t))
      | _ => on_peer i (enet_peer_queue_acknowledgement c t)
      end ;;
      ret true
    end
  else ret true.
(** The loop over the commands of a datagram; the peer is not known before it connects.  A command takes at least
    four bytes. *)
Fixpoint handle_commands (fuel : nat) (junk : Z) (ev : bool) (who : option Z) (sentTime : option Z) (l : list Z)
    : M enet_host unit :=
  match fuel with
  | O => ret tt
  | S fuel =>
    match read_command l with
    | None => ret tt
    | Some (c, size) =>
      let data := drop (Z.to_nat size) l in
      match who, p_body c with
      | None, Connect v d =>
        who <- enet_protocol_handle_connect v d ;;
        match who with
        | Some i =>
          more <- acknowledge i c sentTime ;;
          when more (handle_commands fuel junk ev who sentTime data)
        | None => ret tt
        end
      | None, _ => ret tt
      | Some i, _ =>
        r <- handle_command junk ev i c data ;;
        let '(ok, n) := r in
        if ok then
          more <- acknowledge i c sentTime ;;
          when more (handle_commands fuel junk ev who sentTime (drop (Z.to_nat n) data))
        else ret tt
      end
    end
  end.
(** [None]: no peer yet; [Some None]: the datagram is not for a peer of this host. *)
Definition sender_of (h : enet_host) (peerID sessionID : Z) : option (option Z) :=
  if peerID =? ENET_PROTOCOL_MAXIMUM_PEER_ID then None
  else if zlength (eh_peers h) <=? peerID then Some None
  else
    let p := peer_of h peerID in
    if bool_decide (pe_state p = DISCONNECTED) || bool_decide (pe_state p = ZOMBIE)
       || (negb (bool_decide (eh_receivedAddress h = pe_address p)) && negb ((pe_address p).1 =? 0xFFFFFFFF))
       || ((pe_outgoingPeerID p <? ENET_PROTOCOL_MAXIMUM_PEER_ID) && negb (sessionID =? pe_incomingSessionID p))
    then Some None else Some (Some peerID).
Definition enet_protocol_handle_incoming_commands (junk : Z) (ev : bool) (received : list Z) : M enet_host bool :=
  if zlength received <? 2 then ret false else
  h <- gets id ;;
  let '(first, rest) := field 2 received in
  let sessionID := Z.shiftr (Z.land first HEADER_SESSION_MASK) HEADER_SESSION_SHIFT in
  let peerID := Z.ldiff first (Z.lor HEADER_FLAG_MASK HEADER_SESSION_MASK) in
  let timed := Z.testbit first 15 in
  let sentTime := if timed then Some (field 2 rest).1 else None in
  let commands := if timed then drop 2 rest else rest in
  match sender_of h peerID sessionID with
  | Some None => ret false
  | who =>
    if Z.testbit first 14 then ret false else
    let who := default None who in
    match who with
    | Some i => on_peer i (fun p => p <| pe_address := eh_receivedAddress h |>
        <| pe_incomingDataTotal ::= fun n => u32 (n + zlength received) |>)
    | None => ret tt
    end ;;
    handle_commands (length received) junk ev who sentTime commands ;;
    e <- gets eh_event ;;
    ret (ev && negb (no_event e))
  end.

(** The callback the server installs (engine/server.cpp). *)
Definition check_net_bans (banned : Z -> bool) (from : Z * Z) : Z := if banned from.1 then 1 else 0.
Fixpoint receive_datagrams (packets : nat) (junk : Z) (ev : bool) : M enet_host turn :=
  match packets with
  | O => ret NextPeer
  | S packets =>
    h <- gets id ;;
    match eh_inbox h with
    | [] => ret NextPeer
    | r :: rest =>
      on_host (fun h => h <| eh_inbox := rest |>) ;;
      match r with
      | ReceiveError => ret ReturnError
      | Received from data =>
        if is_empty data then ret NextPeer else
        on_host (fun h => h <| eh_receivedAddress := from |>
          <| eh_totalReceivedData ::= fun n => u32 (n + zlength data) |> <| eh_totalReceivedPackets ::= fun n => u32 (n + 1) |>) ;;
        let handle :=
          e <- enet_protocol_handle_incoming_commands junk ev data ;;
          if e : bool then ret ReturnEvent else receive_datagrams packets junk ev in
        match eh_intercept h with
        | None => handle
        | Some intercept =>
          if intercept from =? 1 then
            if ev && negb (no_event (eh_event h)) then ret ReturnEvent else receive_datagrams packets junk ev
          else if intercept from =? -1 then ret ReturnError
          else handle
        end
      end
    end
  end.
Definition enet_protocol_receive_incoming_commands : Z -> bool -> M enet_host turn := receive_datagrams 256.

(** * Bandwidth (enet/host.c) *)

Definition every_peer (f : peer -> peer) : M enet_host unit := on_host (fun h => h <| eh_peers ::= map f |>).
(** What the loops of [enet_host_bandwidth_throttle] share: how many peers are left, the bandwidth for them and the
    data they sent. *)
Record shares := mkshares { peersRemaining : Z; bandwidth : Z; dataTotal : Z }.
Definition throttle_of (s : shares) : Z :=
  if dataTotal s <=? bandwidth s then ENET_PEER_PACKET_THROTTLE_SCALE
  else u32 (bandwidth s * ENET_PEER_PACKET_THROTTLE_SCALE) / dataTotal s.
Definition limit_throttle (limit : Z) (p : peer) : peer :=
  p <| pe_packetThrottleLimit := limit |> <| pe_packetThrottle ::= Z.min limit |>
    <| pe_incomingDataTotal := 0 |> <| pe_outgoingDataTotal := 0 |>.
(** Peers that cannot take their share are limited to what they can take. *)
Fixpoint adjust_throttles (now elapsed throttle : Z) (l : list peer) (s : shares) (adjusted : bool)
    : list peer * shares * bool :=
  match l with
  | [] => ([], s, adjusted)
  | p :: l =>
    let peerBandwidth := u32 (pe_incomingBandwidth p * elapsed) / 1000 in
    if negb (is_connected (pe_state p)) || (pe_incomingBandwidth p =? 0) || (pe_outgoingBandwidthThrottleEpoch p =? now)
       || (u32 (throttle * pe_outgoingDataTotal p) / ENET_PEER_PACKET_THROTTLE_SCALE <=? peerBandwidth)
    then let '(l, s, adjusted) := adjust_throttles now elapsed throttle l s adjusted in (p :: l, s, adjusted)
    else
      let limit := u32 (peerBandwidth * ENET_PEER_PACKET_THROTTLE_SCALE) / pe_outgoingDataTotal p in
      let p := limit_throttle (if limit =? 0 then 1 else limit) p <| pe_outgoingBandwidthThrottleEpoch := now |> in
      let s := mkshares (u32 (peersRemaining s - 1)) (u32 (bandwidth s - peerBandwidth)) (u32 (dataTotal s - peerBandwidth)) in
      let '(l, s, adjusted) := adjust_throttles now elapsed throttle l s true in (p :: l, s, adjusted)
  end.
Fixpoint adjust_loop (fuel : nat) (now elapsed : Z) (s : shares) : M enet_host shares :=
  match fuel with
  | O => ret s
  | S fuel =>
    if peersRemaining s >? 0 then
      h <- gets id ;;
      let '(l, s, adjusted) := adjust_throttles now elapsed (throttle_of s) (eh_peers h) s false in
      on_host (fun h => h <| eh_peers := l |>) ;;
      if adjusted : bool then adjust_loop fuel now elapsed s else ret s
    else ret s
  end.
(** Peers that send less than their share of the incoming bandwidth leave the rest to the others. *)
Fixpoint adjust_limits (now limit : Z) (l : list peer) (remaining band : Z) (adjusted : bool) : list peer * Z * Z * bool :=
  match l with
  | [] => ([], remaining, band, adjusted)
  | p :: l =>
    if negb (is_connected (pe_state p)) || (pe_incomingBandwidthThrottleEpoch p =? now)
       || ((pe_outgoingBandwidth p >? 0) && (limit <=? pe_outgoingBandwidth p))
    then let '(l, remaining, band, adjusted) := adjust_limits now limit l remaining band adjusted in
         (p :: l, remaining, band, adjusted)
    else
      let '(l, remaining, band, adjusted) :=
        adjust_limits now limit l (u32 (remaining - 1)) (u32 (band - pe_outgoingBandwidth p)) true in
      (p <| pe_incomingBandwidthThrottleEpoch := now |> :: l, remaining, band, adjusted)
  end.
Fixpoint limit_loop (fuel : nat) (now remaining band limit : Z) : M enet_host Z :=
  match fuel with
  | O => ret limit
  | S fuel =>
    if remaining >? 0 then
      h <- gets id ;;
      let limit := band / remaining in
      let '(l, remaining, band, adjusted) := adjust_limits now limit (eh_peers h) remaining band false in
      on_host (fun h => h <| eh_peers := l |>) ;;
      if adjusted : bool then limit_loop fuel now remaining band limit else ret limit
    else ret limit
  end.
Definition send_bandwidth_limit (outgoing now limit : Z) (p : peer) : peer :=
  if is_connected (pe_state p) then
    enet_peer_queue_outgoing_command (mkprotocol (Z.lor COMMAND_BANDWIDTH_LIMIT FLAG_ACKNOWLEDGE) 0xFF 0
      (BandwidthLimit (if pe_incomingBandwidthThrottleEpoch p =? now then pe_outgoingBandwidth p else limit) outgoing))
      None 0 0 p
  else p.
Definition enet_host_bandwidth_throttle : M enet_host unit :=
  now <- enet_time_get ;;
  h <- gets id ;;
  let elapsed := u32 (now - eh_bandwidthThrottleEpoch h) in
  if elapsed <? ENET_HOST_BANDWIDTH_THROTTLE_INTERVAL then ret tt else
  on_host (fun h => h <| eh_bandwidthThrottleEpoch := now |>) ;;
  if u32 (eh_connectedPeers h) =? 0 then ret tt else
  let s :=
    if eh_outgoingBandwidth h =? 0 then mkshares (u32 (eh_connectedPeers h)) (u32 (-1)) (u32 (-1))
    else mkshares (u32 (eh_connectedPeers h)) (u32 (eh_outgoingBandwidth h * elapsed) / 1000)
      (fold_left (fun n p => if is_connected (pe_state p) then u32 (n + pe_outgoingDataTotal p) else n) (eh_peers h) 0) in
  s <- (if eh_bandwidthLimitedPeers h >? 0 then adjust_loop (S (length (eh_peers h))) now elapsed s else ret s) ;;
  when (peersRemaining s >? 0)
    (every_peer (fun p => if negb (is_connected (pe_state p)) || (pe_outgoingBandwidthThrottleEpoch p =? now) then p
                          else limit_throttle (throttle_of s) p)) ;;
  when (eh_recalculate h)
    (on_host (fun h => h <| eh_recalculate := false |>) ;;
     limit <- (if eh_incomingBandwidth h =? 0 then ret 0
               else limit_loop (S (length (eh_peers h))) now (u32 (eh_connectedPeers h)) (eh_incomingBandwidth h) 0) ;;
     every_peer (send_bandwidth_limit (eh_outgoingBandwidth h) now limit)).
Definition enet_host_bandwidth_limit (incoming outgoing : Z) : M enet_host unit :=
  on_host (fun h => h <| eh_incomingBandwidth := incoming |> <| eh_outgoingBandwidth := outgoing |> <| eh_recalculate := true |>).
Definition clamp_channels (n : Z) : Z :=
  if n <? ENET_PROTOCOL_MINIMUM_CHANNEL_COUNT then ENET_PROTOCOL_MINIMUM_CHANNEL_COUNT
  else if n >? ENET_PROTOCOL_MAXIMUM_CHANNEL_COUNT then ENET_PROTOCOL_MAXIMUM_CHANNEL_COUNT else n.
Definition enet_host_channel_limit (n : Z) : M enet_host unit :=
  on_host (fun h => h <| eh_channelLimit := if n =? 0 then ENET_PROTOCOL_MAXIMUM_CHANNEL_COUNT else clamp_channels n |>).

(** * The host *)

(** The socket is opened and bound. *)
Definition enet_host_create (peerCount channelLimit incoming outgoing seed : Z) (clock : list Z) (inbox : list reception) (answers : list Z)
    : option enet_host :=
  if peerCount >? ENET_PROTOCOL_MAXIMUM_PEER_ID then None else
  Some (mkenet_host incoming outgoing 0 ENET_HOST_DEFAULT_MTU seed false
    (map (fun i => reset_peer ENET_HOST_DEFAULT_MTU (no_peer <| pe_incomingPeerID := i |>)) (seqZ 0 peerCount))
    (if (channelLimit =? 0) || (channelLimit >? ENET_PROTOCOL_MAXIMUM_CHANNEL_COUNT) then ENET_PROTOCOL_MAXIMUM_CHANNEL_COUNT
     else if channelLimit <? ENET_PROTOCOL_MINIMUM_CHANNEL_COUNT then ENET_PROTOCOL_MINIMUM_CHANNEL_COUNT else channelLimit)
    0 [] false 0 0 0 [] (0, 0) 0 0 0 0 0 0 ENET_PROTOCOL_MAXIMUM_PEER_ID None ENET_HOST_DEFAULT_MAXIMUM_PACKET_SIZE
    ENET_HOST_DEFAULT_MAXIMUM_WAITING_DATA NoEvent 0 clock inbox answers []).
Fixpoint first_free (l : list peer) (i : Z) : option Z :=
  match l with
  | [] => None
  | p :: l => if bool_decide (pe_state p = DISCONNECTED) then Some i else first_free l (i + 1)
  end.
Definition enet_host_connect (address : Z * Z) (channelCount data : Z) : M enet_host (option Z) :=
  h <- gets id ;;
  match first_free (eh_peers h) 0 with
  | None => ret None
  | Some i =>
    let channelCount := clamp_channels channelCount in
    let connectID := u32 (eh_randomSeed h + 1) in
    on_host (fun h => h <| eh_randomSeed := connectID |>) ;;
    on_peer i (fun p => p <| pe_channels := replicate (Z.to_nat channelCount) empty_channel |>
      <| pe_channelCount := channelCount |> <| pe_state := CONNECTING |> <| pe_address := address |>
      <| pe_connectID := connectID |>
      <| pe_windowSize := clamp_window (if eh_outgoingBandwidth h =? 0 then ENET_PROTOCOL_MAXIMUM_WINDOW_SIZE
                                        else scaled_window (eh_outgoingBandwidth h)) |>) ;;
    p <- the_peer i ;;
    on_peer i (enet_peer_queue_outgoing_command
      (mkprotocol (Z.lor COMMAND_CONNECT FLAG_ACKNOWLEDGE) 0xFF 0 (Connect
        (mkconnecting (pe_incomingPeerID p) (pe_incomingSessionID p) (pe_outgoingSessionID p) (pe_mtu p) (pe_windowSize p)
          channelCount (eh_incomingBandwidth h) (eh_outgoingBandwidth h) (pe_packetThrottleInterval p)
          (pe_packetThrottleAcceleration p) (pe_packetThrottleDeceleration p) connectID) data)) None 0 0) ;;
    ret (Some i)
  end.
Definition enet_host_broadcast (channelID : Z) (pk : packet) : M enet_host unit :=
  h <- gets id ;;
  every_peer (fun p => if bool_decide (pe_state p = CONNECTED) then (enet_peer_send (eh_maximumPacketSize h) channelID pk p).2 else p).
Definition enet_host_check_events : M enet_host bool :=
  on_host (fun h => h <| eh_event := NoEvent |>) ;; enet_protocol_dispatch_incoming_commands.

(** [ENetHost] with a timeout of 0: whether there is an event, or an error.  The last dispatch decides. *)
Definition enet_host_service (junk : Z) (ev : bool) : M enet_host turn :=
  first <- (if ev then enet_host_check_events else ret false) ;;
  if first : bool then ret ReturnEvent else
  now <- enet_time_get ;;
  on_host (fun h => h <| eh_serviceTime := now |>) ;;
  h <- gets id ;;
  when (ENET_HOST_BANDWIDTH_THROTTLE_INTERVAL <=? ENET_TIME_DIFFERENCE now (eh_bandwidthThrottleEpoch h))
    enet_host_bandwidth_throttle ;;
  t <- enet_protocol_send_outgoing_commands ev true ;;
  match t with
  | NextPeer =>
    t <- enet_protocol_receive_incoming_commands junk ev ;;
    match t with
    | NextPeer =>
      t <- enet_protocol_send_outgoing_commands ev true ;;
      match t with
      | NextPeer =>
        last <- (if ev then enet_protocol_dispatch_incoming_commands else ret false) ;;
        ret (if last : bool then ReturnEvent else NextPeer)
      | t => ret t
      end
    | t => ret t
    end
  | t => ret t
  end.

(** * The loops end *)

Lemma dispatch_peer_takes i h :
  eval (dispatch_peer i) h = false -> eh_dispatchQueue (exec (dispatch_peer i) h) = tail (eh_dispatchQueue h).
Proof.
  unfold dispatch_peer. do 3 rewrite -> exec_bind, eval_bind.
  set (h1 := exec _ h). set (h2 := exec _ h1). change (exec (the_peer i) h2) with h2.
  set (p := eval (the_peer i) h2). assert (eh_dispatchQueue h2 = tail (eh_dispatchQueue h)) as Eq by done.
  assert (forall m : M enet_host unit, eval (m ;; ret true) h2 = true) as Htrue by (intros m; by rewrite -> eval_bind).
  destruct (pe_state p); try by intros _.
  - intros H. exfalso. revert H. by rewrite -> !eval_bind.
  - intros H. exfalso. revert H. by rewrite -> !eval_bind.
  - rewrite -> exec_bind, eval_bind. unfold enet_peer_receive. rewrite -> exec_bind, eval_bind.
    change (exec (the_peer i) h2) with h2. destruct (pe_dispatched _) as [|c rest]; [by intros _|].
    match goal with |- context [eval (match ?x with Some _ => _ | None => _ end)] =>
      change x with (Some (h_channelID (in_command c), in_packet c)) end. cbv beta iota.
    intros H. exfalso. revert H. by rewrite -> !eval_bind.
  - intros H. exfalso. revert H. by rewrite -> !eval_bind.
Qed.
(** The turns are enough: without an event the queue is empty in the end. *)
Lemma dispatch_ends h :
  eval enet_protocol_dispatch_incoming_commands h = false ->
  eh_dispatchQueue (exec enet_protocol_dispatch_incoming_commands h) = [].
Proof.
  unfold enet_protocol_dispatch_incoming_commands. rewrite -> exec_bind, eval_bind.
  change (exec (gets eh_dispatchQueue) h) with h. change (eval (gets eh_dispatchQueue) h) with (eh_dispatchQueue h).
  remember (length (eh_dispatchQueue h)) as n eqn:En. revert h En. induction n as [|n IH]; intros h En; cbn [dispatch_loop].
  { intros _. change (eh_dispatchQueue h = []). by destruct (eh_dispatchQueue h). }
  rewrite -> exec_bind, eval_bind. change (exec (gets eh_dispatchQueue) h) with h.
  change (eval (gets eh_dispatchQueue) h) with (eh_dispatchQueue h).
  destruct (eh_dispatchQueue h) as [|i q] eqn:Eq; [done|]. rewrite -> exec_bind, eval_bind.
  destruct (eval (dispatch_peer i) h) eqn:E; [done|]. apply dispatch_peer_takes in E. apply IH.
  rw E Eq. cbn in *. lia.
Qed.

(** * A connection *)

(** A client connects to a host for two peers, acknowledges the answer and says hello on channel 1. *)
Definition sample_client : Z * Z := (0x0100007F, 5000).
Definition sample_datagram (peerID sentTime : Z) (l : list Z) : reception :=
  Received sample_client (put_be 2 (Z.lor peerID HEADER_FLAG_SENT_TIME) ++ put_be 2 sentTime ++ l).
Definition sample_inbox : list reception :=
  [sample_datagram 0xFFF 50 (put_protocol (mkprotocol (Z.lor COMMAND_CONNECT FLAG_ACKNOWLEDGE) 0xFF 1 (Connect
     (mkconnecting 7 0xFF 0xFF 1400 65536 2 30000 0 5000 2 2 77) 9)));
   Received sample_client [];
   sample_datagram 0 60 (put_protocol (mkprotocol COMMAND_ACKNOWLEDGE 0xFF 1 (Acknowledge 1 100)));
   sample_datagram 0 70 (put_protocol (mkprotocol (Z.lor COMMAND_SEND_RELIABLE FLAG_ACKNOWLEDGE) 1 1 (SendReliable 5))
     ++ [104; 101; 108; 108; 111])].
Definition sample_clock : list Z := [100; 110; 120].
Definition serve (n : nat) (h : enet_host) : enet_host := Nat.iter n (fun h => exec (enet_host_service 0 true) h) h.
Example a_client_connects :
  match enet_host_create 2 2 0 0 0 sample_clock sample_inbox [] with
  | Some h =>
    map (fun n => eh_event (serve n h)) [1; 2; 3]%nat =
      [NoEvent; EventConnect 0 9; EventReceive 0 1 (mkpacket ENET_PACKET_FLAG_RELIABLE [104; 101; 108; 108; 111])] /\
    map pe_state (eh_peers (serve 3 h)) = [CONNECTED; DISCONNECTED]
  | None => False
  end.
Proof. vm_compute. done. Qed.
(** With the callback of the server, the datagrams of a banned network are read and ignored. *)
Example banned_client_ignored :
  match enet_host_create 2 2 0 0 0 sample_clock sample_inbox [] with
  | Some h =>
    let h := serve 3 (h <| eh_intercept := Some (check_net_bans (fun ip => ip =? sample_client.1)) |>) in
    eh_event h = NoEvent /\ map pe_state (eh_peers h) = [DISCONNECTED; DISCONNECTED] /\ eh_inbox h = []
  | None => False
  end.
Proof. vm_compute. done. Qed.
(** A peer that waits to be dispatched and is reset stays in the queue, marked as if it were not there. *)
Example reset_leaves_queue :
  match enet_host_create 2 2 0 0 0 sample_clock sample_inbox [] with
  | Some h =>
    let h := exec (enet_protocol_dispatch_state 0 ZOMBIE ;; enet_peer_disconnect_now 0 0) h in
    eh_dispatchQueue h = [0] /\ map pe_needsDispatch (eh_peers h) = [false; false]
  | None => False
  end.
Proof. vm_compute. done. Qed.
