(* ===== verification/Reliable.v ===== *)
(** ENet: what a reliable channel promises.

    The packets sent on a channel reach the other side complete, in order and once, however the network delays,
    repeats and reorders the datagrams, as long as none is older or newer than the numbers of sixteen bits can tell. *)
From stdpp Require Import sorting.
From S2P Require Import Prelude Enet Peer Protocol.

#[local] Open Scope list_scope.

(** * Numbers of sixteen bits *)

(** How far [r] is ahead of [n]. *)
Definition ahead (n r : Z) : Z := (r - n) mod 65536.

Lemma ahead_cases n r :
  0 <= n < 65536 -> 0 <= r < 65536 -> (n <= r /\ ahead n r = r - n) \/ (r < n /\ ahead n r = r - n + 65536).
Proof.
  intros. unfold ahead. destruct (Z.le_gt_cases n r); [left|right]; split; try lia.
  - apply Z.mod_small. lia.
  - rewrite <- (Z.mod_unique (r - n) 65536 (-1) (r - n + 65536)); lia.
Qed.
Lemma reliable_verdict_ahead n r c :
  0 <= n < 65536 -> 0 <= r < 65536 -> 0 <= in_reliable c < 65536 ->
  reliable_verdict n r c =
    match (ahead n (in_reliable c) ?= ahead n r) with Lt => Before | Eq => Same | Gt => Skip end.
Proof.
  intros Hn Hr Hc. unfold reliable_verdict.
  destruct (ahead_cases n r Hn Hr) as [[? ->]|[? ->]], (ahead_cases n (in_reliable c) Hn Hc) as [[? ->]|[? ->]];
    zdecide; match goal with |- context [?a ?= ?b] => destruct (Z.compare_spec a b) end; try lia; zcases; done || lia.
Qed.
Lemma waits_for_ahead n r :
  0 <= n < 65536 -> 0 <= r < 65536 ->
  (waits_for r n = true -> ahead n r < 28672) /\ (ahead n r <= 24576 -> waits_for r n = true).
Proof.
  intros Hn Hr. unfold waits_for, window_ahead, current_window, ENET_PEER_RELIABLE_WINDOW_SIZE,
    ENET_PEER_RELIABLE_WINDOWS, ENET_PEER_FREE_RELIABLE_WINDOWS.
  destruct (ahead_cases n r Hn Hr) as [[? ->]|[? ->]]; zdecide;
    rewrite -> andb_true_iff, Z.leb_le, Z.ltb_lt; Z.div_mod_to_equations; lia.
Qed.
Lemma u16_range n : 0 <= u16 n < 65536.
Proof. unfold u16. apply Z.mod_pos_bound. lia. Qed.
#[local] Hint Resolve u16_range : core.
Lemma u16_add n m : u16 (u16 n + m) = u16 (n + m).
Proof. unfold u16. by rewrite -> Z.add_mod_idemp_l by lia. Qed.
Lemma ahead_u16 a b : ahead (u16 a) (u16 b) = (b - a) mod 65536.
Proof. unfold ahead, u16. change (2 ^ 16) with 65536. by rw -Zminus_mod. Qed.
Lemma ahead_u16_near a b : 0 <= b - a < 65536 -> ahead (u16 a) (u16 b) = b - a.
Proof. intros. rw ahead_u16. by apply Z.mod_small. Qed.
Lemma compare_sub a b p : (a - p ?= b - p) = (a ?= b).
Proof. destruct (Z.compare_spec a b), (Z.compare_spec (a - p) (b - p)); done || lia. Qed.
Lemma ahead_zero n r : 0 <= n < 65536 -> 0 <= r < 65536 -> ahead n r = 0 -> r = n.
Proof. intros Hn Hr. destruct (ahead_cases n r Hn Hr) as [[? ->]|[? ->]]; lia. Qed.

(** * The place of a command in a sorted queue *)

Lemma search_back_cases v reversed after :
  match search_back v reversed after with
  | Place before after' => rev reversed ++ after = before ++ after' /\
      (forall c, last before = Some c -> v c = Before) /\
      exists skipped, after' = skipped ++ after /\ Forall (fun c => v c = Skip) skipped
  | Taken c => c ∈ reversed /\ v c = Same
  end.
Proof.
  revert after. induction reversed as [|c l IH]; intros after; simpl.
  { split_and!; [done|done|]. by exists []. }
  destruct (v c) eqn:E.
  - specialize (IH (c :: after)). destruct (search_back v l (c :: after)) as [before after'|x].
    + destruct IH as (H1 & H2 & skipped & -> & H3). split_and!; [|done|].
      * by rw -H1 -app_assoc.
      * exists (skipped ++ [c]). rw -app_assoc. split; [done|]. rewrite -> Forall_app, Forall_singleton. done.
    + destruct IH. split; [set_solver|done].
  - split_and!; [done| |by exists []]. intros x. rw last_snoc. by intros [= ->].
  - split; [set_solver|done].
Qed.
Lemma place_of_cases v l :
  match place_of v l with
  | Place before after => l = before ++ after /\ (forall c, last before = Some c -> v c = Before) /\
      Forall (fun c => v c = Skip) after
  | Taken c => c ∈ l /\ v c = Same
  end.
Proof.
  unfold place_of. pose proof (search_back_cases v (rev l) []) as H.
  destruct (search_back v (rev l) []) as [before after|c].
  - destruct H as (H1 & H2 & skipped & -> & H3). rewrite -> rev_involutive, !app_nil_r in *. done.
  - destruct H as [H ?]. split; [|done]. apply list_elem_of_In. apply in_rev. by apply list_elem_of_In.
Qed.

(** * A stream of packets *)

Section stream.
(** The packets sent on channel [id], and the bytes a fragment of each holds (what the datagrams of the sender had
    room for when it was sent). *)
Context (id : Z) (msg : nat -> list Z) (step : nat -> Z).

Definition fragmented (m : nat) : bool := zlength (msg m) >? step m.
Definition fragment_count (m : nat) : Z :=
  if fragmented m then (zlength (msg m) + step m - 1) / step m else 0.
(** How many numbers the packet takes, and the first of them, not wrapped. *)
Definition span (m : nat) : Z := if fragmented m then fragment_count m else 1.
Fixpoint first_number (m : nat) : Z := match m with O => 1 | S m => first_number m + span m end.
(** The bytes of fragment [j]. *)
Definition piece (m : nat) (j : Z) : list Z :=
  take (Z.to_nat (step m)) (drop (Z.to_nat (j * step m)) (msg m)).

(** What the sender keeps to: a packet is never longer than its peer takes, nor in more fragments than there may
    be, and the length of a fragment is a number of two bytes. *)
Class Stream : Prop := {
  stream_step m : 0 < step m < 65536;
  stream_count m : fragment_count m <= ENET_PROTOCOL_MAXIMUM_FRAGMENT_COUNT;
  stream_channel : 0 <= id < 0xFF
}.
Context `{!Stream}.

Lemma fragment_count_bounds m :
  fragmented m = true -> 2 <= fragment_count m /\ (fragment_count m - 1) * step m < zlength (msg m) <= fragment_count m * step m.
Proof.
  intros F. unfold fragment_count. rw F. unfold fragmented in F. apply Z.gtb_lt in F. pose proof (stream_step m).
  set (q := (zlength (msg m) + step m - 1) / step m).
  assert (zlength (msg m) + step m - 1 = step m * q + (zlength (msg m) + step m - 1) mod step m) as E
    by (apply Z.div_mod; lia).
  pose proof (Z.mod_pos_bound (zlength (msg m) + step m - 1) (step m)).
  assert (1 < q) by nia. nia.
Qed.
Lemma fragment_count_zero m : fragmented m = false -> fragment_count m = 0.
Proof. unfold fragment_count. by intros ->. Qed.
Lemma span_pos m : 1 <= span m.
Proof. unfold span. destruct (fragmented m) eqn:F; [|lia]. pose proof (fragment_count_bounds m F). lia. Qed.
Lemma first_number_lt m m' : (m < m')%nat -> first_number m + span m <= first_number m'.
Proof.
  induction m' as [|m' IH]; intros; [lia|]. cbn [first_number].
  destruct (decide (m = m')) as [->|]; [lia|]. pose proof (span_pos m'). pose proof (IH ltac:(lia)). lia.
Qed.
Lemma first_number_le m m' : (m <= m')%nat -> first_number m <= first_number m'.
Proof.
  intros. destruct (decide (m = m')) as [->|]; [lia|].
  pose proof (first_number_lt m m' ltac:(lia)). pose proof (span_pos m). lia.
Qed.
Lemma first_number_lt_iff m m' : first_number m < first_number m' <-> (m < m')%nat.
Proof.
  split; intros Hm.
  - destruct (decide (m' <= m)%nat) as [Hle%first_number_le|]; lia.
  - pose proof (first_number_lt m m' Hm). pose proof (span_pos m). lia.
Qed.

(** * What is received of a packet *)

(** [c] collects packet [m]: the fragments that came are in their places, and the count of the others is right. *)
Record carries (m : nat) (c : incoming) : Prop := {
  carries_number : in_reliable c = u16 (first_number m);
  carries_count : in_fragmentCount c = fragment_count m;
  carries_channel : h_channelID (in_command c) = id;
  carries_kind : command_number (in_command c) = if fragmented m then COMMAND_SEND_FRAGMENT else COMMAND_SEND_RELIABLE;
  carries_flag : pk_flags (in_packet c) = ENET_PACKET_FLAG_RELIABLE;
  carries_length : length (pk_data (in_packet c)) = length (msg m);
  carries_fragments : forall j, j ∈ in_fragments c -> 0 <= j < fragment_count m;
  carries_remaining : in_fragmentsRemaining c = fragment_count m - Z.of_nat (size (in_fragments c));
  carries_plain : fragmented m = false -> pk_data (in_packet c) = msg m;
  carries_pieces : forall k : nat, (k < length (msg m))%nat -> Z.of_nat k / step m ∈ in_fragments c ->
    pk_data (in_packet c) !! k = msg m !! k
}.

Lemma all_fragments (s : gset Z) n :
  0 <= n -> (forall j, j ∈ s -> 0 <= j < n) -> Z.of_nat (size s) <= n /\
  (Z.of_nat (size s) = n -> forall j, 0 <= j < n -> j ∈ s).
Proof.
  intros Hn Hs. set (all := list_to_set (seqZ 0 n) : gset Z).
  assert (Hall : forall j, j ∈ all <-> 0 <= j < n).
  { intros j. unfold all. rw elem_of_list_to_set elem_of_seqZ. lia. }
  assert (size all = Z.to_nat n) as Hsize.
  { unfold all. rw size_list_to_set ?length_seqZ //. apply NoDup_seqZ. }
  assert (s ⊆ all) as Hsub by (intros j Hj; apply Hall, Hs, Hj).
  split; [apply subseteq_size in Hsub; lia|]. intros E j Hj.
  assert (s ≡ all) as ->; [|by apply Hall]. apply set_subseteq_size_equiv; [done|]. lia.
Qed.
Lemma carries_complete m c : carries m c -> in_fragmentsRemaining c <= 0 -> pk_data (in_packet c) = msg m.
Proof.
  intros C Hr. destruct (fragmented m) eqn:F; [|by apply carries_plain].
  pose proof (fragment_count_bounds m F) as [? ?]. pose proof (stream_step m).
  destruct (all_fragments (in_fragments c) (fragment_count m)) as [? Hall]; [lia|by apply carries_fragments|].
  pose proof (carries_remaining m c C).
  apply list_eq. intros k. destruct (decide (k < length (msg m))%nat).
  - apply (carries_pieces m c C); [done|]. apply Hall; [lia|]. unfold zlength in *.
    split; [apply Z.div_pos; lia|]. apply Z.div_lt_upper_bound; lia.
  - rewrite -> !lookup_ge_None_2; [done|lia|]. rw (carries_length m c C). lia.
Qed.
Lemma carries_not_negative m c : carries m c -> 0 <= in_fragmentsRemaining c.
Proof.
  intros C. rw (carries_remaining m c C).
  assert (0 <= fragment_count m).
  { destruct (fragmented m) eqn:F; [pose proof (fragment_count_bounds m F); lia|by rw fragment_count_zero]. }
  destruct (all_fragments (in_fragments c) (fragment_count m)); [done|by apply carries_fragments|lia].
Qed.

(** * The queue of a channel *)

(** The last number of the packets before [d]. *)
Definition before (d : nat) : Z := first_number d - 1.
(** A number near enough to the last one to be told from those before it. *)
Definition in_window (d m : nat) : Prop := (d <= m)%nat /\ first_number m - before d < 28672.
(** The queue collects some packets from [d] on, in order. *)
Definition collecting (d : nat) (q : list incoming) : Prop :=
  exists ms, StronglySorted lt ms /\ Forall (in_window d) ms /\ Forall2 carries ms q.

Lemma ahead_in_window d m : in_window d m -> ahead (u16 (before d)) (u16 (first_number m)) = first_number m - before d /\
  0 < first_number m - before d.
Proof.
  intros [Hd Hw]. pose proof (first_number_le d m Hd). unfold before in *.
  split; [|lia]. apply ahead_u16_near. lia.
Qed.
Lemma in_window_later d d' m : (d <= d')%nat -> (d' <= m)%nat -> in_window d m -> in_window d' m.
Proof. intros Hd Hm [_ Hw]. split; [done|]. pose proof (first_number_le d d' Hd). unfold before in *. lia. Qed.
Lemma first_number_compare m m' : (first_number m ?= first_number m') = (m ?= m')%nat.
Proof.
  destruct (Nat.compare_spec m m') as [->|Hl|Hl].
  - apply Z.compare_refl.
  - by apply Z.compare_lt_iff, first_number_lt_iff.
  - by apply Z.compare_gt_iff, first_number_lt_iff.
Qed.
Lemma verdict_in_window d m m' c :
  in_window d m -> in_window d m' -> carries m' c ->
  reliable_verdict (u16 (before d)) (u16 (first_number m)) c =
    match (m' ?= m)%nat with Lt => Before | Eq => Same | Gt => Skip end.
Proof.
  intros Hm Hm' C. rw reliable_verdict_ahead ?(carries_number m' c C) //.
  rw (proj1 (ahead_in_window d m Hm)) (proj1 (ahead_in_window d m' Hm')) -first_number_compare compare_sub //.
Qed.
Lemma collecting_later d d' q :
  (d <= d')%nat -> collecting d q -> (forall ms, StronglySorted lt ms -> Forall2 carries ms q -> Forall (in_window d) ms ->
    Forall (fun m => (d' <= m)%nat) ms) -> collecting d' q.
Proof.
  intros Hd (ms & Hs & W & C) Hle. exists ms. split_and!; [done| |done].
  pose proof (Hle ms Hs C W) as L. rewrite -> Forall_forall in *. eauto using in_window_later.
Qed.

(** A packet that is not in the queue has its place there. *)
Lemma place_in_window d m q :
  in_window d m -> collecting d q ->
  match place_of (reliable_verdict (u16 (before d)) (u16 (first_number m))) q with
  | Place front back => forall c, carries m c -> collecting d (front ++ c :: back)
  | Taken c => carries m c /\ c ∈ q
  end.
Proof.
  intros Hm (ms & Hs & W & C).
  pose proof (place_of_cases (reliable_verdict (u16 (before d)) (u16 (first_number m))) q) as P.
  destruct (place_of _ q) as [front back|c].
  - destruct P as (-> & Hlast & Hskip). intros c Hc.
    apply Forall2_app_inv_r in C as (ms1 & ms2 & C1 & C2 & ->).
    apply Forall_app in W as [W1 W2]. apply StronglySorted_app in Hs as (S12 & S1 & S2).
    assert (forall m', m' ∈ ms2 -> (m < m')%nat) as Hgt.
    { intros m' Hm'. apply list_elem_of_lookup in Hm' as [k Hk].
      destruct (Forall2_lookup_l _ _ _ _ _ C2 Hk) as (c' & Hc' & Hcar).
      pose proof (Forall_lookup_1 _ _ _ _ W2 Hk) as Hw. pose proof (Forall_lookup_1 _ _ _ _ Hskip Hc') as Hv.
      simpl in Hv. rw (verdict_in_window d m m' c') // in Hv. by destruct (Nat.compare_spec m' m). }
    assert (forall m', m' ∈ ms1 -> (m' < m)%nat) as Hlt.
    { intros m' Hm'. destruct (exists_last (l := ms1)) as (ms1' & x & ->); [by destruct ms1; set_solver|].
      apply Forall2_app_inv_l in C1 as (f1 & f2 & C1 & C1' & ->).
      apply Forall2_cons_inv_l in C1' as (c' & [] & Hcar & ?%Forall2_nil_inv_l & ->); [|done].
      rw last_snoc in Hlast. specialize (Hlast c' eq_refl).
      apply Forall_app in W1 as [W1 [Wx _]%Forall_cons].
      rw (verdict_in_window d m x c') // in Hlast.
      assert (x < m)%nat by (by destruct (Nat.compare_spec x m)).
      apply StronglySorted_app in S1 as (S1x & _ & _).
      apply elem_of_app in Hm' as [Hm'| ->%list_elem_of_singleton]; [|done].
      pose proof (S1x m' x Hm' ltac:(set_solver)). lia. }
    exists (ms1 ++ m :: ms2). split_and!.
    + apply StronglySorted_app. split_and!; [|done|].
      * intros x y Hx [-> |Hy]%elem_of_cons; [by apply Hlt|by apply S12].
      * constructor; [done|]. apply Forall_forall. by apply Hgt.
    + apply Forall_app. split; [done|]. by constructor.
    + apply Forall2_app; [done|]. by constructor.
  - destruct P as [Hin Hv]. split; [|done]. apply list_elem_of_lookup in Hin as [k Hk].
    destruct (Forall2_lookup_r _ _ _ _ _ C Hk) as (m' & Hm' & Hcar).
    pose proof (Forall_lookup_1 _ _ _ _ W Hm') as Hw. rw (verdict_in_window d m m' c) // in Hv.
    destruct (Nat.compare_spec m' m) as [->| |]; done.
Qed.

(** What is handed over are the packets that come next, complete, and no packet that could go with them stays. *)
Definition received (m : nat) (c : incoming) : Prop := carries m c /\ in_fragmentsRemaining c <= 0.
Definition idle (n : Z) (q : list incoming) : Prop := reliable_run n q = (n, [], q).

Lemma next_number m c : carries m c -> (if 0 <? in_fragmentCount c
    then u16 (in_reliable c + (in_fragmentCount c - 1)) else in_reliable c) = u16 (before (S m)).
Proof.
  intros C. rw (carries_count m c C) (carries_number m c C) u16_add. unfold before, span. cbn [first_number].
  unfold span. destruct (fragmented m) eqn:F.
  - pose proof (fragment_count_bounds m F). zdecide. f_equal. lia.
  - rw fragment_count_zero //. simpl. f_equal. lia.
Qed.
Lemma reliable_run_holds d q n run rest :
  collecting d q -> reliable_run (u16 (before d)) q = (n, run, rest) ->
  exists d', (d <= d')%nat /\ n = u16 (before d') /\ Forall2 received (seq d (d' - d)) run /\
    collecting d' rest /\ idle n rest.
Proof.
  revert d n run rest. induction q as [|c q IH]; intros d n run rest Hq; cbn [reliable_run].
  { intros [= <- <- <-]. exists d. rw Nat.sub_diag. split_and!; [done|done|constructor|done|done]. }
  destruct ((0 <? in_fragmentsRemaining c) || negb (in_reliable c =? u16 (u16 (before d) + 1))) eqn:E.
  { intros [= <- <- <-]. exists d. rw Nat.sub_diag. split_and!; [done|done|constructor|done|].
    unfold idle. cbn [reliable_run]. by rw E. }
  apply orb_false_iff in E as [Er%Z.ltb_ge En%negb_false_iff%Z.eqb_eq].
  destruct Hq as (ms & Hs & W & C). apply Forall2_cons_inv_r in C as (m & ms' & Hm & C & ->).
  apply Forall_cons in W as [Wm W].
  assert (m = d) as ->.
  { rw (carries_number m c Hm) u16_add in En. destruct (ahead_in_window d m Wm) as [A Hp].
    rw En ahead_u16_near in A; [|lia].
    assert (first_number m = first_number d) as Ef by (unfold before in *; lia).
    destruct (Nat.lt_trichotomy m d) as [Hx|[Hx|Hx]]; [|done|]; apply first_number_lt_iff in Hx; lia. }
  rw (next_number d c Hm).
  assert (collecting (S d) q) as Hq.
  { exists ms'. inversion Hs as [|? ? Ss Hall]; subst. split_and!; [done| |done].
    rewrite -> Forall_forall in *. intros m Hin. apply (in_window_later d); [lia|apply Hall in Hin; lia|by apply W]. }
  destruct (reliable_run (u16 (before (S d))) q) as [[n' run'] rest'] eqn:R.
  intros [= <- <- <-]. destruct (IH (S d) n' run' rest' Hq R) as (d' & Hd & -> & Hrun & Hrest & Hidle).
  exists d'. split_and!; [lia|done| |done|done].
  replace (d' - d)%nat with (S (d' - S d)) by lia. cbn [seq]. constructor; [by split|done].
Qed.
(** The last packet that came is handed over when it was the next one. *)
Lemma idle_next d q c : idle (u16 (before d)) q -> collecting d q -> c ∈ q -> carries d c -> 0 < in_fragmentsRemaining c.
Proof.
  intros Hi (ms & Hs & W & C) Hin Hc. destruct (Z.lt_ge_cases 0 (in_fragmentsRemaining c)) as [|Hr]; [done|exfalso].
  destruct q as [|c0 q]; [set_solver|]. apply Forall2_cons_inv_r in C as (m & ms' & Hm & C & ->).
  apply Forall_cons in W as [Wm W]. inversion Hs as [|? ? Ss Hall]; subst.
  assert (in_reliable c = u16 (u16 (before d) + 1)) as En.
  { rw (carries_number d c Hc) u16_add. f_equal. unfold before. lia. }
  assert (forall m', in_window d m' -> in_reliable c = u16 (first_number m') -> m' = d) as Hsame.
  { intros m' W' E. destruct (ahead_in_window d m' W') as [A Hp]. rw -E En u16_add ahead_u16_near in A; [|lia].
    assert (first_number m' = first_number d) as Ef by (unfold before in *; lia).
    destruct (Nat.lt_trichotomy m' d) as [Hx|[Hx|Hx]]; [|done|]; apply first_number_lt_iff in Hx; lia. }
  assert (c = c0) as ->.
  { apply elem_of_cons in Hin as [|Hin]; [done|exfalso].
    apply list_elem_of_lookup in Hin as [k Hk]. destruct (Forall2_lookup_r _ _ _ _ _ C Hk) as (m' & Hm' & Hcar).
    pose proof (Forall_lookup_1 _ _ _ _ W Hm') as Wm'. pose proof (Forall_lookup_1 _ _ _ _ Hall Hm') as Hlt.
    assert (m' = d) by (apply Hsame; [done|apply (carries_number m' c Hcar)]). destruct Wm. simpl in Hlt. lia. }
  unfold idle in Hi. cbn [reliable_run] in Hi. rw En Z.eqb_refl in Hi.
  rewrite -> (proj2 (Z.ltb_ge 0 _)) in Hi by lia. cbn [negb orb] in Hi.
  destruct (reliable_run _ q) as [[? ?] ?]. discriminate.
Qed.

(** ** A fragment comes to its place *)

Definition the_fragment (m : nat) (j : Z) : fragment :=
  mkfragment (u16 (first_number m)) (zlength (piece m j)) (fragment_count m) j (zlength (msg m)) (j * step m).

Lemma length_overwrite (offset : nat) d data :
  (offset + length d <= length data)%nat -> length (overwrite (Z.of_nat offset) d data) = length data.
Proof. intros. unfold overwrite. rw !length_app length_take length_drop Nat2Z.id. lia. Qed.
Lemma lookup_overwrite (offset k : nat) d data :
  (offset + length d <= length data)%nat ->
  overwrite (Z.of_nat offset) d data !! k =
    if decide (offset <= k < offset + length d)%nat then d !! (k - offset)%nat else data !! k.
Proof.
  intros Hl. unfold overwrite. rw Nat2Z.id.
  destruct (decide (k < offset)%nat).
  { rw lookup_app_l; [|rw length_take; lia]. rw lookup_take_lt; [|lia]. by rewrite -> decide_False by lia. }
  rw lookup_app_r; [|rw length_take; lia]. rw length_take Nat.min_l; [|lia].
  destruct (decide (k < offset + length d)%nat).
  { rw lookup_app_l; [|lia]. by rewrite -> decide_True by lia. }
  rw lookup_app_r; [|lia]. rw lookup_drop. rewrite -> decide_False by lia. f_equal. lia.
Qed.
Lemma piece_bounds m j :
  fragmented m = true -> 0 <= j < fragment_count m ->
  j * step m + zlength (piece m j) <= zlength (msg m) /\ 0 < zlength (piece m j) <= step m /\
  j * step m < zlength (msg m) /\
  (forall k : nat, (k < length (msg m))%nat -> Z.of_nat k / step m = j ->
     (Z.to_nat (j * step m) <= k < Z.to_nat (j * step m) + length (piece m j))%nat).
Proof.
  intros F Hj. pose proof (fragment_count_bounds m F). pose proof (stream_step m).
  unfold piece, zlength in *. rw length_take length_drop. split_and!; [nia|nia|nia|nia|].
  intros k Hk E. pose proof (Z.mod_pos_bound (Z.of_nat k) (step m)). pose proof (Z.div_mod (Z.of_nat k) (step m)). nia.
Qed.
Lemma carries_add_fragment m c j :
  fragmented m = true -> 0 <= j < fragment_count m -> j ∉ in_fragments c -> carries m c ->
  carries m (add_fragment (the_fragment m j) (piece m j) c).
Proof.
  intros F Hj Hnew C. destruct (piece_bounds m j F Hj) as (Hfit & Hlen & _ & Hpiece). pose proof (stream_step m).
  pose proof (carries_length m c C) as Hdata. unfold zlength in *.
  assert (0 <= j * step m) by nia.
  assert (add_fragment (the_fragment m j) (piece m j) c =
    c <| in_fragmentsRemaining ::= fun n => u32 (n - 1) |> <| in_fragments ::= fun s => {[j]} ∪ s |>
      <| in_packet ::= fun p => p <| pk_data ::= overwrite (Z.of_nat (Z.to_nat (j * step m))) (piece m j) |> |>) as ->.
  { unfold add_fragment, the_fragment, pk_length, zlength. cbn [f_fragmentOffset f_fragmentNumber].
    rw Z.gtb_ltb. rewrite -> (proj2 (Z.ltb_ge _ _)) by lia. by rewrite -> Z2Nat.id by lia. }
  assert (Z.of_nat (size ({[j]} ∪ in_fragments c)) = 1 + Z.of_nat (size (in_fragments c))) as Hsize.
  { rw size_union ?size_singleton; [lia|set_solver]. }
  destruct (all_fragments ({[j]} ∪ in_fragments c) (fragment_count m)) as [Hmax _].
  { lia. }
  { intros x [->%elem_of_singleton|Hx]%elem_of_union; [done|by apply (carries_fragments m c C)]. }
  split; cbn.
  - apply C.
  - apply C.
  - apply C.
  - apply C.
  - apply C.
  - rw length_overwrite; [done|lia].
  - intros x [->%elem_of_singleton|Hx]%elem_of_union; [done|by apply (carries_fragments m c C)].
  - pose proof (stream_count m). unfold ENET_PROTOCOL_MAXIMUM_FRAGMENT_COUNT in *.
    rw (carries_remaining m c C). unfold u32. rewrite -> Z.mod_small by lia. lia.
  - rw F. done.
  - intros k Hk Hin. rw lookup_overwrite; [|lia].
    destruct (decide _) as [Hr|Hr].
    + unfold piece. unfold piece in Hr. rw length_take in Hr. rw lookup_take_lt ?lookup_drop; [f_equal; lia|lia].
    + apply (carries_pieces m c C); [done|]. apply elem_of_union in Hin as [Hin%elem_of_singleton|]; [|done].
      exfalso. by apply Hr, Hpiece.
Qed.

(** * The host that receives *)

(** The peer the packets come from. *)
Context (i : Z).

Definition of_stream (channelID : Z) (p : packet) : Prop := channelID = id /\ Z.testbit (pk_flags p) 0 = true.
Definition is_reliable (c : incoming) : Prop := of_stream (h_channelID (in_command c)) (in_packet c).
#[local] Instance of_stream_dec channelID p : Decision (of_stream channelID p).
Proof. unfold of_stream. apply _. Defined.
#[local] Instance is_reliable_dec c : Decision (is_reliable c).
Proof. unfold is_reliable. apply _. Defined.
(** The commands of the stream that the program has not taken yet, and the channel. *)
Definition waiting (h : enet_host) : list incoming := filter is_reliable (pe_dispatched (peer_of h i)).
Definition the_channel (h : enet_host) : channel := channel_of (peer_of h i) id.
Definition queue (h : enet_host) : list incoming := ch_reliableCommands (the_channel h).

(** What has nothing to do with the stream leaves this alone. *)
Record quiet (h : enet_host) : Prop := {
  quiet_peer : 0 <= i < zlength (eh_peers h);
  quiet_channel : 0 <= id < zlength (pe_channels (peer_of h i));
  quiet_queue : Forall (fun c => ~ is_reliable c) (ch_unreliableCommands (the_channel h))
}.
Record unmoved (h h' : enet_host) : Prop := {
  unmoved_number : ch_incomingReliable (the_channel h') = ch_incomingReliable (the_channel h);
  unmoved_queue : queue h' = queue h;
  unmoved_waiting : waiting h' = waiting h;
  unmoved_ids : eh_nextID h <= eh_nextID h'
}.
Definition aside (h h' : enet_host) : Prop := quiet h -> quiet h' /\ unmoved h h'.
#[local] Instance aside_preorder : PreOrder aside.
Proof.
  split; [intros h Q; by split; [|split; try done; lia]|].
  intros h1 h2 h3 H1 H2 Q. destruct (H1 Q) as [Q2 [A1 A2 A3 A4]]. destruct (H2 Q2) as [Q3 [B1 B2 B3 B4]].
  split; [done|]. split; [congruence|congruence|congruence|lia].
Qed.

Lemma channel_of_on_channel f p :
  0 <= id < zlength (pe_channels p) -> channel_of (on_channel id f p) id = f (channel_of p id).
Proof. intros [ch Hc]%zlookup_is_Some. unfold channel_of. cbn. by rw zlookup_zalter_eq Hc. Qed.

(** Changes of the peer that keep what the stream needs. *)
Lemma aside_on_peer f :
  (forall p, 0 <= id < zlength (pe_channels p) -> zlength (pe_channels (f p)) = zlength (pe_channels p) /\
     ch_incomingReliable (channel_of (f p) id) = ch_incomingReliable (channel_of p id) /\
     ch_reliableCommands (channel_of (f p) id) = ch_reliableCommands (channel_of p id) /\
     filter is_reliable (pe_dispatched (f p)) = filter is_reliable (pe_dispatched p) /\
     (Forall (fun c => ~ is_reliable c) (ch_unreliableCommands (channel_of p id)) ->
      Forall (fun c => ~ is_reliable c) (ch_unreliableCommands (channel_of (f p) id)))) ->
  respects aside (on_peer i f).
Proof.
  intros Hf h [Qp Qc Qq]. destruct (Hf _ Qc) as (F1 & F2 & F3 & F4 & F5).
  split; split; unfold waiting, queue, the_channel in *; rw ?peer_of_on_peer //; cbn; rw ?zlength_zalter ?F1; auto; lia.
Qed.
Lemma aside_on_host f : (forall h, eh_peers (f h) = eh_peers h /\ eh_nextID h <= eh_nextID (f h)) -> respects aside (modify f).
Proof.
  intros Hf h [Qp Qc Qq]. change (exec (modify f) h) with (f h). destruct (Hf h) as [E1 E2].
  unfold waiting, queue, the_channel, peer_of in *.
  split; split; unfold waiting, queue, the_channel, peer_of in *; by rw ?E1.
Qed.
Lemma needs_dispatch_aside : respects aside (needs_dispatch i).
Proof.
  apply (respects_bind aside); [apply respects_gets; apply _|]. intros p. apply (respects_when aside).
  apply (respects_bind aside); [apply aside_on_host; done || lia|]. intros _. apply aside_on_peer. done.
Qed.
Lemma hand_over_aside l : Forall (fun c => ~ is_reliable c) l -> respects aside (hand_over i l).
Proof.
  intros Hl. unfold hand_over. destruct l as [|c l]; [apply respects_ret; apply _|].
  apply (respects_bind aside); [|intros _; apply needs_dispatch_aside].
  apply aside_on_peer. intros p Hp. split_and!; [done|done|done| |done]. cbn.
  rw filter_app. rewrite -> (filter_none _ (c :: l)) by done. apply app_nil_r.
Qed.
Lemma on_unreliable_aside f :
  (forall ch, (Forall (fun c => ~ is_reliable c) (ch_unreliableCommands ch) ->
     Forall (fun c => ~ is_reliable c) (ch_unreliableCommands (f ch))) /\
     ch_incomingReliable (f ch) = ch_incomingReliable ch /\ ch_reliableCommands (f ch) = ch_reliableCommands ch) ->
  respects aside (on_peer i (on_channel id f)).
Proof.
  intros Hf. apply aside_on_peer. intros p Hp. destruct (Hf (channel_of p id)) as (F1 & F2 & F3).
  rw channel_of_on_channel //. split_and!; [|done|done|done|done]. cbn. apply zlength_zalter.
Qed.

(** The unreliable commands come from their own queue. *)
Lemma unreliable_run_from (P : incoming -> Prop) n u l kept pending dropped moved :
  Forall P l -> Forall P kept -> Forall P pending -> Forall P moved ->
  forall l' dropped' moved' u', unreliable_run n u l kept pending dropped moved = (l', dropped', moved', u') ->
  Forall P l' /\ Forall P moved'.
Proof.
  revert u kept pending dropped moved.
  assert (Hfinish : forall (u : Z) l kept pending (dropped : nat) moved, Forall P l -> Forall P kept -> Forall P pending -> Forall P moved ->
    forall l' dropped' moved' u', match pending with
      | [] => (rev kept ++ l, dropped, moved, u)
      | _ => (rev kept ++ l, length kept, moved ++ pending, u)
      end = (l', dropped', moved', u') -> Forall P l' /\ Forall P moved').
  { intros u l0 kept pending dropped moved H1 H2 H3 H4 l' dropped' moved' u' E.
    assert (Forall P (rev kept)) by (by apply Forall_rev).
    destruct pending; injection E as <- <- <- <-; rewrite -> ?Forall_app; done. }
  induction l as [|c l IH]; intros u kept pending dropped moved Hl Hk Hp Hm; cbn [unreliable_run]; [by apply Hfinish|].
  apply Forall_cons in Hl as [Hc Hl].
  assert (Forall P (pending ++ [c])) by (rewrite -> Forall_app, Forall_singleton; done).
  assert (Forall P (moved ++ pending)) by (rewrite -> Forall_app; done).
  destruct (_ =? COMMAND_SEND_UNSEQUENCED); [by apply IH|].
  destruct (in_reliable c =? n).
  { destruct (in_fragmentsRemaining c <=? 0); [by apply IH|]. apply IH; [done|by constructor|constructor|done]. }
  destruct (waits_for (in_reliable c) n); [apply Hfinish; [by constructor|done..]|].
  apply IH; [done|by constructor|constructor|done].
Qed.
Lemma remove_incoming_from (P : incoming -> Prop) count exclude l :
  Forall P l -> Forall P (enet_peer_remove_incoming_commands count exclude l).
Proof.
  intros Hl. unfold enet_peer_remove_incoming_commands. apply Forall_app. split; [|by apply Forall_drop].
  apply (Forall_take P count) in Hl. rewrite -> Forall_forall in Hl |- *.
  intros c [_ Hc]%list_elem_of_filter. by apply Hl.
Qed.
Lemma dispatch_unreliable_aside queued :
  respects aside (enet_peer_dispatch_incoming_unreliable_commands i id queued).
Proof.
  intros h Q. revert Q. change (aside h (exec (enet_peer_dispatch_incoming_unreliable_commands i id queued) h)).
  unfold enet_peer_dispatch_incoming_unreliable_commands. rewrite -> exec_bind.
  change (eval (the_peer i) h) with (peer_of h i). change (exec (the_peer i) h) with h. fold (the_channel h).
  destruct (unreliable_run _ _ _ _ _ _ _) as [[[l dropped] moved] u] eqn:E.
  intros Q. destruct (unreliable_run_from (fun c => ~ is_reliable c) _ _ _ _ _ _ _ (quiet_queue h Q)
    ltac:(constructor) ltac:(constructor) ltac:(constructor) _ _ _ _ E) as [Hl Hm]. revert Q.
  apply (respects_bind_at aside).
  - apply on_unreliable_aside. done.
  - intros _. apply (respects_bind aside); [by apply hand_over_aside|]. intros _. apply on_unreliable_aside.
    intros ch. split_and!; [|done|done]. cbn. apply remove_incoming_from.
Qed.

(** ** The state of the stream *)

(** [taken] packets were given to the program, [d] are handed over. *)
Record receiving_queue (d taken : nat) (h : enet_host) : Prop := {
  rc_quiet : quiet h;
  rc_number : ch_incomingReliable (the_channel h) = u16 (before d);
  rc_queue : collecting d (queue h);
  rc_ids : NoDup (in_id <$> queue h);
  rc_fresh : Forall (fun c => in_id c < eh_nextID h) (queue h);
  rc_taken : (taken <= d)%nat;
  rc_waiting : Forall2 received (seq taken (d - taken)) (waiting h)
}.
Definition receiving (d taken : nat) (h : enet_host) : Prop :=
  receiving_queue d taken h /\ idle (u16 (before d)) (queue h).

Lemma receiving_queue_aside d taken h h' : receiving_queue d taken h -> aside h h' -> receiving_queue d taken h'.
Proof.
  intros [Q R1 R2 R3 R4 R5 R6] A. destruct (A Q) as [Q' [A1 A2 A3 A4]]. split; rw ?A1 ?A2 ?A3 //.
  eapply Forall_impl; [done|]. simpl. lia.
Qed.
Lemma receiving_aside d taken h h' : receiving d taken h -> aside h h' -> receiving d taken h'.
Proof.
  intros [R Hi] A. split; [by eapply receiving_queue_aside|]. destruct (A (rc_quiet _ _ _ R)) as [_ U].
  by rw (unmoved_queue _ _ U).
Qed.
Lemma reliable_run_app n q n' run rest : reliable_run n q = (n', run, rest) -> q = run ++ rest.
Proof.
  revert n n' run rest. induction q as [|c q IH]; intros n n' run rest; cbn [reliable_run]; [by intros [= <- <- <-]|].
  destruct (_ || _); [by intros [= <- <- <-]|].
  destruct (reliable_run _ q) as [[n1 run1] rest1] eqn:E. intros [= <- <- <-]. simpl. f_equal. by eapply IH.
Qed.
Lemma received_is_reliable m c : received m c -> is_reliable c.
Proof.
  intros [C _]. split; [apply (carries_channel m c C)|]. by rw (carries_flag m c C).
Qed.

(** What waits for the program stays, and what leaves the queue joins it. *)
Definition passes_on (h h' : enet_host) : Prop :=
  waiting h `prefix_of` waiting h' /\ forall c, c ∈ queue h -> c ∈ queue h' \/ c ∈ waiting h'.

(** Handing over: afterwards nothing that could go stays. *)
Lemma dispatch_reliable_receives d taken queued h :
  receiving_queue d taken h ->
  exists d', (d <= d')%nat /\ receiving d' taken (exec (enet_peer_dispatch_incoming_reliable_commands i id queued) h) /\
    (queue (exec (enet_peer_dispatch_incoming_reliable_commands i id queued) h) ⊆ queue h /\
     passes_on h (exec (enet_peer_dispatch_incoming_reliable_commands i id queued) h)) /\
    (d' = d <-> idle (u16 (before d)) (queue h)).
Proof.
  intros R. pose proof R as [Q R1 R2 R3 R4 R5 R6]. pose proof Q as [Qp Qc Qq].
  unfold enet_peer_dispatch_incoming_reliable_commands. rewrite -> exec_bind.
  change (eval (the_peer i) h) with (peer_of h i). change (exec (the_peer i) h) with h. fold (the_channel h). fold (queue h).
  rw R1. destruct (reliable_run (u16 (before d)) (queue h)) as [[n run] rest] eqn:E.
  destruct (reliable_run_holds d _ n run rest R2 E) as (d' & Hd & -> & Hrun & Hrest & Hidle).
  pose proof (reliable_run_app _ _ _ _ _ E) as Happ. exists d'. split; [done|].
  destruct run as [|c run].
  { apply Forall2_length in Hrun. rw length_seq in Hrun. simpl in Hrun. assert (d' = d) as -> by lia.
    simpl in Happ. subst rest. split_and!; [by split|done| |done]. split; [done|by left]. }
  assert (d' <> d) as Hne.
  { intros ->. apply Forall2_length in Hrun. by rw Nat.sub_diag in Hrun. }
  rewrite -> exec_bind.
  set (h1 := exec (on_peer i _) h).
  assert (receiving_queue d' taken (exec (hand_over i (c :: run)) h1) /\ queue (exec (hand_over i (c :: run)) h1) = rest /\
    waiting (exec (hand_over i (c :: run)) h1) = waiting h ++ c :: run) as (Rh & Eq & Ew).
  { set (l := c :: run) in *. cbn [hand_over]. change (hand_over i l) with
      (on_peer i (fun p => p <| pe_dispatched ::= fun q => q ++ l |>) ;; needs_dispatch i).
    rewrite -> exec_bind. set (h2 := exec _ h1).
    assert (receiving_queue d' taken h2 /\ queue h2 = rest /\ waiting h2 = waiting h ++ l) as (R' & Eq & Ew).
    { assert (peer_of h2 i = on_channel id (fun ch => ch <| ch_incomingReliable := u16 (before d') |>
          <| ch_incomingUnreliable := 0 |> <| ch_reliableCommands := rest |>) (peer_of h i)
          <| pe_dispatched ::= fun q => q ++ l |>) as Ep.
      { unfold h2, h1. rewrite -> peer_of_on_peer; [by rw peer_of_on_peer|]. cbn. by rw zlength_zalter. }
      assert (the_channel h2 = the_channel h <| ch_incomingReliable := u16 (before d') |>
          <| ch_incomingUnreliable := 0 |> <| ch_reliableCommands := rest |>) as Ec.
      { unfold the_channel. rw Ep. exact (channel_of_on_channel _ (peer_of h i) Qc). }
      assert (queue h2 = rest) as Eq by (unfold queue; by rw Ec).
      assert (waiting h2 = waiting h ++ l) as Ew.
      { unfold waiting. rw Ep. cbn. rw filter_app. f_equal. apply filter_every.
        apply Forall_forall. intros x Hx. apply list_elem_of_lookup in Hx as [k Hk].
        destruct (Forall2_lookup_r _ _ _ _ _ Hrun Hk) as (m & _ & Hm). by eapply received_is_reliable. }
      split; [|done]. rw Happ fmap_app in R3. apply NoDup_app in R3 as (_ & _ & R3).
      rw Happ in R4. apply Forall_app in R4 as [_ R4].
      split.
      - split; [cbn; by rw !zlength_zalter|rw Ep; cbn; by rw zlength_zalter|by rw Ec].
      - by rw Ec.
      - by rw Eq.
      - by rw Eq.
      - by rw Eq.
      - lia.
      - rw Ew. replace (d' - taken)%nat with ((d - taken) + (d' - d))%nat by lia. rw seq_app.
        apply Forall2_app; [done|]. by replace (taken + (d - taken))%nat with d by lia. }
    split; [by eapply receiving_queue_aside; [|apply needs_dispatch_aside]|].
    destruct (needs_dispatch_aside h2 (rc_quiet _ _ _ R')) as [_ U]. by rw (unmoved_queue _ _ U) (unmoved_waiting _ _ U). }
  rewrite -> exec_bind. set (h2 := exec (hand_over i (c :: run)) h1) in *.
  match goal with |- context [exec (when ?b ?m) h2] =>
    assert (aside h2 (exec (when b m) h2)) as A by (apply (respects_when aside), dispatch_unreliable_aside) end.
  split_and!; [| | |split; [done|unfold idle; by rw E]].
  2:{ destruct (A (rc_quiet _ _ _ Rh)) as [_ U]. rw (unmoved_queue _ _ U) Eq Happ. set_solver. }
  2:{ destruct (A (rc_quiet _ _ _ Rh)) as [_ U]. unfold passes_on. rw (unmoved_queue _ _ U) (unmoved_waiting _ _ U) Eq Ew Happ.
      split; [by apply prefix_app_r|]. intros x [Hx|Hx]%elem_of_app; [right|by left]. apply elem_of_app. by right. }
  apply (receiving_aside _ _ h2); [|done]. split; [done|]. by rw Eq.
Qed.
Lemma idle_head n q :
  idle n q <-> forall c, head q = Some c -> 0 < in_fragmentsRemaining c \/ in_reliable c <> u16 (n + 1).
Proof.
  unfold idle. destruct q as [|c q]; cbn [reliable_run head]; [done|].
  destruct ((0 <? in_fragmentsRemaining c) || negb (in_reliable c =? u16 (n + 1))) eqn:E.
  - split; [|done]. intros _ c' [= <-]. apply orb_true_iff in E as [E%Z.ltb_lt|E%negb_true_iff%Z.eqb_neq]; auto.
  - apply orb_false_iff in E as [E%Z.ltb_ge E'%negb_false_iff%Z.eqb_eq]. split.
    + destruct (reliable_run _ q) as [[? ?] ?]. discriminate.
    + intros H'. destruct (H' c eq_refl); lia.
Qed.

(** ** An arrival *)

(** A change of the queue alone. *)
Lemma set_queue_receives d taken h f q :
  receiving_queue d taken h -> f (the_channel h) = the_channel h <| ch_reliableCommands := q |> ->
  collecting d q -> NoDup (in_id <$> q) -> Forall (fun c => in_id c < eh_nextID h) q ->
  receiving_queue d taken (exec (on_peer i (on_channel id f)) h) /\ queue (exec (on_peer i (on_channel id f)) h) = q /\
  waiting (exec (on_peer i (on_channel id f)) h) = waiting h.
Proof.
  intros [[Qp Qc Qq] R1 R2 R3 R4 R5 R6] Hf H1 H2 H3. set (h' := exec _ h).
  assert (peer_of h' i = on_channel id f (peer_of h i)) as Ep by (by apply peer_of_on_peer).
  assert (the_channel h' = the_channel h <| ch_reliableCommands := q |>) as Ec.
  { unfold the_channel at 1. rw Ep channel_of_on_channel //. }
  assert (queue h' = q) as Eq by (unfold queue; by rw Ec).
  assert (waiting h' = waiting h) as Ew by (unfold waiting; by rw Ep).
  split; [|done]. split; rw ?Eq ?Ec //.
  - split; [cbn; by rw zlength_zalter|rw Ep; cbn; by rw zlength_zalter|by rw Ec].
  - by rw Ew.
Qed.

(** A number that is neither too old nor too new. *)
Definition near (d m : nat) : Prop := before d - 36864 <= first_number m < before d + 28672.
Lemma waits_for_near d m :
  near d m -> waits_for (u16 (first_number m)) (u16 (before d)) = true -> in_window d m \/ first_number m = before d.
Proof.
  intros [Hlo Hhi] Hw. apply waits_for_ahead in Hw; [|done|done]. rw ahead_u16 in Hw.
  destruct (Z.lt_trichotomy (first_number m) (before d)) as [Hlt|[He|Hgt]]; [exfalso|by right|left].
  - rewrite <- (Z.mod_unique (first_number m - before d) 65536 (-1) (first_number m - before d + 65536)) in Hw; lia.
  - split; [|lia]. destruct (decide (d <= m)%nat) as [|Hn]; [done|].
    assert (first_number m < first_number d) by (apply first_number_lt_iff; lia). unfold before in *. lia.
Qed.
Lemma not_in_queue d q c : collecting d q -> c ∈ q -> in_reliable c <> u16 (before d).
Proof.
  intros (ms & Hs & W & C) [k Hk]%list_elem_of_lookup E.
  destruct (Forall2_lookup_r _ _ _ _ _ C Hk) as (m & Hm & Hc).
  pose proof (Forall_lookup_1 _ _ _ _ W Hm) as Wm. destruct (ahead_in_window d m Wm) as [A Hp].
  rw -(carries_number m c Hc) E in A. rw ahead_u16 Z.sub_diag Zmod_0_l in A. lia.
Qed.

Lemma queue_incoming_receives junk m d taken h c data len flags count :
  receiving d taken h -> near d m -> h_channelID c = id -> h_reliableSequenceNumber c = u16 (first_number m) ->
  is_reliable_command (command_number c) = true ->
  (forall k, carries m (mkincoming k (u16 (first_number m)) 0 c count count ∅ (enet_packet_create junk data len flags))) ->
  let prog := enet_peer_queue_incoming_command junk i c data len flags count in
  exists d', (d <= d')%nat /\ receiving d' taken (exec prog h) /\
    (forall k s, eval prog h = Queued k -> s ∈ queue (exec prog h) -> in_id s = k -> carries m s) /\
    (forall k, eval prog h = Queued k -> in_window d m /\ (m = d -> count <= 0 -> (d < d')%nat) /\ (0 < count -> d' = d) /\
       passes_on h (exec prog h)).
Proof.
  intros R Hnear Hc Hr Hrel Hcar prog. pose proof R as [RQ Hidle]. pose proof RQ as [Q R1 R2 R3 R4 R5 R6].
  unfold prog, enet_peer_queue_incoming_command. do 2 rewrite -> exec_bind, eval_bind.
  change (exec (the_peer i) h) with h. change (eval (the_peer i) h) with (peer_of h i).
  change (exec (gets Datatypes.id) h) with h. change (eval (gets Datatypes.id) h) with h.
  cbv zeta. rw Hc. fold (the_channel h).
  assert (forall b : bool, exists d', (d <= d')%nat /\ receiving d' taken (exec (ret (if b then NotQueued else Dummy)) h) /\
    (forall k s, eval (ret (if b then NotQueued else Dummy)) h = Queued k ->
      s ∈ queue (exec (ret (if b then NotQueued else Dummy)) h) -> in_id s = k -> carries m s) /\
    (forall k, eval (ret (if b then NotQueued else Dummy)) h = Queued k ->
       in_window d m /\ (m = d -> count <= 0 -> (d < d')%nat) /\ (0 < count -> d' = d) /\
       passes_on h (exec (ret (if b then NotQueued else Dummy)) h))) as Hnone.
  { intros b. exists d. split_and!; [done|done| |]; by destruct b. }
  destruct (bool_decide _); [apply Hnone|].
  destruct (queue_place (the_channel h) c) as [[front back]|] eqn:P; [|apply Hnone].
  assert (forall k, collecting d (front ++ mkincoming k (u16 (first_number m)) 0 c count count ∅
            (enet_packet_create junk data len flags) :: back) /\ queue h = front ++ back /\ in_window d m) as Hplace.
  { intros k. unfold queue_place in P. rw Hr R1 Hrel in P. fold (queue h) in P.
    destruct (_ && _) eqn:Hw; [done|]. destruct (u16 (first_number m) =? u16 (before d)) eqn:Hd; [done|].
    assert (in_window d m) as Hin.
    { destruct (waits_for (u16 (first_number m)) (u16 (before d))) eqn:W.
      - destruct (waits_for_near d m Hnear W) as [|E]; [done|]. by rw E Z.eqb_refl in Hd.
      - apply andb_false_iff in Hw as [Hw|]; [|done]. apply negb_false_iff, Z.eqb_eq in Hw. by rw Hw in Hrel. }
    pose proof (place_in_window d m (queue h) Hin R2) as Hp.
    pose proof (place_of_cases (reliable_verdict (u16 (before d)) (u16 (first_number m))) (queue h)) as Hq.
    destruct (place_of _ (queue h)); [|done]. injection P as -> ->. split_and!; [by apply Hp|apply Hq|done]. }
  destruct (eh_maximumWaitingData h <=? _); [apply (Hnone true)|].
  destruct (count >? _); [apply (Hnone true)|].
  assert (is_unreliable_command (command_number c) = false) as ->.
  { unfold is_reliable_command in Hrel. unfold is_unreliable_command. by apply orb_true_iff in Hrel as [E%Z.eqb_eq|E%Z.eqb_eq]; rw E. }
  rw Hrel Hr. change (u16 0) with 0.
  set (new := mkincoming (eh_nextID h) (u16 (first_number m)) 0 c count count ∅ (enet_packet_create junk data len flags)).
  cbn [in_id]. do 3 rewrite -> exec_bind, eval_bind.
  set (h1 := exec (modify _) h). set (h2 := exec (on_peer i _) h1).
  assert (aside h h2) as A.
  { transitivity h1; [apply aside_on_host; cbn; split; [done|lia]|]. apply aside_on_peer. done. }
  destruct (A Q) as [Q2 [U1 U2 U3 U4]]. destruct (Hplace (eh_nextID h)) as (Hnew & Hold & Hwin).
  destruct (set_queue_receives d taken h2
    (fun ch => ch <| ch_reliableCommands := front ++ new :: back |>) (front ++ new :: back)) as (R3' & Hq3 & Hw3).
  { by eapply receiving_queue_aside. }
  { done. }
  { done. }
  { rw fmap_app fmap_cons. rw Hold fmap_app in R3. rw Hold in R4. apply Forall_app in R4 as [F B].
    rewrite -> Forall_forall in F, B. apply NoDup_app in R3 as (N1 & N2 & N3). apply NoDup_app. split_and!; [done| |].
    - intros x Hx [->|Hx']%elem_of_cons; [|by eapply N2]. apply list_elem_of_fmap in Hx as (y & E & Hy).
      apply F in Hy. simpl in E. lia.
    - constructor; [|done]. intros (y & E & Hy)%list_elem_of_fmap. apply B in Hy. simpl in E. lia. }
  { assert (eh_nextID h2 = eh_nextID h + 1) as -> by (cbn; lia). rw Hold in R4. apply Forall_app in R4 as [F B].
    rewrite -> Forall_app, Forall_cons. split_and!; [|cbn; lia|]; (eapply Forall_impl; [done|]; simpl; lia). }
  rewrite -> exec_bind. set (h3 := exec (on_peer i _) h2) in *.
  destruct (dispatch_reliable_receives d taken (Some (eh_nextID h)) h3 R3') as (d' & Hd & R' & [Hsub Hpass] & Hno).
  exists d'. split_and!; [done|exact R'| |].
  2:{ intros k _. rw Hq3 in Hno. split_and!; [done| | |].
    - intros -> Hcount. destruct (decide (d' = d)) as [E%Hno|]; [|lia].
      pose proof (idle_next d _ new E Hnew ltac:(set_solver) (Hcar _)) as Hlt. simpl in Hlt. lia.
    - intros Hcount. apply Hno, idle_head. intros s Hs. destruct front as [|c0 front].
      + injection Hs as <-. by left.
      + injection Hs as <-. rw Hold in Hidle. by apply (proj1 (idle_head _ _) Hidle).
    - destruct Hpass as [P1 P2]. rw Hw3 U3 in P1. split; [exact P1|].
      intros x Hx. apply P2. rw Hq3. rw Hold in Hx. apply elem_of_app in Hx. apply elem_of_app. set_solver. }
  intros k s E Hs Hk. assert (k = eh_nextID h) as ->.
  { by injection E as <-. }
  rw Hq3 in Hsub. apply Hsub in Hs. apply elem_of_app in Hs as [Hs|[->|Hs]%elem_of_cons]; [|apply Hcar|];
    rw Hold in R4; apply Forall_app in R4 as [F B]; rewrite -> Forall_forall in F, B;
    [apply F in Hs|apply B in Hs]; lia.
Qed.

(** ** The commands of the stream *)

Definition plain_command (m : nat) : protocol :=
  mkprotocol (Z.lor COMMAND_SEND_RELIABLE FLAG_ACKNOWLEDGE) id (u16 (first_number m)) (SendReliable (zlength (msg m))).
Definition fragment_command (m : nat) (j : Z) : protocol :=
  mkprotocol (Z.lor COMMAND_SEND_FRAGMENT FLAG_ACKNOWLEDGE) id (u16 (first_number m + j)) (SendFragment (the_fragment m j)).

Lemma carries_plain_command m k :
  fragmented m = false ->
  carries m (mkincoming k (u16 (first_number m)) 0 (plain_command m) 0 0 ∅
    (enet_packet_create 0 (Some (msg m)) (zlength (msg m)) ENET_PACKET_FLAG_RELIABLE)).
Proof.
  intros F. assert (take (Z.to_nat (zlength (msg m))) (msg m) = msg m) as E by (apply take_ge; unfold zlength; lia).
  split; cbn; rw ?F ?fragment_count_zero ?E //.
Qed.
Lemma packet_data_all h (l rest : list Z) n d :
  n = zlength l -> packet_data h n (l ++ rest) = Some d -> d = l.
Proof.
  intros ->. unfold packet_data, zlength. destruct (_ || _); [done|]. intros [= <-]. by rw Nat2Z.id take_app_length.
Qed.
Lemma plain_arrival junk ev m d taken h rest :
  receiving d taken h -> near d m -> fragmented m = false ->
  exists d', (d <= d')%nat /\ receiving d' taken (exec (handle_command junk ev i (plain_command m) (msg m ++ rest)) h).
Proof.
  intros R Hn F. unfold handle_command, plain_command; cbn [p_body]. unfold enet_protocol_handle_send_reliable.
  rewrite -> exec_bind. set (h' := exec _ h). cut (exists d', (d <= d')%nat /\ receiving d' taken h'); [done|].
  unfold h'. clear h'. do 2 rewrite -> exec_bind.
  change (exec (gets Datatypes.id) h) with h. change (exec (the_peer i) h) with h.
  destruct (may_receive _ _); [|by exists d]. cbn [negb].
  destruct (packet_data _ _ _) as [dt|] eqn:P; [|by exists d].
  apply (packet_data_all _ (msg m)) in P as ->; [|done]. rewrite -> exec_bind.
  destruct (queue_incoming_receives junk m d taken h (plain_command m) (Some (msg m)) (zlength (msg m))
    ENET_PACKET_FLAG_RELIABLE 0) as (d' & Hd & R' & _); [done|done|done|done|done| |by exists d'].
  intros k. by apply carries_plain_command.
Qed.

Lemma carries_fragment_command m j k junk :
  fragmented m = true ->
  carries m (mkincoming k (u16 (first_number m)) 0 (fragment_command m j <| h_reliableSequenceNumber := u16 (first_number m) |>)
    (fragment_count m) (fragment_count m) ∅ (enet_packet_create junk None (zlength (msg m)) ENET_PACKET_FLAG_RELIABLE)).
Proof.
  intros F. split; cbn; rw ?F //.
  - rw length_replicate. unfold zlength. lia.
  - rw size_empty. lia.
Qed.
Lemma command_of_unique k s q : NoDup (in_id <$> q) -> s ∈ q -> in_id s = k -> command_of k q = Some s.
Proof.
  intros Hnd Hs Hk. unfold command_of. induction q as [|c q IH]; [set_solver|].
  apply NoDup_cons in Hnd as [Hc Hnd]. destruct (decide (in_id c = k)) as [E|E].
  - rewrite -> filter_cons_True by done. apply elem_of_cons in Hs as [->|Hs]; [done|].
    exfalso. apply Hc. rw E -Hk. by apply list_elem_of_fmap_2.
  - rewrite -> filter_cons_False by done. apply IH; [done|]. apply elem_of_cons in Hs as [->|]; done.
Qed.
Lemma command_of_in k s q : command_of k q = Some s -> s ∈ q /\ in_id s = k.
Proof.
  unfold command_of. intros H'. assert (s ∈ filter (fun c => in_id c = k) q) as Hs.
  { destruct (filter _ q); [done|]. injection H' as ->. set_solver. }
  apply list_elem_of_filter in Hs. tauto.
Qed.
Lemma on_command_same k f q c : c ∈ on_command k f q -> c ∈ q \/ exists s, s ∈ q /\ in_id s = k /\ c = f s.
Proof.
  unfold on_command. intros (s & -> & Hs)%list_elem_of_fmap. destruct (in_id s =? k) eqn:E; [|by left].
  apply Z.eqb_eq in E. eauto.
Qed.

(** A fragment that is new comes to the command that collects its packet. *)
Lemma collect_fragment d q m j k s :
  collecting d q -> NoDup (in_id <$> q) -> s ∈ q -> in_id s = k -> carries m s -> in_window d m ->
  fragmented m = true -> 0 <= j < fragment_count m -> j ∉ in_fragments s ->
  let q' := on_command k (add_fragment (the_fragment m j) (piece m j)) q in
  collecting d q' /\ in_id <$> q' = in_id <$> q /\ add_fragment (the_fragment m j) (piece m j) s ∈ q'.
Proof.
  intros (ms & Hs & W & C) Hnd Hin Hk Hcar Hwin F Hj Hnew q'. split_and!.
  - exists ms. split_and!; [done|done|]. apply Forall2_fmap_r.
    apply Forall2_same_length_lookup_2; [by eapply Forall2_length|]. intros x m' c Hm' Hc.
    pose proof (Forall2_lookup_lr _ _ _ _ _ _ C Hm' Hc) as Hcar'.
    unfold compose. destruct (Z.eqb_spec (in_id c) k) as [E|]; [|done].
    assert (Some c = Some s) as [= ->].
    { rewrite <- (command_of_unique k s q Hnd Hin Hk). symmetry. apply command_of_unique; [done| |done].
      by eapply list_elem_of_lookup_2. }
    assert (m' = m) as ->; [|by apply carries_add_fragment].
    pose proof (Forall_lookup_1 _ _ _ _ W Hm') as W'.
    apply (ahead_in_window d) in Hwin as [A _]. apply (ahead_in_window d) in W' as [A' _].
    rw -(carries_number m s Hcar) in A. rw -(carries_number m' s Hcar') A in A'.
    destruct (Nat.lt_trichotomy m' m) as [Hx|[Hx|Hx]]; [|done|]; apply first_number_lt_iff in Hx; lia.
  - unfold q', on_command. rw -list_fmap_compose. apply list_fmap_ext. intros x c _. cbn. by destruct (in_id c =? k).
  - apply list_elem_of_fmap. exists s. by rw Hk Z.eqb_refl.
Qed.

Lemma forall_ids (P : Z -> Prop) q q' : in_id <$> q' = in_id <$> q -> Forall (fun c => P (in_id c)) q -> Forall (fun c => P (in_id c)) q'.
Proof.
  intros E Hq. apply Forall_forall. intros c Hc%(list_elem_of_fmap_2 in_id). rw E in Hc.
  apply list_elem_of_fmap in Hc as (c' & -> & Hc'). rewrite -> Forall_forall in Hq. by apply Hq.
Qed.
Lemma verdict_same n r c : reliable_verdict n r c = Same -> in_reliable c = r.
Proof. unfold reliable_verdict. zcases; congruence || lia. Qed.

(** The command a fragment goes to, and then the fragment. *)
Lemma fragment_collected d taken h m j k s :
  receiving d taken h -> in_window d m -> carries m s -> s ∈ queue h -> in_id s = k ->
  fragmented m = true -> 0 <= j < fragment_count m -> j ∉ in_fragments s ->
  let f := add_fragment (the_fragment m j) (piece m j) in
  exists d', (d <= d')%nat /\ receiving d' taken
    (exec (on_peer i (on_channel id (fun ch => ch <| ch_reliableCommands ::= on_command k f |>)) ;;
           when (in_fragmentsRemaining (f s) <=? 0) (enet_peer_dispatch_incoming_reliable_commands i id None)) h) /\
    (m = d -> in_fragmentsRemaining (f s) <= 0 -> (d < d')%nat).
Proof.
  intros [R Hidle] Hwin Hcar Hin Hk F Hj Hnew f.
  destruct (collect_fragment d (queue h) m j k s (rc_queue _ _ _ R) (rc_ids _ _ _ R) Hin Hk Hcar Hwin F Hj Hnew) as (H1 & H2 & H3).
  rewrite -> exec_bind.
  destruct (set_queue_receives d taken h (fun ch => ch <| ch_reliableCommands ::= on_command k f |>) (on_command k f (queue h)) R)
    as (R' & Eq & _); [done|done| | |].
  { rw H2. apply (rc_ids _ _ _ R). }
  { apply (forall_ids (fun n => n < eh_nextID h) (queue h)); [done|]. apply (rc_fresh _ _ _ R). }
  set (h1 := exec (on_peer i _) h) in *.
  destruct (Z.leb_spec (in_fragmentsRemaining (f s)) 0) as [Hle|Hgt]; cbn [when].
  - destruct (dispatch_reliable_receives d taken None h1 R') as (d' & Hd & Hr & _ & Hno). exists d'. split_and!; [done|done|].
    intros -> _. destruct (decide (d' = d)) as [E%Hno|]; [|lia]. rw Eq in E.
    pose proof (idle_next d _ (f s) E H1 H3 (carries_add_fragment d s j F Hj Hnew Hcar)). lia.
  - exists d. split_and!; [done| |lia]. split; [done|]. change (exec (ret tt) h1) with h1. rw Eq.
    apply idle_head. intros c. unfold on_command.
    destruct (queue h) as [|c0 q] eqn:Eqq; [done|]. intros [= <-]. pose proof (rc_ids _ _ _ R) as Hnd. rw Eqq in Hnd.
    destruct (Z.eqb_spec (in_id c0) k) as [E|].
    + left. assert (Some c0 = Some s) as [= ->]; [|done].
      rewrite <- (command_of_unique k s (c0 :: q) Hnd Hin Hk). symmetry. apply command_of_unique; [done|set_solver|done].
    + by apply (proj1 (idle_head _ _) Hidle).
Qed.
Lemma fragment_arrival junk ev m j d taken h rest :
  receiving d taken h -> near d m -> fragmented m = true -> 0 <= j < fragment_count m ->
  exists d', (d <= d')%nat /\ receiving d' taken (exec (handle_command junk ev i (fragment_command m j) (piece m j ++ rest)) h).
Proof.
  intros R Hn F Hj. unfold handle_command. cbn [fragment_command p_body]. unfold enet_protocol_handle_send_fragment.
  rewrite -> exec_bind. set (h' := exec _ h). cut (exists d', (d <= d')%nat /\ receiving d' taken h'); [done|].
  unfold h'. clear h'. do 2 rewrite -> exec_bind.
  change (exec (gets Datatypes.id) h) with h. change (exec (the_peer i) h) with h.
  change (eval (gets Datatypes.id) h) with h. change (eval (the_peer i) h) with (peer_of h i).
  cbv zeta. cbn [fragment_command h_channelID f_startSequenceNumber the_fragment f_totalLength f_fragmentCount f_fragmentNumber f_dataLength].
  fold (fragment_command m j). fold (the_fragment m j). fold (the_channel h). fold (queue h).
  destruct (may_receive _ _); [|by exists d]. cbn [negb].
  destruct (packet_data _ _ _) as [dt|] eqn:P; [|by exists d]. apply (packet_data_all _ (piece m j)) in P as ->; [|done].
  pose proof R as [RQ _]. rw (rc_number _ _ _ RQ).
  destruct (waits_for _ _) eqn:Hw; [|by exists d]. cbn [negb].
  destruct (bad_fragment _ _); [by exists d|].
  rewrite -> exec_bind. set (start := match place_of _ _ with Place _ _ => _ | Taken s => _ end).
  assert (exists d1, (d <= d1)%nat /\ receiving d1 taken (exec start h) /\ forall k, eval start h = Queued k ->
    in_window d1 m /\ forall s, s ∈ queue (exec start h) -> in_id s = k -> carries m s) as (d1 & Hd1 & R1 & Hs).
  { unfold start. clear start. pose proof (place_in_window d m (queue h)) as Hp.
    pose proof (place_of_cases (reliable_verdict (u16 (before d)) (u16 (first_number m))) (queue h)) as Hc.
    destruct (place_of _ _) as [front back|s].
    - destruct (queue_incoming_receives junk m d taken h (fragment_command m j <| h_reliableSequenceNumber := u16 (first_number m) |>)
        None (zlength (msg m)) ENET_PACKET_FLAG_RELIABLE (fragment_count m)) as (d1 & Hd1 & R1 & Hs & Hq); [done..| |].
      { intros k. by apply carries_fragment_command. }
      exists d1. split_and!; [done|done|]. intros k E. destruct (Hq k E) as (Hwin & _ & Hsame & _).
      pose proof (fragment_count_bounds m F). rewrite -> Hsame by lia. split; [done|]. intros s ? ?. by apply (Hs k).
    - exists d. split_and!; [done|done|]. change (exec (ret ?x) h) with h. intros k E.
      destruct (waits_for_near d m Hn Hw) as [Hwin|Hb].
      + split; [done|]. destruct (Hp Hwin (rc_queue _ _ _ RQ)) as [Hcar Hin]. intros s' Hs' Hid.
        destruct (collects _ _ _); cbn in E; [injection E as <-|done].
        assert (Some s' = Some s) as [= ->]; [|done].
        rewrite <- (command_of_unique (in_id s) s (queue h) (rc_ids _ _ _ RQ) Hin eq_refl). symmetry.
        by apply command_of_unique; [apply (rc_ids _ _ _ RQ)| |].
      + destruct Hc as [Hin Hv]. exfalso. apply (not_in_queue d (queue h) s (rc_queue _ _ _ RQ) Hin).
        rw -Hb. by apply verdict_same in Hv. }
  set (h1 := exec start h) in *. clearbody start.
  destruct (eval start h) as [| |k]; [by exists d1|by exists d1|]. destruct (Hs k eq_refl) as [Hwin Hcar]. clear Hs.
  rewrite -> exec_bind. change (exec (the_peer i) h1) with h1. change (eval (the_peer i) h1) with (peer_of h1 i).
  fold (the_channel h1). fold (queue h1).
  destruct (command_of k (queue h1)) as [s|] eqn:E; [|by exists d1]. apply command_of_in in E as [Hin Hk].
  destruct (bool_decide _) eqn:Hnew; [by exists d1|]. apply bool_decide_eq_false in Hnew.
  destruct (fragment_collected d1 taken h1 m j k s R1 Hwin (Hcar s Hin Hk) Hin Hk F Hj Hnew) as (d' & Hd & R' & _).
  exists d'. split; [lia|]. rewrite -> exec_bind in R'. do 2 rewrite -> exec_bind. exact R'.
Qed.

(** ** All that may happen *)

(** The packets the program was given on the channel. *)
Definition taken_packets (got : list (Z * packet)) : list (Z * packet) := filter (fun x => of_stream x.1 x.2) got.
Definition handed_over (h : enet_host) (got : list (Z * packet)) : nat := length (taken_packets got) + length (waiting h).

(** From [h0]: commands of the stream arrive, in any order, again and again, as long as their numbers are near; the
    program takes what was handed over; and anything else happens that leaves the channel aside. *)
Inductive reaches (h0 : enet_host) : enet_host -> list (Z * packet) -> Prop :=
| reaches_start : reaches h0 h0 []
| reaches_plain h got junk ev m rest :
    reaches h0 h got -> near (handed_over h got) m -> fragmented m = false ->
    reaches h0 (exec (handle_command junk ev i (plain_command m) (msg m ++ rest)) h) got
| reaches_fragment h got junk ev m j rest :
    reaches h0 h got -> near (handed_over h got) m -> fragmented m = true -> 0 <= j < fragment_count m ->
    reaches h0 (exec (handle_command junk ev i (fragment_command m j) (piece m j ++ rest)) h) got
| reaches_take h got x :
    reaches h0 h got -> eval (enet_peer_receive i) h = Some x ->
    reaches h0 (exec (enet_peer_receive i) h) (got ++ [x])
| reaches_other h h' got : reaches h0 h got -> aside h h' -> reaches h0 h' got.

(** A channel of a peer that has just connected. *)
Record just_connected (h : enet_host) : Prop := {
  jc_quiet : quiet h;
  jc_number : ch_incomingReliable (the_channel h) = 0;
  jc_queue : queue h = [];
  jc_waiting : waiting h = []
}.

Lemma receiving_taken d t h : receiving d t h -> d = (t + length (waiting h))%nat.
Proof.
  intros [R _]. pose proof (Forall2_length _ _ _ (rc_waiting _ _ _ R)) as Hl. rw length_seq in Hl.
  pose proof (rc_taken _ _ _ R). lia.
Qed.
Lemma take_receives h got x :
  receiving (length (taken_packets got) + length (waiting h)) (length (taken_packets got)) h ->
  Forall2 (fun m x => pk_data x.2 = msg m) (seq 0 (length (taken_packets got))) (taken_packets got) ->
  eval (enet_peer_receive i) h = Some x ->
  let h' := exec (enet_peer_receive i) h in
  receiving (length (taken_packets (got ++ [x])) + length (waiting h')) (length (taken_packets (got ++ [x]))) h' /\
  Forall2 (fun m x => pk_data x.2 = msg m) (seq 0 (length (taken_packets (got ++ [x])))) (taken_packets (got ++ [x])).
Proof.
  intros R G. unfold enet_peer_receive. rewrite -> exec_bind, eval_bind.
  change (exec (the_peer i) h) with h. change (eval (the_peer i) h) with (peer_of h i).
  destruct (pe_dispatched (peer_of h i)) as [|c l] eqn:Ed; [done|].
  rewrite -> exec_bind, eval_bind. intros [= <-]. set (h1 := exec (on_peer i _) h). cbv zeta.
  change (exec (ret _) h1) with h1. unfold taken_packets. rw !filter_app. fold (taken_packets got).
  pose proof R as [RQ Hidle]. pose proof RQ as [[Qp Qc Qq] R1 R2 R3 R4 R5 R6].
  assert (peer_of h1 i = peer_of h i <| pe_dispatched := l |>
    <| pe_totalWaitingData ::= fun n => size_t (n - pk_length (in_packet c)) |>) as Ep by (by apply peer_of_on_peer).
  assert (the_channel h1 = the_channel h) as Ec by (unfold the_channel; by rw Ep).
  assert (queue h1 = queue h) as Eq by (unfold queue; by rw Ec).
  assert (waiting h1 = filter is_reliable l) as Ew by (unfold waiting; by rw Ep).
  assert (quiet h1) as Hq1 by (split; [cbn; by rw zlength_zalter|by rw Ep|by rw Ec]).
  assert (waiting h = filter is_reliable (c :: l)) as Ew0 by (unfold waiting; by rw Ed).
  destruct (decide (is_reliable c)) as [Hc|Hc].
  - rewrite -> filter_cons_True in Ew0 by done. rewrite -> (filter_cons_True _ _ []) by done. cbn [filter list_filter].
    rw length_app Ew. rw Ew0 in R R6 R1 R2 Hidle. cbn [length] in *.
    set (t := length (taken_packets got)) in *. set (w := length (filter is_reliable l)) in *.
    replace (t + 1 + w)%nat with (t + S w)%nat by lia.
    replace (t + S w - t)%nat with (S w) in R6 by lia. cbn [seq] in R6. apply Forall2_cons in R6 as [Hcar R6].
    split.
    + split; [|by rw Eq]. split; rw ?Ec ?Eq //; [lia|]. rw Ew. replace (t + S w - (t + 1))%nat with w by lia.
      by replace (t + 1)%nat with (S t) by lia.
    + rw seq_app. apply Forall2_app; [done|]. constructor; [|constructor]. destruct Hcar as [Hcar Hcomplete].
      by apply carries_complete.
  - rewrite -> filter_cons_False in Ew0 by done. rewrite -> (filter_cons_False _ _ []) by done. cbn [filter list_filter].
    rw app_nil_r Ew -Ew0. split; [|done]. split; [|by rw Eq]. split; rw ?Ec ?Eq //. by rw Ew -Ew0.
Qed.
Lemma reaches_receiving h0 h got :
  just_connected h0 -> reaches h0 h got ->
  receiving (handed_over h got) (length (taken_packets got)) h /\
  Forall2 (fun m x => pk_data x.2 = msg m) (seq 0 (length (taken_packets got))) (taken_packets got).
Proof.
  intros [J1 J2 J3 J4]. induction 1 as [|h got junk ev m rest _ [R G] Hn F|h got junk ev m j rest _ [R G] Hn F Hj
    |h got x _ [R G] E|h h' got _ [R G] A]; unfold handed_over in *.
  - split; [|constructor]. rw J4. split; [|by rw J3].
    split; rw ?J2 ?J3 ?J4; [done|done|exists []; split_and!; constructor|constructor|constructor|done|constructor].
  - destruct (plain_arrival junk ev m _ _ h rest R Hn F) as (d' & _ & R'). split; [|done].
    pose proof (Forall2_length _ _ _ (rc_waiting _ _ _ (proj1 R'))) as Hl. rw length_seq in Hl.
    pose proof (rc_taken _ _ _ (proj1 R')). by replace (length _ + length _)%nat with d' by lia.
  - destruct (fragment_arrival junk ev m j _ _ h rest R Hn F Hj) as (d' & _ & R'). split; [|done].
    pose proof (Forall2_length _ _ _ (rc_waiting _ _ _ (proj1 R'))) as Hl. rw length_seq in Hl.
    pose proof (rc_taken _ _ _ (proj1 R')). by replace (length _ + length _)%nat with d' by lia.
  - by apply take_receives.
  - destruct (A (rc_quiet _ _ _ (proj1 R))) as [_ U]. rw (unmoved_waiting _ _ U). split; [|done].
    by eapply receiving_aside.
Qed.

(** C3: The packets sent on a reliable channel reach the program in the order in which they were sent, each once and
    with the bytes it was sent with, whether they travel whole or in fragments, and however their commands are
    delayed, repeated, lost and reordered on the way, as long as no command is so old or so new that its number of
    sixteen bits stands for another packet. *)
Theorem reliable_in_order h0 h got :
  just_connected h0 -> reaches h0 h got ->
  map (fun x => pk_data x.2) (taken_packets got) = map msg (seq 0 (length (taken_packets got))).
Proof.
  intros J R. destruct (reaches_receiving h0 h got J R) as [_ G]. generalize dependent (length (taken_packets got)).
  intros n G. induction G as [|m x ms l E _ IH]; simpl; [done|]. by rw E IH.
Qed.

(** ** Nothing is held back *)

Lemma in_window_next d : in_window d d.
Proof. unfold in_window, before. split; [done|lia]. Qed.
Lemma next_is_waited_for d : waits_for (u16 (first_number d)) (u16 (before d)) = true.
Proof.
  apply waits_for_ahead; [done|done|]. destruct (ahead_in_window d d (in_window_next d)) as [-> _]. unfold before. lia.
Qed.
Lemma queue_incoming_next junk d taken h data len flags :
  receiving d taken h -> fragmented d = false -> pe_state (peer_of h i) <> DISCONNECT_LATER ->
  pe_totalWaitingData (peer_of h i) < eh_maximumWaitingData h ->
  eval (enet_peer_queue_incoming_command junk i (plain_command d) data len flags 0) h = Queued (eh_nextID h).
Proof.
  intros [R Hidle] F Hs Hm. unfold enet_peer_queue_incoming_command. do 2 rewrite -> eval_bind.
  change (exec (the_peer i) h) with h. change (eval (the_peer i) h) with (peer_of h i).
  change (exec (gets Datatypes.id) h) with h. change (eval (gets Datatypes.id) h) with h.
  cbv zeta. cbn [plain_command h_channelID]. fold (plain_command d). fold (the_channel h).
  rewrite -> bool_decide_eq_false_2 by done.
  assert (exists front back, queue_place (the_channel h) (plain_command d) = Some (front, back)) as (front & back & ->).
  { unfold queue_place. cbn [plain_command h_reliableSequenceNumber]. rw (rc_number _ _ _ R) next_is_waited_for. fold (queue h).
    change (command_number (plain_command d)) with COMMAND_SEND_RELIABLE. cbn [negb andb Z.eqb].
    change (is_reliable_command COMMAND_SEND_RELIABLE) with true. cbv iota.
    destruct (u16 (first_number d) =? u16 (before d)) eqn:E.
    { apply Z.eqb_eq in E. destruct (ahead_in_window d d (in_window_next d)) as [A ?].
      rw E ahead_u16 Z.sub_diag Zmod_0_l in A. lia. }
    pose proof (place_in_window d d (queue h) (in_window_next d) (rc_queue _ _ _ R)) as P.
    destruct (place_of _ _) as [front back|c]; [by exists front, back|]. destruct P as [Hc Hin]. exfalso.
    pose proof (idle_next d _ c Hidle (rc_queue _ _ _ R) Hin Hc) as Hr.
    rw (carries_remaining d c Hc) fragment_count_zero // in Hr. lia. }
  rewrite -> (proj2 (Z.leb_gt _ _)) by lia. change (0 >? ENET_PROTOCOL_MAXIMUM_FRAGMENT_COUNT) with false. cbv iota.
  do 3 rewrite -> eval_bind. done.
Qed.
(** The bytes of what waits for the program. *)
Definition waiting_bytes (h : enet_host) : list (list Z) := map (fun c => pk_data (in_packet c)) (waiting h).
Lemma receiving_bytes d taken h :
  receiving d taken h -> waiting_bytes h = map msg (seq taken (d - taken)).
Proof.
  intros [R _]. unfold waiting_bytes. induction (rc_waiting _ _ _ R) as [|m c ms cs [Hc Hr] _ IH]; [done|].
  cbn [map]. by rewrite -> IH, (carries_complete m c Hc Hr).
Qed.
Lemma receiving_waits d taken h c :
  receiving d taken h -> c ∈ queue h -> in_reliable c = u16 (first_number d) -> 0 < in_fragmentsRemaining c.
Proof.
  intros [R Hi] Hin E. apply (idle_next d (queue h) c Hi (rc_queue _ _ _ R) Hin).
  destruct (rc_queue _ _ _ R) as (ms & _ & W & C). apply list_elem_of_lookup in Hin as [k Hk].
  destruct (Forall2_lookup_r _ _ _ _ _ C Hk) as (m & Hm & Hcar). pose proof (Forall_lookup_1 _ _ _ _ W Hm) as Wm.
  rw (carries_number m c Hcar) in E. destruct (ahead_in_window d m Wm) as [A _].
  destruct (ahead_in_window d d (in_window_next d)) as [A' _]. rw E A' in A.
  assert (m = d) as ->; [|done].
  destruct (Nat.lt_trichotomy m d) as [Hx|[Hx|Hx]]; [|done|]; apply first_number_lt_iff in Hx; lia.
Qed.
(** A packet that comes whole is put into the queue when the peer may send. *)
Lemma plain_command_queued junk ev d h rest :
  let p := peer_of h i in
  fragmented d = false -> pe_state p = CONNECTED -> id < pe_channelCount p -> zlength (msg d) <= eh_maximumPacketSize h ->
  let q := enet_peer_queue_incoming_command junk i (plain_command d) (Some (msg d)) (zlength (msg d)) ENET_PACKET_FLAG_RELIABLE 0 in
  exec (handle_command junk ev i (plain_command d) (msg d ++ rest)) h = exec q h /\
  eval (handle_command junk ev i (plain_command d) (msg d ++ rest)) h = (was_queued (eval q h), zlength (msg d)).
Proof.
  intros p F Hs Hc Hlen q.
  unfold handle_command, plain_command; cbn [p_body]. fold (plain_command d). unfold enet_protocol_handle_send_reliable.
  rewrite -> !exec_bind, !eval_bind. change (exec (gets Datatypes.id) h) with h. change (exec (the_peer i) h) with h.
  change (eval (gets Datatypes.id) h) with h. change (eval (the_peer i) h) with p.
  assert (may_receive p (h_channelID (plain_command d)) = true) as ->.
  { unfold may_receive. rw Hs. cbn [plain_command h_channelID]. by rewrite -> (proj2 (Z.ltb_lt id _)) by done. }
  cbn [negb].
  assert (packet_data h (zlength (msg d)) (msg d ++ rest) = Some (msg d)) as ->.
  { unfold packet_data. rw !Z.gtb_ltb zlength_app. pose proof (zlength_nonneg rest).
    rewrite -> !(proj2 (Z.ltb_ge _ _)) by lia. cbn. unfold zlength. by rw Nat2Z.id take_app_length. }
  by rewrite -> !exec_bind, !eval_bind.
Qed.
(** C4: After any such arrivals, when the packet that comes next arrives whole, from a peer that is connected and below the limits of the
    host, it is handed over at once, with all that waited for it: behind what was waiting for the program already
    stand its bytes and those of the packets that follow it, in their order up to some packet; no command is lost,
    each that was collected is still collected or handed over; and if anything collected belongs to the packet after
    the last one handed over, fragments of that packet are missing. *)
Theorem next_packet_handed_over h0 h got junk ev rest :
  just_connected h0 -> reaches h0 h got ->
  let d := handed_over h got in let p := peer_of h i in
  fragmented d = false -> pe_state p = CONNECTED -> id < pe_channelCount p ->
  zlength (msg d) <= eh_maximumPacketSize h -> pe_totalWaitingData p < eh_maximumWaitingData h ->
  let h' := exec (handle_command junk ev i (plain_command d) (msg d ++ rest)) h in
  let d' := handed_over h' got in
  (d < d')%nat /\
  eval (handle_command junk ev i (plain_command d) (msg d ++ rest)) h = (true, zlength (msg d)) /\
  waiting_bytes h' = waiting_bytes h ++ map msg (seq d (d' - d)) /\
  (forall c, c ∈ queue h -> c ∈ queue h' \/ c ∈ waiting h') /\
  (forall c, c ∈ queue h' -> in_reliable c = u16 (first_number d') -> 0 < in_fragmentsRemaining c).
Proof.
  intros J Hr d p F Hs Hc Hlen Hw h' d'. destruct (reaches_receiving h0 h got J Hr) as [R _]. fold d in R.
  pose proof (queue_incoming_next junk d _ h (Some (msg d)) (zlength (msg d)) ENET_PACKET_FLAG_RELIABLE R F
    ltac:(fold p; by rw Hs) Hw) as Hq.
  destruct (plain_command_queued junk ev d h rest F Hs Hc Hlen) as [E Ev]. fold h' in E. rw Ev Hq E.
  destruct (queue_incoming_receives junk d d _ h (plain_command d) (Some (msg d)) (zlength (msg d))
    ENET_PACKET_FLAG_RELIABLE 0 R) as (d1 & Hd & R' & _ & Hlt).
  { unfold near, before. lia. }
  { done. }
  { done. }
  { done. }
  { intros k. by apply carries_plain_command. }
  destruct (Hlt _ Hq) as (_ & Hmore & _ & Hpass). rw -E in R' Hpass. rw -E. clearbody h'.
  assert (d' = d1) as -> by (unfold d', handed_over; by rewrite <- (receiving_taken _ _ _ R')). rename d1 into d'.
  split_and!; [by apply Hmore|done| |apply Hpass|intros c; by apply (receiving_waits d' _ h' c R')].
  rewrite -> (receiving_bytes _ _ _ R'), (receiving_bytes _ _ _ R), <- map_app. f_equal.
  pose proof (receiving_taken _ _ _ R) as Et. set (t := length (taken_packets got)) in *.
  replace (d' - t)%nat with ((d - t) + (d' - d))%nat by lia. rewrite -> seq_app. by replace (t + (d - t))%nat with d by lia.
Qed.

(** * The side that sends *)

(** The commands of a packet, with the bytes that follow them. *)
Definition stream_commands (m : nat) : list (protocol * option (list Z)) :=
  if fragmented m then map (fun j => (fragment_command m j, Some (piece m j))) (seqZ 0 (fragment_count m))
  else [(plain_command m, Some (msg m))].
Definition on_wire (o : outgoing) : protocol * option (list Z) := (out_command o, packet_bytes o).

Lemma fragment_list_seq fuel number s total :
  0 < s -> 0 <= number -> (number + Z.of_nat fuel) * s < total + s -> total <= (number + Z.of_nat fuel) * s ->
  fragment_list fuel number (number * s) s total =
    map (fun j => (j, j * s, Z.min s (total - j * s))) (seqZ number (Z.of_nat fuel)).
Proof.
  revert number. induction fuel as [|fuel IH]; intros number Hs Hn H1 H2; [done|].
  rewrite -> seqZ_cons by lia. cbn [fragment_list map]. rewrite -> (proj2 (Z.ltb_lt _ _)) by nia.
  replace (Z.pred (Z.of_nat (S fuel))) with (Z.of_nat fuel) by lia. unfold Z.succ.
  destruct (Z.ltb_spec (total - number * s) s) as [Hlast|Hmore].
  - rewrite -> Z.min_r by lia. f_equal. assert (fuel = 0%nat) as -> by nia. done.
  - rewrite -> Z.min_l by lia. f_equal. rewrite <- IH by (lia || nia). f_equal. lia.
Qed.
Lemma fragments_of_message m :
  fragmented m = true ->
  fragments_of (step m) (zlength (msg m)) =
    map (fun j => (j, j * step m, zlength (piece m j))) (seqZ 0 (fragment_count m)).
Proof.
  intros F. pose proof (fragment_count_bounds m F) as [Hc1 Hc2]. pose proof (stream_step m).
  unfold fragments_of. unfold fragment_count in *. rw F in Hc1 Hc2 |- *.
  set (n := (zlength (msg m) + step m - 1) / step m) in *.
  rewrite -> (fragment_list_seq (Z.to_nat n) 0 (step m)) by nia. rewrite -> Z2Nat.id by lia.
  apply list_fmap_ext. intros k j Hj%list_elem_of_lookup_2%elem_of_seqZ. do 2 f_equal.
  unfold piece, zlength. rw length_take length_drop. unfold zlength in *. nia.
Qed.

(** Queueing a reliable command gives it the next number. *)
Lemma setup_reliable o p n :
  0 <= id < zlength (pe_channels p) -> ch_outgoingReliable (channel_of p id) = u16 n ->
  h_channelID (out_command o) = id -> acknowledged (out_command o) = true ->
  (forall u g, numbered u g (p_body (out_command o)) = p_body (out_command o)) ->
  let p' := enet_peer_setup_outgoing_command o p in
  zlength (pe_channels p') = zlength (pe_channels p) /\ ch_outgoingReliable (channel_of p' id) = u16 (n + 1) /\
  map on_wire (pe_outgoing p') = map on_wire (pe_outgoing p) ++
    [(out_command o <| h_reliableSequenceNumber := u16 (n + 1) |>, packet_bytes o)].
Proof.
  intros Hid Hn Hc Ha Hb. unfold enet_peer_setup_outgoing_command. rw Hc Ha.
  pose proof stream_channel as Hch. rewrite -> (proj2 (Z.eqb_neq id 0xFF)) by lia. cbv zeta beta iota.
  set (p1 := p <| pe_outgoingDataTotal ::= _ |>).
  assert (forall f, channel_of (on_channel id f p1) id = f (channel_of p id)) as Hch1.
  { intros f. rewrite -> channel_of_on_channel by done. done. }
  rw Hch1. cbn [ch_outgoingReliable]. cbn -[on_wire channel_of Z.modulo]. split_and!.
  - by rw zlength_zalter.
  - pose proof (Hch1 (fun ch => ch <| ch_outgoingReliable ::= fun n => u16 (n + 1) |> <| ch_outgoingUnreliable := 0 |>)) as E.
    unfold channel_of in *. cbn in E |- *. rw E. cbn. by rw Hn u16_add.
  - rw map_app. f_equal. cbn. unfold on_wire, packet_bytes. cbn. rw Hn u16_add Hb. do 2 f_equal.
    destruct (out_command o). cbn in *. by rw Hc.
Qed.
(** The packet queued as an outgoing fragment. *)
Definition outgoing_fragment (pk : packet) (m : nat) (j : Z) : outgoing :=
  mkoutgoing 0 0 0 0 0 (j * step m) (zlength (piece m j)) 0
    (fragment_command m j <| h_reliableSequenceNumber := 0 |>) (Some pk).
Lemma setup_fragments pk m n j p :
  fragmented m = true -> pk_data pk = msg m -> 0 <= j -> j + Z.of_nat n <= fragment_count m ->
  0 <= id < zlength (pe_channels p) -> ch_outgoingReliable (channel_of p id) = u16 (before m + j) ->
  let p' := fold_left (fun p o => enet_peer_setup_outgoing_command o p)
              (map (outgoing_fragment pk m) (seqZ j (Z.of_nat n))) p in
  ch_outgoingReliable (channel_of p' id) = u16 (before m + j + Z.of_nat n) /\
  map on_wire (pe_outgoing p') = map on_wire (pe_outgoing p) ++
    map (fun j => (fragment_command m j, Some (piece m j))) (seqZ j (Z.of_nat n)).
Proof.
  intros F Hpk. revert j p. induction n as [|n IH]; intros j p Hj Hn Hid Hch.
  { cbn. rw Hch app_nil_r. split; [f_equal; lia|done]. }
  rewrite -> seqZ_cons by lia. replace (Z.pred (Z.of_nat (S n))) with (Z.of_nat n) by lia. cbn [map fold_left].
  destruct (setup_reliable (outgoing_fragment pk m j) p (before m + j) Hid Hch) as (H1 & H2 & H3); [done|done|done|].
  destruct (IH (Z.succ j) (enet_peer_setup_outgoing_command (outgoing_fragment pk m j) p)) as [IH1 IH2].
  { lia. }
  { lia. }
  { lia. }
  { rw H2. f_equal. lia. }
  cbv zeta in *. rw IH1 IH2 H3 -app_assoc. split; [f_equal; lia|]. f_equal. cbn [app]. f_equal.
  replace (before m + j + 1) with (first_number m + j) by (unfold before; lia). f_equal.
  unfold packet_bytes, outgoing_fragment. cbn -[piece]. rw Hpk. f_equal.
  destruct (piece_bounds m j F ltac:(lia)) as (Hb1 & Hb2 & _).
  assert (0 <= j * step m) by (pose proof (stream_step m); nia).
  apply list_eq. intros k. destruct (decide (k < length (piece m j))%nat) as [Hk|Hk].
  - unfold zlength. rw Nat2Z.id lookup_take_lt; [|done]. rw lookup_drop. unfold piece in Hk |- *.
    rw length_take in Hk. rw lookup_take_lt ?lookup_drop; [done|lia].
  - rewrite -> !lookup_ge_None_2; [done|lia|]. rw length_take length_drop. unfold zlength. lia.
Qed.

(** A reliable packet is sent as the next packet of the stream of its channel: as one command with all its bytes
    or, when it does not fit a datagram, as fragments that together have them, with the numbers that come next. *)
Theorem packet_joins_stream maximum m pk p :
  pe_state p = CONNECTED -> 0 <= id < pe_channelCount p -> id < zlength (pe_channels p) ->
  pk_length pk <= maximum -> Z.testbit (pk_flags pk) 0 = true ->
  pk_data pk = msg m -> step m = pe_mtu p - 28 -> ch_outgoingReliable (channel_of p id) = u16 (before m) ->
  let '(sent, p') := enet_peer_send maximum id pk p in
  sent = true /\ ch_outgoingReliable (channel_of p' id) = u16 (before (S m)) /\
  map on_wire (pe_outgoing p') = map on_wire (pe_outgoing p) ++ stream_commands m.
Proof.
  intros Hs Hc Hch Hlen Hflag Hpk Hstep Hn. unfold enet_peer_send. rw Hs. rewrite -> bool_decide_eq_true_2 by done.
  rewrite -> (proj2 (Z.leb_gt _ _)) by lia. rw !Z.gtb_ltb. rewrite -> (proj2 (Z.ltb_ge maximum _)) by lia. cbn [negb orb].
  assert (forall k, Z.testbit k 0 = false -> (Z.land (pk_flags pk) (Z.lor ENET_PACKET_FLAG_RELIABLE k) =? k) = false) as Hland.
  { intros k Hk. apply Z.eqb_neq. intros E. apply (f_equal (fun z => Z.testbit z 0)) in E.
    rw Z.land_spec Z.lor_spec Hflag Hk in E. done. }
  rw !Hland //. cbn [andb]. pose proof (stream_step m) as Hst. pose proof (stream_count m) as Hcount.
  replace (pe_mtu p - 4 - 24) with (step m) by lia. unfold pk_length in *. rw Hpk in Hlen |- *.
  unfold stream_commands. replace (before (S m)) with (before m + span m) by (unfold before; cbn [first_number]; lia).
  unfold span. destruct (fragmented m) eqn:F.
  - pose proof (fragment_count_bounds m F) as [Hf1 Hf2].
    assert (fragment_count m = (zlength (msg m) + step m - 1) / step m) as Ec by (unfold fragment_count; by rw F).
    assert (fragment_count m < 2 ^ 32) by (unfold ENET_PROTOCOL_MAXIMUM_FRAGMENT_COUNT in Hcount; lia).
    unfold fragmented in F. rw Z.gtb_ltb in F. rw F -Ec. unfold u32. rewrite -> Z.mod_small by lia.
    rewrite -> (proj2 (Z.ltb_ge _ _)) by lia. rw -Z.gtb_ltb in F. change (fragmented m = true) in F.
    rw fragments_of_message // map_map.
    destruct (setup_fragments pk m (Z.to_nat (fragment_count m)) 0 p F Hpk) as [S1 S2]; [lia|lia|lia| |].
    { rw Hn. f_equal. lia. }
    rewrite -> Z2Nat.id in S1, S2 by lia.
    match goal with |- context [map ?f (seqZ 0 (fragment_count m))] =>
      rewrite -> (map_ext_in f (outgoing_fragment pk m)) end.
    { rw S1 S2. split_and!; [done|f_equal; lia|done]. }
    intros j Hj%list_elem_of_In%elem_of_seqZ. destruct (piece_bounds m j F ltac:(lia)) as (_ & Hb & _).
    unfold outgoing_fragment, fragment_command, the_fragment. cbn. rw Hn u16_add.
    replace (u16 (zlength (piece m j))) with (zlength (piece m j)) by (symmetry; apply Z.mod_small; lia).
    replace (before m + 1) with (first_number m) by (unfold before; lia). done.
  - unfold fragmented in F. rw Z.gtb_ltb in F. rw F Hflag. cbn [orb]. apply Z.ltb_ge in F.
    unfold enet_peer_queue_outgoing_command. set (o := mkoutgoing _ _ _ _ _ _ _ _ _ _).
    destruct (setup_reliable o p (before m)) as (_ & S1 & S2); [lia|done|done|done|done|].
    split_and!; [done|rw S1; f_equal; lia|]. rw S2. f_equal. unfold o, packet_bytes, plain_command. cbn.
    replace (before m + 1) with (first_number m) by (unfold before; lia). do 2 f_equal.
    pose proof (zlength_nonneg (msg m)).
    replace (u16 (zlength (msg m))) with (zlength (msg m)) by (symmetry; apply Z.mod_small; lia).
    rw Hpk drop_0. f_equal. apply take_ge. unfold zlength. lia.
Qed.
End stream.

(** * A stream of two packets, the first in two fragments *)

Definition sample_message (m : nat) : list Z := match m with O => [1; 2; 3; 4; 5] | _ => [Z.of_nat m] end.
Definition sample_step (_ : nat) : Z := 3.
#[export] Instance sample_stream : Stream 0 sample_message sample_step.
Proof. split; [done| |done]. intros [|m]; done. Qed.
(** A host with one peer, which has a channel. *)
Definition sample_host : enet_host :=
  mkenet_host 0 0 0 1400 0 false
    [reset_peer 1400 no_peer <| pe_state := CONNECTED |> <| pe_channels := [empty_channel] |> <| pe_channelCount := 1 |>]
    1 0 [] false 0 0 0 [] (0, 0) 0 0 0 0 1 0 4095 None 1024 1024 NoEvent 0 [] [] [] [].
Lemma sample_connected : just_connected 0 0 sample_host.
Proof. split; [split; [done|done|constructor]|done|done|done]. Qed.
(** The second packet comes first, then the second fragment of the first packet, twice, and the first fragment. *)
Definition sample_arrivals : list (protocol * list Z) :=
  [(plain_command 0 sample_message sample_step 1, [1]);
   (fragment_command 0 sample_message sample_step 0 1, [4; 5]);
   (fragment_command 0 sample_message sample_step 0 1, [4; 5]);
   (fragment_command 0 sample_message sample_step 0 0, [1; 2; 3])].
Fixpoint arrive (l : list (protocol * list Z)) (h : enet_host) : enet_host :=
  match l with
  | [] => h
  | (c, data) :: l => arrive l (exec (handle_command 0xAA true 0 c data) h)
  end.
Definition take_one (h : enet_host) : enet_host := exec (enet_peer_receive 0) h.
Lemma sample_reached :
  reaches 0 sample_message sample_step 0 sample_host (arrive sample_arrivals sample_host) [].
Proof.
  unfold sample_arrivals. cbn [arrive].
  apply (reaches_fragment 0 sample_message sample_step 0 sample_host _ [] 0xAA true 0 0 []);
    [|vm_compute; split; congruence|done|done].
  apply (reaches_fragment 0 sample_message sample_step 0 sample_host _ [] 0xAA true 0 1 []);
    [|vm_compute; split; congruence|done|done].
  apply (reaches_fragment 0 sample_message sample_step 0 sample_host _ [] 0xAA true 0 1 []);
    [|vm_compute; split; congruence|done|done].
  apply (reaches_plain 0 sample_message sample_step 0 sample_host _ [] 0xAA true 1 []);
    [|vm_compute; split; congruence|done].
  apply reaches_start.
Qed.
Definition sample_got : list (Z * packet) :=
  [(0, mkpacket ENET_PACKET_FLAG_RELIABLE [1; 2; 3; 4; 5]); (0, mkpacket ENET_PACKET_FLAG_RELIABLE [1])].
Lemma sample_taken :
  reaches 0 sample_message sample_step 0 sample_host (take_one (take_one (arrive sample_arrivals sample_host))) sample_got.
Proof.
  apply (reaches_take _ _ _ _ _ _ [(0, mkpacket ENET_PACKET_FLAG_RELIABLE [1; 2; 3; 4; 5])]); [|vm_compute; done].
  apply (reaches_take _ _ _ _ _ _ []); [apply sample_reached|vm_compute; done].
Qed.
Lemma reliable_in_order_witness :
  map (fun x => pk_data x.2) (taken_packets 0 sample_got) = [[1; 2; 3; 4; 5]; [1]].
Proof.
  exact (reliable_in_order 0 sample_message sample_step 0 sample_host _ sample_got sample_connected sample_taken).
Defined.
(** The next packet arrives after the one that follows it. *)
Definition sample_early : enet_host :=
  exec (handle_command 0 true 0 (plain_command 0 sample_message sample_step 3) [3]) (arrive sample_arrivals sample_host).
Lemma next_packet_handed_over_witness :
  let h' := exec (handle_command 0 true 0 (plain_command 0 sample_message sample_step 2) [2]) sample_early in
  handed_over 0 0 sample_early [] = 2%nat /\ handed_over 0 0 h' [] = 4%nat /\
  waiting_bytes 0 0 h' = [[1; 2; 3; 4; 5]; [1]] ++ map sample_message (seq 2 2).
Proof.
  intros h'. split; [vm_compute; done|]. split; [vm_compute; done|].
  assert (reaches 0 sample_message sample_step 0 sample_host sample_early []) as Hr.
  { apply (reaches_plain 0 sample_message sample_step 0 sample_host _ [] 0 true 3 []);
      [apply sample_reached|vm_compute; split; congruence|done]. }
  destruct (next_packet_handed_over 0 sample_message sample_step 0 sample_host sample_early [] 0 true [] sample_connected Hr)
    as (_ & _ & H & _); [vm_compute; done..|exact H].
Defined.
Lemma packet_joins_stream_witness :
  map on_wire (pe_outgoing (enet_peer_send 1024 0 (mkpacket ENET_PACKET_FLAG_RELIABLE [1; 2; 3; 4; 5])
    (peer_of sample_host 0 <| pe_mtu := 31 |>)).2) = stream_commands 0 sample_message sample_step 0.
Proof.
  pose proof (packet_joins_stream 0 sample_message sample_step 1024 0 (mkpacket ENET_PACKET_FLAG_RELIABLE [1; 2; 3; 4; 5])
    (peer_of sample_host 0 <| pe_mtu := 31 |>)) as H.
  destruct (enet_peer_send _ _ _ _) as [sent p']. apply H; done.
Defined.
