(* ===== verification/Enetbooks.v ===== *)
(** ENet: the books of the host.

    The host counts its connected peers, and those among them that announced a limit of their bandwidth, as they come
    and go; the sharing of the bandwidth divides by these numbers.  Here: whatever a host does, they are right. *)
From S2P Require Import Prelude Enet Peer Protocol.

#[local] Open Scope list_scope.

(** * Counting *)

Definition b2z (b : bool) : Z := if b then 1 else 0.
Fixpoint count (f : peer -> bool) (l : list peer) : Z := match l with [] => 0 | p :: l => b2z (f p) + count f l end.
Definition connected (p : peer) : bool := is_connected (pe_state p).
Definition limited (p : peer) : bool := connected p && negb (pe_incomingBandwidth p =? 0).

Lemma count_bounds f l : 0 <= count f l <= zlength l.
Proof. unfold zlength. induction l as [|p l IH]; simpl; [done|]. destruct (f p); simpl; lia. Qed.
Lemma count_map f g l : (forall p, f (g p) = f p) -> count f (map g l) = count f l.
Proof. intros Hg. induction l as [|p l IH]; simpl; [done|]. by rw Hg IH. Qed.
Lemma count_alter f g (k : nat) l p : l !! k = Some p -> count f (alter g k l) = count f l - b2z (f p) + b2z (f (g p)).
Proof.
  revert k. induction l as [|q l IH]; intros k; [done|]. destruct k as [|k].
  - intros [= ->]. cbn. lia.
  - intros Hk. specialize (IH k Hk). change (alter g (S k) (q :: l)) with (q :: alter g k l). cbn [count]. lia.
Qed.
Lemma count_zalter f g i l :
  0 <= i < zlength l -> count f (zalter g i l) = count f l - b2z (f (default no_peer (l .! i))) + b2z (f (g (default no_peer (l .! i)))).
Proof.
  intros Hi. pose proof (proj2 (zlookup_is_Some l i) Hi) as [p Hp]. rw Hp. cbn [default].
  unfold zalter, zlookup in *. rewrite -> (proj2 (Z.leb_le 0 i)) in * by lia. by apply count_alter.
Qed.
Lemma zalter_outside {A} (g : A -> A) i l : ~ 0 <= i < zlength l -> zalter g i l = l.
Proof.
  intros Hi. unfold zalter. destruct (Z.leb_spec 0 i) as [H|H]; [|done].
  unfold zlength in Hi. assert (length l <= Z.to_nat i)%nat by lia.
  apply list_eq. intros k. destruct (decide (k = Z.to_nat i)) as [->|].
  - rw list_lookup_alter_eq. by rewrite -> lookup_ge_None_2.
  - by rw list_lookup_alter_ne.
Qed.

(** * What leaves the state and the bandwidth of a peer alone *)

Definition steady (p q : peer) : Prop := pe_state q = pe_state p /\ pe_incomingBandwidth q = pe_incomingBandwidth p.
#[export] Instance steady_preorder : PreOrder steady.
Proof. split; [done|]. intros p q r [? ?] [? ?]. split; congruence. Qed.
Lemma steady_counts p q : steady p q -> connected q = connected p /\ limited q = limited p.
Proof. intros [E1 E2]. unfold limited, connected. by rw E1 E2. Qed.

Lemma steady_on_channel id f p : steady p (on_channel id f p).
Proof. done. Qed.
Lemma steady_setup o p : steady p (enet_peer_setup_outgoing_command o p).
Proof.
  unfold enet_peer_setup_outgoing_command. cbv zeta. destruct (_ =? 0xFF); [done|].
  destruct (acknowledged _); [done|]. destruct (unsequenced _); [done|]. by destruct (_ =? 0).
Qed.
Lemma steady_queue c pk offset len p : steady p (enet_peer_queue_outgoing_command c pk offset len p).
Proof. apply steady_setup. Qed.
Lemma steady_send maximum id pk p : steady p (enet_peer_send maximum id pk p).2.
Proof.
  unfold enet_peer_send. destruct (_ || _); [done|]. destruct (_ >? _); [|apply steady_queue].
  destruct (_ >? _); [done|]. cbn [snd]. generalize (fragments_of (pe_mtu p - 4 - 24) (pk_length pk)).
  intros l. match goal with |- context [map ?f l] => generalize (map f l) end. clear l. intros l.
  revert p. induction l as [|o l IH]; intros p; cbn [fold_left]; [done|].
  etransitivity; [apply steady_setup|apply IH].
Qed.
Lemma steady_ping p : steady p (enet_peer_ping p).
Proof. unfold enet_peer_ping. destruct (bool_decide _); [apply steady_queue|done]. Qed.
Lemma steady_acknowledgement c t p : steady p (enet_peer_queue_acknowledgement c t p).
Proof. unfold enet_peer_queue_acknowledgement. by destruct (_ && _). Qed.
Lemma steady_throttle rtt p : steady p (enet_peer_throttle rtt p).
Proof. unfold enet_peer_throttle. destruct (_ <=? _); [done|]. destruct (_ <=? _); [done|]. by destruct (_ >? _). Qed.
Lemma steady_measure rtt p : steady p (measure rtt p).
Proof.
  unfold measure. destruct (_ >? 0); [|done]. pose proof (steady_throttle rtt p). by destruct (_ <=? rtt).
Qed.
Lemma steady_epoch now p : steady p (throttle_epoch now p).
Proof. unfold throttle_epoch. by destruct (_ || _). Qed.
Lemma steady_remove number id p : steady p (enet_protocol_remove_sent_reliable_command number id p).2.
Proof.
  unfold enet_protocol_remove_sent_reliable_command. destruct (take_first _ _) as [[o l]|].
  - destruct (_ <? _), (_ && _); cbn; by destruct l.
  - destruct (take_resent _ _ _) as [[o l]|]; [|done]. cbn. destruct (_ <? _); cbn; by destruct (pe_sentReliable p).
Qed.
Lemma steady_losses now p : steady p (count_losses now p).
Proof. unfold count_losses. destruct (_ =? 0); [done|]. by destruct (_ && _). Qed.
Lemma steady_reliably now o p : steady p (send_reliably now o p).
Proof. unfold send_reliably. cbv zeta. by destruct (_ && _), (is_empty _). Qed.
Lemma steady_timeouts now l kept moved waiting p : steady p (timeouts now l kept moved waiting p).2.
Proof.
  revert kept moved p. induction l as [|o l IH]; intros kept moved p; cbn [timeouts]; [done|].
  destruct (_ <? _); [apply IH|]. destruct (_ && _); [done|].
  etransitivity; [|apply IH]. destruct (out_packet o), kept, l; done.
Qed.
Lemma steady_limit limit p : steady p (limit_throttle limit p).
Proof. done. Qed.
Lemma steady_bandwidth outgoing now limit p : steady p (send_bandwidth_limit outgoing now limit p).
Proof. unfold send_bandwidth_limit. destruct (is_connected _); [apply steady_queue|done]. Qed.
Create HintDb steady.
#[export] Hint Resolve steady_on_channel steady_setup steady_queue steady_send steady_ping steady_acknowledgement
  steady_remove steady_losses steady_reliably steady_timeouts steady_bandwidth : steady.

(** * The invariant *)

Section books.
Context (n : Z) (Hn : n <= ENET_PROTOCOL_MAXIMUM_PEER_ID).

Record books (h : enet_host) : Prop := {
  books_peers : zlength (eh_peers h) = n;
  books_connected : eh_connectedPeers h = count connected (eh_peers h);
  books_limited : eh_bandwidthLimitedPeers h = count limited (eh_peers h);
  books_queue : Forall (fun i => 0 <= i < n) (eh_dispatchQueue h);
  books_inbox : Forall (fun r => match r with Received _ l => Forall is_uchar l | ReceiveError => True end) (eh_inbox h)
}.
Abbreviation keeps := (respects (inv_rel books)).

Lemma the_peer_books i : keeps (the_peer i).
Proof. apply respects_gets. apply _. Qed.
Lemma the_state_books i : keeps (the_state i).
Proof. apply respects_gets. apply _. Qed.
#[local] Hint Resolve the_peer_books the_state_books : respects.
Lemma on_host_books f :
  (forall h, eh_peers (f h) = eh_peers h /\ eh_connectedPeers (f h) = eh_connectedPeers h /\
     eh_bandwidthLimitedPeers (f h) = eh_bandwidthLimitedPeers h /\
     (Forall (fun i => 0 <= i < n) (eh_dispatchQueue h) -> Forall (fun i => 0 <= i < n) (eh_dispatchQueue (f h))) /\
     eh_inbox (f h) = eh_inbox h) ->
  keeps (modify f).
Proof. intros Hf h [B1 B2 B3 B4 B5]. destruct (Hf h) as (E1 & E2 & E3 & E4 & E5). cbn. split; rw ?E1 ?E2 ?E3 ?E5; auto. Qed.
Lemma on_peer_books i g : (forall p, connected (g p) = connected p /\ limited (g p) = limited p) -> keeps (on_peer i g).
Proof.
  intros Hg h [B1 B2 B3 B4 B5]. change (exec (on_peer i g) h) with (h <| eh_peers ::= zalter g i |>).
  destruct (decide (0 <= i < zlength (eh_peers h))) as [Hi|Hi].
  - split; cbn; rw ?zlength_zalter ?count_zalter ?(proj1 (Hg _)) ?(proj2 (Hg _)) //; lia.
  - split; cbn; rw ?zalter_outside //.
Qed.
Lemma every_peer_books g : (forall p, connected (g p) = connected p /\ limited (g p) = limited p) -> keeps (every_peer g).
Proof.
  intros Hg h [B1 B2 B3 B4 B5]. change (exec (every_peer g) h) with (h <| eh_peers ::= map g |>).
  split; cbn; [unfold zlength in *; by rw length_map| | |done|done]; rw count_map //; intros p; apply Hg.
Qed.

(** ** Changing the state of a peer *)

(** A peer that joins or leaves, counted first. *)
Lemma move_books i (b : bool) g :
  0 <= i < n ->
  (forall p, connected (g p) = b /\ limited (g p) = b && negb (pe_incomingBandwidth p =? 0)) ->
  keeps ((if b then enet_peer_on_connect i else enet_peer_on_disconnect i) ;; on_peer i g).
Proof.
  intros Hi Hg h [B1 B2 B3 B4 B5]. pose proof Hi as Hi'. rw -B1 in Hi'.
  pose proof (count_bounds connected (zalter g i (eh_peers h))) as Hc.
  pose proof (count_bounds limited (zalter g i (eh_peers h))) as Hl.
  destruct (Hg (peer_of h i)) as [G1 G2].
  rw !count_zalter // zlength_zalter in Hc Hl. fold (peer_of h i) in Hc, Hl. rw G1 in Hc. rw G2 in Hl.
  rewrite -> exec_bind. set (h1 := exec _ h). change (exec (on_peer i g) h1) with (h1 <| eh_peers ::= zalter g i |>).
  assert (eh_peers h1 = eh_peers h /\ eh_dispatchQueue h1 = eh_dispatchQueue h /\ eh_inbox h1 = eh_inbox h /\
    eh_connectedPeers h1 = eh_connectedPeers h + b2z b - b2z (connected (peer_of h i)) /\
    eh_bandwidthLimitedPeers h1 = eh_bandwidthLimitedPeers h
      + b2z (b && negb (pe_incomingBandwidth (peer_of h i) =? 0)) - b2z (limited (peer_of h i))) as (E1 & E2 & E3 & E4 & E5).
  { unfold h1. clear h1. unfold ENET_PROTOCOL_MAXIMUM_PEER_ID in Hn. unfold limited, connected in *.
    destruct b; unfold enet_peer_on_connect, enet_peer_on_disconnect; rewrite -> exec_bind;
      change (eval (the_peer i) h) with (peer_of h i); change (exec (the_peer i) h) with h;
      destruct (is_connected (pe_state (peer_of h i))) eqn:Ep;
      destruct (pe_incomingBandwidth (peer_of h i) =? 0) eqn:Eb; cbn; cbn in Hc, Hl; unfold size_t;
      rewrite -> ?Z.mod_small by lia; split_and!; done || lia. }
  split; cbn; rw ?E1 ?E2 ?E3 ?E4 ?E5 ?zlength_zalter ?count_zalter //; fold (peer_of h i); rw ?G1 ?G2; lia.
Qed.
Lemma change_state_books i s : 0 <= i < n -> keeps (enet_protocol_change_state i s).
Proof. intros Hi. by apply (move_books i (is_connected s)). Qed.
Lemma leave_books i : 0 <= i < n -> keeps (enet_peer_on_disconnect i ;; on_peer i (fun p => p <| pe_state := DISCONNECTING |>)).
Proof. intros Hi. by apply (move_books i false). Qed.
Lemma needs_dispatch_books i : 0 <= i < n -> keeps (needs_dispatch i).
Proof.
  intros Hi. unfold needs_dispatch. solve_respects; [|by apply on_peer_books].
  apply on_host_books. intros h. split_and!; [done|done|done| |done]. cbn. intros. rewrite -> Forall_app, Forall_singleton. done.
Qed.
Lemma reset_queues_books i : keeps (enet_peer_reset_queues i).
Proof.
  unfold enet_peer_reset_queues. solve_respects; try by apply on_peer_books.
  apply on_host_books. intros h. split_and!; [done|done|done| |done]. cbn. intros Hf.
  rewrite -> Forall_forall in *. intros x [_ Hx]%list_elem_of_filter. auto.
Qed.
Lemma reset_books i : 0 <= i < n -> keeps (enet_peer_reset i).
Proof.
  intros Hi h. unfold enet_peer_reset. do 2 rewrite -> exec_bind. set (h1 := exec (enet_peer_on_disconnect i) h).
  rewrite -> exec_bind. set (mtu := eval (gets eh_mtu) h1). change (exec (gets eh_mtu) h1) with h1.
  transitivity (exec (on_peer i (reset_peer mtu)) h1).
  - pose proof (move_books i false (reset_peer mtu) Hi ltac:(done) h) as Hm. by rewrite -> exec_bind in Hm.
  - apply (respects_bind (inv_rel books)); [by apply on_peer_books|]. intros _. apply reset_queues_books.
Qed.
Lemma on_peer_steady i g : (forall p, steady p (g p)) -> keeps (on_peer i g).
Proof. intros Hg. apply on_peer_books. intros p. by apply steady_counts. Qed.
Lemma every_peer_steady g : (forall p, steady p (g p)) -> keeps (every_peer g).
Proof. intros Hg. apply every_peer_books. intros p. by apply steady_counts. Qed.
(** A change of a peer from a known state. *)
Lemma on_peer_at i g h :
  connected (g (peer_of h i)) = connected (peer_of h i) -> limited (g (peer_of h i)) = limited (peer_of h i) ->
  inv_rel books h (exec (on_peer i g) h).
Proof.
  intros E1 E2 [B1 B2 B3 B4 B5]. change (exec (on_peer i g) h) with (h <| eh_peers ::= zalter g i |>).
  destruct (decide (0 <= i < zlength (eh_peers h))) as [Hi|Hi].
  - split; cbn; rw ?zlength_zalter ?count_zalter //; fold (peer_of h i); rw ?E1 ?E2; lia.
  - split; cbn; rw ?zalter_outside //.
Qed.

(** What a step must be shown to keep: the tables of the host, or the state of a peer. *)
Ltac books_step :=
  lazymatch goal with
  | |- respects _ (on_host _) => apply on_host_books; intros; split_and!; done
  | |- respects _ (modify _) => apply on_host_books; intros; split_and!; done
  | |- respects _ (on_peer _ _) => apply on_peer_steady; intros; solve [done | eauto with steady]
  | |- respects _ (every_peer _) => apply every_peer_steady; intros; solve [done | eauto with steady]
  end.
Ltac solve_books := repeat first [by apply leave_books | books_step | respects_step | progress eauto with respects].
#[local] Hint Resolve change_state_books needs_dispatch_books reset_queues_books reset_books : respects.

Lemma dispatch_state_books i s : 0 <= i < n -> keeps (enet_protocol_dispatch_state i s).
Proof. intros Hi. unfold enet_protocol_dispatch_state. solve_books. Qed.
#[local] Hint Resolve dispatch_state_books : respects.
Lemma receive_books i : keeps (enet_peer_receive i).
Proof. unfold enet_peer_receive. solve_books. Qed.
#[local] Hint Resolve receive_books : respects.
Lemma notify_connect_books ev i : 0 <= i < n -> keeps (enet_protocol_notify_connect ev i).
Proof. intros Hi. unfold enet_protocol_notify_connect. solve_books. Qed.
Lemma notify_disconnect_books ev i : 0 <= i < n -> keeps (enet_protocol_notify_disconnect ev i).
Proof. intros Hi. unfold enet_protocol_notify_disconnect. solve_books. Qed.
#[local] Hint Resolve notify_connect_books notify_disconnect_books : respects.
Lemma disconnect_books flush i data : 0 <= i < n -> keeps flush -> keeps (disconnect_with flush i data).
Proof.
  intros Hi Hf. unfold disconnect_with. solve_books.
Qed.
Lemma disconnect_when_sent_books i sent : 0 <= i < n -> keeps (disconnect_when_sent i sent).
Proof. intros Hi. unfold disconnect_when_sent. solve_books. apply disconnect_books; [done|]. solve_books. Qed.
#[local] Hint Resolve disconnect_when_sent_books : respects.
Lemma remove_unreliable_books i : 0 <= i < n -> keeps (enet_protocol_remove_sent_unreliable_commands i).
Proof. intros Hi. unfold enet_protocol_remove_sent_unreliable_commands. solve_books. Qed.
#[local] Hint Resolve remove_unreliable_books : respects.

(** ** Sending *)

Lemma send_acknowledgements_books i l : 0 <= i < n -> keeps (send_acknowledgements i l).
Proof. intros Hi. induction l as [|a l IH]; cbn [send_acknowledgements]; solve_books. Qed.
Lemma check_timeouts_books ev i : 0 <= i < n -> keeps (enet_protocol_check_timeouts ev i).
Proof.
  intros Hi h. unfold enet_protocol_check_timeouts. do 2 rewrite -> exec_bind.
  change (exec (gets eh_serviceTime) h) with h. change (exec (the_peer i) h) with h.
  change (eval (the_peer i) h) with (peer_of h i).
  pose proof (steady_timeouts (eval (gets eh_serviceTime) h) (pe_sentReliable (peer_of h i)) [] [] (pe_outgoing (peer_of h i)) (peer_of h i)) as Hs.
  destruct (timeouts _ _ _ _ _ _) as [late p]. apply steady_counts in Hs as [H1 H2].
  apply (respects_bind_at (inv_rel books)); [by apply on_peer_at|]. intros _. solve_books.
Qed.
#[local] Hint Resolve send_acknowledgements_books check_timeouts_books : respects.
Lemma send_loop_books i l kept dropping f : 0 <= i < n -> keeps (send_loop i l kept dropping f).
Proof.
  intros Hi. revert kept dropping f. induction l as [|o l IH]; intros kept dropping f; cbn [send_loop]; solve_books.
Qed.
#[local] Hint Resolve send_loop_books : respects.
Lemma check_outgoing_books i : 0 <= i < n -> keeps (enet_protocol_check_outgoing_commands i).
Proof. intros Hi. unfold enet_protocol_check_outgoing_commands. solve_books. Qed.
#[local] Hint Resolve check_outgoing_books : respects.
Lemma send_datagram_books i : 0 <= i < n -> keeps (send_datagram i).
Proof. intros Hi. unfold send_datagram, enet_socket_send. solve_books. Qed.
#[local] Hint Resolve send_datagram_books : respects.
Lemma send_to_peer_books ev check i : 0 <= i < n -> keeps (send_to_peer ev check i).
Proof. intros Hi. unfold send_to_peer, send_commands, enet_protocol_send_acknowledgements. solve_books. Qed.
Lemma send_round_books ev check l : Forall (fun i => 0 <= i < n) l -> keeps (send_round ev check l).
Proof.
  induction 1 as [|i l Hi Hl IH]; cbn [send_round]; [solve_books|].
  apply (respects_bind (inv_rel books)); [by apply send_to_peer_books|]. intros []; solve_books.
Qed.
(** What was read of a host whose books are right. *)
Lemma books_read {A B} (f : enet_host -> A) (k : A -> M enet_host B) :
  (forall h, books h -> inv_rel books h (exec (k (f h)) h)) -> keeps (bind (gets f) k).
Proof. intros Hk h Hb. by apply (Hk h Hb). Qed.
Lemma send_rounds_books fuel ev check : keeps (send_rounds fuel ev check).
Proof.
  induction fuel as [|fuel IH]; cbn [send_rounds]; [solve_books|].
  apply books_read. intros h [B1 _ _ _ _]. cut (keeps (if eh_continueSending h then
    on_host (fun h => h <| eh_continueSending := false |>) ;;
    t <- send_round ev check (peer_numbers h) ;;
    match t with NextPeer => send_rounds fuel ev check | t => ret t end else ret NextPeer)); [by auto|].
  assert (Forall (fun i => 0 <= i < n) (peer_numbers h)).
  { apply Forall_forall. unfold peer_numbers. intros i Hi%elem_of_seqZ. lia. }
  assert (keeps (send_round ev check (peer_numbers h))) by (by apply send_round_books). solve_books.
Qed.
#[local] Hint Resolve send_rounds_books : respects.
Lemma send_outgoing_books ev check : keeps (enet_protocol_send_outgoing_commands ev check).
Proof. unfold enet_protocol_send_outgoing_commands. solve_books. Qed.
#[local] Hint Resolve send_outgoing_books : respects.
Lemma flush_books : keeps enet_host_flush.
Proof. unfold enet_host_flush, enet_time_get. solve_books. Qed.
#[local] Hint Resolve flush_books : respects.
Lemma peer_disconnect_books i data : 0 <= i < n ->
  keeps (enet_peer_disconnect i data) /\ keeps (enet_peer_disconnect_now i data).
Proof.
  intros Hi. split; [by apply disconnect_books; [|solve_books]|]. unfold enet_peer_disconnect_now. solve_books.
Qed.
Lemma disconnect_later_books i data : 0 <= i < n -> keeps (enet_peer_disconnect_later i data).
Proof.
  intros Hi. unfold enet_peer_disconnect_later. apply books_read. intros h _.
  destruct (is_connected (pe_state (peer_of h i)) && _) eqn:E; [|by apply peer_disconnect_books].
  apply andb_true_iff in E as [E _]. apply on_peer_at; unfold limited, connected; cbn; by rw E.
Qed.

(** ** Receiving *)

Lemma dispatch_unreliable_books i id queued : 0 <= i < n -> keeps (enet_peer_dispatch_incoming_unreliable_commands i id queued).
Proof. intros Hi. unfold enet_peer_dispatch_incoming_unreliable_commands, hand_over. solve_books. Qed.
#[local] Hint Resolve dispatch_unreliable_books : respects.
Lemma dispatch_reliable_books i id queued : 0 <= i < n -> keeps (enet_peer_dispatch_incoming_reliable_commands i id queued).
Proof. intros Hi. unfold enet_peer_dispatch_incoming_reliable_commands, hand_over. solve_books. Qed.
#[local] Hint Resolve dispatch_reliable_books : respects.
Lemma queue_incoming_books junk i c data len flags count :
  0 <= i < n -> keeps (enet_peer_queue_incoming_command junk i c data len flags count).
Proof. intros Hi. unfold enet_peer_queue_incoming_command. solve_books. Qed.
#[local] Hint Resolve queue_incoming_books : respects.
Lemma bandwidth_limit_books i incoming outgoing : 0 <= i < n -> keeps (enet_protocol_handle_bandwidth_limit i incoming outgoing).
Proof.
  intros Hi h [B1 B2 B3 B4 B5]. unfold enet_protocol_handle_bandwidth_limit. rewrite -> exec_bind.
  change (exec (the_peer i) h) with h. change (eval (the_peer i) h) with (peer_of h i).
  destruct (negb (is_connected (pe_state (peer_of h i)))) eqn:Ec; [done|]. apply negb_false_iff in Ec.
  pose proof Hi as Hi'. rw -B1 in Hi'.
  pose proof (count_bounds limited (zalter (fun p => p <| pe_incomingBandwidth := 0 |>) i (eh_peers h))) as Hl.
  pose proof (count_bounds limited (zalter (fun p => p <| pe_incomingBandwidth := incoming |>) i (eh_peers h))) as Hl'.
  rw !count_zalter // zlength_zalter in Hl Hl'. fold (peer_of h i) in Hl, Hl'.
  unfold limited, connected in Hl, Hl'. cbn in Hl, Hl'. rw !Ec in Hl Hl'. cbn in Hl, Hl'.
  unfold ENET_PROTOCOL_MAXIMUM_PEER_ID in Hn.
  split; cbn; destruct (pe_incomingBandwidth (peer_of h i) =? 0) eqn:Eb, (incoming =? 0) eqn:Ei; cbn; cbn in Hl, Hl';
    rw ?zlength_zalter ?count_zalter //; fold (peer_of h i); unfold limited, connected; cbn; rw ?Ec ?Eb ?Ei; cbn;
    unfold size_t, limited, connected in *; rewrite -> ?Z.mod_small by (rewrite -> ?Z.mod_small by lia; lia); lia.
Qed.
Lemma verify_connect_books ev i c : 0 <= i < n -> keeps (enet_protocol_handle_verify_connect ev i c).
Proof.
  intros Hi. unfold enet_protocol_handle_verify_connect. apply books_read. intros h [B1 _ _ _ _].
  destruct (negb (bool_decide (pe_state (peer_of h i) = CONNECTING))) eqn:E; [done|].
  apply negb_false_iff, bool_decide_eq_true in E.
  destruct (_ || _).
  { apply (respects_bind_at (inv_rel books)); [by apply on_peer_at|]. intros _. solve_books. }
  rewrite -> exec_bind. set (h1 := exec _ h).
  pose proof (steady_remove 1 0xFF (peer_of h i)) as [Hs Hb].
  assert (pe_state (peer_of h1 i) = CONNECTING) as E1.
  { unfold h1. rewrite -> peer_of_on_peer by (rw B1; done). by rw Hs. }
  transitivity h1; [apply on_peer_at; unfold limited, connected; by rw Hs ?Hb|].
  apply (respects_bind_at (inv_rel books)).
  - apply on_peer_at; unfold limited, connected; cbn; by rw E1.
  - intros _. solve_books.
Qed.
Lemma find_free_state from connectID l k free duplicates i d :
  find_free from connectID l k free duplicates = Some (Some i, d) ->
  free = Some i \/ exists m : nat, i = k + Z.of_nat m /\ exists p, l !! m = Some p /\ pe_state p = DISCONNECTED.
Proof.
  revert k free duplicates. induction l as [|p l IH]; intros k free duplicates; cbn [find_free]; [by intros [= -> ->]; left|].
  assert (forall free' d', find_free from connectID l (k + 1) free' d' = Some (Some i, d) ->
    free' = Some i \/ exists m : nat, i = k + Z.of_nat m /\ exists q, (p :: l) !! m = Some q /\ pe_state q = DISCONNECTED) as Hstep.
  { intros free' d' E. apply IH in E as [E|(m & -> & q & Hq & Es)]; [by left|right]. exists (S m). split; [lia|by exists q]. }
  destruct (pe_state p) eqn:Es; try (destruct (_ =? _); [destruct (_ && _); [done|]|]); try apply Hstep.
  intros E. destruct free as [j|]; [by apply (Hstep (Some j)) in E|].
  apply Hstep in E as [[= <-]|E]; [|by right]. right. exists 0%nat. split; [lia|by exists p].
Qed.
Lemma connect_books c data : keeps (enet_protocol_handle_connect c data).
Proof.
  unfold enet_protocol_handle_connect. apply books_read. intros h [B1 _ _ _ _]. unfold id.
  destruct (_ || _); [done|]. destruct (find_free _ _ _ _ _ _) as [[[i|] d]|] eqn:E; [|done|done].
  destruct (eh_duplicatePeers h <=? d); [done|].
  apply find_free_state in E as [|(m & -> & p & Hp & Es)]; [done|].
  assert (peer_of h (0 + Z.of_nat m) = p) as Ep.
  { unfold peer_of, zlookup. rewrite -> (proj2 (Z.leb_le 0 _)) by lia. by rw Z.add_0_l Nat2Z.id Hp. }
  rewrite -> exec_bind. change (exec (the_peer ?i) h) with h. change (eval (the_peer ?i) h) with (peer_of h i).
  rw Ep. cbv zeta. apply (respects_bind_at (inv_rel books)); [|intros _; solve_books].
  apply on_peer_at; rw Ep; unfold limited, connected; cbn; by rw Es.
Qed.
Lemma acknowledge_books ev i c number sentTime : 0 <= i < n -> keeps (enet_protocol_handle_acknowledge ev i c number sentTime).
Proof.
  intros Hi. unfold enet_protocol_handle_acknowledge.
  apply (respects_bind (inv_rel books)); [solve_books|]. intros h0. apply (respects_bind (inv_rel books)); [solve_books|].
  intros s. destruct (_ || _); [solve_books|]. cbv zeta. destruct (ENET_TIME_LESS _ _); [solve_books|].
  apply (respects_bind (inv_rel books)).
  - apply on_peer_steady. intros p. transitivity (measure (Z.max (ENET_TIME_DIFFERENCE (eh_serviceTime h0)
      (full_time (eh_serviceTime h0) sentTime)) 1) p); [apply steady_measure|apply steady_epoch].
  - intros _. unfold the_peer. apply books_read. intros h _.
    pose proof (steady_counts _ _ (steady_remove number (h_channelID c) (peer_of h i))) as [H1 H2].
    destruct (enet_protocol_remove_sent_reliable_command _ _ _) as [kind p].
    apply (respects_bind_at (inv_rel books)); [by apply on_peer_at|]. intros _. solve_books.
Qed.
Lemma handle_command_books junk ev i c data : 0 <= i < n -> keeps (handle_command junk ev i c data).
Proof.
  intros Hi. pose proof (bandwidth_limit_books i). pose proof (verify_connect_books ev i).
  pose proof (acknowledge_books ev i). unfold handle_command.
  destruct (p_body c); unfold enet_protocol_handle_disconnect, enet_protocol_handle_ping,
    enet_protocol_handle_send_reliable, enet_protocol_handle_send_unreliable, enet_protocol_handle_send_unsequenced,
    enet_protocol_handle_send_fragment, enet_protocol_handle_send_unreliable_fragment, enet_protocol_handle_throttle_configure;
    solve_books.
Qed.
#[local] Hint Resolve handle_command_books connect_books : respects.
Lemma acknowledging_books i c t : keeps (acknowledge i c t).
Proof. unfold acknowledge. solve_books. Qed.
#[local] Hint Resolve acknowledging_books : respects.
(** The peer a datagram is from, or that it connects, is one of the host. *)
Definition is_peer (who : option Z) : Prop := match who with Some i => 0 <= i < n | None => True end.
Lemma books_bind {A B} (P : A -> Prop) (m : M enet_host A) (k : A -> M enet_host B) :
  keeps m -> (forall h, books h -> P (eval m h)) -> (forall a, P a -> keeps (k a)) -> keeps (bind m k).
Proof. intros Hm HP Hk h Hb. rewrite -> exec_bind. by apply (Hk _ (HP h Hb)), Hm. Qed.
Lemma connect_is_peer c data h : books h -> is_peer (eval (enet_protocol_handle_connect c data) h).
Proof.
  intros [B1 _ _ _ _]. unfold enet_protocol_handle_connect. rewrite -> eval_bind.
  change (eval (gets id) h) with h. change (exec (gets id) h) with h.
  destruct (_ || _); [done|]. destruct (find_free _ _ _ _ _ _) as [[[i|] d]|] eqn:E; [|done|done].
  destruct (eh_duplicatePeers h <=? d); [done|].
  apply find_free_state in E as [|(m & -> & p & Hp%lookup_lt_Some & Es)]; [done|].
  do 3 rewrite -> eval_bind. unfold is_peer, eval, ret. cbn [fst]. unfold zlength in B1. lia.
Qed.
Lemma handle_commands_books fuel junk ev who t l : is_peer who -> keeps (handle_commands fuel junk ev who t l).
Proof.
  revert who l. induction fuel as [|fuel IH]; intros who l Hw; cbn [handle_commands]; [solve_books|].
  destruct (read_command l) as [[c size]|]; [|solve_books]. destruct who as [i|]; cbn [is_peer] in Hw.
  - apply (respects_bind (inv_rel books)); [solve_books|]. intros [ok k]. destruct ok; [|solve_books].
    apply (respects_bind (inv_rel books)); [solve_books|]. intros more. apply (respects_when (inv_rel books)). by apply IH.
  - destruct (p_body c); try (apply respects_ret; apply _). apply (books_bind is_peer); [solve_books|by apply connect_is_peer|].
    intros [j|] Hj; [|solve_books]. apply (respects_bind (inv_rel books)); [solve_books|]. intros more.
    apply (respects_when (inv_rel books)). by apply IH.
Qed.
Lemma get_be_nonneg l : Forall is_uchar l -> 0 <= get_be l.
Proof.
  intros Hl. unfold get_be. cut (forall v, 0 <= v -> 0 <= fold_left (fun v b => 256 * v + b) l v); [auto with lia|].
  induction Hl as [|b l Hb Hl IH]; intros v Hv; cbn [fold_left]; [done|]. apply IH. unfold is_uchar in Hb. lia.
Qed.
Lemma incoming_books junk ev l : Forall is_uchar l -> keeps (enet_protocol_handle_incoming_commands junk ev l).
Proof.
  intros Hl. unfold enet_protocol_handle_incoming_commands. destruct (_ <? 2); [solve_books|].
  apply books_read. intros h [B1 _ _ _ _]. unfold id. destruct (field 2 l) as [first rest] eqn:F.
  assert (0 <= first) as Hf.
  { unfold field in F. injection F as <- _. by apply get_be_nonneg, Forall_take. }
  assert (match sender_of h (Z.ldiff first (Z.lor HEADER_FLAG_MASK HEADER_SESSION_MASK))
    (Z.shiftr (Z.land first HEADER_SESSION_MASK) HEADER_SESSION_SHIFT) with Some (Some i) => 0 <= i < n | _ => True end) as Hs.
  { unfold sender_of. destruct (_ =? _); [done|]. destruct (Z.leb_spec (zlength (eh_peers h))
      (Z.ldiff first (Z.lor HEADER_FLAG_MASK HEADER_SESSION_MASK))) as [|Hlt]; [done|].
    cbv zeta. destruct (_ || _); [done|]. rw -B1. split; [|done]. apply Z.ldiff_nonneg. by left. }
  cbv zeta. destruct (sender_of _ _ _) as [[i|]|]; [|done|].
  - destruct (Z.testbit first 14); [done|]. cbn [default]. match goal with |- inv_rel books h (exec ?m h) => cut (keeps m); [by auto|] end.
    assert (forall fuel t l, keeps (handle_commands fuel junk ev (Some i) t l)) by (intros; by apply handle_commands_books).
    solve_books.
  - destruct (Z.testbit first 14); [done|]. cbn [default]. match goal with |- inv_rel books h (exec ?m h) => cut (keeps m); [by auto|] end.
    assert (forall fuel t l, keeps (handle_commands fuel junk ev None t l)) by (intros; by apply handle_commands_books).
    solve_books.
Qed.
Lemma receive_datagrams_books packets junk ev : keeps (receive_datagrams packets junk ev).
Proof.
  induction packets as [|packets IH]; cbn [receive_datagrams]; [solve_books|].
  apply books_read. unfold id. intros h [B1 B2 B3 B4 B5]. destruct (eh_inbox h) as [|r rest] eqn:Ei; [done|].
  apply Forall_cons in B5 as [Hr Hrest]. rewrite -> exec_bind. set (h1 := exec _ h).
  assert (inv_rel books h h1) as Hh by (intros _; by split).
  transitivity h1; [done|]. match goal with |- inv_rel books h1 (exec ?m h1) => cut (keeps m); [by auto|] end.
  destruct r as [|from data]; [solve_books|]. pose proof (incoming_books junk ev data Hr). solve_books.
Qed.

(** ** Events and bandwidth *)

Lemma dispatch_peer_books i : 0 <= i < n -> keeps (dispatch_peer i).
Proof.
  intros Hi. unfold dispatch_peer.
  assert (keeps (on_host (fun h => h <| eh_dispatchQueue ::= tail |>))).
  { apply on_host_books. intros h. split_and!; [done|done|done| |done]. apply Forall_tail. }
  assert (keeps (on_host (fun h => h <| eh_dispatchQueue ::= fun q => q ++ [i] |>))).
  { apply on_host_books. intros h. split_and!; [done|done|done| |done]. cbn. intros. rewrite -> Forall_app, Forall_singleton. done. }
  repeat first [assumption | progress solve_books].
Qed.
Lemma dispatch_loop_books fuel : keeps (dispatch_loop fuel).
Proof.
  induction fuel as [|fuel IH]; cbn [dispatch_loop]; [solve_books|]. apply books_read. intros h [B1 B2 B3 B4 B5].
  destruct (eh_dispatchQueue h) as [|i q]; [done|]. apply Forall_cons in B4 as [Hi _].
  match goal with |- inv_rel books h (exec ?m h) => cut (keeps m); [intros Hm; by apply Hm|] end.
  pose proof (dispatch_peer_books i Hi). solve_books.
Qed.
#[local] Hint Resolve receive_datagrams_books dispatch_loop_books : respects.
Lemma count_steady l l' : Forall2 steady l l' ->
  zlength l' = zlength l /\ count connected l' = count connected l /\ count limited l' = count limited l.
Proof.
  unfold zlength. induction 1 as [|p q l l' Hpq _ (IH1 & IH2 & IH3)]; [done|].
  destruct (steady_counts p q Hpq) as [E1 E2]. cbn. rw E1 E2 IH2 IH3. split_and!; [lia|done|done].
Qed.
Lemma set_peers_books l h : Forall2 steady (eh_peers h) l -> inv_rel books h (exec (on_host (fun h => h <| eh_peers := l |>)) h).
Proof. intros (E1 & E2 & E3)%count_steady [B1 B2 B3 B4 B5]. split; cbn; rw ?E1 ?E2 ?E3 //. Qed.
Lemma adjust_throttles_steady now elapsed throttle l s a : Forall2 steady l (adjust_throttles now elapsed throttle l s a).1.1.
Proof.
  revert s a. induction l as [|p l IH]; intros s a; cbn [adjust_throttles]; [constructor|]. cbv zeta.
  destruct (_ || _).
  - pose proof (IH s a) as H'. destruct (adjust_throttles _ _ _ l s a) as [[? ?] ?]. by constructor.
  - match goal with |- context [adjust_throttles ?x ?y ?z l ?u true] => pose proof (IH u true) as H';
      destruct (adjust_throttles x y z l u true) as [[? ?] ?] end. by constructor.
Qed.
Lemma adjust_limits_steady now limit l remaining band a : Forall2 steady l (adjust_limits now limit l remaining band a).1.1.1.
Proof.
  revert remaining band a. induction l as [|p l IH]; intros remaining band a; cbn [adjust_limits]; [constructor|].
  destruct (_ || _).
  - pose proof (IH remaining band a) as H'. destruct (adjust_limits _ _ l _ _ _) as [[[? ?] ?] ?]. by constructor.
  - match goal with |- context [adjust_limits ?x ?y l ?u ?v true] => pose proof (IH u v true) as H';
      destruct (adjust_limits x y l u v true) as [[[? ?] ?] ?] end. by constructor.
Qed.
Lemma adjust_loop_books fuel now elapsed s : keeps (adjust_loop fuel now elapsed s).
Proof.
  revert s. induction fuel as [|fuel IH]; intros s; cbn [adjust_loop]; [solve_books|]. destruct (_ >? 0); [|solve_books].
  apply books_read. intros h _. unfold id. pose proof (adjust_throttles_steady now elapsed (throttle_of s) (eh_peers h) s false) as H'.
  destruct (adjust_throttles _ _ _ _ _ _) as [[l s'] a].
  apply (respects_bind_at (inv_rel books)); [by apply set_peers_books|]. intros _. solve_books.
Qed.
Lemma limit_loop_books fuel now remaining band limit : keeps (limit_loop fuel now remaining band limit).
Proof.
  revert remaining band limit. induction fuel as [|fuel IH]; intros remaining band limit; cbn [limit_loop]; [solve_books|].
  destruct (_ >? 0); [|solve_books]. apply books_read. intros h _. unfold id. cbv zeta.
  pose proof (adjust_limits_steady now (band / remaining) (eh_peers h) remaining band false) as H'.
  destruct (adjust_limits _ _ _ _ _ _) as [[[l r] b] a].
  apply (respects_bind_at (inv_rel books)); [by apply set_peers_books|]. intros _. solve_books.
Qed.
#[local] Hint Resolve adjust_loop_books limit_loop_books : respects.
Lemma time_books : keeps enet_time_get.
Proof. unfold enet_time_get. solve_books. Qed.
#[local] Hint Resolve time_books : respects.
Lemma throttle_books : keeps enet_host_bandwidth_throttle.
Proof.
  unfold enet_host_bandwidth_throttle.
  assert (forall s now, keeps (every_peer (fun p => if negb (is_connected (pe_state p)) || (pe_outgoingBandwidthThrottleEpoch p =? now)
    then p else limit_throttle (throttle_of s) p))) as Hlimit.
  { intros s now. apply every_peer_steady. intros p. by destruct (_ || _). }
  solve_books.
Qed.
#[local] Hint Resolve throttle_books : respects.
Lemma dispatch_books : keeps enet_protocol_dispatch_incoming_commands.
Proof. unfold enet_protocol_dispatch_incoming_commands. solve_books. Qed.
#[local] Hint Resolve dispatch_books : respects.
Lemma check_events_books : keeps enet_host_check_events.
Proof. unfold enet_host_check_events. solve_books. Qed.
#[local] Hint Resolve check_events_books : respects.
Lemma service_books junk ev : keeps (enet_host_service junk ev).
Proof. unfold enet_host_service, enet_protocol_receive_incoming_commands. solve_books. Qed.
Lemma first_free_state l k i : first_free l k = Some i ->
  exists m : nat, i = k + Z.of_nat m /\ exists p, l !! m = Some p /\ pe_state p = DISCONNECTED.
Proof.
  revert k. induction l as [|p l IH]; intros k; cbn [first_free]; [done|].
  destruct (bool_decide _) eqn:E; [intros [= <-]|intros (m & -> & q & Hq & Es)%IH].
  - apply bool_decide_eq_true in E. exists 0%nat. split; [lia|by exists p].
  - exists (S m). split; [lia|by exists q].
Qed.
Lemma host_connect_books address count data : keeps (enet_host_connect address count data).
Proof.
  unfold enet_host_connect. apply books_read. intros h [B1 _ _ _ _]. unfold id.
  destruct (first_free _ _) as [i|] eqn:E; [|done]. apply first_free_state in E as (m & -> & p & Hp & Es).
  cbv zeta. rewrite -> exec_bind. set (h1 := exec _ h). transitivity h1; [by intros []; split|].
  assert (peer_of h1 (0 + Z.of_nat m) = p) as Ep.
  { unfold peer_of, zlookup. rewrite -> (proj2 (Z.leb_le 0 _)) by lia. unfold h1. cbn. by rw Nat2Z.id Hp. }
  apply (respects_bind_at (inv_rel books)); [|intros _; solve_books].
  apply on_peer_at; rw Ep; unfold limited, connected; cbn; by rw Es.
Qed.
End books.

(** * Whatever the program asks of the host *)

Inductive host_call :=
| CallService (junk : Z) | CallFlush | CallCheckEvents
| CallSend (i channelID : Z) (pk : packet) | CallBroadcast (channelID : Z) (pk : packet)
| CallDisconnect (i data : Z) | CallDisconnectLater (i data : Z) | CallDisconnectNow (i data : Z)
| CallConnect (address : Z * Z) (channelCount data : Z)
| CallBandwidthLimit (incoming outgoing : Z) | CallChannelLimit (n : Z).
(** The peers it names are those of the host. *)
Definition call_fits (n : Z) (c : host_call) : Prop :=
  match c with
  | CallSend i _ _ | CallDisconnect i _ | CallDisconnectLater i _ | CallDisconnectNow i _ => 0 <= i < n
  | _ => True
  end.
Definition run_call (c : host_call) : M enet_host unit :=
  match c with
  | CallService junk => enet_host_service junk true ;; ret tt
  | CallFlush => enet_host_flush
  | CallCheckEvents => enet_host_check_events ;; ret tt
  | CallSend i channelID pk => h <- gets id ;; on_peer i (fun p => (enet_peer_send (eh_maximumPacketSize h) channelID pk p).2)
  | CallBroadcast channelID pk => enet_host_broadcast channelID pk
  | CallDisconnect i data => enet_peer_disconnect i data
  | CallDisconnectLater i data => enet_peer_disconnect_later i data
  | CallDisconnectNow i data => enet_peer_disconnect_now i data
  | CallConnect address channelCount data => enet_host_connect address channelCount data ;; ret tt
  | CallBandwidthLimit incoming outgoing => enet_host_bandwidth_limit incoming outgoing
  | CallChannelLimit n => enet_host_channel_limit n
  end.
Lemma call_books n c : n <= ENET_PROTOCOL_MAXIMUM_PEER_ID -> call_fits n c -> respects (inv_rel (books n)) (run_call c).
Proof.
  intros Hn. destruct c; cbn [call_fits run_call]; intros Hc.
  - apply (respects_bind (inv_rel (books n))); [by apply service_books|]. intros _. apply respects_ret. apply _.
  - by apply flush_books.
  - apply (respects_bind (inv_rel (books n))); [by apply check_events_books|]. intros _. apply respects_ret. apply _.
  - apply (respects_bind (inv_rel (books n))); [apply respects_gets; apply _|]. intros h. apply on_peer_steady. eauto with steady.
  - apply (respects_bind (inv_rel (books n))); [apply respects_gets; apply _|]. intros h. apply every_peer_steady. intros p.
    destruct (bool_decide _); [apply steady_send|done].
  - by apply peer_disconnect_books.
  - by apply disconnect_later_books.
  - by apply peer_disconnect_books.
  - apply (respects_bind (inv_rel (books n))); [by apply host_connect_books|]. intros _. apply respects_ret. apply _.
  - by apply on_host_books.
  - by apply on_host_books.
Qed.

(** C6: From the creation of a host on, whatever the network delivers and whatever the program asks of it, the host's
    number of connected peers is the number of peers that are connected, and its number of peers with a limited
    bandwidth that of the connected peers that announced a limit. *)
Theorem host_keeps_books peerCount channelLimit incoming outgoing seed clock inbox answers h calls :
  enet_host_create peerCount channelLimit incoming outgoing seed clock inbox answers = Some h -> 0 <= peerCount ->
  Forall (fun r => match r with Received _ l => Forall is_uchar l | ReceiveError => True end) inbox ->
  Forall (call_fits peerCount) calls ->
  let h' := exec (forM calls run_call) h in
  eh_connectedPeers h' = count connected (eh_peers h') /\ eh_bandwidthLimitedPeers h' = count limited (eh_peers h').
Proof.
  unfold enet_host_create. destruct (Z.gtb_spec peerCount ENET_PROTOCOL_MAXIMUM_PEER_ID) as [|Hn]; [done|].
  intros E H0 Hi Hc. assert (books peerCount h) as Hb.
  { injection E as <-. assert (forall f l, (forall i, f (reset_peer ENET_HOST_DEFAULT_MTU (no_peer <| pe_incomingPeerID := i |>)) = false) ->
      count f (map (fun i => reset_peer ENET_HOST_DEFAULT_MTU (no_peer <| pe_incomingPeerID := i |>)) l) = 0) as Hcount.
    { intros f l Hf. induction l as [|i l IH]; cbn [map count]; [done|]. by rw Hf IH. }
    split; cbn [eh_peers eh_connectedPeers eh_bandwidthLimitedPeers eh_dispatchQueue eh_inbox]; rw ?Hcount //.
    unfold zlength. rw length_map length_seqZ. lia. }
  clear E. cut (books peerCount (exec (forM calls run_call) h)); [by intros []|].
  revert h Hb. induction Hc as [|c calls Hf Hc IH]; intros h Hb; cbn [forM]; [done|].
  rewrite -> exec_bind. apply IH. by apply call_books.
Qed.
Lemma host_keeps_books_witness :
  match enet_host_create 2 2 0 0 0 sample_clock sample_inbox [] with
  | Some h =>
    let h' := exec (forM [CallService 0; CallService 0; CallService 0] run_call) h in
    eh_connectedPeers h' = 1 /\ count connected (eh_peers h') = 1
  | None => False
  end.
Proof.
  destruct (enet_host_create 2 2 0 0 0 sample_clock sample_inbox []) as [h|] eqn:E; [|discriminate E].
  destruct (host_keeps_books 2 2 0 0 0 sample_clock sample_inbox [] h [CallService 0; CallService 0; CallService 0] E) as [H _].
  - lia.
  - unfold sample_inbox, sample_datagram, is_uchar. repeat constructor; discriminate.
  - repeat constructor.
  - assert (eh_connectedPeers (exec (forM [CallService 0; CallService 0; CallService 0] run_call) h) = 1) as H1.
    { injection E as <-. vm_compute. reflexivity. }
    split; [exact H1|]. exact (eq_trans (eq_sym H) H1).
Defined.
