(* ===== verification/Sending.v ===== *)
(** ENet: sending ends.

    [enet_protocol_send_outgoing_commands] goes over the peers until no datagram was too full for what its peer had to
    send.  A round may add to what waits: commands that are late come back, a peer that was not heard of is pinged, one
    that is to leave is told so.  Here: the rounds end, and what then still waits are reliable commands that may not be
    sent yet. *)
From S2P Require Import Prelude Enet Peer Protocol.

#[local] Open Scope list_scope.

Definition gone (p : peer) : bool := bool_decide (pe_state p = DISCONNECTED) || bool_decide (pe_state p = ZOMBIE).
Definition leaving (p : peer) : bool := bool_decide (pe_state p = DISCONNECT_LATER).

(** No packet waits for a peer that is not in use, or was not answered yet. *)
Definition vacant (p : peer) : bool := bool_decide (pe_state p = DISCONNECTED) || bool_decide (pe_state p = CONNECTING).
Definition limits (p : peer) : Z * bool := (pe_mtu p, vacant p).
(** A command finds room in a datagram of its own. *)
Definition fits (m : Z * bool) (o : outgoing) : Prop :=
  0 <= out_roundTripTimeout o /\
  match out_packet o with
  | Some _ =>
    m.2 = false /\ 0 <= out_fragmentLength o /\
    enet_protocol_command_size (h_command (out_command o)) + out_fragmentLength o <= m.1 - 4
  | None => True
  end.
(** A peer as the handlers leave it. *)
Record able (p : peer) : Prop := {
  able_mtu : ENET_PROTOCOL_MINIMUM_MTU <= pe_mtu p <= ENET_PROTOCOL_MAXIMUM_MTU;
  able_times : 1 <= pe_roundTripTime p <= ENET_TIME_OVERFLOW /\ 0 <= pe_roundTripTimeVariance p <= ENET_TIME_OVERFLOW;
  able_channels : pe_channelCount p <= ENET_PROTOCOL_MAXIMUM_CHANNEL_COUNT;
  able_sent : Forall (fun o => fits (limits p) o /\ acknowledged (out_command o) = true) (pe_sentReliable p)
}.
Definition ready (p : peer) : Prop := able p /\ Forall (fits (limits p)) (pe_outgoing p).
Lemma able_timer p : able p -> 0 < u32 (pe_roundTripTime p + 4 * pe_roundTripTimeVariance p).
Proof.
  intros [_ A _ _]. unfold ENET_TIME_OVERFLOW in A. unfold u32. rewrite -> Z.mod_small by lia. lia.
Qed.
Lemma limits_same p q : pe_mtu q = pe_mtu p -> pe_state q = pe_state p -> limits q = limits p.
Proof. unfold limits, vacant. by intros -> ->. Qed.
(** What fits still does when the peer is in use. *)
Lemma fits_used p q o : pe_mtu q = pe_mtu p -> vacant q = false -> fits (limits p) o -> fits (limits q) o.
Proof. unfold fits, limits. intros -> -> [? H]. split; [done|]. destruct (out_packet o); [|done]. by destruct H as (_ & ? & ?). Qed.
(** Only the fields that count, and a state that may become one in use. *)
Lemma ready_same p q :
  pe_state q = pe_state p \/ vacant q = false -> pe_mtu q = pe_mtu p -> pe_roundTripTime q = pe_roundTripTime p ->
  pe_roundTripTimeVariance q = pe_roundTripTimeVariance p -> pe_channelCount q = pe_channelCount p ->
  pe_sentReliable q = pe_sentReliable p -> pe_outgoing q = pe_outgoing p -> ready p -> ready q.
Proof.
  intros Es Em E1 E2 E3 E4 E5 [[A1 A2 A3 A4] F].
  assert (forall o, fits (limits p) o -> fits (limits q) o) as Hf.
  { intros o. destruct Es as [Es|Es]; [by rw (limits_same _ _ Em Es)|by apply fits_used]. }
  split; [split; [by rw Em|by rw E1 E2|by rw E3|]|]; rw ?E4 ?E5.
  - eapply Forall_impl; [exact A4|]. intros o [? ?]. auto.
  - eapply Forall_impl; [exact F|]. auto.
Qed.
(** A reliable command that may have to wait for its window. *)
Definition may_wait (p : peer) (o : outgoing) : Prop :=
  acknowledged (out_command o) = true /\ (h_channelID (out_command o) < pe_channelCount p \/ out_packet o <> None).

Lemma command_size_range c : 0 <= enet_protocol_command_size c <= 48.
Proof.
  unfold enet_protocol_command_size, zlookup. destruct (0 <=? _); [|simpl; lia].
  destruct (commandSizes !! _) as [n|] eqn:E; [|simpl; lia]. apply list_elem_of_lookup_2 in E. simpl.
  revert n E. apply Forall_forall. repeat constructor; lia.
Qed.

(** * The price of what waits *)

Section price.
Context (now : Z).

(** Sent in this call: it will not be late before the next. *)
Definition fresh (o : outgoing) : bool := (out_sentTime o =? now) && (0 <? out_roundTripTimeout o).
Definition stale (o : outgoing) : Z := if fresh o then 0 else 1.
Definition any_fresh (l : list outgoing) : bool := existsb fresh l.
Definition weight (o : outgoing) : Z := if acknowledged (out_command o) then 1 else 2.
Fixpoint total (f : outgoing -> Z) (l : list outgoing) : Z := match l with [] => 0 | o :: l => f o + total f l end.
(** The commands that wait for their acknowledgement and the pings and farewells to come; the queue of the peer, which
    the loop rebuilds, is added. *)
Definition base (p : peer) : Z :=
  2 * zlength (pe_acknowledgements p) + total stale (pe_sentReliable p)
  + (if any_fresh (pe_sentReliable p) then 0 else 2) + (if leaving p then 3 else 0).
Definition load (p : peer) : Z := base p + total weight (pe_outgoing p).
Definition price (p : peer) : Z := if gone p then 0 else load p.

Lemma total_app f l l' : total f (l ++ l') = total f l + total f l'.
Proof. induction l as [|o l IH]; simpl; [done|]. rw IH. lia. Qed.
Lemma total_rev f l : total f (rev l) = total f l.
Proof. induction l as [|o l IH]; simpl; [done|]. rw total_app IH. simpl. lia. Qed.
Lemma total_bounds f k l : (forall o, 0 <= f o <= k) -> 0 <= total f l <= k * zlength l.
Proof.
  intros Hf. induction l as [|o l IH]; unfold zlength in *; simpl; [lia|]. specialize (Hf o). lia.
Qed.
Lemma weight_range o : 1 <= weight o <= 2.
Proof. unfold weight. destruct (acknowledged _); lia. Qed.
Lemma stale_range o : 0 <= stale o <= 1.
Proof. unfold stale. destruct (fresh o); lia. Qed.
Lemma weights l : 0 <= total weight l <= 2 * zlength l.
Proof. apply total_bounds. intros o. pose proof (weight_range o). lia. Qed.
Lemma base_range p : 0 <= base p <= 2 * zlength (pe_acknowledgements p) + zlength (pe_sentReliable p) + 5.
Proof.
  unfold base. pose proof (zlength_nonneg (pe_acknowledgements p)).
  pose proof (total_bounds stale 1 (pe_sentReliable p) stale_range). destruct (any_fresh _), (leaving p); lia.
Qed.
Lemma price_backlog p : 0 <= price p <= Z.of_nat (backlog p).
Proof.
  unfold price, load, backlog. pose proof (base_range p). pose proof (weights (pe_outgoing p)).
  unfold zlength in *. destruct (gone p); lia.
Qed.

(** ** What sending does to a peer *)

Record goes_on (p p' : peer) : Prop := {
  on_state : pe_state p' = pe_state p;
  on_acknowledgements : pe_acknowledgements p' = pe_acknowledgements p;
  on_mtu : pe_mtu p' = pe_mtu p;
  on_time : pe_roundTripTime p' = pe_roundTripTime p;
  on_variance : pe_roundTripTimeVariance p' = pe_roundTripTimeVariance p;
  on_channels : pe_channelCount p' = pe_channelCount p;
  on_sent : exists l, pe_sentReliable p' = pe_sentReliable p ++ l /\
    Forall (fun o => fresh o = true /\ fits (limits p) o /\ acknowledged (out_command o) = true) l
}.
#[export] Instance goes_on_preorder : PreOrder goes_on.
Proof.
  split.
  - intros p. split; try done. exists []. by rw app_nil_r.
  - intros p q r [Es ? Em ? ? ? (l & E & Hl)] [? ? Em' ? ? ? (l' & E' & Hl')]. split; try congruence.
    exists (l ++ l'). rw E' E -app_assoc. split; [done|]. apply Forall_app. rw (limits_same _ _ Em Es) in Hl'. done.
Qed.
Lemma goes_on_able p p' : goes_on p p' -> able p -> able p'.
Proof.
  intros G [A1 A2 A3 A4]. pose proof (limits_same _ _ (on_mtu _ _ G) (on_state _ _ G)) as Em.
  destruct G as [E1 E2 E3 E4 E5 E6 (l & E & Hl)]. split; [congruence|by rw E4 E5|congruence|].
  rw E Em. apply Forall_app. split; [done|]. eapply Forall_impl; [exact Hl|]. by intros o (_ & ? & ?).
Qed.
Lemma goes_on_limits p p' : goes_on p p' -> limits p' = limits p.
Proof. intros G. by apply limits_same; [apply (on_mtu _ _ G)|apply (on_state _ _ G)]. Qed.
Lemma any_fresh_app l l' : any_fresh (l ++ l') = any_fresh l || any_fresh l'.
Proof. apply existsb_app. Qed.
Lemma stale_fresh l : Forall (fun o => fresh o = true) l -> total stale l = 0.
Proof. induction 1 as [|o l Ho _ IH]; simpl; [done|]. unfold stale at 1. rw Ho IH. done. Qed.
Lemma base_goes_on p p' : goes_on p p' -> base p' <= base p.
Proof.
  intros [E1 E2 E3 E4 E5 E6 (l & E & Hl)]. unfold base, leaving. rw E2 E1 E total_app any_fresh_app.
  rewrite -> (stale_fresh l) by (eapply Forall_impl; [exact Hl|]; by intros o (? & _)).
  destruct (any_fresh (pe_sentReliable p)), (any_fresh l); simpl; lia.
Qed.
Lemma goes_on_fresh p p' : goes_on p p' -> any_fresh (pe_sentReliable p) = true -> any_fresh (pe_sentReliable p') = true.
Proof. intros [_ _ _ _ _ _ (l & E & _)] H. by rw E any_fresh_app H. Qed.
(** The first reliable command that is sent pays for a ping. *)
Lemma base_reliably p p' o :
  goes_on p p' -> o ∈ pe_sentReliable p' -> fresh o = true ->
  base p' <= base p - (if any_fresh (pe_sentReliable p) then 0 else 2).
Proof.
  intros [E1 E2 E3 E4 E5 E6 (l & E & Hl)] Ho Hf.
  assert (any_fresh (pe_sentReliable p') = true) as Ha.
  { apply existsb_exists. exists o. split; [by apply list_elem_of_In|done]. }
  unfold base, leaving. rw Ha E2 E1 E total_app.
  rewrite -> (stale_fresh l) by (eapply Forall_impl; [exact Hl|]; by intros x (? & _)).
  destruct (any_fresh (pe_sentReliable p)); lia.
Qed.
Lemma send_reliably_goes_on o p :
  able p -> fits (limits p) o -> acknowledged (out_command o) = true ->
  goes_on p (send_reliably now o p) /\
  exists o', o' ∈ pe_sentReliable (send_reliably now o p) /\ fresh o' = true.
Proof.
  intros Hable [Ht Hp] Ha. pose proof (able_timer _ Hable) as A2. unfold send_reliably. cbv zeta.
  set (p1 := if _ && _ then on_channel _ _ p else p).
  set (o1 := if _ =? 0 then _ else _).
  set (p2 := if is_empty _ then _ else p1).
  assert (0 < out_roundTripTimeout o1 /\ out_packet o1 = out_packet o /\ out_command o1 = out_command o /\
    out_fragmentLength o1 = out_fragmentLength o) as (T1 & T2 & T3 & T4).
  { unfold o1. clear p2 o1. assert (pe_roundTripTime p1 = pe_roundTripTime p /\ pe_roundTripTimeVariance p1 = pe_roundTripTimeVariance p) as [-> ->]
      by (unfold p1; by destruct (_ && _)).
    cbn [out_roundTripTimeout]. destruct (Z.eqb_spec (out_roundTripTimeout (o <| out_sendAttempts ::= fun n => u16 (n + 1) |>)) 0) as [E|E]; cbn in E |- *.
    - done.
    - split_and!; [lia|done..]. }
  assert (goes_on p p1) as G1 by (unfold p1; destruct (_ && _); [|reflexivity]; split; try done; exists []; by rw app_nil_r).
  assert (goes_on p1 p2) as G2 by (unfold p2; destruct (is_empty _); [|reflexivity]; split; try done; exists []; by rw app_nil_r).
  assert (goes_on p p2) as [B1 B2 B3 B4 B5 B6 B7] by by transitivity p1.
  assert (fresh (o1 <| out_sentTime := now |>) = true) as Hf.
  { unfold fresh. cbn. rw Z.eqb_refl. by apply Z.ltb_lt. }
  split.
  - transitivity p2; [by transitivity p1|]. split; try done. cbn. eexists. split; [done|]. constructor; [|done].
    split_and!; [done| |by cbn; rw T3]. rw (limits_same _ _ B3 B1). unfold fits. cbn [out_roundTripTimeout out_packet out_fragmentLength out_command update_field].
      cbn. rw T2 T3 T4. split; [lia|exact Hp].
  - eexists. split; [|exact Hf]. cbn. apply elem_of_app. right. by apply list_elem_of_singleton.
Qed.
End price.

(** * The turn of a peer *)

(** What it leaves alone. *)
Record turned (i : Z) (h h' : enet_host) : Prop := {
  turned_length : zlength (eh_peers h') = zlength (eh_peers h);
  turned_others : forall j, j <> i -> peer_of h' j = peer_of h j;
  turned_time : eh_serviceTime h' = eh_serviceTime h;
  turned_mtu : eh_mtu h' = eh_mtu h;
  turned_continue : eh_continueSending h = true -> eh_continueSending h' = true
}.
#[export] Instance turned_preorder i : PreOrder (turned i).
Proof.
  split; [by split|]. intros h1 h2 h3 [L O T M C] [L' O' T' M' C']. split; [congruence| |congruence|congruence|auto].
  intros j Hj. rw O' //. by apply O.
Qed.
Lemma turned_on_peer i f : respects (turned i) (on_peer i f).
Proof.
  intros h. split; [cbn; by autorewrite with zlists| |done..].
  intros j Hj. unfold peer_of. cbn. by rw zlookup_zalter_ne.
Qed.
Lemma turned_on_host i f :
  (forall h, eh_peers (f h) = eh_peers h /\ eh_serviceTime (f h) = eh_serviceTime h /\ eh_mtu (f h) = eh_mtu h /\
     (eh_continueSending h = true -> eh_continueSending (f h) = true)) -> respects (turned i) (on_host f).
Proof.
  intros Hf h. destruct (Hf h) as (E1 & E2 & E3 & E4). unfold on_host, modify, exec. cbn.
  split; [by rw E1| |done..]. intros j _. unfold peer_of. by rw E1.
Qed.
#[local] Hint Resolve turned_on_peer : respects.

Section loop.
Context (i : Z).

Lemma exec_peer {A} (k : peer -> M enet_host A) h : exec (bind (the_peer i) k) h = exec (k (peer_of h i)) h.
Proof. done. Qed.
Lemma exec_state {A} (k : enet_host -> M enet_host A) h : exec (bind (gets id) k) h = exec (k h) h.
Proof. done. Qed.

Lemma reliable_waits_may p o f f' : reliable_waits p o f = (true, f') -> acknowledged (out_command o) = true -> may_wait p o.
Proof.
  unfold reliable_waits, may_wait. intros H Ha. split; [done|].
  destruct (_ <? _) eqn:E in H; [left; by apply Z.ltb_lt|]. right.
  destruct (out_packet o) eqn:Ep; [done|]. cbn in H. done.
Qed.

(** What a piece of the loop comes to, with [q] left in the queue before and [q'] after. *)
Record paid (h : enet_host) (q : list outgoing) (h' : enet_host) (q' : list outgoing) : Prop := {
  paid_turn : turned i h h';
  paid_peer : goes_on (eh_serviceTime h) (peer_of h i) (peer_of h' i);
  paid_price : base (eh_serviceTime h) (peer_of h' i) + total weight q' <= base (eh_serviceTime h) (peer_of h i) + total weight q
}.

Definition in_range (h : enet_host) : Prop := 0 <= i < zlength (eh_peers h).
Lemma turned_range h h' : turned i h h' -> in_range h -> in_range h'.
Proof. intros [E _ _ _ _]. unfold in_range. by rw E. Qed.

(** What the loop does with the command at the front, with the state in which it goes on or ends. *)
Inductive step (h : enet_host) (o : outgoing) (l kept : list outgoing) (dropping : option (Z * Z)) : enet_host -> Prop :=
| step_skip f : dropping = Some (out_reliable o, out_unreliable o) ->
    step h o l kept dropping (exec (send_loop i l kept dropping f) h)
| step_wait f : may_wait (peer_of h i) o -> step h o l kept dropping (exec (send_loop i l (o :: kept) None f) h)
| step_stop : does_not_fit h (peer_of h i) o = true ->
    step h o l kept dropping
      (exec (on_peer i (fun p => p <| pe_outgoing := rev kept ++ o :: l |>)) (h <| eh_continueSending := true |>))
| step_go dropping' f h' : turned i h h' -> goes_on (eh_serviceTime h) (peer_of h i) (peer_of h' i) ->
    base (eh_serviceTime h) (peer_of h' i) + (if any_fresh (eh_serviceTime h) (pe_sentReliable (peer_of h i)) then 1 else 2)
      <= base (eh_serviceTime h) (peer_of h i) + weight o ->
    step h o l kept dropping (exec (send_loop i l kept dropping' f) h').

(** Fields that do not count. *)
Record alike (p p' : peer) : Prop := {
  like_state : pe_state p' = pe_state p; like_acknowledgements : pe_acknowledgements p' = pe_acknowledgements p;
  like_mtu : pe_mtu p' = pe_mtu p; like_time : pe_roundTripTime p' = pe_roundTripTime p;
  like_variance : pe_roundTripTimeVariance p' = pe_roundTripTimeVariance p;
  like_channels : pe_channelCount p' = pe_channelCount p; like_sent : pe_sentReliable p' = pe_sentReliable p
}.
Lemma goes_on_alike now p p' p'' : goes_on now p p' -> alike p' p'' -> goes_on now p p''.
Proof.
  intros [? ? ? ? ? ? (l & ? & ?)] [? ? ? ? ? ? ?]. split; try congruence. exists l. split; [congruence|done].
Qed.
Lemma base_alike now p p' : alike p p' -> base now p' = base now p.
Proof. intros [E1 E2 _ _ _ _ E3]. unfold base, leaving. by rw E1 E2 E3. Qed.
#[local] Instance alike_preorder : PreOrder alike.
Proof. split; [by split|]. intros p q r [? ? ? ? ? ? ?] [? ? ? ? ? ? ?]. split; congruence. Qed.
Record calm (h h' : enet_host) : Prop := {
  calm_turn : turned i h h';
  calm_peer : in_range h -> alike (peer_of h i) (peer_of h' i)
}.
#[local] Instance calm_preorder : PreOrder calm.
Proof.
  split; [intros h; split; reflexivity|]. intros h1 h2 h3 [T P] [T' P']. split; [by transitivity h2|].
  intros Hi. transitivity (peer_of h2 i); [by apply P|]. apply P'. by eapply turned_range.
Qed.
Lemma calm_on_peer f : (forall p, alike p (f p)) -> respects calm (on_peer i f).
Proof. intros Hf h. split; [apply turned_on_peer|]. intros Hi. rewrite -> peer_of_on_peer by done. apply Hf. Qed.
Lemma calm_on_host f : (forall h, eh_peers (f h) = eh_peers h /\ eh_serviceTime (f h) = eh_serviceTime h /\
     eh_mtu (f h) = eh_mtu h /\ (eh_continueSending h = true -> eh_continueSending (f h) = true)) -> respects calm (on_host f).
Proof.
  intros Hf h. split; [by apply turned_on_host|]. intros _. unfold peer_of. cbn. destruct (Hf h) as (-> & _). reflexivity.
Qed.
Lemma calm_losses now p : alike p (count_losses now p).
Proof. unfold count_losses. destruct (_ =? 0); [done|]. by destruct (_ && _). Qed.
Ltac calm_leaf := first [ apply calm_on_peer; first [by intros; split | by intros; apply calm_losses] | apply calm_on_host; by intros ].
#[local] Hint Extern 1 (respects calm _) => calm_leaf : respects.
(** Follows a chain of updates. *)
Ltac calm_chain :=
  repeat lazymatch goal with
  | |- calm ?h ?h => reflexivity
  | |- calm ?h (exec (ret tt) ?h') => change (calm h h')
  | |- calm ?h (exec _ ?h') => transitivity h'; [|calm_leaf]
  end.

Lemma send_loop_step o l kept dropping f h :
  in_range h -> able (peer_of h i) -> fits (limits (peer_of h i)) o ->
  step h o l kept dropping (exec (send_loop i (o :: l) kept dropping f) h).
Proof.
  intros Hi Hable Ho. cbn [send_loop]. destruct (bool_decide _) eqn:Ed.
  { apply step_skip. by apply bool_decide_eq_true in Ed. }
  rewrite -> exec_state, exec_peer.
  destruct (acknowledged (out_command o)) eqn:Ea.
  - destruct (reliable_waits _ _ _) as [[] f'] eqn:Ew; [apply step_wait; by eapply reliable_waits_may|].
    destruct (does_not_fit _ _ _) eqn:Ef; [by apply step_stop|].
    cbn [negb andb]. rewrite -> !exec_bind. cbn [when].
    destruct (send_reliably_goes_on (eh_serviceTime h) o _ Hable Ho Ea) as [Hon (o' & Ho' & Hf)].
    pose proof (base_reliably _ _ _ _ Hon Ho' Hf) as Hb. clear o' Ho' Hf.
    generalize dependent (send_reliably (eh_serviceTime h) o). intros g Hon Hb.
    set (h0 := exec (on_peer i g) h). assert (peer_of h0 i = g (peer_of h i)) as E by by apply peer_of_on_peer.
    assert (forall h1, calm h0 h1 -> forall d f, step h o l kept dropping (exec (send_loop i l kept d f) h1)) as Hgo.
    { intros h1 [Ht Hl] d f0. assert (turned i h h0) as Ht0 by apply turned_on_peer.
      specialize (Hl (turned_range _ _ Ht0 Hi)). rw E in Hl.
      eapply step_go; [by transitivity h0|by eapply goes_on_alike|].
      rw (base_alike _ _ _ Hl). unfold weight. rw Ea. destruct (any_fresh _ _); lia. }
    destruct (packet_bytes o); apply Hgo; calm_chain.
  - destruct (does_not_fit _ _ _) eqn:Ef; [by apply step_stop|].
    assert (forall h1, calm h h1 -> forall d f, step h o l kept dropping (exec (send_loop i l kept d f) h1)) as Hgo.
    { intros h1 [Ht Hl] d f0. specialize (Hl Hi). eapply step_go; [done|by eapply goes_on_alike; [reflexivity|]|].
      rw (base_alike _ _ _ Hl). unfold weight. rw Ea. destruct (any_fresh _ _); lia. }
    cbn [negb andb]. rewrite -> exec_bind.
    destruct (out_packet o) as [pk|] eqn:Ep; [destruct (out_fragmentOffset o =? 0)|].
    + cbn [when andb]. destruct (_ >? _); [|rewrite -> !exec_bind; destruct (packet_bytes o)]; apply Hgo; calm_chain.
    + cbn [when andb]. rewrite -> !exec_bind. destruct (packet_bytes o); apply Hgo; calm_chain.
    + cbn [when andb]. rewrite -> !exec_bind. destruct (packet_bytes o); apply Hgo; calm_chain.
Qed.

(** The state in which the loop goes on is as good as the one before. *)
Lemma paid_step h q h' q' h'' q'' :
  turned i h h' -> goes_on (eh_serviceTime h) (peer_of h i) (peer_of h' i) ->
  base (eh_serviceTime h) (peer_of h' i) + total weight q' <= base (eh_serviceTime h) (peer_of h i) + total weight q ->
  paid h' q' h'' q'' -> paid h q h'' q''.
Proof.
  intros Ht Hg Hp [T G P]. rw (turned_time _ _ _ Ht) in G P. split; [by transitivity h'|by transitivity (peer_of h' i)|lia].
Qed.

(** The whole loop: [kept] and [l] are what the queue holds. *)
Record looped (h : enet_host) (kept l : list outgoing) (h' : enet_host) : Prop := {
  looped_paid : paid h (kept ++ l) h' (pe_outgoing (peer_of h' i));
  looped_fits : Forall (fits (limits (peer_of h i))) (pe_outgoing (peer_of h' i));
  looped_waits : Forall (may_wait (peer_of h i)) kept ->
    eh_continueSending h' = true \/ Forall (may_wait (peer_of h i)) (pe_outgoing (peer_of h' i))
}.
Lemma looped_end h kept l h0 :
  in_range h -> calm h h0 -> Forall (fits (limits (peer_of h i))) (kept ++ l) ->
  l = [] \/ eh_continueSending h0 = true ->
  looped h kept l (exec (on_peer i (fun p => p <| pe_outgoing := rev kept ++ l |>)) h0).
Proof.
  intros Hi [Ht Hl] Hf Hend. specialize (Hl Hi). pose proof (turned_range _ _ Ht Hi) as Hi0. apply Forall_app in Hf as [Hk Hf].
  split; rewrite -> ?peer_of_on_peer by done; cbn [pe_outgoing].
  - split; rewrite -> ?peer_of_on_peer by done; [etransitivity; [done|apply turned_on_peer]| |].
    + apply (goes_on_alike _ _ (peer_of h i)); [reflexivity|]. etransitivity; [done|]. by split.
    + rewrite -> (base_alike _ (peer_of h0 i)) by by split. rw (base_alike _ _ _ Hl). cbn. rw !total_app total_rev. lia.
  - cbn. apply Forall_app. split; [by apply Forall_rev|done].
  - intros Hw. destruct Hend as [->|Hc]; [right|by left]. cbn. rw app_nil_r. by apply Forall_rev.
Qed.
Lemma looped_more h h1 kept l kept1 l1 h' :
  turned i h h1 -> goes_on (eh_serviceTime h) (peer_of h i) (peer_of h1 i) ->
  base (eh_serviceTime h) (peer_of h1 i) + total weight (kept1 ++ l1) <= base (eh_serviceTime h) (peer_of h i) + total weight (kept ++ l) ->
  (Forall (may_wait (peer_of h i)) kept -> Forall (may_wait (peer_of h i)) kept1) ->
  looped h1 kept1 l1 h' -> looped h kept l h'.
Proof.
  intros Ht Hg Hp Hk [P F W]. pose proof (goes_on_limits _ _ _ Hg) as Em.
  assert (forall l, Forall (may_wait (peer_of h1 i)) l <-> Forall (may_wait (peer_of h i)) l) as Hw.
  { intros l0. unfold may_wait. by rw (on_channels _ _ _ Hg). }
  split; [by eapply paid_step|by rw Em in F|]. intros Hkept. specialize (W (proj2 (Hw _) (Hk Hkept))).
  destruct W as [W|W]; [by left|right; by apply Hw].
Qed.
Lemma send_loop_looped l : forall kept dropping f h,
  in_range h -> able (peer_of h i) -> Forall (fits (limits (peer_of h i))) (kept ++ l) ->
  looped h kept l (exec (send_loop i l kept dropping f) h).
Proof.
  induction l as [|o l IH]; intros kept dropping f h Hi Hable Hf.
  - cbn [send_loop]. rewrite -> exec_bind, <- (app_nil_r (rev kept)). apply (looped_end _ _ _ h); [done|reflexivity|done|by left].
  - apply Forall_app in Hf as [Hk [Ho Hl]%Forall_cons].
    assert (Forall (fits (limits (peer_of h i))) (kept ++ l)) as Hkl by by apply Forall_app.
    pose proof (weight_range o).
    destruct (send_loop_step o l kept dropping f h Hi Hable Ho) as [f' E|f' W|E|d f' h1 Ht Hg Hb].
    + apply (looped_more h h kept (o :: l) kept l); [reflexivity|reflexivity| |done|by apply IH]. rw !total_app. simpl. lia.
    + apply (looped_more h h kept (o :: l) (o :: kept) l); [reflexivity|reflexivity| | |apply IH; [done|done|]].
      * rw !total_app. simpl. lia.
      * intros ?. by constructor.
      * by apply Forall_app; split; [constructor|].
    + apply looped_end; [done| |by apply Forall_app; split; [|constructor]|by right].
      split; [by split|]. intros _. by split.
    + apply (looped_more h h1 kept (o :: l) kept l); [done|done| |done|apply IH; [by eapply turned_range|by eapply goes_on_able|by rw (goes_on_limits _ _ _ Hg)]].
      rw !total_app. simpl. destruct (any_fresh _ _); lia.
Qed.

(** ** The first command of a datagram *)

Definition blank (h : enet_host) : Prop := eh_commandCount h = 0 /\ eh_buffers h = [] /\ eh_packetSize h = 4.
(** What sending anything is worth at least. *)
Definition worth (now : Z) (p : peer) : Z := if any_fresh now (pe_sentReliable p) then 1 else 2.

Lemma blank_room h p n : blank h -> able p -> n <= 48 -> (room h p <? n) = false.
Proof.
  intros (_ & _ & E) [A _ _ _] Hn. unfold room, size_t. rw E. unfold ENET_PROTOCOL_MINIMUM_MTU, ENET_PROTOCOL_MAXIMUM_MTU in A.
  rewrite -> Z.mod_small by lia. apply Z.ltb_ge. lia.
Qed.
Lemma blank_fits h p o : blank h -> able p -> fits (limits p) o -> does_not_fit h p o = false.
Proof.
  intros Hb Ha [_ Hf]. cbn [fst snd limits] in Hf. pose proof (command_size_range (h_command (out_command o))) as Hs.
  unfold does_not_fit. rewrite -> (blank_room h p _ Hb Ha) by lia. destruct Hb as (E1 & E2 & E3), Ha as [A _ _ _].
  unfold commands_full, buffers_full. rw E1 E2. cbn [orb]. change (zlength []) with 0.
  change (ENET_PROTOCOL_MAXIMUM_PACKET_COMMANDS <=? 0) with false. change (ENET_BUFFER_MAXIMUM <=? 1 + 0 + 1) with false. cbn [orb].
  destruct (out_packet o); [|done]. destruct Hf as [_ Hf]. rw E3. unfold ENET_PROTOCOL_MINIMUM_MTU, ENET_PROTOCOL_MAXIMUM_MTU in A.
  unfold u16. rewrite -> !Z.mod_small by lia. apply Z.ltb_ge. lia.
Qed.
(** From an empty datagram, the loop sends or drops something unless all has to wait. *)
Lemma send_loop_first l : forall kept f h,
  in_range h -> able (peer_of h i) -> Forall (fits (limits (peer_of h i))) (kept ++ l) -> blank h ->
  let h' := exec (send_loop i l kept None f) h in
  (blank h' /\ eh_continueSending h' = eh_continueSending h /\ Forall (may_wait (peer_of h i)) l) \/
  load (eh_serviceTime h) (peer_of h' i) + worth (eh_serviceTime h) (peer_of h i)
    <= base (eh_serviceTime h) (peer_of h i) + total weight (kept ++ l).
Proof.
  induction l as [|o l IH]; intros kept f h Hi Hable Hf Hb.
  - left. cbn. destruct Hb as (? & ? & ?). done.
  - apply Forall_app in Hf as [Hk [Ho Hl]%Forall_cons].
    assert (Forall (fits (limits (peer_of h i))) (kept ++ l)) as Hkl by by apply Forall_app.
    destruct (send_loop_step o l kept None f h Hi Hable Ho) as [f' E|f' W|E|d f' h1 Ht Hg Hp]; cbv zeta.
    + done.
    + destruct (IH (o :: kept) f' h Hi Hable) as [(B & C & A)|P]; [by apply Forall_app; split; [constructor|]|done| |].
      * left. split_and!; [done..|by constructor].
      * right. revert P. rw !total_app. simpl. lia.
    + by rw (blank_fits _ _ _ Hb Hable Ho) in E.
    + right. destruct (send_loop_looped l kept d f' h1) as [[T G P] _ _].
      { by eapply turned_range. } { by eapply goes_on_able. } { by rw (goes_on_limits _ _ _ Hg). }
      rw (turned_time _ _ _ Ht) in P. unfold load. revert P. rw !total_app. simpl. unfold worth. destruct (any_fresh _ _); lia.
Qed.

(** ** Farewells *)

(** A peer that is told to leave. *)
Record dismissed (p p' : peer) : Prop := {
  dismissed_leaving : leaving p = true;
  dismissed_empty : pe_outgoing p = [] /\ pe_sentReliable p = [];
  dismissed_state : pe_state p' = DISCONNECTING;
  dismissed_queues : pe_acknowledgements p' = [] /\ pe_sentReliable p' = [] /\ pe_channelCount p' = 0;
  dismissed_same : pe_mtu p' = pe_mtu p /\ pe_roundTripTime p' = pe_roundTripTime p /\
    pe_roundTripTimeVariance p' = pe_roundTripTimeVariance p;
  dismissed_command : exists o, pe_outgoing p' = [o] /\ weight o = 1 /\ forall m, fits m o
}.
Lemma turned_modify f :
  (forall h, eh_peers (f h) = eh_peers h /\ eh_serviceTime (f h) = eh_serviceTime h /\ eh_mtu (f h) = eh_mtu h /\
     (eh_continueSending h = true -> eh_continueSending (f h) = true)) -> respects (turned i) (modify f).
Proof. apply turned_on_host. Qed.
#[local] Hint Extern 2 (respects (turned i) (modify _)) => (apply turned_modify; by intros) : respects.
#[local] Hint Extern 2 (respects (turned i) (on_host _)) => (apply turned_on_host; by intros) : respects.
#[local] Hint Extern 2 (respects (turned i) (on_peer i _)) => apply turned_on_peer : respects.
Lemma turned_disconnect data : respects (turned i) (disconnect_with (ret tt) i data).
Proof. open_respects. Qed.
Lemma peers_on_disconnect h : eh_peers (exec (enet_peer_on_disconnect i) h) = eh_peers h.
Proof.
  unfold enet_peer_on_disconnect. rewrite -> exec_peer.
  by destruct (is_connected _), (pe_incomingBandwidth _ =? 0).
Qed.
(** The queues of a peer, emptied. *)
Record cleared (p p' : peer) : Prop := {
  cleared_state : pe_state p' = pe_state p;
  cleared_queues : pe_acknowledgements p' = [] /\ pe_sentReliable p' = [] /\ pe_outgoing p' = [] /\ pe_channelCount p' = 0;
  cleared_same : pe_mtu p' = pe_mtu p /\ pe_roundTripTime p' = pe_roundTripTime p /\
    pe_roundTripTimeVariance p' = pe_roundTripTimeVariance p
}.
Lemma reset_queues_cleared h : in_range h ->
  cleared (peer_of h i) (peer_of (exec (enet_peer_reset_queues i) h) i).
Proof.
  intros Hi. unfold enet_peer_reset_queues. rewrite -> exec_peer.
  rewrite -> exec_bind. destruct (pe_needsDispatch _); cbn [when].
  - rewrite -> exec_bind. set (h1 := exec (modify _) h). assert (in_range h1) by done.
    rewrite -> !peer_of_on_peer; [|done|]. 2:{ eapply turned_range; [apply turned_on_peer|done]. }
    change (peer_of h1 i) with (peer_of h i). by split.
  - rewrite -> peer_of_on_peer by done. by split.
Qed.
Lemma disconnect_when_sent_cases sent h :
  in_range h -> (sent (peer_of h i) = true -> all_acknowledged (peer_of h i) = true) ->
  let h' := exec (disconnect_when_sent i sent) h in
  h' = h \/ turned i h h' /\ dismissed (peer_of h i) (peer_of h' i).
Proof.
  intros Hi Hs. unfold disconnect_when_sent. cbv zeta.
  rewrite -> exec_peer.
  destruct (bool_decide _ && sent _) eqn:E; [right|by left]. cbn [when].
  apply andb_true_iff in E as [El Es%Hs]. apply bool_decide_eq_true in El.
  split; [apply turned_disconnect|]. unfold all_acknowledged, is_empty in Es.
  unfold disconnect_with. rewrite -> exec_peer.
  rw El. cbn [is_connected]. rewrite -> !exec_bind.
  pose proof (reset_queues_cleared h Hi) as [C1 (C2 & C3 & C4 & C5) (C6 & C7 & C8)].
  assert (in_range (exec (enet_peer_reset_queues i) h)) as H1.
  { eapply turned_range; [|exact Hi]. assert (respects (turned i) (enet_peer_reset_queues i)) as H by open_respects. apply H. }
  set (h1 := exec (enet_peer_reset_queues i) h) in *. set (h2 := exec (on_peer i _) h1).
  assert (in_range h2) as H2 by (eapply turned_range; [apply turned_on_peer|done]).
  set (h3 := exec (enet_peer_on_disconnect i) h2). assert (eh_peers h3 = eh_peers h2) as E3 by apply peers_on_disconnect.
  assert (in_range h3) as H3 by (unfold in_range; by rw E3). rewrite -> peer_of_on_peer by done.
  assert (peer_of h3 i = peer_of h2 i) as -> by (unfold peer_of; by rw E3). unfold h2. rewrite -> peer_of_on_peer by done.
  set (p1 := peer_of h1 i) in *. split; [by apply bool_decide_eq_true|by destruct (pe_outgoing _), (pe_sentReliable _)|done|done|done|].
  cbn. rw C4. eexists. split; [done|]. split; [done|]. by intros mtu.
Qed.

(** ** The queue of a peer *)

Lemma ready_dismissed p p' : ready p -> dismissed p p' -> ready p'.
Proof.
  intros [[A1 A2 A3 A4] _] [_ _ _ (_ & E2 & E3) (E4 & E5 & E6) (o & E & _ & Ho)]. split.
  - split; [by rw E4|by rw E5 E6|by rw E3|by rw E2].
  - rw E. constructor; [apply Ho|done].
Qed.
Lemma load_dismissed now p p' : dismissed p p' -> load now p' + 2 <= load now p.
Proof.
  intros [El [Eo Es] Et (E1 & E2 & _) _ (o & E & Hw & _)]. unfold load, base.
  pose proof (zlength_nonneg (pe_acknowledgements p)) as Hn. revert Hn. generalize (zlength (pe_acknowledgements p)).
  rw El Eo Es E1 E2 E. unfold leaving. rw Et. intros n Hn. change (zlength []) with 0. cbn [total any_fresh existsb]. rw Hw.
  change (bool_decide (DISCONNECTING = DISCONNECT_LATER)) with false. lia.
Qed.

(** What checking the queue comes to. *)
Record checked (h h' : enet_host) : Prop := {
  checked_turn : turned i h h';
  checked_ready : ready (peer_of h' i);
  checked_load : load (eh_serviceTime h) (peer_of h' i) <= load (eh_serviceTime h) (peer_of h i);
  checked_state : (pe_state (peer_of h' i) = pe_state (peer_of h i) /\
      pe_acknowledgements (peer_of h' i) = pe_acknowledgements (peer_of h i)) \/
    (leaving (peer_of h i) = true /\ pe_state (peer_of h' i) = DISCONNECTING /\ pe_acknowledgements (peer_of h' i) = []);
  checked_waits : eh_continueSending h' = true \/ pe_state (peer_of h' i) = DISCONNECTING \/
    Forall (may_wait (peer_of h' i)) (pe_outgoing (peer_of h' i));
  checked_fresh : any_fresh (eh_serviceTime h) (pe_sentReliable (peer_of h i)) = true ->
    any_fresh (eh_serviceTime h) (pe_sentReliable (peer_of h' i)) = true;
  checked_blank : blank h ->
    (blank h' /\ eh_continueSending h' = eh_continueSending h /\ Forall (may_wait (peer_of h i)) (pe_outgoing (peer_of h i))) \/
    load (eh_serviceTime h) (peer_of h' i) + worth (eh_serviceTime h) (peer_of h i) <= load (eh_serviceTime h) (peer_of h i)
}.
Lemma check_outgoing_checked h :
  in_range h -> ready (peer_of h i) -> checked h (exec (enet_protocol_check_outgoing_commands i) h).
Proof.
  intros Hi [Hable Hfits]. unfold enet_protocol_check_outgoing_commands.
  rewrite -> exec_peer. rewrite -> !exec_bind.
  set (f := mksending _ _ _). pose proof (send_loop_looped _ [] None f h Hi Hable Hfits) as [[T G P] F W].
  pose proof (send_loop_first _ [] f h Hi Hable Hfits) as B. cbv zeta in B.
  set (h1 := exec (send_loop _ _ _ _ _) h) in *. cbn [app] in P, B. specialize (W (Forall_nil_2 _)).
  assert (ready (peer_of h1 i)) as R by (split; [by eapply goes_on_able|by rw (goes_on_limits _ _ _ G)]).
  change (exec (ret ?b) ?h') with h'.
  destruct (disconnect_when_sent_cases (fun p => all_acknowledged p && is_empty (pe_sentUnreliable p)) h1) as [->|[T' D]].
  { by eapply turned_range. } { by intros [? _]%andb_true_iff. }
  - split; [done|done|done| | |by eapply goes_on_fresh|].
    + left. by rw (on_state _ _ _ G) (on_acknowledgements _ _ _ G).
    + destruct W as [W|W]; [by left|right; right]. unfold may_wait. by rw (on_channels _ _ _ G).
    + intros Hb. specialize (B Hb). destruct B as [B|B]; [by left|by right].
  - pose proof (load_dismissed (eh_serviceTime h) _ _ D).
    assert (load (eh_serviceTime h) (peer_of h1 i) <= load (eh_serviceTime h) (peer_of h i)) by done.
    split; [by transitivity h1|by eapply ready_dismissed|lia| | | |].
    + right. destruct D as [D _ D' (D'' & _) _ _]. split_and!; [|done|done]. revert D. unfold leaving. by rw (on_state _ _ _ G).
    + right. left. by destruct D.
    + intros Hf%(goes_on_fresh _ _ _ G). by destruct D as [_ [_ E] _ _ _ _]; rw E in Hf.
    + intros _. right. unfold worth. destruct (any_fresh _ _); lia.
Qed.

(** ** Acknowledgements *)

(** The peer with fewer acknowledgements to send; it may have become a zombie. *)
Record acknowledging (h h' : enet_host) : Prop := {
  acking_turn : turned i h h';
  acking_state : pe_state (peer_of h' i) = pe_state (peer_of h i) \/ pe_state (peer_of h' i) = ZOMBIE;
  acking_same : pe_mtu (peer_of h' i) = pe_mtu (peer_of h i) /\ pe_roundTripTime (peer_of h' i) = pe_roundTripTime (peer_of h i) /\
    pe_roundTripTimeVariance (peer_of h' i) = pe_roundTripTimeVariance (peer_of h i) /\
    pe_channelCount (peer_of h' i) = pe_channelCount (peer_of h i) /\
    pe_sentReliable (peer_of h' i) = pe_sentReliable (peer_of h i) /\ pe_outgoing (peer_of h' i) = pe_outgoing (peer_of h i)
}.
#[local] Instance acknowledging_preorder : PreOrder acknowledging.
Proof.
  split; [intros h; split; [done|by left|done]|]. intros h1 h2 h3 [T S (?&?&?&?&?&?)] [T' S' (?&?&?&?&?&?)].
  split; [by transitivity h2| |split_and!; congruence]. destruct S' as [S'|S']; [rw S'; done|by right].
Qed.
Lemma acking_on_peer f :
  (forall p, (pe_state (f p) = pe_state p \/ pe_state (f p) = ZOMBIE) /\ pe_mtu (f p) = pe_mtu p /\
     pe_roundTripTime (f p) = pe_roundTripTime p /\ pe_roundTripTimeVariance (f p) = pe_roundTripTimeVariance p /\
     pe_channelCount (f p) = pe_channelCount p /\ pe_sentReliable (f p) = pe_sentReliable p /\ pe_outgoing (f p) = pe_outgoing p) ->
  respects acknowledging (on_peer i f).
Proof.
  intros Hf h. destruct (decide (in_range h)) as [Hi|Hi].
  - destruct (Hf (peer_of h i)) as [S E]. split; rewrite -> ?peer_of_on_peer by done; [apply turned_on_peer|done|done].
  - assert (peer_of (exec (on_peer i f) h) i = peer_of h i) as E.
    { unfold peer_of. cbn. rw zlookup_zalter_eq. by destruct (eh_peers h .! i) eqn:El; [apply zlookup_Some_range in El|]. }
    split; rw ?E; [apply turned_on_peer|by left|done].
Qed.
Lemma acking_modify f :
  (forall h, eh_peers (f h) = eh_peers h /\ eh_serviceTime (f h) = eh_serviceTime h /\ eh_mtu (f h) = eh_mtu h /\
     (eh_continueSending h = true -> eh_continueSending (f h) = true)) -> respects acknowledging (modify f).
Proof.
  intros Hf h. assert (peer_of (exec (modify f) h) i = peer_of h i) as E by (unfold peer_of; cbn; by destruct (Hf h) as (-> & _)).
  split; rw ?E; [by apply turned_modify|by left|done].
Qed.
#[local] Hint Extern 2 (respects acknowledging (modify _)) => (apply acking_modify; by intros) : respects.
#[local] Hint Extern 2 (respects acknowledging (on_host _)) => (apply acking_modify; by intros) : respects.
#[local] Hint Extern 2 (respects acknowledging (on_peer i _)) => (apply acking_on_peer; intros; split; [first [by left | by right]|done]) : respects.
Lemma acking_the_peer : respects acknowledging (the_peer i).
Proof. apply respects_gets. apply _. Qed.
#[local] Hint Resolve acking_the_peer : respects.
Lemma acking_dispatch : respects acknowledging (enet_protocol_dispatch_state i ZOMBIE).
Proof. open_respects. Qed.
#[local] Hint Resolve acking_dispatch : respects.
Lemma acking_send l : respects acknowledging (send_acknowledgements i l).
Proof. induction l as [|a l IH]; cbn [send_acknowledgements]; solve_respects. Qed.
(** How many are left. *)
Lemma acknowledgements_left l : forall h, in_range h -> pe_acknowledgements (peer_of h i) = l ->
  let h' := exec (send_acknowledgements i l) h in let left := pe_acknowledgements (peer_of h' i) in
  zlength left <= zlength l /\ (left = [] \/ eh_continueSending h' = true) /\
  (blank h -> able (peer_of h i) -> l <> [] -> zlength left < zlength l).
Proof.
  induction l as [|a l IH]; intros h Hi Hl; cbn [send_acknowledgements]; cbv zeta.
  { change (exec (ret tt) h) with h. rw Hl. split_and!; [done|by left|done]. }
  rewrite -> exec_state, exec_peer.
  destruct (_ || _) eqn:Ef.
  - change (peer_of (exec (on_host _) h) i) with (peer_of h i). rw Hl. split_and!; [done|by right|]. intros Hb Ha _. exfalso.
    rewrite -> (blank_room h _ 8 Hb Ha) in Ef by lia. destruct Hb as (E1 & E2 & _). unfold commands_full, buffers_full in Ef.
    by rw E1 E2 in Ef.
  - rewrite -> !exec_bind. set (h1 := exec (on_host _) h).
    set (h2 := exec (when _ _) h1). assert (acknowledging h1 h2) as [T _ _].
    { assert (respects acknowledging (when (command_number (ack_command a) =? COMMAND_DISCONNECT) (enet_protocol_dispatch_state i ZOMBIE)))
        as H by solve_respects. apply H. }
    assert (in_range h2) as H2 by by eapply turned_range.
    destruct (IH (exec (on_peer i (fun p => p <| pe_acknowledgements := l |>)) h2)) as (L1 & L2 & _).
    { eapply turned_range; [apply turned_on_peer|done]. } { by rewrite -> peer_of_on_peer by done. }
    assert (zlength (a :: l) = 1 + zlength l) as -> by (unfold zlength; simpl; lia). split_and!; [lia|done|lia].
Qed.

(** ** Timeouts *)

(** Late commands go back to the queue, where they are worth the same. *)
Record shifted (now : Z) (p p' : peer) : Prop := {
  shifted_same : pe_state p' = pe_state p /\ pe_acknowledgements p' = pe_acknowledgements p /\ pe_mtu p' = pe_mtu p /\
    pe_roundTripTime p' = pe_roundTripTime p /\ pe_roundTripTimeVariance p' = pe_roundTripTimeVariance p /\
    pe_channelCount p' = pe_channelCount p;
  shifted_fresh : any_fresh now (pe_sentReliable p') = any_fresh now (pe_sentReliable p);
  shifted_load : total weight (pe_outgoing p') + total (stale now) (pe_sentReliable p') =
    total weight (pe_outgoing p) + total (stale now) (pe_sentReliable p);
  shifted_fits : Forall (fun o => fits (limits p) o /\ acknowledged (out_command o) = true) (pe_sentReliable p') /\
    Forall (fits (limits p)) (pe_outgoing p')
}.
Lemma late_is_stale now o :
  (ENET_TIME_DIFFERENCE now (out_sentTime o) <? out_roundTripTimeout o) = false -> fresh now o = false.
Proof.
  unfold fresh. intros H. destruct (Z.eqb_spec (out_sentTime o) now) as [E|]; [|done]. rw E in H.
  unfold ENET_TIME_DIFFERENCE in H. rw Z.sub_diag in H. exact H.
Qed.
Lemma shifted_from now p q r :
  pe_state q = pe_state p /\ pe_acknowledgements q = pe_acknowledgements p /\ pe_mtu q = pe_mtu p /\
    pe_roundTripTime q = pe_roundTripTime p /\ pe_roundTripTimeVariance q = pe_roundTripTimeVariance p /\
    pe_channelCount q = pe_channelCount p ->
  any_fresh now (pe_sentReliable q) = any_fresh now (pe_sentReliable p) ->
  total weight (pe_outgoing q) + total (stale now) (pe_sentReliable q) =
    total weight (pe_outgoing p) + total (stale now) (pe_sentReliable p) ->
  shifted now q r -> shifted now p r.
Proof.
  intros (E1&E2&E3&E4&E5&E6) Ef El [(?&?&?&?&?&?) F L Fs]. split; [split_and!; congruence|congruence|congruence|].
  by rw (limits_same p q E3 E1) in Fs.
Qed.
Lemma timeouts_shifted now l : forall kept moved waiting p,
  Forall (fun o => fits (limits p) o /\ acknowledged (out_command o) = true) (kept ++ l) ->
  Forall (fits (limits p)) (moved ++ waiting) ->
  shifted now (p <| pe_sentReliable := rev kept ++ l |> <| pe_outgoing := moved ++ waiting |>) (timeouts now l kept moved waiting p).2.
Proof.
  induction l as [|o l IH]; intros kept moved waiting p Hs Hf; cbn [timeouts].
  - split; [done|done|done|]. split; [|done]. rw app_nil_r in Hs. apply Forall_app. split; [by apply Forall_rev|constructor].
  - destruct (_ <? _) eqn:E.
    + specialize (IH (o :: kept) moved waiting p). cbn [rev app] in IH. rw -app_assoc in IH. apply IH; [|done].
      cbn. apply Forall_app in Hs as [Hk Hs]. apply Forall_cons in Hs as [Ho Hl]. constructor; [done|]. by apply Forall_app.
    + destruct (_ && _).
      { split; [done|done|done|]. split; [|done]. apply Forall_app in Hs as [Hk Hs]. apply Forall_app. split; [by apply Forall_rev|done]. }
      apply late_is_stale in E. apply Forall_app in Hs as [Hk Hs]. apply Forall_cons in Hs as [[Ho Ha] Hl].
      match goal with |- shifted _ _ (timeouts _ _ _ ?m _ ?q).2 => set (q1 := q); set (m1 := m) end.
      assert (pe_state q1 = pe_state p /\ pe_acknowledgements q1 = pe_acknowledgements p /\ pe_mtu q1 = pe_mtu p /\
        pe_roundTripTime q1 = pe_roundTripTime p /\ pe_roundTripTimeVariance q1 = pe_roundTripTimeVariance p /\
        pe_channelCount q1 = pe_channelCount p) as Eq by (unfold q1; clear; by destruct kept, l, (out_packet o)).
      clearbody q1. eapply shifted_from; [| | |apply (IH kept m1 waiting q1)].
      * exact Eq.
      * change (any_fresh now (rev kept ++ l) = any_fresh now (rev kept ++ o :: l)).
        rw !any_fresh_app. change (any_fresh now (o :: l)) with (fresh now o || any_fresh now l). by rw E.
      * change (total weight (m1 ++ waiting) + total (stale now) (rev kept ++ l) =
          total weight (moved ++ waiting) + total (stale now) (rev kept ++ o :: l)).
        assert (stale now o = 1) as Es by (unfold stale; by rw E). unfold m1. rw !total_app. cbn [total].
        match goal with |- context [weight (update_field ?f ?g o)] =>
          assert (weight (update_field f g o) = 1) as -> by (change (weight o = 1); unfold weight; by rw Ha) end. lia.
      * rewrite -> (limits_same p q1) by apply Eq. by apply Forall_app.
      * rewrite -> (limits_same p q1) by apply Eq. unfold m1. apply Forall_app in Hf as [Hm Hw]. rw -app_assoc. apply Forall_app. split; [done|].
        apply Forall_app. split; [|done]. constructor; [|done]. destruct Ho as [Ht Hp]. split; [|exact Hp]. change (0 <= u32 (2 * out_roundTripTimeout o)).
        by apply Z.mod_pos_bound.
Qed.

(** ** Leaving *)

Record stays (h h' : enet_host) : Prop := {
  stays_turn : turned i h h';
  stays_gone : gone (peer_of h i) = true -> gone (peer_of h' i) = true
}.
#[local] Instance stays_preorder : PreOrder stays.
Proof. split; [by split|]. intros h1 h2 h3 [T S] [T' S']. split; [by transitivity h2|auto]. Qed.
Lemma peer_of_altered f h : {peer_of (exec (on_peer i f) h) i = f (peer_of h i)} + {peer_of (exec (on_peer i f) h) i = peer_of h i}.
Proof.
  unfold peer_of. cbn. rewrite -> zlookup_zalter_eq. destruct (eh_peers h .! i); [by left|by right].
Qed.
Lemma stays_on_peer f : (forall p, gone p = true -> gone (f p) = true) -> respects stays (on_peer i f).
Proof. intros Hf h. split; [apply turned_on_peer|]. destruct (peer_of_altered f h) as [-> | ->]; auto. Qed.
Lemma stays_modify f :
  (forall h, eh_peers (f h) = eh_peers h /\ eh_serviceTime (f h) = eh_serviceTime h /\ eh_mtu (f h) = eh_mtu h /\
     (eh_continueSending h = true -> eh_continueSending (f h) = true)) -> respects stays (modify f).
Proof. intros Hf h. split; [by apply turned_modify|]. unfold peer_of. cbn. by destruct (Hf h) as (-> & _). Qed.
Lemma stays_the_peer : respects stays (the_peer i).
Proof. apply respects_gets. apply _. Qed.
Lemma stays_the_state : respects stays (the_state i).
Proof. apply respects_gets. apply _. Qed.
#[local] Hint Resolve stays_the_peer stays_the_state : respects.
#[local] Hint Extern 2 (respects stays (modify _)) => (apply stays_modify; by intros) : respects.
#[local] Hint Extern 2 (respects stays (on_host _)) => (apply stays_modify; by intros) : respects.
#[local] Hint Extern 2 (respects stays (on_peer i _)) => (apply stays_on_peer; by intros) : respects.
Lemma stays_reset : respects stays (enet_peer_reset i).
Proof. open_respects. Qed.
Lemma stays_dispatch : respects stays (enet_protocol_dispatch_state i ZOMBIE).
Proof. open_respects. Qed.
Lemma set_gone f h : in_range h -> (forall p, gone (f p) = true) -> gone (peer_of (exec (on_peer i f) h) i) = true.
Proof. intros Hi Hf. by rewrite -> peer_of_on_peer by done. Qed.
Lemma in_range_respects {A} (m : M enet_host A) h : respects stays m -> in_range h -> in_range (exec m h).
Proof. intros H. destruct (H h) as [T _]. by apply turned_range. Qed.
Lemma reset_gone h : in_range h -> gone (peer_of (exec (enet_peer_reset i) h) i) = true.
Proof.
  intros Hi. unfold enet_peer_reset. rewrite -> !exec_bind.
  assert (respects stays (enet_peer_reset_queues i)) as H3 by open_respects.
  assert (respects stays (on_peer i (fun p => p <| pe_needsDispatch := false |>))) as H2 by open_respects.
  apply (stays_gone _ _ (H3 _)), (stays_gone _ _ (H2 _)), set_gone; [|done].
  apply (in_range_respects (enet_peer_on_disconnect i)); [open_respects|done].
Qed.
Lemma dispatch_gone h : in_range h -> gone (peer_of (exec (enet_protocol_dispatch_state i ZOMBIE) h) i) = true.
Proof.
  intros Hi. unfold enet_protocol_dispatch_state, enet_protocol_change_state. cbn [is_connected]. rewrite -> !exec_bind.
  assert (respects stays (needs_dispatch i)) as H by open_respects. apply (stays_gone _ _ (H _)), set_gone; [|done].
  apply (in_range_respects (enet_peer_on_disconnect i)); [open_respects|done].
Qed.
#[local] Hint Resolve stays_reset stays_dispatch : respects.
Lemma notify_gone ev h : in_range h ->
  turned i h (exec (enet_protocol_notify_disconnect ev i) h) /\ gone (peer_of (exec (enet_protocol_notify_disconnect ev i) h) i) = true.
Proof.
  intros Hi. split.
  { assert (respects stays (enet_protocol_notify_disconnect ev i)) as H; [|apply H].
    unfold enet_protocol_notify_disconnect. solve_respects. }
  unfold enet_protocol_notify_disconnect. rewrite -> !exec_bind.
  change (exec (the_state i) h) with h. generalize (eval (the_state i) h). intros s.
  set (h1 := exec (when _ _) h). assert (in_range h1) as H1.
  { apply (in_range_respects (when (state_number CONNECTION_PENDING <=? state_number s) (on_host (fun h => h <| eh_recalculate := true |>))));
      [solve_respects|done]. }
  destruct (_ && _); [by apply reset_gone|]. destruct ev; rewrite -> exec_bind; [apply reset_gone|apply dispatch_gone].
  - by eapply turned_range; [apply turned_modify|].
  - by eapply turned_range; [apply turned_on_peer|].
Qed.

Definition mtu_ok (h : enet_host) : Prop := ENET_PROTOCOL_MINIMUM_MTU <= eh_mtu h <= ENET_PROTOCOL_MAXIMUM_MTU.
Lemma reset_ready h : in_range h -> mtu_ok h -> ready (peer_of (exec (enet_peer_reset i) h) i).
Proof.
  intros Hi Hm. unfold enet_peer_reset. rewrite -> !exec_bind. set (h1 := exec (enet_peer_on_disconnect i) h).
  assert (stays h h1) as [T _] by (assert (respects stays (enet_peer_on_disconnect i)) as H by open_respects; apply H).
  pose proof (turned_range _ _ T Hi) as Hi1. assert (mtu_ok h1) as Hm1 by (unfold mtu_ok; by rw (turned_mtu _ _ _ T)). clearbody h1.
  change (exec (gets eh_mtu) h1) with h1. change (eval (gets eh_mtu) h1) with (eh_mtu h1).
  set (h2 := exec (on_peer i (reset_peer (eh_mtu h1))) h1). set (h3 := exec (on_peer i _) h2).
  assert (turned i h1 h2) as T2 by apply turned_on_peer. assert (turned i h2 h3) as T3 by apply turned_on_peer.
  pose proof (turned_range _ _ T2 Hi1) as Hi2. pose proof (turned_range _ _ T3 Hi2) as Hi3.
  destruct (reset_queues_cleared h3 Hi3) as [C1 (C2 & C3 & C4 & C5) (C6 & C7 & C8)].
  assert (peer_of h3 i = reset_peer (eh_mtu h1) (peer_of h1 i) <| pe_needsDispatch := false |>) as E.
  { unfold h3. rewrite -> peer_of_on_peer by done. unfold h2. by rewrite -> peer_of_on_peer. }
  rw E in C6 C7 C8. cbn in C6, C7, C8. split; [split|].
  - by rw C6.
  - rw C7 C8. done.
  - by rw C5.
  - rw C3. constructor.
  - rw C4. constructor.
Qed.
Lemma acking_the_state : respects acknowledging (the_state i).
Proof. apply respects_gets. apply _. Qed.
Lemma acking_ready h h' : acknowledging h h' -> ready (peer_of h i) -> ready (peer_of h' i).
Proof.
  intros [_ S (E1&E2&E3&E4&E5&E6)]. apply ready_same; [|done..]. destruct S as [S|S]; [by left|right; unfold vacant; by rw S].
Qed.
Lemma notify_ready ev h : in_range h -> mtu_ok h -> ready (peer_of h i) ->
  ready (peer_of (exec (enet_protocol_notify_disconnect ev i) h) i).
Proof.
  intros Hi Hm Hr. unfold enet_protocol_notify_disconnect. rewrite -> !exec_bind.
  change (exec (the_state i) h) with h. generalize (eval (the_state i) h). intros s. set (h1 := exec (when _ _) h).
  assert (acknowledging h h1) as A by (unfold h1; destruct (_ <=? _); [apply acking_modify; by intros|reflexivity]).
  pose proof (acking_ready _ _ A Hr) as Hr1. destruct A as [T _ _]. pose proof (turned_range _ _ T Hi) as Hi1.
  assert (mtu_ok h1) as Hm1 by (unfold mtu_ok; by rw (turned_mtu _ _ _ T)). clearbody h1.
  destruct (_ && _); [by apply reset_ready|]. destruct ev; rewrite -> exec_bind; [by apply reset_ready|].
  eapply acking_ready; [apply acking_dispatch|]. eapply acking_ready; [|exact Hr1]. apply acking_on_peer. intros p. split; [by left|done].
Qed.

(** ** The datagram *)

(** Nothing of what counts changes. *)
Record even (h h' : enet_host) : Prop := {
  even_turn : turned i h h';
  even_peer : alike (peer_of h i) (peer_of h' i);
  even_outgoing : pe_outgoing (peer_of h' i) = pe_outgoing (peer_of h i)
}.
#[local] Instance even_preorder : PreOrder even.
Proof.
  split; [intros h; split; reflexivity|]. intros h1 h2 h3 [T A O] [T' A' O'].
  split; [by transitivity h2|by transitivity (peer_of h2 i)|congruence].
Qed.
Lemma even_on_peer f : (forall p, alike p (f p) /\ pe_outgoing (f p) = pe_outgoing p) -> respects even (on_peer i f).
Proof.
  intros Hf h. destruct (Hf (peer_of h i)) as [A O].
  destruct (peer_of_altered f h) as [E|E]; split; rw ?E; first [apply turned_on_peer | done | reflexivity].
Qed.
Lemma even_modify f :
  (forall h, eh_peers (f h) = eh_peers h /\ eh_serviceTime (f h) = eh_serviceTime h /\ eh_mtu (f h) = eh_mtu h /\
     (eh_continueSending h = true -> eh_continueSending (f h) = true)) -> respects even (modify f).
Proof.
  intros Hf h. assert (peer_of (exec (modify f) h) i = peer_of h i) as E by (unfold peer_of; cbn; by destruct (Hf h) as (-> & _)).
  split; rw ?E; [by apply turned_modify|reflexivity|done].
Qed.
Lemma even_losses now : respects even (on_peer i (count_losses now)).
Proof.
  apply even_on_peer. intros p. split; [apply calm_losses|]. unfold count_losses. destruct (_ =? 0); [done|]. by destruct (_ && _).
Qed.
Lemma even_gets {A} (f : enet_host -> A) : respects even (gets f).
Proof. apply respects_gets. apply _. Qed.
#[local] Hint Resolve even_losses even_gets : respects.
#[local] Hint Extern 2 (respects even (modify _)) => (apply even_modify; by intros) : respects.
#[local] Hint Extern 2 (respects even (on_host _)) => (apply even_modify; by intros) : respects.
#[local] Hint Extern 2 (respects even (on_peer i _)) => (apply even_on_peer; intros; split; [by split|done]) : respects.

(** What remains to be done at the end of a turn. *)
Record ended (h h' : enet_host) : Prop := {
  ended_turn : turned i h h';
  ended_ready : ready (peer_of h' i);
  ended_load : load (eh_serviceTime h) (peer_of h' i) <= load (eh_serviceTime h) (peer_of h i);
  ended_state : pe_state (peer_of h' i) = pe_state (peer_of h i) \/
    leaving (peer_of h i) = true /\ pe_state (peer_of h' i) = DISCONNECTING;
  ended_queues : pe_acknowledgements (peer_of h' i) = [] \/
    pe_acknowledgements (peer_of h' i) = pe_acknowledgements (peer_of h i);
  ended_waits : Forall (may_wait (peer_of h i)) (pe_outgoing (peer_of h i)) -> pe_state (peer_of h' i) = DISCONNECTING \/
    Forall (may_wait (peer_of h' i)) (pe_outgoing (peer_of h' i))
}.
Lemma even_ready h h' : even h h' -> ready (peer_of h i) -> ready (peer_of h' i).
Proof.
  intros [_ [Es _ E1 E2 E3 E4 E5] E6]. by apply ready_same; [left|..].
Qed.
Lemma even_load now h h' : even h h' -> load now (peer_of h' i) = load now (peer_of h i).
Proof. intros [_ A E]. unfold load. by rw (base_alike _ _ _ A) E. Qed.
Lemma even_ended h h' : even h h' -> ready (peer_of h i) -> ended h h'.
Proof.
  intros He Hr. pose proof He as [T [E1 E2 _ _ _ E4 E5] E6]. split; [done|by eapply even_ready| |by left|by right|].
  - by rewrite -> (even_load _ _ _ He).
  - intros W. right. unfold may_wait in *. by rw E4 E6.
Qed.
Lemma even_before h h1 h' : even h h1 -> ended h1 h' -> ended h h'.
Proof.
  intros He [T R L S Q W]. pose proof He as [T' [E1 E2 _ _ _ E4 E5] E6]. rw (turned_time _ _ _ T') (even_load _ _ _ He) in L.
  unfold leaving in *. rw E1 in S. rw E2 in Q. split; [by transitivity h1|done..|].
  intros Hw. apply W. unfold may_wait in *. by rw E4 E6.
Qed.
Lemma even_after h h1 h' : even h1 h' -> ended h h1 -> ended h h'.
Proof.
  intros He [T R L S Q W]. pose proof He as [T' [E1 E2 _ _ _ E4 E5] E6]. split; rw ?E1 ?E2 ?E6 ?(even_load _ _ _ He);
    [by transitivity h1|by eapply even_ready|done..|]. unfold may_wait in *. by rw E4.
Qed.
Lemma dismissed_ended h h' : ready (peer_of h i) -> turned i h h' -> dismissed (peer_of h i) (peer_of h' i) -> ended h h'.
Proof.
  intros R T D. pose proof (load_dismissed (eh_serviceTime h) _ _ D). pose proof D as [D1 D2 D3 (D4 & _) _ _].
  split; [done|by eapply ready_dismissed|lia|by right|by left|by left].
Qed.
Lemma remove_sent_unreliable_ended h :
  in_range h -> ready (peer_of h i) -> ended h (exec (enet_protocol_remove_sent_unreliable_commands i) h).
Proof.
  intros Hi Hr. unfold enet_protocol_remove_sent_unreliable_commands.
  rewrite -> exec_peer.
  destruct (negb _); cbn [when]; [|by apply even_ended].
  rewrite -> exec_bind. set (h1 := exec (on_peer i _) h). assert (even h h1) as He by (eapply even_on_peer; intros; split; [by split|done]).
  eapply even_before; [exact He|]. pose proof (even_ready _ _ He Hr). pose proof (even_turn _ _ He).
  destruct (disconnect_when_sent_cases all_acknowledged h1) as [->|[T D]]; [by eapply turned_range|done|by apply even_ended|by apply dismissed_ended].
Qed.
Lemma send_datagram_ended h : in_range h -> ready (peer_of h i) -> ended h (exec (send_datagram i) h).
Proof.
  intros Hi Hr. unfold send_datagram.
  rewrite -> exec_state, exec_bind.
  set (h1 := exec (on_peer i _) h). assert (even h h1) as He by apply even_losses.
  rewrite -> exec_peer. cbv zeta. rewrite -> !exec_bind.
  match goal with |- context [exec (enet_protocol_remove_sent_unreliable_commands i) ?x] => set (h2 := x) end.
  match goal with |- context [eval ?m ?x <? 0] => generalize (eval m x) end. intros n.
  assert (even h h2) as He2.
  { transitivity h1; [done|]. unfold h2.
    match goal with |- even h1 (exec ?m3 (exec ?m2 (exec ?m1 h1))) =>
      assert (respects even m1 /\ respects even m2 /\ respects even m3) as (H1 & H2 & H3) end.
    { split_and!; [auto with respects..|]. unfold enet_socket_send. solve_respects. }
    etransitivity; [apply H1|]. etransitivity; [apply H2|apply H3]. }
  clearbody h2 h1. pose proof (even_turn _ _ He2) as T. pose proof (turned_range _ _ T Hi) as Hi2.
  pose proof (remove_sent_unreliable_ended h2 Hi2 (even_ready _ _ He2 Hr)) as D.
  destruct (n <? 0); [by eapply even_before|]. eapply even_before; [exact He2|]. eapply even_after; [|exact D].
  rewrite -> exec_bind. match goal with |- even ?a (exec (ret _) (exec ?m ?a)) => cut (respects even m); [intros H; apply H|] end.
  auto with respects.
Qed.

(** ** The whole turn *)

(** The commands of a ready peer: a ping may be added, but not without something being sent. *)
Record commanded (h h' : enet_host) : Prop := {
  commanded_turn : turned i h h';
  commanded_ready : ready (peer_of h' i);
  commanded_load : load (eh_serviceTime h) (peer_of h' i) <= load (eh_serviceTime h) (peer_of h i) + 1;
  commanded_gone : gone (peer_of h i) = true -> gone (peer_of h' i) = true;
  commanded_queues : pe_acknowledgements (peer_of h' i) = [] \/
    pe_acknowledgements (peer_of h' i) = pe_acknowledgements (peer_of h i);
  commanded_waits : eh_continueSending h' = true \/ pe_state (peer_of h' i) = DISCONNECTING \/
    Forall (may_wait (peer_of h' i)) (pe_outgoing (peer_of h' i));
  commanded_blank : blank h ->
    (load (eh_serviceTime h) (peer_of h' i) <= load (eh_serviceTime h) (peer_of h i) /\
       (eh_continueSending h' = true -> eh_continueSending h = true)) \/
    load (eh_serviceTime h) (peer_of h' i) < load (eh_serviceTime h) (peer_of h i)
}.
Lemma worth_range now p : 1 <= worth now p <= 2.
Proof. unfold worth. destruct (any_fresh _ _); lia. Qed.
Lemma leaving_stays p : leaving p = true -> gone p = true -> False.
Proof. unfold leaving, gone. intros E%bool_decide_eq_true. by rw E. Qed.

(** A ping is one more command, and it does not have to wait. *)
Lemma ping_queued p : ready p -> pe_state p = CONNECTED ->
  exists o, pe_outgoing (enet_peer_ping p) = pe_outgoing p ++ [o] /\ weight o = 1 /\ ready (enet_peer_ping p) /\
    ~ may_wait (enet_peer_ping p) o /\ pe_state (enet_peer_ping p) = CONNECTED /\
    pe_acknowledgements (enet_peer_ping p) = pe_acknowledgements p /\ pe_sentReliable (enet_peer_ping p) = pe_sentReliable p.
Proof.
  intros [[A1 A2 A3 A4] F] Es. unfold enet_peer_ping. rewrite -> bool_decide_true by done.
  eexists. split; [done|]. split; [done|]. split.
  - split; [by split|]. apply Forall_app. split; [done|]. constructor; [|done]. by split.
  - split_and!; [|done..]. intros [_ [H|H]]; [|done]. cbn in H. unfold ENET_PROTOCOL_MAXIMUM_CHANNEL_COUNT in A3. lia.
Qed.
Lemma check_if_any h : in_range h -> ready (peer_of h i) ->
  checked h (exec (if is_empty (pe_outgoing (peer_of h i)) then ret true else enet_protocol_check_outgoing_commands i) h).
Proof.
  intros Hi Hr. destruct (is_empty _) eqn:E; [|by apply check_outgoing_checked].
  destruct (pe_outgoing (peer_of h i)) eqn:Eo; [|done]. change (exec (ret true) h) with h.
  split; [reflexivity|done|done|by left| |done|]; rw Eo; [right; by right|by left].
Qed.
Lemma checked_commanded h h' : checked h h' -> commanded h h'.
Proof.
  intros [T R L S W F B]. split; [done|done|lia| | |done|].
  - intros Hg. destruct S as [[S _]|[S _]]; [by unfold gone in *; rw S|by destruct (leaving_stays _ S Hg)].
  - destruct S as [[_ S]|(_ & _ & S)]; [by right|by left].
  - intros [(_ & C & _)|P]%B; [left; by rw C|right]. pose proof (worth_range (eh_serviceTime h) (peer_of h i)). lia.
Qed.
(** With a ping between two looks at the queue. *)
Lemma pinged_commanded h h1 : in_range h -> checked h h1 -> pe_sentReliable (peer_of h1 i) = [] ->
  commanded h (exec (on_peer i enet_peer_ping ;; enet_protocol_check_outgoing_commands i ;; ret tt) h1).
Proof.
  intros Hi C E1. rewrite -> !exec_bind. change (exec (ret tt) ?x) with x. set (h2 := exec (on_peer i _) h1).
  destruct C as [T R L S W F B]. pose proof (turned_range _ _ T Hi) as Hi1.
  assert (peer_of h2 i = enet_peer_ping (peer_of h1 i)) as E by by apply peer_of_on_peer.
  assert (turned i h1 h2) as T2 by apply turned_on_peer. pose proof (turned_range _ _ T2 Hi1) as Hi2.
  assert (blank h1 -> blank h2) as Hb by done. assert (eh_continueSending h2 = eh_continueSending h1) as Hc by done.
  assert (turned i h h2) as T' by by transitivity h1. clearbody h2.
  destruct (decide (pe_state (peer_of h1 i) = CONNECTED)) as [Ec|Ec].
  - destruct (ping_queued _ R Ec) as (o & Eo & Ew & R' & Hw & Ec' & Ea & Es). rw -E in Eo R' Hw Ec' Ea Es.
    destruct (check_outgoing_checked h2 Hi2 R') as [T3 R3 L3 S3 W3 _ B3].
    assert (load (eh_serviceTime h) (peer_of h2 i) = load (eh_serviceTime h) (peer_of h1 i) + 1) as L2.
    { unfold load, base, leaving. rw Eo total_app Ec' Ea Es Ec. cbn [total]. lia. }
    rw (turned_time _ _ _ T') in L3 B3. split; [by etransitivity|done|lia| | |done|].
    + intros Hg. destruct S as [[S _]|[S _]]; [|by destruct (leaving_stays _ S Hg)].
      unfold gone in Hg. by rw -S Ec in Hg.
    + destruct S3 as [[_ S3]|(_ & _ & S3)]; [|by left]. rw S3 Ea.
      destruct S as [[_ S]|(_ & S & _)]; [by right|by rw Ec in S].
    + intros Hbl. right. destruct (B Hbl) as [(Hb1 & _ & _)|P].
      * destruct (B3 (Hb Hb1)) as [(_ & _ & M)|P3].
        -- rw Eo in M. apply Forall_app in M as [_ [M _]%Forall_cons]. by destruct (Hw M).
        -- unfold worth in P3. rw Es E1 in P3. cbn [any_fresh existsb] in P3. lia.
      * unfold worth in P. destruct (any_fresh _ (pe_sentReliable (peer_of h i))); [|lia].
        specialize (F eq_refl). by rw E1 in F.
  - assert (enet_peer_ping (peer_of h1 i) = peer_of h1 i) as Ep by (unfold enet_peer_ping; by rewrite -> bool_decide_false).
    rw Ep in E. destruct (check_outgoing_checked h2 Hi2) as [T3 R3 L3 S3 W3 _ B3]; [by rw E|].
    rw (turned_time _ _ _ T') in L3 B3. rw E in L3 B3. rw E in S3. split; [by etransitivity|done|lia| | |done|].
    + intros Hg. destruct S as [[S _]|[S _]]; [|by destruct (leaving_stays _ S Hg)].
      destruct S3 as [[S3 _]|[S3 _]]; [unfold gone in *; by rw S3 S|].
      assert (gone (peer_of h1 i) = true) by (unfold gone in *; by rw S). by destruct (leaving_stays _ S3).
    + destruct S3 as [[_ S3]|(_ & _ & S3)]; [|by left]. rw S3. destruct S as [[_ S]|(_ & _ & S)]; [by right|by left].
    + intros Hbl. destruct (B Hbl) as [(Hb1 & C1 & _)|P].
      * destruct (B3 (Hb Hb1)) as [(_ & C3 & _)|P3]; [left; rw C3 Hc C1; split; [lia|done]|right].
        pose proof (worth_range (eh_serviceTime h) (peer_of h1 i)). lia.
      * right. pose proof (worth_range (eh_serviceTime h) (peer_of h i)). lia.
Qed.
Lemma commanded_ended h h1 h' : commanded h h1 -> ended h1 h' ->
  (eh_continueSending h' = true -> eh_continueSending h1 = true) -> commanded h h'.
Proof.
  intros [T R L G Q W B] [T' R' L' S' Q' W'] C. rw (turned_time _ _ _ T) in L'.
  split; [by etransitivity|done|lia| | | |].
  - intros Hg%G. destruct S' as [S'|[S' _]]; [unfold gone in *; by rw S'|by destruct (leaving_stays _ S')].
  - destruct Q' as [Q'|Q']; [by left|by rw Q'].
  - destruct W as [W|W]; [left; by apply (turned_continue _ _ _ T')|right]. destruct W as [W|W]; [|by apply W'].
    left. destruct S' as [S'|[S' _]]; [by rw S'|]. unfold leaving in S'. by rw W in S'.
  - intros [[B1 B2]|B1]%B; [left|right; lia]. split; [lia|auto].
Qed.

(** Only a full datagram asks for another round. *)
Definition asks (h h' : enet_host) : Prop := eh_continueSending h' = eh_continueSending h.
#[local] Instance asks_preorder : PreOrder asks.
Proof. split; [done|]. unfold asks. intros ? ? ? -> ->. done. Qed.
Lemma asks_modify f : (forall h, eh_continueSending (f h) = eh_continueSending h) -> respects asks (modify f).
Proof. intros Hf h. apply Hf. Qed.
Lemma asks_gets {A} (f : enet_host -> A) : respects asks (gets f).
Proof. done. Qed.
#[local] Hint Resolve asks_gets : respects.
#[local] Hint Extern 2 (respects asks (modify _)) => (apply asks_modify; by intros) : respects.
#[local] Hint Extern 2 (respects asks (on_host _)) => (apply asks_modify; by intros) : respects.
#[local] Hint Extern 2 (respects asks (on_peer _ _)) => (apply asks_modify; by intros) : respects.
Lemma asks_datagram : respects asks (send_datagram i).
Proof. open_respects. Qed.
Lemma asks_timeouts ev : respects asks (enet_protocol_check_timeouts ev i).
Proof. open_respects. Qed.
Lemma send_commands_commanded h : in_range h -> ready (peer_of h i) -> commanded h (exec (send_commands i) h).
Proof.
  intros Hi Hr. unfold send_commands. rewrite -> exec_peer, exec_bind, exec_state, exec_peer, exec_bind, exec_state.
  pose proof (check_if_any h Hi Hr) as C. set (m := if is_empty _ then _ else _) in *.
  generalize (eval m h). intros ping. set (h1 := exec m h) in *. clearbody h1. clear m.
  destruct (_ && _) eqn:E.
  - apply andb_true_iff in E as [[[_ E]%andb_true_iff _]%andb_true_iff _]. cbn [when].
    assert (pe_sentReliable (peer_of h1 i) = []) as E1 by by destruct (pe_sentReliable _).
    pose proof (pinged_commanded h h1 Hi C E1) as P. set (h2 := exec _ h1) in *. clearbody h2.
    destruct (_ =? 0); [done|]. destruct P as [T R L G Q W B]. pose proof (turned_range _ _ T Hi).
    eapply commanded_ended; [done|by apply send_datagram_ended|]. by rw (asks_datagram h2).
  - cbn [when]. change (exec (ret tt) h1) with h1. apply checked_commanded in C. destruct (_ =? 0); [done|].
    pose proof C as [T R _ _ _ _ _]. pose proof (turned_range _ _ T Hi).
    eapply commanded_ended; [done|by apply send_datagram_ended|]. by rw (asks_datagram h1).
Qed.

(** All was sent that could be. *)
Definition settled (p : peer) : Prop :=
  gone p = true \/
  pe_acknowledgements p = [] /\ (pe_state p = DISCONNECTING \/ Forall (may_wait p) (pe_outgoing p)).
Record outcome (h : enet_host) (r : turn * enet_host) : Prop := {
  outcome_turn : turned i h r.2;
  outcome_ready : ready (peer_of r.2 i);
  outcome_price : price (eh_serviceTime h) (peer_of r.2 i) <= price (eh_serviceTime h) (peer_of h i);
  outcome_asks : r.1 = NextPeer -> eh_continueSending r.2 = true ->
    eh_continueSending h = true \/ price (eh_serviceTime h) (peer_of r.2 i) < price (eh_serviceTime h) (peer_of h i);
  outcome_settled : r.1 = NextPeer -> eh_continueSending r.2 = true \/ settled (peer_of r.2 i)
}.
Lemma price_gone now p : gone p = true -> price now p = 0.
Proof. unfold price. by intros ->. Qed.
Lemma price_load now p : gone p = false -> price now p = load now p.
Proof. unfold price. by intros ->. Qed.

(** After the acknowledgements: [low] says that some were sent, [blank] that none had to be. *)
Lemma commanded_outcome h h1 t h' :
  gone (peer_of h i) = false -> turned i h h1 -> commanded h1 h' ->
  (pe_acknowledgements (peer_of h1 i) = [] \/ eh_continueSending h1 = true) ->
  (gone (peer_of h1 i) = true /\ 0 < price (eh_serviceTime h) (peer_of h i)) \/
  load (eh_serviceTime h) (peer_of h1 i) + 2 <= load (eh_serviceTime h) (peer_of h i) \/
  (load (eh_serviceTime h) (peer_of h1 i) <= load (eh_serviceTime h) (peer_of h i) /\ blank h1 /\
     eh_continueSending h1 = eh_continueSending h) ->
  outcome h (t, h').
Proof.
  intros Hg T [T' R L G Q W B] Ha Hcase. rw (turned_time _ _ _ T) in L B.
  assert (load (eh_serviceTime h) (peer_of h' i) >= 0).
  { unfold load. pose proof (base_range (eh_serviceTime h) (peer_of h' i)). pose proof (weights (pe_outgoing (peer_of h' i))). lia. }
  assert (price (eh_serviceTime h) (peer_of h' i) <= load (eh_serviceTime h) (peer_of h' i)) by (unfold price; destruct (gone (peer_of h' i)); lia).
  assert (eh_continueSending h' = true \/ settled (peer_of h' i)) as Hs.
  { destruct W as [W|W]; [by left|]. destruct Q as [Q|Q]; [right; by right|].
    destruct Ha as [Ha|Ha]; [right; right; by rw Q Ha|left; by apply (turned_continue _ _ _ T')]. }
  assert (turned i h h') as T2 by by transitivity h1.
  destruct Hcase as [[Hz Hp]|[Hl|(Hl & Hb & Hc)]].
  - pose proof (price_gone (eh_serviceTime h) _ (G Hz)). split; cbn [fst snd]; [done|done|lia|intros; right; lia|done].
  - pose proof (price_load (eh_serviceTime h) _ Hg) as Ep. split; cbn [fst snd]; [done|done|lia|intros; right; lia|done].
  - pose proof (price_load (eh_serviceTime h) _ Hg) as Ep. split; cbn [fst snd]; [done|done| | |done]; destruct (B Hb) as [[B1 B2]|B1].
    + lia.
    + lia.
    + intros _ Hcs. left. rw -Hc. auto.
    + intros _ _. right. lia.
Qed.

(** The acknowledgements, from an empty datagram. *)
Lemma acknowledgements_outcome h h1 : in_range h -> ready (peer_of h i) -> gone (peer_of h i) = false -> blank h ->
  h1 = exec (enet_protocol_send_acknowledgements i) h ->
  ready (peer_of h1 i) /\ turned i h h1 /\
  (pe_acknowledgements (peer_of h1 i) = [] \/ eh_continueSending h1 = true) /\
  ((gone (peer_of h1 i) = true /\ 0 < price (eh_serviceTime h) (peer_of h i)) \/
   load (eh_serviceTime h) (peer_of h1 i) + 2 <= load (eh_serviceTime h) (peer_of h i) \/
   (load (eh_serviceTime h) (peer_of h1 i) <= load (eh_serviceTime h) (peer_of h i) /\ blank h1 /\
     eh_continueSending h1 = eh_continueSending h)).
Proof.
  intros Hi Hr Hg Hb E1. unfold enet_protocol_send_acknowledgements in E1. rewrite -> exec_peer in E1.
  pose proof (acking_send (pe_acknowledgements (peer_of h i)) h) as [T S (E2&E3&E4&E5&E6&E7)]. rw -E1 in T S E2 E3 E4 E5 E6 E7.
  destruct (acknowledgements_left _ h Hi eq_refl) as (L1 & L2 & L3). rw -E1 in L1 L2 L3.
  assert (ready (peer_of h1 i)) as Hr1.
  { revert Hr. apply ready_same; [|done..]. destruct S as [S|S]; [by left|right; unfold vacant; by rw S]. }
  split; [done|]. split; [done|]. split; [done|].
  destruct (pe_acknowledgements (peer_of h i)) as [|a l] eqn:Ea.
  - right. right. cbn in E1. rw E1. done.
  - specialize (L3 Hb (proj1 Hr)). destruct S as [S|S].
    + right. left. unfold load, base, leaving. rw S E6 E7 Ea.
      enough (zlength (pe_acknowledgements (peer_of h1 i)) < zlength (a :: l)) by lia. by apply L3.
    + left. split; [unfold gone; by rw S|]. rw (price_load _ _ Hg). unfold load.
      pose proof (weights (pe_outgoing (peer_of h i))). unfold base. rw Ea.
      assert (zlength (a :: l) = 1 + zlength l) as -> by (unfold zlength; simpl; lia). pose proof (zlength_nonneg l).
      pose proof (total_bounds (stale (eh_serviceTime h)) 1 (pe_sentReliable (peer_of h i)) (stale_range _)).
      destruct (any_fresh _ _), (leaving _); lia.
Qed.
Lemma timeouts_outcome ev h1 : in_range h1 -> ready (peer_of h1 i) ->
  let late := eval (enet_protocol_check_timeouts ev i) h1 in let h2 := exec (enet_protocol_check_timeouts ev i) h1 in
  turned i h1 h2 /\
  if late then gone (peer_of h2 i) = true /\ (mtu_ok h1 -> ready (peer_of h2 i))
  else ready (peer_of h2 i) /\ pe_acknowledgements (peer_of h2 i) = pe_acknowledgements (peer_of h1 i) /\
    (forall now, now = eh_serviceTime h1 -> load now (peer_of h2 i) = load now (peer_of h1 i)) /\
    gone (peer_of h2 i) = gone (peer_of h1 i) /\ (blank h1 -> blank h2).
Proof.
  intros Hi [[A1 A2 A3 A4] F]. unfold enet_protocol_check_timeouts. set (now := eh_serviceTime h1).
  pose proof (timeouts_shifted now (pe_sentReliable (peer_of h1 i)) [] [] (pe_outgoing (peer_of h1 i)) (peer_of h1 i) A4 F) as S.
  cbv zeta. rewrite -> exec_bind, eval_bind. change (exec (gets eh_serviceTime) h1) with h1. change (eval (gets eh_serviceTime) h1) with now.
  rewrite -> exec_peer, eval_bind. change (eval (the_peer i) h1) with (peer_of h1 i). change (exec (the_peer i) h1) with h1.
  destruct (timeouts _ _ _ _ _ _) as [late q]. cbn [snd rev app] in S. rewrite -> !exec_bind, !eval_bind.
  set (h2 := exec (on_peer i (fun _ => q)) h1). change (eval (ret late) ?x) with late. change (exec (ret late) ?x) with x.
  assert (turned i h1 h2) as T by apply turned_on_peer. pose proof (turned_range _ _ T Hi) as Hi2.
  assert (peer_of h2 i = q) as E by by apply peer_of_on_peer. assert (blank h1 -> blank h2) as Hb by done.
  assert (ready (peer_of h2 i)) as Hr2.
  { rw E. destruct S as [(S1&S2&S3&S4&S5&S6) Sf Sl [Sa Sb]]. pose proof (limits_same (peer_of h1 i) q S3 S1) as El.
    split; [split; [by rw S3|by rw S4 S5|by rw S6|by rw El]|by rw El]. }
  destruct late; cbn [when].
  - destruct (notify_gone ev h2 Hi2) as [T' G]. split; [by transitivity h2|]. split; [done|].
    intros Hm. apply notify_ready; [done| |done]. unfold mtu_ok. by rw (turned_mtu _ _ _ T).
  - change (exec (ret tt) h2) with h2. split; [done|]. split; [done|]. rw E. destruct S as [(S1&S2&S3&S4&S5&S6) Sf Sl [Sa Sb]].
    split_and!; [done| |by unfold gone; rw S1|done].
    + intros ? ->. fold now. unfold load, base, leaving. set (p := peer_of h1 i) in *.
      assert (pe_state q = pe_state p) as -> by exact S1.
      assert (pe_acknowledgements q = pe_acknowledgements p) as -> by exact S2.
      assert (any_fresh now (pe_sentReliable q) = any_fresh now (pe_sentReliable p)) as -> by exact Sf.
      assert (total weight (pe_outgoing q) + total (stale now) (pe_sentReliable q) =
        total weight (pe_outgoing p) + total (stale now) (pe_sentReliable p)) by exact Sl. lia.
Qed.
Lemma run_bind {A B} (m : M enet_host A) (k : A -> M enet_host B) h : bind m k h = k (eval m h) (exec m h).
Proof. unfold bind, eval, exec. by destruct (m h). Qed.
Lemma send_to_peer_outcome ev check h : in_range h -> mtu_ok h -> ready (peer_of h i) -> outcome h (send_to_peer ev check i h).
Proof.
  intros Hi Hm Hr. unfold send_to_peer. change (bind (the_state i) ?k h) with (k (pe_state (peer_of h i)) h). cbv beta.
  change (bool_decide (pe_state (peer_of h i) = DISCONNECTED) || bool_decide (pe_state (peer_of h i) = ZOMBIE)) with (gone (peer_of h i)).
  destruct (gone (peer_of h i)) eqn:Hg.
  { split; cbn [fst snd]; [reflexivity|done|done|by left|right; by left]. }
  rewrite -> run_bind. set (h0 := exec (on_host _) h).
  assert (in_range h0 /\ ready (peer_of h0 i) /\ gone (peer_of h0 i) = false /\ blank h0 /\ mtu_ok h0) as (Hi0 & Hr0 & Hg0 & Hb0 & Hm0) by done.
  assert (forall r, outcome h0 r -> outcome h r) as Hback.
  { intros r [T G P A S]. split; [|done..]. etransitivity; [|exact T]. by split. }
  apply Hback. clearbody h0. clear Hback Hi Hm Hr Hg h. revert h0 Hi0 Hr0 Hg0 Hb0 Hm0. intros h Hi Hr Hg Hb Hm.
  rewrite -> run_bind. set (h1 := exec (enet_protocol_send_acknowledgements i) h).
  destruct (acknowledgements_outcome h h1 Hi Hr Hg Hb eq_refl) as (Hr1 & T1 & Ha & Hcase). clearbody h1.
  pose proof (turned_range _ _ T1 Hi) as Hi1.
  rewrite -> run_bind. change (exec (gets id) h1) with h1. change (eval (gets id) h1) with h1.
  rewrite -> run_bind. change (exec (the_peer i) h1) with h1. change (eval (the_peer i) h1) with (peer_of h1 i).
  rewrite -> run_bind. destruct (_ && _).
  - pose proof (timeouts_outcome ev h1 Hi1 Hr1) as [T2 L]. pose proof (asks_timeouts ev h1) as C2. unfold asks in C2.
    destruct (eval _ h1); set (h2 := exec _ h1) in *; clearbody h2.
    + rewrite -> run_bind. change (exec (gets eh_event) h2) with h2. set (e := _ && _).
      destruct L as [L Lr]. pose proof (price_gone (eh_serviceTime h) _ L) as E. pose proof (price_backlog (eh_serviceTime h) (peer_of h i)) as Hp.
      change (ret ?x h2) with (x, h2). split; cbn [fst snd]; [by transitivity h1| |lia| |right; by left].
      { apply Lr. unfold mtu_ok. by rw (turned_mtu _ _ _ T1). }
      intros _. rw E C2. intros Hc. destruct Hcase as [[_ H]|[H|(_ & _ & H)]]; [by right|right|left; congruence].
      rw (price_load _ _ Hg). pose proof (base_range (eh_serviceTime h) (peer_of h1 i)). unfold load in H |- *.
      pose proof (weights (pe_outgoing (peer_of h1 i))). lia.
    + destruct L as (Hr2 & E2 & L2 & G2 & B2). specialize (L2 (eh_serviceTime h)). rw (turned_time _ _ _ T1) in L2. specialize (L2 eq_refl).
      pose proof (turned_range _ _ T2 Hi1) as Hi2. rewrite -> (surjective_pairing (send_commands i h2)).
      eapply (commanded_outcome h h2); [done|by transitivity h1|by apply send_commands_commanded| |].
      * by rw E2 C2.
      * rw G2 L2 C2. destruct Hcase as [H|[H|(H1 & H2 & H3)]]; [by left|by right; left|right; right]. split; [done|]. split; [auto|done].
  - change (exec (ret false) h1) with h1. change (eval (ret false) h1) with false. cbv iota.
    rewrite -> (surjective_pairing (send_commands i h1)).
    eapply (commanded_outcome h h1); [done|done|by apply send_commands_commanded|done|done].
Qed.
End loop.

(** * The rounds *)

(** A host as its operations leave it. *)
Definition sendable (h : enet_host) : Prop := mtu_ok h /\ forall i, in_range i h -> ready (peer_of h i).
Definition host_price (now : Z) (h : enet_host) : Z :=
  foldr (fun i n => price now (peer_of h i) + n) 0 (peer_numbers h).

(** What a round over the peers [l] comes to. *)
Record round (h : enet_host) (l : list Z) (r : turn * enet_host) : Prop := {
  round_length : zlength (eh_peers r.2) = zlength (eh_peers h);
  round_time : eh_serviceTime r.2 = eh_serviceTime h;
  round_others : forall j, j ∉ l -> peer_of r.2 j = peer_of h j;
  round_sendable : sendable r.2;
  round_price : forall j, price (eh_serviceTime h) (peer_of r.2 j) <= price (eh_serviceTime h) (peer_of h j);
  round_continue : eh_continueSending h = true -> eh_continueSending r.2 = true;
  round_asks : r.1 = NextPeer -> eh_continueSending r.2 = true -> eh_continueSending h = true \/
    exists j, j ∈ l /\ price (eh_serviceTime h) (peer_of r.2 j) < price (eh_serviceTime h) (peer_of h j);
  round_settled : r.1 = NextPeer -> eh_continueSending r.2 = true \/ Forall (fun j => settled (peer_of r.2 j)) l
}.
Lemma send_round_round ev check l : forall h, NoDup l -> Forall (fun i => in_range i h) l -> sendable h ->
  round h l (send_round ev check l h).
Proof.
  induction l as [|i l IH]; intros h Hnd Hl Hs; cbn [send_round].
  { split; cbn [ret fst snd]; [done|done|done|done|done|done|by left|by right]. }
  apply NoDup_cons in Hnd as [Hni Hnd]. apply Forall_cons in Hl as [Hi Hl].
  rewrite -> run_bind. pose proof (send_to_peer_outcome i ev check h Hi (proj1 Hs) (proj2 Hs i Hi)) as [T G P A S].
  change (send_to_peer ev check i h).2 with (exec (send_to_peer ev check i) h) in *.
  change (send_to_peer ev check i h).1 with (eval (send_to_peer ev check i) h) in *.
  set (t := eval _ h) in *. set (h1 := exec _ h) in *. clearbody t h1.
  destruct T as [T1 T2 T3 T4 T5].
  assert (sendable h1) as Hs1.
  { split; [unfold mtu_ok; rw T4; apply Hs|].
    intros j Hj. destruct (decide (j = i)) as [->|Hne]; [done|]. rw T2 //. apply Hs. unfold in_range in *. by rw -T1. }
  assert (forall j, price (eh_serviceTime h) (peer_of h1 j) <= price (eh_serviceTime h) (peer_of h j)) as Hp.
  { intros j. destruct (decide (j = i)) as [->|Hne]; [done|]. by rw T2. }
  assert (forall t', t' <> NextPeer -> round h (i :: l) (ret t' h1)) as Hend.
  { intros t' Ht. split; cbn [ret fst snd]; [done|done| |done|done|done|done|done]. intros j Hj. apply T2. set_solver. }
  destruct t; [|by apply Hend|by apply Hend]. clear Hend. specialize (A eq_refl). specialize (S eq_refl).
  destruct (IH h1 Hnd) as [R1 R2 R3 R4 R5 R8 R6 R7]; [|done|].
  { eapply Forall_impl; [exact Hl|]. intros j. unfold in_range. by rw T1. }
  rw T3 in R2 R5 R6. split; [congruence|congruence| |done| |auto| |].
  - intros j Hj. rewrite -> R3 by set_solver. apply T2. set_solver.
  - intros j. etransitivity; [apply R5|apply Hp].
  - intros Ht Hc. destruct (R6 Ht Hc) as [Hc1|(j & Hj & Hlt)].
    + destruct (A Hc1) as [?|Hlt]; [by left|right]. exists i. split; [set_solver|]. by rw (R3 i Hni).
    + right. exists j. split; [set_solver|]. specialize (Hp j). lia.
  - intros Ht. destruct (R7 Ht) as [Hc|Hf]; [by left|]. destruct S as [S|S].
    + left. by apply R8.
    + right. constructor; [|done]. by rw (R3 i Hni).
Qed.

(** Lower for one peer, and higher for none. *)
Lemma host_price_drops now h h' : zlength (eh_peers h') = zlength (eh_peers h) ->
  (forall j, price now (peer_of h' j) <= price now (peer_of h j)) ->
  (exists j, j ∈ peer_numbers h /\ price now (peer_of h' j) < price now (peer_of h j)) ->
  host_price now h' < host_price now h.
Proof.
  intros El Hle (j & Hj & Hlt). unfold host_price, peer_numbers in *. rw El. revert Hj. induction (seqZ _ _) as [|k l IH]; [set_solver|].
  simpl. intros [->|Hj]%elem_of_cons; [|specialize (IH Hj); specialize (Hle k); lia].
  enough (foldr (fun i n => price now (peer_of h' i) + n) 0 l <= foldr (fun i n => price now (peer_of h i) + n) 0 l) by lia.
  clear IH. induction l as [|m l IH]; simpl; [done|]. specialize (Hle m). lia.
Qed.
Lemma host_price_fuel now h : 0 <= host_price now h < Z.of_nat (send_fuel h).
Proof.
  unfold host_price, send_fuel, peer_numbers.
  assert (forall l k, (forall j, (j < length l)%nat -> peer_of h (k + Z.of_nat j) = default no_peer (l !! j)) ->
    0 <= foldr (fun i n => price now (peer_of h i) + n) 0 (seqZ k (zlength l)) <= Z.of_nat (sum_list_with backlog l)) as H.
  { induction l as [|p l IH]; intros k Hk; [done|].
    assert (zlength (p :: l) = Z.succ (zlength l)) as -> by (unfold zlength; simpl; lia).
    rewrite -> seqZ_cons by (pose proof (zlength_nonneg l); lia). rw Z.pred_succ. cbn [foldr sum_list_with].
    assert (forall j, (j < length l)%nat -> peer_of h (Z.succ k + Z.of_nat j) = default no_peer (l !! j)) as Hk'.
    { intros j Hj. replace (Z.succ k + Z.of_nat j) with (k + Z.of_nat (S j)) by lia. apply (Hk (S j)). simpl. lia. }
    specialize (IH _ Hk').
    assert (peer_of h k = p) as -> by (rewrite <- (Z.add_0_r k); apply (Hk O); simpl; lia).
    pose proof (price_backlog now p). lia. }
  enough (forall j, (j < length (eh_peers h))%nat -> peer_of h (0 + Z.of_nat j) = default no_peer (eh_peers h !! j)) as Hj
    by (specialize (H _ _ Hj); lia).
  intros j Hj. unfold peer_of, zlookup. rewrite -> (proj2 (Z.leb_le _ _)) by lia. f_equal. f_equal. lia.
Qed.
Lemma send_rounds_end ev check fuel : forall h,
  sendable h -> eh_continueSending h = true -> host_price (eh_serviceTime h) h < Z.of_nat fuel ->
  let r := send_rounds fuel ev check h in
  sendable r.2 /\ zlength (eh_peers r.2) = zlength (eh_peers h) /\
  (r.1 = NextPeer -> eh_continueSending r.2 = false /\ Forall (fun i => settled (peer_of r.2 i)) (peer_numbers r.2)).
Proof.
  induction fuel as [|fuel IH]; intros h Hs Hc Hf.
  { pose proof (host_price_fuel (eh_serviceTime h) h). lia. }
  cbn [send_rounds]. rewrite -> run_bind. change (exec (gets id) h) with h. change (eval (gets id) h) with h. cbv zeta.
  rw Hc. rewrite -> run_bind. set (h0 := exec (on_host _) h).
  assert (sendable h0 /\ eh_serviceTime h0 = eh_serviceTime h /\ eh_continueSending h0 = false /\ zlength (eh_peers h0) = zlength (eh_peers h) /\
    host_price (eh_serviceTime h) h0 = host_price (eh_serviceTime h) h) as (Hs0 & Ht0 & Hc0 & Hl0 & Hp0) by done.
  clearbody h0. assert (peer_numbers h = peer_numbers h0) as -> by (unfold peer_numbers; by rw Hl0).
  rewrite -> run_bind.
  destruct (send_round_round ev check (peer_numbers h0) h0) as [R1 R2 R3 R4 R5 R8 R6 R7]; [apply NoDup_seqZ| |done|].
  { apply Forall_forall. intros j Hj%elem_of_seqZ. unfold in_range. lia. }
  change (send_round ev check (peer_numbers h0) h0).2 with (exec (send_round ev check (peer_numbers h0)) h0) in *.
  change (send_round ev check (peer_numbers h0) h0).1 with (eval (send_round ev check (peer_numbers h0)) h0) in *.
  set (t := eval _ h0) in *. set (h1 := exec _ h0) in *. clearbody t h1.
  destruct t; [|by split; [|split; [cbn; congruence|]]..].
  destruct (eh_continueSending h1) eqn:Hc1.
  - destruct (IH h1 R4 Hc1) as (I1 & I2 & I3); [|split_and!; [done|congruence|done]].
    destruct (R6 eq_refl eq_refl) as [?|Hd]; [congruence|].
    pose proof (host_price_drops (eh_serviceTime h0) h0 h1 R1 R5 Hd). rw R2. rw Ht0 in H |- *. lia.
  - destruct (R7 eq_refl) as [?|Hset]; [done|].
    assert (send_rounds fuel ev check h1 = (NextPeer, h1)) as E.
    { destruct fuel; [done|]. cbn [send_rounds]. rewrite -> run_bind. change (exec (gets id) h1) with h1. change (eval (gets id) h1) with h1.
      by rw Hc1. }
    rw E. cbn [fst snd]. split_and!; [done|congruence|]. intros _. split; [done|]. unfold peer_numbers in *. by rw R1.
Qed.

(** For a host whose peers can be sent to (their packets fit the datagrams they were cut for) the loop of
    [enet_protocol_send_outgoing_commands] stops by its own condition, however much waits and whatever the socket
    answers, unless an event or an error ends it; the peers can then be sent to as before, and each that is not
    gone has acknowledged all it received and has nothing left to send but reliable commands that may have to wait for their
    window, or its farewell. *)
Theorem sending_ends (ev check : bool) (h : enet_host) :
  sendable h ->
  let '(t, h') := enet_protocol_send_outgoing_commands ev check h in
  sendable h' /\ zlength (eh_peers h') = zlength (eh_peers h) /\
  (t = NextPeer -> eh_continueSending h' = false /\ Forall (fun i => settled (peer_of h' i)) (peer_numbers h')).
Proof.
  intros Hs. unfold enet_protocol_send_outgoing_commands. rewrite -> run_bind. set (h0 := exec (on_host _) h).
  assert (sendable h0 /\ eh_continueSending h0 = true /\ zlength (eh_peers h0) = zlength (eh_peers h)) as (Hs0 & Hc0 & Hl) by done.
  clearbody h0. rewrite -> run_bind. change (exec (gets id) h0) with h0. change (eval (gets id) h0) with h0.
  pose proof (proj2 (host_price_fuel (eh_serviceTime h0) h0)) as Hf.
  destruct (send_rounds_end ev check (send_fuel h0) h0 Hs0 Hc0 Hf) as (H1 & H2 & H3).
  destruct (send_rounds _ _ _ _) as [t h']. cbn [fst snd] in *. split_and!; [done|congruence|done].
Qed.

(** What a program queues keeps the peer able to be sent to. *)
Lemma setup_ready o p : ready p -> fits (limits p) (o <| out_roundTripTimeout := 0 |>) -> ready (enet_peer_setup_outgoing_command o p).
Proof.
  intros [[A1 A2 A3 A4] F] Ho. unfold enet_peer_setup_outgoing_command. cbv zeta.
  destruct (_ =? 0xFF); [|destruct (acknowledged _); [|destruct (unsequenced _); [|destruct (_ =? 0)]]];
    (split; [by split|]; apply Forall_app; split; [done|]; constructor; [exact Ho|done]).
Qed.
Lemma setup_limits o p : limits (enet_peer_setup_outgoing_command o p) = limits p.
Proof.
  unfold enet_peer_setup_outgoing_command. cbv zeta.
  destruct (_ =? 0xFF); [|destruct (acknowledged _); [|destruct (unsequenced _); [|destruct (_ =? 0)]]]; done.
Qed.
Lemma setup_all_ready l : forall p, ready p -> Forall (fun o => fits (limits p) (o <| out_roundTripTimeout := 0 |>)) l ->
  ready (fold_left (fun p o => enet_peer_setup_outgoing_command o p) l p).
Proof.
  induction l as [|o l IH]; intros p Hr Hl; cbn [fold_left]; [done|]. apply Forall_cons in Hl as [Ho Hl].
  apply IH; [by apply setup_ready|by rw setup_limits].
Qed.
Lemma fragment_list_steps fuel : forall number offset step total, 0 <= step -> 0 <= offset ->
  Forall (fun '(_, _, n) => 0 <= n <= step) (fragment_list fuel number offset step total).
Proof.
  induction fuel as [|fuel IH]; intros number offset step total Hs Ho; cbn [fragment_list]; [done|].
  destruct (Z.ltb_spec offset total); [|done]. destruct (Z.ltb_spec (total - offset) step).
  - constructor; [lia|]. eapply Forall_impl; [apply IH; lia|]. intros [[a b] c]. lia.
  - constructor; [lia|]. apply IH; lia.
Qed.
Lemma enet_peer_send_ready maximum id pk p : ready p -> ready (enet_peer_send maximum id pk p).2.
Proof.
  intros Hr. assert (0 <= pk_length pk) as Hn by apply zlength_nonneg.
  pose proof Hr as [[A1 _ _ _] _]. unfold ENET_PROTOCOL_MINIMUM_MTU, ENET_PROTOCOL_MAXIMUM_MTU in A1.
  unfold enet_peer_send. cbv zeta. destruct (_ || _) eqn:Eg; [done|].
  apply orb_false_iff in Eg as [[Es%negb_false_iff%bool_decide_eq_true _]%orb_false_iff _].
  assert (vacant p = false) as Hv by (unfold vacant; by rw Es). destruct (Z.gtb_spec (pk_length pk) (pe_mtu p - 4 - 24)) as [H|H].
  - destruct (_ >? _); [done|]. cbn [snd].
    pose proof (fragment_list_steps (Z.to_nat ((pk_length pk + (pe_mtu p - 4 - 24) - 1) / (pe_mtu p - 4 - 24))) 0 0
      (pe_mtu p - 4 - 24) (pk_length pk)) as Hl. fold (fragments_of (pe_mtu p - 4 - 24) (pk_length pk)) in Hl.
    apply setup_all_ready; [done|]. apply Forall_map. eapply Forall_impl; [apply Hl; lia|].
    intros [[number offset] n] Hs. split; [done|]. cbn [out_packet out_fragmentLength out_command update_field].
    change (u16 n) with (n mod 65536). rewrite -> Z.mod_small by lia. split; [done|]. split; [lia|].
    destruct (_ && _); [change (24 + n <= pe_mtu p - 4)|change (24 + n <= pe_mtu p - 4)]; lia.
  - cbn [snd]. apply setup_ready; [done|]. split; [done|]. cbn [out_packet out_fragmentLength out_command update_field].
    change (u16 (pk_length pk)) with (pk_length pk mod 65536). rewrite -> Z.mod_small by lia. split; [done|]. split; [lia|].
    destruct (_ =? ENET_PACKET_FLAG_UNSEQUENCED); [change (8 + pk_length pk <= pe_mtu p - 4); lia|].
    destruct (_ || _); [change (6 + pk_length pk <= pe_mtu p - 4)|change (8 + pk_length pk <= pe_mtu p - 4)]; lia.
Qed.

(** * Examples *)

Definition sample_peer : peer :=
  reset_peer 1400 no_peer <| pe_state := CONNECTED |> <| pe_channels := [empty_channel; empty_channel] |> <| pe_channelCount := 2 |>.
(** Three unreliable packets that nearly fill a datagram, and a reliable one that has to be cut in three. *)
Definition busy_peer : peer :=
  let unreliable p := (enet_peer_send 65536 0 (mkpacket 0 (replicate 1300 7)) p).2 in
  (enet_peer_send 65536 1 (mkpacket ENET_PACKET_FLAG_RELIABLE (replicate 3000 9)) (unreliable (unreliable (unreliable sample_peer)))).2.
Definition silent_peer : peer :=
  let unreliable p := (enet_peer_send 65536 0 (mkpacket 0 (replicate 1300 7)) p).2 in
  unreliable (unreliable (unreliable sample_peer)).
Definition host_of (l : list peer) : enet_host :=
  mkenet_host 0 0 0 1400 0 false l 2 10000 [] false 0 0 0 [] (0, 0) 0 0 0 0 (zlength l) 0 4095 None 65536 65536 NoEvent 0 [] [] [] [].
Definition busy_host : enet_host := host_of [busy_peer; sample_peer <| pe_state := ZOMBIE |>].

Lemma sample_ready s : ready (sample_peer <| pe_state := s |>).
Proof. split; [split|]; [by split|by split|done|constructor|constructor]. Qed.
Lemma connected_ready : ready sample_peer.
Proof. split; [split|]; [by split|by split|done|constructor|constructor]. Qed.
Lemma busy_sendable : sendable busy_host.
Proof.
  split; [by split|]. intros i Hi. assert (i = 0 \/ i = 1) as [->| ->] by (change (0 <= i < 2) in Hi; lia); [|change (peer_of busy_host 1) with (sample_peer <| pe_state := ZOMBIE |>); apply sample_ready].
  change (peer_of busy_host 0) with busy_peer. unfold busy_peer. cbv zeta. do 4 apply enet_peer_send_ready. exact connected_ready.
Qed.
Lemma sending_ends_witness :
  sendable busy_host /\
  let '(t, h') := enet_protocol_send_outgoing_commands true true busy_host in
  sendable h' /\ zlength (eh_peers h') = zlength (eh_peers busy_host) /\
  (t = NextPeer -> eh_continueSending h' = false /\ Forall (fun i => settled (peer_of h' i)) (peer_numbers h')).
Proof. split; [exact busy_sendable|]. apply (sending_ends true true busy_host busy_sendable). Defined.
Definition sent_sizes (h : enet_host) : list Z := map (fun '(_, d) => zlength d) (eh_sent h).
(** Every datagram holds what fits. *)
Example busy_host_sends :
  let '(t, h') := enet_protocol_send_outgoing_commands true true busy_host in
  t = NextPeer /\ sent_sizes h' = [1310; 1310; 1310; 1400; 1400; 292] /\ map (fun p => length (pe_outgoing p)) (eh_peers h') = [0; 0]%nat.
Proof. vm_compute. done. Qed.
(** Nothing was received for longer than the interval of pings, and only unreliable packets wait: after each datagram
    a ping is queued behind them, although one is queued already. *)
Example pings_pile_up :
  let '(t, h') := enet_protocol_send_outgoing_commands true true (host_of [silent_peer]) in
  t = NextPeer /\ sent_sizes h' = [1310; 1310; 1320] /\ map (fun p => length (pe_sentReliable p)) (eh_peers h') = [2]%nat.
Proof. vm_compute. done. Qed.
