(* ===== verification/Enetlive.v ===== *)
(** ENet: a host can always send.

    The theorem of Sending.v asks that the packets that wait fit the datagrams of their peers.  Here: whatever a host
    does, they do.  A peer whose datagrams may still get smaller, because the other side has not answered yet, has no
    packets waiting. *)
From S2P Require Import Prelude Enet Peer Protocol Enetbooks Sending.

#[local] Open Scope list_scope.

Abbreviation keeps := (respects (inv_rel sendable)).

(** * Changing a peer *)

Lemma keep_read {A B} (f : enet_host -> A) (k : A -> M enet_host B) :
  (forall h, sendable h -> inv_rel sendable h (exec (k (f h)) h)) -> keeps (bind (gets f) k).
Proof. intros Hk h Hs. by apply (Hk h Hs). Qed.
Lemma keep_gets {A} (f : enet_host -> A) : keeps (gets f).
Proof. apply respects_gets. apply _. Qed.
#[local] Hint Resolve keep_gets : respects.
Lemma keep_modify f : (forall h, eh_peers (f h) = eh_peers h /\ eh_mtu (f h) = eh_mtu h) -> keeps (modify f).
Proof.
  intros Hf h [Hm Hs]. destruct (Hf h) as [E1 E2]. cbn. split; [unfold mtu_ok; by rw E2|].
  intros i. unfold in_range, peer_of. rw E1. apply Hs.
Qed.
(** A change of a peer from a known state. *)
Lemma keep_on_peer_at i g h :
  (sendable h -> in_range i h -> ready (peer_of h i) -> ready (g (peer_of h i))) -> inv_rel sendable h (exec (on_peer i g) h).
Proof.
  intros Hg Hs. pose proof Hs as [Hm Hr]. split; [done|]. intros j Hj. pose proof (turned_on_peer i g h) as T.
  assert (in_range j h) as Hj' by (unfold in_range in *; by rw (turned_length _ _ _ T) in Hj).
  destruct (decide (j = i)) as [->|Hne].
  - rewrite -> peer_of_on_peer by done. auto.
  - rw (turned_others _ _ _ T j Hne). auto.
Qed.
Lemma keep_on_peer i g : (forall p, ready p -> ready (g p)) -> keeps (on_peer i g).
Proof. intros Hg h. apply keep_on_peer_at. auto. Qed.
Lemma keep_peers l h : (sendable h -> Forall2 (fun p q => ready p -> ready q) (eh_peers h) l) ->
  inv_rel sendable h (exec (on_host (fun h => h <| eh_peers := l |>)) h).
Proof.
  intros Hl Hs. specialize (Hl Hs). destruct Hs as [Hm Hr]. split; [done|]. intros i Hi.
  assert (in_range i h) as Hi'.
  { unfold in_range, zlength in *. cbn in Hi. by rw (Forall2_length _ _ _ Hl). }
  specialize (Hr i Hi'). unfold peer_of, zlookup in *. cbn [eh_peers update_field]. cbn.
  destruct (0 <=? i); [|done]. pose proof (Forall2_lookup (fun p q => ready p -> ready q) (eh_peers h) l) as [HF _].
  specialize (HF Hl (Z.to_nat i)). inversion HF as [p q Hpq E1 E2|E1 E2]; rw -E1 in Hr; [by apply Hpq|done].
Qed.
Lemma keep_every_peer g : (forall p, ready p -> ready (g p)) -> keeps (every_peer g).
Proof.
  intros Hg h. apply (keep_peers (map g (eh_peers h)) h). intros _. induction (eh_peers h) as [|p l IH]; constructor; auto.
Qed.
(** What is done in the turn of a peer. *)
Lemma keep_turned {A} i (m : M enet_host A) h : turned i h (exec m h) ->
  (in_range i h -> sendable h -> ready (peer_of h i) -> ready (peer_of (exec m h) i)) -> inv_rel sendable h (exec m h).
Proof.
  intros T Hr Hs. pose proof Hs as [Hm Hp]. split; [unfold mtu_ok; by rw (turned_mtu _ _ _ T)|].
  intros j Hj. assert (in_range j h) as Hj' by (unfold in_range in *; by rw (turned_length _ _ _ T) in Hj).
  destruct (decide (j = i)) as [->|Hne]; [auto|]. rw (turned_others _ _ _ T j Hne). auto.
Qed.

(** ** What leaves a peer ready *)

(** The fields that count stay, and commands only go. *)
Lemma ready_less p q :
  pe_state q = pe_state p \/ vacant q = false -> pe_mtu q = pe_mtu p -> pe_roundTripTime q = pe_roundTripTime p ->
  pe_roundTripTimeVariance q = pe_roundTripTimeVariance p -> (pe_channelCount p <= ENET_PROTOCOL_MAXIMUM_CHANNEL_COUNT -> pe_channelCount q <= ENET_PROTOCOL_MAXIMUM_CHANNEL_COUNT) ->
  (forall o, o ∈ pe_sentReliable q -> o ∈ pe_sentReliable p) -> (forall o, o ∈ pe_outgoing q -> o ∈ pe_outgoing p) ->
  ready p -> ready q.
Proof.
  intros Es Em E1 E2 E3 E4 E5 [[A1 A2 A3 A4] F].
  assert (forall o, fits (limits p) o -> fits (limits q) o) as Hf.
  { intros o. destruct Es as [Es|Es]; [by rw (limits_same _ _ Em Es)|by apply fits_used]. }
  rewrite -> Forall_forall in A4, F. split; [split; [by rw Em|by rw E1 E2|auto|]|]; apply Forall_forall; intros o Ho.
  - destruct (A4 o (E4 o Ho)). auto.
  - auto.
Qed.
(** Without packets the size of a datagram does not matter. *)
Lemma vacant_fits p m o : vacant p = true -> fits (limits p) o -> fits m o.
Proof. intros Hv [Ht H]. split; [done|]. destruct (out_packet o); [|done]. destruct H as [H _]. cbn in H. congruence. Qed.
Lemma ready_vacant p q :
  vacant p = true -> ENET_PROTOCOL_MINIMUM_MTU <= pe_mtu q <= ENET_PROTOCOL_MAXIMUM_MTU ->
  pe_roundTripTime q = pe_roundTripTime p -> pe_roundTripTimeVariance q = pe_roundTripTimeVariance p ->
  pe_channelCount q <= ENET_PROTOCOL_MAXIMUM_CHANNEL_COUNT ->
  pe_sentReliable q = pe_sentReliable p -> pe_outgoing q = pe_outgoing p -> ready p -> ready q.
Proof.
  intros Hv Hm E1 E2 E3 E4 E5 [[A1 A2 A3 A4] F]. split; [split; [done|by rw E1 E2|done|rw E4]|rw E5].
  - eapply Forall_impl; [exact A4|]. intros o [? ?]. split; [by eapply vacant_fits|done].
  - eapply Forall_impl; [exact F|]. intros o. by apply vacant_fits.
Qed.
Ltac ready_easy := intros; first [done | match goal with H : ready ?p |- _ => revert H; apply (ready_same p); [by left|done..] end].

Lemma ready_queue c offset len p : ready p -> ready (enet_peer_queue_outgoing_command c None offset len p).
Proof. intros Hr. apply setup_ready; [done|]. done. Qed.
Lemma ready_acknowledgement c t p : ready p -> ready (enet_peer_queue_acknowledgement c t p).
Proof. unfold enet_peer_queue_acknowledgement. destruct (_ && _); ready_easy. Qed.
Lemma ready_throttle rtt p : ready p -> ready (enet_peer_throttle rtt p).
Proof. unfold enet_peer_throttle. destruct (_ <=? _); [ready_easy|]. destruct (_ <=? _); [ready_easy|]. destruct (_ >? _); ready_easy. Qed.
Lemma ready_epoch now p : ready p -> ready (throttle_epoch now p).
Proof. unfold throttle_epoch. destruct (_ || _); ready_easy. Qed.
(** The round trip times stay below the time an answer may take. *)
Lemma ready_times p q :
  1 <= pe_roundTripTime q <= ENET_TIME_OVERFLOW -> 0 <= pe_roundTripTimeVariance q <= ENET_TIME_OVERFLOW ->
  pe_state q = pe_state p -> pe_mtu q = pe_mtu p -> pe_channelCount q = pe_channelCount p ->
  pe_sentReliable q = pe_sentReliable p -> pe_outgoing q = pe_outgoing p -> ready p -> ready q.
Proof.
  intros H1 H2 Es Em E3 E4 E5 [[A1 A2 A3 A4] F].
  split; [split; [by rw Em|done|by rw E3|]|]; by rw (limits_same _ _ Em Es) ?E4 ?E5.
Qed.
Lemma div_bounds n k : 0 < k -> k * (n / k) <= n < k * (n / k) + k.
Proof. intros Hk. pose proof (Z.div_mod n k). pose proof (Z.mod_pos_bound n k Hk). lia. Qed.
Lemma ready_measure t p : 1 <= t <= ENET_TIME_OVERFLOW -> ready p -> ready (measure t p).
Proof.
  intros Ht Hr. unfold measure. set (q := if _ >? 0 then _ else _).
  assert (ready q) as Hq; [|clearbody q; ready_easy]. unfold q. clear q. unfold ENET_TIME_OVERFLOW in Ht. destruct (_ >? 0).
  - pose proof (ready_throttle t p Hr) as Hr1. set (p1 := enet_peer_throttle t p) in *. clearbody p1. clear p Hr.
    pose proof Hr1 as [[_ [Hr Hv] _ _] _]. unfold ENET_TIME_OVERFLOW in *. cbv zeta.
    destruct (Z.leb_spec (pe_roundTripTime p1) t) as [H|H]; revert Hr1; apply ready_times; try done.
    + change (1 <= u32 (pe_roundTripTime p1 + (t - pe_roundTripTime p1) / 8) <= 86400000).
      pose proof (div_bounds (t - pe_roundTripTime p1) 8). unfold u32. rewrite -> Z.mod_small by lia. lia.
    + change (0 <= u32 (pe_roundTripTimeVariance p1 - pe_roundTripTimeVariance p1 / 4 + (t - pe_roundTripTime p1) / 4) <= 86400000).
      pose proof (div_bounds (t - pe_roundTripTime p1) 4). pose proof (div_bounds (pe_roundTripTimeVariance p1) 4).
      unfold u32. rewrite -> Z.mod_small by lia. lia.
    + change (1 <= pe_roundTripTime p1 - (pe_roundTripTime p1 - t) / 8 <= 86400000).
      pose proof (div_bounds (pe_roundTripTime p1 - t) 8). lia.
    + change (0 <= u32 (pe_roundTripTimeVariance p1 - pe_roundTripTimeVariance p1 / 4 + (pe_roundTripTime p1 - t) / 4) <= 86400000).
      pose proof (div_bounds (pe_roundTripTime p1 - t) 4). pose proof (div_bounds (pe_roundTripTimeVariance p1) 4).
      unfold u32. rewrite -> Z.mod_small by lia. lia.
  - revert Hr. apply ready_times; try done. change (0 <= u32 (t + 1) / 2 <= 86400000).
    pose proof (div_bounds (t + 1) 2). unfold u32. rewrite -> Z.mod_small by lia. lia.
Qed.

(** Taking a command out of a queue. *)
Lemma take_first_less {A} (f : A -> bool) l y l' : take_first f l = Some (y, l') -> forall x, x ∈ l' -> x ∈ l.
Proof.
  revert l'. induction l as [|x l IH]; intros l'; cbn [take_first]; [done|]. destruct (f x).
  - intros [= -> ->] z Hz. by apply elem_of_cons; right.
  - destruct (take_first f l) as [[y' l1]|]; [|done]. intros [= -> <-] z Hz. apply elem_of_cons in Hz as [->|Hz]; apply elem_of_cons; [by left|right].
    by apply (IH l1).
Qed.
Lemma take_resent_less number id l y l' : take_resent number id l = Some (y, l') -> forall x, x ∈ l' -> x ∈ l.
Proof.
  revert l'. induction l as [|x l IH]; intros l'; cbn [take_resent]; [done|].
  assert (('(y0, l0) ← take_resent number id l; Some (y0, x :: l0)) = Some (y, l') -> forall z, z ∈ l' -> z ∈ x :: l) as Hstep.
  { destruct (take_resent number id l) as [[y' l1]|]; [|done]. intros [= -> <-] z Hz. apply elem_of_cons in Hz as [->|Hz];
      apply elem_of_cons; [by left|right]. by apply (IH l1). }
  destruct (negb _); [done|]. destruct (_ <? 1); [done|]. destruct (is_command number id x); [|done].
  intros [= -> ->] z Hz. by apply elem_of_cons; right.
Qed.
Lemma ready_remove number id p : ready p -> ready (enet_protocol_remove_sent_reliable_command number id p).2.
Proof.
  intros Hr. unfold enet_protocol_remove_sent_reliable_command.
  assert (forall p1 (o : outgoing) (b : bool), ready p1 ->
    ready (let p := if id <? pe_channelCount p1 then on_channel id (release_window (current_window number)) p1 else p1 in
      let p := if b && (match out_packet o with Some _ => true | None => false end)
               then p <| pe_reliableDataInTransit ::= fun n => u32 (n - out_fragmentLength o) |> else p in
      match pe_sentReliable p with
      | [] => p
      | front :: _ => p <| pe_nextTimeout := u32 (out_sentTime front + out_roundTripTimeout front) |>
      end)) as Hend.
  { intros p1 o b H1. cbv zeta. destruct (id <? _), (b && _); destruct (pe_sentReliable _); ready_easy. }
  destruct (take_first _ _) as [[o l]|] eqn:E1.
  - apply (Hend (p <| pe_sentReliable := l |>) o true). revert Hr. apply ready_less; [by left|done..| |done]. by eapply take_first_less.
  - destruct (take_resent _ _ _) as [[o l]|] eqn:E2; [|done].
    apply (Hend (p <| pe_outgoing := l |>) o false). revert Hr. apply ready_less; [by left|done..|]. by eapply take_resent_less.
Qed.
Lemma ready_bandwidth outgoing now limit p : ready p -> ready (send_bandwidth_limit outgoing now limit p).
Proof. unfold send_bandwidth_limit. destruct (is_connected _); [|done]. intros Hr. apply ready_queue. ready_easy. Qed.
Lemma ready_limit limit p : ready p -> ready (limit_throttle limit p).
Proof. ready_easy. Qed.
Create HintDb ready.
#[export] Hint Resolve ready_queue ready_acknowledgement ready_throttle ready_epoch ready_remove ready_bandwidth ready_limit
  enet_peer_send_ready : ready.

(** * The operations *)

Ltac keep_step :=
  lazymatch goal with
  | |- respects _ (on_host _) => apply keep_modify; intros; done
  | |- respects _ (modify _) => apply keep_modify; intros; done
  | |- respects _ (on_peer _ _) => apply keep_on_peer; solve [ready_easy | eauto with ready]
  | |- respects _ (every_peer _) => apply keep_every_peer; solve [ready_easy | eauto with ready]
  end.
Ltac solve_keeps := repeat first [keep_step | respects_step | progress eauto with respects].

Lemma keep_the_peer i : keeps (the_peer i).
Proof. apply keep_gets. Qed.
Lemma keep_the_state i : keeps (the_state i).
Proof. apply keep_gets. Qed.
#[local] Hint Resolve keep_the_peer keep_the_state : respects.

(** ** States *)

Definition in_use (s : ENetPeerState) : bool := negb (bool_decide (s = DISCONNECTED) || bool_decide (s = CONNECTING)).
Lemma keep_state i s : in_use s = true -> keeps (on_peer i (fun p => p <| pe_state := s |>)).
Proof.
  intros Hs. apply keep_on_peer. intros p. apply ready_same; [|done..]. right. unfold in_use in Hs. unfold vacant. cbn.
  by apply negb_true_iff.
Qed.
Lemma keep_change_state i s : in_use s = true -> keeps (enet_protocol_change_state i s).
Proof.
  intros Hs. unfold enet_protocol_change_state, enet_peer_on_connect, enet_peer_on_disconnect.
  pose proof (keep_state i s Hs). solve_keeps.
Qed.
Lemma keep_needs_dispatch i : keeps (needs_dispatch i).
Proof. unfold needs_dispatch. solve_keeps. Qed.
Lemma keep_dispatch_state i s : in_use s = true -> keeps (enet_protocol_dispatch_state i s).
Proof.
  intros Hs. unfold enet_protocol_dispatch_state. pose proof (keep_change_state i s Hs). pose proof (keep_needs_dispatch i). solve_keeps.
Qed.
#[local] Hint Resolve keep_state keep_change_state keep_needs_dispatch keep_dispatch_state : respects.
Lemma keep_reset_queues i : keeps (enet_peer_reset_queues i).
Proof.
  unfold enet_peer_reset_queues. solve_keeps. apply keep_on_peer. intros p. apply ready_less; [by left|done..| |];
    cbn; by intros o ?%not_elem_of_nil.
Qed.
Lemma keep_reset i : keeps (enet_peer_reset i).
Proof.
  intros h. apply (keep_turned i); [apply (stays_turn _ _ _ (stays_reset i h))|]. intros Hi [Hm _] _. by apply reset_ready.
Qed.
#[local] Hint Resolve keep_reset_queues keep_reset : respects.
Lemma keep_notify_connect ev i : keeps (enet_protocol_notify_connect ev i).
Proof.
  unfold enet_protocol_notify_connect. pose proof (keep_change_state i CONNECTED eq_refl).
  assert (forall b : bool, keeps (enet_protocol_dispatch_state i (if b then CONNECTION_SUCCEEDED else CONNECTION_PENDING)))
    by (intros []; by apply keep_dispatch_state).
  solve_keeps.
Qed.
#[local] Hint Resolve keep_notify_connect : respects.

(** ** Sending *)

Lemma keep_send_outgoing ev check : keeps (enet_protocol_send_outgoing_commands ev check).
Proof.
  intros h Hs. pose proof (sending_ends ev check h Hs) as H. unfold exec.
  by destruct (enet_protocol_send_outgoing_commands ev check h) as [t h'], H as [H _].
Qed.
#[local] Hint Resolve keep_send_outgoing : respects.
Lemma keep_flush : keeps enet_host_flush.
Proof. unfold enet_host_flush, enet_time_get. solve_keeps. Qed.
#[local] Hint Resolve keep_flush : respects.
Lemma keep_disconnect_with flush i data : keeps flush -> keeps (disconnect_with flush i data).
Proof.
  intros Hf. unfold disconnect_with. pose proof (keep_state i DISCONNECTING eq_refl). unfold enet_peer_on_disconnect. solve_keeps.
Qed.
Lemma keep_disconnect i data : keeps (enet_peer_disconnect i data).
Proof. apply keep_disconnect_with, keep_flush. Qed.
Lemma keep_disconnect_now i data : keeps (enet_peer_disconnect_now i data).
Proof. unfold enet_peer_disconnect_now. solve_keeps. Qed.
Lemma keep_disconnect_later i data : keeps (enet_peer_disconnect_later i data).
Proof.
  unfold enet_peer_disconnect_later. pose proof (keep_disconnect i data). solve_keeps.
  apply keep_on_peer. intros p. by apply ready_same; [right|..].
Qed.

(** ** Receiving *)

Lemma keep_receive i : keeps (enet_peer_receive i).
Proof. unfold enet_peer_receive. solve_keeps. Qed.
#[local] Hint Resolve keep_receive : respects.
Lemma keep_dispatch_unreliable i id queued : keeps (enet_peer_dispatch_incoming_unreliable_commands i id queued).
Proof. unfold enet_peer_dispatch_incoming_unreliable_commands, hand_over. solve_keeps. Qed.
Lemma keep_dispatch_reliable i id queued : keeps (enet_peer_dispatch_incoming_reliable_commands i id queued).
Proof. unfold enet_peer_dispatch_incoming_reliable_commands, hand_over. pose proof (keep_dispatch_unreliable i id). solve_keeps. Qed.
#[local] Hint Resolve keep_dispatch_unreliable keep_dispatch_reliable : respects.
Lemma keep_queue_incoming junk i c data len flags count : keeps (enet_peer_queue_incoming_command junk i c data len flags count).
Proof. unfold enet_peer_queue_incoming_command. solve_keeps. Qed.
#[local] Hint Resolve keep_queue_incoming : respects.
Lemma keep_notify_disconnect ev i : keeps (enet_protocol_notify_disconnect ev i).
Proof. unfold enet_protocol_notify_disconnect. pose proof (keep_dispatch_state i ZOMBIE eq_refl). solve_keeps. Qed.
Lemma keep_disconnect_when_sent i sent : keeps (disconnect_when_sent i sent).
Proof. unfold disconnect_when_sent. pose proof (keep_disconnect_with (ret tt) i). solve_keeps. Qed.
#[local] Hint Resolve keep_notify_disconnect keep_disconnect_when_sent : respects.
Lemma clamp_mtu_range n : ENET_PROTOCOL_MINIMUM_MTU <= clamp_mtu n <= ENET_PROTOCOL_MAXIMUM_MTU.
Proof.
  unfold clamp_mtu, ENET_PROTOCOL_MINIMUM_MTU, ENET_PROTOCOL_MAXIMUM_MTU. destruct (Z.ltb_spec n 576); [lia|].
  destruct (Z.gtb_spec n 4096); lia.
Qed.
Lemma keep_verify_connect ev i c : keeps (enet_protocol_handle_verify_connect ev i c).
Proof.
  unfold enet_protocol_handle_verify_connect. apply keep_read. intros h Hs.
  destruct (negb (bool_decide (pe_state (peer_of h i) = CONNECTING))) eqn:E; [done|].
  apply negb_false_iff, bool_decide_eq_true in E.
  destruct (_ || _).
  { apply (respects_bind_at (inv_rel sendable)); [apply keep_on_peer; ready_easy|]. intros _.
    pose proof (keep_dispatch_state i ZOMBIE eq_refl). solve_keeps. }
  rewrite -> exec_bind. set (h1 := exec _ h). transitivity h1; [apply keep_on_peer; auto with ready|].
  apply (respects_bind_at (inv_rel sendable)); [|intros _; solve_keeps].
  apply keep_on_peer_at. intros _ Hi Hr.
  assert (pe_state (peer_of h1 i) = CONNECTING) as E1.
  { unfold h1. rewrite -> peer_of_on_peer; [by rw (proj1 (steady_remove 1 0xFF (peer_of h i)))|].
    unfold in_range in Hi. by rw (turned_length _ _ _ (turned_on_peer i _ h)) in Hi. }
  pose proof Hr as [[A1 _ A3 _] _]. pose proof (clamp_mtu_range (c_mtu c)). revert Hr. apply ready_vacant; try done.
  - unfold vacant. by rw E1.
  - change (ENET_PROTOCOL_MINIMUM_MTU <= Z.min (clamp_mtu (c_mtu c)) (pe_mtu (peer_of h1 i)) <= ENET_PROTOCOL_MAXIMUM_MTU). lia.
  - change (Z.min (c_channelCount c) (pe_channelCount (peer_of h1 i)) <= ENET_PROTOCOL_MAXIMUM_CHANNEL_COUNT). lia.
Qed.
Lemma keep_connect c data : keeps (enet_protocol_handle_connect c data).
Proof.
  unfold enet_protocol_handle_connect. apply keep_read. intros h Hs. unfold id.
  destruct (_ || _) eqn:Ec; [done|]. destruct (find_free _ _ _ _ _ _) as [[[i|] d]|] eqn:E; [|done|done].
  destruct (eh_duplicatePeers h <=? d); [done|].
  apply find_free_state in E as [|(m & -> & p & Hp & Es)]; [done|].
  assert (peer_of h (0 + Z.of_nat m) = p) as Ep.
  { unfold peer_of, zlookup. rewrite -> (proj2 (Z.leb_le 0 _)) by lia. by rw Z.add_0_l Nat2Z.id Hp. }
  rewrite -> exec_bind. change (exec (the_peer ?i) h) with h. change (eval (the_peer ?i) h) with (peer_of h i).
  rw Ep. cbv zeta. apply (respects_bind_at (inv_rel sendable)); [|intros _; solve_keeps].
  apply keep_on_peer_at. intros _ _. rw Ep. apply ready_vacant; try done.
  - unfold vacant. by rw Es.
  - apply clamp_mtu_range.
  - apply orb_false_iff in Ec as [_ Ec]. cbn. destruct (Z.gtb_spec (c_channelCount c) ENET_PROTOCOL_MAXIMUM_CHANNEL_COUNT); [done|].
    destruct (Z.gtb_spec (c_channelCount c) (eh_channelLimit h)); lia.
Qed.
Lemma keep_handle_acknowledge ev i c number sentTime : keeps (enet_protocol_handle_acknowledge ev i c number sentTime).
Proof.
  unfold enet_protocol_handle_acknowledge. apply keep_read. intros h Hs. unfold id.
  apply (respects_bind_at (inv_rel sendable)); [done|]. intros s. destruct (_ || _); [solve_keeps|]. cbv zeta.
  destruct (ENET_TIME_LESS _ _) eqn:El; [solve_keeps|].
  apply (respects_bind (inv_rel sendable)).
  - apply keep_on_peer. intros p Hr. set (t := Z.max (ENET_TIME_DIFFERENCE _ _) 1).
    assert (ready (throttle_epoch (eh_serviceTime h) (measure t p))) as H.
    { apply ready_epoch, ready_measure; [|done]. unfold t, ENET_TIME_LESS in *. unfold ENET_TIME_DIFFERENCE. rw El.
      apply Z.leb_gt in El. unfold ENET_TIME_OVERFLOW in *. lia. }
    revert H. generalize (throttle_epoch (eh_serviceTime h) (measure t p)). intros q. by apply ready_same; [left|..].
  - intros _. unfold the_peer. apply keep_read. intros h1 Hs1.
    pose proof (ready_remove number (h_channelID c) (peer_of h1 i)) as Hr.
    destruct (enet_protocol_remove_sent_reliable_command _ _ _) as [kind p].
    apply (respects_bind_at (inv_rel sendable)); [apply keep_on_peer_at; auto|]. intros _. 
    solve_keeps.
Qed.
#[local] Hint Resolve keep_verify_connect keep_connect keep_handle_acknowledge : respects.
Lemma keep_handle_disconnect i c data : keeps (enet_protocol_handle_disconnect i c data).
Proof.
  unfold enet_protocol_handle_disconnect. pose proof (keep_dispatch_state i ZOMBIE eq_refl).
  pose proof (keep_change_state i ACKNOWLEDGING_DISCONNECT eq_refl). solve_keeps.
Qed.
#[local] Hint Resolve keep_handle_disconnect : respects.
Lemma keep_handle_command junk ev i c data : keeps (handle_command junk ev i c data).
Proof.
  unfold handle_command.
  destruct (p_body c); unfold enet_protocol_handle_ping, enet_protocol_handle_bandwidth_limit,
    enet_protocol_handle_send_reliable, enet_protocol_handle_send_unreliable, enet_protocol_handle_send_unsequenced,
    enet_protocol_handle_send_fragment, enet_protocol_handle_send_unreliable_fragment, enet_protocol_handle_throttle_configure;
    solve_keeps.
Qed.
#[local] Hint Resolve keep_handle_command : respects.
Lemma keep_acknowledge i c t : keeps (acknowledge i c t).
Proof. unfold acknowledge. solve_keeps. Qed.
#[local] Hint Resolve keep_acknowledge : respects.
Lemma keep_handle_commands fuel junk ev who t l : keeps (handle_commands fuel junk ev who t l).
Proof. revert who l. induction fuel as [|fuel IH]; intros who l; cbn [handle_commands]; solve_keeps. Qed.
#[local] Hint Resolve keep_handle_commands : respects.
Lemma keep_incoming junk ev l : keeps (enet_protocol_handle_incoming_commands junk ev l).
Proof. unfold enet_protocol_handle_incoming_commands. solve_keeps. Qed.
#[local] Hint Resolve keep_incoming : respects.
Lemma keep_receive_datagrams packets junk ev : keeps (receive_datagrams packets junk ev).
Proof. induction packets as [|packets IH]; cbn [receive_datagrams]; solve_keeps. Qed.
#[local] Hint Resolve keep_receive_datagrams : respects.

(** ** Events and bandwidth *)

Lemma keep_dispatch_peer i : keeps (dispatch_peer i).
Proof. unfold dispatch_peer. pose proof (keep_change_state i CONNECTED eq_refl). solve_keeps. Qed.
#[local] Hint Resolve keep_dispatch_peer : respects.
Lemma keep_dispatch_loop fuel : keeps (dispatch_loop fuel).
Proof. induction fuel as [|fuel IH]; cbn [dispatch_loop]; solve_keeps. Qed.
#[local] Hint Resolve keep_dispatch_loop : respects.
Lemma adjust_throttles_ready now elapsed throttle l s a :
  Forall2 (fun p q => ready p -> ready q) l (adjust_throttles now elapsed throttle l s a).1.1.
Proof.
  revert s a. induction l as [|p l IH]; intros s a; cbn [adjust_throttles]; [constructor|]. cbv zeta.
  destruct (_ || _).
  - pose proof (IH s a) as H'. destruct (adjust_throttles _ _ _ l s a) as [[? ?] ?]. by constructor.
  - match goal with |- context [adjust_throttles ?x ?y ?z l ?u true] => pose proof (IH u true) as H';
      destruct (adjust_throttles x y z l u true) as [[? ?] ?] end. constructor; [ready_easy|done].
Qed.
Lemma adjust_limits_ready now limit l remaining band a :
  Forall2 (fun p q => ready p -> ready q) l (adjust_limits now limit l remaining band a).1.1.1.
Proof.
  revert remaining band a. induction l as [|p l IH]; intros remaining band a; cbn [adjust_limits]; [constructor|].
  destruct (_ || _).
  - pose proof (IH remaining band a) as H'. destruct (adjust_limits _ _ l _ _ _) as [[[? ?] ?] ?]. by constructor.
  - match goal with |- context [adjust_limits ?x ?y l ?u ?v true] => pose proof (IH u v true) as H';
      destruct (adjust_limits x y l u v true) as [[[? ?] ?] ?] end. constructor; [ready_easy|done].
Qed.
Lemma keep_adjust_loop fuel now elapsed s : keeps (adjust_loop fuel now elapsed s).
Proof.
  revert s. induction fuel as [|fuel IH]; intros s; cbn [adjust_loop]; [solve_keeps|]. destruct (_ >? 0); [|solve_keeps].
  apply keep_read. intros h _. unfold id. pose proof (adjust_throttles_ready now elapsed (throttle_of s) (eh_peers h) s false) as H'.
  destruct (adjust_throttles _ _ _ _ _ _) as [[l s'] a].
  apply (respects_bind_at (inv_rel sendable)); [by apply keep_peers|]. intros _. solve_keeps.
Qed.
Lemma keep_limit_loop fuel now remaining band limit : keeps (limit_loop fuel now remaining band limit).
Proof.
  revert remaining band limit. induction fuel as [|fuel IH]; intros remaining band limit; cbn [limit_loop]; [solve_keeps|].
  destruct (_ >? 0); [|solve_keeps]. apply keep_read. intros h _. unfold id. cbv zeta.
  pose proof (adjust_limits_ready now (band / remaining) (eh_peers h) remaining band false) as H'.
  destruct (adjust_limits _ _ _ _ _ _) as [[[l r] b] a].
  apply (respects_bind_at (inv_rel sendable)); [by apply keep_peers|]. intros _. solve_keeps.
Qed.
#[local] Hint Resolve keep_adjust_loop keep_limit_loop : respects.
Lemma keep_throttle : keeps enet_host_bandwidth_throttle.
Proof.
  unfold enet_host_bandwidth_throttle, enet_time_get.
  assert (forall s now, keeps (every_peer (fun p => if negb (is_connected (pe_state p)) || (pe_outgoingBandwidthThrottleEpoch p =? now)
    then p else limit_throttle (throttle_of s) p))) as Hlimit.
  { intros s now. apply keep_every_peer. intros p Hr. destruct (_ || _); ready_easy. }
  solve_keeps.
Qed.
#[local] Hint Resolve keep_throttle : respects.
Lemma keep_check_events : keeps enet_host_check_events.
Proof. unfold enet_host_check_events, enet_protocol_dispatch_incoming_commands. solve_keeps. Qed.
#[local] Hint Resolve keep_check_events : respects.
Lemma keep_service junk ev : keeps (enet_host_service junk ev).
Proof.
  unfold enet_host_service, enet_protocol_receive_incoming_commands, enet_protocol_dispatch_incoming_commands, enet_time_get. solve_keeps.
Qed.
Lemma clamp_channels_limit n : clamp_channels n <= ENET_PROTOCOL_MAXIMUM_CHANNEL_COUNT.
Proof.
  unfold clamp_channels, ENET_PROTOCOL_MAXIMUM_CHANNEL_COUNT, ENET_PROTOCOL_MINIMUM_CHANNEL_COUNT. destruct (Z.ltb_spec n 1); [lia|].
  destruct (Z.gtb_spec n 255); lia.
Qed.
Lemma keep_host_connect address count data : keeps (enet_host_connect address count data).
Proof.
  unfold enet_host_connect. apply keep_read. intros h Hs. unfold id.
  destruct (first_free _ _) as [i|] eqn:E; [|done]. apply first_free_state in E as (m & -> & p & Hp & Es).
  cbv zeta. rewrite -> exec_bind. set (h1 := exec _ h). transitivity h1; [apply keep_modify; done|].
  assert (peer_of h1 (0 + Z.of_nat m) = p) as Ep.
  { unfold peer_of, zlookup. rewrite -> (proj2 (Z.leb_le 0 _)) by lia. unfold h1. cbn. by rw Nat2Z.id Hp. }
  apply (respects_bind_at (inv_rel sendable)); [|intros _; solve_keeps].
  apply keep_on_peer_at. intros _ _. rw Ep. intros Hr. pose proof Hr as [[A _ _ _] _]. revert Hr. apply ready_vacant; try done.
  - unfold vacant. by rw Es.
  - apply clamp_channels_limit.
Qed.
Lemma call_keeps c : keeps (run_call c).
Proof.
  destruct c; cbn [run_call]; unfold enet_host_broadcast, enet_host_bandwidth_limit, enet_host_channel_limit;
    auto using keep_flush, keep_disconnect, keep_disconnect_later, keep_disconnect_now;
    pose proof keep_service; pose proof keep_host_connect; solve_keeps.
  apply keep_every_peer. intros p Hr. destruct (bool_decide _); auto with ready.
Qed.

(** C5: Sending ends, and sends what may be sent.  From the creation of a host on, whatever the network delivers, the
    socket answers and the program asks of it: whenever the host sends, the loop stops by its own condition, however
    much waits, unless an event or an error ends it; and then every peer that is not gone has acknowledged all it
    received and has nothing left to send but reliable commands that may have to wait for their window, or its
    farewell. *)
Theorem host_sends peerCount channelLimit incoming outgoing seed clock inbox answers h calls ev check :
  enet_host_create peerCount channelLimit incoming outgoing seed clock inbox answers = Some h ->
  let '(t, h') := enet_protocol_send_outgoing_commands ev check (exec (forM calls run_call) h) in
  t = NextPeer -> eh_continueSending h' = false /\ Forall (fun i => settled (peer_of h' i)) (peer_numbers h').
Proof.
  intros E. assert (sendable h) as Hs.
  { unfold enet_host_create in E. destruct (_ >? _); [done|]. injection E as <-. split; [by split|]. intros i Hi.
    unfold peer_of. apply zlookup_is_Some in Hi as [p Hp]. rw Hp. cbn [default]. apply zlookup_elem_of in Hp.
    cbn [eh_peers] in Hp. apply list_elem_of_fmap in Hp as (n & -> & _).
    split; [split; [by split|by split|done|constructor]|constructor]. }
  assert (sendable (exec (forM calls run_call) h)) as Hs'.
  { clear E. revert h Hs. induction calls as [|c calls IH]; intros h Hs; cbn [forM]; [done|].
    rewrite -> exec_bind. apply IH. by apply call_keeps. }
  pose proof (sending_ends ev check _ Hs') as H. by destruct (enet_protocol_send_outgoing_commands _ _ _) as [t h'], H as (_ & _ & H).
Qed.
(** A client has connected, in two datagrams; then forty packets are sent to it at once. *)
Lemma host_sends_witness :
  match enet_host_create 2 2 0 0 0 sample_clock sample_inbox [] with
  | Some h =>
    let calls := replicate 3 (CallService 0) ++ replicate 40 (CallSend 0 0 (mkpacket 0 (replicate 100 7))) in
    let '(t, h') := enet_protocol_send_outgoing_commands true true (exec (forM calls run_call) h) in
    t = NextPeer /\ sent_sizes h' = [48; 10; 1298; 1298; 1298; 434] /\ eh_continueSending h' = false /\ Forall (fun i => settled (peer_of h' i)) (peer_numbers h')
  | None => False
  end.
Proof.
  destruct (enet_host_create 2 2 0 0 0 sample_clock sample_inbox []) as [h|] eqn:E; [|discriminate E]. cbv zeta.
  set (calls := replicate 3 (CallService 0) ++ _).
  pose proof (host_sends 2 2 0 0 0 sample_clock sample_inbox [] h calls true true E) as H.
  assert ((fun '(t, h') => (t, sent_sizes h')) (enet_protocol_send_outgoing_commands true true (exec (forM calls run_call) h)) =
    (NextPeer, [48; 10; 1298; 1298; 1298; 434])) as H1.
  { injection E as <-. vm_compute. reflexivity. }
  destruct (enet_protocol_send_outgoing_commands true true (exec (forM calls run_call) h)) as [t h'].
  injection H1 as -> H1. destruct (H eq_refl) as [H2 H3]. split; [reflexivity|]. split; [exact H1|]. split; [exact H2|exact H3].
Defined.
